(* ===== verification/_CoqProject ===== *)
-Q . S2P
Prelude.v
Enums.v
Model.v
MemTable.v
MemData.v
DeliveryRepo.v
DeliveryQueue.v
DeliveryProps.v
DeliveryJobs.v
Repos.v
ReposProps.v
Provider.v
Prog.v
Settings.v
Campaign.v
CampaignLoops.v
CampaignProps.v
Maintenance.v
OutboxDispatch.v
Classify.v
Policy.v
Health.v
Codec.v
Tokens.v
LineReader.v
Email.v
Text.v
SigV1.v
Platform.v
BounceReport.v
Bounce.v
Message.v
Send.v
SendProps.v
NetIP.v
Spf.v
SpfProps.v
DnsCheck.v
DnsProps.v
MailboxHealth.v
Mailbox.v
Pop3.v
Pop3Props.v
Imap.v
MailboxProps.v
Poller.v
PollerProps.v
ProbeHeaders.v
Probe.v
ProbeCollect.v
ProbeProps.v
TenantLoops.v
TenantLoopsProps.v
Leader.v
TrackingBuffer.v
TrackingProps.v
SenderLoop.v
SenderLoopProps.v
Ingest.v
IngestProps.v
Overlay.v
OverlayContent.v
OverlayProps.v
OverlayState.v
OverlayShared.v
ProbeInbound.v
ProbeInboundProps.v
