(* ===== verification/Prelude.v ===== *)
(** * sendplane: a verification library

    sendplane is an e-mail delivery plane: tenants define senders, templates
    and campaigns through an API, a control plane starts, drives and finishes
    campaigns, sender replicas claim deliveries, render and send them, and
    bounce processors and tracking routes feed what happened back.  All of
    these talk to each other only through a store with one contract and three
    backends.  This library models the in-memory backend, which is the
    executable reference of that contract, and the components around it, as
    definitions that compute, and proves what makes them correct.

    ** The parts and the files

    - [Prelude] (this file): record update in the style of Go's field
      assignment, int64, [time.Duration] and [time.Time] (nanoseconds, 0 the
      zero time), Go's maps as stdpp's [gmap], errors, the state-and-error
      monad [M], the tactics and hint databases, and lemmas on lists and maps.
    - [Enums], [Model]: the enums of store/enums.go with their text codecs, and
      every struct of the store contract as a record with the struct's fields
      and zero value (store/*.go).
    - [MemTable], [MemData], [DeliveryRepo], [Repos], [Provider]: the in-memory
      backend (store/memstore): the generic table with its optimistic versions
      and pagination (table.go), the tenant's data and table descriptions
      (memstore.go), the delivery queue (delivery.go), all other repositories
      (repos.go), and the provider that holds the tenants.  A method is an
      atomic step on the tenant's data, because the code runs it under the
      provider's mutex; what it reads from the world (closed or not, clock,
      tenant, fresh IDs) is its [Env].
    - [DeliveryQueue], [DeliveryProps], [ReposProps]: the queue's invariant,
      its state machine, and the theorems about queue, locks, outbox,
      suppressions and tracking; [DeliveryJobs]: the runs of workers that claim,
      mark and complete, with leases running out under them, over all other
      users of the queue.
    - [Prog]: an operation that makes several store calls is a program: a tree
      of calls and context polls.  [run] executes it alone, [exec] is every
      interleaving with others that obey a rely relation, [wp] is the
      rely-guarantee precondition that covers them all, [mwp] the same with an
      automaton that reads the steps, for what a step may do after earlier ones,
      and [poolRun] runs any number of programs against each other.
    - [Settings] (store/tenant.go); [Campaign], [CampaignLoops],
      [CampaignProps], [Maintenance], [OutboxDispatch] (internal/control):
      tenant settings, the campaign operations, the scheduler, finalizer and
      canceller, lease reaper and retention, and the outbox dispatcher.
    - [TenantLoops], [TenantLoopsProps], [Leader] (internal/control/loops.go,
      leader.go): a round of a leader loop over the tenants, and the election of
      the replica that runs them; [TrackingBuffer], [TrackingProps]
      (internal/control/tracking.go): the buffer of tracking events with its
      flusher and its [Close].  Election and buffer are step relations.
    - [Classify], [Policy], [Health] (internal/sender): reply classification,
      the retry policy with its float64 jitter, the transport circuit.
    - [Codec], [Tokens] (internal/tracking): varints and base64url, then
      tracking tokens and VERP bounce addresses.
    - [Email] (store/email.go): the canonical form of an address; [Text]: what
      trimming leaves alone, and that decimals and hex are read back.
    - [Platform], [Overlay], [OverlayContent] (store/platform.go, overlay.go,
      overlay_content.go): the operator's catalog of shared resources and its
      validation, the virtual rows and the provider wrapper that merges them
      with the stores, and the shared templates and layouts.  Every method is a
      program over the provider.  [OverlayProps], [OverlayState],
      [OverlayShared] hold their theorems.
    - [BounceReport], [Bounce] (internal/bounce): reading a report, and what
      handling it does to the stores, over the whole provider.
    - [Message], [Send], [SendProps] (internal/sender): building a message up to
      what is set on the go-mail message, processing a delivery over a world of store, circuit and wire, the
      batcher, and their theorems.
    - [MailboxHealth] (internal/mbhealth): what an observation of a mailbox
      does to its health; [ProbeHeaders], [Probe], [ProbeCollect], [ProbeProps]
      (internal/probe): the headers of a probe mail, the verdict, and the
      programs that start, collect and summarise probes.  [SigV1],
      [ProbeInbound], [ProbeInboundProps] (internal/probe/inbound,
      internal/api/probeinbound.go, probe.go): the signed webhook through which a
      probe mail comes back, its formats, routes and memo, and the handler, whose
      programs run over all stores.
    - [NetIP], [Spf], [SpfProps], [DnsCheck], [DnsProps] (internal/dnscheck): the
      bytes of an address and its prefixes, the parser and evaluator of SPF
      records with their lookup budget, the checks of a domain (SPF, DKIM, DMARC,
      MX, PTR) and their report; the resolver is an argument.
    - [Mailbox], [Pop3], [Pop3Props], [Imap], [MailboxProps] (internal/mailbox):
      the interface of a mailbox session, its configuration and errors, the POP3
      client over any network, the IMAP client over the library's commands, and
      what they promise: an acknowledged message is not fetched again
      ([UnhandledMail]), proved against the servers' RFCs.
    - [Poller], [PollerProps] (internal/bounce/poller.go, bounce.go): the workers
      of the bounce mailboxes, one pass over a mailbox against that interface,
      and the record of its health.
    - [SenderLoop], [SenderLoopProps] (internal/sender/sender.go): the claim
      loop of a replica with the workers of its lanes, tenant opening, the
      running-campaign cache and the heartbeats.
    - [LineReader], [Ingest], [IngestProps] (internal/ingest): reading a body
      in lines over [bufio], and the ingest of a campaign's recipients with its
      batches, limits and resumable chunks.

    ** How the code is represented

    A Go function that reads and writes one repository is a function on the
    tenant's data, with the error paths as values of a sum; one that makes
    several store calls is a [progOn]; a loop is a structural [Fixpoint], or one
    with fuel where Go loops on a condition.  Fuel is always bounded by a datum
    of the loop: one page per campaign in [CampaignLoops] ([maxRetryChunks] and
    the chunk budgets are the code's own), the length of the text in the
    scanners, [maxDepth] levels of MIME nesting, the pages of the system
    tenant's templates in [OverlayContent], the pages of running campaigns in
    [SenderLoop] (running out counts as a failed listing there), the pages of
    a listing in [Probe] (one per row is enough, [run_drain]), the levels of
    includes and redirects in [Spf] (the code's own depth limit, which the lookup
    budget always precedes), the batches the session timeout leaves room for in
    [Poller] (running out is the deadline's error, and a mailbox with fewer
    messages is drained, [poll_drains]); where it matters
    a theorem shows that it suffices ([each_campaign_terminates],
    [paginate_walk_complete], [overlay_walk_complete]).  Code outside the repository is an argument:
    HMAC, JSON, Liquid and MJML, the MIME and mail libraries, IDNA, DKIM, the
    host's cipher, the relay's answers and the host's hooks.  No theorem assumes anything of them
    that its statement does not say.

    ** What the theorems show

    - Queue: reachable states satisfy the invariant; every operation refines the
      delivery state machine, but for the owner's second result on a row it has
      marked sent, which workers with one open job per row do not send; a lease
      is exclusive; a claim stores leases on exactly the best rows; and with such
      workers a delivery marked sent is not claimed again without an explicit
      retry.
    - Campaigns: every interleaving of the operations and loops moves campaigns
      along the state machine's edges; completion and start guards are exact;
      loops terminate and drain.
    - Send path: at most one SMTP transaction per processed delivery, a row that
      is sent exactly if the relay accepted, suppressed addresses not mailed,
      the retry budget spent exactly, no header injection.
    - Claim loop: in every interleaving with the workers no lane and no tenant
      exceeds its limit, the loop never blocks, and no capacity leaks.
    - Control replicas: of the replicas whose loops run at most one holds a
      lease that has not run out; a round ticks every active tenant once, and a
      quiet one for exactly its grace.
    - Tracking: every recorded event is counted once, the buffer stays in its
      bound and is empty after [Close] if its context lasted until then, and a first interaction comes from an
      event of a person.
    - Bounces and tokens: tokens and bounce addresses round-trip and cannot be
      made up; all a bounce mail changes besides its own record rests on verified
      evidence about a sent delivery and a mark that took effect, and it takes
      effect once.
    - Outbox, locks, suppressions, tables, settings: no event is lost, claims
      are disjoint, locks exclude, updates are not lost.
    - Ingest: a call adds exactly the addresses of its valid lines, repeating a
      stopped call gives what one undisturbed call gives, the limit holds, and
      the line reader yields the body's lines however it is cut into reads.
    - Platform: the configuration of a shared resource is in no table whatever
      requests run concurrently; a tenant sees the shared senders and nothing
      else of the platform and reaches no other tenant's data; exactly the
      configuration writes are refused; state is written and read back without
      lost updates; listings are complete; operator defaults are never adopted;
      a validated catalog resolves; a tenant's template comes before a shared
      one and an unshared one is invisible.

    - Probes: every verdict a collect writes has its evidence on the run and is
      judged by the mailbox the store held for it, a
      forged header has no influence, silence is red only as a streak, a
      sender's health is the worst of its newest runs, a waiting run has its
      mail; a mailbox's health is exactly its history.  A webhook is accepted
      exactly if it is signed, writes only what a verified token names in any
      interleaving, answers what it did, and repeats without effect.
    - DNS: the SPF evaluator computes exactly a relational reading of RFC 7208
      over the resolver's answers, no record makes it exceed its lookups, and
      an address matches a prefix exactly when their leading bits agree.
    - Mailboxes: credentials go out only after the transport is encrypted where
      encryption is configured, a POP3 transfer delivers a message's lines less
      the carriage returns at their ends, a pass acknowledges exactly what it
      handled, fetches only under a lock confirmed since the fetch before, and
      releases it on every path, a mailbox that keeps the interface's
      promise is drained, exactly the enabled mailboxes have workers, and the
      backoff is exact.

    Some theorems state what the code does against its documentation:
    [stale_completion_resends], [retry_lost_to_completion],
    [retry_explicit_queued_repeats], [truncate_err_splits_rune],
    [bounce_crash_loses_suppression], [platform_list_skipped_when_off],
    [stale_result_emits_event], [late_ingest_strands], [line_reader_exact] (the
    one last line that is lost), [shared_list_skips],
    [close_after_cancel_strands], [late_renewal_two_leaders],
    [unsigned_mail_accepted], [failing_search_turns_red],
    [unsigned_slash_tenant_misparsed], [pop3_keep_never_drains],
    [refresh_keeps_stale_config], [imap_order_lexicographic], [retr_drops_cr],
    [stale_timeout_overwrites], [spellings_unordered], [invalid_name_kept].

    ** Not modelled

    The PostgreSQL and MongoDB backends (their behaviour is the servers'), the
    generated HTTP layer, the SMTP connection pool and the float64 token
    buckets, template rendering, the tickers that time the loops, and the web
    console.  Sockets, TLS, the IMAP and MIME libraries and the DNS exchange are
    arguments of the definitions that use them.  The bounce processor is modelled
    over the plain provider: the sender it looks up for the platform's
    suppression list is the tenant's row, not the overlay's virtual one. *)

From Stdlib Require Export ZArith Lia.

From stdpp Require Export base gmap strings list sorting numbers tactics pretty.

#[global] Open Scope Z_scope.

(** ** Record update

    Go mutates struct fields in place.  [r <| f := v |>] is the struct [r]
    with field [f] assigned [v]; the updater of a field is computed from the
    eta expansion of its record, declared once per struct as an [Eta]
    instance. *)

Class Eta (R : Type) := eta : R → R.
Class Upd {R T : Type} (p : R → T) := upd : (T → T) → R → R.
Arguments upd {R T} p {_} _ _.

Ltac derive_upd :=
  lazymatch goal with
  | |- @Upd ?R ?T ?p =>
      let f := fresh "f" in
      let r := fresh "r" in
      unfold Upd; intros f r;
      let i := constr:(_ : Eta R) in
      let e := eval hnf in (i r) in
      let g := eval pattern (p r) in e in
      lazymatch g with
      | ?h _ => let t := eval cbv beta in (h (f (p r))) in exact t
      end
  end.

#[global] Hint Extern 1 (@Upd _ _ _) => derive_upd : typeclass_instances.

Notation "r <| p := v |>" := (upd p (λ _, v) r)
  (at level 1, left associativity, p at level 200, format "r <| p := v |>").

(** ** Machine integers

    Go's [int] and [int64] are 64-bit two's complement; an increment wraps. *)

Definition int64 (z : Z) : Z := (z + 2 ^ 63) `mod` 2 ^ 64 - 2 ^ 63.
Definition minInt64 : Z := - 2 ^ 63.
Definition maxInt64 : Z := 2 ^ 63 - 1.
Definition in_int64 (z : Z) : Prop := minInt64 ≤ z ≤ maxInt64.

Lemma int64_small z : in_int64 z → int64 z = z.
Proof.
  unfold in_int64, int64, minInt64, maxInt64. intros Hz.
  rewrite Z.mod_small; lia.
Qed.

Lemma int64_range z : in_int64 (int64 z).
Proof.
  unfold in_int64, int64, minInt64, maxInt64.
  pose proof (Z.mod_pos_bound (z + 2 ^ 63) (2 ^ 64)). lia.
Qed.

(** ** Time

    A [time.Time] is the number of nanoseconds since Go's zero time (year 1,
    UTC), so the zero value, which the store contract reads as SQL NULL, is
    [0].  A [time.Duration] is a number of nanoseconds. *)

Abbreviation Time := Z (only parsing).
Abbreviation Duration := Z (only parsing).

Definition Nanosecond : Duration := 1.
Definition Millisecond : Duration := 1000000.
Definition Second : Duration := 1000 * Millisecond.
Definition Minute : Duration := 60 * Second.
Definition Hour : Duration := 60 * Minute.

Definition zeroTime : Time := 0.
Definition IsZero (t : Time) : bool := t =? 0.
Definition Before (t u : Time) : bool := t <? u.
Definition After (t u : Time) : bool := u <? t.
Definition addTime (t : Time) (d : Duration) : Time := t + d.

(** [t.Sub(u)] saturates at the bounds of [Duration]. *)
Definition subTime (t u : Time) : Duration :=
  Z.max minInt64 (Z.min maxInt64 (t - u)).

(** ** Strings

    A Go string is a sequence of bytes, compared bytewise: Stdlib's [string]
    with [String.compare], which stdpp orders as [String.le]. *)

Definition strLt (a b : string) : bool := bool_decide (String.le a b ∧ a ≠ b).
Definition strLe (a b : string) : bool := bool_decide (String.le a b).
Definition strEq (a b : string) : bool := bool_decide (a = b).

Definition len {A} (l : list A) : Z := Z.of_nat (length l).

(** [slices.Contains] and the hand written membership loops. *)
Definition contains {A} `{EqDecision A} (xs : list A) (x : A) : bool :=
  bool_decide (x ∈ xs).

(** [sort.Strings] *)
Definition sortStrings (l : list string) : list string := merge_sort String.le l.

(** [if limit > 0 && len(l) > limit { l = l[:limit] }] *)
Definition capTo {A} (limit : Z) (l : list A) : list A :=
  if (0 <? limit) && (limit <? len l) then take (Z.to_nat limit) l else l.

(** The keys of the rows a predicate keeps, in key order: a [range] over a Go
    map that appends matching keys, followed by [sort.Strings].  Go randomizes
    the iteration order; sorting removes the dependence on it
    ([selectIDs_order_irrelevant]). *)
Definition selectIDs {A} (P : string → A → bool) (rows : gmap string A) : list string :=
  sortStrings ((filter (λ kv, P kv.1 kv.2 = true) (map_to_list rows)).*1).

(** [for _, id := range ids { mutate rows[id] }] *)
Definition alterAll {A} (f : A → A) (ids : list string) (rows : gmap string A) : gmap string A :=
  foldl (λ m id, alter f id m) rows ids.

(** [for _, id := range ids { delete(rows, id) }] *)
Definition deleteAll {A} (ids : list string) (rows : gmap string A) : gmap string A :=
  foldl (λ m id, delete id m) rows ids.

(** ** Errors

    A Go error is identified by its sentinel: callers only inspect errors with
    [errors.Is].  The detail text [fmt.Errorf] adds after the sentinel goes to
    logs and is not represented. *)

Inductive error :=
  | ErrNotFound
  | ErrConflict
  | ErrInvalid
  | ErrLeaseLost
  | ErrReadOnly
  | errClosed
  | errNamed (name : string).

#[global] Instance error_eq_dec : EqDecision error.
Proof. solve_decision. Defined.

(** [errors.Is(err, target)] *)
Definition errIs (e target : error) : bool := bool_decide (e = target).

(** ** Effects

    An operation reads and writes a state and returns a value or an error.
    The state reached before an error is kept, as it is in Go. *)

Definition M (S A : Type) : Type := S → (error + A) * S.

Definition ret {S A} (a : A) : M S A := λ s, (inr a, s).
Definition throw {S A} (e : error) : M S A := λ s, (inl e, s).
Definition bind {S A B} (m : M S A) (k : A → M S B) : M S B := λ s,
  match m s with
  | (inl e, s') => (inl e, s')
  | (inr a, s') => k a s'
  end.

(** [r, err := m(); if err != nil { ... }] with both outcomes handled. *)
Definition attempt {S A} (m : M S A) : M S (error + A) := λ s,
  let '(r, s') := m s in (inr r, s').

Declare Scope go_scope.
Delimit Scope go_scope with go.
Notation "'let!' x ':=' m 'in' k" := (bind m (λ x, k))
  (at level 10, x name, m at level 100, k at level 200,
   format "'[v' 'let!'  x  ':='  m  'in' '/' k ']'") : go_scope.
Notation "'let!' ' x ':=' m 'in' k" := (bind m (λ x, k))
  (at level 10, x strict pattern, m at level 100, k at level 200,
   format "'[v' 'let!'  ' x  ':='  m  'in' '/' k ']'") : go_scope.
Notation "m ';!' k" := (bind m (λ _, k))
  (at level 199, right associativity, format "'[v' m ';!' '/' k ']'") : go_scope.
#[global] Open Scope go_scope.

(** Run a sequence of statements, [for _, x := range xs { ... return err }]. *)
Fixpoint forEach {S A} (xs : list A) (f : A → M S unit) : M S unit :=
  match xs with
  | [] => ret tt
  | x :: xs' => f x ;! forEach xs' f
  end.

(** ** Automation *)

Create HintDb go.

(** Turn boolean tests of the code into the propositions they decide. *)
Ltac to_prop :=
  unfold strEq, strLe, strLt, contains, Before, After, IsZero, errIs, addTime, zeroTime in *;
  repeat match goal with
  | H : context [bool_decide ?P] |- _ => case_bool_decide
  | H : negb _ = true |- _ => apply negb_true_iff in H
  | H : negb _ = false |- _ => apply negb_false_iff in H
  | H : _ && _ = true |- _ => apply andb_true_iff in H as [? ?]
  | H : _ && _ = false |- _ => apply andb_false_iff in H as [?|?]
  | H : _ || _ = true |- _ => apply orb_true_iff in H as [?|?]
  | H : _ || _ = false |- _ => apply orb_false_iff in H as [? ?]
  | H : (_ <? _) = true |- _ => apply Z.ltb_lt in H
  | H : (_ <? _) = false |- _ => apply Z.ltb_ge in H
  | H : (_ <=? _) = true |- _ => apply Z.leb_le in H
  | H : (_ <=? _) = false |- _ => apply Z.leb_gt in H
  | H : (_ =? _) = true |- _ => apply Z.eqb_eq in H
  | H : (_ =? _) = false |- _ => apply Z.eqb_neq in H
  | H : true = true |- _ => clear H
  | H : false = false |- _ => clear H
  end; try discriminate.

(** Case split on the scrutinee of the next [if]/[match], in goal or hypotheses. *)
Ltac split_if :=
  match goal with
  | |- context [if ?b then _ else _] => destruct b eqn:?
  | H : context [if ?b then _ else _] |- _ => destruct b eqn:?
  end.

Ltac go_solve := to_prop; simplify_eq; eauto with go lia.

(** ** Time lemmas *)

Lemma addTime_le t d : 0 ≤ d → t ≤ addTime t d.
Proof. unfold addTime; lia. Qed.

(** ** Sorting and selection lemmas *)

Lemma sortStrings_Permutation l : sortStrings l ≡ₚ l.
Proof. apply merge_sort_Permutation. Qed.

Lemma sortStrings_Sorted l : Sorted String.le (sortStrings l).
Proof. apply Sorted_merge_sort, _. Qed.

Lemma sortStrings_StronglySorted l : StronglySorted String.le (sortStrings l).
Proof. apply StronglySorted_merge_sort; apply _. Qed.

Lemma elem_of_sortStrings l x : x ∈ sortStrings l ↔ x ∈ l.
Proof. by rewrite sortStrings_Permutation. Qed.

Lemma NoDup_sortStrings l : NoDup l → NoDup (sortStrings l).
Proof. by rewrite sortStrings_Permutation. Qed.

Lemma sortStrings_proper l1 l2 : l1 ≡ₚ l2 → sortStrings l1 = sortStrings l2.
Proof.
  intros Hp. apply (Sorted_unique String.le); [apply sortStrings_Sorted..|].
  by rewrite !sortStrings_Permutation.
Qed.

#[global] Instance sortStrings_Proper : Proper ((≡ₚ) ==> (=)) sortStrings.
Proof. intros l1 l2. apply sortStrings_proper. Qed.

Lemma capTo_prefix {A} limit (l : list A) : ∃ rest, l = capTo limit l ++ rest.
Proof.
  unfold capTo. case_match.
  - exists (drop (Z.to_nat limit) l). by rewrite take_drop.
  - exists []. by rewrite app_nil_r.
Qed.

Lemma elem_of_capTo {A} limit (l : list A) x : x ∈ capTo limit l → x ∈ l.
Proof.
  intros Hx. destruct (capTo_prefix limit l) as [r Hr].
  rewrite Hr. apply elem_of_app. by left.
Qed.

Lemma NoDup_capTo {A} limit (l : list A) : NoDup l → NoDup (capTo limit l).
Proof.
  destruct (capTo_prefix limit l) as [r Hr]. rewrite Hr at 1.
  by intros (?&?&?)%list.NoDup_app.
Qed.

Lemma length_capTo {A} limit (l : list A) : 0 < limit → len (capTo limit l) = Z.min limit (len l).
Proof.
  intros Hl. unfold capTo, len. case_match eqn:E; to_prop.
  - rewrite length_take. unfold len in *. lia.
  - unfold len in *. lia.
  - unfold len in *. lia.
Qed.

Lemma capTo_unlimited {A} limit (l : list A) : limit ≤ 0 → capTo limit l = l.
Proof. intros. unfold capTo. destruct (0 <? limit) eqn:E; [|done]. to_prop; lia. Qed.

Lemma capTo_all {A} limit (l : list A) : len l ≤ limit → capTo limit l = l.
Proof. intros. unfold capTo. case_match eqn:E; [|done]. to_prop; lia. Qed.

Lemma length_capTo_le {A} limit (l : list A) : (length (capTo limit l) ≤ length l)%nat.
Proof. destruct (capTo_prefix limit l) as [r Hr]. rewrite Hr at 2. rewrite length_app. lia. Qed.

Lemma selectIDs_order_irrelevant {A} (P : string → A → bool) rows l :
  l ≡ₚ map_to_list rows →
  sortStrings ((filter (λ kv, P kv.1 kv.2 = true) l).*1) = selectIDs P rows.
Proof. intros Hp. unfold selectIDs. apply sortStrings_proper. by rewrite Hp. Qed.

Lemma elem_of_selectIDs {A} (P : string → A → bool) rows id :
  id ∈ selectIDs P rows ↔ ∃ v, rows !! id = Some v ∧ P id v = true.
Proof.
  unfold selectIDs. rewrite elem_of_sortStrings, list_elem_of_fmap. split.
  - intros ([k v]&->&[HP Hin]%list_elem_of_filter). simpl in *.
    apply elem_of_map_to_list in Hin. eauto.
  - intros (v&Hv&HP). exists (id, v). split; [done|].
    apply list_elem_of_filter. split; [done|]. by apply elem_of_map_to_list.
Qed.

Lemma NoDup_selectIDs {A} (P : string → A → bool) rows : NoDup (selectIDs P rows).
Proof.
  unfold selectIDs. apply NoDup_sortStrings.
  eapply sublist_NoDup; [apply (NoDup_fst_map_to_list rows)|].
  apply fmap_sublist, sublist_filter.
Qed.

Lemma Sorted_selectIDs {A} (P : string → A → bool) rows :
  StronglySorted String.le (selectIDs P rows).
Proof. apply sortStrings_StronglySorted. Qed.

(** ** Batched updates *)

Lemma alterAll_notin {A} (f : A → A) ids rows k :
  k ∉ ids → alterAll f ids rows !! k = rows !! k.
Proof.
  unfold alterAll. revert rows. induction ids as [|i ids IH]; intros rows Hk; simpl; [done|].
  rewrite IH by set_solver. rewrite lookup_alter_ne; set_solver.
Qed.

Lemma alterAll_in {A} (f : A → A) ids rows k :
  NoDup ids → k ∈ ids → alterAll f ids rows !! k = f <$> rows !! k.
Proof.
  unfold alterAll. revert rows. induction ids as [|i ids IH]; intros rows Hnd Hk; [set_solver|].
  apply list.NoDup_cons in Hnd as [Hi Hnd]. simpl. destruct (decide (k = i)) as [->|Hne].
  - change (foldl (λ m id, alter f id m) (alter f i rows) ids)
      with (alterAll f ids (alter f i rows)).
    rewrite alterAll_notin by done. by rewrite lookup_alter_eq.
  - rewrite IH; [|done|set_solver]. by rewrite lookup_alter_ne.
Qed.

Lemma alterAll_lookup {A} (f : A → A) ids rows k :
  NoDup ids →
  alterAll f ids rows !! k = if decide (k ∈ ids) then f <$> rows !! k else rows !! k.
Proof. intros. case_decide; [by apply alterAll_in | by apply alterAll_notin]. Qed.

Lemma dom_alterAll {A} (f : A → A) ids (rows : gmap string A) : dom (alterAll f ids rows) = dom rows.
Proof.
  unfold alterAll. revert rows. induction ids as [|i ids IH]; intros rows; simpl; [done|].
  rewrite IH. apply dom_alter_L.
Qed.

Lemma deleteAll_lookup {A} ids (rows : gmap string A) k :
  deleteAll ids rows !! k = if decide (k ∈ ids) then None else rows !! k.
Proof.
  unfold deleteAll. revert rows. induction ids as [|i ids IH]; intros rows.
  - case_decide; [set_solver|done].
  - cbn [foldl]. rewrite IH. repeat case_decide; try set_solver.
    + assert (k = i) as -> by set_solver. by rewrite lookup_delete_eq.
    + rewrite lookup_delete_ne; [done|set_solver].
Qed.

#[export] Hint Resolve NoDup_selectIDs NoDup_capTo elem_of_capTo : go.

(** ** Effect lemmas *)

Lemma bind_inr {S A B} (m : M S A) (k : A → M S B) s b s' :
  bind m k s = (inr b, s') ↔ ∃ a s1, m s = (inr a, s1) ∧ k a s1 = (inr b, s').
Proof.
  unfold bind. destruct (m s) as [[e|a] s1]; split.
  - done.
  - intros (a&s2&?&?); done.
  - eauto.
  - intros (a'&s2&?&?); by simplify_eq.
Qed.

(** ** Strictly sorted lists of IDs

    A sorted list without duplicates is determined by its elements, and the
    elements above one of its members are the ones after it. *)

Lemma sorted_ext (l1 l2 : list string) :
  StronglySorted String.le l1 → StronglySorted String.le l2 → NoDup l1 → NoDup l2 →
  (∀ x, x ∈ l1 ↔ x ∈ l2) → l1 = l2.
Proof.
  intros. apply (StronglySorted_unique String.le); [done..|]. by apply NoDup_Permutation.
Qed.

Lemma sorted_after (l r : list string) c x :
  StronglySorted String.le (l ++ c :: r) → NoDup (l ++ c :: r) →
  x ∈ l ++ c :: r → (¬ String.le x c ↔ x ∈ r).
Proof.
  intros Hs Hnd Hx.
  assert (Hle : ∀ y, y ∈ l → String.le y c).
  { intros y Hy. eapply (StronglySorted_app_1_elem_of String.le _ _ _ _ Hs); set_solver. }
  apply StronglySorted_app_1_r in Hs. apply list.NoDup_app in Hnd as (_&_&Hnd).
  apply list.NoDup_cons in Hnd as [Hc _]. inversion Hs as [|? ? _ Hall]; subst.
  rewrite Forall_forall in Hall.
  split.
  - intros Hn. apply elem_of_app in Hx as [Hx|Hx]; [by destruct Hn; apply Hle|].
    apply elem_of_cons in Hx as [->|Hx]; [|done]. by destruct Hn.
  - intros Hr Hn. apply Hall in Hr as Hcx. assert (x = c) as -> by (by apply (anti_symm String.le)).
    done.
Qed.

Lemma empty_le (s : string) : String.le "" s.
Proof. by destruct s. Qed.

Lemma StronglySorted_drop (n : nat) (l : list string) :
  StronglySorted String.le l → StronglySorted String.le (drop n l).
Proof.
  intros Hs. rewrite <- (take_drop n l) in Hs. by eapply StronglySorted_app_1_r.
Qed.

Lemma int64_succ_neq z : int64 (z + 1) ≠ z.
Proof.
  intros He. pose proof (int64_range (z + 1)) as Hr. rewrite He in Hr.
  destruct (decide (z = maxInt64)) as [->|Hne]; [by vm_compute in He|].
  rewrite int64_small in He; unfold in_int64, minInt64, maxInt64 in *; lia.
Qed.

(** Counting the rows of a map by ranging over it. *)
Lemma length_filter_values {A} (P : A → bool) (m : gmap string A) :
  length (filter (λ v, P v = true) (map_to_list m).*2) = size (filter (λ kv, P kv.2 = true) m).
Proof.
  assert (Hf : ∀ l : list (string * A),
    length (filter (λ v, P v = true) l.*2) = length (filter (λ kv, P kv.2 = true) l)).
  { induction l as [|[k v] l IH]; [done|]. cbn [fmap list_fmap snd]. rewrite !filter_cons.
    cbn [snd]. case_decide; cbn; by rewrite IH. }
  rewrite Hf, <- length_map_to_list, map_filter_alt, map_to_list_to_map; [done|].
  eapply sublist_NoDup; [apply (NoDup_fst_map_to_list m)|]. apply fmap_sublist, sublist_filter.
Qed.

(** What a selection finds after its first elements were dealt with. *)
Lemma selectIDs_rest {A} (P : string → A → bool) (m m' : gmap string A) taken rest :
  selectIDs P m = taken ++ rest →
  (∀ id v, id ∈ taken → m' !! id = Some v → P id v = false) →
  (∀ id, id ∉ taken → m' !! id = m !! id) →
  selectIDs P m' = rest.
Proof.
  intros Hs Ht Hr. pose proof (NoDup_selectIDs P m) as Hnd. pose proof (Sorted_selectIDs P m) as Hso.
  rewrite Hs in Hnd, Hso. apply list.NoDup_app in Hnd as (_&Hdis&Hnd).
  apply sorted_ext; [apply Sorted_selectIDs|by eapply StronglySorted_app_1_r|apply NoDup_selectIDs|done|].
  intros id. rewrite elem_of_selectIDs. split.
  - intros (v&Hv&HP). destruct (decide (id ∈ taken)) as [Hin|Hin].
    + by rewrite (Ht id v Hin Hv) in HP.
    + rewrite (Hr id Hin) in Hv. assert (Hsel : id ∈ selectIDs P m) by (apply elem_of_selectIDs; eauto).
      rewrite Hs in Hsel. by apply elem_of_app in Hsel as [?|?].
  - intros Hin. assert (Hn : id ∉ taken) by (intros ?; by eapply Hdis).
    assert (Hsel : id ∈ selectIDs P m) by (rewrite Hs; apply elem_of_app; by right).
    apply elem_of_selectIDs in Hsel as (v&Hv&HP). exists v. by rewrite (Hr id Hn).
Qed.

Lemma capTo_take {A} limit (l : list A) : 0 < limit → capTo limit l = take (Z.to_nat limit) l.
Proof.
  intros Hl. unfold capTo, len. destruct (_ && _) eqn:E; [done|].
  rewrite (proj2 (Z.ltb_lt _ _)) in E by done. cbn in E. apply Z.ltb_ge in E.
  rewrite take_ge; [done|]. lia.
Qed.

Lemma length_omap_le {A B} (f : A → option B) (l : list A) : (length (omap f l) ≤ length l)%nat.
Proof. induction l as [|x l IH]; cbn; [lia|]. destruct (f x); cbn; unfold omap in *; lia. Qed.

Lemma NoDup_fmap_inj_on {A B} (f : A → B) (l : list A) x y :
  NoDup (f <$> l) → x ∈ l → y ∈ l → f x = f y → x = y.
Proof.
  intros Hnd [i Hi]%list_elem_of_lookup_1 [j Hj]%list_elem_of_lookup_1 Heq.
  assert (i = j) as <-; [|by simplify_eq]. eapply (NoDup_lookup _ i j (f x)); [done| |].
  - by rewrite list_lookup_fmap, Hi.
  - by rewrite list_lookup_fmap, Hj, Heq.
Qed.

Lemma length_filter_key {A} (key : A → string) (l : list A) k :
  NoDup (key <$> l) → length (filter (λ x, key x = k) l) = if decide (k ∈ key <$> l) then 1%nat else 0%nat.
Proof.
  induction l as [|x l IH]; [done|]. rewrite fmap_cons. intros [Hx Hnd]%NoDup_cons. rewrite filter_cons.
  specialize (IH Hnd). destruct (decide (key x = k)) as [<-|Hne].
  - cbn [length]. rewrite IH, decide_False by done. by rewrite decide_True by (by left).
  - rewrite IH. destruct (decide (k ∈ key <$> l)) as [Hk|Hk].
    + by rewrite decide_True by (by right).
    + rewrite decide_False; [done|]. rewrite not_elem_of_cons. split; [congruence|done].
Qed.
