(* ===== verification/Enums.v ===== *)
(** * Enumerations of the store contract ([store/enums.go])

    Each Go enum is an [int8] with a table of names.  The constants are the
    constructors of an inductive type; [ordinal] is the stored [int8] value,
    and the generic codec ([enumString], [enumText], [enumParse]) works on the
    integer exactly as the Go generics do, out-of-range values included. *)

From S2P Require Import Prelude.

(** ** The generic codec *)

Definition enumName (names : list string) (v : Z) : option string :=
  if v <? 0 then None else names !! Z.to_nat v.

Definition enumString (v : Z) (names : list string) : string :=
  match enumName names v with
  | Some n => n
  | None => "invalid(" +:+ pretty v +:+ ")"
  end.

Definition enumText (v : Z) (names : list string) : error + string :=
  match enumName names v with
  | Some n => inr n
  | None => inl ErrInvalid
  end.

(** The first name equal to the text gives the value; [i] is the loop index. *)
Fixpoint enumParseFrom (i : Z) (names : list string) (b : string) : error + Z :=
  match names with
  | [] => inl ErrInvalid
  | n :: names' => if strEq n b then inr i else enumParseFrom (i + 1) names' b
  end.

Definition enumParse (b : string) (names : list string) : error + Z := enumParseFrom 0 names b.

(** ** The interface an enum type implements *)

Class GoEnum (T : Type) := {
  ordinal : T → Z;
  names : list string;
  values : list T;
  values_ordinal : ordinal <$> values = seqZ 0 (len values);
  values_names : length values = length names;
  values_complete : ∀ v, v ∈ values;
  names_NoDup : NoDup names;
}.

Definition toText {T} `{GoEnum T} (v : T) : error + string := enumText (ordinal v) names.
Definition toString {T} `{GoEnum T} (v : T) : string := enumString (ordinal v) names.

(** [UnmarshalText]: the parsed integer converted to the enum type. *)
Definition ofText {T} `{GoEnum T} (b : string) : error + T :=
  match enumParse b names with
  | inl e => inl e
  | inr i => match values !! Z.to_nat i with Some v => inr v | None => inl ErrInvalid end
  end.

(** ** The enum types *)

Inductive DeliveryStatus :=
  | DeliveryPending | DeliveryQueued | DeliveryLeased | DeliveryDeferred | DeliverySent
  | DeliveryFailed | DeliveryBounced | DeliveryComplained | DeliverySuppressed | DeliveryCancelled.

Inductive Lane := LaneBulk | LaneTransactional | LaneProbe.

Inductive ErrorClass :=
  | ErrorClassNone | ErrorClassTransient | ErrorClassRateLimited
  | ErrorClassPermanent | ErrorClassPolicy | ErrorClassAuth.

Inductive CampaignStatus :=
  | CampaignDraft | CampaignScheduled | CampaignRunning
  | CampaignPaused | CampaignCompleted | CampaignCancelled.

Inductive TransportStatus := TransportHealthy | TransportCooldown | TransportUnhealthy.

Inductive BounceType := BounceUnknown | BounceHard | BounceSoft | BounceComplaint.

Inductive TrackingKind :=
  | TrackingOpen | TrackingClick | TrackingUnsubscribeClicked | TrackingUnsubscribed.

Inductive MailboxStatus := MailboxUnknown | MailboxOK | MailboxError.

Inductive HealthStatus := HealthUnknown | HealthGreen | HealthYellow | HealthRed.

#[global] Instance DeliveryStatus_eq_dec : EqDecision DeliveryStatus.
Proof. solve_decision. Defined.
#[global] Instance Lane_eq_dec : EqDecision Lane.
Proof. solve_decision. Defined.
#[global] Instance ErrorClass_eq_dec : EqDecision ErrorClass.
Proof. solve_decision. Defined.
#[global] Instance CampaignStatus_eq_dec : EqDecision CampaignStatus.
Proof. solve_decision. Defined.
#[global] Instance TransportStatus_eq_dec : EqDecision TransportStatus.
Proof. solve_decision. Defined.
#[global] Instance BounceType_eq_dec : EqDecision BounceType.
Proof. solve_decision. Defined.
#[global] Instance TrackingKind_eq_dec : EqDecision TrackingKind.
Proof. solve_decision. Defined.
#[global] Instance MailboxStatus_eq_dec : EqDecision MailboxStatus.
Proof. solve_decision. Defined.
#[global] Instance HealthStatus_eq_dec : EqDecision HealthStatus.
Proof. solve_decision. Defined.

(** The laws of a concrete enum hold by computation. *)
Ltac solve_enum :=
  solve [ reflexivity
        | intros []; set_solver
        | apply (bool_decide_unpack _); vm_compute; exact I ].

#[global] Program Instance DeliveryStatus_enum : GoEnum DeliveryStatus := {|
  ordinal v := match v with
    | DeliveryPending => 0 | DeliveryQueued => 1 | DeliveryLeased => 2 | DeliveryDeferred => 3
    | DeliverySent => 4 | DeliveryFailed => 5 | DeliveryBounced => 6 | DeliveryComplained => 7
    | DeliverySuppressed => 8 | DeliveryCancelled => 9 end;
  names := ["pending"; "queued"; "leased"; "deferred"; "sent";
            "failed"; "bounced"; "complained"; "suppressed"; "cancelled"]%string;
  values := [DeliveryPending; DeliveryQueued; DeliveryLeased; DeliveryDeferred; DeliverySent;
             DeliveryFailed; DeliveryBounced; DeliveryComplained; DeliverySuppressed; DeliveryCancelled];
|}.
Solve All Obligations with solve_enum.

#[global] Program Instance Lane_enum : GoEnum Lane := {|
  ordinal v := match v with LaneBulk => 0 | LaneTransactional => 1 | LaneProbe => 2 end;
  names := ["bulk"; "transactional"; "probe"]%string;
  values := [LaneBulk; LaneTransactional; LaneProbe];
|}.
Solve All Obligations with solve_enum.

#[global] Program Instance ErrorClass_enum : GoEnum ErrorClass := {|
  ordinal v := match v with
    | ErrorClassNone => 0 | ErrorClassTransient => 1 | ErrorClassRateLimited => 2
    | ErrorClassPermanent => 3 | ErrorClassPolicy => 4 | ErrorClassAuth => 5 end;
  names := ["none"; "transient"; "rate_limited"; "permanent"; "policy"; "auth"]%string;
  values := [ErrorClassNone; ErrorClassTransient; ErrorClassRateLimited;
             ErrorClassPermanent; ErrorClassPolicy; ErrorClassAuth];
|}.
Solve All Obligations with solve_enum.

#[global] Program Instance CampaignStatus_enum : GoEnum CampaignStatus := {|
  ordinal v := match v with
    | CampaignDraft => 0 | CampaignScheduled => 1 | CampaignRunning => 2
    | CampaignPaused => 3 | CampaignCompleted => 4 | CampaignCancelled => 5 end;
  names := ["draft"; "scheduled"; "running"; "paused"; "completed"; "cancelled"]%string;
  values := [CampaignDraft; CampaignScheduled; CampaignRunning;
             CampaignPaused; CampaignCompleted; CampaignCancelled];
|}.
Solve All Obligations with solve_enum.

#[global] Program Instance TransportStatus_enum : GoEnum TransportStatus := {|
  ordinal v := match v with TransportHealthy => 0 | TransportCooldown => 1 | TransportUnhealthy => 2 end;
  names := ["healthy"; "cooldown"; "unhealthy"]%string;
  values := [TransportHealthy; TransportCooldown; TransportUnhealthy];
|}.
Solve All Obligations with solve_enum.

#[global] Program Instance BounceType_enum : GoEnum BounceType := {|
  ordinal v := match v with BounceUnknown => 0 | BounceHard => 1 | BounceSoft => 2 | BounceComplaint => 3 end;
  names := ["unknown"; "hard"; "soft"; "complaint"]%string;
  values := [BounceUnknown; BounceHard; BounceSoft; BounceComplaint];
|}.
Solve All Obligations with solve_enum.

#[global] Program Instance TrackingKind_enum : GoEnum TrackingKind := {|
  ordinal v := match v with
    | TrackingOpen => 0 | TrackingClick => 1 | TrackingUnsubscribeClicked => 2 | TrackingUnsubscribed => 3 end;
  names := ["open"; "click"; "unsubscribe_clicked"; "unsubscribed"]%string;
  values := [TrackingOpen; TrackingClick; TrackingUnsubscribeClicked; TrackingUnsubscribed];
|}.
Solve All Obligations with solve_enum.

#[global] Program Instance MailboxStatus_enum : GoEnum MailboxStatus := {|
  ordinal v := match v with MailboxUnknown => 0 | MailboxOK => 1 | MailboxError => 2 end;
  names := ["unknown"; "ok"; "error"]%string;
  values := [MailboxUnknown; MailboxOK; MailboxError];
|}.
Solve All Obligations with solve_enum.

#[global] Program Instance HealthStatus_enum : GoEnum HealthStatus := {|
  ordinal v := match v with HealthUnknown => 0 | HealthGreen => 1 | HealthYellow => 2 | HealthRed => 3 end;
  names := ["unknown"; "green"; "yellow"; "red"]%string;
  values := [HealthUnknown; HealthGreen; HealthYellow; HealthRed];
|}.
Solve All Obligations with solve_enum.

(** An enum is determined by its ordinal, hence usable as a map key. *)
#[global] Program Instance DeliveryStatus_countable : Countable DeliveryStatus :=
  inj_countable' (λ v, Z.to_nat (ordinal v)) (λ n, default DeliveryPending (values !! n)) _.
Next Obligation. by intros []. Qed.

#[global] Program Instance TrackingKind_countable : Countable TrackingKind :=
  inj_countable' (λ v, Z.to_nat (ordinal v)) (λ n, default TrackingOpen (values !! n)) _.
Next Obligation. by intros []. Qed.

#[global] Program Instance Lane_countable : Countable Lane :=
  inj_countable' (λ v, Z.to_nat (ordinal v)) (λ n, default LaneBulk (values !! n)) _.
Next Obligation. by intros []. Qed.

(** [DeliveryStatus.Terminal] *)
Definition Terminal (v : DeliveryStatus) : bool :=
  match v with
  | DeliverySent | DeliveryFailed | DeliveryBounced | DeliveryComplained
  | DeliverySuppressed | DeliveryCancelled => true
  | _ => false
  end.

(** ** Properties of the codec *)

Lemma enumParseFrom_spec i ns b :
  enumParseFrom i ns b =
    match list_find (eq b) ns with
    | Some (k, _) => inr (i + Z.of_nat k)
    | None => inl ErrInvalid
    end.
Proof.
  revert i. induction ns as [|n ns IH]; intros i; simpl; [done|].
  unfold strEq. case_bool_decide as Hn; destruct (decide (b = n)); try congruence.
  - f_equal. lia.
  - rewrite IH. destruct (list_find (eq b) ns) as [[k x]|]; simpl; [|done].
    f_equal. lia.
Qed.

Lemma list_find_NoDup_lookup (ns : list string) k b :
  NoDup ns → ns !! k = Some b → list_find (eq b) ns = Some (k, b).
Proof.
  intros Hnd Hk. apply list_find_Some. split; [done|]. split; [done|].
  intros j y Hj Hlt ->. pose proof (NoDup_lookup _ _ _ _ Hnd Hj Hk). lia.
Qed.

Section enum.
Context {T : Type} `{GoEnum T}.

Lemma ordinal_lookup v : ∃ k : nat, ordinal v = Z.of_nat k ∧ values !! k = Some v.
Proof.
  destruct (list_elem_of_lookup_1 _ _ (values_complete v)) as [k Hk].
  exists k. split; [|done].
  assert (Ho : (ordinal <$> values) !! k = Some (ordinal v)) by (rewrite list_lookup_fmap, Hk; done).
  rewrite values_ordinal, lookup_seqZ in Ho. lia.
Qed.

(** Every constant has a name, and the text it marshals to is that name. *)
Lemma toText_defined v : ∃ (k : nat) n, values !! k = Some v ∧ names !! k = Some n ∧ toText v = inr n.
Proof.
  destruct (ordinal_lookup v) as (k&Ho&Hk).
  assert (Hlt : (k < length names)%nat).
  { rewrite <- values_names. by eapply lookup_lt_Some. }
  apply lookup_lt_is_Some in Hlt as [n Hn].
  exists k, n. split_and!; [done..|].
  unfold toText, enumText, enumName. rewrite Ho.
  destruct (Z.of_nat k <? 0) eqn:?; [to_prop; lia|]. by rewrite Nat2Z.id, Hn.
Qed.

Lemma ofText_toText_generic v s : toText v = inr s → ofText s = inr v.
Proof.
  destruct (toText_defined v) as (k&n&Hk&Hn&->). intros [= <-].
  unfold ofText, enumParse. rewrite enumParseFrom_spec.
  rewrite (list_find_NoDup_lookup _ _ _ names_NoDup Hn).
  by rewrite Z.add_0_l, Nat2Z.id, Hk.
Qed.
End enum.

(** Marshalling any enum constant to text and unmarshalling the text gives
    the constant back, for every enum type of the contract. *)
Theorem enum_text_roundtrip {T} `{GoEnum T} (v : T) :
  ∃ s, toText v = inr s ∧ ofText s = inr v ∧ toString v = s.
Proof.
  destruct (toText_defined v) as (k&n&Hk&Hn&Ht). exists n.
  split; [done|]. split; [by apply ofText_toText_generic|].
  unfold toText, enumText in Ht. unfold toString, enumString. by case_match; simplify_eq.
Qed.

(** Unmarshalling accepts exactly the names: whatever text it accepts is the
    text the resulting constant marshals to; every other text is ErrInvalid. *)
Theorem enum_parse_exact {T} `{GoEnum T} (s : string) :
  match ofText s with
  | inr v => toText (T := T) v = inr s
  | inl e => e = ErrInvalid ∧ s ∉ names (T := T)
  end.
Proof.
  unfold ofText, enumParse. rewrite enumParseFrom_spec.
  destruct (list_find (eq s) names) as [[k b]|] eqn:Hf.
  - apply list_find_Some in Hf as (Hk&<-&_).
    rewrite Z.add_0_l, Nat2Z.id. assert (Hlt : (k < length values)%nat).
    { rewrite values_names. by eapply lookup_lt_Some. }
    apply lookup_lt_is_Some in Hlt as [v Hv]. rewrite Hv.
    destruct (toText_defined v) as (k'&n&Hk'&Hn&Ht).
    destruct (ordinal_lookup v) as (k0&Ho&Hk0).
    assert (ordinal v = Z.of_nat k) as Hok.
    { assert (Hx : (ordinal <$> values) !! k = Some (ordinal v)) by (rewrite list_lookup_fmap, Hv; done).
      rewrite values_ordinal, lookup_seqZ in Hx. lia. }
    unfold toText, enumText, enumName. rewrite Hok.
    destruct (Z.of_nat k <? 0) eqn:?; [to_prop; lia|]. by rewrite Nat2Z.id, Hk.
  - split; [done|]. apply list_find_None in Hf. intros Hin.
    rewrite Forall_forall in Hf. by eapply Hf.
Qed.
