(* ===== verification/Model.v ===== *)
(** * The data model of the store contract ([store/*.go])

    One record per Go struct, with the struct's fields in the struct's order
    under a short prefix ([d_Status] is [Delivery.Status]).  Conventions:
    - a nil-able slice whose nil-ness the code tests ([ClaimRequest.CampaignIDs],
      [RetryFilter.DeliveryIDs]) is an [option (list _)]; other slices are lists;
    - a pointer field is an [option];
    - [[]byte] and [json.RawMessage] are byte strings, string-typed enums
      ([OutboxStatus], [TLSMode], ...) are strings;
    - [map[K]V] is a [gmap];
    - [float64] is the bit-exact IEEE 754 datum [SpecFloat.spec_float].

    [zero] is Go's zero value: a composite literal that omits fields is
    [zero] updated with the fields it gives. *)

From S2P Require Import Prelude Enums.
From Stdlib Require Export SpecFloat.
#[global] Open Scope Z_scope.

Abbreviation float64 := spec_float (only parsing).

(** [any]: the JSON-shaped values that reach templates and hooks. *)
Inductive Any :=
  | AnyNil
  | AnyBool (b : bool)
  | AnyNumber (f : float64)
  | AnyString (s : string)
  | AnyList (l : list Any)
  | AnyMap (m : list (string * Any)).

Class Zero (T : Type) := zero : T.
Arguments zero {T _}.

Record Page := mkPage {
  p_Limit : Z;
  p_Cursor : string;
}.

#[global] Instance Page_eta : Eta Page := λ r,
  mkPage
   (p_Limit r) (p_Cursor r).

#[global] Instance Page_zero : Zero Page :=
  mkPage
   0 ""%string.

Record RetryPolicy := mkRetryPolicy {
  rp_Backoff : list Duration;
  rp_MaxAttempts : Z;
}.

#[global] Instance RetryPolicy_eta : Eta RetryPolicy := λ r,
  mkRetryPolicy
   (rp_Backoff r) (rp_MaxAttempts r).

#[global] Instance RetryPolicy_zero : Zero RetryPolicy :=
  mkRetryPolicy
   [] 0.

Record SigningKey := mkSigningKey {
  sk_KID : string;
  sk_Secret : string;
  sk_CreatedAt : Time;
}.

#[global] Instance SigningKey_eta : Eta SigningKey := λ r,
  mkSigningKey
   (sk_KID r) (sk_Secret r) (sk_CreatedAt r).

#[global] Instance SigningKey_zero : Zero SigningKey :=
  mkSigningKey
   ""%string ""%string 0.

Record TrackingConfig := mkTrackingConfig {
  tk_Domain : string;
  tk_Opens : bool;
  tk_Clicks : bool;
  tk_SigningKeys : list SigningKey;
}.

#[global] Instance TrackingConfig_eta : Eta TrackingConfig := λ r,
  mkTrackingConfig
   (tk_Domain r) (tk_Opens r) (tk_Clicks r) (tk_SigningKeys r).

#[global] Instance TrackingConfig_zero : Zero TrackingConfig :=
  mkTrackingConfig
   ""%string false false [].

Record TenantSettings := mkTenantSettings {
  ts_TenantID : string;
  ts_Retry : RetryPolicy;
  ts_RetentionDays : Z;
  ts_SuppressionEnabled : bool;
  ts_BounceRetainRaw : bool;
  ts_UnsubscribeMode : string;
  ts_UnsubscribeURLTemplate : string;
  ts_UnsubscribeOneClick : bool;
  ts_DefaultLocale : string;
  ts_Tracking : TrackingConfig;
  ts_PlatformDefaults : list string;
  ts_EventTypes : list string;
  ts_Version : Z;
  ts_CreatedAt : Time;
  ts_UpdatedAt : Time;
}.

#[global] Instance TenantSettings_eta : Eta TenantSettings := λ r,
  mkTenantSettings
   (ts_TenantID r) (ts_Retry r) (ts_RetentionDays r) (ts_SuppressionEnabled r)
   (ts_BounceRetainRaw r) (ts_UnsubscribeMode r) (ts_UnsubscribeURLTemplate r)
   (ts_UnsubscribeOneClick r) (ts_DefaultLocale r) (ts_Tracking r) (ts_PlatformDefaults r)
   (ts_EventTypes r) (ts_Version r) (ts_CreatedAt r) (ts_UpdatedAt r).

#[global] Instance TenantSettings_zero : Zero TenantSettings :=
  mkTenantSettings
   ""%string zero 0 false false ""%string ""%string false ""%string zero [] [] 0 0 0.

#[global] Instance RetryPolicy_eq_dec : EqDecision RetryPolicy.
Proof. solve_decision. Defined.
#[global] Instance SigningKey_eq_dec : EqDecision SigningKey.
Proof. solve_decision. Defined.
#[global] Instance TrackingConfig_eq_dec : EqDecision TrackingConfig.
Proof. solve_decision. Defined.
#[global] Instance TenantSettings_eq_dec : EqDecision TenantSettings.
Proof. solve_decision. Defined.

Record Transport := mkTransport {
  tr_ID : string;
  tr_TenantID : string;
  tr_Name : string;
  tr_Host : string;
  tr_Port : Z;
  tr_TLS : string;
  tr_Username : string;
  tr_Password : string;
  tr_MaxConns : Z;
  tr_RatePerSecond : float64;
  tr_DomainRatePerSecond : gmap string float64;
  tr_Shared : bool;
  tr_Status : TransportStatus;
  tr_StatusReason : string;
  tr_StatusChangedAt : Time;
  tr_StatusUntil : Time;
  tr_Version : Z;
  tr_CreatedAt : Time;
  tr_UpdatedAt : Time;
}.

#[global] Instance Transport_eta : Eta Transport := λ r,
  mkTransport
   (tr_ID r) (tr_TenantID r) (tr_Name r) (tr_Host r) (tr_Port r) (tr_TLS r) (tr_Username r)
   (tr_Password r) (tr_MaxConns r) (tr_RatePerSecond r) (tr_DomainRatePerSecond r)
   (tr_Shared r) (tr_Status r) (tr_StatusReason r) (tr_StatusChangedAt r) (tr_StatusUntil r)
   (tr_Version r) (tr_CreatedAt r) (tr_UpdatedAt r).

#[global] Instance Transport_zero : Zero Transport :=
  mkTransport
   ""%string ""%string ""%string ""%string 0 ""%string ""%string ""%string 0 (S754_zero false)
   ∅ false TransportHealthy ""%string 0 0 0 0 0.

Record Sender := mkSender {
  s_ID : string;
  s_TenantID : string;
  s_Name : string;
  s_FromName : string;
  s_FromEmail : string;
  s_ReplyTo : string;
  s_TransportID : string;
  s_DomainID : string;
  s_Shared : bool;
  s_Health : HealthStatus;
  s_HealthReason : string;
  s_HealthCheckedAt : Time;
  s_Version : Z;
  s_CreatedAt : Time;
  s_UpdatedAt : Time;
}.

#[global] Instance Sender_eta : Eta Sender := λ r,
  mkSender
   (s_ID r) (s_TenantID r) (s_Name r) (s_FromName r) (s_FromEmail r) (s_ReplyTo r)
   (s_TransportID r) (s_DomainID r) (s_Shared r) (s_Health r) (s_HealthReason r)
   (s_HealthCheckedAt r) (s_Version r) (s_CreatedAt r) (s_UpdatedAt r).

#[global] Instance Sender_zero : Zero Sender :=
  mkSender
   ""%string ""%string ""%string ""%string ""%string ""%string ""%string ""%string false
   HealthUnknown ""%string 0 0 0 0.

Record SendingDomain := mkSendingDomain {
  sd_ID : string;
  sd_TenantID : string;
  sd_Domain : string;
  sd_DKIMSelector : string;
  sd_DKIMPrivateKey : string;
  sd_ReturnPathDomain : string;
  sd_ExpectedSPF : string;
  sd_OutboundIPs : list string;
  sd_Shared : bool;
  sd_Health : HealthStatus;
  sd_HealthReason : string;
  sd_HealthCheckedAt : Time;
  sd_Version : Z;
  sd_CreatedAt : Time;
  sd_UpdatedAt : Time;
}.

#[global] Instance SendingDomain_eta : Eta SendingDomain := λ r,
  mkSendingDomain
   (sd_ID r) (sd_TenantID r) (sd_Domain r) (sd_DKIMSelector r) (sd_DKIMPrivateKey r)
   (sd_ReturnPathDomain r) (sd_ExpectedSPF r) (sd_OutboundIPs r) (sd_Shared r) (sd_Health r)
   (sd_HealthReason r) (sd_HealthCheckedAt r) (sd_Version r) (sd_CreatedAt r) (sd_UpdatedAt r).

#[global] Instance SendingDomain_zero : Zero SendingDomain :=
  mkSendingDomain
   ""%string ""%string ""%string ""%string ""%string ""%string ""%string [] false HealthUnknown
   ""%string 0 0 0 0.

Record MailboxHealth := mkMailboxHealth {
  mh_Status : MailboxStatus;
  mh_Stage : string;
  mh_Reason : string;
  mh_CheckedAt : Time;
  mh_LastOKAt : Time;
  mh_ConsecutiveFailures : Z;
}.

#[global] Instance MailboxHealth_eta : Eta MailboxHealth := λ r,
  mkMailboxHealth
   (mh_Status r) (mh_Stage r) (mh_Reason r) (mh_CheckedAt r) (mh_LastOKAt r)
   (mh_ConsecutiveFailures r).

#[global] Instance MailboxHealth_zero : Zero MailboxHealth :=
  mkMailboxHealth
   MailboxUnknown ""%string ""%string 0 0 0.

Record BounceMailbox := mkBounceMailbox {
  bm_ID : string;
  bm_TenantID : string;
  bm_Name : string;
  bm_Address : string;
  bm_Protocol : string;
  bm_Host : string;
  bm_Port : Z;
  bm_TLS : string;
  bm_Username : string;
  bm_Password : string;
  bm_Folder : string;
  bm_AfterProcess : string;
  bm_Enabled : bool;
  bm_Shared : bool;
  bm_Health : MailboxHealth;
  bm_Version : Z;
  bm_CreatedAt : Time;
  bm_UpdatedAt : Time;
}.

#[global] Instance BounceMailbox_eta : Eta BounceMailbox := λ r,
  mkBounceMailbox
   (bm_ID r) (bm_TenantID r) (bm_Name r) (bm_Address r) (bm_Protocol r) (bm_Host r) (bm_Port r)
   (bm_TLS r) (bm_Username r) (bm_Password r) (bm_Folder r) (bm_AfterProcess r) (bm_Enabled r)
   (bm_Shared r) (bm_Health r) (bm_Version r) (bm_CreatedAt r) (bm_UpdatedAt r).

#[global] Instance BounceMailbox_zero : Zero BounceMailbox :=
  mkBounceMailbox
   ""%string ""%string ""%string ""%string ""%string ""%string 0 ""%string ""%string ""%string
   ""%string ""%string false false zero 0 0 0.

Record ProbeMailbox := mkProbeMailbox {
  pm_ID : string;
  pm_TenantID : string;
  pm_Name : string;
  pm_Kind : string;
  pm_Address : string;
  pm_Host : string;
  pm_Port : Z;
  pm_TLS : string;
  pm_Username : string;
  pm_Password : string;
  pm_InboxFolder : string;
  pm_SpamFolder : string;
  pm_AuthServID : string;
  pm_Enabled : bool;
  pm_Shared : bool;
  pm_Health : MailboxHealth;
  pm_Version : Z;
  pm_CreatedAt : Time;
  pm_UpdatedAt : Time;
}.

#[global] Instance ProbeMailbox_eta : Eta ProbeMailbox := λ r,
  mkProbeMailbox
   (pm_ID r) (pm_TenantID r) (pm_Name r) (pm_Kind r) (pm_Address r) (pm_Host r) (pm_Port r)
   (pm_TLS r) (pm_Username r) (pm_Password r) (pm_InboxFolder r) (pm_SpamFolder r)
   (pm_AuthServID r) (pm_Enabled r) (pm_Shared r) (pm_Health r) (pm_Version r) (pm_CreatedAt r)
   (pm_UpdatedAt r).

#[global] Instance ProbeMailbox_zero : Zero ProbeMailbox :=
  mkProbeMailbox
   ""%string ""%string ""%string ""%string ""%string ""%string 0 ""%string ""%string ""%string
   ""%string ""%string ""%string false false zero 0 0 0.

Record ProbeRun := mkProbeRun {
  pr_ID : string;
  pr_TenantID : string;
  pr_SenderID : string;
  pr_MailboxID : string;
  pr_DeliveryID : string;
  pr_GroupID : string;
  pr_Pending : bool;
  pr_Status : HealthStatus;
  pr_Reason : string;
  pr_Delivered : bool;
  pr_Folder : string;
  pr_Latency : Duration;
  pr_SPF : string;
  pr_DKIM : string;
  pr_DMARC : string;
  pr_DKIMDomain : string;
  pr_DKIMSelector : string;
  pr_DMARCPolicy : string;
  pr_TLS : bool;
  pr_ObservedIP : string;
  pr_PTR : string;
  pr_PTRMatch : bool;
  pr_DNS : string;
  pr_RawHeaders : string;
  pr_StartedAt : Time;
  pr_ReceivedAt : Time;
  pr_CreatedAt : Time;
}.

#[global] Instance ProbeRun_eta : Eta ProbeRun := λ r,
  mkProbeRun
   (pr_ID r) (pr_TenantID r) (pr_SenderID r) (pr_MailboxID r) (pr_DeliveryID r) (pr_GroupID r)
   (pr_Pending r) (pr_Status r) (pr_Reason r) (pr_Delivered r) (pr_Folder r) (pr_Latency r)
   (pr_SPF r) (pr_DKIM r) (pr_DMARC r) (pr_DKIMDomain r) (pr_DKIMSelector r) (pr_DMARCPolicy r)
   (pr_TLS r) (pr_ObservedIP r) (pr_PTR r) (pr_PTRMatch r) (pr_DNS r) (pr_RawHeaders r)
   (pr_StartedAt r) (pr_ReceivedAt r) (pr_CreatedAt r).

#[global] Instance ProbeRun_zero : Zero ProbeRun :=
  mkProbeRun
   ""%string ""%string ""%string ""%string ""%string ""%string false HealthUnknown ""%string
   false ""%string 0 ""%string ""%string ""%string ""%string ""%string ""%string false
   ""%string ""%string false ""%string ""%string 0 0 0.

Record I18nBundle := mkI18nBundle {
  i18_DefaultLocale : string;
  i18_Locales : gmap string (gmap string string);
}.

#[global] Instance I18nBundle_eta : Eta I18nBundle := λ r,
  mkI18nBundle
   (i18_DefaultLocale r) (i18_Locales r).

#[global] Instance I18nBundle_zero : Zero I18nBundle :=
  mkI18nBundle
   ""%string ∅.

Record Layout := mkLayout {
  l_ID : string;
  l_TenantID : string;
  l_Name : string;
  l_Key : string;
  l_Shared : bool;
  l_Mode : string;
  l_Body : string;
  l_I18n : I18nBundle;
  l_Version : Z;
  l_CreatedAt : Time;
  l_UpdatedAt : Time;
  l_Overridden : bool;
}.

#[global] Instance Layout_eta : Eta Layout := λ r,
  mkLayout
   (l_ID r) (l_TenantID r) (l_Name r) (l_Key r) (l_Shared r) (l_Mode r) (l_Body r) (l_I18n r)
   (l_Version r) (l_CreatedAt r) (l_UpdatedAt r) (l_Overridden r).

#[global] Instance Layout_zero : Zero Layout :=
  mkLayout
   ""%string ""%string ""%string ""%string false ""%string ""%string zero 0 0 0 false.

Record Template := mkTemplate {
  t_ID : string;
  t_TenantID : string;
  t_Name : string;
  t_LayoutID : string;
  t_Key : string;
  t_Shared : bool;
  t_Uses : list string;
  t_OverriddenFromVersion : string;
  t_Subject : string;
  t_Preheader : string;
  t_Mode : string;
  t_Body : string;
  t_Blocks : string;
  t_Text : string;
  t_I18n : I18nBundle;
  t_DefaultLocale : string;
  t_PublishedVersionID : string;
  t_Version : Z;
  t_CreatedAt : Time;
  t_UpdatedAt : Time;
  t_Overridden : bool;
  t_SharedPublishedVersionID : string;
}.

#[global] Instance Template_eta : Eta Template := λ r,
  mkTemplate
   (t_ID r) (t_TenantID r) (t_Name r) (t_LayoutID r) (t_Key r) (t_Shared r) (t_Uses r)
   (t_OverriddenFromVersion r) (t_Subject r) (t_Preheader r) (t_Mode r) (t_Body r) (t_Blocks r)
   (t_Text r) (t_I18n r) (t_DefaultLocale r) (t_PublishedVersionID r) (t_Version r)
   (t_CreatedAt r) (t_UpdatedAt r) (t_Overridden r) (t_SharedPublishedVersionID r).

#[global] Instance Template_zero : Zero Template :=
  mkTemplate
   ""%string ""%string ""%string ""%string ""%string false [] ""%string ""%string ""%string
   ""%string ""%string ""%string ""%string zero ""%string ""%string 0 0 0 false ""%string.

Record MessageVersion := mkMessageVersion {
  mv_ID : string;
  mv_TenantID : string;
  mv_TemplateID : string;
  mv_LayoutID : string;
  mv_SubjectTpl : string;
  mv_HTMLTpl : string;
  mv_TextTpl : string;
  mv_I18n : I18nBundle;
  mv_DefaultLocale : string;
  mv_Links : list string;
  mv_Checksum : string;
  mv_CreatedAt : Time;
}.

#[global] Instance MessageVersion_eta : Eta MessageVersion := λ r,
  mkMessageVersion
   (mv_ID r) (mv_TenantID r) (mv_TemplateID r) (mv_LayoutID r) (mv_SubjectTpl r) (mv_HTMLTpl r)
   (mv_TextTpl r) (mv_I18n r) (mv_DefaultLocale r) (mv_Links r) (mv_Checksum r)
   (mv_CreatedAt r).

#[global] Instance MessageVersion_zero : Zero MessageVersion :=
  mkMessageVersion
   ""%string ""%string ""%string ""%string ""%string ""%string ""%string zero ""%string []
   ""%string 0.

Record CampaignStats := mkCampaignStats {
  cs_ByStatus : gmap DeliveryStatus Z;
  cs_UniqueOpens : Z;
  cs_UniqueClicks : Z;
  cs_Unsubscribed : Z;
  cs_UnsubscribeClicked : Z;
  cs_ComputedAt : Time;
}.

#[global] Instance CampaignStats_eta : Eta CampaignStats := λ r,
  mkCampaignStats
   (cs_ByStatus r) (cs_UniqueOpens r) (cs_UniqueClicks r) (cs_Unsubscribed r)
   (cs_UnsubscribeClicked r) (cs_ComputedAt r).

#[global] Instance CampaignStats_zero : Zero CampaignStats :=
  mkCampaignStats
   ∅ 0 0 0 0 0.

Record Campaign := mkCampaign {
  c_ID : string;
  c_TenantID : string;
  c_Name : string;
  c_TemplateID : string;
  c_VersionID : string;
  c_SenderID : string;
  c_DefaultLocale : string;
  c_Vars : gmap string Any;
  c_TenantVars : gmap string Any;
  c_Status : CampaignStatus;
  c_ScheduleAt : Time;
  c_StartedAt : Time;
  c_CompletedAt : Time;
  c_Stats : CampaignStats;
  c_Version : Z;
  c_CreatedAt : Time;
  c_UpdatedAt : Time;
}.

#[global] Instance Campaign_eta : Eta Campaign := λ r,
  mkCampaign
   (c_ID r) (c_TenantID r) (c_Name r) (c_TemplateID r) (c_VersionID r) (c_SenderID r)
   (c_DefaultLocale r) (c_Vars r) (c_TenantVars r) (c_Status r) (c_ScheduleAt r)
   (c_StartedAt r) (c_CompletedAt r) (c_Stats r) (c_Version r) (c_CreatedAt r) (c_UpdatedAt r).

#[global] Instance Campaign_zero : Zero Campaign :=
  mkCampaign
   ""%string ""%string ""%string ""%string ""%string ""%string ""%string ∅ ∅ CampaignDraft 0 0
   0 zero 0 0 0.

Record RecipientChunk := mkRecipientChunk {
  rc_TenantID : string;
  rc_CampaignID : string;
  rc_Key : string;
  rc_State : string;
  rc_Accepted : Z;
  rc_Duplicates : Z;
  rc_Invalid : Z;
  rc_CreatedAt : Time;
  rc_UpdatedAt : Time;
}.

#[global] Instance RecipientChunk_eta : Eta RecipientChunk := λ r,
  mkRecipientChunk
   (rc_TenantID r) (rc_CampaignID r) (rc_Key r) (rc_State r) (rc_Accepted r) (rc_Duplicates r)
   (rc_Invalid r) (rc_CreatedAt r) (rc_UpdatedAt r).

#[global] Instance RecipientChunk_zero : Zero RecipientChunk :=
  mkRecipientChunk
   ""%string ""%string ""%string ""%string 0 0 0 0 0.

Record Delivery := mkDelivery {
  d_ID : string;
  d_TenantID : string;
  d_CampaignID : string;
  d_VersionID : string;
  d_SenderID : string;
  d_Lane : Lane;
  d_Priority : Z;
  d_Status : DeliveryStatus;
  d_Email : string;
  d_EmailNorm : string;
  d_Name : string;
  d_Locale : string;
  d_Vars : gmap string Any;
  d_TenantVars : gmap string Any;
  d_UnsubscribeURL : string;
  d_Headers : gmap string string;
  d_AttemptCount : Z;
  d_RetryGen : Z;
  d_NextAttemptAt : Time;
  d_LeaseOwner : string;
  d_LeaseUntil : Time;
  d_LastErrorClass : ErrorClass;
  d_LastSMTPCode : Z;
  d_LastError : string;
  d_MessageID : string;
  d_SentAt : Time;
  d_FinishedAt : Time;
  d_FirstOpenedAt : Time;
  d_FirstClickedAt : Time;
  d_UnsubscribedAt : Time;
  d_CreatedAt : Time;
  d_UpdatedAt : Time;
}.

#[global] Instance Delivery_eta : Eta Delivery := λ r,
  mkDelivery
   (d_ID r) (d_TenantID r) (d_CampaignID r) (d_VersionID r) (d_SenderID r) (d_Lane r)
   (d_Priority r) (d_Status r) (d_Email r) (d_EmailNorm r) (d_Name r) (d_Locale r) (d_Vars r)
   (d_TenantVars r) (d_UnsubscribeURL r) (d_Headers r) (d_AttemptCount r) (d_RetryGen r)
   (d_NextAttemptAt r) (d_LeaseOwner r) (d_LeaseUntil r) (d_LastErrorClass r)
   (d_LastSMTPCode r) (d_LastError r) (d_MessageID r) (d_SentAt r) (d_FinishedAt r)
   (d_FirstOpenedAt r) (d_FirstClickedAt r) (d_UnsubscribedAt r) (d_CreatedAt r)
   (d_UpdatedAt r).

#[global] Instance Delivery_zero : Zero Delivery :=
  mkDelivery
   ""%string ""%string ""%string ""%string ""%string LaneBulk 0 DeliveryPending ""%string
   ""%string ""%string ""%string ∅ ∅ ""%string ∅ 0 0 0 ""%string 0 ErrorClassNone 0 ""%string
   ""%string 0 0 0 0 0 0 0.

Record DeliveryAttempt := mkDeliveryAttempt {
  a_ID : string;
  a_TenantID : string;
  a_DeliveryID : string;
  a_AttemptNo : Z;
  a_RetryGen : Z;
  a_TransportID : string;
  a_StartedAt : Time;
  a_FinishedAt : Time;
  a_SMTPCode : Z;
  a_EnhancedCode : string;
  a_ErrorClass : ErrorClass;
  a_Error : string;
  a_CreatedAt : Time;
}.

#[global] Instance DeliveryAttempt_eta : Eta DeliveryAttempt := λ r,
  mkDeliveryAttempt
   (a_ID r) (a_TenantID r) (a_DeliveryID r) (a_AttemptNo r) (a_RetryGen r) (a_TransportID r)
   (a_StartedAt r) (a_FinishedAt r) (a_SMTPCode r) (a_EnhancedCode r) (a_ErrorClass r)
   (a_Error r) (a_CreatedAt r).

#[global] Instance DeliveryAttempt_zero : Zero DeliveryAttempt :=
  mkDeliveryAttempt
   ""%string ""%string ""%string 0 0 ""%string 0 0 0 ""%string ErrorClassNone ""%string 0.

Record ClaimRequest := mkClaimRequest {
  cr_Lane : Lane;
  cr_CampaignIDs : option (list string);
  cr_Limit : Z;
  cr_LeaseFor : Duration;
  cr_WorkerID : string;
  cr_Now : Time;
}.

#[global] Instance ClaimRequest_eta : Eta ClaimRequest := λ r,
  mkClaimRequest
   (cr_Lane r) (cr_CampaignIDs r) (cr_Limit r) (cr_LeaseFor r) (cr_WorkerID r) (cr_Now r).

#[global] Instance ClaimRequest_zero : Zero ClaimRequest :=
  mkClaimRequest
   LaneBulk None 0 0 ""%string 0.

Record DeliveryResult := mkDeliveryResult {
  dr_DeliveryID : string;
  dr_LeaseOwner : string;
  dr_NewStatus : DeliveryStatus;
  dr_NextAttemptAt : Time;
  dr_ErrorClass : ErrorClass;
  dr_SMTPCode : Z;
  dr_Error : string;
  dr_MessageID : string;
  dr_IncrementAttempt : bool;
  dr_Attempt : option DeliveryAttempt;
}.

#[global] Instance DeliveryResult_eta : Eta DeliveryResult := λ r,
  mkDeliveryResult
   (dr_DeliveryID r) (dr_LeaseOwner r) (dr_NewStatus r) (dr_NextAttemptAt r) (dr_ErrorClass r)
   (dr_SMTPCode r) (dr_Error r) (dr_MessageID r) (dr_IncrementAttempt r) (dr_Attempt r).

#[global] Instance DeliveryResult_zero : Zero DeliveryResult :=
  mkDeliveryResult
   ""%string ""%string DeliveryPending 0 ErrorClassNone 0 ""%string ""%string false None.

Record RetryFilter := mkRetryFilter {
  rf_CampaignID : string;
  rf_DeliveryIDs : option (list string);
  rf_Statuses : list DeliveryStatus;
  rf_ErrorClasses : list ErrorClass;
  rf_Now : Time;
}.

#[global] Instance RetryFilter_eta : Eta RetryFilter := λ r,
  mkRetryFilter
   (rf_CampaignID r) (rf_DeliveryIDs r) (rf_Statuses r) (rf_ErrorClasses r) (rf_Now r).

#[global] Instance RetryFilter_zero : Zero RetryFilter :=
  mkRetryFilter
   ""%string None [] [] 0.

Record DeliveryFilter := mkDeliveryFilter {
  df_Statuses : list DeliveryStatus;
  df_ErrorClasses : list ErrorClass;
  df_Lanes : list Lane;
  df_EmailNorm : string;
  df_CampaignID : option string;
  df_Since : Time;
  df_Until : Time;
}.

#[global] Instance DeliveryFilter_eta : Eta DeliveryFilter := λ r,
  mkDeliveryFilter
   (df_Statuses r) (df_ErrorClasses r) (df_Lanes r) (df_EmailNorm r) (df_CampaignID r)
   (df_Since r) (df_Until r).

#[global] Instance DeliveryFilter_zero : Zero DeliveryFilter :=
  mkDeliveryFilter
   [] [] [] ""%string None 0 0.

Record Suppression := mkSuppression {
  sp_TenantID : string;
  sp_EmailNorm : string;
  sp_Reason : string;
  sp_SourceDeliveryID : string;
  sp_CreatedAt : Time;
  sp_ExpiresAt : Time;
}.

#[global] Instance Suppression_eta : Eta Suppression := λ r,
  mkSuppression
   (sp_TenantID r) (sp_EmailNorm r) (sp_Reason r) (sp_SourceDeliveryID r) (sp_CreatedAt r)
   (sp_ExpiresAt r).

#[global] Instance Suppression_zero : Zero Suppression :=
  mkSuppression
   ""%string ""%string ""%string ""%string 0 0.

Record BounceEvent := mkBounceEvent {
  b_ID : string;
  b_TenantID : string;
  b_DeliveryID : string;
  b_Type : BounceType;
  b_Source : string;
  b_Verified : bool;
  b_Recipient : string;
  b_EmailNorm : string;
  b_SMTPStatus : string;
  b_DiagnosticCode : string;
  b_MessageID : string;
  b_Raw : string;
  b_ReceivedAt : Time;
  b_CreatedAt : Time;
}.

#[global] Instance BounceEvent_eta : Eta BounceEvent := λ r,
  mkBounceEvent
   (b_ID r) (b_TenantID r) (b_DeliveryID r) (b_Type r) (b_Source r) (b_Verified r)
   (b_Recipient r) (b_EmailNorm r) (b_SMTPStatus r) (b_DiagnosticCode r) (b_MessageID r)
   (b_Raw r) (b_ReceivedAt r) (b_CreatedAt r).

#[global] Instance BounceEvent_zero : Zero BounceEvent :=
  mkBounceEvent
   ""%string ""%string ""%string BounceUnknown ""%string false ""%string ""%string ""%string
   ""%string ""%string ""%string 0 0.

Record TrackingEvent := mkTrackingEvent {
  te_ID : string;
  te_TenantID : string;
  te_DeliveryID : string;
  te_CampaignID : string;
  te_Kind : TrackingKind;
  te_URL : string;
  te_LinkNo : Z;
  te_UserAgent : string;
  te_IPHash : string;
  te_SuspectedBot : bool;
  te_CreatedAt : Time;
}.

#[global] Instance TrackingEvent_eta : Eta TrackingEvent := λ r,
  mkTrackingEvent
   (te_ID r) (te_TenantID r) (te_DeliveryID r) (te_CampaignID r) (te_Kind r) (te_URL r)
   (te_LinkNo r) (te_UserAgent r) (te_IPHash r) (te_SuspectedBot r) (te_CreatedAt r).

#[global] Instance TrackingEvent_zero : Zero TrackingEvent :=
  mkTrackingEvent
   ""%string ""%string ""%string ""%string TrackingOpen ""%string 0 ""%string ""%string false 0.

Record TrackingCounts := mkTrackingCounts {
  tc_UniqueOpens : Z;
  tc_UniqueClicks : Z;
  tc_UnsubscribeClicked : Z;
  tc_Unsubscribed : Z;
}.

#[global] Instance TrackingCounts_eta : Eta TrackingCounts := λ r,
  mkTrackingCounts
   (tc_UniqueOpens r) (tc_UniqueClicks r) (tc_UnsubscribeClicked r) (tc_Unsubscribed r).

#[global] Instance TrackingCounts_zero : Zero TrackingCounts :=
  mkTrackingCounts
   0 0 0 0.

Record LinkClick := mkLinkClick {
  lc_LinkNo : Z;
  lc_URL : string;
  lc_Clicks : Z;
  lc_UniqueClicks : Z;
}.

#[global] Instance LinkClick_eta : Eta LinkClick := λ r,
  mkLinkClick
   (lc_LinkNo r) (lc_URL r) (lc_Clicks r) (lc_UniqueClicks r).

#[global] Instance LinkClick_zero : Zero LinkClick :=
  mkLinkClick
   0 ""%string 0 0.

Record OutboxEvent := mkOutboxEvent {
  o_ID : string;
  o_TenantID : string;
  o_Type : string;
  o_Payload : string;
  o_Status : string;
  o_Attempts : Z;
  o_NextAttemptAt : Time;
  o_LeaseOwner : string;
  o_LeaseUntil : Time;
  o_LastError : string;
  o_CreatedAt : Time;
  o_DeliveredAt : Time;
}.

#[global] Instance OutboxEvent_eta : Eta OutboxEvent := λ r,
  mkOutboxEvent
   (o_ID r) (o_TenantID r) (o_Type r) (o_Payload r) (o_Status r) (o_Attempts r)
   (o_NextAttemptAt r) (o_LeaseOwner r) (o_LeaseUntil r) (o_LastError r) (o_CreatedAt r)
   (o_DeliveredAt r).

#[global] Instance OutboxEvent_zero : Zero OutboxEvent :=
  mkOutboxEvent
   ""%string ""%string ""%string ""%string ""%string 0 0 ""%string 0 ""%string 0 0.

Record Lock := mkLock {
  lk_TenantID : string;
  lk_Name : string;
  lk_Owner : string;
  lk_AcquiredAt : Time;
  lk_ExpiresAt : Time;
}.

#[global] Instance Lock_eta : Eta Lock := λ r,
  mkLock
   (lk_TenantID r) (lk_Name r) (lk_Owner r) (lk_AcquiredAt r) (lk_ExpiresAt r).

#[global] Instance Lock_zero : Zero Lock :=
  mkLock
   ""%string ""%string ""%string 0 0.

Record Worker := mkWorker {
  w_ID : string;
  w_TenantID : string;
  w_Role : string;
  w_Lanes : list Lane;
  w_Concurrency : Z;
  w_StartedAt : Time;
  w_LastSeenAt : Time;
}.

#[global] Instance Worker_eta : Eta Worker := λ r,
  mkWorker
   (w_ID r) (w_TenantID r) (w_Role r) (w_Lanes r) (w_Concurrency r) (w_StartedAt r)
   (w_LastSeenAt r).

#[global] Instance Worker_zero : Zero Worker :=
  mkWorker
   ""%string ""%string ""%string [] 0 0 0.

(** [store.Result[T]] *)
Record Result (T : Type) := mkResult {
  res_Items : list T;
  res_NextCursor : string;
}.
Arguments mkResult {T} _ _.
Arguments res_Items {T} _.
Arguments res_NextCursor {T} _.

#[global] Instance Result_eta T : Eta (Result T) := λ r, mkResult (res_Items r) (res_NextCursor r).
#[global] Instance Result_zero T : Zero (Result T) := mkResult [] "".

(** [store.TruncateTime]: UTC, whole milliseconds, zero stays zero. *)
Definition TruncateTime (t : Time) : Time :=
  if IsZero t then zeroTime else t - t `mod` Millisecond.

(** [store.SystemTenantID] *)
Definition SystemTenantID : string := "_system".

(** [Page.Normalize] *)
Definition DefaultPageLimit : Z := 50.
Definition MaxPageLimit : Z := 1000.
Definition Normalize (p : Page) : Page :=
  let p := if p_Limit p <=? 0 then p <| p_Limit := DefaultPageLimit |> else p in
  if MaxPageLimit <? p_Limit p then p <| p_Limit := MaxPageLimit |> else p.

(** ** Time resolution *)

Lemma TruncateTime_floor t : TruncateTime t = t - t `mod` Millisecond.
Proof.
  unfold TruncateTime, IsZero, zeroTime. destruct (t =? 0) eqn:E; [|done].
  to_prop; subst. done.
Qed.

Lemma TruncateTime_idemp t : TruncateTime (TruncateTime t) = TruncateTime t.
Proof.
  rewrite !TruncateTime_floor. unfold Millisecond.
  pose proof (Z.div_mod t 1000000). pose proof (Z.mod_pos_bound t 1000000).
  replace (t - t `mod` 1000000) with (t `div` 1000000 * 1000000) by lia.
  rewrite Z.mod_mul; lia.
Qed.

Lemma TruncateTime_le t : TruncateTime t ≤ t < TruncateTime t + Millisecond.
Proof.
  rewrite TruncateTime_floor. unfold Millisecond. pose proof (Z.mod_pos_bound t 1000000). lia.
Qed.

Lemma TruncateTime_mono t u : t ≤ u → TruncateTime t ≤ TruncateTime u.
Proof.
  intros Htu. rewrite !TruncateTime_floor. unfold Millisecond.
  pose proof (Z.div_mod t 1000000). pose proof (Z.div_mod u 1000000).
  pose proof (Z.div_le_mono t u 1000000). lia.
Qed.

Lemma TruncateTime_zero : TruncateTime 0 = 0.
Proof. done. Qed.

(** A stored timestamp is a whole number of milliseconds. *)
Definition truncated (t : Time) : Prop := TruncateTime t = t.

Lemma truncated_TruncateTime t : truncated (TruncateTime t).
Proof. apply TruncateTime_idemp. Qed.

Lemma truncated_zero : truncated 0.
Proof. done. Qed.

#[export] Hint Resolve truncated_TruncateTime truncated_zero : go.

Lemma Normalize_limit p : 1 ≤ p_Limit (Normalize p) ≤ MaxPageLimit.
Proof.
  unfold Normalize, MaxPageLimit, DefaultPageLimit.
  destruct (p_Limit p <=? 0) eqn:E; simpl; repeat case_match; simpl; to_prop; lia.
Qed.

Lemma Normalize_cursor p : p_Cursor (Normalize p) = p_Cursor p.
Proof. unfold Normalize. by repeat case_match. Qed.
