(* ===== verification/MemTable.v ===== *)
(** * The generic in-memory table ([store/memstore/table.go])

    [table[T]] is the CRUD implementation every configuration aggregate
    shares: optimistic concurrency on a version, a per-tenant unique key,
    timestamp truncation and keyset pagination.  A row's bookkeeping fields
    are reached through [meta], a record of lenses as in the source; the
    table's rows are a [gmap] from ID to row. *)

From S2P Require Import Prelude Enums Model.

(** ** What a store call sees of its surroundings

    Every repository method runs under the provider's mutex, so one call is
    one atomic step.  [e_closed] is [Provider.closed], [e_clock] the reading
    of [Provider.clock] in this call, [e_tenant] the tenant the store is bound
    to, and [e_newID i] the [i]-th value [store.NewID] (a UUIDv7 generator)
    returns in this call. *)
Record Env := mkEnv {
  e_closed : bool;
  e_clock : Time;
  e_tenant : string;
  e_newID : nat → string;
}.

(** [Provider.now] *)
Definition now (env : Env) : Time := TruncateTime (e_clock env).

(** [Provider.check], in front of an operation. *)
Definition checked {S A} (env : Env) (op : M S A) : M S A :=
  if e_closed env then throw errClosed else op.

Record lens (T A : Type) := mkLens { lget : T → A; lset : A → T → T }.
Arguments mkLens {T A} _ _.
Arguments lget {T A} _ _.
Arguments lset {T A} _ _ _.

(** [meta[T]]; a nil function is [None]. *)
Record meta (T : Type) := mkMeta {
  m_id : lens T string;
  m_tenant : lens T string;
  m_version : option (lens T Z);
  m_created : option (lens T Time);
  m_updated : option (lens T Time);
  m_times : list (lens T Time);
  m_key : option (T → string);
  m_scrub : option (T → T);
}.
Arguments mkMeta {T} _ _ _ _ _ _ _ _.
Arguments m_id {T} _.
Arguments m_tenant {T} _.
Arguments m_version {T} _.
Arguments m_created {T} _.
Arguments m_updated {T} _.
Arguments m_times {T} _.
Arguments m_key {T} _.
Arguments m_scrub {T} _.

(** ** Pagination *)

(** [paginate]: rows in ID order after the cursor, one page of them. *)
Definition pageIDs {T} (rows : gmap string T) (p : Page) (keep : T → bool) : list string :=
  selectIDs (λ id v, negb (strLe id (p_Cursor p)) && keep v) rows.

Definition paginate {T} (rows : gmap string T) (p : Page) (keep : T → bool) : Result T :=
  let p := Normalize p in
  let ids := pageIDs rows p keep in
  let limit := Z.to_nat (p_Limit p) in
  let next := if p_Limit p <? len ids then default "" (ids !! (limit - 1)%nat) else "" in
  let ids := if p_Limit p <? len ids then take limit ids else ids in
  mkResult (omap (λ id, rows !! id) ids) next.

(** [deleteBefore]: the retention delete, oldest IDs first. *)
Definition deleteBefore {T} (rows : gmap string T) (before : Time) (limit : Z)
    (created : T → Time) (keep : T → bool) : Z * gmap string T :=
  let ids := capTo limit (selectIDs (λ _ v, Before (created v) before && keep v) rows) in
  (len ids, deleteAll ids rows).

(** ** The table operations *)

Section table.
Context {T : Type} (m : meta T).

Definition keyTaken (v : T) (id : string) (rows : gmap string T) : bool :=
  match m_key m with
  | None => false
  | Some key =>
      let k := key v in
      if strEq k "" then false
      else existsb (λ kv, negb (strEq kv.1 id) && strEq (key kv.2) k) (map_to_list rows)
  end.

(** The loop over the rows returns the first one holding the key; the
    contract's unique key makes it the only one ([getByKey_unique]). *)
Definition getByKey (env : Env) (key : string) : M (gmap string T) T :=
  checked env (λ rows,
    let found :=
      match m_key m with
      | Some k => if strEq key "" then None
                  else list_find (λ kv, k kv.2 = key) (map_to_list rows)
      | None => None
      end in
    match found with
    | Some (_, kv) => (inr kv.2, rows)
    | None => (inl ErrNotFound, rows)
    end).

Definition truncLens (v : T) (l : lens T Time) : T := lset l (TruncateTime (lget l v)) v.

Definition truncateRow (v : T) : T :=
  let v := match m_created m with Some l => truncLens v l | None => v end in
  let v := match m_updated m with Some l => truncLens v l | None => v end in
  foldl truncLens v (m_times m).

Definition scrubbed (v : T) : T :=
  match m_scrub m with Some s => s v | None => v end.

(** [Create] and [Update] write the bookkeeping fields back into the
    caller's struct: the state is the caller's struct and the rows. *)
Definition Create (env : Env) : M (T * gmap string T) unit :=
  checked env (λ '(v, rows),
    let v := if strEq (lget (m_id m) v) "" then lset (m_id m) (e_newID env 0) v else v in
    let id := lget (m_id m) v in
    if bool_decide (is_Some (rows !! id)) then (inl ErrConflict, (v, rows))
    else if keyTaken v id rows then (inl ErrConflict, (v, rows))
    else
      let v := lset (m_tenant m) (e_tenant env) v in
      let v := match m_created m with
               | Some l => if IsZero (lget l v) then lset l (now env) v else v
               | None => v end in
      let v := match m_updated m with Some l => lset l (now env) v | None => v end in
      let v := match m_version m with Some l => lset l 1 v | None => v end in
      let cp := scrubbed (truncateRow v) in
      (inr tt, (v, <[id := cp]> rows))).

Definition Get (env : Env) (id : string) : M (gmap string T) T :=
  checked env (λ rows,
    match rows !! id with
    | Some cur => (inr cur, rows)
    | None => (inl ErrNotFound, rows)
    end).

Definition Update (env : Env) : M (T * gmap string T) unit :=
  checked env (λ '(v, rows),
    let id := lget (m_id m) v in
    match rows !! id with
    | None => (inl ErrNotFound, (v, rows))
    | Some cur =>
        let stale := match m_version m with
                     | Some l => negb (lget l cur =? lget l v)
                     | None => false end in
        if stale then (inl ErrConflict, (v, rows))
        else if keyTaken v id rows then (inl ErrConflict, (v, rows))
        else
          let v := match m_version m with
                   | Some l => lset l (int64 (lget l cur + 1)) v | None => v end in
          let v := lset (m_tenant m) (e_tenant env) v in
          let v := match m_created m with Some l => lset l (lget l cur) v | None => v end in
          let v := match m_updated m with Some l => lset l (now env) v | None => v end in
          let cp := scrubbed (truncateRow v) in
          (inr tt, (v, <[id := cp]> rows))
    end).

Definition Delete (env : Env) (id : string) : M (gmap string T) unit :=
  checked env (λ rows,
    match rows !! id with
    | None => (inl ErrNotFound, rows)
    | Some _ => (inr tt, delete id rows)
    end).

Definition listWhere (env : Env) (p : Page) (keep : T → bool) : M (gmap string T) (Result T) :=
  checked env (λ rows, (inr (paginate rows p keep), rows)).

Definition List (env : Env) (p : Page) : M (gmap string T) (Result T) :=
  listWhere env p (λ _, true).
End table.

(** ** Pagination properties *)

Lemma elem_of_pageIDs {T} (rows : gmap string T) p keep id :
  id ∈ pageIDs rows p keep ↔
  ∃ v, rows !! id = Some v ∧ keep v = true ∧ ¬ String.le id (p_Cursor p).
Proof.
  unfold pageIDs. rewrite elem_of_selectIDs. apply exist_proper; intros v.
  unfold strLe. rewrite andb_true_iff, negb_true_iff, bool_decide_eq_false. naive_solver.
Qed.

Lemma pageIDs_nonempty {T} (rows : gmap string T) p keep id : id ∈ pageIDs rows p keep → id ≠ "".
Proof. rewrite elem_of_pageIDs. intros (v&_&_&Hn) ->. destruct Hn. apply empty_le. Qed.

(** The page after a full page continues exactly where that page stopped. *)
Lemma pageIDs_next {T} (rows : gmap string T) limit c keep (n : nat) c' :
  pageIDs rows (mkPage limit c) keep !! n = Some c' →
  pageIDs rows (mkPage limit c') keep = drop (S n) (pageIDs rows (mkPage limit c) keep).
Proof.
  intros Hn. set (ids := pageIDs rows (mkPage limit c) keep) in *.
  pose proof (Sorted_selectIDs (λ id v, negb (strLe id c) && keep v) rows) as Hs.
  pose proof (NoDup_selectIDs (λ id v, negb (strLe id c) && keep v) rows) as Hnd.
  change (selectIDs _ rows) with ids in Hs, Hnd.
  pose proof (take_drop_middle _ _ _ Hn) as Hsplit.
  apply sorted_ext.
  - apply Sorted_selectIDs.
  - by apply StronglySorted_drop.
  - apply NoDup_selectIDs.
  - eapply sublist_NoDup; [exact Hnd|]. apply sublist_drop.
  - intros x. rewrite elem_of_pageIDs. simpl. split.
    + intros (v&Hv&Hk&Hx). rewrite <- Hsplit in Hs, Hnd.
      apply (sorted_after (take n ids) (drop (S n) ids) c'); [done..| |done].
      rewrite Hsplit. apply elem_of_pageIDs. exists v. split_and!; [done..|]. simpl.
      intros Hxc. apply Hx. transitivity c; [done|].
      assert (Hc' : c' ∈ ids) by (eapply list_elem_of_lookup_2; eauto).
      apply elem_of_pageIDs in Hc' as (?&_&_&Hc'). simpl in Hc'.
      destruct (total String.le c c'); [done|contradiction].
    + intros Hx. assert (Hin : x ∈ ids) by (rewrite <- (take_drop (S n) ids); set_solver).
      pose proof Hin as Hin'. apply elem_of_pageIDs in Hin as (v&Hv&Hk&Hxc).
      exists v. split_and!; [done..|].
      rewrite <- Hsplit in Hs, Hnd, Hin'.
      by apply (sorted_after (take n ids) (drop (S n) ids) c').
Qed.

(** Follow [NextCursor] until it is empty, as every listing loop of the code
    does; [fuel] bounds the number of pages. *)
Fixpoint walk {T} (fuel : nat) (rows : gmap string T) (limit : Z) (cursor : string)
    (keep : T → bool) : option (list T) :=
  match fuel with
  | O => None
  | S fuel =>
      let r := paginate rows (mkPage limit cursor) keep in
      if strEq (res_NextCursor r) "" then Some (res_Items r)
      else (app (res_Items r)) <$> walk fuel rows limit (res_NextCursor r) keep
  end.

Lemma paginate_Normalize {T} (rows : gmap string T) p keep :
  ∃ lim : nat, (1 ≤ lim)%nat ∧ p_Limit (Normalize p) = Z.of_nat lim ∧
  paginate rows p keep =
    let ids := pageIDs rows p keep in
    if (lim <? length ids)%nat
    then mkResult (omap (λ id, rows !! id) (take lim ids)) (default "" (ids !! (lim - 1)%nat))
    else mkResult (omap (λ id, rows !! id) ids) "".
Proof.
  pose proof (Normalize_limit p) as Hl. pose proof (Normalize_cursor p) as Hc.
  exists (Z.to_nat (p_Limit (Normalize p))). split_and!; [lia|lia|].
  unfold paginate, pageIDs, len. rewrite Hc. cbv zeta.
  set (ids := selectIDs _ rows).
  destruct (p_Limit (Normalize p) <? Z.of_nat (length ids)) eqn:E;
    destruct (Nat.ltb_spec (Z.to_nat (p_Limit (Normalize p))) (length ids)); try done; to_prop; lia.
Qed.

Lemma walk_from {T} fuel (rows : gmap string T) limit cursor keep :
  (length (pageIDs rows (mkPage limit cursor) keep) < fuel)%nat →
  walk fuel rows limit cursor keep =
    Some (omap (λ id, rows !! id) (pageIDs rows (mkPage limit cursor) keep)).
Proof.
  revert cursor. induction fuel as [|fuel IH]; intros cursor Hf; [lia|].
  cbn [walk]. destruct (paginate_Normalize rows (mkPage limit cursor) keep) as (lim&Hlim&_&->).
  cbv zeta. destruct (Nat.ltb_spec lim (length (pageIDs rows (mkPage limit cursor) keep)))
    as [Hlt|Hge]; [|by unfold strEq; simpl].
  cbn [res_NextCursor res_Items].
  set (ids := pageIDs rows (mkPage limit cursor) keep) in *.
  destruct (lookup_lt_is_Some_2 ids (lim - 1)%nat) as [c' Hc']; [lia|]. rewrite Hc'. simpl.
  assert (c' ≠ "") as Hne.
  { eapply (pageIDs_nonempty rows (mkPage limit cursor) keep). by eapply list_elem_of_lookup_2. }
  unfold strEq. rewrite bool_decide_eq_false_2 by done.
  pose proof (pageIDs_next _ _ _ _ _ _ Hc') as Hnext. fold ids in Hnext.
  replace (S (lim - 1))%nat with lim in Hnext by lia.
  rewrite IH; rewrite Hnext; [|rewrite length_drop; lia].
  simpl. by rewrite <- omap_app, take_drop.
Qed.

(** The first page starts at the first row. *)
Lemma pageIDs_start {T} (rows : gmap string T) limit keep :
  "" ∉ dom rows → pageIDs rows (mkPage limit "") keep = selectIDs (λ _ v, keep v) rows.
Proof.
  intros He. apply sorted_ext; [apply Sorted_selectIDs..|apply NoDup_selectIDs|apply NoDup_selectIDs|].
  intros id. rewrite elem_of_pageIDs, elem_of_selectIDs. apply exist_proper; intros v.
  simpl. split; [naive_solver|]. intros [Hv Hk]. split_and!; [done..|].
  intros Hle. apply He, elem_of_dom. exists v.
  by rewrite <- (anti_symm String.le _ _ Hle (empty_le id)).
Qed.

(** The items of a page are rows. *)
Lemma paginate_items {T} (rows : gmap string T) p keep v :
  v ∈ res_Items (paginate rows p keep) → ∃ id, rows !! id = Some v.
Proof.
  destruct (paginate_Normalize rows p keep) as (lim&_&_&->). cbv zeta.
  destruct (_ <? _)%nat; cbn; rewrite list_elem_of_omap; naive_solver.
Qed.

(** A row after the cursor is on the page, or after the page's own cursor. *)
Lemma paginate_covers {T} (rows : gmap string T) limit c keep id v :
  rows !! id = Some v → keep v = true → ¬ String.le id c →
  let r := paginate rows (mkPage limit c) keep in
  v ∈ res_Items r ∨ (res_NextCursor r ≠ "" ∧ ¬ String.le id (res_NextCursor r)).
Proof.
  intros Hv Hk Hc. cbv zeta. destruct (paginate_Normalize rows (mkPage limit c) keep) as (lim&Hlim&_&->). cbv zeta.
  set (ids := pageIDs rows (mkPage limit c) keep).
  assert (Hin : id ∈ ids) by (apply elem_of_pageIDs; eauto).
  destruct (Nat.ltb_spec lim (length ids)) as [Hlt|Hge]; cbn [res_Items res_NextCursor].
  - destruct (lookup_lt_is_Some_2 ids (lim - 1)%nat) as [c' Hc']; [lia|]. rewrite Hc'. cbn [default].
    rewrite <- (take_drop lim ids), elem_of_app in Hin. destruct Hin as [Hin|Hin]; [left; apply list_elem_of_omap; eauto|right].
    pose proof (pageIDs_next _ _ _ _ _ _ Hc') as Hnext. fold ids in Hnext.
    replace (S (lim - 1))%nat with lim in Hnext by lia. rewrite <- Hnext in Hin.
    split; [|by apply elem_of_pageIDs in Hin as (?&_&_&?)].
    eapply (pageIDs_nonempty rows (mkPage limit c) keep). by eapply list_elem_of_lookup_2.
  - left. apply list_elem_of_omap. eauto.
Qed.

Lemma length_selectIDs {T} (P : string → T → bool) (rows : gmap string T) :
  (length (selectIDs P rows) ≤ size rows)%nat.
Proof.
  rewrite <- (size_dom rows), <- (size_list_to_set (C := gset string)) by apply NoDup_selectIDs.
  apply subseteq_size. intros id. rewrite elem_of_list_to_set, elem_of_selectIDs, elem_of_dom.
  intros (v&Hv&_). by exists v.
Qed.

(** ** The laws a [meta] satisfies

    The bookkeeping lenses address distinct fields: the ID, the version and
    the unique key of a row are not changed by writing another bookkeeping
    field, by truncation or by scrubbing. *)

Definition timeLenses {T} (m : meta T) : list (lens T Time) :=
  option_list (m_created m) ++ option_list (m_updated m) ++ m_times m.

(** [f] does not observe the tenant, the timestamps or what scrubbing clears. *)
Record unobserved {T A} (m : meta T) (f : T → A) : Prop := {
  un_tenant x v : f (lset (m_tenant m) x v) = f v;
  un_time l x v : l ∈ timeLenses m → f (lset l x v) = f v;
  un_scrub v : f (scrubbed m v) = f v;
}.

Class MetaOk {T} (m : meta T) : Prop := {
  mo_id_set x v : lget (m_id m) (lset (m_id m) x v) = x;
  mo_id_version l x v : m_version m = Some l → lget (m_id m) (lset l x v) = lget (m_id m) v;
  mo_id_rest : unobserved m (lget (m_id m));
  mo_ver_set l x v : m_version m = Some l → lget l (lset l x v) = x;
  mo_ver_rest l : m_version m = Some l → unobserved m (lget l);
  mo_key_version k l x v : m_key m = Some k → m_version m = Some l → k (lset l x v) = k v;
  mo_key_rest k : m_key m = Some k → unobserved m k;
}.

Lemma unobserved_truncateRow {T A} (m : meta T) (f : T → A) v :
  unobserved m f → f (truncateRow m v) = f v.
Proof.
  intros [_ Ht _]. unfold truncateRow, truncLens, timeLenses in *.
  assert (Hf : ∀ ls w, (∀ l, l ∈ ls → l ∈ m_times m) →
            f (foldl (λ v l, lset l (TruncateTime (lget l v)) v) w ls) = f w).
  { induction ls as [|l ls IH]; intros w Hl; simpl; [done|].
    rewrite IH by set_solver. apply Ht. set_solver. }
  rewrite Hf by done.
  destruct (m_updated m), (m_created m); rewrite ?Ht by set_solver; done.
Qed.

Lemma unobserved_stored {T A} (m : meta T) (f : T → A) v :
  unobserved m f → f (scrubbed m (truncateRow m v)) = f v.
Proof. intros Hf. rewrite (un_scrub _ _ Hf). by apply unobserved_truncateRow. Qed.

Section table_ok.
Context {T : Type} (m : meta T) `{!MetaOk m}.
Implicit Types (v : T) (rows : gmap string T).

(** Rows are filed under their own ID and non-empty keys are unique. *)
Record tableOk rows : Prop := {
  to_id id v : rows !! id = Some v → lget (m_id m) v = id;
  to_key k id1 id2 v1 v2 : m_key m = Some k → rows !! id1 = Some v1 → rows !! id2 = Some v2 →
    k v1 = k v2 → k v1 ≠ "" → id1 = id2;
}.

Lemma keyTaken_false v id rows k :
  keyTaken m v id rows = false → m_key m = Some k → k v ≠ "" →
  ∀ id' v', rows !! id' = Some v' → k v' = k v → id' = id.
Proof.
  unfold keyTaken. intros H Hk Hne id' v' Hv' Hkv. rewrite Hk in H. unfold strEq in H.
  rewrite bool_decide_eq_false_2 in H by done.
  destruct (decide (id' = id)) as [|Hid]; [done|exfalso].
  apply not_true_iff_false in H. apply H. apply existsb_exists.
  exists (id', v'). split.
  - apply list_elem_of_In. by apply elem_of_map_to_list.
  - simpl. by rewrite bool_decide_eq_false_2, bool_decide_eq_true_2.
Qed.

Lemma tableOk_insert id v rows :
  tableOk rows → lget (m_id m) v = id →
  (∀ k id' v', m_key m = Some k → k v ≠ "" → rows !! id' = Some v' → k v' = k v → id' = id) →
  tableOk (<[id := v]> rows).
Proof.
  intros [Hid Hkey] Hv Hk. split.
  - intros id' v' [[<- <-]|[Hne Hl]]%lookup_insert_Some; [done|by apply Hid].
  - intros k i1 i2 v1 v2 Hmk [[<- <-]|[Hne1 H1]]%lookup_insert_Some
      [[<- <-]|[Hne2 H2]]%lookup_insert_Some Heq Hnn; try done.
    + symmetry. by eapply Hk.
    + eapply Hk; [done| |done..]. congruence.
    + by eapply Hkey.
Qed.

Definition createRow (env : Env) (v : T) : T :=
  let v := lset (m_tenant m) (e_tenant env) v in
  let v := match m_created m with
           | Some l => if IsZero (lget l v) then lset l (now env) v else v
           | None => v end in
  let v := match m_updated m with Some l => lset l (now env) v | None => v end in
  match m_version m with Some l => lset l 1 v | None => v end.

Lemma createRow_unobserved {A} (f : T → A) env v :
  unobserved m f → (∀ l x w, m_version m = Some l → f (lset l x w) = f w) →
  f (createRow env v) = f v.
Proof.
  intros [Ht Hl _] Hver. unfold timeLenses in Hl. unfold createRow.
  destruct (m_version m) as [lv|]; [rewrite (Hver lv) by done|];
    destruct (m_updated m), (m_created m); try destruct (IsZero _);
    repeat (rewrite Hl by set_solver); apply Ht.
Qed.

Definition updateRow (env : Env) (cur v : T) : T :=
  let v := match m_version m with
           | Some l => lset l (int64 (lget l cur + 1)) v | None => v end in
  let v := lset (m_tenant m) (e_tenant env) v in
  let v := match m_created m with Some l => lset l (lget l cur) v | None => v end in
  match m_updated m with Some l => lset l (now env) v | None => v end.

Lemma updateRow_unobserved {A} (f : T → A) env cur v :
  unobserved m f → (∀ l x w, m_version m = Some l → f (lset l x w) = f w) →
  f (updateRow env cur v) = f v.
Proof.
  intros [Ht Hl _] Hver. unfold timeLenses in Hl. unfold updateRow.
  destruct (m_updated m), (m_created m);
    repeat (rewrite Hl by set_solver); rewrite Ht;
    (destruct (m_version m) as [lv|]; [by rewrite (Hver lv) by done|done]).
Qed.

(** The ID [Create] files the row under. *)
Definition createID (env : Env) (v : T) : string :=
  if strEq (lget (m_id m) v) "" then e_newID env 0 else lget (m_id m) v.

Definition withID (env : Env) (v : T) : T :=
  if strEq (lget (m_id m) v) "" then lset (m_id m) (e_newID env 0) v else v.

Lemma withID_id env v : lget (m_id m) (withID env v) = createID env v.
Proof. unfold withID, createID. destruct (strEq _ _); [apply mo_id_set|done]. Qed.

(** What a successful [Create] did. *)
Lemma Create_inv env v rows v' rows' :
  Create m env (v, rows) = (inr tt, (v', rows')) →
  e_closed env = false ∧ rows !! createID env v = None ∧
  keyTaken m (withID env v) (createID env v) rows = false ∧
  v' = createRow env (withID env v) ∧
  rows' = <[createID env v := scrubbed m (truncateRow m v')]> rows.
Proof.
  unfold Create, checked. destruct (e_closed env); [done|].
  fold (withID env v). rewrite withID_id.
  case_bool_decide as Hs; [done|]. apply eq_None_not_Some in Hs.
  destruct (keyTaken _ _ _ _) eqn:Hk; [done|]. intros [= <- <-]. done.
Qed.

(** What a successful [Update] did. *)
Lemma Update_inv env v rows v' rows' :
  Update m env (v, rows) = (inr tt, (v', rows')) →
  ∃ cur, e_closed env = false ∧ rows !! lget (m_id m) v = Some cur ∧
    (∀ l, m_version m = Some l → lget l cur = lget l v) ∧
    keyTaken m v (lget (m_id m) v) rows = false ∧
    v' = updateRow env cur v ∧
    rows' = <[lget (m_id m) v := scrubbed m (truncateRow m v')]> rows.
Proof.
  unfold Update, checked. destruct (e_closed env); [done|].
  destruct (rows !! lget (m_id m) v) as [cur|] eqn:Hcur; [|done].
  destruct (match m_version m with Some l => _ | None => _ end) eqn:Hst; [done|].
  destruct (keyTaken _ _ _ _) eqn:Hk; [done|]. intros [= <- <-].
  exists cur. split_and!; try done.
  intros l Hl. rewrite Hl in Hst. by to_prop.
Qed.

Lemma updateRow_version env cur v l :
  m_version m = Some l → lget l (updateRow env cur v) = int64 (lget l cur + 1).
Proof.
  intros Hl. destruct (mo_ver_rest l Hl) as [Ht Hti _]. unfold timeLenses in Hti.
  unfold updateRow. rewrite Hl.
  destruct (m_updated m), (m_created m); repeat (rewrite Hti by set_solver);
    rewrite Ht; by apply mo_ver_set.
Qed.

Lemma createRow_version env v l : m_version m = Some l → lget l (createRow env v) = 1.
Proof. intros Hl. unfold createRow. rewrite Hl. by apply mo_ver_set. Qed.

Lemma createRow_id env v : lget (m_id m) (createRow env v) = lget (m_id m) v.
Proof. apply createRow_unobserved; [apply mo_id_rest|]. intros; by apply mo_id_version. Qed.

Lemma updateRow_id env cur v : lget (m_id m) (updateRow env cur v) = lget (m_id m) v.
Proof. apply updateRow_unobserved; [apply mo_id_rest|]. intros; by apply mo_id_version. Qed.

Lemma createRow_key k env v : m_key m = Some k → k (createRow env v) = k v.
Proof. intros. apply createRow_unobserved; [by apply mo_key_rest|]. intros; by apply mo_key_version. Qed.

Lemma updateRow_key k env cur v : m_key m = Some k → k (updateRow env cur v) = k v.
Proof. intros. apply updateRow_unobserved; [by apply mo_key_rest|]. intros; by apply mo_key_version. Qed.

Lemma Create_ok env v rows v' rows' :
  tableOk rows → Create m env (v, rows) = (inr tt, (v', rows')) → tableOk rows'.
Proof.
  intros Hok (_&Hfresh&Hk&->&->)%Create_inv. apply tableOk_insert; [done| |].
  - rewrite unobserved_stored by apply mo_id_rest. by rewrite createRow_id, withID_id.
  - intros k id' v' Hmk. rewrite unobserved_stored by by apply mo_key_rest.
    rewrite createRow_key by done. intros. by eapply keyTaken_false.
Qed.

Lemma Update_ok env v rows v' rows' :
  tableOk rows → Update m env (v, rows) = (inr tt, (v', rows')) → tableOk rows'.
Proof.
  intros Hok (cur&_&Hcur&_&Hk&->&->)%Update_inv. apply tableOk_insert; [done| |].
  - rewrite unobserved_stored by apply mo_id_rest. by rewrite updateRow_id.
  - intros k id' v' Hmk. rewrite unobserved_stored by by apply mo_key_rest.
    rewrite updateRow_key by done. intros. by eapply keyTaken_false.
Qed.

Lemma Delete_ok env id rows r rows' :
  tableOk rows → Delete env id rows = (r, rows') → tableOk rows'.
Proof.
  intros [Hid Hkey]. unfold Delete, checked, throw. destruct (e_closed env); [by intros [= <- <-]|].
  destruct (rows !! id) as [v|]; intros [= <- <-]; [|done]. split.
  - intros i w [_ ?]%lookup_delete_Some. by apply Hid.
  - intros k i1 i2 v1 v2 Hk [_ ?]%lookup_delete_Some [_ ?]%lookup_delete_Some. by eapply Hkey.
Qed.

(** A row found by key is the row that holds it, whatever the iteration
    order of the map. *)
Lemma getByKey_unique env key rows k v :
  tableOk rows → e_closed env = false → m_key m = Some k → key ≠ "" →
  (getByKey m env key rows = (inr v, rows) ↔ ∃ id, rows !! id = Some v ∧ k v = key).
Proof.
  intros Hok Hc Hk Hne. unfold getByKey, checked. rewrite Hc, Hk. unfold strEq.
  rewrite bool_decide_eq_false_2 by done.
  destruct (list_find _ _) as [[i [id w]]|] eqn:Hf.
  - apply list_find_Some in Hf as (Hin%list_elem_of_lookup_2&Hkw&_). simpl in *.
    apply elem_of_map_to_list in Hin. split.
    + intros [= ->]. eauto.
    + intros (id'&Hv&Hkv). assert (id' = id) as ->; [|congruence].
      eapply (to_key _ Hok k); [done..| |]; congruence.
  - split; [done|]. intros (id&Hv&Hkv). apply list_find_None in Hf.
    rewrite Forall_forall in Hf. exfalso. apply (Hf (id, v)); [|done].
    by apply elem_of_map_to_list.
Qed.
End table_ok.

(** ** The table's contract *)

(** Following [NextCursor] from the first page until it is
    empty terminates within one page per row and yields every kept row exactly
    once, in ID order, for every page size the caller asks for. *)
Theorem paginate_walk_complete {T} (rows : gmap string T) (limit : Z) (keep : T → bool) :
  "" ∉ dom rows →
  walk (S (size rows)) rows limit "" keep =
    Some (omap (λ id, rows !! id) (selectIDs (λ _ v, keep v) rows)).
Proof.
  intros He. pose proof (pageIDs_start rows limit keep He) as Hids.
  rewrite walk_from, Hids; [done|]. rewrite Hids. apply Nat.lt_succ_r, length_selectIDs.
Qed.

(** Optimistic concurrency loses no update.  Two writers that
    read the same row version cannot both commit: after the first [Update]
    succeeded, the second returns ErrConflict and changes nothing, also when
    the version counter wraps. *)
Theorem table_no_lost_update {T} (m : meta T) `{!MetaOk m} l rows env1 env2 v1 v2 v1' rows' :
  m_version m = Some l →
  lget (m_id m) v1 = lget (m_id m) v2 → lget l v1 = lget l v2 →
  Update m env1 (v1, rows) = (inr tt, (v1', rows')) →
  e_closed env2 = false →
  Update m env2 (v2, rows') = (inl ErrConflict, (v2, rows')).
Proof.
  intros Hl Hid Hver (cur&_&Hcur&Hcv&_&->&->)%Update_inv Hc2.
  unfold Update, checked. rewrite Hc2, <- Hid, lookup_insert_eq, Hl.
  rewrite unobserved_stored by by apply mo_ver_rest.
  rewrite updateRow_version by done. rewrite (Hcv l Hl), Hver.
  rewrite (proj2 (Z.eqb_neq _ _)) by apply int64_succ_neq. done.
Qed.

(** The table invariant (every row is filed under its own ID
    and no two rows share a non-empty unique key) is preserved by every
    operation, successful or not, and under it a lookup by key returns exactly
    the row holding the key. *)
Theorem table_invariant {T} (m : meta T) `{!MetaOk m} env rows :
  tableOk m rows →
  (∀ v r v' rows', Create m env (v, rows) = (r, (v', rows')) → tableOk m rows') ∧
  (∀ v r v' rows', Update m env (v, rows) = (r, (v', rows')) → tableOk m rows') ∧
  (∀ id r rows', Delete env id rows = (r, rows') → tableOk m rows') ∧
  (∀ k key v, e_closed env = false → m_key m = Some k → key ≠ "" →
     (getByKey m env key rows = (inr v, rows) ↔ ∃ id, rows !! id = Some v ∧ k v = key)).
Proof.
  intros Hok. split_and!.
  - intros v [e|[]] v' rows' H; [|by eapply Create_ok].
    unfold Create, checked, throw in H. repeat case_match; simplify_eq; done.
  - intros v [e|[]] v' rows' H; [|by eapply Update_ok].
    unfold Update, checked, throw in H. repeat case_match; simplify_eq; done.
  - intros id r rows' H. by eapply (Delete_ok m).
  - intros. by apply getByKey_unique.
Qed.

(** A created row is read back as the caller's struct with
    the store's bookkeeping applied (the caller sees the same ID, tenant and
    version 1), creating it again conflicts, and no other row changes. *)
Theorem table_create_get {T} (m : meta T) `{!MetaOk m} env rows v v' rows' :
  Create m env (v, rows) = (inr tt, (v', rows')) →
  let id := lget (m_id m) v' in
  Get env id rows' = (inr (scrubbed m (truncateRow m v')), rows') ∧
  (∀ l, m_version m = Some l → lget l (scrubbed m (truncateRow m v')) = 1) ∧
  (id ≠ "" → Create m env (v', rows') = (inl ErrConflict, (v', rows'))) ∧
  (∀ id', id' ≠ id → rows' !! id' = rows !! id').
Proof.
  intros (Hc&Hfresh&_&Hv'&Hrows)%Create_inv; [|done].
  assert (Hid : lget (m_id m) v' = createID m env v) by (subst v'; by rewrite createRow_id, withID_id).
  cbv zeta. rewrite Hid. subst rows'. split_and!.
  - unfold Get, checked. by rewrite Hc, lookup_insert_eq.
  - intros l Hl. rewrite unobserved_stored by by apply mo_ver_rest. subst v'.
    by apply createRow_version.
  - intros Hne. unfold Create, checked. rewrite Hc, Hid. unfold strEq.
    rewrite (bool_decide_eq_false_2 (createID m env v = "")) by done.
    rewrite Hid, lookup_insert_eq. by rewrite bool_decide_eq_true_2 by eauto.
  - intros id' Hne. by rewrite lookup_insert_ne.
Qed.
