(* ===== verification/MemData.v ===== *)
(** * One tenant's rows in the reference store ([store/memstore/memstore.go])

    [tenantData] holds every table of one tenant; the [meta] of each generic
    table is the one [newTenantStore] wires up, and satisfies the laws the
    table theorems need. *)

From S2P Require Import Prelude Enums Model MemTable.

Record tenantData := mkTenantData {
  settings : option TenantSettings;

  transports : gmap string Transport;
  senders : gmap string Sender;
  domains : gmap string SendingDomain;
  bounceMailboxes : gmap string BounceMailbox;
  probeMailboxes : gmap string ProbeMailbox;
  probeRuns : gmap string ProbeRun;
  layouts : gmap string Layout;
  templates : gmap string Template;
  versions : gmap string MessageVersion;
  campaigns : gmap string Campaign;
  deliveries : gmap string Delivery;
  bounces : gmap string BounceEvent;
  outbox : gmap string OutboxEvent;

  campaignEmails : gmap string string;
  chunks : gmap string RecipientChunk;
  attempts : gmap string DeliveryAttempt;
  suppressions : gmap string Suppression;
  tracking : gmap string TrackingEvent;
  locks : gmap string Lock;
  workers : gmap string Worker;
}.

#[global] Instance tenantData_eta : Eta tenantData := λ d,
  mkTenantData (settings d) (transports d) (senders d) (domains d) (bounceMailboxes d)
    (probeMailboxes d) (probeRuns d) (layouts d) (templates d) (versions d) (campaigns d)
    (deliveries d) (bounces d) (outbox d) (campaignEmails d) (chunks d) (attempts d)
    (suppressions d) (tracking d) (locks d) (workers d).

Definition newTenantData : tenantData :=
  mkTenantData None ∅ ∅ ∅ ∅ ∅ ∅ ∅ ∅ ∅ ∅ ∅ ∅ ∅ ∅ ∅ ∅ ∅ ∅ ∅ ∅.

(** ** The table wiring of [newTenantStore] *)

(** [func(v *T) *F { return &v.F }] *)
Definition field {R F} (p : R → F) `{!Upd p} : lens R F := mkLens p (λ x r, r <| p := x |>).

Definition transportMeta : meta Transport :=
  mkMeta (field tr_ID) (field tr_TenantID) (Some (field tr_Version))
    (Some (field tr_CreatedAt)) (Some (field tr_UpdatedAt)) [field tr_StatusChangedAt] None None.

Definition senderMeta : meta Sender :=
  mkMeta (field s_ID) (field s_TenantID) (Some (field s_Version))
    (Some (field s_CreatedAt)) (Some (field s_UpdatedAt)) [field s_HealthCheckedAt] None None.

Definition domainMeta : meta SendingDomain :=
  mkMeta (field sd_ID) (field sd_TenantID) (Some (field sd_Version))
    (Some (field sd_CreatedAt)) (Some (field sd_UpdatedAt)) [field sd_HealthCheckedAt] None None.

(** The two instants inside a mailbox's [Health]. *)
Definition healthTimes {R} (p : R → MailboxHealth) `{!Upd p} : list (lens R Time) :=
  [mkLens (λ v, mh_CheckedAt (p v)) (λ t v, v <| p := (p v) <| mh_CheckedAt := t |> |>);
   mkLens (λ v, mh_LastOKAt (p v)) (λ t v, v <| p := (p v) <| mh_LastOKAt := t |> |>)].

Definition bounceMailboxMeta : meta BounceMailbox :=
  mkMeta (field bm_ID) (field bm_TenantID) (Some (field bm_Version))
    (Some (field bm_CreatedAt)) (Some (field bm_UpdatedAt)) (healthTimes bm_Health) None None.

Definition probeMailboxMeta : meta ProbeMailbox :=
  mkMeta (field pm_ID) (field pm_TenantID) (Some (field pm_Version))
    (Some (field pm_CreatedAt)) (Some (field pm_UpdatedAt)) (healthTimes pm_Health) None None.

Definition layoutMeta : meta Layout :=
  mkMeta (field l_ID) (field l_TenantID) (Some (field l_Version))
    (Some (field l_CreatedAt)) (Some (field l_UpdatedAt)) [] (Some l_Key)
    (Some (λ v, v <| l_Overridden := false |>)).

Definition templateMeta : meta Template :=
  mkMeta (field t_ID) (field t_TenantID) (Some (field t_Version))
    (Some (field t_CreatedAt)) (Some (field t_UpdatedAt)) [] (Some t_Key)
    (Some (λ v, v <| t_Overridden := false |> <| t_SharedPublishedVersionID := "" |>)).

Definition probeRunMeta : meta ProbeRun :=
  mkMeta (field pr_ID) (field pr_TenantID) None (Some (field pr_CreatedAt)) None
    [field pr_StartedAt; field pr_ReceivedAt] None None.

Definition versionMeta : meta MessageVersion :=
  mkMeta (field mv_ID) (field mv_TenantID) None (Some (field mv_CreatedAt)) None [] None None.

Definition campaignMeta : meta Campaign :=
  mkMeta (field c_ID) (field c_TenantID) (Some (field c_Version))
    (Some (field c_CreatedAt)) (Some (field c_UpdatedAt))
    [field c_ScheduleAt; field c_StartedAt; field c_CompletedAt] None None.

Definition bounceMeta : meta BounceEvent :=
  mkMeta (field b_ID) (field b_TenantID) None (Some (field b_CreatedAt)) None
    [field b_ReceivedAt] None None.

(** ** The laws hold for every table *)

Ltac solve_unobserved :=
  split; [reflexivity
         |intros ? ? ? Hl; repeat (apply elem_of_cons in Hl as [->|Hl]; [reflexivity|]); by apply not_elem_of_nil in Hl
         |reflexivity].

Ltac solve_meta :=
  split; intros;
  repeat match goal with
  | H : m_version _ = Some _ |- _ => injection H as <- || discriminate H
  | H : m_key _ = Some _ |- _ => injection H as <- || discriminate H
  end; solve [reflexivity | solve_unobserved].

#[global] Instance transportMeta_ok : MetaOk transportMeta.
Proof. solve_meta. Qed.
#[global] Instance senderMeta_ok : MetaOk senderMeta.
Proof. solve_meta. Qed.
#[global] Instance domainMeta_ok : MetaOk domainMeta.
Proof. solve_meta. Qed.
#[global] Instance bounceMailboxMeta_ok : MetaOk bounceMailboxMeta.
Proof. solve_meta. Qed.
#[global] Instance probeMailboxMeta_ok : MetaOk probeMailboxMeta.
Proof. solve_meta. Qed.
#[global] Instance layoutMeta_ok : MetaOk layoutMeta.
Proof. solve_meta. Qed.
#[global] Instance templateMeta_ok : MetaOk templateMeta.
Proof. solve_meta. Qed.
#[global] Instance probeRunMeta_ok : MetaOk probeRunMeta.
Proof. solve_meta. Qed.
#[global] Instance versionMeta_ok : MetaOk versionMeta.
Proof. solve_meta. Qed.
#[global] Instance campaignMeta_ok : MetaOk campaignMeta.
Proof. solve_meta. Qed.
#[global] Instance bounceMeta_ok : MetaOk bounceMeta.
Proof. solve_meta. Qed.

(** ** The table's contract on concrete tables *)

Definition tableEnv : Env := {|
  e_closed := false; e_clock := 5 * Second; e_tenant := "acme"; e_newID := λ i, "id-" +:+ pretty i |}.

Definition sampleLayout : Layout := zero <| l_ID := "l1" |> <| l_Key := "base" |>.

(** The caller's struct and the table after creating [sampleLayout]. *)
Definition createdLayout : Layout * gmap string Layout :=
  Eval vm_compute in (Create layoutMeta tableEnv (sampleLayout, ∅)).2.

Definition updatedLayout : Layout * gmap string Layout :=
  Eval vm_compute in (Update layoutMeta tableEnv createdLayout).2.

Lemma table_create_get_witness :
  Get tableEnv "l1" createdLayout.2 =
    (inr (scrubbed layoutMeta (truncateRow layoutMeta createdLayout.1)), createdLayout.2) ∧
  Create layoutMeta tableEnv (createdLayout.1, createdLayout.2) = (inl ErrConflict, createdLayout).
Proof.
  destruct (table_create_get layoutMeta tableEnv ∅ sampleLayout createdLayout.1 createdLayout.2)
    as (Hg&_&Hc&_); [vm_compute; reflexivity|]. split; [exact Hg|]. apply Hc. done.
Defined.

Lemma table_no_lost_update_witness :
  Update layoutMeta tableEnv (createdLayout.1 <| l_Key := "other" |>, updatedLayout.2) =
    (inl ErrConflict, (createdLayout.1 <| l_Key := "other" |>, updatedLayout.2)).
Proof.
  apply (table_no_lost_update layoutMeta (field l_Version) createdLayout.2 tableEnv tableEnv
    createdLayout.1 (createdLayout.1 <| l_Key := "other" |>) updatedLayout.1 updatedLayout.2);
    vm_compute; reflexivity.
Defined.

Lemma table_invariant_witness : tableOk layoutMeta createdLayout.2.
Proof.
  destruct (table_invariant layoutMeta tableEnv ∅) as [H _].
  - split; intros *; rewrite lookup_empty; done.
  - apply (H sampleLayout (inr tt) createdLayout.1). vm_compute. reflexivity.
Defined.

Lemma paginate_walk_complete_witness :
  walk (S (size createdLayout.2)) createdLayout.2 1 "" (λ _, true) =
    Some (omap (λ id, createdLayout.2 !! id) (selectIDs (λ _ _, true) createdLayout.2)).
Proof. apply (paginate_walk_complete createdLayout.2 1 (λ _, true)). apply (bool_decide_unpack _); vm_compute; exact I. Defined.
