(* ===== verification/DeliveryRepo.v ===== *)
(** * The delivery queue ([store/memstore/delivery.go])

    [deliveryRepo] and [attemptRepo] of the reference store, one definition
    per method.  Each method is one atomic step on the tenant's data (it runs
    under the provider mutex).  A [range] over a Go map followed by a sort is
    [selectIDs]; a mutation through a row pointer is an [alter] of the row. *)

From S2P Require Import Prelude Enums Model MemTable MemData.

(** [emailKey]: the unique key of a campaign delivery. *)
Definition emailKey (campaignID emailNorm : string) : string :=
  campaignID +:+ String (Ascii.ascii_of_nat 0) emailNorm.

Definition truncateDelivery (d : Delivery) : Delivery :=
  d <| d_NextAttemptAt := TruncateTime (d_NextAttemptAt d) |>
    <| d_LeaseUntil := TruncateTime (d_LeaseUntil d) |>
    <| d_SentAt := TruncateTime (d_SentAt d) |>
    <| d_FinishedAt := TruncateTime (d_FinishedAt d) |>
    <| d_FirstOpenedAt := TruncateTime (d_FirstOpenedAt d) |>
    <| d_FirstClickedAt := TruncateTime (d_FirstClickedAt d) |>
    <| d_UnsubscribedAt := TruncateTime (d_UnsubscribedAt d) |>
    <| d_CreatedAt := TruncateTime (d_CreatedAt d) |>
    <| d_UpdatedAt := TruncateTime (d_UpdatedAt d) |>.

Definition truncateAttempt (a : DeliveryAttempt) : DeliveryAttempt :=
  a <| a_StartedAt := TruncateTime (a_StartedAt a) |>
    <| a_FinishedAt := TruncateTime (a_FinishedAt a) |>
    <| a_CreatedAt := TruncateTime (a_CreatedAt a) |>.

(** ** InsertBatch *)

(** The stamps of one inserted row. *)
Definition stampDelivery (env : Env) (d : Delivery) : Delivery :=
  let d := d <| d_TenantID := e_tenant env |> in
  let d := if IsZero (d_CreatedAt d) then d <| d_CreatedAt := now env |> else d in
  let d := d <| d_UpdatedAt := now env |> in
  let d := if IsZero (d_NextAttemptAt d) then d <| d_NextAttemptAt := now env |> else d in
  truncateDelivery d.

Definition deliveryID (env : Env) (i : nat) (d : Delivery) : Delivery :=
  if strEq (d_ID d) "" then d <| d_ID := e_newID env i |> else d.

(** One iteration of the loop: the counter and the data after row [i]. *)
Definition insertOne (env : Env) (i : nat) (d : Delivery) (acc : Z * tenantData) : Z * tenantData :=
  let '(inserted, td) := acc in
  let k := emailKey (d_CampaignID d) (d_EmailNorm d) in
  if negb (strEq (d_CampaignID d) "") && bool_decide (is_Some (campaignEmails td !! k))
  then (inserted, td)
  else
    let d := deliveryID env i d in
    let td := if strEq (d_CampaignID d) "" then td
              else td <| campaignEmails := <[k := d_ID d]> (campaignEmails td) |> in
    let d := stampDelivery env d in
    (inserted + 1, td <| deliveries := <[d_ID d := d]> (deliveries td) |>).

Fixpoint insertLoop (env : Env) (i : nat) (ds : list Delivery) (acc : Z * tenantData) : Z * tenantData :=
  match ds with
  | [] => acc
  | d :: ds' => insertLoop env (S i) ds' (insertOne env i d acc)
  end.

Definition InsertBatch (env : Env) (ds : list Delivery) : M tenantData Z := λ td,
  if existsb (λ d, strEq (d_EmailNorm d) "") ds then (inl ErrInvalid, td)
  else checked env (λ td,
    let '(inserted, td') := insertLoop env 0 ds (0, td) in (inr inserted, td')) td.

(** ** Reads *)

Definition GetDelivery (env : Env) (id : string) : M tenantData Delivery :=
  checked env (λ td,
    match deliveries td !! id with
    | Some d => (inr d, td)
    | None => (inl ErrNotFound, td)
    end).

Definition matchStatus (statuses : list DeliveryStatus) (s : DeliveryStatus) : bool :=
  if len statuses =? 0 then true else contains statuses s.

Definition matchClass (classes : list ErrorClass) (c : ErrorClass) : bool :=
  if len classes =? 0 then true else contains classes c.

Definition matchLane (lanes : list Lane) (l : Lane) : bool :=
  if len lanes =? 0 then true else contains lanes l.

Definition matchDelivery (f : DeliveryFilter) (d : Delivery) : bool :=
  if match df_CampaignID f with Some c => negb (strEq (d_CampaignID d) c) | None => false end
  then false
  else if negb (strEq (df_EmailNorm f) "") && negb (strEq (d_EmailNorm d) (df_EmailNorm f))
  then false
  else if negb (IsZero (df_Since f)) && Before (d_CreatedAt d) (TruncateTime (df_Since f))
  then false
  else if negb (IsZero (df_Until f)) && negb (Before (d_CreatedAt d) (TruncateTime (df_Until f)))
  then false
  else matchStatus (df_Statuses f) (d_Status d) &&
       matchClass (df_ErrorClasses f) (d_LastErrorClass d) &&
       matchLane (df_Lanes f) (d_Lane d).

Definition ListDeliveries (env : Env) (f : DeliveryFilter) (p : Page) : M tenantData (Result Delivery) :=
  checked env (λ td, (inr (paginate (deliveries td) p (matchDelivery f)), td)).

Definition ListByCampaign (env : Env) (campaignID : string) (f : DeliveryFilter) (p : Page)
    : M tenantData (Result Delivery) :=
  ListDeliveries env (f <| df_CampaignID := Some campaignID |>) p.

(** ** Claim *)

(** [campaigns[id]] for the set built from [req.CampaignIDs]; a nil map has no members. *)
Definition inCampaigns (ids : option (list string)) (id : string) : bool :=
  match ids with Some l => contains l id | None => false end.

Definition claimableStatus (d : Delivery) (cs : option (list string)) : bool :=
  match d_Status d with
  | DeliveryQueued | DeliveryDeferred => true
  | DeliveryPending => negb (strEq (d_CampaignID d) "") && inCampaigns cs (d_CampaignID d)
  | _ => false
  end.

Definition claimable (req : ClaimRequest) (now : Time) (d : Delivery) : bool :=
  if negb (bool_decide (d_Lane d = cr_Lane req)) then false
  else if negb (claimableStatus d (cr_CampaignIDs req)) then false
  else if After (d_NextAttemptAt d) now then false
  else if bool_decide (is_Some (cr_CampaignIDs req)) && negb (strEq (d_CampaignID d) "") &&
          negb (inCampaigns (cr_CampaignIDs req) (d_CampaignID d)) then false
  else true.

(** The [sort.Slice] comparison: priority descending, then next attempt, then ID. *)
Definition claimLess (a b : Delivery) : bool :=
  if negb (d_Priority a =? d_Priority b) then d_Priority b <? d_Priority a
  else if negb (d_NextAttemptAt a =? d_NextAttemptAt b)
  then Before (d_NextAttemptAt a) (d_NextAttemptAt b)
  else strLt (d_ID a) (d_ID b).

Definition claimLe (a b : string * Delivery) : Prop := claimLess b.2 a.2 = false.
#[global] Instance claimLe_dec : RelDecision claimLe.
Proof. intros a b. unfold claimLe. apply _. Defined.

Definition claimCandidates (req : ClaimRequest) (now : Time) (rows : gmap string Delivery)
    : list (string * Delivery) :=
  capTo (cr_Limit req)
    (merge_sort claimLe (filter (λ kv, claimable req now kv.2 = true) (map_to_list rows))).

Definition claimRow (req : ClaimRequest) (now : Time) (d : Delivery) : Delivery :=
  truncateDelivery
    (d <| d_Status := DeliveryLeased |>
       <| d_LeaseOwner := cr_WorkerID req |>
       <| d_LeaseUntil := addTime now (cr_LeaseFor req) |>
       <| d_UpdatedAt := now |>).

Definition Claim (env : Env) (req : ClaimRequest) : M tenantData (list Delivery) :=
  checked env (λ td,
    let now := TruncateTime (cr_Now req) in
    let cands := claimCandidates req now (deliveries td) in
    (inr ((λ kv, claimRow req now kv.2) <$> cands),
     td <| deliveries := alterAll (claimRow req now) cands.*1 (deliveries td) |>)).

(** ** Complete *)

(** The row after a result is applied. *)
Definition completeRow (now : Time) (res : DeliveryResult) (d : Delivery) : Delivery :=
  let d := d <| d_Status := dr_NewStatus res |>
             <| d_LastErrorClass := dr_ErrorClass res |>
             <| d_LastSMTPCode := dr_SMTPCode res |>
             <| d_LastError := dr_Error res |> in
  let d := if negb (strEq (dr_MessageID res) "") then d <| d_MessageID := dr_MessageID res |> else d in
  let d := if dr_IncrementAttempt res
           then d <| d_AttemptCount := int64 (d_AttemptCount d + 1) |> else d in
  let d := if negb (IsZero (dr_NextAttemptAt res))
           then d <| d_NextAttemptAt := dr_NextAttemptAt res |> else d in
  let d := if bool_decide (dr_NewStatus res = DeliverySent) && IsZero (d_SentAt d)
           then d <| d_SentAt := now |> else d in
  let d := if Terminal (dr_NewStatus res) then d <| d_FinishedAt := now |> else d in
  let d := d <| d_LeaseOwner := "" |> <| d_LeaseUntil := zeroTime |> in
  let d := d <| d_UpdatedAt := now |> in
  truncateDelivery d.

Definition completeAttempt (env : Env) (i : nat) (id : string) (a : DeliveryAttempt) : DeliveryAttempt :=
  let a := if strEq (a_ID a) "" then a <| a_ID := e_newID env i |> else a in
  let a := a <| a_TenantID := e_tenant env |> in
  let a := a <| a_DeliveryID := id |> in
  let a := if IsZero (a_CreatedAt a) then a <| a_CreatedAt := now env |> else a in
  truncateAttempt a.

(** A result applies while its owner still holds the lease. *)
Definition ownsLease (res : DeliveryResult) (d : Delivery) : bool :=
  negb (strEq (dr_LeaseOwner res) "") && strEq (d_LeaseOwner d) (dr_LeaseOwner res).

Definition completeOne (env : Env) (i : nat) (res : DeliveryResult) (td : tenantData) : tenantData :=
  match deliveries td !! dr_DeliveryID res with
  | None => td
  | Some d =>
      if negb (ownsLease res d) then td
      else
        let td := td <| deliveries :=
                    <[dr_DeliveryID res := completeRow (now env) res d]> (deliveries td) |> in
        match dr_Attempt res with
        | None => td
        | Some a =>
            let a := completeAttempt env i (dr_DeliveryID res) a in
            td <| attempts := <[a_ID a := a]> (attempts td) |>
        end
  end.

Fixpoint completeLoop (env : Env) (i : nat) (results : list DeliveryResult) (td : tenantData) : tenantData :=
  match results with
  | [] => td
  | res :: results' => completeLoop env (S i) results' (completeOne env i res td)
  end.

Definition Complete (env : Env) (results : list DeliveryResult) : M tenantData unit :=
  checked env (λ td, (inr tt, completeLoop env 0 results td)).

(** ** MarkSent, MarkBounced, MarkComplained *)

Definition markSentRow (messageID : string) (at_ : Time) (d : Delivery) : Delivery :=
  truncateDelivery
    (d <| d_Status := DeliverySent |>
       <| d_MessageID := messageID |>
       <| d_SentAt := at_ |>
       <| d_FinishedAt := at_ |>
       <| d_UpdatedAt := at_ |>).

Definition MarkSent (env : Env) (id owner messageID : string) (at_ : Time) : M tenantData unit :=
  checked env (λ td,
    match deliveries td !! id with
    | None => (inl ErrNotFound, td)
    | Some d =>
        if negb (bool_decide (d_Status d = DeliveryLeased)) || strEq owner "" ||
           negb (strEq (d_LeaseOwner d) owner)
        then (inl ErrLeaseLost, td)
        else (inr tt, td <| deliveries := <[id := markSentRow messageID at_ d]> (deliveries td) |>)
    end).

Definition markTerminalRow (to : DeliveryStatus) (at_ : Time) (d : Delivery) : Delivery :=
  truncateDelivery
    (d <| d_Status := to |>
       <| d_FinishedAt := at_ |>
       <| d_UpdatedAt := at_ |>
       <| d_LeaseOwner := "" |> <| d_LeaseUntil := zeroTime |>).

Definition markTerminal (env : Env) (id : string) (to : DeliveryStatus) (at_ : Time) : M tenantData bool :=
  checked env (λ td,
    match deliveries td !! id with
    | Some d =>
        if bool_decide (d_Status d = DeliverySent)
        then (inr true, td <| deliveries := <[id := markTerminalRow to at_ d]> (deliveries td) |>)
        else (inr false, td)
    | None => (inr false, td)
    end).

Definition MarkBounced (env : Env) (id : string) (at_ : Time) : M tenantData bool :=
  markTerminal env id DeliveryBounced at_.

Definition MarkComplained (env : Env) (id : string) (at_ : Time) : M tenantData bool :=
  markTerminal env id DeliveryComplained at_.

(** ** ReleaseExpiredLeases *)

Definition leaseExpired (now : Time) (d : Delivery) : bool :=
  bool_decide (d_Status d = DeliveryLeased) && negb (IsZero (d_LeaseUntil d)) &&
  Before (d_LeaseUntil d) now.

Definition releaseRow (now : Time) (d : Delivery) : Delivery :=
  let d := if 0 <? d_AttemptCount d then d <| d_Status := DeliveryDeferred |>
           else d <| d_Status := DeliveryQueued |> in
  truncateDelivery
    (d <| d_LeaseOwner := "" |> <| d_LeaseUntil := zeroTime |>
       <| d_NextAttemptAt := now |>
       <| d_UpdatedAt := now |>).

Definition ReleaseExpiredLeases (env : Env) (at_ : Time) (limit : Z) : M tenantData Z :=
  checked env (λ td,
    let now := TruncateTime at_ in
    let ids := capTo limit (selectIDs (λ _ d, leaseExpired now d) (deliveries td)) in
    (inr (len ids), td <| deliveries := alterAll (releaseRow now) ids (deliveries td) |>)).

(** ** CountByStatus *)

Definition countOne (campaignID : string) (d : Delivery) (m : gmap DeliveryStatus Z) : gmap DeliveryStatus Z :=
  if negb (strEq (d_CampaignID d) campaignID) then m
  else <[d_Status d := int64 (default 0 (m !! d_Status d) + 1)]> m.

Definition CountByStatus (env : Env) (campaignID : string) : M tenantData (gmap DeliveryStatus Z) :=
  checked env (λ td,
    (inr (foldr (countOne campaignID) ∅ (map_to_list (deliveries td)).*2), td)).

(** ** BulkTransition *)

Definition transitionRow (to : DeliveryStatus) (now : Time) (d : Delivery) : Delivery :=
  let d := d <| d_Status := to |> in
  let d := if Terminal to then d <| d_FinishedAt := now |> else d in
  truncateDelivery (d <| d_UpdatedAt := now |>).

Definition transitionMatch (campaignID : string) (from : list DeliveryStatus) (to : DeliveryStatus)
    (d : Delivery) : bool :=
  negb (negb (strEq (d_CampaignID d) campaignID) || negb (matchStatus from (d_Status d)) ||
        bool_decide (d_Status d = to)).

Definition BulkTransition (env : Env) (campaignID : string) (from : list DeliveryStatus)
    (to : DeliveryStatus) (limit : Z) : M tenantData Z :=
  checked env (λ td,
    let ids := capTo limit (selectIDs (λ _ d, transitionMatch campaignID from to d) (deliveries td)) in
    (inr (len ids), td <| deliveries := alterAll (transitionRow to (now env)) ids (deliveries td) |>)).

(** ** Requeue *)

Definition requeueMatch (f : RetryFilter) (id : string) (d : Delivery) : bool :=
  if negb (strEq (d_CampaignID d) (rf_CampaignID f)) ||
     match rf_DeliveryIDs f with Some only => negb (contains only id) | None => false end
  then false
  else if negb (matchStatus (rf_Statuses f) (d_Status d)) ||
          negb (matchClass (rf_ErrorClasses f) (d_LastErrorClass d))
  then false
  else true.

Definition requeueRow (at_ : Time) (d : Delivery) : Delivery :=
  truncateDelivery
    (d <| d_Status := DeliveryQueued |>
       <| d_RetryGen := int64 (d_RetryGen d + 1) |>
       <| d_NextAttemptAt := at_ |>
       <| d_LeaseOwner := "" |> <| d_LeaseUntil := zeroTime |>
       <| d_FinishedAt := zeroTime |>
       <| d_UpdatedAt := at_ |>).

Definition Requeue (env : Env) (f : RetryFilter) (limit : Z) : M tenantData Z :=
  checked env (λ td,
    let at_ := TruncateTime (rf_Now f) in
    let ids := capTo limit (selectIDs (requeueMatch f) (deliveries td)) in
    (inr (len ids), td <| deliveries := alterAll (requeueRow at_) ids (deliveries td) |>)).

(** ** First interactions *)

Definition setFirst (env : Env) (id : string) (at_ : Time) (fld : lens Delivery Time) : M tenantData bool :=
  checked env (λ td,
    match deliveries td !! id with
    | None => (inr false, td)
    | Some d =>
        if negb (IsZero (lget fld d)) then (inr false, td)
        else
          let d := truncateDelivery ((lset fld at_ d) <| d_UpdatedAt := at_ |>) in
          (inr true, td <| deliveries := <[id := d]> (deliveries td) |>)
    end).

Definition SetFirstOpened (env : Env) (id : string) (at_ : Time) : M tenantData bool :=
  setFirst env id at_ (field d_FirstOpenedAt).
Definition SetFirstClicked (env : Env) (id : string) (at_ : Time) : M tenantData bool :=
  setFirst env id at_ (field d_FirstClickedAt).
Definition SetUnsubscribed (env : Env) (id : string) (at_ : Time) : M tenantData bool :=
  setFirst env id at_ (field d_UnsubscribedAt).

(** ** Retention *)

(** Delete one delivery with its unique-key entry and its attempts. *)
Definition dropDelivery (td : tenantData) (id : string) : tenantData :=
  match deliveries td !! id with
  | None => td
  | Some d =>
      let td := if negb (strEq (d_CampaignID d) "")
                then td <| campaignEmails := delete (emailKey (d_CampaignID d) (d_EmailNorm d))
                                               (campaignEmails td) |>
                else td in
      let td := td <| deliveries := delete id (deliveries td) |> in
      td <| attempts := filter (λ kv, a_DeliveryID kv.2 ≠ id) (attempts td) |>
  end.

Definition DeleteDeliveriesBefore (env : Env) (campaignID : string) (before : Time) (limit : Z)
    : M tenantData Z :=
  checked env (λ td,
    let before := TruncateTime before in
    let ids := capTo limit
      (selectIDs (λ _ d, strEq (d_CampaignID d) campaignID && Before (d_CreatedAt d) before)
                 (deliveries td)) in
    (inr (len ids), foldl dropDelivery td ids)).

(** ** attemptRepo *)

Definition insertAttempt (env : Env) (i : nat) (a : DeliveryAttempt) (td : tenantData) : tenantData :=
  let a := if strEq (a_ID a) "" then a <| a_ID := e_newID env i |> else a in
  let a := a <| a_TenantID := e_tenant env |> in
  let a := if IsZero (a_CreatedAt a) then a <| a_CreatedAt := now env |> else a in
  let a := truncateAttempt a in
  td <| attempts := <[a_ID a := a]> (attempts td) |>.

Fixpoint insertAttempts (env : Env) (i : nat) (l : list DeliveryAttempt) (td : tenantData) : tenantData :=
  match l with
  | [] => td
  | a :: l' => insertAttempts env (S i) l' (insertAttempt env i a td)
  end.

Definition InsertAttempts (env : Env) (l : list DeliveryAttempt) : M tenantData unit :=
  checked env (λ td, (inr tt, insertAttempts env 0 l td)).

Definition ListAttempts (env : Env) (deliveryID : string) (p : Page)
    : M tenantData (Result DeliveryAttempt) :=
  checked env (λ td, (inr (paginate (attempts td) p (λ a, strEq (a_DeliveryID a) deliveryID)), td)).
