(* ===== verification/DeliveryQueue.v ===== *)
(** * Correctness of the delivery queue

    The well-formedness invariant of the queue, what each operation of
    [DeliveryRepo] does to a row, and the properties that hold along every
    interleaving of operations by any number of senders, control loops and
    API calls: every operation is one atomic step, so a concurrent execution
    is a sequence of [qop]s, each with its own arguments and clock. *)

From S2P Require Import Prelude Enums Model MemTable MemData DeliveryRepo.

(** ** Rows *)

(** The fields that identify a delivery never change. *)
Record sameIdentity (d d' : Delivery) : Prop := {
  si_ID : d_ID d' = d_ID d;
  si_Tenant : d_TenantID d' = d_TenantID d;
  si_Campaign : d_CampaignID d' = d_CampaignID d;
  si_Email : d_EmailNorm d' = d_EmailNorm d;
}.

Record rowTruncated (d : Delivery) : Prop := {
  rt_next : truncated (d_NextAttemptAt d);
  rt_lease : truncated (d_LeaseUntil d);
  rt_sent : truncated (d_SentAt d);
  rt_finished : truncated (d_FinishedAt d);
  rt_opened : truncated (d_FirstOpenedAt d);
  rt_clicked : truncated (d_FirstClickedAt d);
  rt_unsub : truncated (d_UnsubscribedAt d);
  rt_created : truncated (d_CreatedAt d);
  rt_updated : truncated (d_UpdatedAt d);
}.

Lemma truncateDelivery_truncated d : rowTruncated (truncateDelivery d).
Proof. split; apply TruncateTime_idemp. Qed.

(** A row mutation keeps the identity and stores truncated times. *)
Definition rowStep (d d' : Delivery) : Prop := sameIdentity d d' ∧ rowTruncated d'.

Lemma rowStep_truncate d d' : sameIdentity d d' → rowStep d (truncateDelivery d').
Proof. intros [????]. split; [by split|apply truncateDelivery_truncated]. Qed.

Lemma claimRow_step req now d : rowStep d (claimRow req now d).
Proof. by apply rowStep_truncate. Qed.

Lemma markSentRow_step msg at_ d : rowStep d (markSentRow msg at_ d).
Proof. by apply rowStep_truncate. Qed.

Lemma markTerminalRow_step to at_ d : rowStep d (markTerminalRow to at_ d).
Proof. by apply rowStep_truncate. Qed.

Lemma requeueRow_step at_ d : rowStep d (requeueRow at_ d).
Proof. by apply rowStep_truncate. Qed.

Lemma releaseRow_step now d : rowStep d (releaseRow now d).
Proof. apply rowStep_truncate. by destruct (0 <? d_AttemptCount d). Qed.

Lemma transitionRow_step to now d : rowStep d (transitionRow to now d).
Proof. apply rowStep_truncate. by destruct (Terminal to). Qed.

Lemma completeRow_step now res d : rowStep d (completeRow now res d).
Proof.
  apply rowStep_truncate. unfold IsZero.
  destruct (strEq _ _), (dr_IncrementAttempt res), (dr_NextAttemptAt res =? 0), (Terminal _),
    (bool_decide _); simpl; try done; by destruct (d_SentAt d =? 0).
Qed.

(** The fields the state machine reads after a completed attempt. *)
Lemma completeRow_Status now res d : d_Status (completeRow now res d) = dr_NewStatus res.
Proof.
  unfold completeRow, truncateDelivery. simpl.
  repeat case_match; reflexivity.
Qed.

Lemma completeRow_LeaseOwner now res d : d_LeaseOwner (completeRow now res d) = "".
Proof. unfold completeRow, truncateDelivery. simpl. repeat case_match; reflexivity. Qed.

Lemma completeRow_AttemptCount now res d :
  d_AttemptCount (completeRow now res d) =
    if dr_IncrementAttempt res then int64 (d_AttemptCount d + 1) else d_AttemptCount d.
Proof. unfold completeRow, truncateDelivery. simpl. repeat case_match; reflexivity. Qed.

(** ** Maps of rows evolving *)

(** The same rows, each unchanged or related by [P]. *)
Definition evolves (P : Delivery → Delivery → Prop) (m m' : gmap string Delivery) : Prop :=
  ∀ id, match m !! id, m' !! id with
        | Some d, Some d' => d' = d ∨ P d d'
        | None, None => True
        | _, _ => False
        end.

Lemma evolves_refl P m : evolves P m m.
Proof. intros id. destruct (m !! id); auto. Qed.

Lemma evolves_insert (P : Delivery → Delivery → Prop) m id d d' :
  m !! id = Some d → P d d' → evolves P m (<[id := d']> m).
Proof.
  intros Hd HP id'. destruct (decide (id = id')) as [<-|Hne].
  - rewrite lookup_insert_eq, Hd. auto.
  - rewrite lookup_insert_ne by done. destruct (m !! id'); auto.
Qed.

Lemma evolves_alterAll (P : Delivery → Delivery → Prop) f ids m :
  NoDup ids → (∀ id d, id ∈ ids → m !! id = Some d → P d (f d)) → evolves P m (alterAll f ids m).
Proof.
  intros Hnd HP id. rewrite alterAll_lookup by done. case_decide as Hin.
  - destruct (m !! id) as [d|] eqn:Hd; simpl; eauto.
  - destruct (m !! id); auto.
Qed.

Lemma evolves_weaken (P Q : Delivery → Delivery → Prop) m m' :
  (∀ d d', P d d' → Q d d') → evolves P m m' → evolves Q m m'.
Proof. intros HPQ Hev id. specialize (Hev id). repeat case_match; naive_solver. Qed.

Lemma evolves_lookup (P : Delivery → Delivery → Prop) m m' id d' :
  evolves P m m' → m' !! id = Some d' → ∃ d, m !! id = Some d ∧ (d' = d ∨ P d d').
Proof. intros Hev Hd'. specialize (Hev id). rewrite Hd' in Hev. case_match; naive_solver. Qed.

Lemma evolves_lookup_inv (P : Delivery → Delivery → Prop) m m' id d :
  evolves P m m' → m !! id = Some d → ∃ d', m' !! id = Some d' ∧ (d' = d ∨ P d d').
Proof. intros Hev Hd. specialize (Hev id). rewrite Hd in Hev. case_match; naive_solver. Qed.

(** ** Well-formedness *)

(** Rows are filed under their ID, carry the tenant they are stored for and a
    normalized address, store whole milliseconds, and the unique index holds
    exactly the campaign rows: [campaignEmails] maps the key of every campaign
    delivery to it and nothing else. *)
Record queueOk (tenant : string) (td : tenantData) : Prop := {
  qo_id id d : deliveries td !! id = Some d → d_ID d = id;
  qo_tenant id d : deliveries td !! id = Some d → d_TenantID d = tenant;
  qo_email id d : deliveries td !! id = Some d → d_EmailNorm d ≠ "";
  qo_times id d : deliveries td !! id = Some d → rowTruncated d;
  qo_index id d : deliveries td !! id = Some d → d_CampaignID d ≠ "" →
    campaignEmails td !! emailKey (d_CampaignID d) (d_EmailNorm d) = Some id;
  qo_sound k id : campaignEmails td !! k = Some id →
    ∃ d, deliveries td !! id = Some d ∧ d_CampaignID d ≠ "" ∧
         emailKey (d_CampaignID d) (d_EmailNorm d) = k;
}.

Lemma queueOk_new tenant : queueOk tenant newTenantData.
Proof. split; intros *; simpl; rewrite lookup_empty; done. Qed.

Lemma queueOk_evolves tenant td td' :
  queueOk tenant td → evolves rowStep (deliveries td) (deliveries td') →
  campaignEmails td' = campaignEmails td → queueOk tenant td'.
Proof.
  intros [Hid Hten Hem Htm Hix Hso] Hev Hce.
  assert (Hback : ∀ id d', deliveries td' !! id = Some d' →
    ∃ d, deliveries td !! id = Some d ∧ sameIdentity d d' ∧ rowTruncated d').
  { intros id d' Hd'. destruct (evolves_lookup _ _ _ _ _ Hev Hd') as (d&Hd&[->|[Hs Ht]]); eauto 6.
    exists d. split; [done|]. split; [by split|]. eauto. }
  split; rewrite ?Hce.
  - intros id d' (d&Hd&[-> _ _ _]&_)%Hback. eauto.
  - intros id d' (d&Hd&[_ -> _ _]&_)%Hback. eauto.
  - intros id d' (d&Hd&[_ _ _ ->]&_)%Hback. eauto.
  - intros id d' (d&Hd&_&?)%Hback. done.
  - intros id d' (d&Hd&[_ _ -> ->]&_)%Hback. eauto.
  - intros k id (d&Hd&Hc&Hk)%Hso.
    destruct (evolves_lookup_inv _ _ _ _ _ Hev Hd) as (d'&Hd'&[->|[[_ _ Hc' He'] _]]);
      [by eauto|]. exists d'. by rewrite Hc', He'.
Qed.

(** The batch's rows get IDs that are not in use and not repeated: callers
    either leave the ID empty (a fresh UUIDv7 is minted) or mint it themselves. *)
Fixpoint freshFrom (env : Env) (i : nat) (ds : list Delivery) (used : gset string) : Prop :=
  match ds with
  | [] => True
  | d :: ds' =>
      let id := d_ID (deliveryID env i d) in
      (id ∉ used) ∧ freshFrom env (S i) ds' ({[id]} ∪ used)
  end.

Lemma freshFrom_weaken env i ds (u1 u2 : gset string) :
  u1 ⊆ u2 → freshFrom env i ds u2 → freshFrom env i ds u1.
Proof.
  revert i u1 u2. induction ds as [|d ds IH]; intros i u1 u2 Hu; simpl; [done|].
  intros [Hn Hf]. split; [set_solver|]. eapply IH; [|done]. set_solver.
Qed.

Lemma stampDelivery_step env d :
  sameIdentity (d <| d_TenantID := e_tenant env |>) (stampDelivery env d) ∧
  rowTruncated (stampDelivery env d).
Proof.
  apply (rowStep_truncate (d <| d_TenantID := e_tenant env |>)).
  by destruct (IsZero (d_CreatedAt _)), (IsZero (d_NextAttemptAt _)).
Qed.

Lemma deliveryID_fields env i d :
  d_CampaignID (deliveryID env i d) = d_CampaignID d ∧ d_EmailNorm (deliveryID env i d) = d_EmailNorm d ∧
  d_Status (deliveryID env i d) = d_Status d ∧ d_LeaseOwner (deliveryID env i d) = d_LeaseOwner d.
Proof. unfold deliveryID. by destruct (strEq _ _). Qed.

(** The row [insertOne] stores. *)
Definition insertedRow (env : Env) (i : nat) (d : Delivery) : Delivery :=
  stampDelivery env (deliveryID env i d).

Lemma insertedRow_fields env i d :
  d_ID (insertedRow env i d) = d_ID (deliveryID env i d) ∧
  d_TenantID (insertedRow env i d) = e_tenant env ∧
  d_CampaignID (insertedRow env i d) = d_CampaignID d ∧
  d_EmailNorm (insertedRow env i d) = d_EmailNorm d ∧
  rowTruncated (insertedRow env i d).
Proof.
  destruct (stampDelivery_step env (deliveryID env i d)) as [[H1 H2 H3 H4] H5].
  destruct (deliveryID_fields env i d) as (Hc&He&_). unfold insertedRow.
  rewrite H1, H2, H3, H4. simpl. by rewrite Hc, He.
Qed.

(** Skipped as a duplicate. *)
Definition isDuplicate (d : Delivery) (td : tenantData) : bool :=
  negb (strEq (d_CampaignID d) "") &&
  bool_decide (is_Some (campaignEmails td !! emailKey (d_CampaignID d) (d_EmailNorm d))).

Lemma insertOne_skip env i d n td : isDuplicate d td = true → insertOne env i d (n, td) = (n, td).
Proof. unfold isDuplicate, insertOne. by intros ->. Qed.

Lemma insertOne_new env i d n td :
  isDuplicate d td = false →
  let r := insertedRow env i d in
  ∃ td', insertOne env i d (n, td) = (n + 1, td') ∧
    deliveries td' = <[d_ID r := r]> (deliveries td) ∧
    campaignEmails td' =
      (if strEq (d_CampaignID d) "" then campaignEmails td
       else <[emailKey (d_CampaignID d) (d_EmailNorm d) := d_ID r]> (campaignEmails td)) ∧
    attempts td' = attempts td.
Proof.
  intros Hdup r. unfold isDuplicate in Hdup. unfold insertOne. rewrite Hdup.
  destruct (insertedRow_fields env i d) as (Hid&_). fold r in Hid.
  destruct (deliveryID_fields env i d) as (Hc&_). rewrite Hc.
  fold (insertedRow env i d). fold r.
  eexists. split; [reflexivity|]. destruct (strEq (d_CampaignID d) "");
    cbn -[insertedRow]; by rewrite ?Hid.
Qed.

Lemma insertOne_ok env i d n td :
  queueOk (e_tenant env) td → d_EmailNorm d ≠ "" →
  d_ID (deliveryID env i d) ∉ dom (deliveries td) →
  queueOk (e_tenant env) (insertOne env i d (n, td)).2.
Proof.
  intros Hok Hem Hfr. destruct (isDuplicate d td) eqn:Hdup; [by rewrite insertOne_skip|].
  destruct (insertOne_new env i d n td Hdup) as (td'&->&Hde&Hce&_).
  destruct (insertedRow_fields env i d) as (Hid&Hten&Hc&He&Htr).
  set (r := insertedRow env i d) in *. rewrite <- Hid in Hfr. apply not_elem_of_dom in Hfr.
  unfold isDuplicate in Hdup. destruct Hok as [Oid Oten Oem Otm Oix Oso].
  unfold strEq in *. simpl. split; rewrite ?Hde, ?Hce.
  - intros id x [[<- <-]|[_ ?]]%lookup_insert_Some; eauto.
  - intros id x [[<- <-]|[_ ?]]%lookup_insert_Some; eauto.
  - intros id x [[<- <-]|[_ ?]]%lookup_insert_Some; [congruence|eauto].
  - intros id x [[<- <-]|[_ ?]]%lookup_insert_Some; eauto.
  - intros id x [[<- <-]|[Hne Hx]]%lookup_insert_Some Hcx.
    + rewrite Hc in *. rewrite bool_decide_eq_false_2 by done. by rewrite He, lookup_insert_eq.
    + pose proof (Oix _ _ Hx Hcx) as Hix. case_bool_decide as Hcd; [done|].
      rewrite lookup_insert_ne; [done|]. intros Heq. rewrite <- Heq in Hix.
      simpl in Hdup. case_bool_decide as Hs; [done|]. apply Hs. by eexists.
  - intros k id Hk. case_bool_decide as Hcd; simpl in Hk.
    + apply Oso in Hk as (x&Hx&?). exists x. rewrite lookup_insert_ne; [done|]. congruence.
    + apply lookup_insert_Some in Hk as [[<- <-]|[_ Hk]].
      * exists r. by rewrite lookup_insert_eq, Hc, He.
      * apply Oso in Hk as (x&Hx&?). exists x. rewrite lookup_insert_ne; [done|]. congruence.
Qed.

Lemma insertOne_dom env i d n td :
  dom (deliveries (insertOne env i d (n, td)).2) ⊆ {[d_ID (deliveryID env i d)]} ∪ dom (deliveries td).
Proof.
  destruct (isDuplicate d td) eqn:Hdup; [rewrite insertOne_skip by done; set_solver|].
  destruct (insertOne_new env i d n td Hdup) as (td'&->&Hde&_).
  destruct (insertedRow_fields env i d) as (Hid&_). simpl. rewrite Hde, dom_insert_L, Hid. done.
Qed.

Lemma insertLoop_ok env i ds n td :
  queueOk (e_tenant env) td → Forall (λ d, d_EmailNorm d ≠ "") ds →
  freshFrom env i ds (dom (deliveries td)) →
  queueOk (e_tenant env) (insertLoop env i ds (n, td)).2.
Proof.
  revert i n td. induction ds as [|d ds IH]; intros i n td Hok Hem Hfr; [done|].
  inversion Hem; subst. destruct Hfr as [Hn Hfr]. cbn [insertLoop].
  pose proof (insertOne_ok env i d n td Hok ltac:(done) Hn) as Hok'.
  pose proof (insertOne_dom env i d n td) as Hdom.
  destruct (insertOne env i d (n, td)) as [n' td']. apply IH; [done..|].
  by eapply freshFrom_weaken.
Qed.

Lemma existsb_email_false ds :
  existsb (λ d, strEq (d_EmailNorm d) "") ds = false → Forall (λ d, d_EmailNorm d ≠ "") ds.
Proof.
  rewrite Forall_forall. intros Hf d Hd He. apply not_true_iff_false in Hf. apply Hf.
  apply existsb_exists. exists d. split; [by apply list_elem_of_In|].
  unfold strEq. by apply bool_decide_eq_true_2.
Qed.

Lemma InsertBatch_ok env ds td r td' :
  queueOk (e_tenant env) td → freshFrom env 0 ds (dom (deliveries td)) →
  InsertBatch env ds td = (r, td') → queueOk (e_tenant env) td'.
Proof.
  intros Hok Hfr. unfold InsertBatch, checked, throw.
  destruct (existsb _ ds) eqn:He; [by intros [= <- <-]|].
  destruct (e_closed env); [by intros [= <- <-]|].
  pose proof (insertLoop_ok env 0 ds 0 td Hok (existsb_email_false _ He) Hfr) as Hl.
  destruct (insertLoop env 0 ds (0, td)). by intros [= <- <-].
Qed.

(** ** Operations as steps *)

Inductive firstColumn := ColOpened | ColClicked | ColUnsubscribed.

(** Every operation of the repository that changes state. *)
Inductive qop :=
  | QInsert (ds : list Delivery)
  | QClaim (req : ClaimRequest)
  | QComplete (results : list DeliveryResult)
  | QMarkSent (id owner messageID : string) (at_ : Time)
  | QMarkBounced (id : string) (at_ : Time)
  | QMarkComplained (id : string) (at_ : Time)
  | QRelease (at_ : Time) (limit : Z)
  | QTransition (campaignID : string) (from : list DeliveryStatus) (to : DeliveryStatus) (limit : Z)
  | QRequeue (f : RetryFilter) (limit : Z)
  | QSetFirst (col : firstColumn) (id : string) (at_ : Time)
  | QDelete (campaignID : string) (before : Time) (limit : Z)
  | QAttempts (l : list DeliveryAttempt).

Definition setFirstOp (col : firstColumn) : Env → string → Time → M tenantData bool :=
  match col with
  | ColOpened => SetFirstOpened
  | ColClicked => SetFirstClicked
  | ColUnsubscribed => SetUnsubscribed
  end.

(** The data after the operation, whatever it returned. *)
Definition runOp (env : Env) (op : qop) (td : tenantData) : tenantData :=
  match op with
  | QInsert ds => (InsertBatch env ds td).2
  | QClaim req => (Claim env req td).2
  | QComplete rs => (Complete env rs td).2
  | QMarkSent id owner msg at_ => (MarkSent env id owner msg at_ td).2
  | QMarkBounced id at_ => (MarkBounced env id at_ td).2
  | QMarkComplained id at_ => (MarkComplained env id at_ td).2
  | QRelease at_ limit => (ReleaseExpiredLeases env at_ limit td).2
  | QTransition c from to limit => (BulkTransition env c from to limit td).2
  | QRequeue f limit => (Requeue env f limit td).2
  | QSetFirst col id at_ => (setFirstOp col env id at_ td).2
  | QDelete c before limit => (DeleteDeliveriesBefore env c before limit td).2
  | QAttempts l => (InsertAttempts env l td).2
  end.

(** ** What an operation does to one row *)

(** [rowChange op d d']: [op] may turn the row [d] into [d'].  The
    constructors state, per operation, the condition under which a row is
    touched and what the state machine sees of the new row. *)
Inductive rowChange : qop → Delivery → Delivery → Prop :=
  | rc_claim req d :
      claimable req (TruncateTime (cr_Now req)) d = true →
      rowChange (QClaim req) d (claimRow req (TruncateTime (cr_Now req)) d)
  | rc_complete rs res now d :
      res ∈ rs → dr_DeliveryID res = d_ID d →
      dr_LeaseOwner res ≠ "" → d_LeaseOwner d = dr_LeaseOwner res →
      rowChange (QComplete rs) d (completeRow now res d)
  | rc_sent owner msg at_ d :
      d_Status d = DeliveryLeased → owner ≠ "" → d_LeaseOwner d = owner →
      rowChange (QMarkSent (d_ID d) owner msg at_) d (markSentRow msg at_ d)
  | rc_bounced at_ d :
      d_Status d = DeliverySent →
      rowChange (QMarkBounced (d_ID d) at_) d (markTerminalRow DeliveryBounced at_ d)
  | rc_complained at_ d :
      d_Status d = DeliverySent →
      rowChange (QMarkComplained (d_ID d) at_) d (markTerminalRow DeliveryComplained at_ d)
  | rc_release at_ limit d :
      d_Status d = DeliveryLeased → d_LeaseUntil d ≠ 0 → d_LeaseUntil d < TruncateTime at_ →
      rowChange (QRelease at_ limit) d (releaseRow (TruncateTime at_) d)
  | rc_transition c from to limit now d :
      d_CampaignID d = c → matchStatus from (d_Status d) = true → d_Status d ≠ to →
      rowChange (QTransition c from to limit) d (transitionRow to now d)
  | rc_requeue f limit d :
      requeueMatch f (d_ID d) d = true →
      rowChange (QRequeue f limit) d (requeueRow (TruncateTime (rf_Now f)) d)
  | rc_first col at_ d d' :
      d_Status d' = d_Status d → d_LeaseOwner d' = d_LeaseOwner d →
      d_LeaseUntil d' = TruncateTime (d_LeaseUntil d) → d_AttemptCount d' = d_AttemptCount d →
      d_RetryGen d' = d_RetryGen d → rowStep d d' →
      rowChange (QSetFirst col (d_ID d) at_) d d'.

Lemma rowChange_rowStep op d d' : rowChange op d d' → rowStep d d'.
Proof.
  destruct 1; [apply claimRow_step|apply completeRow_step|apply markSentRow_step
    |apply markTerminalRow_step|apply markTerminalRow_step|apply releaseRow_step
    |apply transitionRow_step|apply requeueRow_step|done].
Qed.

(** Operations that neither insert nor delete. *)
Definition inPlace (op : qop) : bool :=
  match op with QInsert _ | QDelete _ _ _ => false | _ => true end.

(** Completing a batch: every row is unchanged, or changed by exactly one of
    the results, the first whose owner held its lease when the batch began. *)
Lemma completeLoop_rows env i rs (P : Delivery → Delivery → Prop) td0 td1 :
  evolves (λ d d', d_LeaseOwner d' = "" ∧ P d d') (deliveries td0) (deliveries td1) →
  (∀ res d, res ∈ rs → deliveries td0 !! dr_DeliveryID res = Some d →
     dr_LeaseOwner res ≠ "" → d_LeaseOwner d = dr_LeaseOwner res → P d (completeRow (now env) res d)) →
  evolves (λ d d', d_LeaseOwner d' = "" ∧ P d d') (deliveries td0)
    (deliveries (completeLoop env i rs td1)).
Proof.
  revert i td1. induction rs as [|res rs IH]; intros i td1 Hev HP; [done|].
  assert (HP' : ∀ res' d, res' ∈ rs → deliveries td0 !! dr_DeliveryID res' = Some d →
     dr_LeaseOwner res' ≠ "" → d_LeaseOwner d = dr_LeaseOwner res' →
     P d (completeRow (now env) res' d)).
  { intros res' d Hr. apply HP. apply elem_of_cons. by right. }
  cbn [completeLoop]. unfold completeOne.
  destruct (deliveries td1 !! dr_DeliveryID res) as [d1|] eqn:Hd1; [|by apply IH].
  destruct (ownsLease res d1) eqn:Ho; cbn [negb]; [|by apply IH].
  unfold ownsLease in Ho. to_prop.
  destruct (evolves_lookup _ _ _ _ _ Hev Hd1) as (d0&Hd0&[->|[Hlo _]]); [|congruence].
  assert (Hev' : evolves (λ d d', d_LeaseOwner d' = "" ∧ P d d') (deliveries td0)
            (<[dr_DeliveryID res := completeRow (now env) res d0]> (deliveries td1))).
  { intros id. destruct (decide (id = dr_DeliveryID res)) as [->|Hne].
    - rewrite lookup_insert_eq, Hd0. right. split; [apply completeRow_LeaseOwner|].
      apply HP; [apply elem_of_cons; by left|done..].
    - rewrite lookup_insert_ne by done. apply Hev. }
  destruct (dr_Attempt res); by apply IH.
Qed.

Lemma completeLoop_index env i rs td : campaignEmails (completeLoop env i rs td) = campaignEmails td.
Proof.
  revert i td. induction rs as [|res rs IH]; intros i td; [done|]. cbn [completeLoop]. rewrite IH.
  unfold completeOne. destruct (deliveries td !! _); [|done]. destruct (negb _); [done|].
  by destruct (dr_Attempt res).
Qed.

Lemma insertAttempts_frame env i l td :
  deliveries (insertAttempts env i l td) = deliveries td ∧
  campaignEmails (insertAttempts env i l td) = campaignEmails td.
Proof. revert i td. induction l as [|a l IH]; intros i td; [done|]. simpl. by rewrite !(proj1 (IH _ _)), !(proj2 (IH _ _)). Qed.

Lemma select_evolves (P : Delivery → Delivery → Prop) (sel : string → Delivery → bool) f limit m :
  (∀ id d, m !! id = Some d → sel id d = true → P d (f d)) →
  evolves P m (alterAll f (capTo limit (selectIDs sel m)) m).
Proof.
  intros HP. apply evolves_alterAll; [by apply NoDup_capTo, NoDup_selectIDs|].
  intros id d Hin Hd. apply elem_of_capTo, elem_of_selectIDs in Hin as (d'&Hd'&Hs).
  rewrite Hd in Hd'. simplify_eq. eauto.
Qed.

Lemma NoDup_claimCandidates req now m : NoDup (claimCandidates req now m).*1.
Proof.
  unfold claimCandidates.
  destruct (capTo_prefix (cr_Limit req) (merge_sort claimLe
    (filter (λ kv, claimable req now kv.2 = true) (map_to_list m)))) as [r Hr].
  assert (Hnd : NoDup (merge_sort claimLe
    (filter (λ kv, claimable req now kv.2 = true) (map_to_list m))).*1).
  { rewrite merge_sort_Permutation. eapply sublist_NoDup; [apply (NoDup_fst_map_to_list m)|].
    apply fmap_sublist, sublist_filter. }
  rewrite Hr, fmap_app in Hnd. by apply list.NoDup_app in Hnd as [? _].
Qed.

Lemma elem_of_claimCandidates req now m kv :
  kv ∈ claimCandidates req now m → m !! kv.1 = Some kv.2 ∧ claimable req now kv.2 = true.
Proof.
  unfold claimCandidates. intros Hin%elem_of_capTo. rewrite merge_sort_Permutation in Hin.
  apply list_elem_of_filter in Hin as [Hc Hin]. split; [|done].
  destruct kv. by apply elem_of_map_to_list.
Qed.

(** Every operation that neither inserts nor deletes rewrites rows only as
    [rowChange] says, and leaves the unique index alone. *)
Lemma runOp_rows env op td :
  (∀ id d, deliveries td !! id = Some d → d_ID d = id) → inPlace op = true →
  evolves (rowChange op) (deliveries td) (deliveries (runOp env op td)) ∧
  campaignEmails (runOp env op td) = campaignEmails td.
Proof.
  intros Hid Hip. destruct op; try done; cbn [runOp].
  - (* Claim *)
    unfold Claim, checked, throw. destruct (e_closed env); [split; [apply evolves_refl|done]|].
    cbn. split; [|done]. apply evolves_alterAll; [apply NoDup_claimCandidates|].
    intros id d Hin Hd. apply list_elem_of_fmap in Hin as (kv&->&Hin).
    apply elem_of_claimCandidates in Hin as [Hkv Hc]. simplify_eq. by constructor.
  - (* Complete *)
    unfold Complete, checked, throw. destruct (e_closed env); [split; [apply evolves_refl|done]|].
    cbn. split; [|apply completeLoop_index].
    eapply evolves_weaken; [|apply (completeLoop_rows env 0 results (rowChange (QComplete results)) td td)].
    + by intros d d' [_ ?].
    + apply evolves_refl.
    + intros res d Hin Hd Hne Ho. apply rc_complete; [done| |done..]. symmetry. eauto.
  - (* MarkSent *)
    unfold MarkSent, checked, throw. destruct (e_closed env); [split; [apply evolves_refl|done]|].
    destruct (deliveries td !! id) as [d|] eqn:Hd; [|split; [apply evolves_refl|done]].
    destruct (_ || _) eqn:Hg; [split; [apply evolves_refl|done]|]. cbn. split; [|done].
    to_prop. eapply evolves_insert; [done|]. rewrite <- (Hid _ _ Hd). by apply rc_sent.
  - (* MarkBounced *)
    unfold MarkBounced, markTerminal, checked, throw.
    destruct (e_closed env); [split; [apply evolves_refl|done]|].
    destruct (deliveries td !! id) as [d|] eqn:Hd; [|split; [apply evolves_refl|done]].
    case_bool_decide; (split; [|done]); [|apply evolves_refl]. cbn.
    eapply evolves_insert; [done|]. rewrite <- (Hid _ _ Hd). by constructor.
  - (* MarkComplained *)
    unfold MarkComplained, markTerminal, checked, throw.
    destruct (e_closed env); [split; [apply evolves_refl|done]|].
    destruct (deliveries td !! id) as [d|] eqn:Hd; [|split; [apply evolves_refl|done]].
    case_bool_decide; (split; [|done]); [|apply evolves_refl]. cbn.
    eapply evolves_insert; [done|]. rewrite <- (Hid _ _ Hd). by constructor.
  - (* ReleaseExpiredLeases *)
    unfold ReleaseExpiredLeases, checked, throw.
    destruct (e_closed env); [split; [apply evolves_refl|done]|]. cbn. split; [|done].
    apply select_evolves. intros id d _ Hl. unfold leaseExpired in Hl. to_prop. by constructor.
  - (* BulkTransition *)
    unfold BulkTransition, checked, throw.
    destruct (e_closed env); [split; [apply evolves_refl|done]|]. cbn. split; [|done].
    apply select_evolves. intros id d _ Hl. unfold transitionMatch in Hl. to_prop. by constructor.
  - (* Requeue *)
    unfold Requeue, checked, throw.
    destruct (e_closed env); [split; [apply evolves_refl|done]|]. cbn. split; [|done].
    apply select_evolves. intros id d Hd Hl. constructor. by rewrite (Hid _ _ Hd).
  - (* SetFirst* *)
    assert (∃ fld, setFirstOp col env id at_ = setFirst env id at_ fld ∧
      ∀ d, d_Status (lset fld at_ d) = d_Status d ∧ d_LeaseOwner (lset fld at_ d) = d_LeaseOwner d ∧
        d_LeaseUntil (lset fld at_ d) = d_LeaseUntil d ∧
        d_AttemptCount (lset fld at_ d) = d_AttemptCount d ∧ d_RetryGen (lset fld at_ d) = d_RetryGen d ∧
        sameIdentity d (lset fld at_ d)) as (fld&->&Hf).
    { destruct col; eexists; (split; [reflexivity|]); done. }
    unfold setFirst, checked, throw.
    destruct (e_closed env); [split; [apply evolves_refl|done]|].
    destruct (deliveries td !! id) as [d|] eqn:Hd; [|split; [apply evolves_refl|done]].
    destruct (negb _); (split; [|done]); [apply evolves_refl|]. cbn -[truncateDelivery].
    destruct (Hf d) as (H1&H2&H3&H4&H5&[]).
    eapply evolves_insert; [done|]. rewrite <- (Hid _ _ Hd).
    apply rc_first; [done|done|by cbn; rewrite H3|done|done|]. apply rowStep_truncate. by split.
  - (* InsertAttempts *)
    unfold InsertAttempts, checked, throw.
    destruct (e_closed env); [split; [apply evolves_refl|done]|]. cbn.
    destruct (insertAttempts_frame env 0 l td) as [-> ->]. split; [apply evolves_refl|done].
Qed.

(** ** Insertion and deletion of rows *)

Lemma insertOne_lookup env i d n td id x :
  d_ID (deliveryID env i d) ∉ dom (deliveries td) →
  deliveries (insertOne env i d (n, td)).2 !! id = Some x →
  deliveries td !! id = Some x ∨
  (deliveries td !! id = None ∧ x = insertedRow env i d).
Proof.
  intros Hfr. destruct (isDuplicate d td) eqn:Hdup; [rewrite insertOne_skip by done; auto|].
  destruct (insertOne_new env i d n td Hdup) as (td'&->&Hde&_). simpl. rewrite Hde.
  destruct (insertedRow_fields env i d) as (Hid&_).
  intros [[<- <-]|[_ ?]]%lookup_insert_Some; [right|by left].
  split; [|done]. apply not_elem_of_dom. by rewrite Hid.
Qed.

Lemma insertOne_keeps env i d n td id x :
  d_ID (deliveryID env i d) ∉ dom (deliveries td) → deliveries td !! id = Some x →
  deliveries (insertOne env i d (n, td)).2 !! id = Some x.
Proof.
  intros Hfr Hx. destruct (isDuplicate d td) eqn:Hdup; [by rewrite insertOne_skip|].
  destruct (insertOne_new env i d n td Hdup) as (td'&->&Hde&_). simpl. rewrite Hde.
  destruct (insertedRow_fields env i d) as (Hid&_). rewrite lookup_insert_ne; [done|].
  intros <-. apply Hfr. rewrite <- Hid. by apply elem_of_dom_2 in Hx.
Qed.

(** Inserting a batch keeps the existing rows and adds rows of the batch. *)
Lemma insertLoop_lookup env i ds n td id x :
  freshFrom env i ds (dom (deliveries td)) →
  deliveries (insertLoop env i ds (n, td)).2 !! id = Some x →
  deliveries td !! id = Some x ∨
  (deliveries td !! id = None ∧ ∃ j d, d ∈ ds ∧ x = insertedRow env j d).
Proof.
  revert i n td. induction ds as [|d ds IH]; intros i n td Hfr Hx; [by left|].
  destruct Hfr as [Hn Hfr]. cbn [insertLoop] in Hx.
  pose proof (insertOne_dom env i d n td) as Hdom.
  pose proof (insertOne_lookup env i d n td id) as H1.
  pose proof (insertOne_keeps env i d n td id) as H2.
  destruct (insertOne env i d (n, td)) as [n' td'] eqn:E. simpl in *.
  destruct (IH (S i) n' td') as [Ht|(Hnone&j&d'&Hd'&->)]; [by eapply freshFrom_weaken|done| |].
  - destruct (H1 x Hn Ht) as [?|[? ->]]; [by left|right].
    split; [done|]. exists i, d. split; [apply elem_of_cons; by left|done].
  - right. split.
    + destruct (deliveries td !! id) as [y|] eqn:Hy; [|done].
      rewrite (H2 y Hn eq_refl) in Hnone. done.
    + exists j, d'. split; [apply elem_of_cons; by right|done].
Qed.

Lemma insertLoop_keeps env i ds n td id x :
  freshFrom env i ds (dom (deliveries td)) → deliveries td !! id = Some x →
  deliveries (insertLoop env i ds (n, td)).2 !! id = Some x.
Proof.
  revert i n td. induction ds as [|d ds IH]; intros i n td Hfr Hx; [done|].
  destruct Hfr as [Hn Hfr]. cbn [insertLoop].
  pose proof (insertOne_dom env i d n td) as Hdom.
  pose proof (insertOne_keeps env i d n td id x Hn Hx) as H2.
  destruct (insertOne env i d (n, td)) as [n' td'] eqn:E. simpl in *.
  apply IH; [by eapply freshFrom_weaken|done].
Qed.

Lemma InsertBatch_lookup env ds td id x :
  freshFrom env 0 ds (dom (deliveries td)) →
  deliveries (InsertBatch env ds td).2 !! id = Some x →
  deliveries td !! id = Some x ∨
  (deliveries td !! id = None ∧ ∃ j d, d ∈ ds ∧ x = insertedRow env j d).
Proof.
  intros Hfr. unfold InsertBatch, checked, throw.
  destruct (existsb _ ds); [by left|]. destruct (e_closed env); [by left|].
  pose proof (insertLoop_lookup env 0 ds 0 td id x Hfr).
  by destruct (insertLoop env 0 ds (0, td)).
Qed.

Lemma dropDelivery_lookup td id id' :
  deliveries (dropDelivery td id) !! id' = if decide (id' = id) then None else deliveries td !! id'.
Proof.
  unfold dropDelivery. destruct (deliveries td !! id) as [d|] eqn:Hd.
  - destruct (negb _); cbn; rewrite lookup_delete; repeat case_decide; congruence.
  - case_decide; congruence.
Qed.

Lemma dropDelivery_ok tenant td id : queueOk tenant td → queueOk tenant (dropDelivery td id).
Proof.
  intros Hok. pose proof (dropDelivery_lookup td id) as Hlk.
  assert (Hback : ∀ id' d, deliveries (dropDelivery td id) !! id' = Some d →
    id' ≠ id ∧ deliveries td !! id' = Some d).
  { intros id' d. rewrite Hlk. by case_decide. }
  assert (Hce : ∀ k id', campaignEmails (dropDelivery td id) !! k = Some id' ↔
    id' ≠ id ∧ campaignEmails td !! k = Some id').
  { intros k id'. unfold dropDelivery. destruct (deliveries td !! id) as [d|] eqn:Hd.
    - unfold strEq. case_bool_decide as Hc; cbn.
      + split; [|tauto]. intros Hk. split; [|done]. intros ->.
        apply (qo_sound _ _ Hok) in Hk as (x&?&?&?). congruence.
      + rewrite lookup_delete_Some. split; intros [Hne Hk]; (split; [|done]).
        * intros ->. apply Hne. apply (qo_sound _ _ Hok) in Hk as (x&?&?&?). congruence.
        * intros <-. apply Hne. pose proof (qo_index _ _ Hok _ _ Hd Hc). congruence.
    - split; [|tauto]. intros Hk. split; [|done]. intros ->.
      apply (qo_sound _ _ Hok) in Hk as (x&?&?&?). congruence. }
  split.
  - intros id' d [_ Hd]%Hback. by eapply qo_id.
  - intros id' d [_ Hd]%Hback. by eapply qo_tenant.
  - intros id' d [_ Hd]%Hback. by eapply qo_email.
  - intros id' d [_ Hd]%Hback. by eapply qo_times.
  - intros id' d [Hne Hd]%Hback Hc. apply Hce. split; [done|]. by eapply qo_index.
  - intros k id' [Hne Hk]%Hce. apply (qo_sound _ _ Hok) in Hk as (d&Hd&?&?).
    exists d. rewrite Hlk. by rewrite decide_False by done.
Qed.

Lemma foldl_dropDelivery_ok tenant ids td :
  queueOk tenant td → queueOk tenant (foldl dropDelivery td ids).
Proof. revert td. induction ids as [|id ids IH]; intros td Hok; [done|]. by apply IH, dropDelivery_ok. Qed.

Lemma foldl_dropDelivery_lookup ids td id :
  deliveries (foldl dropDelivery td ids) !! id =
    if decide (id ∈ ids) then None else deliveries td !! id.
Proof.
  revert td. induction ids as [|i ids IH]; intros td; cbn [foldl].
  - by rewrite decide_False by apply not_elem_of_nil.
  - rewrite IH, dropDelivery_lookup. destruct (decide (id = i)) as [->|Hne].
    + rewrite (decide_True (P := i ∈ i :: ids)) by (apply elem_of_cons; by left). by case_decide.
    + assert (id ∈ i :: ids ↔ id ∈ ids) as Hiff by (rewrite elem_of_cons; naive_solver).
      repeat case_decide; try done; by apply Hiff in H || (exfalso; tauto).
Qed.

(** ** Lawful use

    What the arguments of the program's own calls guarantee: ingest and the API
    insert pending or queued rows with fresh IDs; a sender claims under a
    non-empty worker ID and commits only outcomes of the send path;
    cancellation moves pending, queued and deferred rows only.  Nothing is
    said of when a result comes: it may be of a lease that ran out, and of a
    row its worker has marked sent since. *)

Definition sendOutcomes : list DeliveryStatus :=
  [DeliverySent; DeliveryFailed; DeliveryDeferred; DeliveryQueued; DeliverySuppressed].

Definition cancellable : list DeliveryStatus := [DeliveryPending; DeliveryQueued; DeliveryDeferred].

Definition lawful (env : Env) (op : qop) (td : tenantData) : Prop :=
  match op with
  | QInsert ds =>
      freshFrom env 0 ds (dom (deliveries td)) ∧
      Forall (λ d, d_Status d ∈ [DeliveryPending; DeliveryQueued] ∧ d_LeaseOwner d = "") ds
  | QClaim req => cr_WorkerID req ≠ ""
  | QComplete rs =>
      Forall (λ res, dr_NewStatus res ∈ sendOutcomes) rs
  | QTransition c from to limit => from = cancellable ∧ to = DeliveryCancelled
  | _ => True
  end.

(** A lease has an owner exactly while the row is leased, or sent and not yet
    completed. *)
Record leaseOk (d : Delivery) : Prop := {
  lo_owner : d_LeaseOwner d ≠ "" → d_Status d = DeliveryLeased ∨ d_Status d = DeliverySent;
  lo_leased : d_Status d = DeliveryLeased → d_LeaseOwner d ≠ "";
}.

Definition queueInv (tenant : string) (td : tenantData) : Prop :=
  queueOk tenant td ∧ ∀ id d, deliveries td !! id = Some d → leaseOk d.

(** The delivery state machine of the design (architecture 4.1). *)
Inductive edge : DeliveryStatus → DeliveryStatus → Prop :=
  | edge_claim s : s ∈ cancellable → edge s DeliveryLeased
  | edge_finish s : s ∈ sendOutcomes → edge DeliveryLeased s
  | edge_bounce : edge DeliverySent DeliveryBounced
  | edge_complain : edge DeliverySent DeliveryComplained
  | edge_cancel s : s ∈ cancellable → edge s DeliveryCancelled.

(** What the state machine sees of a lawful change of a row: an edge, a manual
    retry, or, off the design's machine, a result other than sent for a row
    that its owner has marked sent and not yet completed. *)
Inductive statusChange (op : qop) (d d' : Delivery) : Prop :=
  | sc_same : d_Status d' = d_Status d → statusChange op d d'
  | sc_edge : edge (d_Status d) (d_Status d') → statusChange op d d'
  | sc_retry f limit :
      op = QRequeue f limit → d_Status d' = DeliveryQueued →
      d_RetryGen d' = int64 (d_RetryGen d + 1) → d_AttemptCount d' = d_AttemptCount d →
      statusChange op d d'
  | sc_stale rs res :
      op = QComplete rs → res ∈ rs → dr_DeliveryID res = d_ID d → dr_LeaseOwner res = d_LeaseOwner d →
      d_LeaseOwner d ≠ "" → d_Status d = DeliverySent → d_Status d' = dr_NewStatus res → dr_NewStatus res ≠ DeliverySent →
      statusChange op d d'.

Lemma claimable_cancellable req now d : claimable req now d = true → d_Status d ∈ cancellable.
Proof.
  unfold claimable, claimableStatus, cancellable. destruct (d_Status d); intros H;
    try (apply elem_of_cons; by left); try (rewrite !elem_of_cons; by auto);
    by destruct (bool_decide _).
Qed.

Lemma matchStatus_cancellable s : matchStatus cancellable s = true → s ∈ cancellable.
Proof. unfold matchStatus, contains. simpl. by intros ?%bool_decide_eq_true_1. Qed.

Lemma cancellable_unleased d : leaseOk d → d_Status d ∈ cancellable → d_LeaseOwner d = "".
Proof.
  intros [Ho _] Hc. destruct (decide (d_LeaseOwner d = "")) as [|Hne]; [done|].
  destruct (Ho Hne) as [Hs|Hs]; rewrite Hs in Hc; by apply (bool_decide_eq_true_2 _) in Hc.
Qed.

Lemma rowChange_lawful env op td id d d' :
  lawful env op td → deliveries td !! id = Some d → d_ID d = id → leaseOk d → rowChange op d d' →
  leaseOk d' ∧ statusChange op d d'.
Proof.
  intros Hlaw Hd Hid Hl Hch. destruct Hch as
    [req d Hc|rs res now d Hin Hrid Hne Ho|owner msg at_ d Hs Hne Ho|at_ d Hs|at_ d Hs
    |at_ limit d Hs Hlu Hlt|c from to limit now d Hc Hm Hs|f limit d Hm|col at_ d d' Hs Ho Hu Ha Hr _].
  - split; [split; [by left|intros _; exact Hlaw]|]. apply sc_edge, edge_claim.
    by eapply claimable_cancellable.
  - cbn in Hlaw. rewrite Forall_forall in Hlaw. pose proof (Hlaw res Hin) as Hout. split; [split; rewrite completeRow_LeaseOwner, ?completeRow_Status|].
    + done.
    + intros He. rewrite He in Hout. by apply (bool_decide_eq_true_2 _) in Hout.
    + destruct (lo_owner _ Hl) as [Hst|Hst]; [congruence|..].
      * apply sc_edge. rewrite completeRow_Status, Hst. by apply edge_finish.
      * destruct (decide (dr_NewStatus res = DeliverySent)) as [He|He]; [apply sc_same; by rewrite completeRow_Status, Hst, He|].
        eapply sc_stale; [done|exact Hin|done|congruence|congruence|done|apply completeRow_Status|done].
  - split; [split; [by right|done]|]. apply sc_edge. rewrite Hs. apply edge_finish.
    apply elem_of_cons; by left.
  - split; [split; done|]. apply sc_edge. rewrite Hs. apply edge_bounce.
  - split; [split; done|]. apply sc_edge. rewrite Hs. apply edge_complain.
  - split; [split; [done|]; cbn; by destruct (0 <? _)|]. apply sc_edge. rewrite Hs.
    apply edge_finish. cbn. by destruct (0 <? _); apply (bool_decide_unpack _).
  - destruct Hlaw as [-> ->]. apply matchStatus_cancellable in Hm.
    pose proof (cancellable_unleased d Hl Hm) as Hu.
    split; [split; [by cbn; rewrite Hu|done]|]. apply sc_edge. by apply edge_cancel.
  - split; [split; done|]. by eapply sc_retry.
  - split; [split; rewrite Hs, Ho; apply Hl|]. by apply sc_same.
Qed.

Lemma runOp_inv env op td :
  queueInv (e_tenant env) td → lawful env op td → queueInv (e_tenant env) (runOp env op td).
Proof.
  intros [Hok Hl] Hlaw. destruct (inPlace op) eqn:Hip.
  - destruct (runOp_rows env op td (qo_id _ _ Hok) Hip) as [Hev Hce]. split.
    + eapply queueOk_evolves; [done| |done]. eapply evolves_weaken; [|exact Hev].
      apply rowChange_rowStep.
    + intros id d' Hd'. destruct (evolves_lookup _ _ _ _ _ Hev Hd') as (d&Hd&[->|Hch]); [eauto|].
      eapply (rowChange_lawful env op td id d); eauto. by eapply qo_id.
  - destruct op as [ds| | | | | | | | | |c before limit|]; try done; cbn [runOp].
    + destruct Hlaw as [Hfr Hst]. split.
      * destruct (InsertBatch env ds td) as [r td'] eqn:E. by eapply InsertBatch_ok.
      * intros id x Hx.
        destruct (InsertBatch_lookup _ _ _ _ _ Hfr Hx) as [?|(_&j&d&Hd&->)]; [eauto|].
        rewrite Forall_forall in Hst. destruct (Hst d Hd) as [Hs Ho].
        destruct (deliveryID_fields env j d) as (_&_&Es&El).
        assert (d_Status (insertedRow env j d) = d_Status d ∧ d_LeaseOwner (insertedRow env j d) = "") as [Hs' Ho'].
        { unfold insertedRow, stampDelivery. rewrite <- Ho, <- Es, <- El.
          by destruct (IsZero (d_CreatedAt _)), (IsZero (d_NextAttemptAt _)). }
        split; [done|]. rewrite Hs'. intros He. rewrite He in Hs.
        by apply (bool_decide_eq_true_2 _) in Hs.
    + unfold DeleteDeliveriesBefore, checked, throw. destruct (e_closed env); [done|]. cbn. split.
      * by apply foldl_dropDelivery_ok.
      * intros id x. rewrite foldl_dropDelivery_lookup. case_decide; [done|]. apply Hl.
Qed.

Inductive reachable (tenant : string) : tenantData → Prop :=
  | reach_new : reachable tenant newTenantData
  | reach_step env op td :
      reachable tenant td → e_tenant env = tenant → lawful env op td →
      reachable tenant (runOp env op td).

Lemma reachable_inv tenant td : reachable tenant td → queueInv tenant td.
Proof.
  induction 1 as [|env op td _ IH <- Hlaw]; [|by apply runOp_inv].
  split; [apply queueOk_new|]. intros id d. simpl. by rewrite lookup_empty.
Qed.
