(* ===== verification/DeliveryProps.v ===== *)
(** * What the delivery queue promises

    The contract of [store.DeliveryRepo], proved of the operations of
    [DeliveryRepo] over every interleaving of lawful operations (see
    [DeliveryQueue]). *)

From S2P Require Import Prelude Enums Model MemTable MemData DeliveryRepo DeliveryQueue.

(** ** One row through one operation *)

(** A row of the state after an operation was there before, unchanged or
    changed as [rowChange] says, or was just inserted. *)
Lemma runOp_row env op td id d' :
  queueInv (e_tenant env) td → lawful env op td →
  deliveries (runOp env op td) !! id = Some d' →
  (∃ d, deliveries td !! id = Some d ∧
        (d' = d ∨ (rowChange op d d' ∧ leaseOk d' ∧ statusChange op d d'))) ∨
  (deliveries td !! id = None ∧
   ∃ ds j d, op = QInsert ds ∧ d ∈ ds ∧ d' = insertedRow env j d).
Proof.
  intros [Hok Hl] Hlaw Hd'. destruct (inPlace op) eqn:Hip.
  - left. destruct (runOp_rows env op td (qo_id _ _ Hok) Hip) as [Hev _].
    destruct (evolves_lookup _ _ _ _ _ Hev Hd') as (d&Hd&[->|Hch]); exists d; [by auto|].
    split; [done|]. right. split; [done|].
    eapply (rowChange_lawful env op td id d); eauto. by eapply qo_id.
  - destruct op as [ds| | | | | | | | | |c before limit|]; try done; cbn [runOp] in *.
    + destruct Hlaw as [Hfr _].
      destruct (InsertBatch_lookup _ _ _ _ _ Hfr Hd') as [?|(?&j&d&?&->)]; [by left; eauto|].
      right. split; [done|]. by exists ds, j, d.
    + left. exists d'. split; [|by left]. revert Hd'.
      unfold DeleteDeliveriesBefore, checked, throw. destruct (e_closed env); [done|].
      cbn. rewrite foldl_dropDelivery_lookup. by case_decide.
Qed.

(** A row can only disappear by retention. *)
Lemma runOp_kept env op td id d :
  queueInv (e_tenant env) td → lawful env op td → deliveries td !! id = Some d →
  (∃ d', deliveries (runOp env op td) !! id = Some d') ∨
  (∃ c before limit, op = QDelete c before limit ∧ d_CampaignID d = c ∧
     d_CreatedAt d < TruncateTime before).
Proof.
  intros [Hok Hl] Hlaw Hd. destruct (inPlace op) eqn:Hip.
  - left. destruct (runOp_rows env op td (qo_id _ _ Hok) Hip) as [Hev _].
    destruct (evolves_lookup_inv _ _ _ _ _ Hev Hd) as (d'&?&_). eauto.
  - destruct op as [ds| | | | | | | | | |c before limit|]; try done; cbn [runOp] in *.
    + left. destruct Hlaw as [Hfr _]. exists d. unfold InsertBatch, checked, throw.
      destruct (existsb _ ds); [done|]. destruct (e_closed env); [done|].
      pose proof (insertLoop_keeps env 0 ds 0 td id d Hfr Hd).
      by destruct (insertLoop env 0 ds (0, td)).
    + unfold DeleteDeliveriesBefore, checked, throw. destruct (e_closed env); [by eauto|]. cbn.
      rewrite foldl_dropDelivery_lookup. case_decide as Hin; [|by eauto]. right.
      apply elem_of_capTo, elem_of_selectIDs in Hin as (x&Hx&Hs). to_prop. simplify_eq.
      exists (d_CampaignID d), before, limit. done.
Qed.

(** What [Claim] returns are eligible rows, now leased by the caller. *)
Lemma Claim_inv env req td l td' :
  Claim env req td = (inr l, td') →
  ∀ x, x ∈ l → ∃ id d, deliveries td !! id = Some d ∧
    claimable req (TruncateTime (cr_Now req)) d = true ∧
    x = claimRow req (TruncateTime (cr_Now req)) d ∧ deliveries td' !! id = Some x.
Proof.
  unfold Claim, checked, throw. destruct (e_closed env); [done|]. intros [= <- <-] x Hx.
  apply list_elem_of_fmap in Hx as ([id d]&->&Hin). pose proof Hin as Hin'.
  apply elem_of_claimCandidates in Hin' as [Hd Hc]. simpl in *.
  exists id, d. split_and!; [done..|].
  rewrite alterAll_in; [by rewrite Hd|apply NoDup_claimCandidates|].
  apply list_elem_of_fmap. by exists (id, d).
Qed.

(** ** The state invariant *)

(** C6 (store/deliveries): in every state the queue can reach, whatever the
    interleaving of inserts, claims, completions, bounces, lease releases,
    cancellations, retries and retention: a campaign has at most one delivery
    per normalized address; every row is filed under its ID and tagged with
    the tenant; a leased row always has an owner, and a row with an owner is
    leased or was just sent; stored times are whole milliseconds. *)
Theorem queue_reachable_invariant tenant td :
  reachable tenant td →
  (∀ id1 id2 d1 d2, deliveries td !! id1 = Some d1 → deliveries td !! id2 = Some d2 →
     d_CampaignID d1 ≠ "" → d_CampaignID d1 = d_CampaignID d2 → d_EmailNorm d1 = d_EmailNorm d2 →
     id1 = id2) ∧
  (∀ id d, deliveries td !! id = Some d →
     d_ID d = id ∧ d_TenantID d = tenant ∧ d_EmailNorm d ≠ "" ∧ rowTruncated d ∧
     (d_Status d = DeliveryLeased → d_LeaseOwner d ≠ "") ∧
     (d_LeaseOwner d ≠ "" → d_Status d = DeliveryLeased ∨ d_Status d = DeliverySent)).
Proof.
  intros [Hok Hl]%reachable_inv. split.
  - intros id1 id2 d1 d2 H1 H2 Hc Hcc Hee.
    pose proof (qo_index _ _ Hok _ _ H1 Hc) as K1. rewrite Hcc in Hc.
    pose proof (qo_index _ _ Hok _ _ H2 Hc) as K2. congruence.
  - intros id d Hd. destruct (Hl _ _ Hd) as [Ho Hs].
    split_and!; [by eapply qo_id|by eapply qo_tenant|by eapply qo_email|by eapply qo_times|done..].
Qed.

(** ** Refinement of the delivery state machine *)

Lemma insertedRow_Status env j d : d_Status (insertedRow env j d) = d_Status d.
Proof.
  destruct (deliveryID_fields env j d) as (_&_&<-&_). unfold insertedRow, stampDelivery.
  by destruct (IsZero (d_CreatedAt _)), (IsZero (d_NextAttemptAt _)).
Qed.

(** Seen from any reachable state, a call either leaves a row's status alone,
    moves it along an edge of the state machine, is a manual retry, which
    counts a new retry generation and keeps the attempt count, or is a result
    of the owner of a row that was marked sent.  New rows start pending or
    queued.  [DeliveryJobs] shows when the last kind does not occur. *)
Lemma queue_changes tenant td env op id d' :
  reachable tenant td → e_tenant env = tenant → lawful env op td →
  deliveries (runOp env op td) !! id = Some d' →
  match deliveries td !! id with
  | Some d => statusChange op d d'
  | None => d_Status d' = DeliveryPending ∨ d_Status d' = DeliveryQueued
  end.
Proof.
  intros Hr <- Hlaw Hd'. apply reachable_inv in Hr.
  destruct (runOp_row _ _ _ _ _ Hr Hlaw Hd') as [(d&->&[->|(_&_&?)])|(->&ds&j&d&->&Hin&->)].
  - by apply sc_same.
  - done.
  - destruct Hlaw as [_ Hst]. rewrite Forall_forall in Hst. destruct (Hst d Hin) as [Hs _].
    rewrite insertedRow_Status. rewrite !elem_of_cons, elem_of_nil in Hs. tauto.
Qed.

Definition runAll (steps : list (Env * qop)) (td : tenantData) : tenantData :=
  foldl (λ td step, runOp step.1 step.2 td) td steps.

(** ** Leases *)

(** The ways a lease of worker [w] on the row [d] ends. *)
Inductive endsLease (d : Delivery) : qop → Prop :=
  | el_complete rs res :
      res ∈ rs → dr_DeliveryID res = d_ID d → dr_LeaseOwner res = d_LeaseOwner d →
      endsLease d (QComplete rs)
  | el_sent msg at_ : endsLease d (QMarkSent (d_ID d) (d_LeaseOwner d) msg at_)
  | el_expired at_ limit :
      d_LeaseUntil d < TruncateTime at_ → endsLease d (QRelease at_ limit)
  | el_retry f limit : requeueMatch f (d_ID d) d = true → endsLease d (QRequeue f limit)
  | el_retention c before limit :
      d_CampaignID d = c → d_CreatedAt d < TruncateTime before → endsLease d (QDelete c before limit).

Lemma leased_not_claimable req now d : d_Status d = DeliveryLeased → claimable req now d = false.
Proof. intros Hs. unfold claimable, claimableStatus. rewrite Hs. by destruct (negb _). Qed.

(** C17 (store/deliveries): leases are exclusive.  While a row is leased, no
    claim returns it, and whatever else runs, the row stays leased by the same
    worker until the same time, except through one of five events: that worker
    completes it, that worker marks it sent, the lease time passes and the
    reaper releases it, a manual retry takes it back, or retention deletes it. *)
Theorem lease_exclusive tenant td env op id d :
  reachable tenant td → e_tenant env = tenant → lawful env op td →
  deliveries td !! id = Some d → d_Status d = DeliveryLeased →
  (∀ req l td', Claim env req td = (inr l, td') → ∀ x, x ∈ l → d_ID x ≠ id) ∧
  ((∃ d', deliveries (runOp env op td) !! id = Some d' ∧ d_Status d' = DeliveryLeased ∧
      d_LeaseOwner d' = d_LeaseOwner d ∧ d_LeaseUntil d' = d_LeaseUntil d) ∨
   endsLease d op).
Proof.
  intros Hr <- Hlaw Hd Hs. apply reachable_inv in Hr. pose proof Hr as [Hok Hl].
  pose proof (qo_id _ _ Hok _ _ Hd) as Hid. split.
  - intros req l td' Hcl x Hx Hxid.
    destruct (Claim_inv _ _ _ _ _ Hcl x Hx) as (id'&e&He&Hc&->&_).
    cbn in Hxid. rewrite (qo_id _ _ Hok _ _ He) in Hxid. subst id'. simplify_eq.
    by rewrite leased_not_claimable in Hc.
  - destruct (runOp_kept _ _ _ _ _ Hr Hlaw Hd) as [[d' Hd']|(c&b&lim&->&?&?)];
      [|right; by apply el_retention].
    destruct (runOp_row _ _ _ _ _ Hr Hlaw Hd') as [(e&He&[->|(Hch&_&_)])|(Hn&_)]; simplify_eq.
    + left. eauto.
    + destruct Hch as [req e Hc|rs res now e Hin Hrid Hne Ho|owner msg at_ e _ Hne Ho|at_ e Hs'
        |at_ e Hs'|at_ limit e _ _ Hlt|c from to limit now e Hc Hm _|f limit e Hm
        |col at_ e e' Hs' Ho Hu _ _ _].
      * by rewrite leased_not_claimable in Hc.
      * right. eapply el_complete; [done..|]. congruence.
      * right. rewrite <- Ho. apply el_sent.
      * congruence.
      * congruence.
      * right. by apply el_expired.
      * destruct Hlaw as [-> ->]. apply matchStatus_cancellable in Hm. rewrite Hs in Hm.
        by apply (bool_decide_eq_true_2 _) in Hm.
      * right. by apply el_retry.
      * left. exists e'. rewrite Hs', Ho, Hu. split_and!; [done..|].
        by apply (rt_lease e), (qo_times _ _ Hok _ _ Hd).
Qed.

(** ** The order of claims *)

Lemma claimLess_irrefl a : claimLess a a = false.
Proof.
  unfold claimLess, Before, strLt. rewrite !Z.eqb_refl. cbn.
  apply bool_decide_eq_false_2. by intros [_ ?].
Qed.

(** [claimLess] spelled out as a lexicographic order. *)
Lemma claimLess_spec a b :
  claimLess a b = true ↔
  d_Priority b < d_Priority a ∨
  (d_Priority a = d_Priority b ∧
   (d_NextAttemptAt a < d_NextAttemptAt b ∨
    (d_NextAttemptAt a = d_NextAttemptAt b ∧ String.le (d_ID a) (d_ID b) ∧ d_ID a ≠ d_ID b))).
Proof.
  unfold claimLess, Before, strLt.
  destruct (d_Priority a =? d_Priority b) eqn:H1; cbn; to_prop.
  - destruct (d_NextAttemptAt a =? d_NextAttemptAt b) eqn:H2; cbn; to_prop.
    + rewrite bool_decide_eq_true. lia || intuition lia.
    + rewrite Z.ltb_lt. intuition lia.
  - rewrite Z.ltb_lt. intuition lia.
Qed.

Lemma claimLe_spec a b :
  claimLe a b ↔
  d_Priority b.2 < d_Priority a.2 ∨
  (d_Priority a.2 = d_Priority b.2 ∧
   (d_NextAttemptAt a.2 < d_NextAttemptAt b.2 ∨
    (d_NextAttemptAt a.2 = d_NextAttemptAt b.2 ∧ String.le (d_ID a.2) (d_ID b.2)))).
Proof.
  unfold claimLe. rewrite <- not_true_iff_false, claimLess_spec.
  destruct (total String.le (d_ID a.2) (d_ID b.2)) as [Hab|Hba].
  - split; [|intros ? ?; assert (String.le (d_ID b.2) (d_ID a.2) → d_ID b.2 = d_ID a.2)
      by (intros; by apply (anti_symm String.le)); intuition lia].
    intros Hn. destruct (Z.lt_trichotomy (d_Priority a.2) (d_Priority b.2)) as [?|[?|?]]; [tauto| |tauto].
    right. split; [done|].
    destruct (Z.lt_trichotomy (d_NextAttemptAt a.2) (d_NextAttemptAt b.2)) as [?|[?|?]]; [tauto|tauto|].
    exfalso. apply Hn. right. split; [done|]. by left.
  - split.
    + intros Hn. destruct (Z.lt_trichotomy (d_Priority a.2) (d_Priority b.2)) as [?|[?|?]]; [tauto| |tauto].
      right. split; [done|].
      destruct (Z.lt_trichotomy (d_NextAttemptAt a.2) (d_NextAttemptAt b.2)) as [?|[?|?]]; [tauto| |].
      * right. split; [done|]. destruct (decide (d_ID b.2 = d_ID a.2)) as [->|Hne]; [done|].
        exfalso. apply Hn. right. split; [done|]. right. split; [done|]. done.
      * exfalso. apply Hn. right. split; [done|]. by left.
    + intros Hc Hn. assert (Hanti : String.le (d_ID a.2) (d_ID b.2) → d_ID b.2 = d_ID a.2)
        by (intros; by apply (anti_symm String.le)).
      intuition lia.
Qed.

#[global] Instance claimLe_trans : Transitive claimLe.
Proof.
  intros a b c. rewrite !claimLe_spec. intros Hab Hbc.
  assert (Htr : String.le (d_ID a.2) (d_ID b.2) → String.le (d_ID b.2) (d_ID c.2) →
                String.le (d_ID a.2) (d_ID c.2)) by (intros; by etrans).
  intuition lia.
Qed.

#[global] Instance claimLe_total : Total claimLe.
Proof.
  intros a b. rewrite !claimLe_spec.
  destruct (total String.le (d_ID a.2) (d_ID b.2)),
    (Z.lt_trichotomy (d_Priority a.2) (d_Priority b.2)) as [?|[?|?]],
    (Z.lt_trichotomy (d_NextAttemptAt a.2) (d_NextAttemptAt b.2)) as [?|[?|?]]; auto 8.
Qed.

(** The rows a claim takes, by the code's own order. *)
Lemma claimCandidates_best req now td :
  let cands := claimCandidates req now (deliveries td) in
  StronglySorted claimLe cands ∧
  (∀ id d, deliveries td !! id = Some d → claimable req now d = true → (id, d) ∉ cands →
     (∀ kv, kv ∈ cands → claimLe kv (id, d)) ∧ 0 < cr_Limit req ∧ len cands = cr_Limit req) ∧
  (0 < cr_Limit req → len cands ≤ cr_Limit req).
Proof.
  cbv zeta. set (srt := merge_sort claimLe (filter (λ kv, claimable req now kv.2 = true) (map_to_list (deliveries td)))).
  assert (Hcands : claimCandidates req now (deliveries td) = capTo (cr_Limit req) srt) by done.
  assert (Hss : StronglySorted claimLe srt) by (apply StronglySorted_merge_sort; apply _).
  rewrite Hcands. destruct (capTo_prefix (cr_Limit req) srt) as [r Hr]. split_and!.
  - rewrite Hr in Hss. by apply StronglySorted_app_1_l in Hss.
  - intros id d Hd Hc Hnin. assert (Hin : (id, d) ∈ srt).
    { unfold srt. rewrite merge_sort_Permutation. apply list_elem_of_filter. split; [done|]. by apply elem_of_map_to_list. }
    destruct (decide (0 < cr_Limit req)); [|rewrite capTo_unlimited in Hnin by lia; done]. split_and!; [|done|].
    + intros kv Hkv. rewrite Hr in Hss, Hin. apply elem_of_app in Hin as [?|Hin]; [done|].
      by eapply (StronglySorted_app_1_elem_of claimLe _ _ _ _ Hss).
    + rewrite length_capTo by done. destruct (decide (len srt ≤ cr_Limit req)); [rewrite capTo_all in Hnin by done; done|lia].
  - intros H0. rewrite length_capTo by done. lia.
Qed.

(** Which rows a request may claim, and which of two is sent first. *)
Record eligible (req : ClaimRequest) (now : Time) (d : Delivery) : Prop := {
  eg_lane : d_Lane d = cr_Lane req;
  eg_due : d_NextAttemptAt d ≤ now;
  eg_status :
    d_Status d = DeliveryQueued ∨ d_Status d = DeliveryDeferred ∨
    (d_Status d = DeliveryPending ∧ d_CampaignID d ≠ "" ∧ ∃ cs, cr_CampaignIDs req = Some cs ∧ d_CampaignID d ∈ cs);
  eg_campaign : ∀ cs, cr_CampaignIDs req = Some cs → d_CampaignID d = "" ∨ d_CampaignID d ∈ cs;
}.

Definition ahead (a b : Delivery) : Prop :=
  d_Priority b < d_Priority a ∨
  (d_Priority a = d_Priority b ∧
   (d_NextAttemptAt a < d_NextAttemptAt b ∨ (d_NextAttemptAt a = d_NextAttemptAt b ∧ String.le (d_ID a) (d_ID b)))).

(** The row under its lease: nothing else of it changes. *)
Definition leasedTo (req : ClaimRequest) (now : Time) (d : Delivery) : Delivery :=
  d <| d_Status := DeliveryLeased |> <| d_LeaseOwner := cr_WorkerID req |>
    <| d_LeaseUntil := TruncateTime (now + cr_LeaseFor req) |> <| d_UpdatedAt := now |>.

Lemma claimable_eligible req now d : claimable req now d = true ↔ eligible req now d.
Proof.
  unfold claimable, claimableStatus, inCampaigns, contains, After, strEq.
  split.
  - intros H. destruct (bool_decide (d_Lane d = cr_Lane req)) eqn:Hl; [|done]. apply bool_decide_eq_true in Hl. cbn in H.
    destruct (match d_Status d with DeliveryPending => _ | _ => _ end) eqn:Hs; [|done]. cbn in H.
    destruct (now <? d_NextAttemptAt d) eqn:Ha; [done|]. apply Z.ltb_ge in Ha. split; [done|lia| |].
    + destruct (d_Status d); try discriminate Hs; auto. right. right. apply andb_true_iff in Hs as [H1 H2].
      apply negb_true_iff, bool_decide_eq_false in H1. destruct (cr_CampaignIDs req) as [cs|]; [|discriminate H2].
      apply bool_decide_eq_true in H2. split_and!; eauto.
    + intros cs Hcs. rewrite Hcs in H. rewrite bool_decide_eq_true_2 in H by done. cbn in H.
      destruct (decide (d_CampaignID d = "")) as [|He]; [by left|]. right. rewrite (bool_decide_eq_false_2 _ He) in H. cbn in H.
      destruct (bool_decide (d_CampaignID d ∈ cs)) eqn:Hin; [by apply bool_decide_eq_true in Hin|done].
  - intros [Hl Hd Hs Hc]. rewrite bool_decide_eq_true_2 by done. cbn.
    assert (Hst : (match d_Status d with DeliveryQueued | DeliveryDeferred => true
      | DeliveryPending => negb (bool_decide (d_CampaignID d = "")) && match cr_CampaignIDs req with Some l => bool_decide (d_CampaignID d ∈ l) | None => false end
      | _ => false end) = true).
    { destruct Hs as [->|[->|(->&Hne&cs&->&Hin)]]; [done..|]. by rewrite bool_decide_eq_false_2, bool_decide_eq_true_2. }
    rewrite Hst. cbn. rewrite (proj2 (Z.ltb_ge _ _)) by lia. destruct (cr_CampaignIDs req) as [cs|]; [|done].
    rewrite bool_decide_eq_true_2 by done. destruct (Hc cs eq_refl) as [->|Hin]; [done|].
    rewrite (bool_decide_eq_true_2 (_ ∈ _)) by done. by rewrite andb_false_r.
Qed.

Lemma claimLe_ahead a b : claimLe a b ↔ ahead a.2 b.2.
Proof. apply claimLe_spec. Qed.

Lemma claimRow_leased req now d : rowTruncated d → truncated now → claimRow req now d = leasedTo req now d.
Proof.
  intros [H1 H2 H3 H4 H5 H6 H7 H8 H9] Hn. unfold claimRow, leasedTo, truncateDelivery, truncated, addTime in *. destruct d. cbn in *. rewrite ?H1, ?H3, ?H4, ?H5, ?H6, ?H7, ?H8, ?Hn. f_equal.
Qed.

(** C18 (store/deliveries): a claim leases the best eligible rows.  It takes
    rows that are eligible (of the request's lane, due, and queued or deferred,
    or pending in one of the named campaigns, and of a named campaign if
    campaigns are named), best first (priority descending, next attempt
    ascending, ID ascending), each once.  Exactly the rows it takes are stored
    as leased by the worker until the lease's end, and returned as they are
    stored; every other row and everything else stays as it was.  An eligible
    row that is not taken comes after all that are, and only because the
    limit is reached, which is never exceeded. *)
Theorem claim_takes_best env req td l td' tenant :
  queueOk tenant td → Claim env req td = (inr l, td') →
  let now := TruncateTime (cr_Now req) in
  ∃ taken : list Delivery,
    l = leasedTo req now <$> taken ∧ NoDup (d_ID <$> taken) ∧ StronglySorted ahead taken ∧
    (∀ d, d ∈ taken → eligible req now d ∧ deliveries td !! d_ID d = Some d ∧ deliveries td' !! d_ID d = Some (leasedTo req now d)) ∧
    (∀ id, id ∉ d_ID <$> taken → deliveries td' !! id = deliveries td !! id) ∧
    td' = td <| deliveries := deliveries td' |> ∧
    (∀ id d, deliveries td !! id = Some d → eligible req now d → d ∉ taken →
       (∀ x, x ∈ taken → ahead x d) ∧ 0 < cr_Limit req ∧ len l = cr_Limit req) ∧
    (0 < cr_Limit req → len l ≤ cr_Limit req).
Proof.
  intros Hok. unfold Claim, checked, throw. destruct (e_closed env); [done|].
  intros [= <- <-]. cbv zeta. set (now := TruncateTime (cr_Now req)).
  assert (Hnow : truncated now) by apply TruncateTime_idemp.
  set (cands := claimCandidates req now (deliveries td)). exists cands.*2.
  assert (Hc : ∀ kv, kv ∈ cands → deliveries td !! kv.1 = Some kv.2 ∧ claimable req now kv.2 = true) by (intros kv; apply elem_of_claimCandidates).
  assert (Hids : d_ID <$> cands.*2 = cands.*1).
  { rewrite <- list_fmap_compose. apply list_fmap_ext. intros i kv Hkv%list_elem_of_lookup_2. cbn. eapply qo_id; [done|]. by apply Hc. }
  assert (Hrow : ∀ kv, kv ∈ cands → claimRow req now kv.2 = leasedTo req now kv.2).
  { intros kv Hkv. apply claimRow_leased; [|done]. eapply qo_times; [done|]. by apply Hc. }
  assert (Hnd := NoDup_claimCandidates req now (deliveries td)). fold cands in Hnd.
  destruct (claimCandidates_best req now td) as (Hss&Hbest&Hlim). fold cands in Hss, Hbest, Hlim.
  split_and!.
  - rewrite <- list_fmap_compose. apply list_fmap_ext. intros i kv Hkv%list_elem_of_lookup_2. by apply Hrow.
  - by rewrite Hids.
  - clear -Hss. induction Hss as [|x l Hs IH Hx]; [constructor|]. cbn. constructor; [done|].
    apply Forall_fmap. eapply Forall_impl; [exact Hx|]. intros y Hy. by apply claimLe_ahead.
  - intros d (kv&->&Hkv)%list_elem_of_fmap. destruct (Hc kv Hkv) as [Hd Hcl]. rewrite (qo_id _ _ Hok _ _ Hd).
    split_and!; [by apply claimable_eligible|done|]. cbn. rewrite alterAll_in; [by rewrite Hd, <- Hrow|done|].
    apply list_elem_of_fmap. by exists kv.
  - rewrite Hids. intros id Hid. cbn. by apply alterAll_notin.
  - by destruct td.
  - intros id d Hd He%claimable_eligible Hnin.
    destruct (Hbest id d Hd He) as (Ha&H0&Hl); [intros Hin; apply Hnin, list_elem_of_fmap; by exists (id, d)|].
    split_and!; [|done|unfold len in *; by rewrite length_fmap]. intros x (kv&->&Hkv)%list_elem_of_fmap. apply (claimLe_ahead kv (id, d)). by apply Ha.
  - intros H0. unfold len in *. rewrite length_fmap. by apply Hlim.
Qed.

(** ** Batch insert *)

(** No NUL byte: [emailKey] separates its parts with one. *)
Fixpoint noNul (s : string) : bool :=
  match s with
  | EmptyString => true
  | String c s' => negb (bool_decide (c = Ascii.ascii_of_nat 0)) && noNul s'
  end.

Lemma emailKey_inj c1 e1 c2 e2 :
  noNul c1 = true → noNul c2 = true → emailKey c1 e1 = emailKey c2 e2 → c1 = c2 ∧ e1 = e2.
Proof.
  unfold emailKey. revert c2. induction c1 as [|a c1 IH]; intros [|b c2] H1 H2 He; cbn in *; to_prop.
  - by simplify_eq.
  - by simplify_eq.
  - by simplify_eq.
  - injection He as -> He. by destruct (IH c2) as [-> ->].
Qed.

Lemma insertOne_indexed env i d n td k :
  is_Some (campaignEmails td !! k) → is_Some (campaignEmails (insertOne env i d (n, td)).2 !! k).
Proof.
  intros Hk. destruct (isDuplicate d td) eqn:Hdup; [by rewrite insertOne_skip|].
  destruct (insertOne_new env i d n td Hdup) as (td'&->&_&Hce&_). simpl. rewrite Hce.
  destruct (strEq _ _); [done|]. apply lookup_insert_is_Some'. by right.
Qed.

Lemma insertOne_indexes env i d n td :
  d_CampaignID d ≠ "" →
  is_Some (campaignEmails (insertOne env i d (n, td)).2 !! emailKey (d_CampaignID d) (d_EmailNorm d)).
Proof.
  intros Hc. destruct (isDuplicate d td) eqn:Hdup.
  - rewrite insertOne_skip by done. unfold isDuplicate in Hdup. to_prop. done.
  - destruct (insertOne_new env i d n td Hdup) as (td'&->&_&Hce&_). simpl. rewrite Hce.
    unfold strEq. rewrite bool_decide_eq_false_2 by done. by rewrite lookup_insert_eq.
Qed.

Lemma insertLoop_indexed env i ds n td k :
  is_Some (campaignEmails td !! k) ∨
    (∃ d, d ∈ ds ∧ d_CampaignID d ≠ "" ∧ k = emailKey (d_CampaignID d) (d_EmailNorm d)) →
  is_Some (campaignEmails (insertLoop env i ds (n, td)).2 !! k).
Proof.
  revert i n td. induction ds as [|d ds IH]; intros i n td Hk.
  - destruct Hk as [?|(d&Hd&_)]; [done|]. by apply elem_of_nil in Hd.
  - cbn [insertLoop]. pose proof (insertOne_indexed env i d n td k) as H1.
    pose proof (insertOne_indexes env i d n td) as H2.
    destruct (insertOne env i d (n, td)) as [n' td']. simpl in *. apply IH.
    destruct Hk as [?|(d'&[->|Hd]%elem_of_cons&Hc&->)]; [by left; auto|by left; auto|].
    right. by exists d'.
Qed.

Lemma insertLoop_size env i ds n td :
  freshFrom env i ds (dom (deliveries td)) →
  Z.of_nat (size (deliveries (insertLoop env i ds (n, td)).2)) - (insertLoop env i ds (n, td)).1 =
  Z.of_nat (size (deliveries td)) - n.
Proof.
  revert i n td. induction ds as [|d ds IH]; intros i n td Hfr; [done|]. destruct Hfr as [Hn Hfr].
  cbn [insertLoop]. pose proof (insertOne_dom env i d n td) as Hdom.
  destruct (isDuplicate d td) eqn:Hdup.
  - rewrite insertOne_skip in * by done. apply IH. by eapply freshFrom_weaken.
  - destruct (insertOne_new env i d n td Hdup) as (td'&He&Hde&_). rewrite He in *.
    rewrite IH by by eapply freshFrom_weaken. rewrite Hde.
    destruct (insertedRow_fields env i d) as (Hid&_). rewrite Hid.
    rewrite map_size_insert_None by by apply not_elem_of_dom. lia.
Qed.

Lemma insertLoop_duplicates env i ds n td :
  (∀ d, d ∈ ds → isDuplicate d td = true) → insertLoop env i ds (n, td) = (n, td).
Proof.
  revert i. induction ds as [|d ds IH]; intros i Hdup; [done|]. cbn [insertLoop].
  rewrite insertOne_skip by (apply Hdup, elem_of_cons; by left).
  apply IH. intros d' Hd'. apply Hdup, elem_of_cons. by right.
Qed.

(** Ingest is idempotent.  After a batch was inserted,
    every campaign recipient of the batch has a row (a skipped duplicate had
    one already), existing rows are untouched, the returned count is the
    number of rows added, and inserting the same recipients again, with any
    IDs and any other fields, adds nothing and changes nothing. *)
Theorem insert_batch_idempotent env ds td n td' :
  queueOk (e_tenant env) td → freshFrom env 0 ds (dom (deliveries td)) →
  InsertBatch env ds td = (inr n, td') →
  (∀ id d, deliveries td !! id = Some d → noNul (d_CampaignID d) = true) →
  Forall (λ d, noNul (d_CampaignID d) = true) ds →
  (∀ d, d ∈ ds → d_CampaignID d ≠ "" → ∃ id r, deliveries td' !! id = Some r ∧
     d_CampaignID r = d_CampaignID d ∧ d_EmailNorm r = d_EmailNorm d) ∧
  deliveries td ⊆ deliveries td' ∧
  Z.of_nat (size (deliveries td')) = Z.of_nat (size (deliveries td)) + n ∧
  (∀ env' ds', e_closed env' = false →
     (∀ d', d' ∈ ds' → d_EmailNorm d' ≠ "" ∧ ∃ d, d ∈ ds ∧ d_CampaignID d ≠ "" ∧
        d_CampaignID d' = d_CampaignID d ∧ d_EmailNorm d' = d_EmailNorm d) →
     InsertBatch env' ds' td' = (inr 0, td')).
Proof.
  intros Hok Hfr Hins Hnul Hnuls. pose proof (InsertBatch_ok _ _ _ _ _ Hok Hfr Hins) as Hok'.
  assert (Hlk : ∀ id x, deliveries td' !! id = Some x → noNul (d_CampaignID x) = true).
  { intros id x Hx. pose proof (InsertBatch_lookup env ds td id x Hfr) as H. rewrite Hins in H.
    destruct (H Hx) as [?|(_&j&d&Hd&->)]; [by eapply Hnul|].
    destruct (insertedRow_fields env j d) as (_&_&->&_). rewrite Forall_forall in Hnuls. by apply Hnuls. }
  unfold InsertBatch, checked, throw in Hins. destruct (existsb _ ds); [done|].
  destruct (e_closed env); [done|].
  pose proof (insertLoop_size env 0 ds 0 td Hfr) as Hsz.
  pose proof (λ k, insertLoop_indexed env 0 ds 0 td k) as Hix.
  pose proof (λ id x, insertLoop_keeps env 0 ds 0 td id x Hfr) as Hkeep.
  destruct (insertLoop env 0 ds (0, td)) as [n0 td0]. injection Hins as -> ->. simpl in *.
  assert (Hkey : ∀ d, d ∈ ds → d_CampaignID d ≠ "" →
    is_Some (campaignEmails td' !! emailKey (d_CampaignID d) (d_EmailNorm d))) by eauto 10.
  split_and!.
  - intros d Hd Hc. destruct (Hkey d Hd Hc) as [id Hid].
    destruct (qo_sound _ _ Hok' _ _ Hid) as (r&Hr&Hcr&Hk). exists id, r. split; [done|].
    rewrite Forall_forall in Hnuls. apply emailKey_inj; [by eapply Hlk|by apply Hnuls|done].
  - apply map_subseteq_spec. intros id x. apply Hkeep.
  - lia.
  - intros env' ds' Hc Hds'. unfold InsertBatch, checked. rewrite Hc.
    assert (existsb (λ d, strEq (d_EmailNorm d) "") ds' = false) as ->.
    { apply not_true_iff_false. intros (d'&Hd'%list_elem_of_In&He)%existsb_exists.
      destruct (Hds' d' Hd') as [Hne _]. by to_prop. }
    rewrite insertLoop_duplicates; [done|]. intros d' Hd'.
    destruct (Hds' d' Hd') as (_&d&Hd&Hcd&Hc1&He1). unfold isDuplicate, strEq.
    rewrite Hc1, He1, bool_decide_eq_false_2 by done. cbn. apply bool_decide_eq_true_2. by apply Hkey.
Qed.

(** A batch is validated before anything is written: one
    recipient without a normalized address refuses the whole batch, and a
    refused batch leaves the store as it was. *)
Theorem insert_batch_all_or_nothing env ds td :
  (Exists (λ d, d_EmailNorm d = "") ds → InsertBatch env ds td = (inl ErrInvalid, td)) ∧
  (∀ e td', InsertBatch env ds td = (inl e, td') → td' = td).
Proof.
  split.
  - intros (d&Hd&He)%Exists_exists. unfold InsertBatch. rewrite (proj2 (existsb_exists _ _)); [done|].
    exists d. split; [by apply list_elem_of_In|]. unfold strEq. by apply bool_decide_eq_true_2.
  - intros e td'. unfold InsertBatch, checked, throw. destruct (existsb _ ds); [by intros [= _ ->]|].
    destruct (e_closed env); [by intros [= _ ->]|]. by destruct (insertLoop env 0 ds (0, td)).
Qed.

(** ** Completion *)

(** The result of a batch that applies to a row: the first one that names it
    and holds its lease. *)
Definition resultFor (rs : list DeliveryResult) (id : string) (d : Delivery) : option DeliveryResult :=
  snd <$> list_find (λ res, dr_DeliveryID res = id ∧ ownsLease res d = true) rs.

Lemma resultFor_cons res rs id d :
  resultFor (res :: rs) id d =
    if decide (dr_DeliveryID res = id ∧ ownsLease res d = true) then Some res else resultFor rs id d.
Proof.
  unfold resultFor. cbn [list_find]. case_decide; [done|].
  by destruct (list_find _ rs) as [[i x]|].
Qed.

Lemma ownsLease_released res d : d_LeaseOwner d = "" → ownsLease res d = false.
Proof. intros Hd. unfold ownsLease. rewrite Hd. to_prop. by repeat case_bool_decide; congruence || done. Qed.

Lemma resultFor_released rs id d : d_LeaseOwner d = "" → resultFor rs id d = None.
Proof.
  intros Hd. induction rs as [|res rs IH]; [done|]. rewrite resultFor_cons.
  rewrite decide_False; [done|]. intros [_ Ho]. by rewrite ownsLease_released in Ho.
Qed.

Lemma completeOne_lookup env i res td id :
  deliveries (completeOne env i res td) !! id =
    match deliveries td !! id with
    | Some d => Some (if decide (dr_DeliveryID res = id ∧ ownsLease res d = true)
                      then completeRow (now env) res d else d)
    | None => None
    end.
Proof.
  unfold completeOne. destruct (decide (dr_DeliveryID res = id)) as [<-|Hne].
  - destruct (deliveries td !! dr_DeliveryID res) as [d|] eqn:Hd; [|done].
    destruct (ownsLease res d) eqn:Ho; cbn [negb].
    + rewrite decide_True by done. destruct (dr_Attempt res); cbn; by rewrite lookup_insert_eq.
    + rewrite decide_False by (by intros [_ ?]). done.
  - destruct (deliveries td !! dr_DeliveryID res) as [x|].
    + destruct (negb _); [|destruct (dr_Attempt res); cbn; rewrite lookup_insert_ne by done].
      all: destruct (deliveries td !! id); [|done]; by rewrite decide_False by tauto.
    + destruct (deliveries td !! id); [|done]. by rewrite decide_False by tauto.
Qed.

Lemma completeLoop_lookup env i rs td id :
  deliveries (completeLoop env i rs td) !! id =
    match deliveries td !! id with
    | Some d => Some (match resultFor rs id d with
                      | Some res => completeRow (now env) res d | None => d end)
    | None => None
    end.
Proof.
  revert i td. induction rs as [|res rs IH]; intros i td; cbn [completeLoop].
  - by destruct (deliveries td !! id).
  - rewrite IH, completeOne_lookup. destruct (deliveries td !! id) as [d|]; [|done].
    rewrite resultFor_cons. case_decide; [|done].
    by rewrite resultFor_released by apply completeRow_LeaseOwner.
Qed.

(** No result of the batch applies any more. *)
Definition spent (rs : list DeliveryResult) (td : tenantData) : Prop :=
  ∀ res d, res ∈ rs → deliveries td !! dr_DeliveryID res = Some d → ownsLease res d = false.

Lemma completeOne_id env i res td :
  (∀ d, deliveries td !! dr_DeliveryID res = Some d → ownsLease res d = false) →
  completeOne env i res td = td.
Proof.
  intros H. unfold completeOne. destruct (deliveries td !! dr_DeliveryID res) as [d|]; [|done].
  by rewrite (H d).
Qed.

Lemma completeLoop_id env i rs td : spent rs td → completeLoop env i rs td = td.
Proof.
  revert i. induction rs as [|res rs IH]; intros i Hs; [done|]. cbn [completeLoop].
  rewrite completeOne_id; [apply IH|].
  - intros r d Hr. apply Hs. apply elem_of_cons. by right.
  - intros d. apply Hs. apply elem_of_cons. by left.
Qed.

Lemma resultFor_None rs id d res :
  resultFor rs id d = None → res ∈ rs → dr_DeliveryID res = id → ownsLease res d = false.
Proof.
  intros Hn Hin Hid. induction rs as [|r rs IH]; [by apply elem_of_nil in Hin|].
  rewrite resultFor_cons in Hn. case_decide as Hd; [done|].
  apply elem_of_cons in Hin as [->|Hin]; [|by apply IH].
  apply not_true_iff_false. tauto.
Qed.

Lemma completeLoop_spent env i rs td : spent rs (completeLoop env i rs td).
Proof.
  intros res d Hin. rewrite completeLoop_lookup.
  destruct (deliveries td !! dr_DeliveryID res) as [d0|]; [|done]. intros [= <-].
  destruct (resultFor rs (dr_DeliveryID res) d0) as [r|] eqn:Hr.
  - apply ownsLease_released, completeRow_LeaseOwner.
  - by eapply resultFor_None.
Qed.

(** Completing a batch is, row by row, applying the first
    result that holds the row's lease: every other row and every stale result
    is ignored, the applied row gives up its lease and takes the result's
    status, and it counts an attempt only if the result says so. *)
Theorem complete_applies_first_owner env rs td :
  e_closed env = false →
  let td' := (Complete env rs td).2 in
  (∀ id, deliveries td' !! id =
     match deliveries td !! id with
     | Some d => Some (match resultFor rs id d with
                       | Some res => completeRow (now env) res d | None => d end)
     | None => None
     end) ∧
  (∀ id d res, deliveries td !! id = Some d → resultFor rs id d = Some res →
     ∃ d', deliveries td' !! id = Some d' ∧ d_Status d' = dr_NewStatus res ∧ d_LeaseOwner d' = "" ∧
       d_AttemptCount d' =
         (if dr_IncrementAttempt res then int64 (d_AttemptCount d + 1) else d_AttemptCount d)).
Proof.
  intros Hc. unfold Complete, checked. rewrite Hc. cbv zeta. cbn [snd]. split.
  - intros id. apply completeLoop_lookup.
  - intros id d res Hd Hr. exists (completeRow (now env) res d).
    rewrite completeLoop_lookup, Hd, Hr.
    split_and!; [done|apply completeRow_Status|apply completeRow_LeaseOwner|apply completeRow_AttemptCount].
Qed.

(** Completion is idempotent.  Committing the same batch
    a second time, at any later time, changes nothing: neither rows nor the
    attempt history, so a retried flush cannot count an attempt twice. *)
Theorem complete_idempotent env env' rs td :
  e_closed env = false → e_closed env' = false →
  Complete env' rs (Complete env rs td).2 = (inr tt, (Complete env rs td).2).
Proof.
  intros H1 H2. unfold Complete, checked. rewrite H1, H2. cbn [snd].
  by rewrite completeLoop_id by apply completeLoop_spent.
Qed.

(** ** Counting *)

Definition inStatus (campaignID : string) (s : DeliveryStatus) (d : Delivery) : bool :=
  strEq (d_CampaignID d) campaignID && bool_decide (d_Status d = s).

Lemma countOne_fold campaignID l s :
  len l ≤ maxInt64 →
  default 0 (foldr (countOne campaignID) ∅ l !! s) =
    len (filter (λ d, inStatus campaignID s d = true) l).
Proof.
  unfold len. induction l as [|d l IH]; intros Hl; [by simpl; rewrite lookup_empty|].
  cbn [foldr length] in *. rewrite filter_cons.
  specialize (IH ltac:(lia)).
  assert (Hle : (length (filter (λ d, inStatus campaignID s d = true) l) ≤ length l)%nat)
    by apply length_filter.
  unfold countOne at 1. destruct (strEq (d_CampaignID d) campaignID) eqn:Hc; cbn [negb].
  - destruct (decide (d_Status d = s)) as [<-|Hne].
    + rewrite decide_True by (unfold inStatus; by rewrite Hc, bool_decide_eq_true_2).
      rewrite lookup_insert_eq. cbn [length].
      change (default 0 (Some ?x)) with x. rewrite IH, int64_small;
        [unfold inStatus; lia|]. unfold in_int64, minInt64, maxInt64 in *. lia.
    + rewrite decide_False by (unfold inStatus; by rewrite Hc, bool_decide_eq_false_2).
      by rewrite lookup_insert_ne.
  - rewrite decide_False by (unfold inStatus; by rewrite Hc). exact IH.
Qed.

(** [CountByStatus] counts exactly the campaign's rows in
    each status, in any map iteration order, and reads only. *)
Theorem count_by_status_exact env campaignID td m td' :
  Z.of_nat (size (deliveries td)) ≤ maxInt64 →
  CountByStatus env campaignID td = (inr m, td') →
  td' = td ∧
  (∀ s, default 0 (m !! s) =
     Z.of_nat (size (filter (λ kv, inStatus campaignID s kv.2 = true) (deliveries td)))) ∧
  (∀ l, l ≡ₚ map_to_list (deliveries td) →
     ∀ s, default 0 (foldr (countOne campaignID) ∅ l.*2 !! s) = default 0 (m !! s)).
Proof.
  intros Hsz. unfold CountByStatus, checked, throw. destruct (e_closed env); [done|].
  intros [= <- <-]. assert (Hlen : len (map_to_list (deliveries td)).*2 ≤ maxInt64).
  { unfold len. by rewrite length_fmap, length_map_to_list. }
  split_and!; [done| |].
  - intros s. rewrite countOne_fold by done. unfold len. f_equal.
    apply (length_filter_values (inStatus campaignID s)).
  - intros l Hp s. rewrite !countOne_fold; [|done|by unfold len; rewrite Hp].
    unfold len. by rewrite Hp.
Qed.

(** ** Marks that happen once *)

(** A late signal about a sent message: a bounce or a complaint. *)
Definition mark (complaint : bool) : Env → string → Time → M tenantData bool :=
  if complaint then MarkComplained else MarkBounced.

(** The answers of a sequence of signals about one delivery. *)
Fixpoint marks (id : string) (signals : list (Env * bool * Time)) (td : tenantData)
    : list (error + bool) * tenantData :=
  match signals with
  | [] => ([], td)
  | (env, complaint, at_) :: signals' =>
      let '(r, td1) := mark complaint env id at_ td in
      let '(rs, td2) := marks id signals' td1 in (r :: rs, td2)
  end.

Definition isSent (id : string) (td : tenantData) : bool :=
  match deliveries td !! id with
  | Some d => bool_decide (d_Status d = DeliverySent)
  | None => false
  end.

Lemma mark_spec complaint env id at_ td :
  ∃ td', mark complaint env id at_ td =
      (if e_closed env then inl errClosed else inr (isSent id td), td') ∧
    isSent id td' = isSent id td && e_closed env ∧ (isSent id td = false → td' = td).
Proof.
  unfold mark. destruct complaint; unfold MarkComplained, MarkBounced, markTerminal, checked, throw, isSent;
    (destruct (e_closed env); [exists td; rewrite andb_true_r; done|]);
    (destruct (deliveries td !! id) as [d|] eqn:Hd; [|exists td; by rewrite Hd]);
    (case_bool_decide as Hs; [|exists td; rewrite Hd; by rewrite bool_decide_eq_false_2 by done]);
    eexists; (split; [reflexivity|]); cbn; by rewrite lookup_insert_eq.
Qed.

(** A sent message is marked bounced or complained at most
    once.  Of any sequence of bounce and complaint signals about a delivery,
    reported by any number of workers, exactly the first is acknowledged with
    true if the delivery was sent, and none otherwise, so each is counted,
    suppressed and reported to the host once. *)
Theorem marked_at_most_once id signals td :
  Forall (λ s, e_closed s.1.1 = false) signals →
  (marks id signals td).1 =
    match signals with
    | [] => []
    | _ :: rest => inr (isSent id td) :: ((λ _, inr false) <$> rest)
    end.
Proof.
  assert (Hno : ∀ ss td, Forall (λ s, e_closed s.1.1 = false) ss → isSent id td = false →
    (marks id ss td).1 = (λ _, inr false) <$> ss).
  { induction ss as [|[[env c] at_] ss IH]; intros t Hcl Hs; [done|]. inversion Hcl as [|? ? H1 H2]; subst.
    simpl in H1. cbn [marks]. destruct (mark_spec c env id at_ t) as (td'&->&Hs'&Hid).
    rewrite H1, Hs in *. specialize (IH td' H2 Hs'). destruct (marks id ss td').
    simpl in *. by rewrite IH. }
  intros Hcl. destruct signals as [|[[env c] at_] ss]; [done|].
  inversion Hcl as [|? ? H1 H2]; subst. simpl in H1. cbn [marks].
  destruct (mark_spec c env id at_ td) as (td'&->&Hs'&_). rewrite H1, andb_false_r in *.
  specialize (Hno ss td' H2 Hs'). destruct (marks id ss td'). simpl in *. by rewrite Hno.
Qed.

Definition firstColumnOf (col : firstColumn) : Delivery → Time :=
  match col with
  | ColOpened => d_FirstOpenedAt
  | ColClicked => d_FirstClickedAt
  | ColUnsubscribed => d_UnsubscribedAt
  end.

Lemma setFirstOp_found col env id at_ td d :
  e_closed env = false → deliveries td !! id = Some d →
  firstColumnOf col d ≠ 0 → setFirstOp col env id at_ td = (inr false, td).
Proof.
  intros Hc Hd Hne. destruct col; cbn in *;
    unfold SetFirstOpened, SetFirstClicked, SetUnsubscribed, setFirst, checked, IsZero;
    rewrite Hc, Hd; cbn; by rewrite (proj2 (Z.eqb_neq _ _) Hne).
Qed.

(** The first open, click and unsubscribe times are
    written once.  A call that answers true stored its (truncated) time; every
    later call for the same column answers false and changes nothing. *)
Theorem first_interaction_once col env id at_ td td' env' at' :
  setFirstOp col env id at_ td = (inr true, td') → Millisecond ≤ at_ → e_closed env' = false →
  (∃ d, deliveries td' !! id = Some d ∧ firstColumnOf col d = TruncateTime at_) ∧
  setFirstOp col env' id at' td' = (inr false, td').
Proof.
  intros Hop Hat Hc'.
  assert (∃ d, deliveries td' !! id = Some d ∧ firstColumnOf col d = TruncateTime at_) as (d&Hd&Hcol).
  { revert Hop. destruct col; cbn;
      unfold SetFirstOpened, SetFirstClicked, SetUnsubscribed, setFirst, checked, throw;
      (destruct (e_closed env); [done|]); (destruct (deliveries td !! id) as [d|]; [|done]);
      (destruct (negb _); [done|]); intros [= <-]; cbn -[TruncateTime];
      eexists; (split; [by rewrite lookup_insert_eq|done]). }
  split; [by eauto|]. eapply setFirstOp_found; [done..|]. rewrite Hcol.
  unfold TruncateTime, IsZero. rewrite (proj2 (Z.eqb_neq _ _)) by (unfold Millisecond in Hat; lia).
  unfold Millisecond in *. pose proof (Z.mod_pos_bound at_ 1000000). lia.
Qed.

(** ** Concrete runs *)

Definition sampleEnv : Env := {|
  e_closed := false; e_clock := 5 * Second; e_tenant := "acme";
  e_newID := λ i, "id-" +:+ pretty i |}.

Definition sampleDelivery : Delivery :=
  zero <| d_ID := "d1" |> <| d_CampaignID := "c1" |> <| d_EmailNorm := "a@example.com" |>
       <| d_Status := DeliveryPending |>.

Definition sampleClaim : ClaimRequest :=
  zero <| cr_WorkerID := "w1" |> <| cr_CampaignIDs := Some ["c1"] |> <| cr_Limit := 10 |>
       <| cr_Now := 6 * Second |> <| cr_LeaseFor := Minute |>.

Definition sampleInserted : tenantData := runOp sampleEnv (QInsert [sampleDelivery]) newTenantData.
Definition sampleLeased : tenantData := runOp sampleEnv (QClaim sampleClaim) sampleInserted.
Definition sampleSent : tenantData :=
  runOp sampleEnv (QMarkSent "d1" "w1" "<m@x>" (7 * Second)) sampleLeased.
Definition sampleResult (s : DeliveryStatus) : DeliveryResult :=
  zero <| dr_DeliveryID := "d1" |> <| dr_LeaseOwner := "w1" |> <| dr_NewStatus := s |>
       <| dr_IncrementAttempt := true |>.

(** Decide a closed proposition by computation. *)
Ltac by_decide := apply (bool_decide_unpack _); vm_compute; exact I.

Lemma sampleInsert_fresh :
  freshFrom sampleEnv 0 [sampleDelivery] (dom (deliveries newTenantData)).
Proof. split; [by_decide|exact I]. Qed.

Lemma sampleInserted_reachable : reachable "acme" sampleInserted.
Proof.
  apply reach_step; [apply reach_new|done|]. split; [apply sampleInsert_fresh|].
  apply Forall_singleton. split; [by_decide|done].
Qed.

Lemma sampleLeased_reachable : reachable "acme" sampleLeased.
Proof. apply reach_step; [apply sampleInserted_reachable|done|done]. Qed.

Definition sampleInsertedRow : Delivery :=
  Eval vm_compute in default zero (deliveries sampleInserted !! "d1").
Definition sampleLeasedRow : Delivery :=
  Eval vm_compute in default zero (deliveries sampleLeased !! "d1").

Lemma sampleInserted_d1 : deliveries sampleInserted !! "d1" = Some sampleInsertedRow.
Proof. vm_compute. reflexivity. Qed.

Lemma sampleLeased_d1 : deliveries sampleLeased !! "d1" = Some sampleLeasedRow.
Proof. vm_compute. reflexivity. Qed.

Lemma sampleSent_eq :
  MarkSent sampleEnv "d1" "w1" "<m@x>" (7 * Second) sampleLeased = (inr tt, sampleSent).
Proof. vm_compute. reflexivity. Qed.

Lemma queue_reachable_invariant_witness :
  ∃ d, deliveries sampleLeased !! "d1" = Some d ∧ d_LeaseOwner d = "w1" ∧ d_TenantID d = "acme".
Proof.
  exists sampleLeasedRow. split; [apply sampleLeased_d1|]. split; [reflexivity|].
  destruct (queue_reachable_invariant "acme" sampleLeased sampleLeased_reachable) as [_ H].
  by destruct (H "d1" _ sampleLeased_d1) as (_&?&_).
Defined.

Lemma lease_exclusive_witness :
  ∃ d', deliveries (runOp sampleEnv (QRelease (8 * Second) 0) sampleLeased) !! "d1" = Some d' ∧
    d_Status d' = DeliveryLeased.
Proof.
  destruct (lease_exclusive "acme" sampleLeased sampleEnv (QRelease (8 * Second) 0) "d1" _
    sampleLeased_reachable eq_refl I sampleLeased_d1 eq_refl) as [_ [(d'&?&?&_)|He]]; [by eauto|].
  exfalso. inversion He as [| |? ? Hlt| |]. by vm_compute in Hlt.
Defined.

Lemma claim_takes_best_witness :
  deliveries sampleLeased !! "d1" = Some (leasedTo sampleClaim (6 * Second) sampleInsertedRow).
Proof.
  destruct (Claim sampleEnv sampleClaim sampleInserted) as [[e|l] td'] eqn:He; [done|].
  destruct (claim_takes_best sampleEnv sampleClaim sampleInserted l td' "acme") as (taken&Hl&_&_&Htaken&_);
    [apply reachable_inv, sampleInserted_reachable|done|].
  assert (Hin : sampleInsertedRow ∈ taken).
  { assert (Hids : d_ID <$> l = ["d1"]) by (apply (f_equal (λ p, match p.1 with inr l => d_ID <$> l | inl _ => [] end)) in He; cbn [fst] in He;
      rewrite <- He; vm_compute; reflexivity).
    destruct taken as [|x [|y t]]; rewrite Hl in Hids; cbn in Hids; [discriminate Hids| |discriminate Hids]. injection Hids as Hx.
    destruct (Htaken x ltac:(by left)) as (_&Hd&_). rewrite Hx, sampleInserted_d1 in Hd. injection Hd as ->. by left. }
  destruct (Htaken _ Hin) as (_&_&Hd). unfold sampleLeased. cbn [runOp]. rewrite He. exact Hd.
Defined.

Lemma insert_batch_idempotent_witness :
  InsertBatch sampleEnv [sampleDelivery <| d_ID := "d2" |>] sampleInserted = (inr 0, sampleInserted).
Proof.
  apply (insert_batch_idempotent sampleEnv [sampleDelivery] newTenantData 1 sampleInserted).
  - apply queueOk_new.
  - apply sampleInsert_fresh.
  - vm_compute. reflexivity.
  - intros id d. simpl. by rewrite lookup_empty.
  - by repeat constructor.
  - reflexivity.
  - intros d' ->%list_elem_of_singleton. split; [done|]. exists sampleDelivery.
    split; [apply elem_of_cons; by left|done].
Defined.

Lemma insert_batch_all_or_nothing_witness :
  InsertBatch sampleEnv [sampleDelivery; zero] sampleInserted = (inl ErrInvalid, sampleInserted).
Proof.
  apply (insert_batch_all_or_nothing sampleEnv [sampleDelivery; zero] sampleInserted).
  right. left. reflexivity.
Defined.

Lemma complete_applies_first_owner_witness :
  ∃ d, deliveries (Complete sampleEnv [sampleResult DeliveryFailed; sampleResult DeliverySent]
                     sampleLeased).2 !! "d1" = Some d ∧ d_Status d = DeliveryFailed.
Proof.
  destruct (complete_applies_first_owner sampleEnv
    [sampleResult DeliveryFailed; sampleResult DeliverySent] sampleLeased eq_refl) as [_ H].
  destruct (H "d1" _ (sampleResult DeliveryFailed) sampleLeased_d1) as (d&?&?&_);
    [vm_compute; reflexivity|eauto].
Defined.

Lemma complete_idempotent_witness :
  Complete sampleEnv [sampleResult DeliverySent]
    (Complete sampleEnv [sampleResult DeliverySent] sampleLeased).2 =
  (inr tt, (Complete sampleEnv [sampleResult DeliverySent] sampleLeased).2).
Proof. apply (complete_idempotent sampleEnv sampleEnv); reflexivity. Defined.

Lemma count_by_status_exact_witness :
  ∃ m, CountByStatus sampleEnv "c1" sampleLeased = (inr m, sampleLeased) ∧
    default 0 (m !! DeliveryLeased) = 1.
Proof.
  eexists. split; [reflexivity|].
  destruct (count_by_status_exact sampleEnv "c1" sampleLeased _ _ ltac:(by vm_compute) eq_refl)
    as (_&H&_).
  rewrite H. vm_compute. reflexivity.
Defined.

Lemma marked_at_most_once_witness :
  (marks "d1" [(sampleEnv, false, 9 * Second); (sampleEnv, true, 10 * Second);
               (sampleEnv, false, 11 * Second)] sampleSent).1 = [inr true; inr false; inr false].
Proof.
  rewrite (marked_at_most_once "d1") by (by repeat constructor). vm_compute. reflexivity.
Defined.

Lemma first_interaction_once_witness :
  setFirstOp ColOpened sampleEnv "d1" (20 * Second)
    (SetFirstOpened sampleEnv "d1" (9 * Second) sampleSent).2 =
  (inr false, (SetFirstOpened sampleEnv "d1" (9 * Second) sampleSent).2).
Proof.
  apply (first_interaction_once ColOpened sampleEnv "d1" (9 * Second) sampleSent);
    [vm_compute; reflexivity|by vm_compute|reflexivity].
Defined.

(** ** A completion from an earlier lease of the same worker

    [Complete] identifies the lease by its owner alone.  When a lease expires
    while its worker still processes the delivery and the same worker claims
    the row again, a result of the first claim is applied to the second, also
    after the second was marked sent. *)

Definition staleRun : list (Env * qop) :=
  [(sampleEnv, QInsert [sampleDelivery]); (sampleEnv, QClaim sampleClaim);
   (sampleEnv, QRelease (2 * Minute) 0);
   (sampleEnv, QClaim (sampleClaim <| cr_Now := 2 * Minute |>));
   (sampleEnv, QMarkSent "d1" "w1" "<m@x>" (2 * Minute + Second))].

(** After the run above the delivery is sent, and the
    deferred result of the first, expired claim moves it back to deferred,
    where the next claim hands it out for a second send. *)
Theorem stale_completion_resends :
  let td := runAll staleRun newTenantData in
  let td' := (Complete sampleEnv [sampleResult DeliveryDeferred] td).2 in
  isSent "d1" td = true ∧
  (d_Status <$> deliveries td' !! "d1") = Some DeliveryDeferred ∧
  match Claim sampleEnv (sampleClaim <| cr_Now := 3 * Minute |>) td' with
  | (inr l, _) => d_ID <$> l = ["d1"]
  | (inl _, _) => False
  end.
Proof. vm_compute. repeat split. Qed.
