(* ===== verification/DeliveryJobs.v ===== *)
(** * Workers and their jobs over the delivery queue

    The queue itself cannot tell two leases of one worker on one row apart
    ([stale_completion_resends]).  Here its users are part of the model: a claim
    opens a job per row it takes, a job marks its row sent and then only
    completes it as sent, results are of open jobs, and a job may end at any
    point, with or without a result.  The one thing asked of a worker is that it
    does not take a row again while a job of its own on that row is open.
    Against ingest, reaper, bounces, cancellation, retries and retention, which
    run as they like, a sent delivery is then never sent again, and the queue
    keeps to the delivery state machine. *)

From S2P Require Import Prelude Enums Model MemTable MemData DeliveryRepo DeliveryQueue DeliveryProps.

(** ** The protocol *)

(** A job works on its row, or has marked it sent. *)
Inductive jobPhase := Working | Marked.

(** The jobs that are open, by worker and delivery. *)
Record sendState := mkSendState { ss_td : tenantData; ss_jobs : gmap (string * string) jobPhase }.

(** The rows a claim returns. *)
Definition claimed (env : Env) (req : ClaimRequest) (td : tenantData) : list Delivery :=
  match (Claim env req td).1 with inr l => l | inl _ => [] end.

Definition openJobs (w : string) (l : list Delivery) (jobs : gmap (string * string) jobPhase) : gmap (string * string) jobPhase :=
  foldr (λ x, <[(w, d_ID x) := Working]>) jobs l.

(** A result is an outcome of the send path and of an open job, and after
    [MarkSent] succeeded it is sent. *)
Definition ofJob (jobs : gmap (string * string) jobPhase) (res : DeliveryResult) : Prop :=
  dr_NewStatus res ∈ sendOutcomes ∧
  ∃ ph, jobs !! (dr_LeaseOwner res, dr_DeliveryID res) = Some ph ∧ (ph = Marked → dr_NewStatus res = DeliverySent).

(** One step: a call, or the end of a job. *)
Inductive sendStep (tenant : string) : sendState → option (Env * qop) → sendState → Prop :=
  | step_claim env req s :
      e_tenant env = tenant → cr_WorkerID req ≠ "" →
      (∀ x, x ∈ claimed env req (ss_td s) → ss_jobs s !! (cr_WorkerID req, d_ID x) = None) →
      sendStep tenant s (Some (env, QClaim req))
        (mkSendState (runOp env (QClaim req) (ss_td s))
                     (openJobs (cr_WorkerID req) (claimed env req (ss_td s)) (ss_jobs s)))
  | step_mark env w id msg at_ s :
      e_tenant env = tenant → ss_jobs s !! (w, id) = Some Working →
      sendStep tenant s (Some (env, QMarkSent id w msg at_))
        (mkSendState (runOp env (QMarkSent id w msg at_) (ss_td s))
                     (match (MarkSent env id w msg at_ (ss_td s)).1 with
                      | inr _ => <[(w, id) := Marked]> (ss_jobs s)
                      | inl _ => ss_jobs s
                      end))
  | step_complete env rs s :
      e_tenant env = tenant → Forall (ofJob (ss_jobs s)) rs →
      sendStep tenant s (Some (env, QComplete rs)) (mkSendState (runOp env (QComplete rs) (ss_td s)) (ss_jobs s))
  | step_end j s : sendStep tenant s None (mkSendState (ss_td s) (delete j (ss_jobs s)))
  | step_other env op s :
      e_tenant env = tenant → lawful env op (ss_td s) →
      match op with QClaim _ | QMarkSent _ _ _ _ | QComplete _ => False | _ => True end →
      sendStep tenant s (Some (env, op)) (mkSendState (runOp env op (ss_td s)) (ss_jobs s)).

Inductive sendRun (tenant : string) : sendState → list (option (Env * qop)) → sendState → Prop :=
  | srun_nil s : sendRun tenant s [] s
  | srun_cons s l s1 ls s2 : sendStep tenant s l s1 → sendRun tenant s1 ls s2 → sendRun tenant s (l :: ls) s2.

(** The states workers can bring about, from an empty tenant. *)
Definition sendReach (tenant : string) (s : sendState) : Prop := ∃ ls, sendRun tenant (mkSendState newTenantData ∅) ls s.

(** ** The invariant *)

(** A job that has not marked its row sent does not own a sent row. *)
Record jobsInv (s : sendState) : Prop := {
  ji_worker w id ph : ss_jobs s !! (w, id) = Some ph → w ≠ "";
  ji_sent w id d : ss_jobs s !! (w, id) = Some Working → deliveries (ss_td s) !! id = Some d → d_LeaseOwner d = w → d_Status d ≠ DeliverySent;
}.

Definition sendInv (tenant : string) (s : sendState) : Prop := queueInv tenant (ss_td s) ∧ jobsInv s.

Lemma sendStep_call tenant s env op s' :
  sendStep tenant s (Some (env, op)) s' → e_tenant env = tenant ∧ lawful env op (ss_td s) ∧ ss_td s' = runOp env op (ss_td s).
Proof.
  inversion 1; subst; split_and!; try done. cbn. eapply Forall_impl; [done|]. by intros res [? _].
Qed.

Lemma openJobs_lookup w l jobs w' id ph :
  openJobs w l jobs !! (w', id) = Some ph → jobs !! (w', id) = Some ph ∨ (w' = w ∧ ∃ x, x ∈ l ∧ d_ID x = id).
Proof.
  induction l as [|x l IH]; cbn; [by left|]. intros [[[= <- <-] _]|[_ H]]%lookup_insert_Some.
  - right. split; [done|]. exists x. split; [by left|done].
  - destruct (IH H) as [?|(->&y&Hy&<-)]; [by left|]. right. split; [done|]. exists y. split; [by right|done].
Qed.

Lemma MarkSent_error env id w msg at_ td e td' : MarkSent env id w msg at_ td = (inl e, td') → td' = td.
Proof. unfold MarkSent, checked, throw. repeat (case_match; try done); naive_solver. Qed.

(** A call other than [MarkSent] leaves no row sent under an owner that was
    not so before. *)
Lemma sent_owned_before env op td id d' :
  queueInv (e_tenant env) td → lawful env op td → deliveries (runOp env op td) !! id = Some d' →
  d_Status d' = DeliverySent → d_LeaseOwner d' ≠ "" →
  (∃ d, deliveries td !! id = Some d ∧ d_Status d = DeliverySent ∧ d_LeaseOwner d = d_LeaseOwner d') ∨
  (∃ msg at_, op = QMarkSent id (d_LeaseOwner d') msg at_).
Proof.
  intros Hinv Hlaw Hd' Hs Ho. pose proof Hinv as [Hok Hl].
  destruct (runOp_row _ _ _ _ _ Hinv Hlaw Hd') as [(d&Hd&[->|(Hch&_&_)])|(Hn&ds&j&d&->&Hin&->)]; [left; by eauto| |].
  - destruct Hch as [req d Hc|rs res now d Hin Hrid Hne Hro|owner msg at_ d Hst Hne Hro|at_ d Hst|at_ d Hst
      |at_ limit d Hst Hlu Hlt|c from to limit now d Hc Hm Hst|f limit d Hm|col at_ d d' Hst Hro Hu Ha Hr _]; try discriminate Hs.
    + by rewrite completeRow_LeaseOwner in Ho.
    + right. cbn. rewrite Hro, (qo_id _ _ Hok _ _ Hd). by eauto.
    + done.
    + destruct Hlaw as [-> ->]. discriminate Hs.
    + left. exists d. rewrite <- Hst, <- Hro. done.
  - exfalso. destruct Hlaw as [_ Hst]. rewrite Forall_forall in Hst. destruct (Hst d Hin) as [Hsd _].
    rewrite insertedRow_Status in Hs. rewrite Hs in Hsd. by apply (bool_decide_eq_true_2 _) in Hsd.
Qed.

Lemma sendStep_inv tenant s l s' : sendInv tenant s → sendStep tenant s l s' → sendInv tenant s'.
Proof.
  intros [Hq [Hw Hs]] Hst. destruct l as [[env op]|]; [|inversion Hst; subst; split; [done|]; split; cbn].
  2: { intros w id ph [_ ?]%lookup_delete_Some. by eapply Hw. }
  2: { intros w id d [_ ?]%lookup_delete_Some. by eapply Hs. }
  destruct (sendStep_call _ _ _ _ _ Hst) as (<-&Hlaw&Htd).
  split; [rewrite Htd; by apply runOp_inv|]. assert (Hjobs : ∀ w id ph, ss_jobs s' !! (w, id) = Some ph → w ≠ "").
  { intros w id ph Hph. inversion Hst; subst; cbn in Hph; try (by eapply Hw).
    - apply openJobs_lookup in Hph as [Hj|(->&_)]; [by eapply Hw|done].
    - case_match; [by eapply Hw|]. apply lookup_insert_Some in Hph as [[[= <- <-] _]|[_ Hj]]; by eapply Hw. }
  split; [done|]. intros w id d' Hj Hd' Ho Hsent. rewrite Htd in Hd'.
  destruct (sent_owned_before env op (ss_td s) id d' Hq Hlaw Hd' Hsent) as [(d&Hd&Hds&Hdo)|(msg&at_&->)]; [subst; by eapply Hjobs| |].
  - assert (Hold : ss_jobs s !! (w, id) = Some Working).
    { inversion Hst; subst; cbn in *; try done.
      - apply openJobs_lookup in Hj as [?|(_&x&Hx&<-)]; [done|]. exfalso. unfold claimed in Hx.
        destruct (Claim env req (ss_td s)) as [[e|l] td'] eqn:Hc; [by apply elem_of_nil in Hx|]. cbn in Hx, Hd'.
        destruct (Claim_inv _ _ _ _ _ Hc x Hx) as (id'&e&He&_&->&Hx'). cbn in Hd'. destruct Hq as [Hok _].
        rewrite (qo_id _ _ Hok _ _ He) in Hd'. simplify_eq.
      - case_match; [done|]. by apply lookup_insert_Some in Hj as [[_ ?]|[_ ?]]. }
    eapply Hs; [exact Hold|exact Hd|congruence|done].
  - inversion Hst; subst; [|done]. cbn in *. destruct (MarkSent env id _ msg at_ (ss_td s)) as [[e|[]] td'] eqn:Hm; cbn in *.
    + apply MarkSent_error in Hm as ->. by eapply Hs.
    + by rewrite lookup_insert_eq in Hj.
Qed.

Lemma sendRun_inv tenant s ls s' : sendInv tenant s → sendRun tenant s ls s' → sendInv tenant s'.
Proof. intros Hi Hr. induction Hr; [done|]. eauto using sendStep_inv. Qed.

Lemma sendReach_inv tenant s : sendReach tenant s → sendInv tenant s.
Proof.
  intros [ls Hr]. eapply sendRun_inv; [|exact Hr]. split; [apply reachable_inv, reach_new|].
  split; cbn; intros *; by rewrite lookup_empty.
Qed.

(** ** The state machine *)

(** A change along the state machine of the design. *)
Inductive designChange (op : qop) (d d' : Delivery) : Prop :=
  | dc_same : d_Status d' = d_Status d → designChange op d d'
  | dc_edge : edge (d_Status d) (d_Status d') → designChange op d d'
  | dc_retry f limit :
      op = QRequeue f limit → d_Status d' = DeliveryQueued →
      d_RetryGen d' = int64 (d_RetryGen d + 1) → d_AttemptCount d' = d_AttemptCount d →
      designChange op d d'.

Lemma sendStep_row tenant s env op s' id d' :
  sendInv tenant s → sendStep tenant s (Some (env, op)) s' → deliveries (ss_td s') !! id = Some d' →
  (∃ d, deliveries (ss_td s) !! id = Some d ∧ (d' = d ∨ rowChange op d d') ∧ designChange op d d') ∨
  (deliveries (ss_td s) !! id = None ∧ ∃ ds j d, op = QInsert ds ∧ d ∈ ds ∧ d' = insertedRow env j d).
Proof.
  intros [Hq [Hw Hs]] Hst Hd'. destruct (sendStep_call _ _ _ _ _ Hst) as (<-&Hlaw&Htd). rewrite Htd in Hd'.
  destruct (runOp_row _ _ _ _ _ Hq Hlaw Hd') as [(d&Hd&[->|(Hch&_&Hsc)])|?]; [|left; exists d|by right].
  { left. exists d. split_and!; [done|by left|by apply dc_same]. }
  split_and!; [done|by right|].
  destruct Hsc as [?|?|f limit ? ? ? ?|rs res -> Hin Hid Ho Hne Hds _ Hns]; [by apply dc_same|by apply dc_edge|by eapply dc_retry|].
  exfalso. inversion Hst; subst; [|done]. match goal with H : Forall (ofJob _) _ |- _ => rewrite Forall_forall in H; destruct (H res Hin) as (_&ph&Hph&Hm) end.
  destruct ph; [|by apply Hns, Hm]. destruct Hq as [Hok _]. rewrite Hid, (qo_id _ _ Hok _ _ Hd), Ho in Hph. by eapply Hs.
Qed.

(** C16 (store/deliveries): the queue implements the delivery state machine.
    Whatever calls its users make in whatever order, a row's status stays,
    moves along an edge of the machine (pending, queued and deferred rows are
    claimed or cancelled; a leased row becomes sent, failed, deferred, queued
    or suppressed; a sent row bounces or draws a complaint), or is reset by a
    manual retry, which counts a new retry generation and keeps the attempt
    count; or it leaves the machine in the one way the queue does not prevent:
    the owner of a row it has marked sent completes it with another result.
    In the runs of workers that take no row again while a job of their own on
    it is open, that does not happen either.  New rows start pending or
    queued. *)
Theorem queue_refines_state_machine tenant :
  (∀ td env op id d', reachable tenant td → e_tenant env = tenant → lawful env op td →
     deliveries (runOp env op td) !! id = Some d' →
     match deliveries td !! id with
     | Some d => statusChange op d d'
     | None => d_Status d' = DeliveryPending ∨ d_Status d' = DeliveryQueued
     end) ∧
  (∀ s env op s' id d', sendReach tenant s → sendStep tenant s (Some (env, op)) s' →
     deliveries (ss_td s') !! id = Some d' →
     match deliveries (ss_td s) !! id with
     | Some d => designChange op d d'
     | None => d_Status d' = DeliveryPending ∨ d_Status d' = DeliveryQueued
     end).
Proof.
  split; [intros td env op id d'; apply queue_changes|].
  intros s env op s' id d' Hr Hst Hd'. pose proof (sendReach_inv _ _ Hr) as Hi.
  destruct (sendStep_row _ _ _ _ _ _ _ Hi Hst Hd') as [(d&->&_&Hc)|(Hn&ds&j&d&->&Hin&->)]; [done|]. rewrite Hn.
  destruct (sendStep_call _ _ _ _ _ Hst) as (_&[_ Hlaw]&_). rewrite Forall_forall in Hlaw. destruct (Hlaw d Hin) as [Hs _].
  rewrite insertedRow_Status. rewrite !elem_of_cons, elem_of_nil in Hs. tauto.
Qed.

(** ** A sent delivery is never sent again *)

Definition delivered : list DeliveryStatus := [DeliverySent; DeliveryBounced; DeliveryComplained].

(** The step is no explicit decision to send delivery [id] anew: neither a
    retry whose filter admits delivered rows nor an insert reusing the ID. *)
Definition noRetry (id : string) (l : option (Env * qop)) : Prop :=
  match l with
  | Some (_, QRequeue f limit) => Forall (λ s, matchStatus (rf_Statuses f) s = false) delivered
  | Some (env, QInsert ds) => ∀ j d, d ∈ ds → d_ID (insertedRow env j d) ≠ id
  | _ => True
  end.

(** [id] is gone or still counts as delivered. *)
Definition settled (id : string) (td : tenantData) : Prop :=
  ∀ d, deliveries td !! id = Some d → d_Status d ∈ delivered.

Lemma edge_delivered s s' : edge s s' → s ∈ delivered → s' ∈ delivered.
Proof.
  unfold delivered. intros He Hdel. rewrite !elem_of_cons, elem_of_nil in Hdel |- *.
  inversion He as [x Hc Heq|x Hc Heq|Heq|Heq|x Hc Heq]; subst; auto; exfalso; try (destruct_or! Hdel; discriminate).
  all: unfold cancellable in Hc; rewrite !elem_of_cons, elem_of_nil in Hc; destruct_or! Hc; destruct_or! Hdel; congruence.
Qed.

Lemma settled_step tenant s l s' id :
  sendInv tenant s → sendStep tenant s l s' → noRetry id l → settled id (ss_td s) → settled id (ss_td s').
Proof.
  intros Hi Hst Hnr Hs d' Hd'. destruct l as [[env op]|]; [|inversion Hst; subst; by apply Hs].
  destruct (sendStep_row _ _ _ _ _ _ _ Hi Hst Hd') as [(d&Hd&Hch&Hdc)|(Hn&ds&j&d&->&Hin&->)].
  - pose proof (Hs d Hd) as Hdel. destruct Hdc as [He|He|f limit -> Hq _ _]; [by rewrite He|by eapply edge_delivered|].
    destruct Hch as [->|Hch]; [done|]. exfalso. cbn in Hnr. rewrite Forall_forall in Hnr. specialize (Hnr _ Hdel).
    inversion Hch as [| | | | | | |? ? ? Hm|]; subst. unfold requeueMatch in Hm. rewrite Hnr in Hm. by destruct (negb (strEq _ _) || _).
  - exfalso. apply (Hnr j d Hin). pose proof (sendStep_inv _ _ _ _ Hi Hst) as [[Hok _] _]. by apply (qo_id _ _ Hok _ _ Hd').
Qed.

Lemma settled_run tenant s ls s' id :
  sendInv tenant s → sendRun tenant s ls s' → Forall (noRetry id) ls → settled id (ss_td s) → settled id (ss_td s').
Proof.
  intros Hi Hr. induction Hr as [|s l s1 ls s2 Hst Hr IH]; [done|]. intros [Hn Hns]%Forall_cons Hs.
  apply IH; [by eapply sendStep_inv|done|by eapply settled_step].
Qed.

Lemma delivered_not_claimable req now d : d_Status d ∈ delivered → claimable req now d = false.
Proof.
  unfold delivered. rewrite !elem_of_cons, elem_of_nil. intros Hd. unfold claimable, claimableStatus.
  destruct_or! Hd; rewrite Hd; by destruct (negb _).
Qed.

Lemma MarkSent_settled env id w msg at_ td td' : MarkSent env id w msg at_ td = (inr tt, td') → settled id td'.
Proof.
  unfold MarkSent, checked, throw. destruct (e_closed env); [done|]. destruct (deliveries td !! id) as [d|]; [|done].
  destruct (_ || _); [done|]. intros [= <-] x. cbn. rewrite lookup_insert_eq. intros [= <-]. apply elem_of_cons. by left.
Qed.


(** ** An instance: a worker whose lease runs out while it sends *)

Definition sampleJob : sendState := mkSendState sampleLeased {[("w1", "d1") := Working]}.
Definition sampleMarked : sendState := mkSendState sampleSent {[("w1", "d1") := Marked]}.

Lemma sampleJob_run :
  sendRun "acme" (mkSendState newTenantData ∅) [Some (sampleEnv, QInsert [sampleDelivery]); Some (sampleEnv, QClaim sampleClaim)] sampleJob.
Proof.
  apply (srun_cons _ _ _ (mkSendState sampleInserted ∅)).
  { apply step_other; [done| |done]. split; [apply sampleInsert_fresh|]. apply Forall_singleton. split; [by_decide|done]. }
  apply (srun_cons _ _ _ sampleJob); [|apply srun_nil].
  assert (Hj : openJobs "w1" (claimed sampleEnv sampleClaim sampleInserted) ∅ = {[("w1", "d1") := Working]}) by (vm_compute; reflexivity).
  unfold sampleJob. rewrite <- Hj. apply (step_claim "acme" sampleEnv sampleClaim (mkSendState sampleInserted ∅)); [done|done|].
  intros x _. apply lookup_empty.
Qed.

Lemma sampleJob_reach : sendReach "acme" sampleJob.
Proof. eexists. apply sampleJob_run. Qed.

Lemma sampleMark_step : sendStep "acme" sampleJob (Some (sampleEnv, QMarkSent "d1" "w1" "<m@x>" (7 * Second))) sampleMarked.
Proof.
  pose proof (step_mark "acme" sampleEnv "w1" "d1" "<m@x>" (7 * Second) sampleJob eq_refl) as H. cbn [ss_td ss_jobs sampleJob] in H.
  rewrite sampleSent_eq in H. cbn [fst] in H. rewrite insert_singleton_eq in H. apply H. by apply lookup_singleton_eq.
Qed.

Lemma queue_refines_state_machine_witness :
  designChange (QMarkSent "d1" "w1" "<m@x>" (7 * Second)) sampleLeasedRow (default zero (deliveries sampleSent !! "d1")).
Proof.
  destruct (queue_refines_state_machine "acme") as [_ H].
  assert (Hd : ∃ d, deliveries (ss_td sampleMarked) !! "d1" = Some d) by (vm_compute; eauto). destruct Hd as [d Hd].
  pose proof (H sampleJob sampleEnv _ sampleMarked "d1" d sampleJob_reach sampleMark_step Hd) as Hc.
  cbn [ss_td sampleJob sampleMarked] in Hc, Hd. rewrite sampleLeased_d1 in Hc. by rewrite Hd.
Defined.


(** The run of [stale_completion_resends] is none of these: its second claim
    takes a row on which the worker's first job is still open. *)
Lemma stale_claim_refused tenant s env req s' x :
  sendStep tenant s (Some (env, QClaim req)) s' → x ∈ claimed env req (ss_td s) → ss_jobs s !! (cr_WorkerID req, d_ID x) = None.
Proof. inversion 1; subst; [auto|done]. Qed.
