(* ===== verification/Repos.v ===== *)
(** * The other repositories ([store/memstore/repos.go])

    Settings, mailbox health, campaign statistics, recipient chunks,
    suppressions, tracking, outbox, locks and workers, one definition per
    method, plus the calls of the configuration tables as the rest of the
    program sees them.  Every method is one atomic step on the tenant's data. *)

From S2P Require Import Prelude Enums Model MemTable MemData.

(** ** Tables inside the tenant's data *)

(** A method of a table on one of the maps of the tenant. *)
Definition zoom {T A} (l : lens tenantData (gmap string T)) (op : M (gmap string T) A)
    : M tenantData A := λ td,
  let '(r, rows) := op (lget l td) in (r, lset l rows td).

(** [Create] and [Update] write into the caller's struct: the call returns it. *)
Definition zoomWith {T} (l : lens tenantData (gmap string T)) (op : M (T * gmap string T) unit) (v : T)
    : M tenantData T := λ td,
  match op (v, lget l td) with
  | (inl e, (_, rows)) => (inl e, lset l rows td)
  | (inr _, (v', rows)) => (inr v', lset l rows td)
  end.

Definition GetCampaign (env : Env) (id : string) : M tenantData Campaign :=
  zoom (field campaigns) (Get env id).
Definition CreateCampaign (env : Env) (c : Campaign) : M tenantData Campaign :=
  zoomWith (field campaigns) (Create campaignMeta env) c.
Definition UpdateCampaign (env : Env) (c : Campaign) : M tenantData Campaign :=
  zoomWith (field campaigns) (Update campaignMeta env) c.
Definition GetTemplate (env : Env) (id : string) : M tenantData Template :=
  zoom (field templates) (Get env id).
Definition GetTemplateByKey (env : Env) (key : string) : M tenantData Template :=
  zoom (field templates) (getByKey templateMeta env key).
Definition GetLayoutByKey (env : Env) (key : string) : M tenantData Layout :=
  zoom (field layouts) (getByKey layoutMeta env key).
Definition GetVersion (env : Env) (id : string) : M tenantData MessageVersion :=
  zoom (field versions) (Get env id).
Definition GetTransport (env : Env) (id : string) : M tenantData Transport :=
  zoom (field transports) (Get env id).
Definition UpdateTransport (env : Env) (t : Transport) : M tenantData Transport :=
  zoomWith (field transports) (Update transportMeta env) t.
Definition GetSender (env : Env) (id : string) : M tenantData Sender :=
  zoom (field senders) (Get env id).
Definition CreateBounce (env : Env) (b : BounceEvent) : M tenantData BounceEvent :=
  zoomWith (field bounces) (Create bounceMeta env) b.

(** ** Tenant settings *)

Definition SettingsGet (env : Env) : M tenantData TenantSettings :=
  checked env (λ td,
    match settings td with
    | None => (inl ErrNotFound, td)
    | Some s => (inr s, td)
    end).

Definition truncateSettings (v : TenantSettings) : TenantSettings :=
  v <| ts_CreatedAt := TruncateTime (ts_CreatedAt v) |>
    <| ts_UpdatedAt := TruncateTime (ts_UpdatedAt v) |>.

Definition SettingsCreate (env : Env) (v : TenantSettings) : M tenantData TenantSettings :=
  checked env (λ td,
    match settings td with
    | Some _ => (inl ErrConflict, td)
    | None =>
        let v := v <| ts_TenantID := e_tenant env |> in
        let v := if IsZero (ts_CreatedAt v) then v <| ts_CreatedAt := now env |> else v in
        let v := v <| ts_UpdatedAt := now env |> in
        let v := v <| ts_Version := 1 |> in
        (inr v, td <| settings := Some (truncateSettings v) |>)
    end).

Definition SettingsUpdate (env : Env) (v : TenantSettings) : M tenantData TenantSettings :=
  checked env (λ td,
    match settings td with
    | None => (inl ErrNotFound, td)
    | Some cur =>
        if negb (ts_Version cur =? ts_Version v) then (inl ErrConflict, td)
        else
          let v := v <| ts_TenantID := e_tenant env |>
                     <| ts_CreatedAt := ts_CreatedAt cur |>
                     <| ts_UpdatedAt := now env |>
                     <| ts_Version := int64 (ts_Version cur + 1) |> in
          (inr v, td <| settings := Some (truncateSettings v) |>)
    end).

(** ** Mailboxes, versions, probe runs, campaigns *)

Definition ListByTemplate (env : Env) (templateID : string) (p : Page)
    : M tenantData (Result MessageVersion) :=
  zoom (field versions) (listWhere env p (λ v, strEq (mv_TemplateID v) templateID)).

Definition ListEnabled (env : Env) : M tenantData (list BounceMailbox) :=
  checked env (λ td,
    (inr (omap (λ id, bounceMailboxes td !! id) (selectIDs (λ _ m, bm_Enabled m) (bounceMailboxes td))), td)).

Definition truncateHealth (h : MailboxHealth) : MailboxHealth :=
  h <| mh_CheckedAt := TruncateTime (mh_CheckedAt h) |>
    <| mh_LastOKAt := TruncateTime (mh_LastOKAt h) |>.

Definition BounceMailboxUpdateHealth (env : Env) (id : string) (h : MailboxHealth) : M tenantData unit :=
  checked env (λ td,
    match bounceMailboxes td !! id with
    | None => (inl ErrNotFound, td)
    | Some m => (inr tt, td <| bounceMailboxes :=
                   <[id := m <| bm_Health := truncateHealth h |>]> (bounceMailboxes td) |>)
    end).

Definition ProbeMailboxUpdateHealth (env : Env) (id : string) (h : MailboxHealth) : M tenantData unit :=
  checked env (λ td,
    match probeMailboxes td !! id with
    | None => (inl ErrNotFound, td)
    | Some m => (inr tt, td <| probeMailboxes :=
                   <[id := m <| pm_Health := truncateHealth h |>]> (probeMailboxes td) |>)
    end).

Definition ListBySender (env : Env) (senderID : string) (p : Page) : M tenantData (Result ProbeRun) :=
  zoom (field probeRuns) (listWhere env p (λ v, strEq (pr_SenderID v) senderID)).

Definition ListPending (env : Env) (p : Page) : M tenantData (Result ProbeRun) :=
  zoom (field probeRuns) (listWhere env p pr_Pending).

Definition ListByStatus (env : Env) (statuses : list CampaignStatus) (p : Page)
    : M tenantData (Result Campaign) :=
  zoom (field campaigns) (listWhere env p (λ c, contains statuses (c_Status c))).

Definition UpdateStats (env : Env) (campaignID : string) (s : CampaignStats) : M tenantData unit :=
  checked env (λ td,
    match campaigns td !! campaignID with
    | None => (inl ErrNotFound, td)
    | Some c =>
        let c := c <| c_Stats := s |> <| c_UpdatedAt := now env |> in
        (inr tt, td <| campaigns := <[campaignID := c]> (campaigns td) |>)
    end).

(** ** Recipient chunks *)

Definition chunkKey (campaignID key : string) : string :=
  campaignID +:+ String (Ascii.ascii_of_nat 0) key.

Definition ChunkGet (env : Env) (campaignID key : string) : M tenantData RecipientChunk :=
  checked env (λ td,
    match chunks td !! chunkKey campaignID key with
    | None => (inl ErrNotFound, td)
    | Some c => (inr c, td)
    end).

(** [c] is not nil; the method returns the caller's struct it wrote into. *)
Definition ChunkPut (env : Env) (c : RecipientChunk) : M tenantData RecipientChunk := λ td,
  if strEq (rc_CampaignID c) "" || strEq (rc_Key c) "" then (inl ErrInvalid, td)
  else checked env (λ td,
    let c := c <| rc_TenantID := e_tenant env |> in
    let k := chunkKey (rc_CampaignID c) (rc_Key c) in
    let c := match chunks td !! k with
             | Some prev => c <| rc_CreatedAt := rc_CreatedAt prev |>
             | None => if IsZero (rc_CreatedAt c) then c <| rc_CreatedAt := now env |> else c
             end in
    let c := c <| rc_UpdatedAt := now env |> in
    let cp := c <| rc_CreatedAt := TruncateTime (rc_CreatedAt c) |>
                <| rc_UpdatedAt := TruncateTime (rc_UpdatedAt c) |> in
    (inr c, td <| chunks := <[k := cp]> (chunks td) |>)) td.

(** ** Suppressions *)

Definition Upsert (env : Env) (v : Suppression) : M tenantData Suppression := λ td,
  if strEq (sp_EmailNorm v) "" then (inl ErrInvalid, td)
  else checked env (λ td,
    let v := v <| sp_TenantID := e_tenant env |> in
    let v := if IsZero (sp_CreatedAt v) then v <| sp_CreatedAt := now env |> else v in
    let cp := v <| sp_CreatedAt := TruncateTime (sp_CreatedAt v) |>
                <| sp_ExpiresAt := TruncateTime (sp_ExpiresAt v) |> in
    (inr v, td <| suppressions := <[sp_EmailNorm v := cp]> (suppressions td) |>)) td.

Definition IsSuppressed (env : Env) (emailNorm : string) (at_ : Time)
    : M tenantData (bool * option Suppression) :=
  checked env (λ td,
    match suppressions td !! emailNorm with
    | None => (inr (false, None), td)
    | Some v =>
        if negb (IsZero (sp_ExpiresAt v)) && negb (After (sp_ExpiresAt v) (TruncateTime at_))
        then (inr (false, Some v), td)
        else (inr (true, Some v), td)
    end).

Definition SuppressionList (env : Env) (p : Page) : M tenantData (Result Suppression) :=
  checked env (λ td, (inr (paginate (suppressions td) p (λ _, true)), td)).

Definition SuppressionDeleteBefore (env : Env) (before : Time) (limit : Z) : M tenantData Z :=
  checked env (λ td,
    let before := TruncateTime before in
    let keys := capTo limit
      (selectIDs (λ _ v, negb (IsZero (sp_ExpiresAt v) || After (sp_ExpiresAt v) before))
                 (suppressions td)) in
    (inr (len keys), td <| suppressions := deleteAll keys (suppressions td) |>)).

Definition SuppressionDelete (env : Env) (emailNorm : string) : M tenantData unit :=
  checked env (λ td,
    match suppressions td !! emailNorm with
    | None => (inl ErrNotFound, td)
    | Some _ => (inr tt, td <| suppressions := delete emailNorm (suppressions td) |>)
    end).

(** ** Bounces *)

Definition ListByDelivery (env : Env) (deliveryID : string) (p : Page) : M tenantData (Result BounceEvent) :=
  zoom (field bounces) (listWhere env p (λ b, strEq (b_DeliveryID b) deliveryID)).

Definition BounceDeleteBefore (env : Env) (before : Time) (limit : Z) : M tenantData Z :=
  checked env (λ td,
    let '(n, rows) := deleteBefore (bounces td) (TruncateTime before) limit b_CreatedAt (λ _, true) in
    (inr n, td <| bounces := rows |>)).

(** ** Tracking *)

Definition insertEvent (env : Env) (i : nat) (e : TrackingEvent) (td : tenantData) : tenantData :=
  let e := if strEq (te_ID e) "" then e <| te_ID := e_newID env i |> else e in
  let e := e <| te_TenantID := e_tenant env |> in
  let e := if IsZero (te_CreatedAt e) then e <| te_CreatedAt := now env |> else e in
  let e := e <| te_CreatedAt := TruncateTime (te_CreatedAt e) |> in
  td <| tracking := <[te_ID e := e]> (tracking td) |>.

Fixpoint insertEvents (env : Env) (i : nat) (evs : list TrackingEvent) (td : tenantData) : tenantData :=
  match evs with
  | [] => td
  | e :: evs' => insertEvents env (S i) evs' (insertEvent env i e td)
  end.

Definition InsertEvents (env : Env) (evs : list TrackingEvent) : M tenantData unit :=
  checked env (λ td, (inr tt, insertEvents env 0 evs td)).

(** [seen[kind][delivery] = true]; the two-level map is one set per kind. *)
Definition seeOne (campaignID : string) (e : TrackingEvent)
    (seen : gmap TrackingKind (gset string)) : gmap TrackingKind (gset string) :=
  if negb (strEq (te_CampaignID e) campaignID) || te_SuspectedBot e then seen
  else <[te_Kind e := {[te_DeliveryID e]} ∪ default ∅ (seen !! te_Kind e)]> seen.

Definition seenCount (seen : gmap TrackingKind (gset string)) (k : TrackingKind) : Z :=
  Z.of_nat (size (default ∅ (seen !! k))).

Definition CountUnique (env : Env) (campaignID : string) : M tenantData TrackingCounts :=
  checked env (λ td,
    let seen := foldr (seeOne campaignID) ∅ (map_to_list (tracking td)).*2 in
    (inr (mkTrackingCounts (seenCount seen TrackingOpen) (seenCount seen TrackingClick)
            (seenCount seen TrackingUnsubscribeClicked) (seenCount seen TrackingUnsubscribed)), td)).

Record linkAgg := mkLinkAgg { ag_linkNo : Z; ag_clicks : Z; ag_uniq : gset string }.

Definition clickOne (campaignID : string) (e : TrackingEvent) (byURL : gmap string linkAgg)
    : gmap string linkAgg :=
  if negb (strEq (te_CampaignID e) campaignID) || negb (bool_decide (te_Kind e = TrackingClick)) ||
     te_SuspectedBot e
  then byURL
  else
    let a := default (mkLinkAgg (te_LinkNo e) 0 ∅) (byURL !! te_URL e) in
    let no := if te_LinkNo e <? ag_linkNo a then te_LinkNo e else ag_linkNo a in
    <[te_URL e := mkLinkAgg no (int64 (ag_clicks a + 1)) ({[te_DeliveryID e]} ∪ ag_uniq a)]> byURL.

Definition linkClickLe (a b : LinkClick) : Prop :=
  (if negb (lc_LinkNo b =? lc_LinkNo a) then lc_LinkNo b <? lc_LinkNo a
   else strLt (lc_URL b) (lc_URL a)) = false.
#[global] Instance linkClickLe_dec : RelDecision linkClickLe.
Proof. intros a b. unfold linkClickLe. apply _. Defined.

Definition LinkClicks (env : Env) (campaignID : string) : M tenantData (list LinkClick) :=
  checked env (λ td,
    let byURL := foldr (clickOne campaignID) ∅ (map_to_list (tracking td)).*2 in
    let out := (λ ua : string * linkAgg,
      mkLinkClick (ag_linkNo ua.2) ua.1 (ag_clicks ua.2) (Z.of_nat (size (ag_uniq ua.2)))) <$> map_to_list byURL in
    (inr (merge_sort linkClickLe out), td)).

Definition TrackingDeleteBefore (env : Env) (before : Time) (limit : Z) : M tenantData Z :=
  checked env (λ td,
    let '(n, rows) := deleteBefore (tracking td) (TruncateTime before) limit te_CreatedAt (λ _, true) in
    (inr n, td <| tracking := rows |>)).

(** ** Outbox *)

Definition OutboxPending : string := "pending".
Definition OutboxDelivered : string := "delivered".
Definition OutboxFailed : string := "failed".

Definition stampEvent (env : Env) (i : nat) (e : OutboxEvent) : OutboxEvent :=
  let e := if strEq (o_ID e) "" then e <| o_ID := e_newID env i |> else e in
  let e := e <| o_TenantID := e_tenant env |> <| o_Status := OutboxPending |> in
  let e := if IsZero (o_CreatedAt e) then e <| o_CreatedAt := now env |> else e in
  let e := if IsZero (o_NextAttemptAt e) then e <| o_NextAttemptAt := o_CreatedAt e |> else e in
  e <| o_CreatedAt := TruncateTime (o_CreatedAt e) |>
    <| o_NextAttemptAt := TruncateTime (o_NextAttemptAt e) |>
    <| o_LeaseUntil := TruncateTime (o_LeaseUntil e) |>
    <| o_DeliveredAt := TruncateTime (o_DeliveredAt e) |>.

Fixpoint enqueueLoop (env : Env) (i : nat) (evs : list OutboxEvent) (td : tenantData) : tenantData :=
  match evs with
  | [] => td
  | e :: evs' =>
      let e := stampEvent env i e in
      enqueueLoop env (S i) evs' (td <| outbox := <[o_ID e := e]> (outbox td) |>)
  end.

Definition Enqueue (env : Env) (evs : list OutboxEvent) : M tenantData unit :=
  checked env (λ td, (inr tt, enqueueLoop env 0 evs td)).

Definition outboxDue (now : Time) (e : OutboxEvent) : bool :=
  negb (negb (strEq (o_Status e) OutboxPending) || After (o_NextAttemptAt e) now) &&
  negb (negb (strEq (o_LeaseOwner e) "") && After (o_LeaseUntil e) now).

Definition leaseEvent (owner : string) (until : Time) (e : OutboxEvent) : OutboxEvent :=
  e <| o_LeaseOwner := owner |> <| o_LeaseUntil := until |>.

Definition ClaimPending (env : Env) (limit : Z) (lease : Duration) (owner : string) (at_ : Time)
    : M tenantData (list OutboxEvent) :=
  checked env (λ td,
    let now := TruncateTime at_ in
    let ids := capTo limit (selectIDs (λ _ e, outboxDue now e) (outbox td)) in
    let f := leaseEvent owner (TruncateTime (addTime now lease)) in
    (inr (omap (λ id, f <$> outbox td !! id) ids),
     td <| outbox := alterAll f ids (outbox td) |>)).

Definition OutboxGet (env : Env) (id : string) : M tenantData OutboxEvent :=
  checked env (λ td,
    match outbox td !! id with
    | None => (inl ErrNotFound, td)
    | Some e => (inr e, td)
    end).

(** The three verbs that end a dispatch attempt mutate the stored event. *)
Definition onEvent (env : Env) (id : string) (f : OutboxEvent → OutboxEvent) : M tenantData unit :=
  checked env (λ td,
    match outbox td !! id with
    | None => (inl ErrNotFound, td)
    | Some e => (inr tt, td <| outbox := <[id := f e]> (outbox td) |>)
    end).

Definition resetEvent (at_ : Time) (e : OutboxEvent) : OutboxEvent :=
  e <| o_Status := OutboxPending |> <| o_Attempts := 0 |> <| o_LastError := "" |>
    <| o_NextAttemptAt := TruncateTime at_ |>
    <| o_LeaseOwner := "" |> <| o_LeaseUntil := zeroTime |> <| o_DeliveredAt := zeroTime |>.

Definition Reset (env : Env) (id : string) (at_ : Time) : M tenantData unit :=
  onEvent env id (resetEvent at_).

Definition deliveredEvent (at_ : Time) (e : OutboxEvent) : OutboxEvent :=
  e <| o_Status := OutboxDelivered |> <| o_DeliveredAt := TruncateTime at_ |>
    <| o_LeaseOwner := "" |> <| o_LeaseUntil := zeroTime |>.

Definition MarkDelivered (env : Env) (id : string) (at_ : Time) : M tenantData unit :=
  onEvent env id (deliveredEvent at_).

Definition failedEvent (nextAttempt : Time) (errMsg : string) (e : OutboxEvent) : OutboxEvent :=
  let e := e <| o_Attempts := int64 (o_Attempts e + 1) |> <| o_LastError := errMsg |>
             <| o_LeaseOwner := "" |> <| o_LeaseUntil := zeroTime |> in
  if IsZero nextAttempt then e <| o_Status := OutboxFailed |>
  else e <| o_Status := OutboxPending |> <| o_NextAttemptAt := TruncateTime nextAttempt |>.

Definition MarkFailed (env : Env) (id : string) (nextAttempt : Time) (errMsg : string) : M tenantData unit :=
  onEvent env id (failedEvent nextAttempt errMsg).

Definition OutboxList (env : Env) (status : string) (p : Page) : M tenantData (Result OutboxEvent) :=
  checked env (λ td,
    (inr (paginate (outbox td) p (λ e, strEq status "" || strEq (o_Status e) status)), td)).

Definition OutboxDeleteBefore (env : Env) (before : Time) (limit : Z) : M tenantData Z :=
  checked env (λ td,
    let '(n, rows) := deleteBefore (outbox td) (TruncateTime before) limit o_CreatedAt
      (λ e, strEq (o_Status e) OutboxDelivered || strEq (o_Status e) OutboxFailed) in
    (inr n, td <| outbox := rows |>)).

(** ** Locks *)

Definition Acquire (env : Env) (name owner : string) (ttl : Duration) (at_ : Time) : M tenantData bool :=
  checked env (λ td,
    let now := TruncateTime at_ in
    let cur := locks td !! name in
    if match cur with
       | Some c => negb (strEq (lk_Owner c) owner) && After (lk_ExpiresAt c) now
       | None => false end
    then (inr false, td)
    else
      let l := mkLock (e_tenant env) name owner now (TruncateTime (addTime now ttl)) in
      let l := match cur with
               | Some c => if strEq (lk_Owner c) owner then l <| lk_AcquiredAt := lk_AcquiredAt c |> else l
               | None => l end in
      (inr true, td <| locks := <[name := l]> (locks td) |>)).

Definition Renew (env : Env) (name owner : string) (ttl : Duration) (at_ : Time) : M tenantData bool :=
  checked env (λ td,
    let now := TruncateTime at_ in
    match locks td !! name with
    | Some cur =>
        if negb (strEq (lk_Owner cur) owner) || negb (After (lk_ExpiresAt cur) now)
        then (inr false, td)
        else
          let cur := cur <| lk_ExpiresAt := TruncateTime (addTime now ttl) |> in
          (inr true, td <| locks := <[name := cur]> (locks td) |>)
    | None => (inr false, td)
    end).

Definition Release (env : Env) (name owner : string) : M tenantData unit :=
  checked env (λ td,
    match locks td !! name with
    | Some cur =>
        if strEq (lk_Owner cur) owner
        then (inr tt, td <| locks := delete name (locks td) |>) else (inr tt, td)
    | None => (inr tt, td)
    end).

Definition LockGet (env : Env) (name : string) : M tenantData Lock :=
  checked env (λ td,
    match locks td !! name with
    | None => (inl ErrNotFound, td)
    | Some l => (inr l, td)
    end).

(** ** Workers *)

Definition Heartbeat (env : Env) (w : Worker) : M tenantData unit := λ td,
  if strEq (w_ID w) "" then (inl ErrInvalid, td)
  else checked env (λ td,
    let w := w <| w_TenantID := e_tenant env |> in
    let w := if IsZero (w_LastSeenAt w) then w <| w_LastSeenAt := now env |> else w in
    let w := match workers td !! w_ID w with
             | Some prev => if IsZero (w_StartedAt w) then w <| w_StartedAt := w_StartedAt prev |> else w
             | None => if IsZero (w_StartedAt w) then w <| w_StartedAt := w_LastSeenAt w |> else w
             end in
    let w := w <| w_StartedAt := TruncateTime (w_StartedAt w) |>
               <| w_LastSeenAt := TruncateTime (w_LastSeenAt w) |> in
    (inr tt, td <| workers := <[w_ID w := w]> (workers td) |>)) td.

Definition workerLe (a b : Worker) : Prop := String.le (w_ID a) (w_ID b).
#[global] Instance workerLe_dec : RelDecision workerLe.
Proof. intros a b. unfold workerLe. apply _. Defined.

Definition ListActive (env : Env) (since : Time) : M tenantData (list Worker) :=
  checked env (λ td,
    let since := TruncateTime since in
    (inr (merge_sort workerLe
       (filter (λ w, Before (w_LastSeenAt w) since = false) (map_to_list (workers td)).*2)), td)).
