(* ===== verification/ReposProps.v ===== *)
(** * Properties of the repositories

    Mutual exclusion of the named locks, safety of suppressions under
    retention, the outbox's delivery guarantee, and exactness of the tracking
    counters. *)

From S2P Require Import Prelude Enums Model MemTable MemData Repos.

(** ** Locks *)

Inductive lockOp :=
  | LAcquire (name owner : string) (ttl : Duration) (at_ : Time)
  | LRenew (name owner : string) (ttl : Duration) (at_ : Time)
  | LRelease (name owner : string).

(** The answer (a release answers nothing) and the data after the call. *)
Definition runLock (env : Env) (op : lockOp) (td : tenantData) : option (error + bool) * tenantData :=
  match op with
  | LAcquire name owner ttl at_ => let '(r, td') := Acquire env name owner ttl at_ td in (Some r, td')
  | LRenew name owner ttl at_ => let '(r, td') := Renew env name owner ttl at_ td in (Some r, td')
  | LRelease name owner => (None, (Release env name owner td).2)
  end.

(** Another owner's call on the lock, made before [expires], or a call on
    another lock. *)
Definition foreign (name owner : string) (expires : Time) (op : lockOp) : Prop :=
  match op with
  | LAcquire n o _ at_ | LRenew n o _ at_ => n = name → o ≠ owner ∧ TruncateTime at_ < expires
  | LRelease n o => n = name → o ≠ owner
  end.

Definition onLock (name : string) (op : lockOp) : Prop :=
  match op with LAcquire n _ _ _ | LRenew n _ _ _ | LRelease n _ => n = name end.

(** A held lock survives a foreign call, which gets no lock. *)
Lemma foreign_step env op td name l :
  locks td !! name = Some l → foreign name (lk_Owner l) (lk_ExpiresAt l) op →
  locks (runLock env op td).2 !! name = Some l ∧
  (onLock name op → e_closed env = false →
     (runLock env op td).1 = None ∨ (runLock env op td).1 = Some (inr false)).
Proof.
  intros Hl Hf. destruct op as [n o ttl at_|n o ttl at_|n o]; cbn [runLock foreign onLock] in *.
  - unfold Acquire, checked, throw. destruct (e_closed env); [done|]. destruct (decide (n = name)) as [->|Hne].
    + destruct (Hf eq_refl) as [Ho Ht]. rewrite Hl. unfold strEq, After.
      rewrite bool_decide_eq_false_2 by done. rewrite (proj2 (Z.ltb_lt _ _)) by done. cbn. auto.
    + split; [|done]. destruct (match locks td !! n with Some _ => _ | None => _ end); [done|].
      destruct (locks td !! n); [destruct (strEq _ _)|]; cbn; by rewrite lookup_insert_ne.
  - unfold Renew, checked, throw. destruct (e_closed env); [done|]. destruct (decide (n = name)) as [->|Hne].
    + destruct (Hf eq_refl) as [Ho Ht]. rewrite Hl. unfold strEq.
      rewrite bool_decide_eq_false_2 by done. cbn. auto.
    + split; [|done]. destruct (locks td !! n) as [c|]; [|done].
      destruct (negb _ || _); [done|]. cbn. by rewrite lookup_insert_ne.
  - unfold Release, checked, throw. destruct (e_closed env); [split; auto|]. split; [|by auto].
    destruct (decide (n = name)) as [->|Hne].
    + rewrite Hl. unfold strEq. rewrite bool_decide_eq_false_2 by (intros Heq; by apply (Hf eq_refl)). done.
    + destruct (locks td !! n) as [c|]; [|done]. destruct (strEq _ _); [|done]. cbn.
      by rewrite lookup_delete_ne.
Qed.

Fixpoint runLocks (steps : list (Env * lockOp)) (td : tenantData) : list (option (error + bool)) * tenantData :=
  match steps with
  | [] => ([], td)
  | (env, op) :: steps' =>
      let '(r, td1) := runLock env op td in
      let '(rs, td2) := runLocks steps' td1 in (r :: rs, td2)
  end.

Lemma foreign_run steps td name l :
  locks td !! name = Some l →
  Forall (λ s, e_closed s.1 = false ∧ foreign name (lk_Owner l) (lk_ExpiresAt l) s.2) steps →
  locks (runLocks steps td).2 !! name = Some l ∧
  Forall2 (λ s r, onLock name s.2 → r ≠ Some (inr true)) steps (runLocks steps td).1.
Proof.
  revert td. induction steps as [|[env op] steps IH]; intros td Hl Hall; [by split|].
  inversion Hall as [|? ? [Hc Hf] Hall']; subst. simpl in Hc, Hf. cbn [runLocks].
  destruct (foreign_step env op td name l Hl Hf) as [Hl1 Hr].
  destruct (runLock env op td) as [r td1]. cbn [fst snd] in *.
  destruct (IH td1 Hl1 Hall') as [Hl2 Hrs].
  destruct (runLocks steps td1) as [rs td2]. cbn [fst snd] in *. split; [done|].
  constructor; [|done]. intros Hon. destruct (Hr Hon Hc) as [->| ->]; congruence.
Qed.

(** C8 (store/locks): named locks are mutually exclusive.  When a lock was
    granted to an owner for [ttl], then until that time is over no sequence of
    calls by other owners, and no call on other locks, takes it or is told it
    has it, and the owner can renew it; once the time is over, another owner
    gets the lock and the former owner's renewal is refused. *)
Theorem lock_mutual_exclusion env name owner ttl at_ td td1 steps :
  Acquire env name owner ttl at_ td = (inr true, td1) →
  let expires := TruncateTime (addTime (TruncateTime at_) ttl) in
  Forall (λ s, e_closed s.1 = false ∧ foreign name owner expires s.2) steps →
  let td2 := (runLocks steps td1).2 in
  Forall2 (λ s r, onLock name s.2 → r ≠ Some (inr true)) steps (runLocks steps td1).1 ∧
  (∀ env' ttl' at', e_closed env' = false → TruncateTime at' < expires →
     (Renew env' name owner ttl' at' td2).1 = inr true) ∧
  (∀ env' other ttl' at', e_closed env' = false → other ≠ owner → expires ≤ TruncateTime at' →
     let '(r, td3) := Acquire env' name other ttl' at' td2 in
     r = inr true ∧ ∀ ttl'' at'', (Renew env' name owner ttl'' at'' td3).1 = inr false).
Proof.
  intros Hacq expires Hall td2.
  assert (∃ l, locks td1 !! name = Some l ∧ lk_Owner l = owner ∧ lk_ExpiresAt l = expires)
    as (l&Hl&Ho&He).
  { unfold Acquire, checked, throw in Hacq. destruct (e_closed env); [done|].
    destruct (match locks td !! name with Some _ => _ | None => _ end); [done|].
    injection Hacq as <-. cbn. rewrite lookup_insert_eq. eexists. split; [done|].
    destruct (locks td !! name); [destruct (strEq _ _)|]; done. }
  rewrite <- Ho, <- He in Hall. destruct (foreign_run steps td1 name l Hl Hall) as [Hl2 Hrs].
  fold td2 in Hl2. split_and!; [done| |].
  - intros env' ttl' at' Hc Ht. unfold Renew, checked. rewrite Hc, Hl2. unfold strEq, After.
    rewrite bool_decide_eq_true_2 by done. rewrite (proj2 (Z.ltb_lt _ _)) by (by rewrite He). done.
  - intros env' other ttl' at' Hc Hne Ht. unfold Acquire, checked. rewrite Hc, Hl2. unfold strEq, After.
    rewrite bool_decide_eq_false_2 by congruence. rewrite (proj2 (Z.ltb_ge _ _)) by (by rewrite He).
    cbn. split; [done|]. intros ttl'' at''. unfold Renew, checked. rewrite Hc. cbn.
    rewrite lookup_insert_eq. unfold strEq. cbn. by rewrite bool_decide_eq_false_2.
Qed.

(** ** Suppressions *)

(** The answer a sender acts on. *)
Definition suppressed (td : tenantData) (emailNorm : string) (at_ : Time) : bool :=
  match suppressions td !! emailNorm with
  | Some v => IsZero (sp_ExpiresAt v) || (TruncateTime at_ <? sp_ExpiresAt v)
  | None => false
  end.

Lemma IsSuppressed_spec env emailNorm at_ td :
  e_closed env = false →
  IsSuppressed env emailNorm at_ td = (inr (suppressed td emailNorm at_, suppressions td !! emailNorm), td).
Proof.
  intros Hc. unfold IsSuppressed, suppressed, checked, After. rewrite Hc.
  destruct (suppressions td !! emailNorm) as [v|]; [|done].
  by destruct (IsZero _), (_ <? _).
Qed.

Definition verdict (r : error + bool * option Suppression) : option bool :=
  match r with inr (b, _) => Some b | inl _ => None end.

(** An address stays suppressed as long as the entry
    says.  After [Upsert] the address is suppressed at every time before the
    entry expires, for ever if it has no expiry, and at no time from then on;
    and retention never lifts a suppression: deleting entries expired before a
    cutoff changes no answer at or after the cutoff. *)
Theorem suppression_upheld env v td v' td1 env' :
  Upsert env v td = (inr v', td1) → e_closed env' = false →
  (∀ at_, (IsSuppressed env' (sp_EmailNorm v) at_ td1).1 =
     inr (IsZero (TruncateTime (sp_ExpiresAt v)) || (TruncateTime at_ <? TruncateTime (sp_ExpiresAt v)),
          suppressions td1 !! sp_EmailNorm v)) ∧
  (∀ before limit n td2, SuppressionDeleteBefore env' before limit td1 = (inr n, td2) →
     ∀ emailNorm at_, before ≤ at_ →
       verdict (IsSuppressed env' emailNorm at_ td2).1 = verdict (IsSuppressed env' emailNorm at_ td1).1).
Proof.
  intros Hup Hc. split.
  - intros at_. rewrite IsSuppressed_spec by done. cbn. do 2 f_equal.
    unfold Upsert, checked, throw in Hup. destruct (strEq _ _); [done|]. destruct (e_closed env); [done|].
    injection Hup as <- <-. unfold suppressed. destruct (IsZero (sp_CreatedAt _)); cbn -[TruncateTime];
      by rewrite lookup_insert_eq.
  - intros before limit n td2 Hdel emailNorm at_ Hle. rewrite !IsSuppressed_spec by done. cbn. f_equal.
    unfold SuppressionDeleteBefore, checked in Hdel. rewrite Hc in Hdel. injection Hdel as _ <-.
    unfold suppressed. cbn. rewrite deleteAll_lookup. case_decide as Hin; [|done].
    apply elem_of_capTo, elem_of_selectIDs in Hin as (s&Hs&Hex). rewrite Hs. unfold After in Hex.
    apply TruncateTime_mono in Hle. to_prop. symmetry. apply orb_false_iff.
    split; [by apply Z.eqb_neq|apply Z.ltb_ge; lia].
Qed.

(** ** Outbox *)

Inductive outboxOp :=
  | OEnqueue (evs : list OutboxEvent)
  | OClaim (limit : Z) (lease : Duration) (owner : string) (at_ : Time)
  | ODelivered (id : string) (at_ : Time)
  | OFailed (id : string) (nextAttempt : Time) (errMsg : string)
  | OReset (id : string) (at_ : Time)
  | ODeleteBefore (before : Time) (limit : Z).

Definition runOutbox (env : Env) (op : outboxOp) (td : tenantData) : tenantData :=
  match op with
  | OEnqueue evs => (Enqueue env evs td).2
  | OClaim limit lease owner at_ => (ClaimPending env limit lease owner at_ td).2
  | ODelivered id at_ => (MarkDelivered env id at_ td).2
  | OFailed id next msg => (MarkFailed env id next msg td).2
  | OReset id at_ => (Reset env id at_ td).2
  | ODeleteBefore before limit => (OutboxDeleteBefore env before limit td).2
  end.

(** The two calls that settle event [id]: handed over, or given up. *)
Definition settles (id : string) (op : outboxOp) : Prop :=
  match op with
  | ODelivered i _ => i = id
  | OFailed i next _ => i = id ∧ next = 0
  | _ => False
  end.

Definition owed (id : string) (td : tenantData) : Prop :=
  ∃ e, outbox td !! id = Some e ∧ o_Status e = OutboxPending.

Lemma stampEvent_Status env i e : o_Status (stampEvent env i e) = OutboxPending.
Proof. unfold stampEvent. by destruct (strEq _ _), (IsZero (o_CreatedAt _)), (IsZero (o_NextAttemptAt _)). Qed.

Lemma enqueueLoop_owed env i evs td id : owed id td → owed id (enqueueLoop env i evs td).
Proof.
  revert i td. induction evs as [|e evs IH]; intros i td Ho; [done|]. cbn [enqueueLoop]. apply IH.
  destruct Ho as (x&Hx&Hs). unfold owed. cbn.
  destruct (decide (o_ID (stampEvent env i e) = id)) as [<-|Hne].
  - exists (stampEvent env i e). by rewrite lookup_insert_eq, stampEvent_Status.
  - exists x. by rewrite lookup_insert_ne.
Qed.

Lemma enqueueLoop_enqueues env k evs td i e :
  evs !! i = Some e → owed (o_ID (stampEvent env (k + i) e)) (enqueueLoop env k evs td).
Proof.
  revert td i k. induction evs as [|e' evs IH]; intros td [|i] k Hi; try done; cbn [enqueueLoop].
  - injection Hi as ->. apply enqueueLoop_owed. rewrite Nat.add_0_r.
    exists (stampEvent env k e). cbn -[stampEvent]. by rewrite lookup_insert_eq, stampEvent_Status.
  - replace (k + S i)%nat with (S k + i)%nat by lia. by apply IH.
Qed.

Lemma onEvent_owed env i f td id :
  (∀ e, i = id → o_Status e = OutboxPending → o_Status (f e) = OutboxPending) →
  owed id td → owed id (onEvent env i f td).2.
Proof.
  intros Hf (x&Hx&Hs). unfold onEvent, checked, throw. destruct (e_closed env); [by exists x|].
  destruct (outbox td !! i) as [e|] eqn:He; [|by exists x]. unfold owed. cbn.
  destruct (decide (i = id)) as [->|Hne].
  - exists (f e). rewrite lookup_insert_eq. simplify_eq. auto.
  - exists x. by rewrite lookup_insert_ne.
Qed.

Lemma owed_step env op td id : ¬ settles id op → owed id td → owed id (runOutbox env op td).
Proof.
  intros Hn Ho. destruct op as [evs|limit lease owner at_|i at_|i next msg|i at_|before limit]; cbn [runOutbox].
  - unfold Enqueue, checked, throw. destruct (e_closed env); [done|]. by apply enqueueLoop_owed.
  - unfold ClaimPending, checked, throw. destruct (e_closed env); [done|].
    destruct Ho as (x&Hx&Hs). unfold owed. cbn.
    rewrite alterAll_lookup by (by apply NoDup_capTo, NoDup_selectIDs). rewrite Hx.
    case_decide; cbn; eauto.
  - apply onEvent_owed; [|done]. intros e -> _. by destruct Hn.
  - apply onEvent_owed; [|done]. intros e -> Hs. unfold failedEvent, IsZero.
    destruct (next =? 0) eqn:E; [|done]. to_prop. by destruct Hn.
  - by apply onEvent_owed.
  - unfold OutboxDeleteBefore, checked, throw. destruct (e_closed env); [done|].
    destruct Ho as (x&Hx&Hs). exists x. split; [|done]. cbn. rewrite deleteAll_lookup.
    case_decide as Hin; [|done].
    apply elem_of_capTo, elem_of_selectIDs in Hin as (y&Hy&Hsel). simplify_eq.
    rewrite Hs in Hsel. by rewrite andb_false_r in Hsel.
Qed.

(** No event is lost.  Once enqueued, an event stays pending
    in the outbox, hence claimable again, through any sequence of enqueues,
    claims by any dispatchers, retries, replays and retention runs, until it
    is marked delivered or given up as a dead letter. *)
Theorem outbox_never_loses_event env evs td e i steps :
  e_closed env = false → evs !! i = Some e →
  let id := o_ID (stampEvent env i e) in
  Forall (λ s, ¬ settles id s.2) steps →
  owed id (foldl (λ td s, runOutbox s.1 s.2 td) (Enqueue env evs td).2 steps).
Proof.
  intros Hc Hi id Hall.
  assert (Hq : owed id (Enqueue env evs td).2).
  { unfold Enqueue, checked. rewrite Hc. by apply (enqueueLoop_enqueues env 0 evs td i e). }
  revert Hq. generalize (Enqueue env evs td).2 as t.
  induction Hall as [|[env' op] steps Hs _ IH]; intros t Ht; [done|]. cbn [foldl].
  apply IH. by apply owed_step.
Qed.

Lemma ClaimPending_inv env limit lease owner at_ td l td' :
  ClaimPending env limit lease owner at_ td = (inr l, td') →
  let ids := capTo limit (selectIDs (λ _ e, outboxDue (TruncateTime at_) e) (outbox td)) in
  (∀ id, outbox td' !! id =
     if decide (id ∈ ids)
     then leaseEvent owner (TruncateTime (addTime (TruncateTime at_) lease)) <$> outbox td !! id
     else outbox td !! id) ∧
  (∀ y, y ∈ l → ∃ id x, id ∈ ids ∧ outbox td !! id = Some x ∧ outboxDue (TruncateTime at_) x = true ∧
     y = leaseEvent owner (TruncateTime (addTime (TruncateTime at_) lease)) x).
Proof.
  unfold ClaimPending, checked, throw. destruct (e_closed env); [done|]. intros [= <- <-]. split.
  - intros id. cbn. by rewrite alterAll_lookup by (by apply NoDup_capTo, NoDup_selectIDs).
  - intros y Hy. apply list_elem_of_omap in Hy as (id&Hid&Hy).
    pose proof Hid as Hin. apply elem_of_capTo, elem_of_selectIDs in Hin as (x&Hx&Hd).
    exists id, x. rewrite Hx in Hy. cbn in Hy. by simplify_eq.
Qed.

(** Two dispatchers never hold the same event.  An event
    leased by a claim is not returned by any claim before the lease ends. *)
Theorem outbox_claims_disjoint env1 env2 limit1 limit2 lease1 lease2 o1 o2 t1 t2 td l1 td1 l2 td2 :
  (∀ id e, outbox td !! id = Some e → o_ID e = id) → o1 ≠ "" →
  ClaimPending env1 limit1 lease1 o1 t1 td = (inr l1, td1) →
  ClaimPending env2 limit2 lease2 o2 t2 td1 = (inr l2, td2) →
  TruncateTime t2 < TruncateTime (addTime (TruncateTime t1) lease1) →
  ∀ e1 e2, e1 ∈ l1 → e2 ∈ l2 → o_ID e1 ≠ o_ID e2.
Proof.
  intros Hids Ho H1 H2 Ht e1 e2 He1 He2 Heq.
  apply ClaimPending_inv in H1 as [Hst1 H1]. apply ClaimPending_inv in H2 as [Hst2 H2].
  destruct (H1 e1 He1) as (id&x&Hin&Hx&_&->). destruct (H2 e2 He2) as (id'&y&_&Hy&Hdue&->).
  cbn in Heq. assert (Hy' : o_ID y = id').
  { rewrite Hst1 in Hy. destruct (decide (id' ∈ _)); [|eauto].
    apply fmap_Some in Hy as (z&Hz&->). cbn. eauto. }
  rewrite (Hids _ _ Hx), Hy' in Heq. subst id'.
  rewrite Hst1, decide_True, Hx in Hy by done. cbn in Hy. simplify_eq.
  unfold outboxDue, leaseEvent, strEq, After in Hdue. cbn in Hdue.
  rewrite (bool_decide_eq_false_2 (o1 = "")) in Hdue by done.
  rewrite (proj2 (Z.ltb_lt _ _) Ht) in Hdue. by rewrite andb_false_r in Hdue.
Qed.

(** ** Tracking counters *)

(** An interaction that counts: of the campaign, of the kind, not a bot. *)
Definition countsFor (campaignID : string) (k : TrackingKind) (e : TrackingEvent) : Prop :=
  te_CampaignID e = campaignID ∧ te_Kind e = k ∧ te_SuspectedBot e = false.

#[global] Instance countsFor_dec campaignID k e : Decision (countsFor campaignID k e).
Proof. unfold countsFor. apply _. Defined.

(** The deliveries with an interaction that counts. *)
Definition interacted (campaignID : string) (k : TrackingKind) (l : list TrackingEvent) : gset string :=
  list_to_set (te_DeliveryID <$> filter (countsFor campaignID k) l).

Lemma seeOne_fold campaignID l k :
  default ∅ (foldr (seeOne campaignID) ∅ l !! k) = interacted campaignID k l.
Proof.
  induction l as [|e l IH]; [by cbn; rewrite lookup_empty|]. cbn [foldr]. unfold seeOne at 1, interacted.
  rewrite filter_cons. unfold strEq. case_bool_decide as Hc; cbn [negb orb].
  - destruct (te_SuspectedBot e) eqn:Hb.
    + rewrite decide_False; [exact IH|]. intros (_&_&?). congruence.
    + destruct (decide (te_Kind e = k)) as [<-|Hne].
      * rewrite decide_True by done. rewrite lookup_insert_eq. cbn. by rewrite IH.
      * rewrite decide_False by (intros (_&?&_); done). rewrite lookup_insert_ne by done. exact IH.
  - rewrite decide_False; [exact IH|]. by intros (?&_).
Qed.

Lemma interacted_proper campaignID k l1 l2 :
  l1 ≡ₚ l2 → interacted campaignID k l1 = interacted campaignID k l2.
Proof. intros Hp. unfold interacted. apply list_to_set_perm_L. by rewrite Hp. Qed.

(** The engagement counters count deliveries, not events.
    Each counter is the number of distinct deliveries of the campaign with at
    least one human interaction of its kind, whatever the order the events
    were stored or are visited in; repeated events and suspected bots change
    nothing. *)
Theorem count_unique_exact env campaignID td c td' :
  CountUnique env campaignID td = (inr c, td') →
  td' = td ∧
  ∀ l, l ≡ₚ (map_to_list (tracking td)).*2 →
    tc_UniqueOpens c = Z.of_nat (size (interacted campaignID TrackingOpen l)) ∧
    tc_UniqueClicks c = Z.of_nat (size (interacted campaignID TrackingClick l)) ∧
    tc_UnsubscribeClicked c = Z.of_nat (size (interacted campaignID TrackingUnsubscribeClicked l)) ∧
    tc_Unsubscribed c = Z.of_nat (size (interacted campaignID TrackingUnsubscribed l)).
Proof.
  unfold CountUnique, checked, throw. destruct (e_closed env); [done|]. intros [= <- <-].
  split; [done|]. intros l Hp. cbn. unfold seenCount. rewrite !seeOne_fold.
  by rewrite !(interacted_proper campaignID _ _ _ Hp).
Qed.

(** ** Concrete runs *)

Definition repoEnv : Env := {|
  e_closed := false; e_clock := 5 * Second; e_tenant := "acme"; e_newID := λ i, "id-" +:+ pretty i |}.

Definition lockedData : tenantData :=
  Eval vm_compute in (Acquire repoEnv "leader" "a" (10 * Second) (5 * Second) newTenantData).2.

Lemma lock_mutual_exclusion_witness :
  (runLocks [(repoEnv, LAcquire "leader" "b" (10 * Second) (14 * Second)); (repoEnv, LRelease "leader" "b")]
    lockedData).1 = [Some (inr false); None] ∧
  (Renew repoEnv "leader" "a" Minute (14 * Second)
    (runLocks [(repoEnv, LAcquire "leader" "b" (10 * Second) (14 * Second)); (repoEnv, LRelease "leader" "b")]
      lockedData).2).1 = inr true.
Proof.
  split; [vm_compute; reflexivity|].
  apply (lock_mutual_exclusion repoEnv "leader" "a" (10 * Second) (5 * Second) newTenantData lockedData).
  - vm_compute. reflexivity.
  - apply Forall_cons. split; [split; [done|]; intros _; split; [done|by vm_compute]|].
    apply Forall_cons. split; [split; [done|]; by intros _|]. by apply Forall_nil.
  - reflexivity.
  - by vm_compute.
Defined.

Lemma suppression_upheld_witness :
  let v := zero <| sp_EmailNorm := "a@example.com" |> <| sp_ExpiresAt := Hour |> in
  let td1 := (Upsert repoEnv v newTenantData).2 in
  verdict (IsSuppressed repoEnv "a@example.com" Minute td1).1 = Some true.
Proof.
  cbv zeta. set (v := _ <| sp_ExpiresAt := Hour |>). set (td1 := (Upsert repoEnv v newTenantData).2).
  destruct (suppression_upheld repoEnv v newTenantData
    (v <| sp_TenantID := "acme" |> <| sp_CreatedAt := 5 * Second |>) td1 repoEnv) as [H _];
    [vm_compute; reflexivity|reflexivity|].
  change "a@example.com" with (sp_EmailNorm v). by rewrite H.
Defined.

Definition sampleEvent : OutboxEvent := zero <| o_ID := "e1" |> <| o_Type := "campaign.started" |>.

Lemma outbox_never_loses_event_witness :
  owed "e1" (foldl (λ td s, runOutbox s.1 s.2 td) (Enqueue repoEnv [sampleEvent] newTenantData).2
    [(repoEnv, OClaim 10 Minute "d1" (6 * Second)); (repoEnv, OFailed "e1" (7 * Second) "timeout");
     (repoEnv, ODeleteBefore Hour 0)]).
Proof.
  apply (outbox_never_loses_event repoEnv [sampleEvent] newTenantData sampleEvent 0); [done..|].
  repeat constructor; cbn; [tauto|by intros [_ ?]|tauto].
Defined.

Lemma outbox_claims_disjoint_witness :
  let td := (Enqueue repoEnv [sampleEvent] newTenantData).2 in
  ∃ l1 l2 td1 td2, ClaimPending repoEnv 10 Minute "d1" (6 * Second) td = (inr l1, td1) ∧
    ClaimPending repoEnv 10 Minute "d2" (7 * Second) td1 = (inr l2, td2) ∧
    (o_ID <$> l1) = ["e1"] ∧ ∀ e1 e2, e1 ∈ l1 → e2 ∈ l2 → o_ID e1 ≠ o_ID e2.
Proof.
  cbv zeta. do 4 eexists. split; [vm_compute; reflexivity|]. split; [vm_compute; reflexivity|].
  split; [reflexivity|].
  eapply (outbox_claims_disjoint repoEnv repoEnv 10 10 Minute Minute "d1" "d2" (6 * Second) (7 * Second)
    (Enqueue repoEnv [sampleEvent] newTenantData).2).
  - intros id e. cbn. rewrite lookup_insert_Some, lookup_empty. by intros [[<- <-]|[_ ?]].
  - done.
  - vm_compute. reflexivity.
  - vm_compute. reflexivity.
  - by vm_compute.
Defined.

Lemma count_unique_exact_witness :
  let e := zero <| te_CampaignID := "c" |> <| te_DeliveryID := "d" |> in
  let td := (InsertEvents repoEnv [e; e] newTenantData).2 in
  ∃ c td', CountUnique repoEnv "c" td = (inr c, td') ∧ size (tracking td) = 2%nat ∧ tc_UniqueOpens c = 1.
Proof.
  cbv zeta. set (td := (InsertEvents _ _ _).2).
  destruct (CountUnique repoEnv "c" td) as [[e|c] td'] eqn:Hc; [done|]. exists c, td'.
  destruct (count_unique_exact repoEnv "c" td c td' Hc) as [_ H].
  destruct (H _ (reflexivity _)) as [-> _].
  split; [done|]. split; vm_compute; reflexivity.
Defined.
