(* ===== verification/Provider.v ===== *)
(** * The store provider ([store/memstore/memstore.go])

    [Provider] holds the data of every tenant; [ForTenant] hands out stores
    bound to one of them.  The tenant enumerations drive the control loops and
    the senders, so what they promise is stated against what a sender could
    claim. *)

From S2P Require Import Prelude Enums Model MemTable MemData DeliveryRepo DeliveryQueue DeliveryProps.

Record Provider := mkProvider {
  pv_closed : bool;
  pv_tenants : gmap string tenantData;
}.
#[global] Instance Provider_eta : Eta Provider := λ p, mkProvider (pv_closed p) (pv_tenants p).

(** [New] *)
Definition newProvider : Provider := mkProvider false ∅.

(** [Provider.check], in front of a provider method. *)
Definition pchecked {A} (op : M Provider A) : M Provider A := λ p,
  if pv_closed p then (inl errClosed, p) else op p.

(** The store handed out is the tenant's name: a store reaches the data
    [p.tenants] holds under it. *)
Definition ForTenant (tenantID : string) : M Provider string :=
  pchecked (λ p,
    match pv_tenants p !! tenantID with
    | Some _ => (inr tenantID, p)
    | None => (inr tenantID, p <| pv_tenants := <[tenantID := newTenantData]> (pv_tenants p) |>)
    end).

(** A repository call through a store bound to [tenantID], at clock reading
    [clock].  After [Close] the map is gone and every call fails its check. *)
Definition onStore {A} (tenantID : string) (clock : Time) (newID : nat → string)
    (op : Env → M tenantData A) : M Provider A := λ p,
  match pv_tenants p !! tenantID with
  | Some td =>
      let '(r, td') := op (mkEnv (pv_closed p) clock tenantID newID) td in
      (r, p <| pv_tenants := <[tenantID := td']> (pv_tenants p) |>)
  | None => (inl errClosed, p)
  end.

Definition openCampaign (s : CampaignStatus) : bool :=
  match s with
  | CampaignScheduled | CampaignRunning | CampaignPaused => true
  | _ => false
  end.

Definition hasOpenWork (d : tenantData) : bool :=
  existsb (λ kv, negb (Terminal (d_Status kv.2))) (map_to_list (deliveries d)) ||
  existsb (λ kv, openCampaign (c_Status kv.2)) (map_to_list (campaigns d)).

(** [len(m) > 0] *)
Definition nonEmpty {A} (m : gmap string A) : bool := 0 <? Z.of_nat (size m).

Definition isKnownTenant (d : tenantData) : bool :=
  match settings d with Some _ => true | None => false end ||
  nonEmpty (transports d) || nonEmpty (senders d) || nonEmpty (domains d) ||
  nonEmpty (bounceMailboxes d) || nonEmpty (probeMailboxes d) ||
  nonEmpty (layouts d) || nonEmpty (templates d) || nonEmpty (campaigns d).

Definition ActiveTenants : M Provider (list string) :=
  pchecked (λ p,
    (inr (selectIDs (λ id d, negb (strEq id SystemTenantID) && hasOpenWork d) (pv_tenants p)), p)).

Definition Tenants : M Provider (list string) :=
  pchecked (λ p,
    (inr (selectIDs (λ id d, negb (strEq id SystemTenantID) && isKnownTenant d) (pv_tenants p)), p)).

(** The loop returns the first tenant, in map order, that holds the delivery. *)
Definition LookupDeliveryTenant (deliveryID : string) : M Provider string :=
  pchecked (λ p,
    if strEq deliveryID "" then (inl ErrInvalid, p)
    else
      match list_find (λ kv, is_Some (deliveries kv.2 !! deliveryID)) (map_to_list (pv_tenants p)) with
      | Some (_, kv) => (inr kv.1, p)
      | None => (inl ErrNotFound, p)
      end).

Definition Migrate : M Provider unit := pchecked (λ p, (inr tt, p)).

Definition Close : M Provider unit := λ p, (inr tt, mkProvider true ∅).

(** ** Properties *)

Lemma hasOpenWork_spec d :
  hasOpenWork d = true ↔
  (∃ id x, deliveries d !! id = Some x ∧ Terminal (d_Status x) = false) ∨
  (∃ id c, campaigns d !! id = Some c ∧ openCampaign (c_Status c) = true).
Proof.
  unfold hasOpenWork. rewrite orb_true_iff, !existsb_exists. f_equiv.
  - split; [intros ([id x]&Hin%list_elem_of_In%elem_of_map_to_list&?%negb_true_iff); eauto|].
    intros (id&x&?&?). exists (id, x). split; [by apply list_elem_of_In, elem_of_map_to_list|].
    by apply negb_true_iff.
  - split; [intros ([id x]&Hin%list_elem_of_In%elem_of_map_to_list&?); eauto|].
    intros (id&x&?&?). exists (id, x). split; [by apply list_elem_of_In, elem_of_map_to_list|done].
Qed.

Lemma cancellable_open s : s ∈ cancellable → Terminal s = false.
Proof. unfold cancellable. rewrite !elem_of_cons, elem_of_nil. by intros [->|[->|[->|[]]]]. Qed.

(** Polling the active tenants misses no work.  A tenant
    other than the system tenant is listed exactly when it has a non-terminal
    delivery or a scheduled, running or paused campaign; so whatever a sender
    could claim, at whatever time and from whatever lane, its tenant is
    listed.  The list is sorted and has no duplicates. *)
Theorem active_tenants_cover_claims p l p' :
  ActiveTenants p = (inr l, p') →
  p' = p ∧ NoDup l ∧ StronglySorted String.le l ∧
  (∀ t, t ∈ l ↔ t ≠ SystemTenantID ∧ ∃ td, pv_tenants p !! t = Some td ∧ hasOpenWork td = true) ∧
  (∀ t clock newID req xs p2, t ≠ SystemTenantID →
     onStore t clock newID (λ env, Claim env req) p = (inr xs, p2) → xs ≠ [] → t ∈ l).
Proof.
  unfold ActiveTenants, pchecked. destruct (pv_closed p) eqn:Hcl; [done|]. intros [= <- <-].
  assert (Hmem : ∀ t, t ∈ selectIDs (λ id d, negb (strEq id SystemTenantID) && hasOpenWork d) (pv_tenants p) ↔
    t ≠ SystemTenantID ∧ ∃ td, pv_tenants p !! t = Some td ∧ hasOpenWork td = true).
  { intros t. rewrite elem_of_selectIDs. unfold strEq.
    setoid_rewrite andb_true_iff. setoid_rewrite negb_true_iff. setoid_rewrite bool_decide_eq_false.
    naive_solver. }
  split_and!; [done|apply NoDup_selectIDs|apply Sorted_selectIDs|done|].
  intros t clock newID req xs p2 Hne Hst Hxs. apply Hmem. split; [done|].
  unfold onStore in Hst. destruct (pv_tenants p !! t) as [td|]; [|done]. exists td. split; [done|].
  destruct (Claim _ req td) as [[e|ys] td'] eqn:Hc; [done|]. injection Hst as -> _.
  destruct xs as [|x xs]; [done|]. apply hasOpenWork_spec. left.
  destruct (Claim_inv _ _ _ _ _ Hc x) as (id&d&Hd&Hcl'&_); [apply elem_of_cons; by left|].
  exists id, d. split; [done|]. by eapply cancellable_open, claimable_cancellable.
Qed.

(** A signal that names only a delivery finds its tenant.
    When delivery IDs are unique across tenants, the lookup answers the tenant
    that holds the delivery, whatever the map order, not found if none does,
    and refuses the empty ID. *)
Lemma lookup_delivery_tenant_exact p id :
  pv_closed p = false →
  (∀ t1 t2 td1 td2, pv_tenants p !! t1 = Some td1 → pv_tenants p !! t2 = Some td2 →
     is_Some (deliveries td1 !! id) → is_Some (deliveries td2 !! id) → t1 = t2) →
  (∀ t, LookupDeliveryTenant id p = (inr t, p) ↔
     id ≠ "" ∧ ∃ td, pv_tenants p !! t = Some td ∧ is_Some (deliveries td !! id)) ∧
  (LookupDeliveryTenant id p = (inl ErrNotFound, p) ↔
     id ≠ "" ∧ ∀ t td, pv_tenants p !! t = Some td → deliveries td !! id = None) ∧
  (id = "" → LookupDeliveryTenant id p = (inl ErrInvalid, p)).
Proof.
  intros Hcl Huniq. unfold LookupDeliveryTenant, pchecked. rewrite Hcl. unfold strEq.
  case_bool_decide as He; [split_and!; [naive_solver..|done]|].
  destruct (list_find _ _) as [[i [t0 td0]]|] eqn:Hf.
  - apply list_find_Some in Hf as (Hin%list_elem_of_lookup_2%elem_of_map_to_list&Hd&_). cbn in *.
    split_and!; [|split; [done|]|done].
    + intros t. split; [intros [= <-]; eauto|]. intros (_&td&Ht&Htd). do 2 f_equal. by eapply Huniq.
    + intros [_ Hno]. destruct Hd as [x Hx]. by rewrite (Hno _ _ Hin) in Hx.
  - apply list_find_None in Hf. rewrite Forall_forall in Hf.
    assert (Hno : ∀ t td, pv_tenants p !! t = Some td → deliveries td !! id = None).
    { intros t td Ht. apply eq_None_not_Some. apply (Hf (t, td)). by apply elem_of_map_to_list. }
    split_and!; [|done..]. intros t. split; [done|]. intros (_&td&Ht&[x Hx]). by rewrite (Hno _ _ Ht) in Hx.
Qed.

(** ** Concrete runs *)

Definition sampleProvider : Provider := mkProvider false (<["acme" := sampleInserted]> ∅).

Lemma active_tenants_cover_claims_witness :
  "acme" ∈ selectIDs (λ id d, negb (strEq id SystemTenantID) && hasOpenWork d) (pv_tenants sampleProvider).
Proof.
  destruct (active_tenants_cover_claims sampleProvider _ sampleProvider eq_refl) as (_&_&_&_&H).
  destruct (onStore "acme" 0 (λ _, "") (λ env, Claim env sampleClaim) sampleProvider) as [[e|xs] p2] eqn:He.
  - vm_compute in He. done.
  - eapply (H "acme" 0 (λ _, "") sampleClaim xs p2); [done|exact He|].
    intros ->. vm_compute in He. done.
Defined.
