(* ===== verification/Prog.v ===== *)
(** * Programs over the store

    The control plane and the senders talk to each other only through the
    store.  An operation of theirs is a sequence of store calls, each atomic
    (one method under the provider's mutex, [DeliveryRepo], [Repos]), with
    everybody else's calls free to run in between.  [prog] is that sequence as
    data; [run] executes it alone, [runWith] with given interference between
    the calls, and [wp] is a rely-guarantee weakest precondition that covers
    every interleaving. *)

From S2P Require Import Prelude Enums Model MemTable MemData Repos Provider.

(** ** Syntax *)

(** [S] is the state of the store the calls act on. *)
Inductive progOn (S A : Type) : Type :=
  | Done (r : error + A)
  | Call (B : Type) (op : Env → M S B) (k : error + B → progOn S A)
  | Poll (k : bool → progOn S A).
Arguments Done {S A} _.
Arguments Call {S A B} _ _.
Arguments Poll {S A} _.

(** A program on the store of one tenant. *)
Abbreviation prog := (progOn tenantData).

(** [return v, nil] and [return err] *)
Definition pret {S A} (a : A) : progOn S A := Done (inr a).
Definition fail {S A} (e : error) : progOn S A := Done (inl e).

(** One store call. *)
Definition call {S B} (op : Env → M S B) : progOn S B := Call op Done.

(** Run [p] and continue with its outcome, error included. *)
Fixpoint handle {S A B} (p : progOn S A) (k : error + A → progOn S B) : progOn S B :=
  match p with
  | Done r => k r
  | Call op k' => Call op (λ r, handle (k' r) k)
  | Poll k' => Poll (λ b, handle (k' b) k)
  end.

(** [x, err := p(); if err != nil { return err }; ...] *)
Definition pbind {S A B} (p : progOn S A) (k : A → progOn S B) : progOn S B :=
  handle p (λ r, match r with inl e => fail e | inr a => k a end).

Declare Scope prog_scope.
Delimit Scope prog_scope with prog.
Notation "'let?' x ':=' p 'in' k" := (pbind p (λ x, k))
  (at level 10, x name, p at level 100, k at level 200,
   format "'[v' 'let?'  x  ':='  p  'in' '/' k ']'") : prog_scope.
Notation "p ';?' k" := (pbind p (λ _, k))
  (at level 199, right associativity, format "'[v' p ';?' '/' k ']'") : prog_scope.
#[global] Open Scope prog_scope.

Definition errCanceled : error := errNamed "context canceled".

(** A loop the source leaves unbounded ran past the bound of the model. *)
Definition errFuel : error := errNamed "out of fuel".

(** [if err := ctx.Err(); err != nil { return err }] *)
Definition ctxErr {S} : progOn S unit := Poll (λ b, if b then fail errCanceled else pret tt).

(** ** Execution *)

(** Alone, with no cancellation. *)
Fixpoint run {S A} (env : Env) (p : progOn S A) (td : S) : (error + A) * S :=
  match p with
  | Done r => (r, td)
  | Call op k => let '(r, td') := op env td in run env (k r) td'
  | Poll k => run env (k false) td
  end.

(** With the given interference: the [i]-th step of the others runs before
    the [i]-th call. *)
Fixpoint runWith {S A} (env : Env) (others : list (S → S)) (p : progOn S A) (td : S)
    : (error + A) * S :=
  match p with
  | Done r => (r, td)
  | Call op k =>
      let td0 := match others with f :: _ => f td | [] => td end in
      let '(r, td') := op env td0 in runWith env (tail others) (k r) td'
  | Poll k => runWith env others (k false) td
  end.

Lemma run_handle {S A B} env (p : progOn S A) (k : error + A → progOn S B) td :
  run env (handle p k) td = let '(r, td') := run env p td in run env (k r) td'.
Proof.
  revert td. induction p as [r|C op k' IH|k' IH]; intros td; cbn [handle run]; [done| |done].
  destruct (op env td) as [r td']. by rewrite IH.
Qed.

Lemma run_pbind {S A B} env (p : progOn S A) (k : A → progOn S B) td :
  run env (pbind p k) td =
    match run env p td with
    | (inl e, td') => (inl e, td')
    | (inr a, td') => run env (k a) td'
    end.
Proof. unfold pbind. rewrite run_handle. by destruct (run env p td) as [[e|a] td']. Qed.

Lemma run_call {S B} env (op : Env → M S B) td : run env (call op) td = op env td.
Proof. cbn. by destruct (op env td). Qed.

(** ** Rely and guarantee *)

Section wp.
(** [R] bounds what the others do between two calls, [G] is what every call
    of the program must do. *)
Context {S : Type} (R G : S → S → Prop).

Fixpoint wp {A} (p : progOn S A) (Q : error + A → S → Prop) (td : S) : Prop :=
  match p with
  | Done r => Q r td
  | Call op k =>
      ∀ env td0, R td td0 →
        let '(r, td1) := op env td0 in G td0 td1 ∧ wp (k r) Q td1
  | Poll k => ∀ b, wp (k b) Q td
  end.

Lemma wp_mono {A} (p : progOn S A) (Q Q' : error + A → S → Prop) td :
  (∀ r td', Q r td' → Q' r td') → wp p Q td → wp p Q' td.
Proof.
  intros HQ. revert td. induction p as [r|B op k IH|k IH]; intros td; cbn [wp].
  - apply HQ.
  - intros Hc env td0 HR. specialize (Hc env td0 HR). destruct (op env td0) as [r td1].
    destruct Hc as [HG Hk]. split; [done|]. by apply IH.
  - intros Hk b. by apply IH.
Qed.

Lemma wp_handle {A B} (p : progOn S A) (k : error + A → progOn S B) Q td :
  wp p (λ r td', wp (k r) Q td') td → wp (handle p k) Q td.
Proof.
  revert td. induction p as [r|C op k' IH|k' IH]; intros td; cbn [handle wp]; [done| |].
  - intros Hc env td0 HR. specialize (Hc env td0 HR). destruct (op env td0) as [r td1].
    destruct Hc as [HG Hk]. split; [done|]. by apply IH.
  - intros Hk b. by apply IH.
Qed.

Lemma wp_pbind {A B} (p : progOn S A) (k : A → progOn S B) Q td :
  wp p (λ r td', match r with inl e => Q (inl e) td' | inr a => wp (k a) Q td' end) td →
  wp (pbind p k) Q td.
Proof.
  intros H. apply wp_handle. eapply wp_mono; [|exact H]. intros [e|a] td'; done.
Qed.

Lemma wp_call {B} (op : Env → M S B) Q td :
  (∀ env td0, R td td0 → G td0 (op env td0).2 ∧ Q (op env td0).1 (op env td0).2) →
  wp (call op) Q td.
Proof.
  intros H env td0 HR. specialize (H env td0 HR). by destruct (op env td0) as [r td1].
Qed.

Lemma wp_ctxErr Q td : Q (inl errCanceled) td → Q (inr tt) td → wp ctxErr Q td.
Proof. by intros ? ? []. Qed.
End wp.

(** A program verified under two relies keeps both promises under others that
    obey both. *)
Lemma wp_conj {S} (R G R' G' : S → S → Prop) {A} (p : progOn S A) Q Q' td :
  wp R G p Q td → wp R' G' p Q' td →
  wp (λ a b, R a b ∧ R' a b) (λ a b, G a b ∧ G' a b) p (λ r td', Q r td' ∧ Q' r td') td.
Proof.
  revert td. induction p as [r|B op k IH|k IH]; intros td; cbn [wp]; [done| |].
  - intros H H' env td0 [HR HR']. specialize (H env td0 HR). specialize (H' env td0 HR').
    destruct (op env td0) as [r td1]. destruct H as [HG Hk], H' as [HG' Hk']. split; [done|]. by apply IH.
  - intros H H' b. by apply IH.
Qed.

(** Others that do less are no harder. *)
Lemma wp_rely {S} (R G R' G' : S → S → Prop) {A} (p : progOn S A) Q td :
  wp R G p Q td → (∀ a b, R' a b → R a b) → (∀ a b, G a b → G' a b) → wp R' G' p Q td.
Proof.
  intros Hp HR HG. revert td Hp. induction p as [r|B op k IH|k IH]; intros td; cbn [wp]; [done| |].
  - intros H env td0 HR'. specialize (H env td0 (HR _ _ HR')). destruct (op env td0) as [r td1].
    destruct H as [Hg Hk]. split; [by apply HG|]. by apply IH.
  - intros H b. by apply IH.
Qed.

(** ** Interleaved executions

    [exec R p td tr r td']: [p], started at [td], with steps of the others
    related by [R] before every call, made the atomic steps [tr] and returned
    [r], leaving the store at [td']. *)
Inductive exec {S} (R : S → S → Prop) {A : Type} :
    progOn S A → S → list (S * S) → error + A → S → Prop :=
  | exec_done r td : exec R (Done r) td [] r td
  | exec_call B (op : Env → M S B) k env td td0 r0 td1 tr r td' :
      R td td0 → op env td0 = (r0, td1) → exec R (k r0) td1 tr r td' →
      exec R (Call op k) td ((td0, td1) :: tr) r td'
  | exec_poll k b td tr r td' : exec R (k b) td tr r td' → exec R (Poll k) td tr r td'.

(** [wp] covers every interleaving. *)
Lemma wp_sound {S} (R G : S → S → Prop) {A} (p : progOn S A) Q td tr r td' :
  wp R G p Q td → exec R p td tr r td' → Forall (λ s, G s.1 s.2) tr ∧ Q r td'.
Proof.
  intros Hwp He. induction He as [r td|B op k env td td0 r0 td1 tr r td' HR Hop He IH|k b td tr r td' He IH].
  - by split.
  - cbn in Hwp. specialize (Hwp env td0 HR). rewrite Hop in Hwp. destruct Hwp as [HG Hk].
    destruct (IH Hk) as [Htr HQ]. by split; [constructor|].
  - by apply IH.
Qed.

(** Running alone is an interleaving with idle others. *)
Lemma run_exec {S} (R : S → S → Prop) {A} env (p : progOn S A) td :
  (∀ td, R td td) → ∃ tr, exec R p td tr (run env p td).1 (run env p td).2.
Proof.
  intros HR. revert td. induction p as [r|B op k IH|k IH]; intros td; cbn [run].
  - exists []. constructor.
  - destruct (op env td) as [r td1] eqn:Hop. destruct (IH r td1) as [tr Htr].
    exists ((td, td1) :: tr). by eapply exec_call.
  - destruct (IH false td) as [tr Htr]. exists tr. by eapply exec_poll.
Qed.

(** The steps of a run alone. *)
Fixpoint steps {S A} (env : Env) (p : progOn S A) (td : S) : list (S * S) :=
  match p with
  | Done _ => []
  | Call op k => let '(r, td') := op env td in (td, td') :: steps env (k r) td'
  | Poll k => steps env (k false) td
  end.

(** It is an interleaving whose others keep whatever held along it. *)
Lemma steps_exec {S A} (I : S → Prop) env (p : progOn S A) td :
  Forall (λ s, I s.1) (steps env p td) →
  exec (λ _ td0, I td0) p td (steps env p td) (run env p td).1 (run env p td).2.
Proof.
  revert td. induction p as [r|B op k IH|k IH]; intros td; cbn [run steps].
  - intros _. constructor.
  - destruct (op env td) as [r td1] eqn:Hop. intros [HI Hk]%Forall_cons. eapply exec_call; [done|done|]. by apply IH.
  - intros HI. apply exec_poll with (b := false). by apply IH.
Qed.

(** So is it for others that may do nothing in the states it passes. *)
Lemma steps_exec_idle {S A} (R : S → S → Prop) env (p : progOn S A) td :
  Forall (λ s, R s.1 s.1) (steps env p td) →
  exec R p td (steps env p td) (run env p td).1 (run env p td).2.
Proof.
  revert td. induction p as [r|B op k IH|k IH]; intros td; cbn [run steps].
  - intros _. constructor.
  - destruct (op env td) as [r td1] eqn:Hop. intros [HI Hk]%Forall_cons. eapply exec_call; [done|done|]. by apply IH.
  - intros HI. apply exec_poll with (b := false). by apply IH.
Qed.

(** ** Executions under the eye of an automaton

    A property of whole executions: [step] reads the steps of a program one by
    one and moves between phases, so that what a step may do can depend on what
    the earlier ones did and saw.  [mwp] is [wp] with a phase. *)

Section monitor.
Context {S Ph : Type} (R : S → S → Prop) (step : Ph → S → S → Ph → Prop).

Inductive accepts : Ph → list (S * S) → Ph → Prop :=
  | accepts_nil ph : accepts ph [] ph
  | accepts_cons ph ph1 ph2 st tr :
      step ph st.1 st.2 ph1 → accepts ph1 tr ph2 → accepts ph (st :: tr) ph2.

Fixpoint mwp {A} (p : progOn S A) (Q : error + A → Ph → S → Prop) (ph : Ph) (td : S) : Prop :=
  match p with
  | Done r => Q r ph td
  | Call op k =>
      ∀ env td0, R td td0 →
        let '(r, td1) := op env td0 in ∃ ph1, step ph td0 td1 ph1 ∧ mwp (k r) Q ph1 td1
  | Poll k => ∀ b, mwp (k b) Q ph td
  end.

Lemma mwp_mono {A} (p : progOn S A) (Q Q' : error + A → Ph → S → Prop) ph td :
  (∀ r ph' td', Q r ph' td' → Q' r ph' td') → mwp p Q ph td → mwp p Q' ph td.
Proof.
  intros HQ. revert ph td. induction p as [r|B op k IH|k IH]; intros ph td; cbn [mwp].
  - apply HQ.
  - intros Hc env td0 HR. specialize (Hc env td0 HR). destruct (op env td0) as [r td1].
    destruct Hc as (ph1&Hst&Hk). exists ph1. split; [done|]. by apply IH.
  - intros Hk b. by apply IH.
Qed.

Lemma mwp_handle {A B} (p : progOn S A) (k : error + A → progOn S B) Q ph td :
  mwp p (λ r ph' td', mwp (k r) Q ph' td') ph td → mwp (handle p k) Q ph td.
Proof.
  revert ph td. induction p as [r|C op k' IH|k' IH]; intros ph td; cbn [handle mwp]; [done| |].
  - intros Hc env td0 HR. specialize (Hc env td0 HR). destruct (op env td0) as [r td1].
    destruct Hc as (ph1&Hst&Hk). exists ph1. split; [done|]. by apply IH.
  - intros Hk b. by apply IH.
Qed.

(** An automaton that moves by [next] and allows what [G] does. *)
Lemma wp_mwp (G : S → S → Prop) (next : Ph → S → Ph) {A} (p : progOn S A) Q (I : Ph → Prop) ph td :
  (∀ ph a, I ph → I (next ph a)) → (∀ ph a b, I ph → G a b → step ph a b (next ph a)) →
  I ph → wp R G p Q td → mwp p (λ r ph' td', I ph' ∧ Q r td') ph td.
Proof.
  intros HI Hst. revert ph td. induction p as [r|B op k IH|k IH]; intros ph td Hph; cbn [wp mwp].
  - by split.
  - intros Hc env td0 HR. specialize (Hc env td0 HR). destruct (op env td0) as [r td1].
    destruct Hc as [HG Hk]. exists (next ph td0). split; [by apply Hst|]. apply IH; [by apply HI|done].
  - intros Hk b. by apply IH.
Qed.

(** The automaton follows every interleaving. *)
Lemma mwp_sound {A} (p : progOn S A) Q ph td tr r td' :
  mwp p Q ph td → exec R p td tr r td' → ∃ ph', accepts ph tr ph' ∧ Q r ph' td'.
Proof.
  intros Hwp He. revert ph Hwp.
  induction He as [r td|B op k env td td0 r0 td1 tr r td' HR Hop He IH|k b td tr r td' He IH]; intros ph Hwp.
  - exists ph. by split; [constructor|].
  - cbn in Hwp. specialize (Hwp env td0 HR). rewrite Hop in Hwp. destruct Hwp as (ph1&Hst&Hk).
    destruct (IH ph1 Hk) as (ph'&Hacc&HQ). exists ph'. split; [|done]. by eapply accepts_cons.
  - by apply IH.
Qed.
End monitor.

(** The state after the first [n] calls of a run: what a process leaves that
    dies there. *)
Fixpoint runFor {S A} (n : nat) (env : Env) (p : progOn S A) (td : S) : S :=
  match p with
  | Done _ => td
  | Call op k => match n with O => td | S n => let '(r, td') := op env td in runFor n env (k r) td' end
  | Poll k => runFor n env (k false) td
  end.

(** ** Any number of concurrent programs

    A pool of programs over one store: at each step one of them makes its next
    call (or polls its context), or a new program starts. *)

Definition config : Type := list (prog unit) * tenantData.

Inductive poolStep (spawnable : prog unit → Prop) : config → config → Prop :=
  | pool_call i B (op : Env → M tenantData B) k env r ps td td' :
      ps !! i = Some (Call op k) → op env td = (r, td') →
      poolStep spawnable (ps, td) (<[i := k r]> ps, td')
  | pool_poll i k b ps td :
      ps !! i = Some (Poll k) → poolStep spawnable (ps, td) (<[i := k b]> ps, td)
  | pool_spawn p ps td :
      spawnable p → poolStep spawnable (ps, td) (ps ++ [p], td).

(** A run of the pool and the store states it went through. *)
Inductive poolRun (spawnable : prog unit → Prop) : config → list (tenantData * tenantData) → config → Prop :=
  | run_nil c : poolRun spawnable c [] c
  | run_cons c1 c2 c3 tr :
      poolStep spawnable c1 c2 → poolRun spawnable c2 tr c3 →
      poolRun spawnable c1 ((c1.2, c2.2) :: tr) c3.

Section pool.
(** [E] is kept by everybody's steps; [I] holds of the states visited. *)
Context (E G : tenantData → tenantData → Prop) (I : tenantData → Prop) (spawnable : prog unit → Prop).
Context `{!PreOrder E} (HGE : ∀ td td', G td td' → E td td') (HG : ∀ td, G td td).
Context (Hsafe : ∀ p td, spawnable p → wp (λ td td', E td td' ∧ I td') G p (λ _ _, True) td).

(** Every program of the pool is safe from some state the store evolved from. *)
Definition poolOk (c : config) : Prop :=
  ∀ i p, c.1 !! i = Some p →
    ∃ td, E td c.2 ∧ wp (λ td td', E td td' ∧ I td') G p (λ _ _, True) td.

Lemma poolStep_ok c c' : poolOk c → I c.2 → poolStep spawnable c c' → poolOk c' ∧ G c.2 c'.2.
Proof.
  intros Hok HI Hs. destruct Hs as [i B op k env r ps td td' Hi Hop|i k b ps td Hi|p ps td Hp]; cbn in *.
  - destruct (Hok i _ Hi) as (td0&HE&Hwp). cbn in Hwp. specialize (Hwp env td (conj HE HI)).
    rewrite Hop in Hwp. destruct Hwp as [HGs Hk]. split; [|done].
    intros j q. cbn. intros [[<- [<- _]]|[Hne Hq]]%list_lookup_insert_Some.
    + by exists td'.
    + destruct (Hok j q Hq) as (tdj&HEj&Hwpj). exists tdj. split; [|done]. etrans; [done|by apply HGE].
  - split; [|done]. intros j q. cbn. intros [[<- [<- _]]|[Hne Hq]]%list_lookup_insert_Some.
    + destruct (Hok i _ Hi) as (td0&HE&Hwp). exists td0. split; [done|]. apply Hwp.
    + by apply Hok in Hq.
  - split; [|done]. intros j q. cbn. intros [Hq|[_ Hq]]%lookup_app_Some; [by apply Hok in Hq|].
    apply list_lookup_singleton_Some in Hq as [_ <-]. exists td. split; [done|]. by apply Hsafe.
Qed.

(** In every run of the pool, every step does what [G] says. *)
Lemma pool_guarantee c tr c' :
  poolOk c → poolRun spawnable c tr c' → Forall (λ s, I s.1) tr → Forall (λ s, G s.1 s.2) tr.
Proof.
  intros Hok Hr. induction Hr as [|c1 c2 c3 tr Hs Hr IH]; intros HI; [constructor|].
  inversion HI as [|? ? HI1 HI2]; subst. destruct (poolStep_ok c1 c2 Hok HI1 Hs) as [Hok2 HG2].
  constructor; [done|]. by apply IH.
Qed.

Lemma poolOk_empty td : poolOk ([], td).
Proof. by intros i p. Qed.
End pool.

(** ** An executable scheduler *)

Inductive action :=
  | ASpawn (p : prog unit)
  | AStep (i : nat) (env : Env) (b : bool).

Definition act (a : action) (c : config) : option config :=
  match a with
  | ASpawn p => Some (c.1 ++ [p], c.2)
  | AStep i env b =>
      match c.1 !! i with
      | Some (Call op k) => let '(r, td') := op env c.2 in Some (<[i := k r]> c.1, td')
      | Some (Poll k) => Some (<[i := k b]> c.1, c.2)
      | _ => None
      end
  end.

Fixpoint schedule (acts : list action) (c : config) : option (list (tenantData * tenantData) * config) :=
  match acts with
  | [] => Some ([], c)
  | a :: acts' =>
      match act a c with
      | None => None
      | Some c1 =>
          match schedule acts' c1 with
          | None => None
          | Some (tr, c2) => Some ((c.2, c1.2) :: tr, c2)
          end
      end
  end.

Lemma schedule_run spawnable acts c tr c' :
  (∀ p, ASpawn p ∈ acts → spawnable p) → schedule acts c = Some (tr, c') → poolRun spawnable c tr c'.
Proof.
  revert c tr. induction acts as [|a acts IH]; intros c tr Hsp; cbn [schedule].
  - intros [= <- <-]. constructor.
  - destruct (act a c) as [c1|] eqn:Ha; [|done].
    destruct (schedule acts c1) as [[tr1 c2]|] eqn:Hs; [|done]. intros [= <- <-].
    apply run_cons; [|by apply IH; [intros p Hp; apply Hsp, elem_of_cons; right|]].
    destruct c as [ps td], a as [p|i env b]; cbn in Ha.
    + injection Ha as <-. apply pool_spawn. apply Hsp, elem_of_cons. by left.
    + destruct (ps !! i) as [[r|B op k|k]|] eqn:Hi; [done| | |done].
      * destruct (op env td) as [r td'] eqn:Hop. injection Ha as <-. by eapply pool_call.
      * injection Ha as <-. by eapply pool_poll.
Qed.

(** ** Equal programs

    Two programs that make the same calls with the same continuations, which
    the functions inside a program keep from being syntactically equal. *)
Inductive progEq {S A} : progOn S A → progOn S A → Prop :=
  | progEq_done r : progEq (Done r) (Done r)
  | progEq_call B (op : Env → M S B) k k' :
      (∀ r, progEq (k r) (k' r)) → progEq (Call op k) (Call op k')
  | progEq_poll k k' : (∀ b, progEq (k b) (k' b)) → progEq (Poll k) (Poll k').

#[export] Instance progEq_refl {S A} : Reflexive (@progEq S A).
Proof. intros p. induction p; by constructor. Qed.

Lemma progEq_handle {S A B} (p p' : progOn S A) (k k' : error + A → progOn S B) :
  progEq p p' → (∀ r, progEq (k r) (k' r)) → progEq (handle p k) (handle p' k').
Proof. intros Hp Hk. induction Hp; cbn [handle]; [by apply Hk|by constructor..]. Qed.

Lemma progEq_pbind {S A B} (p : progOn S A) (k k' : A → progOn S B) :
  (∀ a, progEq (k a) (k' a)) → progEq (pbind p k) (pbind p k').
Proof. intros Hk. apply progEq_handle; [reflexivity|]. intros [e|a]; [reflexivity|apply Hk]. Qed.

#[export] Instance progEq_run {S A} env : Proper (progEq ==> (=) ==> (=)) (@run S A env).
Proof.
  intros p p' Hp td ? <-. revert td. induction Hp as [r|B op k k' Hk IH|k k' Hk IH]; intros td; cbn [run].
  - done.
  - destruct (op env td). apply IH.
  - apply IH.
Qed.

(** ** Runs alone, with what holds on the way

    [runs I env p Q td]: [p] run alone from [td] passes only states in [I]
    (wherever it is stopped) and ends with [Q]. *)
Definition runs {S A} (I : S → Prop) (env : Env) (p : progOn S A) (Q : error + A → S → Prop) (td : S) : Prop :=
  (∀ n, I (runFor n env p td)) ∧ Q (run env p td).1 (run env p td).2.

Lemma runs_done {S A} (I : S → Prop) env (r : error + A) Q td : I td → Q r td → runs I env (Done r) Q td.
Proof. by split. Qed.

Lemma runs_mono {S A} (I : S → Prop) env (p : progOn S A) (Q Q' : error + A → S → Prop) td :
  (∀ r td', Q r td' → Q' r td') → runs I env p Q td → runs I env p Q' td.
Proof. intros HQ [HI Hr]. split; [done|by apply HQ]. Qed.

Lemma runs_poll {S A} (I : S → Prop) env (k : bool → progOn S A) Q td :
  runs I env (k false) Q td → runs I env (Poll k) Q td.
Proof. by intros [HI Hr]. Qed.

Lemma runs_handle {S A B} (I : S → Prop) env (p : progOn S A) (k : error + A → progOn S B) Q td :
  runs I env p (λ r td', runs I env (k r) Q td') td → runs I env (handle p k) Q td.
Proof.
  unfold runs. revert td. induction p as [r|C op k' IH|k' IH]; intros td; cbn [handle run runFor].
  - by intros [_ H].
  - intros [HI Hr]. destruct (op env td) as [r td1] eqn:Hop. specialize (IH r td1) as [IH1 IH2].
    { split; [|done]. intros n. exact (HI (Datatypes.S n)). }
    split; [|done]. intros [|n]; [exact (HI O)|]. apply IH1.
  - intros H. by apply IH.
Qed.

Lemma runs_pbind {S A B} (I : S → Prop) env (p : progOn S A) (k : A → progOn S B) Q td :
  runs I env p (λ r td', match r with inl e => I td' ∧ Q (inl e) td' | inr a => runs I env (k a) Q td' end) td →
  runs I env (pbind p k) Q td.
Proof.
  intros H. apply runs_handle. eapply runs_mono; [|exact H]. intros [e|a] td'; [|done].
  intros [HI HQ]. by apply runs_done.
Qed.

Lemma runs_call {S B} (I : S → Prop) env (op : Env → M S B) (Q : error + B → S → Prop) td :
  I td → I (op env td).2 → Q (op env td).1 (op env td).2 → runs I env (call op) Q td.
Proof.
  intros HI HI' HQ. unfold runs. rewrite run_call. split; [|done]. intros [|n]; cbn [runFor call]; [done|].
  by destruct (op env td) as [r td'].
Qed.

Lemma runs_progEq {S A} (I : S → Prop) env (p p' : progOn S A) Q td :
  progEq p p' → runs I env p Q td → runs I env p' Q td.
Proof.
  intros Hp. unfold runs. rewrite (progEq_run env _ _ Hp td td eq_refl). intros [HI HQ]. split; [|done].
  clear HQ. revert td HI. induction Hp as [r|B op k k' Hk IH|k k' Hk IH]; intros td HI n; cbn [runFor] in *.
  - apply (HI n).
  - destruct n as [|n]; [apply (HI O)|]. pose proof (λ n, HI (Datatypes.S n)) as HI'. cbn in HI'.
    destruct (op env td) as [r td']. by apply IH.
  - by apply IH.
Qed.

(** ** Programs over the provider *)

(** A program on the store of [tenantID]. *)
Fixpoint inTenant {A} (tenantID : string) (p : prog A) : progOn Provider A :=
  match p with
  | Done r => Done r
  | Call op k =>
      Call (λ env, onStore tenantID (e_clock env) (e_newID env) op) (λ r, inTenant tenantID (k r))
  | Poll k => Poll (λ b, inTenant tenantID (k b))
  end.

(** One call of the tenant's store. *)
Definition tcall {A} (tenantID : string) (op : Env → M tenantData A) : progOn Provider A :=
  inTenant tenantID (call op).
