(* ===== verification/Settings.v ===== *)
(** * Tenant settings ([store/tenant.go])

    The default settings row, its creation on first access and the event
    subscription filter. *)

From S2P Require Import Prelude Enums Model MemTable MemData Repos Prog.

(** [DefaultOffEventTypes] *)
Definition DefaultOffEventTypes : list string := ["delivery.sent"; "delivery.opened"; "delivery.clicked"].

(** [SubscribedTo]; [None] is the nil receiver. *)
Definition SubscribedTo (s : option TenantSettings) (typ : string) : bool :=
  match s with
  | None => negb (contains DefaultOffEventTypes typ)
  | Some s =>
      if len (ts_EventTypes s) =? 0 then negb (contains DefaultOffEventTypes typ)
      else contains (ts_EventTypes s) typ
  end.

(** [FromPlatform] *)
Definition FromPlatform (s : option TenantSettings) (fld : string) : bool :=
  match s with None => false | Some s => contains (ts_PlatformDefaults s) fld end.

(** [hex.EncodeToString] *)
Definition hexDigit (n : nat) : Ascii.ascii :=
  if (n <? 10)%nat then Ascii.ascii_of_nat (48 + n) else Ascii.ascii_of_nat (87 + n).

Fixpoint EncodeToString (s : string) : string :=
  match s with
  | EmptyString => ""
  | String c s' =>
      let n := Ascii.nat_of_ascii c in
      String (hexDigit (n / 16)) (String (hexDigit (n mod 16)) (EncodeToString s'))
  end.

(** [NewSigningKey]: [rand] are the 36 bytes read from [crypto/rand]. *)
Definition NewSigningKey (rand : string) (at_ : Time) : SigningKey :=
  mkSigningKey (EncodeToString (String.substring 32 4 rand)) (String.substring 0 32 rand)
    (TruncateTime at_).

(** [DefaultTenantSettings] *)
Definition DefaultTenantSettings (rand : string) (tenantID : string) (at_ : Time) : TenantSettings :=
  zero <| ts_TenantID := tenantID |>
       <| ts_Retry := mkRetryPolicy
            [Minute; 5 * Minute; 15 * Minute; Hour; 4 * Hour; 12 * Hour] 6 |>
       <| ts_RetentionDays := 90 |>
       <| ts_SuppressionEnabled := true |>
       <| ts_UnsubscribeMode := "sendplane" |>
       <| ts_DefaultLocale := "en" |>
       <| ts_Tracking := zero <| tk_Opens := true |> <| tk_Clicks := true |>
                              <| tk_SigningKeys := [NewSigningKey rand at_] |> |>
       <| ts_CreatedAt := at_ |>
       <| ts_UpdatedAt := at_ |>.

(** [LoadTenantSettings]: settings or an error, never unpersisted defaults. *)
Definition LoadTenantSettings (rand : string) (tenantID : string) (at_ : Time) : prog TenantSettings :=
  handle (call SettingsGet) (λ r,
    match r with
    | inr s => pret s
    | inl err =>
        if negb (errIs err ErrNotFound) then fail err
        else
          handle (call (λ env, SettingsCreate env (DefaultTenantSettings rand tenantID at_))) (λ r,
            match r with
            | inl err => if negb (errIs err ErrConflict) then fail err else call SettingsGet
            | inr def => pret def
            end)
    end).

(** ** Properties *)

(** Settings rows never disappear. *)
Definition settingsKept (td td' : tenantData) : Prop := is_Some (settings td) → is_Some (settings td').

(** The settings a caller gets were persisted.  Whoever
    else creates or updates the row meanwhile, [LoadTenantSettings] on an open
    store returns settings, the row exists afterwards, and a row that exists
    already is never replaced by the defaults. *)
Theorem load_settings_persisted rand tenantID at_ td :
  wp (λ td td0, settingsKept td td0)
     (λ td0 td1, is_Some (settings td1) ∧ settings td0 = None ∨ td1 = td0)
     (LoadTenantSettings rand tenantID at_)
     (λ r td', match r with
               | inr _ => is_Some (settings td')
               | inl e => e = errClosed
               end) td.
Proof.
  unfold LoadTenantSettings. apply wp_handle, wp_call. intros env td0 _.
  unfold SettingsGet, checked, throw. destruct (e_closed env) eqn:Hc.
  { split; [by right|]. done. }
  destruct (settings td0) as [s|] eqn:Hs; cbn.
  { split; [by right|]. by rewrite Hs. }
  split; [by right|]. intros env2 td2 _. unfold SettingsCreate, checked, throw.
  destruct (e_closed env2) eqn:Hc2; cbn.
  { split; [by right|]. done. }
  destruct (settings td2) as [s|] eqn:Hs2; cbn.
  - split; [by right|]. intros env3 td3 Hk. unfold settingsKept in Hk. rewrite Hs2 in Hk.
    destruct (Hk ltac:(eauto)) as [s3 Hs3]. unfold SettingsGet, checked, throw.
    destruct (e_closed env3); [by split; [right|]|]. rewrite Hs3. split; [by right|]. by eexists.
  - split; [left|]; eauto.
Qed.
