(* ===== verification/Campaign.v ===== *)
(** * Campaign transitions ([internal/control/campaign.go], [errors.go], [events.go])

    The synchronous campaign operations the HTTP layer calls, as programs over
    the store, and the campaign state machine they respect under every
    interleaving with the control loops and with each other. *)

From S2P Require Import Prelude Enums Model MemTable MemData DeliveryRepo Repos Prog.

(** ** Errors *)

Definition ErrInvalidTransition : error := errNamed "control: invalid campaign transition".
Definition ErrNoRecipients : error := errNamed "control: campaign has no recipients".
Definition ErrNoSender : error := errNamed "control: campaign sender is missing".
Definition ErrNoVersion : error := errNamed "control: campaign has no message version".

(** ** Events *)

Definition EventCampaignStarted : string := "campaign.started".
Definition EventCampaignPaused : string := "campaign.paused".
Definition EventCampaignCompleted : string := "campaign.completed".
Definition EventCampaignCancelled : string := "campaign.cancelled".

Record campaignEventPayload := mkPayload {
  ep_CampaignID : string;
  ep_Name : string;
  ep_Status : CampaignStatus;
  ep_VersionID : string;
  ep_SenderID : string;
  ep_OccurredAt : Time;
  ep_ByStatus : gmap DeliveryStatus Z;
}.

(** ** Counting *)

Definition inflightStatuses : list DeliveryStatus :=
  [DeliveryPending; DeliveryQueued; DeliveryLeased; DeliveryDeferred].

(** [splitCounts]: the total and the part in flight. *)
Definition splitOne (kv : DeliveryStatus * Z) (acc : Z * Z) : Z * Z :=
  (int64 (acc.1 + kv.2),
   if contains inflightStatuses kv.1 then int64 (acc.2 + kv.2) else acc.2).

Definition splitCounts (counts : gmap DeliveryStatus Z) : Z * Z :=
  foldr splitOne (0, 0) (map_to_list counts).

Definition maxRetryChunks : nat := 1000.
Definition defaultRetryStatuses : list DeliveryStatus := [DeliveryFailed].

Section campaign.
(** [json.Marshal] of an event payload: the text goes to the host as it is. *)
Context (marshal : campaignEventPayload → string).

Definition enqueueCampaignEvent (c : Campaign) (typ : string) (at_ : Time)
    (byStatus : gmap DeliveryStatus Z) : prog unit :=
  let payload := marshal (mkPayload (c_ID c) (c_Name c) (c_Status c) (c_VersionID c)
                            (c_SenderID c) at_ byStatus) in
  call (λ env, Enqueue env
    [zero <| o_Type := typ |> <| o_Payload := payload |> <| o_Status := OutboxPending |>
          <| o_CreatedAt := at_ |> <| o_NextAttemptAt := at_ |>]).

(** Binds the campaign to its template's published version. *)
Definition resolveCampaignVersion (cam : Campaign) : prog Campaign :=
  if negb (strEq (c_VersionID cam) "") then pret cam
  else if strEq (c_TemplateID cam) "" then fail ErrNoVersion
  else
    handle (call (λ env, GetTemplate env (c_TemplateID cam))) (λ r,
      match r with
      | inl err => if errIs err ErrNotFound then fail ErrNoVersion else fail err
      | inr tpl =>
          if strEq (t_PublishedVersionID tpl) "" then fail ErrNoVersion
          else pret (cam <| c_VersionID := t_PublishedVersionID tpl |>)
      end).

(** [now] is [c.now()]. *)
Definition StartCampaign (now : Time) (id : string) (at_ : Time) : prog unit :=
  let? cam := call (λ env, GetCampaign env id) in
  if negb (bool_decide (c_Status cam = CampaignDraft)) then fail ErrInvalidTransition
  else if strEq (c_VersionID cam) "" && strEq (c_TemplateID cam) "" then fail ErrNoVersion
  else if strEq (c_SenderID cam) "" then fail ErrNoSender
  else
    handle (call (λ env, GetSender env (c_SenderID cam))) (λ r,
      match r with
      | inl err => if errIs err ErrNotFound then fail ErrNoSender else fail err
      | inr _ =>
          let? counts := call (λ env, CountByStatus env id) in
          if (splitCounts counts).1 =? 0 then fail ErrNoRecipients
          else
            let at_ := TruncateTime at_ in
            let? cam :=
              (if negb (IsZero at_) && After at_ now
               then pret (cam <| c_Status := CampaignScheduled |> <| c_ScheduleAt := at_ |>)
               else
                 let? cam := resolveCampaignVersion cam in
                 pret (cam <| c_Status := CampaignRunning |> <| c_StartedAt := now |>)) in
            let? cam := call (λ env, UpdateCampaign env cam) in
            if bool_decide (c_Status cam = CampaignRunning)
            then enqueueCampaignEvent cam EventCampaignStarted now ∅
            else pret tt
      end).

Definition PauseCampaign (now : Time) (id : string) : prog unit :=
  let? cam := call (λ env, GetCampaign env id) in
  if negb (bool_decide (c_Status cam = CampaignRunning)) then fail ErrInvalidTransition
  else
    let? cam := call (λ env, UpdateCampaign env (cam <| c_Status := CampaignPaused |>)) in
    enqueueCampaignEvent cam EventCampaignPaused now ∅.

Definition ResumeCampaign (now : Time) (id : string) : prog unit :=
  let? cam := call (λ env, GetCampaign env id) in
  if negb (bool_decide (c_Status cam = CampaignPaused)) then fail ErrInvalidTransition
  else
    let cam := cam <| c_Status := CampaignRunning |> in
    let cam := if IsZero (c_StartedAt cam) then cam <| c_StartedAt := now |> else cam in
    let? cam := call (λ env, UpdateCampaign env cam) in
    enqueueCampaignEvent cam EventCampaignStarted now ∅.

Definition CancelCampaign (now : Time) (id : string) : prog unit :=
  let? cam := call (λ env, GetCampaign env id) in
  match c_Status cam with
  | CampaignDraft | CampaignScheduled | CampaignRunning | CampaignPaused =>
      let cam := cam <| c_Status := CampaignCancelled |> <| c_CompletedAt := now |> in
      let? cam := call (λ env, UpdateCampaign env cam) in
      enqueueCampaignEvent cam EventCampaignCancelled now ∅
  | _ => fail ErrInvalidTransition
  end.

(** The requeue loop: how many rows moved, and the error that stopped it. *)
Fixpoint retryLoop (i : nat) (filter : RetryFilter) (chunk total : Z) : prog (Z * option error) :=
  match i with
  | O => pret (total, None)
  | S i =>
      handle ctxErr (λ r,
        match r with
        | inl err => pret (total, Some err)
        | inr _ =>
            handle (call (λ env, Requeue env filter chunk)) (λ r,
              match r with
              | inl err => pret (total, Some err)
              | inr n =>
                  let total := int64 (total + n) in
                  if n <? chunk then pret (total, None) else retryLoop i filter chunk total
              end)
        end)
  end.

(** [(int, error)]: the count is returned with the error. *)
Definition RetryCampaign (chunk : Z) (now : Time) (id : string) (filter : RetryFilter)
    : prog (Z * option error) :=
  handle (call (λ env, GetCampaign env id)) (λ r,
    match r with
    | inl err => pret (0, Some err)
    | inr cam =>
        match c_Status cam with
        | CampaignRunning | CampaignPaused | CampaignCompleted =>
            let filter := filter <| rf_CampaignID := id |> in
            let filter := if IsZero (rf_Now filter) then filter <| rf_Now := now |> else filter in
            let filter := if len (rf_Statuses filter) =? 0
                          then filter <| rf_Statuses := defaultRetryStatuses |> else filter in
            if match rf_DeliveryIDs filter with Some ids => len ids =? 0 | None => false end
            then pret (0, None)
            else
              let? res := retryLoop maxRetryChunks filter chunk 0 in
              match res with
              | (total, Some err) => pret (total, Some err)
              | (total, None) =>
                  if (total =? 0) || negb (bool_decide (c_Status cam = CampaignCompleted))
                  then pret (total, None)
                  else
                    let cam := cam <| c_Status := CampaignRunning |> <| c_CompletedAt := zeroTime |> in
                    handle (call (λ env, UpdateCampaign env cam)) (λ r,
                      match r with
                      | inl err => pret (total, Some err)
                      | inr cam =>
                          handle (enqueueCampaignEvent cam EventCampaignStarted now ∅) (λ r,
                            match r with
                            | inl err => pret (total, Some err)
                            | inr _ => pret (total, None)
                            end)
                      end)
              end
        | _ => pret (0, Some ErrInvalidTransition)
        end
    end).
End campaign.

(** ** The campaign state machine *)

Inductive campaignEdge : CampaignStatus → CampaignStatus → Prop :=
  | ce_schedule : campaignEdge CampaignDraft CampaignScheduled
  | ce_start : campaignEdge CampaignDraft CampaignRunning
  | ce_promote : campaignEdge CampaignScheduled CampaignRunning
  | ce_pause : campaignEdge CampaignRunning CampaignPaused
  | ce_resume : campaignEdge CampaignPaused CampaignRunning
  | ce_complete : campaignEdge CampaignRunning CampaignCompleted
  | ce_retry : campaignEdge CampaignCompleted CampaignRunning
  | ce_cancel s :
      s ∈ [CampaignDraft; CampaignScheduled; CampaignRunning; CampaignPaused] →
      campaignEdge s CampaignCancelled.

(** Rows are filed under their ID and versions have room to grow. *)
Definition campaignsOk (td : tenantData) : Prop :=
  ∀ id c, campaigns td !! id = Some c → c_ID c = id ∧ 0 ≤ c_Version c < maxInt64.

(** Campaign rows stay, their version never goes back, and a status changes
    only together with the version. *)
Definition evolve (td td' : tenantData) : Prop :=
  ∀ id c, campaigns td !! id = Some c → ∃ c', campaigns td' !! id = Some c' ∧
    c_Version c ≤ c_Version c' ∧ (c_Version c' = c_Version c → c_Status c' = c_Status c).

(** What an operation tolerates between two of its calls. *)
Definition campaignsRely (td td' : tenantData) : Prop := evolve td td' ∧ campaignsOk td'.

(** What every call of an operation does: statuses move along edges. *)
Definition campaignsGuar (td td' : tenantData) : Prop :=
  evolve td td' ∧
  ∀ id c c', campaigns td !! id = Some c → campaigns td' !! id = Some c' →
    c_Status c' = c_Status c ∨ campaignEdge (c_Status c) (c_Status c').

#[global] Instance evolve_preorder : PreOrder evolve.
Proof.
  split.
  - intros td id c Hc. exists c. split_and!; [done|lia|done].
  - intros td1 td2 td3 H12 H23 id c Hc. destruct (H12 id c Hc) as (c2&Hc2&Hv2&Hs2).
    destruct (H23 id c2 Hc2) as (c3&Hc3&Hv3&Hs3). exists c3. split_and!; [done|lia|].
    intros Heq. rewrite Hs3 by lia. apply Hs2. lia.
Qed.

(** The others' steps may be any number of steps of these operations. *)
Lemma guar_rely td td' : campaignsGuar td td' → campaignsOk td' → campaignsRely td td'.
Proof. by intros [? _]. Qed.

Lemma guar_frame td td' : campaigns td' = campaigns td → campaignsGuar td td'.
Proof.
  intros He. split.
  - intros id c Hc. rewrite He. exists c. split_and!; [done|lia|done].
  - intros id c c' Hc. rewrite He, Hc. intros [= ->]. by left.
Qed.

(** [c], read with status [s], is not outdated unless its version moved on. *)
Definition knows (c : Campaign) (s : CampaignStatus) (td : tenantData) : Prop :=
  ∃ cur, campaigns td !! c_ID c = Some cur ∧ c_Version c ≤ c_Version cur ∧
    (c_Version cur = c_Version c → c_Status cur = s).

Lemma knows_evolve c s td td' : knows c s td → evolve td td' → knows c s td'.
Proof.
  intros (cur&Hcur&Hv&Hs) Hev. destruct (Hev _ _ Hcur) as (cur'&?&?&Hs').
  exists cur'. split_and!; [done|lia|]. intros Heq. rewrite Hs' by lia. apply Hs. lia.
Qed.

Lemma knows_ext c c' s td : c_ID c' = c_ID c → c_Version c' = c_Version c → knows c s td → knows c' s td.
Proof. unfold knows. by intros -> ->. Qed.

Lemma knows_read td id c : campaigns td !! id = Some c → c_ID c = id → knows c (c_Status c) td.
Proof. intros Hc <-. exists c. split_and!; [done|lia|done]. Qed.

(** A frame call returns with the campaigns as it found them. *)
Definition frameOp {B} (op : Env → M tenantData B) : Prop :=
  ∀ env td, campaigns (op env td).2 = campaigns td.

Section rules.
Implicit Types (td : tenantData).

Abbreviation cwp := (wp campaignsRely campaignsGuar).

(** What was known stays known while a program runs. *)
Lemma wp_evolve {A} (p : prog A) Q td :
  cwp p Q td → cwp p (λ r td', Q r td' ∧ evolve td td') td.
Proof.
  assert (H : ∀ td0, evolve td td0 → cwp p Q td0 → cwp p (λ r td', Q r td' ∧ evolve td td') td0);
    [|by apply H].
  induction p as [r|B op k IH|k IH]; intros td0 Hev; cbn [wp].
  - done.
  - intros Hc env td1 HR. specialize (Hc env td1 HR). destruct (op env td1) as [r td2].
    destruct Hc as [HG Hk]. split; [done|]. apply IH; [|done].
    destruct HR as [HR _], HG as [HG _]. by do 2 (etrans; [|eassumption]).
  - intros Hk b. by apply IH.
Qed.

Lemma wp_frame {B} (op : Env → M tenantData B) Q td :
  frameOp op → (∀ r td', evolve td td' → Q r td') → cwp (call op) Q td.
Proof.
  intros Hf HQ. apply wp_call. intros env td0 [Hev _].
  pose proof (guar_frame _ _ (Hf env td0)) as HG. split; [done|]. apply HQ.
  destruct HG as [HG _]. by etrans.
Qed.

Lemma wp_GetCampaign id Q td :
  (∀ e td', Q (inl e) td') → (∀ c td', c_ID c = id → knows c (c_Status c) td' → Q (inr c) td') →
  cwp (call (λ env, GetCampaign env id)) Q td.
Proof.
  intros He Hc. apply wp_call. intros env td0 [Hev Hok].
  assert (Hfr : campaigns (GetCampaign env id td0).2 = campaigns td0).
  { unfold GetCampaign, zoom, Get, checked, throw. destruct (e_closed env); [done|].
    by destruct (lget _ td0 !! id). }
  split; [by apply guar_frame|]. revert Hfr. unfold GetCampaign, zoom, Get, checked, throw.
  destruct (e_closed env); cbn; [intros; apply He|].
  destruct (campaigns td0 !! id) as [c|] eqn:Hl; cbn; [|intros; apply He].
  intros _. destruct (Hok _ _ Hl) as [Hid _]. apply Hc; [done|]. by eapply knows_read.
Qed.

Lemma storedCampaign env cur c :
  let row := scrubbed campaignMeta (truncateRow campaignMeta (updateRow campaignMeta env cur c)) in
  c_Status row = c_Status c ∧ c_Version row = int64 (c_Version cur + 1).
Proof.
  split.
  - by destruct c.
  - pose proof (mo_ver_rest (m := campaignMeta) (field c_Version) eq_refl) as Hun.
    exact (eq_trans (unobserved_stored campaignMeta _ _ Hun)
      (updateRow_version campaignMeta env cur c (field c_Version) eq_refl)).
Qed.

(** The commit: when the version still matches, the status read is the
    status replaced. *)
Lemma UpdateCampaign_guar env c s td :
  campaignsOk td → knows c s td → s = c_Status c ∨ campaignEdge s (c_Status c) →
  campaignsGuar td (UpdateCampaign env c td).2.
Proof.
  intros Hok (cur&Hcur&Hv&Hs) Hedge. unfold UpdateCampaign, zoomWith.
  change (lget (field campaigns) td) with (campaigns td).
  destruct (Update campaignMeta env (c, campaigns td)) as [[e|[]] [c' rows]] eqn:Hu.
  - assert (rows = campaigns td) as ->; [|by apply guar_frame].
    unfold Update, checked, throw in Hu. repeat case_match; by simplify_eq.
  - apply Update_inv in Hu as (cur'&_&Hcur'&Hver&_&Hc'&Hrows).
    specialize (Hver _ eq_refl). change (lget (m_id campaignMeta) c) with (c_ID c) in *.
    rewrite Hcur in Hcur'. injection Hcur' as <-. change (c_Version cur = c_Version c) in Hver.
    specialize (Hs Hver). destruct (Hok _ _ Hcur) as [_ Hb].
    destruct (storedCampaign env cur c) as [Hst Hrv]. rewrite <- Hc' in Hst, Hrv.
    rewrite int64_small in Hrv by (unfold in_int64, minInt64, maxInt64 in *; lia).
    revert Hrows Hst Hrv. generalize (scrubbed campaignMeta (truncateRow campaignMeta c')).
    intros row -> Hst Hrv. cbn [snd]. clear Hc'. split.
    + intros id x Hx. change (campaigns (lset (field campaigns) ?r td)) with r.
      destruct (decide (id = c_ID c)) as [->|Hne].
      * exists row. rewrite lookup_insert_eq. simplify_eq. split_and!; [done|lia|lia].
      * exists x. rewrite lookup_insert_ne by done. split_and!; [done|lia|done].
    + intros id x x' Hx. change (campaigns (lset (field campaigns) ?r td)) with r.
      intros [[<- <-]|[_ Hx']]%lookup_insert_Some.
      * simplify_eq. rewrite Hst. destruct Hedge as [->|?]; auto.
      * simplify_eq. by left.
Qed.

Lemma wp_UpdateCampaign c s Q td :
  knows c s td → s = c_Status c ∨ campaignEdge s (c_Status c) →
  (∀ r td', Q r td') → cwp (call (λ env, UpdateCampaign env c)) Q td.
Proof.
  intros Hk Hedge HQ. apply wp_call. intros env td0 [Hev Hok]. split; [|apply HQ].
  eapply UpdateCampaign_guar; [done| |done]. by eapply knows_evolve.
Qed.
End rules.

(** Calls that leave the campaigns alone. *)
Lemma frame_Enqueue evs : frameOp (λ env, Enqueue env evs).
Proof.
  intros env td. unfold Enqueue, checked, throw. destruct (e_closed env); [done|]. cbn.
  generalize 0%nat as i. revert td. induction evs as [|e evs IH]; intros td i; [done|].
  cbn [enqueueLoop]. by rewrite IH.
Qed.

Lemma frame_GetTemplate id : frameOp (λ env, GetTemplate env id).
Proof.
  intros env td. unfold GetTemplate, zoom, Get, checked, throw. destruct (e_closed env); [done|].
  by destruct (lget _ td !! id).
Qed.

Lemma frame_GetSender id : frameOp (λ env, GetSender env id).
Proof.
  intros env td. unfold GetSender, zoom, Get, checked, throw. destruct (e_closed env); [done|].
  by destruct (lget _ td !! id).
Qed.

Lemma frame_CountByStatus id : frameOp (λ env, CountByStatus env id).
Proof. intros env td. unfold CountByStatus, checked, throw. by destruct (e_closed env). Qed.

Lemma frame_Requeue f limit : frameOp (λ env, Requeue env f limit).
Proof. intros env td. unfold Requeue, checked, throw. by destruct (e_closed env). Qed.

Create HintDb frame.
#[export] Hint Resolve frame_Enqueue frame_GetTemplate frame_GetSender frame_CountByStatus frame_Requeue : frame.

(** One call that only reads or writes other repositories. *)
Ltac wp_skip := apply wp_frame; [solve [auto with frame]|].

Section safety.
Context (marshal : campaignEventPayload → string).
Abbreviation cwp := (wp campaignsRely campaignsGuar).

Lemma enqueue_safe c typ at_ m Q td :
  (∀ r td', evolve td td' → Q r td') → cwp (enqueueCampaignEvent marshal c typ at_ m) Q td.
Proof. intros HQ. unfold enqueueCampaignEvent. by wp_skip. Qed.

Lemma resolve_safe c Q td :
  (∀ e td', evolve td td' → Q (inl e) td') →
  (∀ v td', evolve td td' → Q (inr (c <| c_VersionID := v |>)) td') →
  cwp (resolveCampaignVersion c) Q td.
Proof.
  intros He Hv. unfold resolveCampaignVersion.
  destruct (negb _); cbn [pret wp].
  { specialize (Hv (c_VersionID c) td ltac:(done)). by destruct c. }
  destruct (strEq _ _); cbn [fail wp]; [by apply He|].
  apply wp_handle. wp_skip. intros [e|tpl] td' Hev; [destruct (errIs _ _); by apply He|].
  destruct (strEq _ _); [by apply He|by apply Hv].
Qed.

Lemma StartCampaign_safe now id at_ td : cwp (StartCampaign marshal now id at_) (λ _ _, True) td.
Proof.
  unfold StartCampaign. apply wp_pbind, wp_GetCampaign; [done|]. intros c td1 Hid Hk.
  case_bool_decide as Hs; cbn [negb]; [|done]. rewrite Hs in Hk.
  destruct (_ && _); [done|]. destruct (strEq _ _); [done|].
  apply wp_handle. wp_skip. intros [e|snd] td2 Hev2; [by destruct (errIs _ _)|].
  apply wp_pbind. wp_skip. intros [e|counts] td3 Hev3; [done|].
  destruct (_ =? 0); [done|].
  assert (Hk3 : knows c CampaignDraft td3) by (eapply knows_evolve; [done|]; by etrans).
  apply wp_pbind. destruct (_ && _); cbn [pret wp].
  - apply wp_pbind. eapply wp_UpdateCampaign; [by eapply knows_ext; [..|exact Hk3]|by right; constructor|].
    intros [e|c'] td4; [done|]. case_bool_decide; [|done]. by apply enqueue_safe.
  - apply wp_pbind, resolve_safe; [done|]. intros v td4 Hev4.
    apply wp_pbind. eapply wp_UpdateCampaign;
      [eapply knows_ext; [..|exact (knows_evolve _ _ _ _ Hk3 Hev4)]; done|by right; constructor|].
    intros [e|c'] td5; [done|]. case_bool_decide; [|done]. by apply enqueue_safe.
Qed.

Lemma PauseCampaign_safe now id td : cwp (PauseCampaign marshal now id) (λ _ _, True) td.
Proof.
  unfold PauseCampaign. apply wp_pbind, wp_GetCampaign; [done|]. intros c td1 Hid Hk.
  case_bool_decide as Hs; cbn [negb]; [|done]. rewrite Hs in Hk.
  apply wp_pbind. eapply wp_UpdateCampaign; [by eapply knows_ext; [..|exact Hk]|by right; constructor|].
  intros [e|c'] td2; [done|]. by apply enqueue_safe.
Qed.

Lemma ResumeCampaign_safe now id td : cwp (ResumeCampaign marshal now id) (λ _ _, True) td.
Proof.
  unfold ResumeCampaign. apply wp_pbind, wp_GetCampaign; [done|]. intros c td1 Hid Hk.
  case_bool_decide as Hs; cbn [negb]; [|done]. rewrite Hs in Hk. cbv zeta.
  set (c1 := if IsZero _ then _ else _).
  assert (c_ID c1 = c_ID c ∧ c_Version c1 = c_Version c ∧ c_Status c1 = CampaignRunning) as (H1&H2&H3).
  { unfold c1. by destruct (IsZero _). }
  apply wp_pbind. eapply (wp_UpdateCampaign c1); [by eapply knows_ext; [..|exact Hk]| |].
  { right. rewrite H3. constructor. }
  intros [e|c'] td2; [done|]. by apply enqueue_safe.
Qed.

Lemma CancelCampaign_safe now id td : cwp (CancelCampaign marshal now id) (λ _ _, True) td.
Proof.
  unfold CancelCampaign. apply wp_pbind, wp_GetCampaign; [done|]. intros c td1 Hid Hk.
  destruct (c_Status c) eqn:Hs; try done.
  all: apply wp_pbind; eapply wp_UpdateCampaign; [by eapply knows_ext; [..|exact Hk]
    |right; apply ce_cancel; by apply (bool_decide_unpack _)|].
  all: intros [e|c'] td2; [done|]; by apply enqueue_safe.
Qed.

Lemma retryLoop_safe i f chunk total Q td :
  (∀ r td', evolve td td' → Q r td') → cwp (retryLoop i f chunk total) Q td.
Proof.
  revert total td. induction i as [|i IH]; intros total td HQ; cbn [retryLoop]; [by apply HQ|].
  apply wp_handle, wp_ctxErr; [by apply HQ|]. apply wp_handle. wp_skip.
  intros [e|n] td1 Hev; [by apply HQ|]. cbv zeta. destruct (n <? chunk); [by apply HQ|].
  apply IH. intros r td' Hev'. apply HQ. by etrans.
Qed.

Lemma RetryCampaign_safe chunk now id f td :
  cwp (RetryCampaign marshal chunk now id f) (λ _ _, True) td.
Proof.
  unfold RetryCampaign. apply wp_handle, wp_GetCampaign; [done|]. intros c td1 Hid Hk.
  destruct (c_Status c) eqn:Hs; try done.
  all: cbv zeta; destruct (match rf_DeliveryIDs _ with Some _ => _ | None => _ end); [done|].
  all: apply wp_pbind, retryLoop_safe; intros [e|[total [e|]]] td2 Hev; try done.
  all: destruct (_ || _) eqn:Hcond; [done|].
  1, 2: by rewrite bool_decide_eq_false_2, orb_true_r in Hcond.
  apply wp_handle. eapply wp_UpdateCampaign;
    [eapply knows_ext; [..|exact (knows_evolve _ _ _ _ Hk Hev)]; done|by right; constructor|].
  intros [e|c'] td3; [done|]. apply wp_handle, enqueue_safe. by intros [].
Qed.
End safety.
