(* ===== verification/CampaignLoops.v ===== *)
(** * The campaign loops ([internal/control/campaign_loops.go], [loops.go], [maintenance.go])

    The leader's per-tenant loops: the scheduler, the finalizer, the
    canceller, the lease reaper and retention, as programs over the store. *)

From S2P Require Import Prelude Enums Model MemTable MemData DeliveryRepo Repos Prog Settings Campaign.

(** The options of [options.go] the loops read. *)
Record ctlConfig := mkCtlConfig {
  cfg_CampaignPage : Z;
  cfg_CancelChunk : Z;
  cfg_RetryChunk : Z;
  cfg_LeaseReapLimit : Z;
  cfg_RetentionChunk : Z;
  cfg_RetentionMaxChunks : nat;
  cfg_StatsRefreshScan : Z;
  cfg_largeCampaignRows : Z;
  cfg_largeCampaignEvery : Z;
  cfg_trackingRefreshWindow : Duration;
}.

(** [defaultConfig] *)
Definition defaultConfig : ctlConfig :=
  mkCtlConfig 200 10000 10000 5000 5000 200 2000 100000 6 (14 * 24 * Hour).

(** [raced]: somebody else changed the row first. *)
Definition raced (e : error) : bool := errIs e ErrConflict || errIs e ErrNotFound.

(** ** eachCampaign

    [fn] threads the loop's own state and returns the error that stops the
    walk.  The source's [for] has no bound; [fuel] bounds the pages, and
    [each_campaign_terminates] gives the bound that is always enough. *)

Section each.
Context {S : Type} (fn : S → Campaign → prog (S * option error)).

Fixpoint eachItem (items : list Campaign) (s : S) : prog (S * option error) :=
  match items with
  | [] => pret (s, None)
  | c :: items' =>
      let? res := fn s c in
      match res with
      | (s', Some err) => pret (s', Some err)
      | (s', None) => eachItem items' s'
      end
  end.

Fixpoint eachPage (fuel : nat) (statuses : list CampaignStatus) (pageSize : Z) (cursor : string) (s : S)
    : prog (S * option error) :=
  match fuel with
  | O => pret (s, Some errFuel)
  | Datatypes.S fuel =>
      handle ctxErr (λ r,
        match r with
        | inl err => pret (s, Some err)
        | inr _ =>
            handle (call (λ env, ListByStatus env statuses (mkPage pageSize cursor))) (λ r,
              match r with
              | inl err => pret (s, Some err)
              | inr res =>
                  let? out := eachItem (res_Items res) s in
                  match out with
                  | (s', Some err) => pret (s', Some err)
                  | (s', None) =>
                      if strEq (res_NextCursor res) "" then pret (s', None)
                      else eachPage fuel statuses pageSize (res_NextCursor res) s'
                  end
              end)
        end)
  end.

Definition eachCampaign (fuel : nat) (statuses : list CampaignStatus) (pageSize : Z) (s : S)
    : prog (S * option error) :=
  eachPage fuel statuses pageSize "" s.
End each.

(** A loop without state of its own: [func(c) error]. *)
Definition stateless (fn : Campaign → prog unit) (_ : unit) (c : Campaign) : prog (unit * option error) :=
  handle (fn c) (λ r, match r with inl err => pret (tt, Some err) | inr _ => pret (tt, None) end).

Definition walkCampaigns (fuel : nat) (statuses : list CampaignStatus) (pageSize : Z)
    (fn : Campaign → prog unit) : prog unit :=
  let? out := eachCampaign (stateless fn) fuel statuses pageSize tt in
  match out.2 with Some err => fail err | None => pret tt end.

Section loops.
Context (marshal : campaignEventPayload → string).

(** ** Scheduler *)

Definition schedulerOne (now : Time) (c : Campaign) : prog unit :=
  if After (c_ScheduleAt c) now then pret tt
  else
    handle (resolveCampaignVersion c) (λ r,
      match r with
      | inl _ => pret tt
      | inr c =>
          let c := c <| c_Status := CampaignRunning |> in
          let c := if IsZero (c_StartedAt c) then c <| c_StartedAt := now |> else c in
          handle (call (λ env, UpdateCampaign env c)) (λ r,
            match r with
            | inl err => if raced err then pret tt else fail err
            | inr c => handle (enqueueCampaignEvent marshal c EventCampaignStarted now ∅) (λ _, pret tt)
            end)
      end).

Definition schedulerTick (fuel : nat) (page : Z) (now : Time) : prog unit :=
  walkCampaigns fuel [CampaignScheduled] page (schedulerOne now).

(** ** Finalizer *)

Definition statsRefreshHot : Duration := Hour.
Definition statsRefreshCold : Duration := 10 * Minute.

Definition withTracking (stats : CampaignStats) (tc : TrackingCounts) : CampaignStats :=
  stats <| cs_UniqueOpens := tc_UniqueOpens tc |>
        <| cs_UniqueClicks := tc_UniqueClicks tc |>
        <| cs_Unsubscribed := tc_Unsubscribed tc |>
        <| cs_UnsubscribeClicked := tc_UnsubscribeClicked tc |>.

(** The state of one [tickRunning]: [f.skips] and [live]. *)
Definition finState : Type := gmap string Z * gset string.

Definition finalizerOne (cfg : ctlConfig) (now : Time) (st : finState) (c : Campaign)
    : prog (finState * option error) :=
  let '(skips, live) := st in
  let live := {[c_ID c]} ∪ live in
  if 0 <? default 0 (skips !! c_ID c)
  then pret ((<[c_ID c := int64 (default 0 (skips !! c_ID c) - 1)]> skips, live), None)
  else
    handle (call (λ env, CountByStatus env (c_ID c))) (λ r,
      match r with
      | inl err => pret ((skips, live), Some err)
      | inr counts =>
          let '(total, inflight) := splitCounts counts in
          let skips := if (cfg_largeCampaignRows cfg <? total) && (1 <? cfg_largeCampaignEvery cfg)
                       then <[c_ID c := cfg_largeCampaignEvery cfg - 1]> skips
                       else delete (c_ID c) skips in
          let stats := zero <| cs_ByStatus := counts |> <| cs_ComputedAt := now |> in
          handle (call (λ env, CountUnique env (c_ID c))) (λ r,
            let stats := match r with inl _ => stats | inr tc => withTracking stats tc end in
            handle (call (λ env, UpdateStats env (c_ID c) stats)) (λ r,
              match r with
              | inl err => if raced err then pret ((skips, live), None)
                           else pret ((skips, live), Some err)
              | inr _ =>
                  if (total =? 0) || (0 <? inflight) then pret ((skips, live), None)
                  else
                    let c := c <| c_Stats := stats |> <| c_Status := CampaignCompleted |>
                               <| c_CompletedAt := now |> in
                    handle (call (λ env, UpdateCampaign env c)) (λ r,
                      match r with
                      | inl err => if raced err then pret ((skips, live), None)
                                   else pret ((skips, live), Some err)
                      | inr c =>
                          handle (enqueueCampaignEvent marshal c EventCampaignCompleted now counts) (λ _,
                            pret ((delete (c_ID c) skips, live), None))
                      end)
              end))
      end).

(** The skips that survive: [for id := range f.skips { if !live[id] { delete } }] *)
Definition pruneSkips (skips : gmap string Z) (live : gset string) : gmap string Z :=
  filter (λ kv, kv.1 ∈ live) skips.

Definition tickRunning (fuel : nat) (cfg : ctlConfig) (now : Time) (skips : gmap string Z)
    : prog (gmap string Z * option error) :=
  let? out := eachCampaign (finalizerOne cfg now) fuel [CampaignRunning] (cfg_CampaignPage cfg) (skips, ∅) in
  let '((skips, live), err) := out in
  pret (pruneSkips skips live, err).

Definition statsRefreshDue (c : Campaign) (now : Time) (window : Duration) : bool :=
  let finished := if IsZero (c_CompletedAt c) then c_UpdatedAt c else c_CompletedAt c in
  if IsZero finished then false
  else
    let age := subTime now finished in
    if window <? age then false
    else if age <=? statsRefreshHot then true
    else
      let last := cs_ComputedAt (c_Stats c) in
      if IsZero last then true else negb (Before now (addTime last statsRefreshCold)).

Definition refreshOne (now : Time) (c : Campaign) : prog unit :=
  let? tc := call (λ env, CountUnique env (c_ID c)) in
  let stats := (withTracking (c_Stats c) tc) <| cs_ComputedAt := now |> in
  handle (call (λ env, UpdateStats env (c_ID c) stats)) (λ r,
    match r with
    | inl err => if raced err then pret tt else fail err
    | inr _ => pret tt
    end).

(** One page of the refresh walk. *)
Fixpoint refreshItems (cfg : ctlConfig) (now : Time) (items : list Campaign) : prog unit :=
  match items with
  | [] => pret tt
  | c :: items' =>
      if negb (statsRefreshDue c now (cfg_trackingRefreshWindow cfg)) then refreshItems cfg now items'
      else refreshOne now c ;? refreshItems cfg now items'
  end.

(** The walk; the result is what [f.refreshCursor] is set to, if anything,
    and the error. *)
Fixpoint refreshPages (fuel : nat) (cfg : ctlConfig) (now : Time) (scanned : Z) (cursor : string)
    : prog (option string * option error) :=
  match fuel with
  | O => pret (None, Some errFuel)
  | S fuel =>
      if negb (scanned <? cfg_StatsRefreshScan cfg) then pret (Some cursor, None)
      else
        handle ctxErr (λ r,
          match r with
          | inl err => pret (None, Some err)
          | inr _ =>
              handle (call (λ env, ListByStatus env [CampaignCompleted]
                                     (mkPage (cfg_CampaignPage cfg) cursor))) (λ r,
                match r with
                | inl err => pret (Some "", Some err)
                | inr res =>
                    handle (refreshItems cfg now (res_Items res)) (λ r,
                      match r with
                      | inl err => pret (Some "", Some err)
                      | inr _ =>
                          if strEq (res_NextCursor res) "" then pret (Some "", None)
                          else refreshPages fuel cfg now (scanned + len (res_Items res)) (res_NextCursor res)
                      end)
                end)
          end)
  end.

Definition refreshTracking (fuel : nat) (cfg : ctlConfig) (now : Time) (refreshCursor : string)
    : prog (string * option error) :=
  if (cfg_trackingRefreshWindow cfg <=? 0) || (cfg_StatsRefreshScan cfg <=? 0)
  then pret (refreshCursor, None)
  else
    let? out := refreshPages fuel cfg now 0 refreshCursor in
    pret (default refreshCursor out.1, out.2).

(** [finalizer.Tick]: both halves run; the first error is reported. *)
Definition finalizerTick (fuel : nat) (cfg : ctlConfig) (now : Time) (st : gmap string Z * string)
    : prog ((gmap string Z * string) * option error) :=
  let? out := tickRunning fuel cfg now st.1 in
  let? rout := refreshTracking fuel cfg now st.2 in
  pret ((out.1, rout.1), match out.2 with Some err => Some err | None => rout.2 end).
End loops.

(** ** Canceller *)

Definition cancellableStatuses : list DeliveryStatus := [DeliveryPending; DeliveryQueued; DeliveryDeferred].

Definition cancellerOne (chunk : Z) (cam : Campaign) : prog unit :=
  call (λ env, BulkTransition env (c_ID cam) cancellableStatuses DeliveryCancelled chunk) ;? pret tt.

Definition cancellerTick (fuel : nat) (page chunk : Z) : prog unit :=
  walkCampaigns fuel [CampaignCancelled] page (cancellerOne chunk).

(** ** Lease reaper *)

Definition leaseReaperTick (limit : Z) (now : Time) : prog unit :=
  call (λ env, ReleaseExpiredLeases env now limit) ;? pret tt.

(** ** Retention *)

Fixpoint chunkedDelete (maxChunks : nat) (del : Time → Z → Env → M tenantData Z) (cutoff : Time)
    (chunk total : Z) : prog (Z * option error) :=
  match maxChunks with
  | O => pret (total, None)
  | S i =>
      handle ctxErr (λ r,
        match r with
        | inl err => pret (total, Some err)
        | inr _ =>
            handle (call (del cutoff chunk)) (λ r,
              match r with
              | inl err => pret (total, Some err)
              | inr n =>
                  let total := int64 (total + n) in
                  if n <? chunk then pret (total, None) else chunkedDelete i del cutoff chunk total
              end)
        end)
  end.

(** [_, err := chunkedDelete(...); return err] *)
Definition chunked (cfg : ctlConfig) (del : Time → Z → Env → M tenantData Z) (cutoff : Time) : prog unit :=
  let? out := chunkedDelete (cfg_RetentionMaxChunks cfg) del cutoff (cfg_RetentionChunk cfg) 0 in
  match out.2 with Some err => fail err | None => pret tt end.

Definition retentionOne (cfg : ctlConfig) (cutoff : Time) (c : Campaign) : prog unit :=
  let finishedAt := if IsZero (c_CompletedAt c) then c_UpdatedAt c else c_CompletedAt c in
  if negb (Before finishedAt cutoff) then pret tt
  else chunked cfg (λ before limit env, DeleteDeliveriesBefore env (c_ID c) before limit) cutoff.

Definition deleteCampaignDeliveries (fuel : nat) (cfg : ctlConfig) (cutoff : Time) : prog unit :=
  walkCampaigns fuel [CampaignCompleted; CampaignCancelled] (cfg_CampaignPage cfg) (retentionOne cfg cutoff).

Definition deleteExpiredSuppressions (cfg : ctlConfig) (now : Time) : prog unit :=
  chunked cfg (λ before limit env, SuppressionDeleteBefore env before limit) now.

Definition deleteTenantWide (cfg : ctlConfig) (cutoff : Time) : prog unit :=
  chunked cfg (λ before limit env, TrackingDeleteBefore env before limit) cutoff ;?
  chunked cfg (λ before limit env, BounceDeleteBefore env before limit) cutoff ;?
  chunked cfg (λ before limit env, OutboxDeleteBefore env before limit) cutoff.

(** [now.AddDate(0, 0, -days)] on a UTC time. *)
Definition addDays (t : Time) (days : Z) : Time := t + days * (24 * Hour).

Definition retentionTick (fuel : nat) (cfg : ctlConfig) (rand tenant : string) (now : Time) : prog unit :=
  let? settings := LoadTenantSettings rand tenant now in
  if ts_RetentionDays settings <=? 0 then pret tt
  else
    let cutoff := addDays now (- ts_RetentionDays settings) in
    deleteCampaignDeliveries fuel cfg cutoff ;?
    deleteExpiredSuppressions cfg now ;?
    deleteTenantWide cfg cutoff.
