(* ===== verification/CampaignProps.v ===== *)
(** * Properties of the campaign operations and loops

    The campaign state machine under any number of concurrent operations and
    loops, the guards of a start, completion and its race with a retry, and the
    progress of the chunked loops. *)

From S2P Require Import Prelude Enums Model MemTable MemData DeliveryRepo DeliveryQueue DeliveryProps Repos Prog Settings Campaign CampaignLoops.

(** ** The loops respect the campaign state machine *)

Lemma elem_of_paginate {T} (rows : gmap string T) p keep x :
  x ∈ res_Items (paginate rows p keep) → ∃ id, rows !! id = Some x ∧ keep x = true.
Proof.
  unfold paginate. cbn. intros (id&Hid&Hx)%list_elem_of_omap.
  assert (Hin : id ∈ pageIDs rows (Normalize p) keep).
  { destruct (_ <? _); [|done]. by eapply subseteq_take. }
  apply elem_of_pageIDs in Hin as (v&Hv&Hk&_). simplify_eq. eauto.
Qed.

Lemma frame_ListByStatus ss p : frameOp (λ env, ListByStatus env ss p).
Proof.
  intros env td. unfold ListByStatus, zoom, listWhere, checked, throw. by destruct (e_closed env).
Qed.
Lemma frame_CountUnique id : frameOp (λ env, CountUnique env id).
Proof. intros env td. unfold CountUnique, checked, throw. by destruct (e_closed env). Qed.
Lemma frame_BulkTransition c from to limit : frameOp (λ env, BulkTransition env c from to limit).
Proof. intros env td. unfold BulkTransition, checked, throw. by destruct (e_closed env). Qed.
Lemma frame_Release at_ limit : frameOp (λ env, ReleaseExpiredLeases env at_ limit).
Proof. intros env td. unfold ReleaseExpiredLeases, checked, throw. by destruct (e_closed env). Qed.
Lemma frame_DeleteDeliveries c before limit : frameOp (λ env, DeleteDeliveriesBefore env c before limit).
Proof.
  intros env td. unfold DeleteDeliveriesBefore, checked, throw. destruct (e_closed env); [done|]. cbn.
  generalize (capTo limit (selectIDs (λ _ d, strEq (d_CampaignID d) c && Before (d_CreatedAt d) (TruncateTime before))
    (deliveries td))) as ids.
  intros ids. revert td. induction ids as [|id ids IH]; intros td; [done|]. cbn [foldl]. rewrite IH.
  unfold dropDelivery. destruct (deliveries td !! id); [|done]. by destruct (negb _).
Qed.
Lemma frame_SuppressionDelete before limit : frameOp (λ env, SuppressionDeleteBefore env before limit).
Proof. intros env td. unfold SuppressionDeleteBefore, checked, throw. by destruct (e_closed env). Qed.
Lemma frame_TrackingDelete before limit : frameOp (λ env, TrackingDeleteBefore env before limit).
Proof. intros env td. unfold TrackingDeleteBefore, checked, throw. by destruct (e_closed env). Qed.
Lemma frame_BounceDelete before limit : frameOp (λ env, BounceDeleteBefore env before limit).
Proof. intros env td. unfold BounceDeleteBefore, checked, throw. by destruct (e_closed env). Qed.
Lemma frame_OutboxDelete before limit : frameOp (λ env, OutboxDeleteBefore env before limit).
Proof. intros env td. unfold OutboxDeleteBefore, checked, throw. by destruct (e_closed env). Qed.
Lemma frame_SettingsGet : frameOp SettingsGet.
Proof. intros env td. unfold SettingsGet, checked, throw. destruct (e_closed env); [done|]. by destruct (settings td). Qed.
Lemma frame_SettingsCreate s : frameOp (λ env, SettingsCreate env s).
Proof. intros env td. unfold SettingsCreate, checked, throw. destruct (e_closed env); [done|]. by destruct (settings td). Qed.

#[export] Hint Resolve frame_ListByStatus frame_CountUnique frame_BulkTransition frame_Release
  frame_DeleteDeliveries frame_SuppressionDelete frame_TrackingDelete frame_BounceDelete
  frame_OutboxDelete frame_SettingsGet frame_SettingsCreate : frame.

Abbreviation cwp := (wp campaignsRely campaignsGuar).

(** A campaign as a listing returned it. *)
Definition listed (statuses : list CampaignStatus) (td : tenantData) (c : Campaign) : Prop :=
  knows c (c_Status c) td ∧ c_Status c ∈ statuses.

Lemma wp_ListByStatus statuses p Q td :
  (∀ e td', Q (inl e) td') →
  (∀ res td', Forall (listed statuses td') (res_Items res) → Q (inr res) td') →
  cwp (call (λ env, ListByStatus env statuses p)) Q td.
Proof.
  intros He Hq. apply wp_call. intros env td0 [_ Hok].
  split; [apply guar_frame, frame_ListByStatus|].
  unfold ListByStatus, zoom, listWhere, checked, throw. destruct (e_closed env); cbn; [apply He|].
  apply Hq. apply Forall_forall. intros c Hc. apply elem_of_paginate in Hc as (id&Hid&Hk).
  unfold contains in Hk. apply bool_decide_eq_true in Hk. split; [|done].
  eapply knows_read; [exact Hid|]. by apply (Hok id c).
Qed.

Lemma wp_UpdateStats id s Q td :
  (∀ r td', evolve td td' → Q r td') → cwp (call (λ env, UpdateStats env id s)) Q td.
Proof.
  intros HQ. apply wp_call. intros env td0 [Hev _].
  assert (HG : campaignsGuar td0 (UpdateStats env id s td0).2).
  { unfold UpdateStats, checked, throw. destruct (e_closed env); [by apply guar_frame|].
    destruct (campaigns td0 !! id) as [c|] eqn:Hc; [|by apply guar_frame]. cbn. split.
    - intros i x Hx. cbn. destruct (decide (i = id)) as [->|Hne].
      + rewrite lookup_insert_eq. eexists. split; [done|]. simplify_eq. cbn. split; [lia|done].
      + exists x. rewrite lookup_insert_ne by done. split_and!; [done|lia|done].
    - intros i x x' Hx. cbn. intros [[<- <-]|[_ Hx']]%lookup_insert_Some; simplify_eq; by left. }
  split; [done|]. apply HQ. destruct HG as [HG _]. by etrans.
Qed.

Section each_safe.
Context {S : Type} (fn : S → Campaign → prog (S * option error)) (statuses : list CampaignStatus).
Context (Hfn : ∀ s c td, knows c (c_Status c) td → c_Status c ∈ statuses →
                  cwp (fn s c) (λ _ _, True) td).

Lemma eachItem_safe items s td :
  Forall (listed statuses td) items → cwp (eachItem fn items s) (λ _ _, True) td.
Proof.
  revert s td. induction items as [|c items IH]; intros s td Hl; cbn [eachItem]; [done|].
  inversion Hl as [|? ? [Hk Hs] Hl']; subst. apply wp_pbind.
  eapply wp_mono; [|apply wp_evolve, (Hfn s c td Hk Hs)].
  intros [e|[s' [e|]]] td' [_ Hev]; [done..|]. apply IH.
  eapply Forall_impl; [exact Hl'|]. intros x [Hkx Hsx]. split; [|done]. by eapply knows_evolve.
Qed.

Lemma eachPage_safe fuel pageSize cursor s td :
  cwp (eachPage fn fuel statuses pageSize cursor s) (λ _ _, True) td.
Proof.
  revert cursor s td. induction fuel as [|fuel IH]; intros cursor s td; cbn [eachPage]; [done|].
  apply wp_handle, wp_ctxErr; [done|]. apply wp_handle, wp_ListByStatus; [done|].
  intros res td' Hl. apply wp_pbind. eapply wp_mono; [|by apply eachItem_safe].
  intros [e|[s' [e|]]] td'' _; [done..|]. by destruct (strEq _ _).
Qed.
End each_safe.

Lemma walkCampaigns_safe fuel statuses pageSize fn td :
  (∀ c td, knows c (c_Status c) td → c_Status c ∈ statuses → cwp (fn c) (λ _ _, True) td) →
  cwp (walkCampaigns fuel statuses pageSize fn) (λ _ _, True) td.
Proof.
  intros Hfn. unfold walkCampaigns, eachCampaign. apply wp_pbind.
  eapply wp_mono; [|apply eachPage_safe]; [by intros [e|[[] [e|]]] td' _|].
  intros [] c td' Hk Hs. unfold stateless. apply wp_handle.
  eapply wp_mono; [|by apply Hfn]. by intros [e|[]].
Qed.

Lemma chunked_safe cfg del cutoff td :
  (∀ before limit, frameOp (λ env, del before limit env)) →
  cwp (chunked cfg del cutoff) (λ _ _, True) td.
Proof.
  intros Hf. unfold chunked. apply wp_pbind. generalize 0 as total. revert td.
  induction (cfg_RetentionMaxChunks cfg) as [|i IH]; intros td total; cbn [chunkedDelete]; [done|].
  apply wp_handle, wp_ctxErr; [done|]. apply wp_handle, wp_frame; [apply Hf|].
  intros [e|n] td' _; [done|]. cbv zeta. destruct (n <? _); [done|]. apply IH.
Qed.

Section loops_safe.
Context (marshal : campaignEventPayload → string).

Lemma scheduler_safe fuel page now td : cwp (schedulerTick marshal fuel page now) (λ _ _, True) td.
Proof.
  apply walkCampaigns_safe. intros c td1 Hk Hs. apply list_elem_of_singleton in Hs. rewrite Hs in Hk.
  unfold schedulerOne. destruct (After _ _); [done|]. apply wp_handle, resolve_safe; [done|].
  intros v td2 Hev. cbv zeta. set (c1 := if IsZero _ then _ else _).
  assert (c_ID c1 = c_ID c ∧ c_Version c1 = c_Version c ∧ c_Status c1 = CampaignRunning) as (H1&H2&H3).
  { unfold c1. by destruct (IsZero _). }
  apply wp_handle. eapply (wp_UpdateCampaign c1);
    [eapply knows_ext; [exact H1|exact H2|exact (knows_evolve _ _ _ _ Hk Hev)]| |].
  { right. rewrite H3. constructor. }
  intros [e|c'] td3; [by destruct (raced e)|]. apply wp_handle. by apply enqueue_safe.
Qed.

Lemma finalizerOne_safe cfg now st c td :
  knows c (c_Status c) td → c_Status c ∈ [CampaignRunning] →
  cwp (finalizerOne marshal cfg now st c) (λ _ _, True) td.
Proof.
  intros Hk Hs. apply list_elem_of_singleton in Hs. rewrite Hs in Hk. unfold finalizerOne.
  destruct st as [skips live]. cbv zeta. destruct (0 <? _); [done|].
  apply wp_handle. wp_skip. intros [e|counts] td1 Hev1; [done|].
  destruct (splitCounts counts) as [total inflight].
  apply wp_handle. wp_skip. intros r td2 Hev2. set (stats := match r with inl _ => _ | inr _ => _ end).
  apply wp_handle, wp_UpdateStats. intros [e|[]] td3 Hev3; [by destruct (raced e)|].
  destruct (_ || _); [done|]. apply wp_handle.
  assert (Hk3 : knows c CampaignRunning td3)
    by (eapply knows_evolve; [exact Hk|]; etrans; [exact Hev1|]; by etrans).
  eapply wp_UpdateCampaign; [eapply knows_ext; [..|exact Hk3]; done|by right; constructor|].
  intros [e|c'] td4; [by destruct (raced e)|]. apply wp_handle. by apply enqueue_safe.
Qed.

Lemma refreshItems_safe cfg now items td : cwp (refreshItems cfg now items) (λ _ _, True) td.
Proof.
  revert td. induction items as [|c items IH]; intros td; cbn [refreshItems]; [done|].
  destruct (negb _); [apply IH|]. apply wp_pbind. unfold refreshOne. apply wp_pbind. wp_skip.
  intros [e|tc] td1 _; [done|]. apply wp_handle, wp_UpdateStats.
  intros [e|[]] td2 _; [destruct (raced e); [apply IH|done]|apply IH].
Qed.

Lemma finalizer_safe fuel cfg now st td : cwp (finalizerTick marshal fuel cfg now st) (λ _ _, True) td.
Proof.
  unfold finalizerTick. apply wp_pbind. unfold tickRunning, eachCampaign. apply wp_pbind.
  eapply wp_mono; [|apply eachPage_safe; apply finalizerOne_safe].
  intros [e|[[skips live] err]] td1 _; [done|]. cbn [wp pret]. apply wp_pbind. unfold refreshTracking.
  destruct (_ || _); [done|]. apply wp_pbind.
  eapply (wp_mono _ _ _ (λ _ _, True)); [by intros [e|[cur err']]|].
  generalize 0 as scanned. generalize st.2 as cursor. clear. revert td1.
  induction fuel as [|fuel IH]; intros td cursor scanned; cbn [refreshPages]; [done|].
  destruct (negb _); [done|]. apply wp_handle, wp_ctxErr; [done|]. apply wp_handle. wp_skip.
  intros [e|res] td2 _; [done|]. apply wp_handle.
  eapply wp_mono; [|apply refreshItems_safe]. intros [e|[]] td3 _; [done|]. by destruct (strEq _ _).
Qed.
End loops_safe.

Lemma canceller_safe fuel page chunk td : cwp (cancellerTick fuel page chunk) (λ _ _, True) td.
Proof.
  apply walkCampaigns_safe. intros c td1 _ _. unfold cancellerOne. apply wp_pbind. wp_skip.
  by intros [e|n] td2 _.
Qed.

Lemma leaseReaper_safe limit now td : cwp (leaseReaperTick limit now) (λ _ _, True) td.
Proof. unfold leaseReaperTick. apply wp_pbind. wp_skip. by intros [e|n] td2 _. Qed.

Lemma LoadTenantSettings_safe rand tenant at_ td :
  cwp (LoadTenantSettings rand tenant at_) (λ _ _, True) td.
Proof.
  unfold LoadTenantSettings. apply wp_handle. wp_skip. intros [e|s] td1 _; [|done].
  destruct (negb _); [done|]. apply wp_handle. wp_skip. intros [e'|s] td2 _; [|done].
  destruct (negb _); [done|]. by wp_skip.
Qed.

Lemma retention_safe fuel cfg rand tenant now td : cwp (retentionTick fuel cfg rand tenant now) (λ _ _, True) td.
Proof.
  unfold retentionTick. apply wp_pbind. eapply wp_mono; [|apply LoadTenantSettings_safe].
  intros [e|s] td1 _; [done|]. destruct (_ <=? 0); [done|]. cbv zeta. apply wp_pbind.
  eapply wp_mono; [|apply walkCampaigns_safe].
  2: { intros c td2 _ _. unfold retentionOne. destruct (negb _); [done|].
       apply chunked_safe. auto with frame. }
  intros [e|[]] td2 _; [done|]. apply wp_pbind. eapply wp_mono; [|apply chunked_safe; auto with frame].
  intros [e|[]] td3 _; [done|]. unfold deleteTenantWide.
  apply wp_pbind. eapply wp_mono; [|apply chunked_safe; auto with frame].
  intros [e|[]] td4 _; [done|]. apply wp_pbind. eapply wp_mono; [|apply chunked_safe; auto with frame].
  intros [e|[]] td5 _; [done|]. apply chunked_safe. auto with frame.
Qed.

(** ** Any number of concurrent operations *)

(** Every operation and loop that writes campaigns, and the maintenance loops
    that run beside them. *)
Inductive controlOp :=
  | OpStart (now : Time) (id : string) (at_ : Time)
  | OpPause (now : Time) (id : string)
  | OpResume (now : Time) (id : string)
  | OpCancel (now : Time) (id : string)
  | OpRetry (chunk : Z) (now : Time) (id : string) (f : RetryFilter)
  | OpScheduler (fuel : nat) (page : Z) (now : Time)
  | OpFinalizer (fuel : nat) (cfg : ctlConfig) (now : Time) (st : gmap string Z * string)
  | OpCanceller (fuel : nat) (page chunk : Z)
  | OpReaper (limit : Z) (now : Time)
  | OpRetention (fuel : nat) (cfg : ctlConfig) (rand tenant : string) (now : Time).

Definition discard {A} (p : prog A) : prog unit := handle p (λ _, pret tt).

Definition controlProg (marshal : campaignEventPayload → string) (op : controlOp) : prog unit :=
  match op with
  | OpStart now id at_ => StartCampaign marshal now id at_
  | OpPause now id => PauseCampaign marshal now id
  | OpResume now id => ResumeCampaign marshal now id
  | OpCancel now id => CancelCampaign marshal now id
  | OpRetry chunk now id f => discard (RetryCampaign marshal chunk now id f)
  | OpScheduler fuel page now => schedulerTick marshal fuel page now
  | OpFinalizer fuel cfg now st => discard (finalizerTick marshal fuel cfg now st)
  | OpCanceller fuel page chunk => cancellerTick fuel page chunk
  | OpReaper limit now => leaseReaperTick limit now
  | OpRetention fuel cfg rand tenant now => retentionTick fuel cfg rand tenant now
  end.

(** Programs that leave campaigns alone: the senders, ingest, tracking, ... *)
Inductive framed : prog unit → Prop :=
  | framed_done r : framed (Done r)
  | framed_call B (op : Env → M tenantData B) k : frameOp op → (∀ r, framed (k r)) → framed (Call op k)
  | framed_poll k : (∀ b, framed (k b)) → framed (Poll k).

Definition concurrent (marshal : campaignEventPayload → string) (p : prog unit) : Prop :=
  (∃ op, p = controlProg marshal op) ∨ framed p.

Lemma discard_safe {A} (p : prog A) td : cwp p (λ _ _, True) td → cwp (discard p) (λ _ _, True) td.
Proof. intros H. apply wp_handle. eapply wp_mono; [|exact H]. done. Qed.

Lemma concurrent_safe marshal p td : concurrent marshal p → cwp p (λ _ _, True) td.
Proof.
  intros [[op ->]|Hf].
  - destruct op; cbn [controlProg]; auto using StartCampaign_safe, PauseCampaign_safe,
      ResumeCampaign_safe, CancelCampaign_safe, scheduler_safe, canceller_safe, leaseReaper_safe,
      retention_safe, discard_safe, RetryCampaign_safe, finalizer_safe.
  - revert td. induction Hf as [r|B op k Hop _ IH|k _ IH]; intros td; cbn [wp].
    + done.
    + intros env td0 _. pose proof (guar_frame _ _ (Hop env td0)). destruct (op env td0) as [r td1].
      split; [done|]. apply IH.
    + intros b. apply IH.
Qed.

Lemma guar_refl td : campaignsGuar td td.
Proof. by apply guar_frame. Qed.

(** C7 (control/campaigns): the campaign state machine holds under concurrency.
    Take any number of starts, pauses, resumes, cancels, retries, scheduler,
    finalizer, canceller, reaper and retention ticks, and any programs that do
    not write campaigns (senders, ingest, tracking), all interleaved call by
    call: every atomic step moves every campaign along an edge of the state
    machine or leaves its status alone, and a cancelled campaign stays
    cancelled for ever. *)
Theorem campaign_state_machine marshal td0 tr ps td :
  poolRun (concurrent marshal) ([], td0) tr (ps, td) →
  Forall (λ s, campaignsOk s.1) tr →
  Forall (λ s, ∀ id c c', campaigns s.1 !! id = Some c → campaigns s.2 !! id = Some c' →
            c_Status c' = c_Status c ∨ campaignEdge (c_Status c) (c_Status c')) tr ∧
  (∀ id c, campaigns td0 !! id = Some c → c_Status c = CampaignCancelled →
     ∃ c', campaigns td !! id = Some c' ∧ c_Status c' = CampaignCancelled).
Proof.
  intros Hrun Hok.
  assert (HG : Forall (λ s, campaignsGuar s.1 s.2) tr).
  { eapply (pool_guarantee evolve campaignsGuar campaignsOk (concurrent marshal));
      [by intros ? ? [? _]|apply guar_refl|intros; by eapply concurrent_safe|apply poolOk_empty|done..]. }
  split; [eapply Forall_impl; [exact HG|]; by intros s [_ ?]|].
  clear Hok. assert (Hgen : ∀ c1 c2, poolRun (concurrent marshal) c1 tr c2 →
    ∀ id c, campaigns c1.2 !! id = Some c → c_Status c = CampaignCancelled →
    ∃ c', campaigns c2.2 !! id = Some c' ∧ c_Status c' = CampaignCancelled); [|exact (Hgen _ _ Hrun)].
  clear Hrun. induction HG as [|s tr [Hev Hst] _ IH]; intros c1 c2 Hrun id c Hc Hs.
  - inversion Hrun; subst. eauto.
  - inversion Hrun as [|? x ? ? Hstep Hrun']; subst. cbn in *.
    destruct (Hev id c Hc) as (c'&Hc'&_). apply (IH _ _ Hrun' id c' Hc').
    destruct (Hst id c c' Hc Hc') as [->|He]; [done|]. rewrite Hs in He.
    inversion He as [| | | | | | |s Hin]; subst; done || (by apply (bool_decide_eq_true_2 _) in Hin).
Qed.

(** ** Sums over a count *)

(** The sum of a count weighted by status. *)
Definition wsum (w : DeliveryStatus → Z) (l : list (DeliveryStatus * Z)) : Z :=
  foldr (λ kv acc, w kv.1 * kv.2 + acc) 0 l.

Lemma wsum_perm w l1 l2 : l1 ≡ₚ l2 → wsum w l1 = wsum w l2.
Proof. unfold wsum. induction 1; cbn [foldr]; lia. Qed.

Lemma wsum_insert w (m : gmap DeliveryStatus Z) s v :
  wsum w (map_to_list (<[s := v]> m)) = wsum w (map_to_list m) + w s * (v - default 0 (m !! s)).
Proof.
  rewrite (wsum_perm w _ ((s, v) :: map_to_list (delete s m))).
  2: { rewrite <- insert_delete_eq. by rewrite map_to_list_insert by apply lookup_delete_eq. }
  destruct (m !! s) as [u|] eqn:Hm; cbn [from_option id].
  - rewrite (wsum_perm w (map_to_list m) ((s, u) :: map_to_list (delete s m))).
    2: { rewrite <- (insert_delete_id m s u) at 1 by done.
         by rewrite map_to_list_insert by apply lookup_delete_eq. }
    unfold wsum. cbn [foldr fst snd]. lia.
  - rewrite delete_id by done. unfold wsum. cbn [foldr fst snd]. lia.
Qed.

(** Every row of the campaign contributes its weight once. *)
Definition weigh (w : DeliveryStatus → Z) (campaignID : string) (l : list Delivery) : Z :=
  foldr (λ d acc, (if strEq (d_CampaignID d) campaignID then w (d_Status d) else 0) + acc) 0 l.

Lemma countOne_wsum w campaignID l :
  len l ≤ maxInt64 →
  wsum w (map_to_list (foldr (countOne campaignID) ∅ l)) = weigh w campaignID l.
Proof.
  unfold len. induction l as [|d l IH]; intros Hl; [reflexivity|]. cbn [foldr weigh length] in *.
  specialize (IH ltac:(lia)). unfold countOne at 1. destruct (strEq _ _); cbn [negb]; [|unfold weigh in IH; lia].
  rewrite wsum_insert, IH. rewrite countOne_fold by (unfold len; lia).
  assert (Hle : (length (filter (λ x, inStatus campaignID (d_Status d) x = true) l) ≤ length l)%nat)
    by apply length_filter.
  rewrite int64_small by (unfold in_int64, minInt64, len, inStatus in *; lia).
  unfold weigh. lia.
Qed.

Lemma splitCounts_sums counts :
  (∀ s v, counts !! s = Some v → 0 ≤ v) → wsum (λ _, 1) (map_to_list counts) ≤ maxInt64 →
  splitCounts counts =
    (wsum (λ _, 1) (map_to_list counts),
     wsum (λ s, if contains inflightStatuses s then 1 else 0) (map_to_list counts)).
Proof.
  intros Hnn. unfold splitCounts.
  assert (Hnn' : Forall (λ kv, 0 ≤ kv.2) (map_to_list counts)).
  { apply Forall_forall. intros [s v] Hin. apply elem_of_map_to_list in Hin. by eapply Hnn. }
  clear Hnn. induction Hnn' as [|[s v] l Hv Hl IH]; intros Hle; [done|]. cbn [foldr wsum fst snd] in *.
  assert (Hpos : ∀ w, (∀ s, 0 ≤ w s ≤ 1) → 0 ≤ wsum w l ≤ wsum (λ _, 1) l).
  { intros w Hw. clear -Hl Hw. unfold wsum.
    induction Hl as [|[s v] l Hv _ IH]; cbn [foldr fst snd] in *; [lia|]. specialize (Hw s). nia. }
  pose proof (Hpos (λ _, 1) ltac:(lia)) as Hp1.
  pose proof (Hpos (λ s, if contains inflightStatuses s then 1 else 0)
    ltac:(intros x; cbv beta; destruct (contains inflightStatuses x); lia)) as Hp2.
  change (foldr (λ kv acc, 1 * kv.2 + acc) 0 l) with (wsum (λ _, 1) l) in *.
  rewrite IH by lia. unfold splitOne. cbn [fst snd]. rewrite int64_small
    by (unfold in_int64, minInt64 in *; lia). f_equal; [lia|].
  change (foldr _ 0 l) with (wsum (λ s, if contains inflightStatuses s then 1 else 0) l).
  destruct (contains inflightStatuses s); [|lia].
  rewrite int64_small by (unfold in_int64, minInt64 in *; lia). lia.
Qed.

Lemma weigh_bounds w campaignID l :
  (∀ s, 0 ≤ w s ≤ 1) → 0 ≤ weigh w campaignID l ≤ len l.
Proof.
  intros Hw. unfold len. induction l as [|d l IH]; cbn [weigh foldr length] in *; [lia|].
  specialize (Hw (d_Status d)). unfold weigh in IH. destruct (strEq _ _); lia.
Qed.

Lemma weigh_pos w campaignID l :
  (∀ s, 0 ≤ w s) →
  (0 < weigh w campaignID l ↔ ∃ d, d ∈ l ∧ d_CampaignID d = campaignID ∧ 0 < w (d_Status d)).
Proof.
  intros Hw. induction l as [|d l IH]; cbn [weigh foldr].
  - split; [lia|]. intros (d&Hd&_). by apply elem_of_nil in Hd.
  - assert (Hge : 0 ≤ weigh w campaignID l).
    { clear IH. unfold weigh. induction l as [|x l IHl]; cbn [foldr]; [lia|]. specialize (Hw (d_Status x)). destruct (strEq _ _); lia. }
    fold (weigh w campaignID l). pose proof (Hw (d_Status d)) as Hwd. unfold strEq. split.
    + intros Hp. case_bool_decide as Hc.
      * destruct (decide (0 < w (d_Status d))); [exists d; rewrite elem_of_cons; auto|].
        destruct (proj1 IH ltac:(lia)) as (x&?&?&?). exists x. rewrite elem_of_cons. auto.
      * destruct (proj1 IH ltac:(lia)) as (x&?&?&?). exists x. rewrite elem_of_cons. auto.
    + intros (x&[->|Hx]%elem_of_cons&Hc&Hp).
      * rewrite bool_decide_eq_true_2 by done. lia.
      * assert (0 < weigh w campaignID l) by (apply IH; eauto). case_bool_decide; lia.
Qed.

(** [splitCounts] of a count: is there a delivery, is there one in flight. *)
Lemma splitCounts_rows campaignID td :
  Z.of_nat (size (deliveries td)) ≤ maxInt64 →
  let '(total, inflight) := splitCounts (foldr (countOne campaignID) ∅ (map_to_list (deliveries td)).*2) in
  (total ≠ 0 ↔ ∃ id d, deliveries td !! id = Some d ∧ d_CampaignID d = campaignID) ∧
  (0 < inflight ↔ ∃ id d, deliveries td !! id = Some d ∧ d_CampaignID d = campaignID ∧
                   d_Status d ∈ inflightStatuses).
Proof.
  intros Hsz. set (l := (map_to_list (deliveries td)).*2).
  assert (Hlen : len l ≤ maxInt64) by (unfold len, l; by rewrite length_fmap, length_map_to_list).
  assert (Hl : ∀ d, d ∈ l ↔ ∃ id, deliveries td !! id = Some d).
  { intros d. unfold l. rewrite list_elem_of_fmap. split.
    - intros ([id x]&->&Hin). apply elem_of_map_to_list in Hin. eauto.
    - intros [id Hid]. exists (id, d). split; [done|]. by apply elem_of_map_to_list. }
  pose proof (weigh_bounds (λ _, 1) campaignID l ltac:(lia)) as Hb.
  rewrite splitCounts_sums.
  - rewrite !countOne_wsum by done. split.
    + transitivity (0 < weigh (λ _, 1) campaignID l); [lia|]. rewrite weigh_pos by lia.
      setoid_rewrite Hl. naive_solver lia.
    + rewrite weigh_pos by (intros s; cbv beta; destruct (contains inflightStatuses s); lia). setoid_rewrite Hl.
      unfold contains. split.
      * intros (d&[id Hd]&Hc&Hp). case_bool_decide as Hin; [|lia]. by exists id, d.
      * intros (id&d&Hd&Hc&Hin). exists d. rewrite bool_decide_eq_true_2 by done. eauto with lia.
  - intros s v Hv. pose proof (countOne_fold campaignID l s Hlen) as Hc. rewrite Hv in Hc. cbn in Hc.
    unfold len in Hc. lia.
  - rewrite countOne_wsum by done. lia.
Qed.

(** ** Campaign operations run alone *)

Lemma GetCampaign_run env id td :
  GetCampaign env id td =
    if e_closed env then (inl errClosed, td)
    else match campaigns td !! id with Some c => (inr c, td) | None => (inl ErrNotFound, td) end.
Proof.
  unfold GetCampaign, zoom, Get, checked, throw. destruct (e_closed env); [by destruct td|].
  change (lget (field campaigns) td) with (campaigns td).
  by destruct (campaigns td !! id), td.
Qed.

Lemma GetSender_run env id td :
  GetSender env id td =
    if e_closed env then (inl errClosed, td)
    else match senders td !! id with Some c => (inr c, td) | None => (inl ErrNotFound, td) end.
Proof.
  unfold GetSender, zoom, Get, checked, throw. destruct (e_closed env); [by destruct td|].
  change (lget (field senders) td) with (senders td).
  by destruct (senders td !! id), td.
Qed.

Lemma GetTemplate_run env id td : (GetTemplate env id td).2 = td.
Proof.
  unfold GetTemplate, zoom, Get, checked, throw. destruct (e_closed env); [by destruct td|].
  change (lget (field templates) td) with (templates td).
  by destruct (templates td !! id), td.
Qed.

(** What the store keeps of a campaign that was written. *)
Record storedAs (c row : Campaign) : Prop := {
  sa_status : c_Status row = c_Status c;
  sa_version : c_VersionID row = c_VersionID c;
  sa_schedule : c_ScheduleAt row = TruncateTime (c_ScheduleAt c);
  sa_completed : c_CompletedAt row = TruncateTime (c_CompletedAt c);
  sa_stats : c_Stats row = c_Stats c;
}.

Lemma UpdateCampaign_run env c td :
  match UpdateCampaign env c td with
  | (inl e, td') => td' = td ∧
      (e_closed env = false → ∀ cur, campaigns td !! c_ID c = Some cur → c_Version cur ≠ c_Version c)
  | (inr c', td') => ∃ row, td' = td <| campaigns := <[c_ID c := row]> (campaigns td) |> ∧
      storedAs c row ∧ c_Status c' = c_Status c ∧ c_ID c' = c_ID c ∧ e_closed env = false
  end.
Proof.
  unfold UpdateCampaign, zoomWith. change (lget (field campaigns) td) with (campaigns td).
  destruct (Update campaignMeta env (c, campaigns td)) as [[e|[]] [c' rows]] eqn:Hu.
  - assert (rows = campaigns td ∧ (e_closed env = false → ∀ cur, campaigns td !! c_ID c = Some cur →
      c_Version cur ≠ c_Version c)) as [-> H]; [|split; [by destruct td|done]].
    unfold Update, checked, throw in Hu. destruct (e_closed env); [by simplify_eq|].
    change (lget (m_id campaignMeta) c) with (c_ID c) in Hu.
    destruct (campaigns td !! c_ID c) as [cur|]; [|by simplify_eq].
    destruct (match m_version campaignMeta with Some l => negb (lget l cur =? lget l c) | None => false end)
      eqn:Hv; [|by simplify_eq].
    cbn in Hv. to_prop. simplify_eq. split; [done|]. intros _ cur' [= <-]. done.
  - apply Update_inv in Hu as (cur&Hcl&_&_&_&Hc'&Hrows). subst. eexists. split; [reflexivity|].
    split; [|by destruct c]. by destruct c.
Qed.

Lemma enqueue_run marshal env c typ at_ m td :
  run env (enqueueCampaignEvent marshal c typ at_ m) td =
    if e_closed env then (inl errClosed, td)
    else (inr tt, enqueueLoop env 0
      [zero <| o_Type := typ |>
            <| o_Payload := marshal (mkPayload (c_ID c) (c_Name c) (c_Status c) (c_VersionID c) (c_SenderID c) at_ m) |>
            <| o_Status := OutboxPending |> <| o_CreatedAt := at_ |> <| o_NextAttemptAt := at_ |>] td).
Proof.
  unfold enqueueCampaignEvent. rewrite run_call. unfold Enqueue, checked, throw. by destruct (e_closed env).
Qed.

(** The event is in the outbox and due. *)
Definition announced (typ : string) (td : tenantData) : Prop :=
  ∃ k e, outbox td !! k = Some e ∧ o_Type e = typ ∧ o_Status e = OutboxPending.

Lemma enqueued_announced env e td :
  announced (o_Type e) (enqueueLoop env 0 [e] td) ∧
  campaigns (enqueueLoop env 0 [e] td) = campaigns td.
Proof.
  split; [|done]. cbn [enqueueLoop]. exists (o_ID (stampEvent env 0 e)), (stampEvent env 0 e).
  cbn -[stampEvent]. rewrite lookup_insert_eq. split; [done|]. unfold stampEvent.
  by destruct (strEq _ _), (IsZero (o_CreatedAt _)), (IsZero (o_NextAttemptAt _)).
Qed.

Lemma resolve_run env c td :
  match run env (resolveCampaignVersion c) td with
  | (inl _, td') => td' = td
  | (inr c', td') => td' = td ∧ c_VersionID c' ≠ "" ∧ c_ID c' = c_ID c
  end.
Proof.
  unfold resolveCampaignVersion. unfold strEq. case_bool_decide as H1; cbn [negb run pret].
  - case_bool_decide; [done|]. rewrite run_handle, run_call.
    pose proof (GetTemplate_run env (c_TemplateID c) td) as Ht.
    destruct (GetTemplate env (c_TemplateID c) td) as [[e|tpl] td']; cbn in Ht; subst; cbn.
    + by destruct (errIs _ _).
    + case_bool_decide; done.
  - done.
Qed.

(** A campaign starts only when it can be sent.  A start
    that succeeds found a draft with an existing sender and at least one
    recipient, and left it either scheduled for a time still to come, with no
    event, or running, bound to a message version, with campaign.started
    pending in the outbox.  A start that fails leaves the store untouched. *)
Theorem start_campaign_guards marshal env now id at_ td r td' :
  campaignsOk td → Z.of_nat (size (deliveries td)) ≤ maxInt64 →
  run env (StartCampaign marshal now id at_) td = (r, td') →
  match r with
  | inl _ => td' = td
  | inr _ => ∃ c c', campaigns td !! id = Some c ∧ c_Status c = CampaignDraft ∧
      is_Some (senders td !! c_SenderID c) ∧
      (∃ k d, deliveries td !! k = Some d ∧ d_CampaignID d = id) ∧
      campaigns td' !! id = Some c' ∧
      ((c_Status c' = CampaignScheduled ∧ now < c_ScheduleAt c' ∧ outbox td' = outbox td) ∨
       (c_Status c' = CampaignRunning ∧ c_VersionID c' ≠ "" ∧ announced EventCampaignStarted td'))
  end.
Proof.
  intros Hok Hsz. unfold StartCampaign. rewrite run_pbind, run_call, GetCampaign_run.
  destruct (e_closed env) eqn:Hcl; [by intros [= <- <-]|].
  destruct (campaigns td !! id) as [c|] eqn:Hc; [|by intros [= <- <-]].
  destruct (Hok _ _ Hc) as [Hid _].
  case_bool_decide as Hd; cbn [negb]; [|by intros [= <- <-]].
  destruct (_ && _); [by intros [= <- <-]|]. destruct (strEq _ _); [by intros [= <- <-]|].
  rewrite run_handle, run_call, GetSender_run, Hcl.
  destruct (senders td !! c_SenderID c) as [snd|] eqn:Hsnd;
    [|cbn; by destruct (errIs _ _); intros [= <- <-]].
  rewrite run_pbind, run_call. unfold CountByStatus, checked. rewrite Hcl.
  pose proof (splitCounts_rows id td Hsz) as Hrows.
  destruct (splitCounts _) as [total inflight]. destruct Hrows as [Htot _]. cbn [fst].
  destruct (total =? 0) eqn:Ht; [by intros [= <- <-]|]. apply Z.eqb_neq in Ht. apply Htot in Ht.
  cbv zeta. rewrite run_pbind. destruct (_ && _) eqn:Hsch; cbn [run pret].
  - (* scheduled *)
    rewrite run_pbind, run_call. set (cam := c <| c_Status := _ |> <| c_ScheduleAt := _ |>).
    pose proof (UpdateCampaign_run env cam td) as Hu.
    destruct (UpdateCampaign env cam td) as [[e|c'] td1]; [intros [= <- <-]; by destruct Hu|].
    destruct Hu as (row&->&Hrow&Hs&_). rewrite Hs. cbn. intros [= <- <-].
    exists c, row. split_and!; [done..|by eexists|done| |].
    + cbn. change (c_ID cam) with (c_ID c). by rewrite Hid, lookup_insert_eq.
    + left. split_and!; [apply Hrow| |done]. rewrite (sa_schedule _ _ Hrow). cbn -[TruncateTime].
      rewrite TruncateTime_idemp. to_prop. done.
  - (* running *)
    rewrite run_pbind. pose proof (resolve_run env c td) as Hres.
    destruct (run env (resolveCampaignVersion c) td) as [[e|c1] td1]; [by intros [= <- <-]; destruct Hres|].
    destruct Hres as (->&Hv&Hid1). cbn [run pret]. rewrite run_pbind, run_call.
    set (cam := c1 <| c_Status := _ |> <| c_StartedAt := _ |>).
    pose proof (UpdateCampaign_run env cam td) as Hu.
    destruct (UpdateCampaign env cam td) as [[e|c'] td1]; [intros [= <- <-]; by destruct Hu|].
    destruct Hu as (row&->&Hrow&Hs&_). rewrite Hs. cbn [bool_decide]. rewrite bool_decide_eq_true_2 by done.
    rewrite enqueue_run, Hcl. intros [<- <-]%pair_equal_spec.
    match goal with |- context [enqueueLoop env 0 [?e] ?t] =>
      destruct (enqueued_announced env e t) as [Hann Hcam] end.
    exists c, row. split_and!; [done..|by eexists|done| |].
    + rewrite Hcam. cbn. change (c_ID cam) with (c_ID c1). by rewrite Hid1, Hid, lookup_insert_eq.
    + right. split_and!; [apply Hrow|by rewrite (sa_version _ _ Hrow)|exact Hann].
Qed.

(** ** Completion *)

Lemma inflight_terminal s : s ∈ inflightStatuses ↔ Terminal s = false.
Proof.
  unfold inflightStatuses. rewrite !elem_of_cons, elem_of_nil.
  destruct s; cbn; intuition congruence.
Qed.

Lemma UpdateStats_run env id s td c :
  e_closed env = false → campaigns td !! id = Some c →
  UpdateStats env id s td =
    (inr tt, td <| campaigns := <[id := c <| c_Stats := s |> <| c_UpdatedAt := now env |>]> (campaigns td) |>).
Proof. intros Hcl Hc. unfold UpdateStats, checked. by rewrite Hcl, Hc. Qed.

(** C28 (control/finalizer): completion is exact.  When the finalizer, alone on
    the store and not throttled by an earlier skip, recounts a running campaign,
    the campaign is completed, with campaign.completed
    announced, precisely if it has deliveries and every one of them is
    terminal; otherwise it keeps running.  Either way the cached statistics
    are the campaign's counts by status. *)
Theorem finalizer_completion_exact marshal env cfg at_ skips live c td st err td' :
  e_closed env = false → Z.of_nat (size (deliveries td)) ≤ maxInt64 →
  campaigns td !! c_ID c = Some c → c_Status c = CampaignRunning →
  default 0 (skips !! c_ID c) ≤ 0 →
  run env (finalizerOne marshal cfg at_ (skips, live) c) td = (inr (st, err), td') →
  err = None ∧ ∃ c', campaigns td' !! c_ID c = Some c' ∧
    (∀ s, default 0 (cs_ByStatus (c_Stats c') !! s) =
       Z.of_nat (size (filter (λ kv, inStatus (c_ID c) s kv.2 = true) (deliveries td)))) ∧
    (c_Status c' = CampaignCompleted ↔
       (∃ k d, deliveries td !! k = Some d ∧ d_CampaignID d = c_ID c) ∧
       (∀ k d, deliveries td !! k = Some d → d_CampaignID d = c_ID c → Terminal (d_Status d) = true)) ∧
    (c_Status c' = CampaignCompleted → announced EventCampaignCompleted td') ∧
    (c_Status c' ≠ CampaignCompleted → c_Status c' = CampaignRunning).
Proof.
  intros Hcl Hsz Hc Hrun Hskip. unfold finalizerOne.
  rewrite (proj2 (Z.ltb_ge _ _)) by done. rewrite run_handle, run_call.
  destruct (CountByStatus env (c_ID c) td) as [[e|counts] td0] eqn:Hcount;
    [unfold CountByStatus, checked in Hcount; by rewrite Hcl in Hcount|].
  assert (Hcs : ∀ s, default 0 (counts !! s) =
    Z.of_nat (size (filter (λ kv, inStatus (c_ID c) s kv.2 = true) (deliveries td)))).
  { intros s. unfold CountByStatus, checked in Hcount. rewrite Hcl in Hcount. injection Hcount as <- _.
    rewrite countOne_fold by (unfold len; by rewrite length_fmap, length_map_to_list).
    unfold len. f_equal. apply (length_filter_values (inStatus (c_ID c) s)). }
  assert (td0 = td) as -> by (unfold CountByStatus, checked in Hcount; rewrite Hcl in Hcount; congruence).
  pose proof (splitCounts_rows (c_ID c) td Hsz) as Hrows.
  replace (foldr (countOne (c_ID c)) ∅ (map_to_list (deliveries td)).*2) with counts in Hrows
    by (unfold CountByStatus, checked in Hcount; rewrite Hcl in Hcount; congruence).
  clear Hcount. destruct (splitCounts counts) as [total inflight]. destruct Hrows as [Htot Hinf].
  rewrite run_handle, run_call. unfold CountUnique, checked. rewrite Hcl.
  set (stats := withTracking _ _).
  assert (Hby : cs_ByStatus stats = counts) by reflexivity. clearbody stats.
  rewrite run_handle, run_call, (UpdateStats_run _ _ _ _ c) by done.
  set (row := c <| c_Stats := stats |> <| c_UpdatedAt := now env |>).
  set (td1 := td <| campaigns := _ |>).
  assert (Hrow : campaigns td1 !! c_ID c = Some row) by apply lookup_insert_eq.
  destruct ((total =? 0) || (0 <? inflight)) eqn:Hdone; cbn [run pret].
  - intros [= <- <- <-]. split; [done|]. exists row. split_and!;
      [done|by rewrite <- Hby in Hcs| |cbn; congruence|intros _; exact Hrun].
    split; [cbn; congruence|]. intros [Hex Hall]. apply orb_true_iff in Hdone as [Hz%Z.eqb_eq|Hp%Z.ltb_lt].
    + by apply Htot in Hex.
    + apply Hinf in Hp as (k&d&Hd&Hdc&Hin). apply inflight_terminal in Hin. by rewrite (Hall k d) in Hin.
  - apply orb_false_iff in Hdone as [Hz%Z.eqb_neq Hp%Z.ltb_ge].
    rewrite run_handle, run_call. set (cam := c <| c_Stats := stats |> <| c_Status := _ |> <| c_CompletedAt := _ |>).
    pose proof (UpdateCampaign_run env cam td1) as Hu.
    destruct (UpdateCampaign env cam td1) as [[e|c'] td2].
    + destruct Hu as [_ Hu]. by destruct (Hu Hcl row Hrow).
    + destruct Hu as (row'&->&Hrow'&Hs&_). rewrite run_handle, enqueue_run, Hcl. cbn [run pret].
      match goal with |- context [enqueueLoop env 0 [?e] ?t] =>
        destruct (enqueued_announced env e t) as [Hann Hcam] end.
      intros [[<- <-]%(inj inr)%pair_equal_spec <-]%pair_equal_spec. split; [done|]. exists row'.
      rewrite Hcam. split_and!.
      * cbn. by rewrite lookup_insert_eq.
      * rewrite (sa_stats _ _ Hrow'). by rewrite <- Hby in Hcs.
      * rewrite (sa_status _ _ Hrow'). split; [|done]. intros _. split; [by apply Htot|].
        intros k d Hd Hdc. destruct (Terminal (d_Status d)) eqn:Hterm; [done|].
        assert (0 < inflight); [|lia]. apply Hinf. exists k, d. by rewrite inflight_terminal.
      * intros _. exact Hann.
      * rewrite (sa_status _ _ Hrow'). done.
Qed.

(** ** Termination of the walks *)

(** The campaigns the walk has not passed yet. *)
Definition ahead (td : tenantData) (cursor : string) : gset string :=
  filter (λ id, ¬ String.le id cursor) (dom (campaigns td)).

Lemma NextCursor_ahead (rows : gmap string Campaign) limit cursor keep next :
  next = res_NextCursor (paginate rows (mkPage limit cursor) keep) → next ≠ "" →
  next ∈ dom rows ∧ ¬ String.le next cursor.
Proof.
  intros -> Hne. unfold paginate in *. cbn [res_NextCursor] in *.
  set (p := Normalize (mkPage limit cursor)) in *.
  assert (Hp : p_Cursor p = cursor) by (unfold p, Normalize; repeat case_match; reflexivity).
  destruct (_ <? _); [|done].
  destruct (pageIDs rows p keep !! _) as [id|] eqn:Hid; [|done]. cbn in Hne |- *.
  apply list_elem_of_lookup_2, elem_of_pageIDs in Hid as (v&Hv&_&Hle). rewrite Hp in Hle.
  split; [|done]. by apply elem_of_dom_2 in Hv.
Qed.

Lemma ahead_shrinks td td' cursor next :
  dom (campaigns td') = dom (campaigns td) →
  next ∈ dom (campaigns td) → ¬ String.le next cursor →
  (size (ahead td' next) < size (ahead td cursor))%nat.
Proof.
  intros Hdom Hin Hle. apply subset_size. unfold ahead. rewrite Hdom. split.
  - intros id. rewrite !elem_of_filter. intros [Hn Hd]. split; [|done]. intros Hc. apply Hn.
    etrans; [exact Hc|]. by destruct (total String.le cursor next).
  - intros Hsub. assert (Hn : next ∈ filter (λ id, ¬ String.le id next) (dom (campaigns td))).
    { apply Hsub. by apply elem_of_filter. }
    by apply elem_of_filter in Hn as [Hn _].
Qed.

Section each_terminates.
Context {S : Type} (fn : S → Campaign → prog (S * option error)) (env : Env).
Context (Hdom : ∀ s c td, dom (campaigns (run env (fn s c) td).2) = dom (campaigns td)).
Context (Hfn : ∀ s c td s', (run env (fn s c) td).1 ≠ inr (s', Some errFuel)).

Lemma eachItem_run items s td :
  dom (campaigns (run env (eachItem fn items s) td).2) = dom (campaigns td) ∧
  (∀ s', (run env (eachItem fn items s) td).1 ≠ inr (s', Some errFuel)).
Proof.
  revert s td. induction items as [|c items IH]; intros s td; cbn [eachItem]; [done|].
  rewrite run_pbind. pose proof (Hdom s c td) as Hd. pose proof (Hfn s c td) as Hf.
  destruct (run env (fn s c) td) as [[e|[s1 [e|]]] td1]; cbn in *; [done| |].
  - split; [done|]. intros s' [= -> ->]. by eapply Hf.
  - destruct (IH s1 td1) as [H1 H2]. by rewrite H1.
Qed.

Lemma eachPage_run fuel statuses pageSize cursor s td s' :
  (size (ahead td cursor) < fuel)%nat →
  (run env (eachPage fn fuel statuses pageSize cursor s) td).1 ≠ inr (s', Some errFuel).
Proof.
  revert cursor s td. induction fuel as [|fuel IH]; intros cursor s td Hlt; [lia|]. cbn [eachPage].
  rewrite run_handle. cbn [run ctxErr pret]. rewrite run_handle, run_call.
  unfold ListByStatus, zoom, listWhere, checked, throw. destruct (e_closed env); [done|].
  set (res := paginate _ _ _). set (td0 := lset _ _ td). rewrite run_pbind.
  assert (Hd0 : campaigns td0 = campaigns td) by done.
  destruct (eachItem_run (res_Items res) s td0) as [H1 H2].
  destruct (run env (eachItem fn (res_Items res) s) td0) as [[e|[s1 [e|]]] td1]; cbn [fst snd] in *.
  - done.
  - cbn. intros [= -> ->]. by eapply H2.
  - unfold strEq. case_bool_decide as Hnext; [done|].
    destruct (NextCursor_ahead (campaigns td) pageSize cursor _ (res_NextCursor res) eq_refl Hnext).
    apply IH. assert (size (ahead td1 (res_NextCursor res)) < size (ahead td cursor))%nat; [|lia].
    apply ahead_shrinks; [by rewrite H1, Hd0|done..].
Qed.
End each_terminates.

(** The campaign walks terminate.  For every loop body that
    neither creates nor deletes campaigns, the unbounded page loop of
    [eachCampaign] ends after at most one page per campaign plus one, whatever
    the body does to the rows, because the cursor only moves forward. *)
Theorem each_campaign_terminates {S} (fn : S → Campaign → prog (S * option error)) env statuses pageSize s td :
  (∀ s c td, dom (campaigns (run env (fn s c) td).2) = dom (campaigns td)) →
  (∀ s c td s', (run env (fn s c) td).1 ≠ inr (s', Some errFuel)) →
  ∀ s', (run env (eachCampaign fn (Datatypes.S (size (campaigns td))) statuses pageSize s) td).1 ≠
        inr (s', Some errFuel).
Proof.
  intros Hdom Hfn s'. unfold eachCampaign. apply eachPage_run; [done..|].
  assert (size (ahead td "") ≤ size (dom (campaigns td)))%nat; [|rewrite size_dom in *; lia].
  apply subseteq_size. unfold ahead. intros id. by rewrite elem_of_filter; intros [].
Qed.

(** ** Concrete runs *)

Definition sampleMarshal (p : campaignEventPayload) : string := ep_CampaignID p.

Definition draftCampaign : Campaign :=
  zero <| c_ID := "c1" |> <| c_SenderID := "s1" |> <| c_VersionID := "v1" |> <| c_Version := 3 |>
       <| c_Status := CampaignDraft |>.
Definition runningCampaign : Campaign := draftCampaign <| c_Status := CampaignRunning |>.

Definition deliveryIn (s : DeliveryStatus) : Delivery :=
  zero <| d_ID := "d1" |> <| d_CampaignID := "c1" |> <| d_EmailNorm := "a@example.com" |> <| d_Status := s |>.

Definition storeWith (c : Campaign) (d : Delivery) : tenantData :=
  newTenantData <| campaigns := {[c_ID c := c]} |> <| senders := {["s1" := zero <| s_ID := "s1" |>]} |>
                <| deliveries := {[d_ID d := d]} |>.

Lemma storeWith_ok c d : 0 ≤ c_Version c < maxInt64 → campaignsOk (storeWith c d).
Proof. intros Hv id x. cbn. intros [<- <-]%lookup_singleton_Some. done. Qed.

Lemma start_campaign_guards_witness :
  ∃ c', campaigns (run sampleEnv (StartCampaign sampleMarshal Second "c1" 0)
                     (storeWith draftCampaign (deliveryIn DeliveryPending))).2 !! "c1" = Some c' ∧
    (c_Status c' = CampaignRunning ∨ c_Status c' = CampaignScheduled).
Proof.
  set (td := storeWith draftCampaign (deliveryIn DeliveryPending)).
  destruct (run sampleEnv (StartCampaign sampleMarshal Second "c1" 0) td) as [r td'] eqn:Hrun.
  pose proof (start_campaign_guards sampleMarshal sampleEnv Second "c1" 0 td r td'
    ltac:(by apply storeWith_ok) ltac:(by vm_compute) Hrun) as H.
  destruct r as [e|[]]; [vm_compute in Hrun; discriminate|].
  destruct H as (c&c'&_&_&_&_&Hc'&[(?&_)|(?&_)]); eauto.
Defined.

Lemma finalizer_completion_exact_witness :
  ∃ c', campaigns (run sampleEnv (finalizerOne sampleMarshal defaultConfig Second (∅, ∅) runningCampaign)
                     (storeWith runningCampaign (deliveryIn DeliveryFailed))).2 !! "c1" = Some c' ∧
    c_Status c' = CampaignCompleted.
Proof.
  set (td := storeWith runningCampaign (deliveryIn DeliveryFailed)).
  destruct (run sampleEnv (finalizerOne sampleMarshal defaultConfig Second (∅, ∅) runningCampaign) td)
    as [[e|[st err]] td'] eqn:Hrun; [vm_compute in Hrun; discriminate|].
  destruct (finalizer_completion_exact sampleMarshal sampleEnv defaultConfig Second ∅ ∅ runningCampaign td
    st err td' eq_refl ltac:(by vm_compute) ltac:(reflexivity) eq_refl ltac:(by vm_compute) Hrun)
    as (_&c'&Hc'&_&Hiff&_).
  exists c'. split; [exact Hc'|]. apply Hiff. split.
  - exists "d1", (deliveryIn DeliveryFailed). split; [apply lookup_singleton_eq|reflexivity].
  - intros k d. cbn. by intros [<- <-]%lookup_singleton_Some.
Defined.

Lemma each_campaign_terminates_witness :
  (run sampleEnv (eachCampaign (stateless (cancellerOne 10)) 2 [CampaignCancelled] 1 tt)
     (storeWith runningCampaign (deliveryIn DeliveryFailed))).1 ≠ inr (tt, Some errFuel).
Proof.
  apply (each_campaign_terminates (stateless (cancellerOne 10)) sampleEnv [CampaignCancelled] 1 tt
    (storeWith runningCampaign (deliveryIn DeliveryFailed))); intros s c td;
    unfold stateless, cancellerOne; rewrite run_handle, run_pbind, run_call; [|intros s'];
    unfold BulkTransition, checked; by cbn.
Defined.

Definition campaignsOkb (td : tenantData) : bool :=
  forallb (λ kv, strEq (c_ID kv.2) kv.1 && (0 <=? c_Version kv.2) && (c_Version kv.2 <? maxInt64))
    (map_to_list (campaigns td)).

Lemma campaignsOkb_sound td : campaignsOkb td = true → campaignsOk td.
Proof.
  intros H id c Hc. unfold campaignsOkb in H. rewrite forallb_forall in H.
  specialize (H (id, c)). cbn in H. apply elem_of_map_to_list, list_elem_of_In, H in Hc. to_prop. lia || auto.
Qed.

(** A cancel and a pause of the same campaign, interleaved: the cancel reads
    the campaign, the pause runs to its commit, the cancel loses the race. *)
Definition cancelPauseRace : list action :=
  [ASpawn (controlProg sampleMarshal (OpCancel Second "c1"));
   ASpawn (controlProg sampleMarshal (OpPause Second "c1"));
   AStep 0 sampleEnv false; AStep 1 sampleEnv false; AStep 1 sampleEnv false; AStep 0 sampleEnv false].

Lemma campaign_state_machine_witness :
  ∃ tr ps td, schedule cancelPauseRace ([], storeWith runningCampaign (deliveryIn DeliveryQueued)) =
      Some (tr, (ps, td)) ∧
    (c_Status <$> campaigns td !! "c1") = Some CampaignPaused ∧
    Forall (λ s, ∀ id c c', campaigns s.1 !! id = Some c → campaigns s.2 !! id = Some c' →
       c_Status c' = c_Status c ∨ campaignEdge (c_Status c) (c_Status c')) tr.
Proof.
  set (td0 := storeWith runningCampaign (deliveryIn DeliveryQueued)).
  assert (Hok : match schedule cancelPauseRace ([], td0) with
    | Some (tr, (_, td)) => forallb (λ s, campaignsOkb s.1) tr &&
        bool_decide ((c_Status <$> campaigns td !! "c1") = Some CampaignPaused)
    | None => false end = true) by (vm_compute; reflexivity).
  destruct (schedule cancelPauseRace ([], td0)) as [[tr [ps td]]|] eqn:Hrun; [|discriminate].
  apply andb_true_iff in Hok as [Hok Hst]. apply bool_decide_eq_true in Hst.
  exists tr, ps, td. split; [reflexivity|]. split; [exact Hst|].
  apply (campaign_state_machine sampleMarshal td0 tr ps td).
  - eapply schedule_run; [|exact Hrun]. intros p Hp. left.
    apply elem_of_cons in Hp as [Hp|Hp]; [exists (OpCancel Second "c1"); by injection Hp|].
    apply elem_of_cons in Hp as [Hp|Hp]; [exists (OpPause Second "c1"); by injection Hp|].
    exfalso. rewrite !elem_of_cons, elem_of_nil in Hp. by destruct_or! Hp.
  - apply Forall_forall. intros s Hs. apply campaignsOkb_sound.
    rewrite forallb_forall in Hok. by apply Hok, list_elem_of_In.
Defined.

(** ** A retry between the count and the completion *)

(** Completion races a retry.  A retry of a running
    campaign requeues deliveries without touching the campaign row, so a
    finalizer that counted just before completes the campaign just after: the
    campaign ends up completed with a queued delivery, and no claim that names
    the running campaigns ever returns it. *)
Theorem retry_lost_to_completion :
  let td := storeWith runningCampaign (deliveryIn DeliveryFailed) in
  let retry := λ td, (run sampleEnv (RetryCampaign sampleMarshal 10 Second "c1" zero) td).2 in
  let td' := (runWith sampleEnv [id; id; retry]
                (tickRunning sampleMarshal 2 defaultConfig Second ∅) td).2 in
  (run sampleEnv (RetryCampaign sampleMarshal 10 Second "c1" zero) td).1 = inr (1, None) ∧
  (c_Status <$> campaigns td' !! "c1") = Some CampaignCompleted ∧
  (d_Status <$> deliveries td' !! "d1") = Some DeliveryQueued ∧
  match run sampleEnv (call (λ env, ListByStatus env [CampaignRunning] (mkPage 200 ""))) td' with
  | (inr res, _) =>
      let claim lane := (Claim sampleEnv
        (mkClaimRequest lane (Some (c_ID <$> res_Items res)) 100 Minute "w" Hour) td').1 in
      claim LaneBulk = inr [] ∧ claim LaneTransactional = inr []
  | _ => False
  end.
Proof. vm_compute. repeat split. Qed.

(** A retry whose filter names a status it produces
    counts the same rows again.  With one queued delivery, a chunk size of one
    and the explicit status filter queued, one retry call reports a thousand
    requeued deliveries and advances the retry generation a thousand times. *)
Theorem retry_explicit_queued_repeats :
  let td := storeWith runningCampaign (deliveryIn DeliveryQueued) in
  let out := run sampleEnv
    (RetryCampaign sampleMarshal 1 Second "c1" (zero <| rf_Statuses := [DeliveryQueued] |>)) td in
  out.1 = inr (1000, None) ∧ (d_RetryGen <$> deliveries out.2 !! "d1") = Some 1000.
Proof. vm_compute. repeat split. Qed.
