(* ===== verification/Maintenance.v ===== *)
(** * Progress of the chunked loops

    The canceller and retention work in chunks so that no tick holds a long
    write.  These theorems show that the chunks add up: nothing eligible is
    skipped, nothing else is touched, and enough ticks finish the job. *)

From S2P Require Import Prelude Enums Model MemTable MemData DeliveryRepo DeliveryQueue DeliveryProps Repos Prog Settings Campaign CampaignLoops.

(** ** Chunked deletes

    What the retention loop relies on from a repository's [DeleteBefore]:
    with the store open it deletes a prefix of the eligible rows, at most
    [limit] of them, reports how many, and leaves the others eligible. *)
Class ChunkedDelete (del : Time → Z → Env → M tenantData Z) (eligible : Time → tenantData → list string) : Prop :=
  cd_step env before limit td :
    e_closed env = false →
    ∃ td', del before limit env td = (inr (len (capTo limit (eligible before td))), td') ∧
      eligible before td = capTo limit (eligible before td) ++ eligible before td'.

Lemma capTo_deleteAll {A} (P : string → A → bool) (m : gmap string A) limit :
  selectIDs P m = capTo limit (selectIDs P m) ++ selectIDs P (deleteAll (capTo limit (selectIDs P m)) m).
Proof.
  destruct (capTo_prefix limit (selectIDs P m)) as [rest Hr]. rewrite Hr at 1. f_equal. symmetry.
  eapply selectIDs_rest; [exact Hr| |].
  - intros id v Hin. rewrite deleteAll_lookup. by rewrite decide_True.
  - intros id Hin. rewrite deleteAll_lookup. by rewrite decide_False.
Qed.

#[global] Instance suppressions_chunked :
  ChunkedDelete (λ before limit env, SuppressionDeleteBefore env before limit)
    (λ before td, selectIDs (λ _ v, negb (IsZero (sp_ExpiresAt v) || After (sp_ExpiresAt v) (TruncateTime before)))
                    (suppressions td)).
Proof.
  intros env before limit td Hc. unfold SuppressionDeleteBefore, checked. rewrite Hc.
  eexists. split; [reflexivity|]. apply capTo_deleteAll.
Qed.

#[global] Instance tracking_chunked :
  ChunkedDelete (λ before limit env, TrackingDeleteBefore env before limit)
    (λ before td, selectIDs (λ _ v, Before (te_CreatedAt v) (TruncateTime before) && true) (tracking td)).
Proof.
  intros env before limit td Hc. unfold TrackingDeleteBefore, checked, deleteBefore. rewrite Hc.
  eexists. split; [reflexivity|]. apply capTo_deleteAll.
Qed.

#[global] Instance bounces_chunked :
  ChunkedDelete (λ before limit env, BounceDeleteBefore env before limit)
    (λ before td, selectIDs (λ _ v, Before (b_CreatedAt v) (TruncateTime before) && true) (bounces td)).
Proof.
  intros env before limit td Hc. unfold BounceDeleteBefore, checked, deleteBefore. rewrite Hc.
  eexists. split; [reflexivity|]. apply capTo_deleteAll.
Qed.

#[global] Instance outbox_chunked :
  ChunkedDelete (λ before limit env, OutboxDeleteBefore env before limit)
    (λ before td, selectIDs (λ _ e, Before (o_CreatedAt e) (TruncateTime before) &&
                                    (strEq (o_Status e) OutboxDelivered || strEq (o_Status e) OutboxFailed))
                    (outbox td)).
Proof.
  intros env before limit td Hc. unfold OutboxDeleteBefore, checked, deleteBefore. rewrite Hc.
  eexists. split; [reflexivity|]. apply capTo_deleteAll.
Qed.

#[global] Instance deliveries_chunked campaignID :
  ChunkedDelete (λ before limit env, DeleteDeliveriesBefore env campaignID before limit)
    (λ before td, selectIDs (λ _ d, strEq (d_CampaignID d) campaignID && Before (d_CreatedAt d) (TruncateTime before))
                    (deliveries td)).
Proof.
  intros env before limit td Hc. unfold DeleteDeliveriesBefore, checked. rewrite Hc.
  eexists. split; [reflexivity|].
  set (P := λ _ d, strEq _ _ && _).
  destruct (capTo_prefix limit (selectIDs P (deliveries td))) as [rest Hr]. rewrite Hr at 1. f_equal. symmetry.
  eapply selectIDs_rest; [exact Hr| |].
  - intros id v Hin. rewrite foldl_dropDelivery_lookup. by rewrite decide_True.
  - intros id Hin. rewrite foldl_dropDelivery_lookup. by rewrite decide_False.
Qed.

Section chunked.
Context (del : Time → Z → Env → M tenantData Z) (eligible : Time → tenantData → list string).
Context `{!ChunkedDelete del eligible}.

Lemma chunkedDelete_run env n cutoff chunk total td :
  e_closed env = false → 0 < chunk → 0 ≤ total → total + len (eligible cutoff td) ≤ maxInt64 →
  ∃ td', run env (chunkedDelete n del cutoff chunk total) td =
      (inr (total + Z.min (len (eligible cutoff td)) (Z.of_nat n * chunk), None), td') ∧
    eligible cutoff td' =
      drop (Z.to_nat (Z.min (len (eligible cutoff td)) (Z.of_nat n * chunk))) (eligible cutoff td).
Proof.
  intros Hc Hch. revert total td. induction n as [|n IH]; intros total td Hnn Hmax; cbn [chunkedDelete].
  - exists td. unfold len. rewrite Z.min_r by lia. by rewrite Z.add_0_r.
  - rewrite run_handle. cbn [run ctxErr pret]. rewrite run_handle, run_call.
    destruct (cd_step env cutoff chunk td Hc) as (td1&->&Hsplit).
    pose proof (length_capTo chunk (eligible cutoff td) Hch) as Hlen.
    assert (Hlen' : len (eligible cutoff td) =
      len (capTo chunk (eligible cutoff td)) + len (eligible cutoff td1)).
    { rewrite Hsplit at 1. unfold len. rewrite length_app. lia. }
    assert (Hnn1 : 0 ≤ len (eligible cutoff td1)) by (unfold len; lia).
    assert (Hnn0 : 0 ≤ len (capTo chunk (eligible cutoff td))) by (unfold len; lia).
    cbv zeta. rewrite int64_small by (unfold in_int64, minInt64 in *; lia).
    set (a := capTo chunk (eligible cutoff td)) in *. set (b := eligible cutoff td1) in *.
    destruct (len a <? chunk) eqn:Hlt; to_prop; cbn [run pret].
    + exists td1. rewrite Z.min_l by nia. fold b. split; [do 3 f_equal; lia|].
      rewrite Hsplit. unfold len in *. rewrite drop_ge by (rewrite length_app; lia).
      destruct b; [done|]. cbn in *. lia.
    + rewrite Nat2Z.inj_succ, Z.mul_succ_l.
      destruct (IH (total + len a) td1 ltac:(lia) ltac:(fold b; lia)) as (td'&->&He). fold b in He |- *.
      exists td'. split; [do 3 f_equal; lia|]. rewrite He.
      replace (Z.to_nat (len (eligible cutoff td) `min` (Z.of_nat n * chunk + chunk)))
        with (length a + Z.to_nat (len b `min` (Z.of_nat n * chunk)))%nat by (unfold len in *; lia).
      rewrite Hsplit. by rewrite drop_app_add.
Qed.

(** A retention tick deletes exactly the oldest rows
    its budget allows.  For every repository the retention loop deletes
    from (deliveries of a campaign, suppressions, tracking events, bounces,
    outbox events), the chunked delete removes, in ID order, the first
    [chunk] times [maxChunks] of the eligible rows, or all of them if there
    are fewer, reports their number, and leaves the rest eligible for the
    next tick. *)
Theorem chunked_delete_exact env n cutoff chunk td r td' :
  e_closed env = false → 0 < chunk → len (eligible cutoff td) ≤ maxInt64 →
  run env (chunkedDelete n del cutoff chunk 0) td = (r, td') →
  let deleted := Z.min (len (eligible cutoff td)) (Z.of_nat n * chunk) in
  r = inr (deleted, None) ∧ eligible cutoff td' = drop (Z.to_nat deleted) (eligible cutoff td).
Proof.
  intros Hc Hch Hmax Hrun.
  destruct (chunkedDelete_run env n cutoff chunk 0 td Hc Hch ltac:(lia) ltac:(lia)) as (td1&Hr&He).
  rewrite Hr in Hrun. by injection Hrun as <- <-.
Qed.
End chunked.

(** ** Cancelling *)

(** The rows of a campaign a cancel still has to move. *)
Definition toCancel (campaignID : string) (td : tenantData) : list string :=
  selectIDs (λ _ d, transitionMatch campaignID cancellableStatuses DeliveryCancelled d) (deliveries td).

Lemma transitionRow_Status to at_ d : d_Status (transitionRow to at_ d) = to.
Proof. unfold transitionRow. by destruct (Terminal to). Qed.

Lemma transitionRow_cancelled campaignID at_ d :
  transitionMatch campaignID cancellableStatuses DeliveryCancelled (transitionRow DeliveryCancelled at_ d) = false.
Proof.
  unfold transitionMatch. rewrite transitionRow_Status.
  rewrite (bool_decide_eq_true_2 (DeliveryCancelled = DeliveryCancelled)) by done. by rewrite orb_true_r.
Qed.

Lemma cancel_step env chunk cam td :
  e_closed env = false → 0 < chunk →
  let td' := (run env (cancellerOne chunk cam) td).2 in
  toCancel (c_ID cam) td' = drop (Z.to_nat chunk) (toCancel (c_ID cam) td) ∧
  (∀ id, id ∉ toCancel (c_ID cam) td → deliveries td' !! id = deliveries td !! id).
Proof.
  intros Hc Hch. unfold cancellerOne. rewrite run_pbind, run_call. unfold BulkTransition, checked. rewrite Hc.
  cbn [snd run pret]. fold (toCancel (c_ID cam) td). rewrite capTo_take by done.
  set (ids := toCancel (c_ID cam) td). set (n := Z.to_nat chunk).
  assert (Hnd : NoDup (take n ids)).
  { eapply sublist_NoDup; [|apply sublist_take]. apply NoDup_selectIDs. }
  cbn. split.
  - unfold toCancel at 1. cbn. eapply selectIDs_rest; [symmetry; apply (take_drop n)| |].
    + intros id v Hin. rewrite alterAll_in by done. intros (d&_&->)%fmap_Some. apply transitionRow_cancelled.
    + intros id Hin. by apply alterAll_notin.
  - intros id Hin. apply alterAll_notin. intros Ht. apply Hin. by eapply subseteq_take.
Qed.

(** A cancel finishes.  Each tick moves the next
    [chunk] pending, queued and deferred deliveries of the campaign to
    cancelled, so after enough ticks none is left for a sender to claim; rows
    in any other state, in particular the ones a sender holds, and all other
    campaigns' rows are never touched. *)
Theorem canceller_drains env chunk cam td (k : nat) :
  e_closed env = false → 0 < chunk → len (toCancel (c_ID cam) td) ≤ Z.of_nat k * chunk →
  let td' := Nat.iter k (λ t, (run env (cancellerOne chunk cam) t).2) td in
  (∀ id d, deliveries td' !! id = Some d → d_CampaignID d = c_ID cam → d_Status d ∉ cancellableStatuses) ∧
  (∀ id d, deliveries td !! id = Some d →
     d_CampaignID d ≠ c_ID cam ∨ d_Status d ∉ cancellableStatuses → deliveries td' !! id = Some d).
Proof.
  intros Hc Hch Hk td'. set (f := λ t, (run env (cancellerOne chunk cam) t).2) in *.
  assert (Hiter : ∀ j, toCancel (c_ID cam) (Nat.iter j f td) =
      drop (j * Z.to_nat chunk) (toCancel (c_ID cam) td) ∧
    (∀ id, id ∉ toCancel (c_ID cam) td → deliveries (Nat.iter j f td) !! id = deliveries td !! id)).
  { induction j as [|j [IH1 IH2]]; [by rewrite drop_0|].
    change (Nat.iter (S j) f td) with (f (Nat.iter j f td)).
    destruct (cancel_step env chunk cam (Nat.iter j f td) Hc Hch) as [H1 H2].
    change (run env (cancellerOne chunk cam) (Nat.iter j f td)).2 with (f (Nat.iter j f td)) in H1, H2.
    split.
    - rewrite H1, IH1, drop_drop. f_equal. lia.
    - intros id Hin. rewrite H2; [by apply IH2|]. rewrite IH1. intros Hd. apply Hin.
      by eapply subseteq_drop. }
  destruct (Hiter k) as [H1 H2]. fold td' in H1, H2. rewrite drop_ge in H1 by (unfold len in Hk; nia). split.
  - intros id d Hd Hdc Hin.
    assert (Hin' : id ∈ toCancel (c_ID cam) td'); [|rewrite H1 in Hin'; by apply elem_of_nil in Hin'].
    apply elem_of_selectIDs. exists d. split; [done|]. unfold transitionMatch, strEq, matchStatus, contains.
    rewrite bool_decide_eq_true_2 by done. cbn [negb orb].
    change (len cancellableStatuses =? 0) with false. rewrite (bool_decide_eq_true_2 (_ ∈ _)) by done.
    rewrite bool_decide_eq_false_2; [done|]. intros He. rewrite He in Hin.
    by apply (bool_decide_eq_true_2 _) in Hin.
  - intros id d Hd Hor. rewrite H2; [done|]. intros Hin.
    apply elem_of_selectIDs in Hin as (x&Hx&Hm). simplify_eq. unfold transitionMatch, matchStatus in Hm.
    change (len cancellableStatuses =? 0) with false in Hm. to_prop. tauto.
Qed.

(** ** Concrete runs *)

Definition expired (email : string) : Suppression :=
  zero <| sp_EmailNorm := email |> <| sp_ExpiresAt := Second |>.

Definition suppressedData : tenantData :=
  newTenantData <| suppressions := <["a" := expired "a"]> (<["b" := expired "b"]> (<["c" := expired "c"]> ∅)) |>.

Lemma chunked_delete_exact_witness :
  (run sampleEnv (chunkedDelete 2 (λ before limit env, SuppressionDeleteBefore env before limit) Hour 1 0)
     suppressedData).1 = inr (2, None).
Proof.
  destruct (run sampleEnv _ suppressedData) as [r td'] eqn:Hrun.
  eapply (chunked_delete_exact _ _ sampleEnv 2 Hour 1 suppressedData r td') in Hrun as [-> _];
    [vm_compute; reflexivity|reflexivity|done|by vm_compute].
Defined.

Definition cancelledCampaign : Campaign := zero <| c_ID := "c1" |> <| c_Status := CampaignCancelled |>.

Definition drainedData : tenantData :=
  Nat.iter 1 (λ t, (run sampleEnv (cancellerOne 1 cancelledCampaign) t).2) sampleInserted.

Lemma canceller_drains_witness :
  match deliveries drainedData !! "d1" with
  | Some d => d_Status d ∉ cancellableStatuses
  | None => False
  end.
Proof.
  assert (Hid : d_CampaignID <$> deliveries drainedData !! "d1" = Some "c1") by (vm_compute; reflexivity).
  destruct (deliveries drainedData !! "d1") as [d|] eqn:Hd; [|done].
  apply (canceller_drains sampleEnv 1 cancelledCampaign sampleInserted 1 eq_refl) with (id := "d1");
    [done|by vm_compute|exact Hd|by injection Hid].
Defined.
