(* ===== verification/OutboxDispatch.v ===== *)
(** * The outbox dispatcher ([internal/control/outbox.go], [events.go])

    Each tick claims the due events of a tenant, retires the ones the tenant
    is not subscribed to and hands the others to the host's [EventSink], which
    is code outside the repository: its answer to one event is an argument.
    The workers of a tick each make one store call per event, so an
    interleaving of theirs is an order of the dispatches, and the order is
    proved not to matter. *)

From S2P Require Import Prelude Enums Model MemTable MemData Repos ReposProps Prog Settings.

(** ** Configuration and events *)

(** The options of [options.go] the dispatcher reads. *)
Record outboxConfig := mkOutboxConfig {
  oc_owner : string;
  oc_OutboxClaim : Z;
  oc_outboxLease : Duration;
  oc_outboxBackoff : list Duration;
  oc_outboxMaxAttempts : Z;
}.

Definition defaultOutbox (owner : string) : outboxConfig :=
  mkOutboxConfig owner 100 Minute [Minute; 5 * Minute; 30 * Minute; 2 * Hour; 12 * Hour] 10.

(** [host.Event] *)
Record Event := mkEvent {
  ev_ID : string;
  ev_TenantID : string;
  ev_Type : string;
  ev_OccurredAt : Time;
  ev_Payload : string;
}.

Definition eventFromOutbox (e : OutboxEvent) : Event :=
  mkEvent (o_ID e) (o_TenantID e) (o_Type e) (o_CreatedAt e) (o_Payload e).

Definition backoffFor (schedule : list Duration) (n : Z) : Duration :=
  if len schedule =? 0 then Minute
  else
    let n := if n <? 1 then 1 else n in
    let n := if len schedule <? n then len schedule else n in
    default 0 (schedule !! Z.to_nat (n - 1)).

Definition maxOutboxErrLen : Z := 1024.

(** The UTF-8 bytes of the ellipsis. *)
Definition ellipsis : string :=
  String (Ascii.ascii_of_nat 226) (String (Ascii.ascii_of_nat 128) (String (Ascii.ascii_of_nat 166) "")).

Definition truncateErr (s : string) : string :=
  if maxOutboxErrLen <? Z.of_nat (String.length s)
  then String.substring 0 (Z.to_nat maxOutboxErrLen) s +:+ ellipsis else s.

(** ** The dispatcher *)

Section dispatcher.
Context (cfg : outboxConfig).
(** [Emit]'s error for an event, and the clock when an event is retired. *)
Context (emit : Event → option string) (clock : string → Time).

(** When a failed event is tried again; zero dead-letters it. *)
Definition nextAttempt (now : Time) (ev : OutboxEvent) : Time :=
  let attempt := int64 (o_Attempts ev + 1) in
  if attempt <? oc_outboxMaxAttempts cfg
  then addTime now (backoffFor (oc_outboxBackoff cfg) attempt) else zeroTime.

Definition retire (id : string) : prog unit :=
  call (λ env, MarkDelivered env id (TruncateTime (clock id))).

Definition dispatch (now : Time) (ev : OutboxEvent) : prog unit :=
  match emit (eventFromOutbox ev) with
  | None => handle (retire (o_ID ev)) (λ _, pret tt)
  | Some err =>
      handle (call (λ env, MarkFailed env (o_ID ev) (nextAttempt now ev) (truncateErr err)))
        (λ _, pret tt)
  end.

(** The loop of [subscribed]. *)
Fixpoint subscribedLoop (s : TenantSettings) (events : list OutboxEvent) : prog (list OutboxEvent) :=
  match events with
  | [] => pret []
  | ev :: events' =>
      if SubscribedTo (Some s) (o_Type ev)
      then let? out := subscribedLoop s events' in pret (ev :: out)
      else handle (retire (o_ID ev)) (λ _, subscribedLoop s events')
  end.

Definition subscribed (rand tenant : string) (events : list OutboxEvent) (now : Time)
    : prog (list OutboxEvent) :=
  handle (LoadTenantSettings rand tenant now) (λ r,
    match r with inl _ => pret events | inr s => subscribedLoop s events end).

(** The feeding loop with its workers: the events handed to the sink, and the
    context's error if it stopped the feeding. *)
Fixpoint feed (now : Time) (events : list OutboxEvent) : prog (list Event * option error) :=
  match events with
  | [] => pret ([], None)
  | ev :: events' =>
      Poll (λ cancelled,
        if cancelled then pret ([], Some errCanceled)
        else
          handle (dispatch now ev) (λ _,
            let? out := feed now events' in pret (eventFromOutbox ev :: out.1, out.2)))
  end.

Definition outboxTick (rand tenant : string) (now : Time) : prog (list Event * option error) :=
  let? events := call (λ env, ClaimPending env (oc_OutboxClaim cfg) (oc_outboxLease cfg) (oc_owner cfg) now) in
  if len events =? 0 then pret ([], None)
  else
    let? events := subscribed rand tenant events now in
    if len events =? 0 then pret ([], None) else feed now events.

(** ** What a tick does *)

(** The row of an event after its dispatch. *)
Definition settle (now : Time) (ev : OutboxEvent) (e : OutboxEvent) : OutboxEvent :=
  match emit (eventFromOutbox ev) with
  | None => deliveredEvent (TruncateTime (clock (o_ID ev))) e
  | Some err => failedEvent (nextAttempt now ev) (truncateErr err) e
  end.

Definition onOutbox (f : gmap string OutboxEvent → gmap string OutboxEvent) (td : tenantData) : tenantData :=
  td <| outbox := f (outbox td) |>.

Lemma onOutbox_id td : onOutbox id td = td.
Proof. by destruct td. Qed.

Lemma onEvent_alter env i f td :
  e_closed env = false → (onEvent env i f td).2 = onOutbox (alter f i) td.
Proof.
  intros Hc. unfold onEvent, checked, throw, onOutbox. rewrite Hc, alter_alt.
  destruct (outbox td !! i) as [e|]; [done|]. by destruct td.
Qed.

(** A call whose outcome is ignored. *)
Lemma run_ignored {B C} env (op : Env → M tenantData B) (p : prog C) td :
  run env (handle (call op) (λ _, p)) td = run env p (op env td).2.
Proof. rewrite run_handle, run_call. by destruct (op env td). Qed.

Lemma run_dispatch env now ev td :
  e_closed env = false →
  run env (dispatch now ev) td = (inr tt, onOutbox (alter (settle now ev) (o_ID ev)) td).
Proof.
  intros Hc. unfold dispatch, retire, settle. destruct (emit _); rewrite run_ignored; cbn [run pret];
    unfold MarkFailed, MarkDelivered; by rewrite onEvent_alter.
Qed.

Definition settleAll (now : Time) (events : list OutboxEvent) (m : gmap string OutboxEvent)
    : gmap string OutboxEvent :=
  foldl (λ m ev, alter (settle now ev) (o_ID ev) m) m events.

Lemma run_feed env now events td :
  e_closed env = false →
  run env (feed now events) td = (inr (eventFromOutbox <$> events, None), onOutbox (settleAll now events) td).
Proof.
  intros Hc. revert td. induction events as [|ev events IH]; intros td; cbn [feed run].
  - cbn. by rewrite onOutbox_id.
  - rewrite run_handle, run_dispatch by done. rewrite run_pbind, IH. by destruct td.
Qed.

Lemma outbox_onOutbox f td : outbox (onOutbox f td) = f (outbox td).
Proof. done. Qed.

Lemma run_feed_all env now events td :
  e_closed env = false →
  run env (if len events =? 0 then pret ([], None) else feed now events) td =
    (inr (eventFromOutbox <$> events, None), onOutbox (settleAll now events) td).
Proof.
  intros Hc. destruct (len events =? 0) eqn:Hl; [|by apply run_feed].
  assert (events = []) as -> by (destruct events; [done|unfold len in Hl; cbn in Hl; to_prop; lia]).
  cbn. by rewrite onOutbox_id.
Qed.

Definition retireAll (events : list OutboxEvent) (m : gmap string OutboxEvent) : gmap string OutboxEvent :=
  foldl (λ m ev, alter (deliveredEvent (TruncateTime (clock (o_ID ev)))) (o_ID ev) m) m events.

Definition wanted (s : TenantSettings) (ev : OutboxEvent) : Prop := SubscribedTo (Some s) (o_Type ev) = true.

#[global] Instance wanted_dec s ev : Decision (wanted s ev).
Proof. unfold wanted. apply _. Defined.

Lemma run_subscribedLoop env s events td :
  e_closed env = false →
  run env (subscribedLoop s events) td =
    (inr (filter (wanted s) events), onOutbox (retireAll (filter (λ ev, ¬ wanted s ev) events)) td).
Proof.
  intros Hc. revert td. induction events as [|ev events IH]; intros td; cbn [subscribedLoop].
  - cbn. by rewrite onOutbox_id.
  - destruct (SubscribedTo (Some s) (o_Type ev)) eqn:Hs.
    + rewrite run_pbind, IH, filter_cons_True by done. rewrite filter_cons_False; [done|].
      intros Hn. by apply Hn.
    + rewrite filter_cons_False by (unfold wanted; by rewrite Hs).
      rewrite filter_cons_True by (unfold wanted; by rewrite Hs).
      unfold retire. rewrite run_ignored. unfold MarkDelivered. rewrite onEvent_alter by done.
      rewrite IH. by destruct td.
Qed.
End dispatcher.

(** ** Folds of alterations *)

Lemma foldl_alter_notin {A B} (f : A → B → B) (key : A → string) l (m : gmap string B) k :
  k ∉ key <$> l → foldl (λ m x, alter (f x) (key x) m) m l !! k = m !! k.
Proof.
  revert m. induction l as [|x l IH]; intros m Hk; cbn; [done|]. cbn in Hk.
  rewrite not_elem_of_cons in Hk. destruct Hk as [Hne Hk]. rewrite IH by done. by rewrite lookup_alter_ne.
Qed.

Lemma foldl_alter_in {A B} (f : A → B → B) (key : A → string) l (m : gmap string B) x :
  NoDup (key <$> l) → x ∈ l → foldl (λ m x, alter (f x) (key x) m) m l !! key x = f x <$> m !! key x.
Proof.
  revert m. induction l as [|y l IH]; intros m Hnd Hx; [by apply not_elem_of_nil in Hx|].
  cbn in Hnd. apply NoDup_cons in Hnd as [Hy Hnd]. cbn. apply elem_of_cons in Hx as [->|Hx].
  - rewrite foldl_alter_notin by done. by rewrite lookup_alter_eq.
  - rewrite IH by done. rewrite lookup_alter_ne; [done|]. intros Heq. apply Hy. rewrite Heq.
    by apply list_elem_of_fmap_2.
Qed.

Lemma foldl_alter_perm {A B} (f : A → B → B) (key : A → string) l l' (m : gmap string B) :
  NoDup (key <$> l) → l ≡ₚ l' →
  foldl (λ m x, alter (f x) (key x) m) m l = foldl (λ m x, alter (f x) (key x) m) m l'.
Proof.
  intros Hnd Hp. apply map_eq. intros k.
  assert (Hnd' : NoDup (key <$> l')) by (by rewrite <- Hp).
  destruct (decide (k ∈ key <$> l)) as [(x&->&Hx)%list_elem_of_fmap|Hk].
  - rewrite foldl_alter_in by done. rewrite foldl_alter_in; [done|done|]. by rewrite <- Hp.
  - rewrite foldl_alter_notin by done. rewrite foldl_alter_notin; [done|]. by rewrite <- Hp.
Qed.

(** ** The tick as a function of the store *)

(** Events are filed under their ID. *)
Definition outboxKeyed (td : tenantData) : Prop := ∀ id e, outbox td !! id = Some e → o_ID e = id.

(** The events a tick claims, leased. *)
Definition claimedIDs (cfg : outboxConfig) (now : Time) (td : tenantData) : list string :=
  capTo (oc_OutboxClaim cfg) (selectIDs (λ _ e, outboxDue (TruncateTime now) e) (outbox td)).

Definition leased (cfg : outboxConfig) (now : Time) (e : OutboxEvent) : OutboxEvent :=
  leaseEvent (oc_owner cfg) (TruncateTime (addTime (TruncateTime now) (oc_outboxLease cfg))) e.

Definition claimed (cfg : outboxConfig) (now : Time) (td : tenantData) : list OutboxEvent :=
  omap (λ id, leased cfg now <$> outbox td !! id) (claimedIDs cfg now td).

Lemma NoDup_claimedIDs cfg now td : NoDup (claimedIDs cfg now td).
Proof. apply NoDup_capTo, NoDup_selectIDs. Qed.

Lemma elem_of_claimed cfg now td ev :
  ev ∈ claimed cfg now td ↔
  ∃ id e, id ∈ claimedIDs cfg now td ∧ outbox td !! id = Some e ∧ ev = leased cfg now e.
Proof.
  unfold claimed. rewrite list_elem_of_omap. split.
  - intros (id&Hid&Hev). apply fmap_Some in Hev as (e&He&->). eauto.
  - intros (id&e&Hid&He&->). exists id. by rewrite He.
Qed.

Lemma claimed_keys cfg now td : outboxKeyed td → o_ID <$> claimed cfg now td = claimedIDs cfg now td.
Proof.
  intros Hk. unfold claimed.
  assert (Hall : ∀ id, id ∈ claimedIDs cfg now td → is_Some (outbox td !! id)).
  { intros id Hid. apply elem_of_capTo, elem_of_selectIDs in Hid as (e&He&_). by eexists. }
  revert Hall. generalize (claimedIDs cfg now td) as ids. induction ids as [|id ids IH]; intros Hall; [done|].
  destruct (Hall id) as [e He]; [by left|]. cbn. rewrite He. cbn. rewrite (Hk _ _ He). f_equal.
  apply IH. intros i Hi. apply Hall. by right.
Qed.

Lemma run_LoadTenantSettings env rand tenant at_ td :
  e_closed env = false →
  ∃ s td', run env (LoadTenantSettings rand tenant at_) td = (inr s, td') ∧ outbox td' = outbox td ∧
    ∀ s0, settings td = Some s0 → s = s0 ∧ td' = td.
Proof.
  intros Hc. unfold LoadTenantSettings. rewrite run_handle, run_call.
  unfold SettingsGet at 1, checked. rewrite Hc. destruct (settings td) as [s|] eqn:Hs; cbn [run pret].
  { exists s, td. split_and!; [done..|]. by intros s0 [= ->]. }
  change (errIs ErrNotFound ErrNotFound) with true. cbn [negb]. rewrite run_handle, run_call.
  unfold SettingsCreate, checked. rewrite Hc, Hs. cbn [run pret]. eexists _, _. split_and!; [done..|]. done.
Qed.

(** The row of a claimed event after the tick. *)
Definition outcome (cfg : outboxConfig) (emit : Event → option string) (clock : string → Time) (now : Time)
    (s : TenantSettings) (ev : OutboxEvent) : OutboxEvent :=
  if SubscribedTo (Some s) (o_Type ev) then settle cfg emit clock now ev ev
  else deliveredEvent (TruncateTime (clock (o_ID ev))) ev.

Section tick.
Context (cfg : outboxConfig) (emit : Event → option string) (clock : string → Time).

(** The two folds of a tick, over disjoint events. *)
Lemma settled_lookup now s evs m id :
  NoDup (o_ID <$> evs) →
  settleAll cfg emit clock now (filter (wanted s) evs)
    (retireAll clock (filter (λ ev, ¬ wanted s ev) evs) m) !! id =
  match list_find (λ ev, o_ID ev = id) evs with
  | Some (_, ev) =>
      (if SubscribedTo (Some s) (o_Type ev) then settle cfg emit clock now ev
       else deliveredEvent (TruncateTime (clock id))) <$> m !! id
  | None => m !! id
  end.
Proof.
  intros Hnd.
  assert (Hsub : ∀ P `{∀ ev, Decision (P ev)}, NoDup (o_ID <$> filter P evs)).
  { intros P HP. eapply sublist_NoDup; [exact Hnd|]. apply fmap_sublist, sublist_filter. }
  assert (Hout : ∀ P `{∀ ev, Decision (P ev)}, (∀ ev, ev ∈ evs → o_ID ev = id → ¬ P ev) →
    id ∉ o_ID <$> filter P evs).
  { intros P HP Hno (ev&Hid&Hin)%list_elem_of_fmap. apply list_elem_of_filter in Hin as [Hp Hin]. by eapply Hno. }
  unfold settleAll, retireAll.
  destruct (list_find _ evs) as [[i ev]|] eqn:Hf.
  - apply list_find_Some in Hf as (Hi&<-&_). apply list_elem_of_lookup_2 in Hi.
    assert (Huniq : ∀ ev', ev' ∈ evs → o_ID ev' = o_ID ev → ev' = ev).
    { intros ev' Hin Heq. by apply (NoDup_fmap_inj_on o_ID evs). }
    destruct (SubscribedTo (Some s) (o_Type ev)) eqn:Hs.
    + rewrite foldl_alter_in; [|by apply Hsub|by apply list_elem_of_filter].
      rewrite (foldl_alter_notin (λ ev, deliveredEvent (TruncateTime (clock (o_ID ev))))); [done|].
      apply Hout. intros ev' Hin Heq. rewrite (Huniq _ Hin Heq). unfold wanted. rewrite Hs. tauto.
    + rewrite foldl_alter_notin.
      * rewrite (foldl_alter_in (λ ev, deliveredEvent (TruncateTime (clock (o_ID ev))))); [done|by apply Hsub|].
        apply list_elem_of_filter. split; [|done]. unfold wanted. by rewrite Hs.
      * apply Hout. intros ev' Hin Heq. rewrite (Huniq _ Hin Heq). unfold wanted. by rewrite Hs.
  - apply list_find_None in Hf. rewrite Forall_forall in Hf.
    rewrite foldl_alter_notin by (apply Hout; intros ev' Hin Heq; by destruct (Hf _ Hin)).
    apply (foldl_alter_notin (λ ev, deliveredEvent (TruncateTime (clock (o_ID ev))))).
    apply Hout. intros ev' Hin Heq. by destruct (Hf _ Hin).
Qed.
End tick.

Lemma ClaimPending_run env cfg now td :
  e_closed env = false →
  ClaimPending env (oc_OutboxClaim cfg) (oc_outboxLease cfg) (oc_owner cfg) now td =
  (inr (claimed cfg now td), onOutbox (alterAll (leased cfg now) (claimedIDs cfg now td)) td).
Proof. intros Hc. unfold ClaimPending, checked. by rewrite Hc. Qed.

Lemma claimed_find cfg now td id :
  outboxKeyed td →
  snd <$> list_find (λ ev, o_ID ev = id) (claimed cfg now td) =
  if decide (id ∈ claimedIDs cfg now td) then leased cfg now <$> outbox td !! id else None.
Proof.
  intros Hk. destruct (list_find _ _) as [[i ev]|] eqn:Hf; cbn.
  - apply list_find_Some in Hf as (Hi&Hid&_). apply list_elem_of_lookup_2, elem_of_claimed in Hi as (id'&e&Hin&He&->).
    assert (id' = id) as -> by (rewrite <- (Hk _ _ He); done). by rewrite decide_True, He.
  - case_decide as Hin; [|done]. apply list_find_None in Hf. rewrite Forall_forall in Hf.
    rewrite <- (claimed_keys cfg now td Hk) in Hin. apply list_elem_of_fmap in Hin as (ev&->&Hin).
    by destruct (Hf _ Hin).
Qed.

(** The run of a tick. *)
Lemma run_outboxTick cfg emit clock env rand tenant now td :
  e_closed env = false → outboxKeyed td →
  ∃ s td', run env (outboxTick cfg emit clock rand tenant now) td =
      (inr (eventFromOutbox <$> filter (wanted s) (claimed cfg now td), None), td') ∧
    (∀ s0, settings td = Some s0 → s = s0 ∧ settings td' = Some s0) ∧
    (∀ id, outbox td' !! id =
       if decide (id ∈ claimedIDs cfg now td)
       then (λ e, outcome cfg emit clock now s (leased cfg now e)) <$> outbox td !! id
       else outbox td !! id).
Proof.
  intros Hc Hk. unfold outboxTick. rewrite run_pbind, run_call, ClaimPending_run by done.
  set (td1 := onOutbox _ td). set (evs := claimed cfg now td).
  assert (Hlk : ∀ id, outbox td1 !! id = if decide (id ∈ claimedIDs cfg now td)
      then leased cfg now <$> outbox td !! id else outbox td !! id).
  { intros id. subst td1. cbn. apply alterAll_lookup, NoDup_claimedIDs. }
  destruct (len evs =? 0) eqn:He.
  { assert (Hev : evs = []) by (destruct evs; [done|unfold len in He; cbn in He; to_prop; lia]).
    exists (default (DefaultTenantSettings rand tenant now) (settings td)), td1. rewrite Hev. split; [done|]. split.
    - intros s0 Hs. subst td1. cbn. by rewrite Hs.
    - intros id. rewrite Hlk. unfold evs in Hev. pose proof (claimed_keys cfg now td Hk) as Hkeys.
      rewrite Hev in Hkeys. by rewrite <- Hkeys, !decide_False by apply not_elem_of_nil. }
  rewrite run_pbind. unfold subscribed. rewrite run_handle.
  destruct (run_LoadTenantSettings env rand tenant now td1 Hc) as (s&td2&->&Hob&Hst).
  rewrite run_subscribedLoop by done.
  set (td3 := onOutbox _ td2). exists s.
  rewrite run_feed_all by done. eexists. split; [done|]. split.
  - intros s0 Hs. destruct (Hst s0) as [-> Htd2]; [done|]. subst td3. by rewrite Htd2.
  - intros id. assert (Hnd : NoDup (o_ID <$> evs)) by (unfold evs; rewrite claimed_keys by done; apply NoDup_claimedIDs).
    subst td3. rewrite !outbox_onOutbox, settled_lookup, Hob, Hlk by done. pose proof (claimed_find cfg now td id Hk) as Hfind. fold evs in Hfind.
    destruct (list_find _ evs) as [[i ev]|] eqn:Hf; cbn in Hfind.
    + case_decide as Hin; [|done]. apply list_find_Some in Hf as (_&Hid&_).
      destruct (outbox td !! id) as [e|]; [|done]. cbn in Hfind. injection Hfind as ->.
      cbn -[SubscribedTo leased outcome]. unfold outcome. rewrite Hid. by destruct (SubscribedTo _ _).
    + case_decide as Hin; [|done]. symmetry in Hfind. apply fmap_None in Hfind. by rewrite Hfind.
Qed.

(** C26 (control/outbox): a dispatch tick settles every event it claims.  On an
    open store, a tick that is not cancelled hands to the sink, in ID order and
    once each, exactly the claimed events the tenant is subscribed to; a
    delivered or unwanted one is retired, a failed one is rescheduled or
    dead-lettered, no claimed event stays leased, and every other event is
    left as it was. *)
Theorem outbox_tick_exact cfg emit clock env rand tenant now td :
  e_closed env = false → outboxKeyed td →
  ∃ s td', run env (outboxTick cfg emit clock rand tenant now) td =
      (inr (eventFromOutbox <$> filter (wanted s) (claimed cfg now td), None), td') ∧
    (∀ s0, settings td = Some s0 → s = s0) ∧
    (∀ id e, outbox td !! id = Some e →
       if decide (id ∈ claimedIDs cfg now td)
       then ∃ e', outbox td' !! id = Some e' ∧ o_LeaseOwner e' = "" ∧ o_LeaseUntil e' = zeroTime ∧
              e' = outcome cfg emit clock now s (leased cfg now e)
       else outbox td' !! id = Some e).
Proof.
  intros Hc Hk. destruct (run_outboxTick cfg emit clock env rand tenant now td Hc Hk) as (s&td'&Hrun&Hs&Ho).
  exists s, td'. split; [done|]. split; [by intros s0 [-> _]%Hs|].
  intros id e He. specialize (Ho id). rewrite He in Ho. case_decide; [|done].
  eexists. split; [exact Ho|]. unfold outcome, settle, failedEvent, deliveredEvent.
  repeat case_match; done.
Qed.

(** The order of the workers does not matter.  Each worker
    settles one event with one store call, so whatever order the concurrent
    workers reach the store in, a tick leaves the same outbox. *)
Theorem dispatch_order_irrelevant cfg emit clock env now events events' td :
  e_closed env = false → NoDup (o_ID <$> events) → events ≡ₚ events' →
  (run env (feed cfg emit clock now events) td).2 = (run env (feed cfg emit clock now events') td).2.
Proof.
  intros Hc Hnd Hp. rewrite !run_feed by done. cbn [snd]. unfold onOutbox, settleAll.
  by rewrite (foldl_alter_perm _ _ _ _ _ Hnd Hp).
Qed.

(** ** The dispatch budget of one event *)

(** One tick: the environment, the time, and what the sink and the clock answer. *)
Record tick := mkTick {
  tk_env : Env;
  tk_now : Time;
  tk_emit : Event → option string;
  tk_clock : string → Time;
}.

(** The events handed to the sink over a sequence of ticks, and the store. *)
Fixpoint runTicks (cfg : outboxConfig) (rand tenant : string) (ticks : list tick) (td : tenantData)
    : list Event * tenantData :=
  match ticks with
  | [] => ([], td)
  | t :: ticks' =>
      let '(r, td1) := run (tk_env t) (outboxTick cfg (tk_emit t) (tk_clock t) rand tenant (tk_now t)) td in
      let evs := match r with inr (evs, _) => evs | inl _ => [] end in
      let '(evs', td') := runTicks cfg rand tenant ticks' td1 in (evs ++ evs', td')
  end.

(** How often an event was handed over. *)
Definition handed (id : string) (evs : list Event) : Z := len (filter (λ ev, ev_ID ev = id) evs).

(** The sink refuses [id] throughout. *)
Definition refuses (id : string) (t : tick) : Prop :=
  e_closed (tk_env t) = false ∧ 0 < tk_now t ∧ ∀ ev, ev_ID ev = id → is_Some (tk_emit t ev).

Definition budget (cfg : outboxConfig) : Z := Z.max 1 (oc_outboxMaxAttempts cfg).

(** An event of type [typ] that was refused [n] times. *)
Record refusedTimes (cfg : outboxConfig) (typ : string) (n : Z) (e : OutboxEvent) : Prop := {
  rt_attempts : o_Attempts e = n;
  rt_range : 0 ≤ n ≤ budget cfg;
  rt_status : o_Status e = if n <? budget cfg then OutboxPending else OutboxFailed;
  rt_type : o_Type e = typ;
}.

Lemma handed_app id l1 l2 : handed id (l1 ++ l2) = handed id l1 + handed id l2.
Proof. unfold handed, len. rewrite filter_app, length_app. lia. Qed.

Lemma backoffFor_nonneg schedule n : Forall (λ d, 0 ≤ d) schedule → 0 ≤ backoffFor schedule n.
Proof.
  intros Hs. unfold backoffFor. destruct (_ =? 0); [done|]. cbv zeta.
  destruct (schedule !! _) as [d|] eqn:Hd; [|done]. cbn. rewrite Forall_forall in Hs.
  by eapply Hs, list_elem_of_lookup_2.
Qed.

Lemma refused_step cfg emit clock now typ n e s :
  oc_outboxMaxAttempts cfg ≤ maxInt64 → Forall (λ d, 0 ≤ d) (oc_outboxBackoff cfg) → 0 < now →
  is_Some (emit (eventFromOutbox (leased cfg now e))) → SubscribedTo (Some s) typ = true →
  refusedTimes cfg typ n e → n < budget cfg →
  refusedTimes cfg typ (n + 1) (outcome cfg emit clock now s (leased cfg now e)).
Proof.
  intros Hmax Hb Hnow [err Herr] Hsub [Ha Hr Hst Hty] Hlt.
  assert (Hbud : budget cfg ≤ maxInt64) by (unfold budget, maxInt64 in *; lia).
  unfold outcome. change (o_Type (leased cfg now e)) with (o_Type e). rewrite Hty, Hsub.
  unfold settle. rewrite Herr. unfold nextAttempt, failedEvent. cbv zeta.
  change (o_Attempts (leased cfg now e)) with (o_Attempts e). rewrite Ha.
  assert (Hi : int64 (n + 1) = n + 1) by (apply int64_small; unfold in_int64, minInt64, maxInt64 in *; lia).
  rewrite Hi. pose proof (backoffFor_nonneg (oc_outboxBackoff cfg) (n + 1) Hb) as Hbo.
  destruct (n + 1 <? oc_outboxMaxAttempts cfg) eqn:E; to_prop.
  - assert (Hz : (now + backoffFor (oc_outboxBackoff cfg) (n + 1) =? 0) = false) by (apply Z.eqb_neq; lia).
    rewrite Hz. split; cbn; [done|lia| |done].
    rewrite (proj2 (Z.ltb_lt _ _)); [done|]. unfold budget. lia.
  - change (IsZero zeroTime) with true. split; cbn; [done|lia| |done].
    rewrite (proj2 (Z.ltb_ge _ _)); [done|]. unfold budget in *. lia.
Qed.

(** One tick over a refused event: refused once more exactly if it was handed over. *)
Lemma refused_tick cfg rand tenant t td id typ n e s :
  oc_outboxMaxAttempts cfg ≤ maxInt64 → Forall (λ d, 0 ≤ d) (oc_outboxBackoff cfg) → refuses id t →
  outboxKeyed td → settings td = Some s → SubscribedTo (Some s) typ = true →
  outbox td !! id = Some e → refusedTimes cfg typ n e →
  ∃ evs td' e',
    run (tk_env t) (outboxTick cfg (tk_emit t) (tk_clock t) rand tenant (tk_now t)) td = (inr (evs, None), td') ∧
    outboxKeyed td' ∧ settings td' = Some s ∧ outbox td' !! id = Some e' ∧
    refusedTimes cfg typ (n + handed id evs) e'.
Proof.
  intros Hmax Hb (Hc&Hnow&Hem) Hk Hs Hsub He Hr.
  destruct (run_outboxTick cfg (tk_emit t) (tk_clock t) (tk_env t) rand tenant (tk_now t) td Hc Hk)
    as (s'&td'&Hrun&Hset&Ho).
  destruct (Hset s Hs) as [-> Hs'].
  assert (Hk' : outboxKeyed td').
  { intros j x. rewrite (Ho j). destruct (decide (j ∈ claimedIDs cfg (tk_now t) td)); [|exact (Hk j x)]. intros (y&Hy&->)%fmap_Some.
    rewrite <- (Hk _ _ Hy). unfold outcome, settle, failedEvent, deliveredEvent. repeat case_match; done. }
  set (evs := eventFromOutbox <$> filter (wanted s) (claimed cfg (tk_now t) td)) in *.
  assert (Hh : handed id evs = if decide (id ∈ claimedIDs cfg (tk_now t) td) then 1 else 0).
  { assert (Hkeys : ev_ID <$> evs = o_ID <$> filter (wanted s) (claimed cfg (tk_now t) td))
      by (unfold evs; by rewrite <- list_fmap_compose).
    unfold handed, len. rewrite length_filter_key, Hkeys; [|rewrite Hkeys].
    - case_decide as Hin; case_decide as Hin'; [done| | |done]; exfalso.
      + apply Hin'. rewrite <- (claimed_keys cfg (tk_now t) td Hk).
        apply list_elem_of_fmap in Hin as (x&->&[_ Hx]%list_elem_of_filter). by apply list_elem_of_fmap_2.
      + apply Hin, list_elem_of_fmap. exists (leased cfg (tk_now t) e). split; [exact (eq_sym (Hk _ _ He))|].
        apply list_elem_of_filter. split; [|apply elem_of_claimed; eauto].
        unfold wanted. cbn -[SubscribedTo]. by rewrite (rt_type _ _ _ _ Hr).
    - eapply sublist_NoDup; [|apply fmap_sublist, sublist_filter].
      rewrite claimed_keys by done. apply NoDup_claimedIDs. }
  pose proof (Ho id) as Hid. rewrite He in Hid.
  destruct (decide (id ∈ claimedIDs cfg (tk_now t) td)) as [Hin|Hin].
  - exists evs, td', (outcome cfg (tk_emit t) (tk_clock t) (tk_now t) s (leased cfg (tk_now t) e)).
    split_and!; [done..|]. rewrite Hh. apply refused_step; [done..| |done|done|].
    + apply Hem. exact (Hk _ _ He).
    + apply elem_of_capTo, elem_of_selectIDs in Hin as (x&Hx&Hd). simplify_eq.
      destruct (Z.lt_ge_cases n (budget cfg)) as [?|Hge]; [done|exfalso].
      pose proof (rt_status _ _ _ _ Hr) as Hst. rewrite (proj2 (Z.ltb_ge _ _) Hge) in Hst.
      unfold outboxDue in Hd. by rewrite Hst in Hd.
  - exists evs, td', e. split_and!; [done..|]. by rewrite Hh, Z.add_0_r.
Qed.

(** The dispatch budget is exact.  An event the sink keeps
    refusing is handed over at most outboxMaxAttempts times, however many ticks
    run and whatever other events they dispatch; the attempts recorded are the
    times it was handed over, it stays pending until the budget is spent and
    is a dead letter from then on. *)
Theorem outbox_retry_budget cfg rand tenant ticks td id e s evs td' :
  oc_outboxMaxAttempts cfg ≤ maxInt64 → Forall (λ d, 0 ≤ d) (oc_outboxBackoff cfg) →
  Forall (refuses id) ticks → outboxKeyed td → settings td = Some s →
  outbox td !! id = Some e → SubscribedTo (Some s) (o_Type e) = true →
  o_Status e = OutboxPending → o_Attempts e = 0 →
  runTicks cfg rand tenant ticks td = (evs, td') →
  ∃ e', outbox td' !! id = Some e' ∧ o_Attempts e' = handed id evs ∧ handed id evs ≤ budget cfg ∧
    o_Status e' = if handed id evs <? budget cfg then OutboxPending else OutboxFailed.
Proof.
  intros Hmax Hb Hticks Hk Hs He Hsub Hst Ha Hrun.
  assert (Hgen : ∀ ticks td n e evs td', Forall (refuses id) ticks → outboxKeyed td → settings td = Some s →
    outbox td !! id = Some e → ∀ typ, SubscribedTo (Some s) typ = true → refusedTimes cfg typ n e →
    runTicks cfg rand tenant ticks td = (evs, td') →
    ∃ e', outbox td' !! id = Some e' ∧ refusedTimes cfg typ (n + handed id evs) e').
  { clear -Hmax Hb. induction ticks as [|t ticks IH]; intros td n e evs td' Hall Hk Hs He typ Hsub Hr; cbn [runTicks].
    - intros [= <- <-]. exists e. split; [done|]. by rewrite Z.add_0_r.
    - inversion Hall as [|? ? Ht Hall']; subst.
      destruct (refused_tick cfg rand tenant t td id typ n e s Hmax Hb Ht Hk Hs Hsub He Hr)
        as (evs1&td1&e1&->&Hk1&Hs1&He1&Hr1).
      destruct (runTicks cfg rand tenant ticks td1) as [evs2 td2] eqn:Hrun. intros [= <- <-].
      rewrite handed_app, Z.add_assoc. by eapply IH. }
  assert (Hr : refusedTimes cfg (o_Type e) 0 e).
  { split; [done|unfold budget; lia| |done]. rewrite (proj2 (Z.ltb_lt _ _)); [done|]. unfold budget. lia. }
  destruct (Hgen ticks td 0 e evs td' Hticks Hk Hs He (o_Type e) Hsub Hr Hrun) as (e'&He'&[H1 H2 H3 _]).
  exists e'. split_and!; [done|done|lia|done].
Qed.

(** ** Truncated error texts *)

(** [utf8.ValidString], over the bytes. *)
Definition continuation (lo hi n : nat) : bool := (lo <=? n)%nat && (n <=? hi)%nat.

Fixpoint validUTF8 (bytes : list nat) : bool :=
  match bytes with
  | [] => true
  | b :: rest =>
      if (b <? 128)%nat then validUTF8 rest
      else if (b <? 194)%nat then false
      else if (b <? 224)%nat then
        match rest with
        | c :: rest => continuation 128 191 c && validUTF8 rest
        | _ => false
        end
      else if (b <? 240)%nat then
        match rest with
        | c :: d :: rest =>
            continuation (if b =? 224 then 160 else 128)%nat (if b =? 237 then 159 else 191)%nat c &&
            continuation 128 191 d && validUTF8 rest
        | _ => false
        end
      else if (b <? 245)%nat then
        match rest with
        | c :: d :: e :: rest =>
            continuation (if b =? 240 then 144 else 128)%nat (if b =? 244 then 143 else 191)%nat c &&
            continuation 128 191 d && continuation 128 191 e && validUTF8 rest
        | _ => false
        end
      else false
  end.

Definition stringBytes (s : string) : list nat := Ascii.nat_of_ascii <$> String.list_ascii_of_string s.

(** A text of 1023 letters and one two-byte rune. *)
Definition longText : string :=
  Nat.iter 1023 (String (Ascii.ascii_of_nat 97))
    (String (Ascii.ascii_of_nat 195) (String (Ascii.ascii_of_nat 169) "")).

(** The cut at a byte count can fall inside a rune: the stored text is then
    not UTF-8, which a database with a text column refuses. *)
Lemma truncate_err_splits_rune :
  validUTF8 (stringBytes longText) = true ∧ validUTF8 (stringBytes (truncateErr longText)) = false.
Proof. split; vm_compute; reflexivity. Qed.

(** ** Concrete runs *)

Definition dispatchEvent : OutboxEvent :=
  zero <| o_ID := "e1" |> <| o_Type := "campaign.started" |> <| o_Status := OutboxPending |>.

Definition dispatchData : tenantData :=
  newTenantData <| settings := Some zero |> <| outbox := {["e1" := dispatchEvent]} |>.

Definition smallOutbox : outboxConfig := mkOutboxConfig "leader" 10 Minute [Minute] 2.

Lemma dispatchData_keyed : outboxKeyed dispatchData.
Proof. intros id e. cbn. by intros [<- <-]%lookup_singleton_Some. Qed.

Lemma outbox_tick_exact_witness :
  (run repoEnv (outboxTick smallOutbox (λ _, None) (λ _, Hour) "" "acme" Hour) dispatchData).1 =
  inr ([eventFromOutbox dispatchEvent], None).
Proof.
  destruct (outbox_tick_exact smallOutbox (λ _, None) (λ _, Hour) repoEnv "" "acme" Hour dispatchData
    eq_refl dispatchData_keyed) as (s&td'&Hrun&Hs&_).
  rewrite (Hs zero eq_refl) in Hrun. rewrite Hrun. vm_compute. reflexivity.
Defined.

Definition twoEvents : list OutboxEvent := [dispatchEvent; dispatchEvent <| o_ID := "e2" |>].

Lemma dispatch_order_irrelevant_witness :
  (run repoEnv (feed smallOutbox (λ _, None) (λ _, Hour) Hour twoEvents) dispatchData).2 =
  (run repoEnv (feed smallOutbox (λ _, None) (λ _, Hour) Hour (reverse twoEvents)) dispatchData).2.
Proof.
  apply (dispatch_order_irrelevant smallOutbox (λ _, None) (λ _, Hour) repoEnv Hour twoEvents (reverse twoEvents)
    dispatchData); [reflexivity|apply (bool_decide_unpack _); vm_compute; exact I|symmetry; apply reverse_Permutation].
Defined.

Definition refusingTick (now : Time) : tick := mkTick repoEnv now (λ _, Some "refused") (λ _, now).

Definition refusingTicks : list tick := [refusingTick Hour; refusingTick (2 * Hour); refusingTick (3 * Hour)].

Lemma refusingTicks_refuse : Forall (refuses "e1") refusingTicks.
Proof. unfold refusingTicks. repeat constructor; by eexists. Qed.

Lemma outbox_retry_budget_witness :
  handed "e1" (runTicks smallOutbox "" "acme" refusingTicks dispatchData).1 = 2 ∧
  o_Status <$> outbox (runTicks smallOutbox "" "acme" refusingTicks dispatchData).2 !! "e1" = Some OutboxFailed.
Proof.
  assert (Hh : handed "e1" (runTicks smallOutbox "" "acme" refusingTicks dispatchData).1 = 2)
    by (vm_compute; reflexivity).
  split; [exact Hh|]. revert Hh.
  destruct (runTicks smallOutbox "" "acme" refusingTicks dispatchData) as [evs td'] eqn:Hrun. cbn [fst snd]. intros Hh.
  destruct (outbox_retry_budget smallOutbox "" "acme" refusingTicks dispatchData "e1" dispatchEvent zero evs td')
    as (e'&He'&_&_&Hst);
    [by vm_compute|by apply Forall_singleton|exact refusingTicks_refuse|exact dispatchData_keyed|reflexivity|
     vm_compute; reflexivity|vm_compute; reflexivity|reflexivity|reflexivity|exact Hrun|].
  rewrite Hh in Hst. rewrite He'. cbn [fmap option_fmap option_map]. rewrite Hst. vm_compute. reflexivity.
Defined.
