(* ===== verification/Classify.v ===== *)
(** * Classification of send errors ([internal/sender/classify.go])

    An error of a send attempt is normalized into one of the error classes by
    a table of rules over the SMTP reply.  A Go error is represented by what
    [errors.As] and [errors.Is] find in its chain. *)

From S2P Require Import Prelude Enums Model.

(** ** Strings *)

(** [strings.Contains] *)
Fixpoint strContains (s sub : string) : bool :=
  String.prefix sub s ||
  match s with EmptyString => false | String _ s' => strContains s' sub end.

(** [first[:strings.IndexByte(first, '\n')]], the whole string if there is none. *)
Fixpoint firstLine (s : string) : string :=
  match s with
  | EmptyString => ""
  | String c s' => if bool_decide (c = Ascii.ascii_of_nat 10) then "" else String c (firstLine s')
  end.

(** The UTF-8 encodings of the runes [unicode.IsSpace] accepts. *)
Definition bytesOf (ns : list nat) : string :=
  foldr (λ n s, String (Ascii.ascii_of_nat n) s) "" ns.

Definition asciiSpaces : list string := (λ n, bytesOf [n]) <$> [9; 10; 11; 12; 13; 32]%nat.

Definition wideSpaces : list string :=
  bytesOf <$>
    ([[194; 133]; [194; 160]; [225; 154; 128]] ++
     ((λ n, [226; 128; n]) <$> [128; 129; 130; 131; 132; 133; 134; 135; 136; 137; 138; 168; 169; 175]) ++
     [[226; 129; 159]; [227; 128; 128]])%nat.

(** The space rune at the front of a string, as its length in bytes. *)
Definition leadingSpace (s : string) : nat :=
  match list_find (λ p, String.prefix p s = true) (asciiSpaces ++ wideSpaces) with
  | Some (_, p) => String.length p
  | None => 0
  end.

(** [strings.TrimSpace] on the left; what it removes on the right cannot
    change a match anchored at the front that ends at a word boundary. *)
Fixpoint trimLeft (fuel : nat) (s : string) : string :=
  match fuel with
  | O => s
  | S fuel =>
      match leadingSpace s with
      | O => s
      | n => trimLeft fuel (String.substring n (String.length s) s)
      end
  end.

(** ** enhancedOf *)

Definition isDigit (c : Ascii.ascii) : bool :=
  let n := Ascii.nat_of_ascii c in (48 <=? n)%nat && (n <=? 57)%nat.

(** A word byte of [\b]. *)
Definition isWord (c : Ascii.ascii) : bool :=
  let n := Ascii.nat_of_ascii c in
  isDigit c || ((65 <=? n)%nat && (n <=? 90)%nat) || ((97 <=? n)%nat && (n <=? 122)%nat) || (n =? 95)%nat.

(** The run of digits at the front and what follows. *)
Fixpoint digits (s : string) : string * string :=
  match s with
  | EmptyString => ("", "")
  | String c s' => if isDigit c then let '(d, r) := digits s' in (String c d, r) else ("", s)
  end.

(** [[0-9]{1,3}]: a digit run of length 1 to 3, not followed by a digit. *)
Definition digits13 (s : string) : option (string * string) :=
  let '(d, r) := digits s in
  if (1 <=? String.length d)%nat && (String.length d <=? 3)%nat then Some (d, r) else None.

Definition dot : Ascii.ascii := Ascii.ascii_of_nat 46.

(** [enhancedRE.FindString]: the pattern is anchored, each digit run must end
    at a dot or at a word boundary, so the only match takes the whole runs. *)
Definition enhancedFind (s : string) : string :=
  match s with
  | String c (String p s1) =>
      if contains [Ascii.ascii_of_nat 50; Ascii.ascii_of_nat 52; Ascii.ascii_of_nat 53] c &&
         bool_decide (p = dot) then
        match digits13 s1 with
        | Some (d1, String p2 s2) =>
            if bool_decide (p2 = dot) then
              match digits13 s2 with
              | Some (d2, r) =>
                  if match r with String w _ => isWord w | EmptyString => false end then ""
                  else String c (String dot (d1 +:+ String dot d2))
              | None => ""
              end
            else ""
        | _ => ""
        end
      else ""
  | _ => ""
  end.

Definition enhancedOf (msg : string) : string :=
  let first := firstLine msg in enhancedFind (trimLeft (String.length first) first).

(** ** Rules *)

Record rule := mkRule {
  r_name : string;
  r_codes : list Z;
  r_codeMin : Z;
  r_codeMax : Z;
  r_enhanced : list string;
  r_contains : list string;
  r_class : ErrorClass;
}.

Definition rules : list rule := [
  mkRule "auth.code" [530; 534; 535; 538] 0 0 [] [] ErrorClassAuth;
  mkRule "auth.enhanced" [] 0 0 ["5.7.8"; "5.7.9"; "4.7.8"] [] ErrorClassAuth;
  mkRule "ratelimit.421" [421] 0 0 [] [] ErrorClassRateLimited;
  mkRule "ratelimit.4xx.text" [450; 451; 452] 0 0 []
    ["rate"; "too many"; "too quickly"; "throttl"; "slow down"; "deferred due to"] ErrorClassRateLimited;
  mkRule "ratelimit.enhanced" [] 0 0 ["4.7.0"; "4.7.28"; "4.2.1"] [] ErrorClassRateLimited;
  mkRule "policy.enhanced" [] 0 0 ["5.7."] [] ErrorClassPolicy;
  mkRule "policy.text" [] 500 599 []
    ["spam"; "blocked"; "blacklist"; "blocklist"; "reputation"; "policy"; "abuse"] ErrorClassPolicy;
  mkRule "permanent.5xx" [] 500 599 [] [] ErrorClassPermanent;
  mkRule "transient.4xx" [] 400 499 [] [] ErrorClassTransient].

Definition containsInt (xs : list Z) (v : Z) : bool := contains xs v.
Definition hasAnyPrefix (s : string) (prefixes : list string) : bool :=
  existsb (λ p, String.prefix p s) prefixes.
Definition containsAny (s : string) (subs : list string) : bool :=
  existsb (λ sub, strContains s sub) subs.

Definition ruleMatch (r : rule) (code : Z) (enhanced lowerMsg : string) : bool :=
  if (if 0 <? len (r_codes r) then negb (containsInt (r_codes r) code)
      else (0 <? r_codeMin r) && ((code <? r_codeMin r) || (r_codeMax r <? code)))
  then false
  else if (0 <? len (r_enhanced r)) && (strEq enhanced "" || negb (hasAnyPrefix enhanced (r_enhanced r)))
  then false
  else if (0 <? len (r_contains r)) && negb (containsAny lowerMsg (r_contains r)) then false
  else true.

(** ** Classify *)

(** What the chain of a send error holds. *)
Record sendError := mkSendError {
  se_text : string;
  se_tls : bool;      (** a certificate, record header, authority or host name error *)
  se_timeout : bool;  (** a [net.Error] whose [Timeout] is true *)
  se_closed : bool;   (** [io.EOF], [io.ErrUnexpectedEOF] or [net.ErrClosed] *)
  se_op : bool;       (** a [*net.OpError] *)
  se_reply : option (Z * string);  (** a [*textproto.Error] *)
}.

Record Failure := mkFailure {
  f_Class : ErrorClass;
  f_Code : Z;
  f_Enhanced : string;
  f_Message : string;
  f_Rule : string;
}.

Definition classifyNetwork (err : sendError) : option Failure :=
  if se_tls err then Some (mkFailure ErrorClassAuth 0 "" (se_text err) "auth.tls")
  else if se_timeout err then Some (mkFailure ErrorClassTransient 0 "" (se_text err) "transient.timeout")
  else if se_closed err then Some (mkFailure ErrorClassTransient 0 "" (se_text err) "transient.connection")
  else if se_op err then Some (mkFailure ErrorClassTransient 0 "" (se_text err) "transient.connection")
  else None.

Section classify.
(** [strings.ToLower]; the classes below do not depend on its Unicode tables. *)
Context (ToLower : string → string).

Definition classifyReply (code : Z) (msg : string) : Failure :=
  let enhanced := enhancedOf msg in
  let lower := ToLower msg in
  match list_find (λ r, ruleMatch r code enhanced lower = true) rules with
  | Some (_, r) => mkFailure (r_class r) code enhanced msg (r_name r)
  | None => mkFailure ErrorClassTransient code enhanced msg "transient.default"
  end.

Definition Classify (err : option sendError) : Failure :=
  match err with
  | None => mkFailure ErrorClassNone 0 "" "" ""
  | Some err =>
      match classifyNetwork err with
      | Some f => f
      | None =>
          match se_reply err with
          | None => mkFailure ErrorClassTransient 0 "" (se_text err) "transient.unknown"
          | Some (code, msg) => classifyReply code msg
          end
      end
  end.
End classify.

(** ** Properties of the table *)

(** The status class digit of an enhanced code agrees with the reply code. *)
Definition agrees (digit : Ascii.ascii) (enhanced : string) : Prop :=
  enhanced = "" ∨ ∃ rest, enhanced = String digit rest.

Lemma agrees_prefix d c p e : agrees d e → c ≠ d → String.prefix (String c p) e = false.
Proof.
  intros [->|[r ->]] Hne; [done|]. cbn. by destruct (Ascii.ascii_dec c d).
Qed.

Definition four : Ascii.ascii := Ascii.ascii_of_nat 52.
Definition five : Ascii.ascii := Ascii.ascii_of_nat 53.

(** The first matching rule has a property all rules that can match have. *)
Lemma classifyReply_class lower code msg (P : ErrorClass → Prop) :
  Forall (λ r, ruleMatch r code (enhancedOf msg) (lower msg) = true → P (r_class r)) rules →
  Exists (λ r, ruleMatch r code (enhancedOf msg) (lower msg) = true) rules →
  P (f_Class (classifyReply lower code msg)).
Proof.
  intros Hall Hex. unfold classifyReply.
  destruct (list_find _ rules) as [[i r]|] eqn:Hf.
  - apply list_find_Some in Hf as (Hr%list_elem_of_lookup_2&Hm&_). rewrite Forall_forall in Hall.
    by apply Hall.
  - apply list_find_None in Hf. exfalso. apply Exists_exists in Hex as (r&Hr&Hm).
    rewrite Forall_forall in Hf. by apply (Hf r).
Qed.

Lemma reply_4xx lower code msg :
  400 ≤ code ≤ 499 → agrees four (enhancedOf msg) →
  f_Class (classifyReply lower code msg) ∈ [ErrorClassTransient; ErrorClassRateLimited; ErrorClassAuth].
Proof.
  intros Hc Ha. apply (classifyReply_class lower code msg (λ c, c ∈ _)).
  - unfold rules. repeat (apply Forall_cons; split); try (by apply Forall_nil);
      cbn [r_class]; try (intros _; by apply (bool_decide_unpack _)); intros Hm; exfalso;
      unfold ruleMatch in Hm; cbn [r_codes r_codeMin r_codeMax r_enhanced r_contains] in Hm.
    + cbn in Hm. rewrite (agrees_prefix four five _ _ Ha) in Hm by done. cbn in Hm.
      by destruct (strEq _ _).
    + rewrite (proj2 (Z.ltb_lt code 500)) in Hm by lia. done.
    + rewrite (proj2 (Z.ltb_lt code 500)) in Hm by lia. done.
  - unfold rules. do 8 apply Exists_cons_tl. apply Exists_cons_hd. unfold ruleMatch. cbn.
    rewrite (proj2 (Z.ltb_ge code 400)), (proj2 (Z.ltb_ge 499 code)) by lia. done.
Qed.

Lemma reply_5xx lower code msg :
  500 ≤ code ≤ 599 → agrees five (enhancedOf msg) →
  f_Class (classifyReply lower code msg) ∈ [ErrorClassPermanent; ErrorClassPolicy; ErrorClassAuth].
Proof.
  intros Hc Ha. apply (classifyReply_class lower code msg (λ c, c ∈ _)).
  - unfold rules. repeat (apply Forall_cons; split); try (by apply Forall_nil);
      cbn [r_class]; try (intros _; by apply (bool_decide_unpack _)); intros Hm; exfalso;
      unfold ruleMatch in Hm; cbn [r_codes r_codeMin r_codeMax r_enhanced r_contains] in Hm.
    + unfold containsInt, contains in Hm. rewrite bool_decide_eq_false_2 in Hm; [done|].
      intros ->%list_elem_of_singleton. lia.
    + unfold containsInt, contains in Hm. rewrite bool_decide_eq_false_2 in Hm; [done|].
      rewrite !elem_of_cons, elem_of_nil. lia.
    + cbn in Hm. rewrite !(agrees_prefix five four _ _ Ha) in Hm by done. cbn in Hm.
      by destruct (strEq _ _).
    + rewrite (proj2 (Z.ltb_lt 499 code)) in Hm by lia. by rewrite orb_true_r in Hm.
  - unfold rules. do 7 apply Exists_cons_tl. apply Exists_cons_hd. unfold ruleMatch. cbn.
    rewrite (proj2 (Z.ltb_ge code 500)), (proj2 (Z.ltb_ge 599 code)) by lia. done.
Qed.
