(* ===== verification/Policy.v ===== *)
(** * The retry policy ([internal/sender/policy.go])

    What happens to a delivery after one attempt, from the error class, the
    attempts it has consumed and the tenant's retry policy. *)

From Stdlib Require Import SpecFloat.
From S2P Require Import Prelude Enums Model Classify.

(** ** float64 *)

(** Operations on [float64] round to nearest even, unfused. *)
Definition f64OfZ (z : Z) : float64 := binary_normalize 53 1024 z 0 false.
Definition f64mul (a b : float64) : float64 := SFmul 53 1024 a b.
Definition f64add (a b : float64) : float64 := SFadd 53 1024 a b.
Definition f64sub (a b : float64) : float64 := SFsub 53 1024 a b.

(** [time.Duration(f)]: truncation towards zero; a value outside int64
    converts to the minimum, as on amd64. *)
Definition f64ToInt64 (f : float64) : Z :=
  match f with
  | S754_zero _ => 0
  | S754_finite sgn m e =>
      let abs := if 0 <=? e then Z.pos m * 2 ^ e else Z.pos m / 2 ^ (- e) in
      let v := if sgn then - abs else abs in
      if (minInt64 <=? v) && (v <=? maxInt64) then v else minInt64
  | _ => minInt64
  end.

(** ** Policy *)

Record Decision := mkDecision {
  dec_Status : DeliveryStatus;
  dec_NextAttemptAt : Time;
  dec_IncrementAttempt : bool;
  dec_RecordAttempt : bool;
}.

Record Policy := mkPolicy {
  pol_Retry : RetryPolicy;
  pol_RateLimitCap : Duration;
  pol_AuthRetryAfter : Duration;
  pol_Jitter : float64;
}.

(** 0.2 as a float64 *)
Definition jitter02 : float64 := S754_finite false 7205759403792794 (-55).

Definition DefaultPolicy (retry : RetryPolicy) : Policy :=
  mkPolicy retry (5 * Minute) Minute jitter02.

Definition backoff (p : Policy) (n : Z) : Duration :=
  let b := rp_Backoff (pol_Retry p) in
  if len b =? 0 then Minute
  else
    let i := n - 1 in
    let i := if i <? 0 then 0 else i in
    let i := if len b <=? i then len b - 1 else i in
    default 0 (b !! Z.to_nat i).

(** [r] is the value [p.Rand] (or the default source) returns. *)
Definition jittered (p : Policy) (r : float64) (d : Duration) : Duration :=
  if SFleb (pol_Jitter p) (f64OfZ 0) || (d <=? 0) then d
  else
    let factor := f64add (f64OfZ 1) (f64mul (pol_Jitter p) (f64sub (f64mul (f64OfZ 2) r) (f64OfZ 1))) in
    let out := f64ToInt64 (f64mul (f64OfZ d) factor) in
    if out <? 0 then 0 else out.

Definition Decide (p : Policy) (r : float64) (class : ErrorClass) (attemptCount : Z) (now : Time) : Decision :=
  match class with
  | ErrorClassNone => mkDecision DeliverySent 0 false true
  | ErrorClassTransient | ErrorClassRateLimited =>
      let consumed := int64 (attemptCount + 1) in
      let max := rp_MaxAttempts (pol_Retry p) in
      let max := if max <=? 0 then 1 else max in
      if max <=? consumed then mkDecision DeliveryFailed 0 true true
      else
        let d := backoff p consumed in
        let d := if bool_decide (class = ErrorClassRateLimited) && (0 <? pol_RateLimitCap p) &&
                    (pol_RateLimitCap p <? d)
                 then pol_RateLimitCap p else d in
        mkDecision DeliveryDeferred (addTime now (jittered p r d)) true true
  | ErrorClassPermanent | ErrorClassPolicy => mkDecision DeliveryFailed 0 false true
  | ErrorClassAuth => mkDecision DeliveryQueued (addTime now (pol_AuthRetryAfter p)) false true
  end.

(** ** Properties *)

Lemma jittered_nonneg p r d : 0 ≤ d → 0 ≤ jittered p r d.
Proof.
  intros Hd. unfold jittered. destruct (_ || _); [done|]. cbv zeta.
  destruct (_ <? 0) eqn:E; [lia|]. apply Z.ltb_ge in E. lia.
Qed.

Definition backoffOk (p : Policy) : Prop := Forall (λ d, 0 ≤ d) (rp_Backoff (pol_Retry p)).

Lemma backoff_nonneg p n : backoffOk p → 0 ≤ backoff p n.
Proof.
  intros Hb. unfold backoff. cbv zeta. destruct (_ =? 0); [done|].
  destruct (rp_Backoff (pol_Retry p) !! _) as [d|] eqn:Hd; [|done]. cbn.
  unfold backoffOk in Hb. rewrite Forall_forall in Hb. by eapply Hb, list_elem_of_lookup_2.
Qed.

Definition maxAttempts (p : Policy) : Z :=
  if rp_MaxAttempts (pol_Retry p) <=? 0 then 1 else rp_MaxAttempts (pol_Retry p).

Lemma Decide_retry p r class n now :
  class ∈ [ErrorClassTransient; ErrorClassRateLimited] → 0 ≤ n < maxInt64 →
  let d := Decide p r class n now in
  dec_IncrementAttempt d = true ∧ dec_RecordAttempt d = true ∧
  (if n + 1 <? maxAttempts p
   then dec_Status d = DeliveryDeferred ∧ (backoffOk p → now ≤ dec_NextAttemptAt d)
   else dec_Status d = DeliveryFailed).
Proof.
  intros Hcl Hn. cbv zeta.
  assert (Hi : int64 (n + 1) = n + 1) by (apply int64_small; unfold in_int64, minInt64, maxInt64 in *; lia).
  assert (Hcase : ∀ d', (∃ cap, d' = (if cap && (0 <? pol_RateLimitCap p) && (pol_RateLimitCap p <? backoff p (n + 1))
                                    then pol_RateLimitCap p else backoff p (n + 1))) →
    backoffOk p → now ≤ addTime now (jittered p r d')).
  { intros d' [cap ->] Hb. apply addTime_le, jittered_nonneg. destruct (_ && _) eqn:E; [|by apply backoff_nonneg].
    apply andb_true_iff in E as [[_ E]%andb_true_iff _]. apply Z.ltb_lt in E. lia. }
  rewrite !elem_of_cons, elem_of_nil in Hcl. destruct Hcl as [->|[->|[]]]; unfold Decide; rewrite Hi;
    fold (maxAttempts p); rewrite (Z.leb_antisym (n + 1)); destruct (n + 1 <? maxAttempts p); cbn [negb];
    cbn -[backoff jittered addTime]; (split; [done|]); (split; [done|]); try done; (split; [done|]);
    apply Hcase; [by exists false|by exists true].
Qed.

(** A delivery that meets the given errors, one attempt after the other: the
    attempts it makes before it is terminal. *)
Fixpoint attemptsOf (p : Policy) (n : Z) (errs : list (ErrorClass * float64 * Time)) : list Decision :=
  match errs with
  | [] => []
  | (class, r, now) :: errs' =>
      let d := Decide p r class n now in
      d :: (if Terminal (dec_Status d) then []
            else attemptsOf p (if dec_IncrementAttempt d then int64 (n + 1) else n) errs')
  end.

(** C29 (sender/policy): the retry budget is exact.  A delivery that meets only
    transient or rate-limited errors is attempted MaxAttempts times (once if
    the policy says zero or less), never more: every attempt but the last
    defers it, to a time that is not in the past, and the last one fails it. *)
Theorem retry_budget_exact p errs :
  backoffOk p → maxAttempts p ≤ maxInt64 → maxAttempts p ≤ len errs →
  Forall (λ e, e.1.1 ∈ [ErrorClassTransient; ErrorClassRateLimited]) errs →
  let ds := attemptsOf p 0 errs in
  len ds = maxAttempts p ∧
  (∀ i d, ds !! i = Some d →
     dec_Status d = (if Z.of_nat i + 1 <? maxAttempts p then DeliveryDeferred else DeliveryFailed) ∧
     (dec_Status d = DeliveryDeferred → ∀ e, errs !! i = Some e → e.2 ≤ dec_NextAttemptAt d)).
Proof.
  intros Hb Hmax Hlen Hall.
  assert (Hpos : 1 ≤ maxAttempts p) by (unfold maxAttempts; destruct (_ <=? 0) eqn:E; to_prop; lia).
  assert (Hgen : ∀ errs n, 0 ≤ n < maxAttempts p → maxAttempts p - n ≤ len errs →
    Forall (λ e, e.1.1 ∈ [ErrorClassTransient; ErrorClassRateLimited]) errs →
    len (attemptsOf p n errs) = maxAttempts p - n ∧
    (∀ i d, attemptsOf p n errs !! i = Some d →
       dec_Status d = (if n + Z.of_nat i + 1 <? maxAttempts p then DeliveryDeferred else DeliveryFailed) ∧
       (dec_Status d = DeliveryDeferred → ∀ e, errs !! i = Some e → e.2 ≤ dec_NextAttemptAt d))).
  { clear errs Hlen Hall. induction errs as [|[[class r] now] errs IH]; intros n Hn Hlen Hall.
    { unfold len in Hlen. cbn in Hlen. lia. }
    inversion Hall as [|? ? Hcl Hall']; subst. cbn [fst] in Hcl.
    assert (Hn' : 0 ≤ n < maxInt64) by lia.
    destruct (Decide_retry p r class n now Hcl Hn') as (Hinc&_&Hst).
    assert (Hi : int64 (n + 1) = n + 1) by (apply int64_small; unfold in_int64, minInt64, maxInt64 in *; clear -Hn'; lia).
    cbn [attemptsOf]. cbv zeta. rewrite Hinc, Hi.
    destruct (n + 1 <? maxAttempts p) eqn:E; to_prop.
    - destruct Hst as [Hs Hat]. rewrite Hs. cbn [Terminal].
      destruct (IH (n + 1)) as [H1 H2]; [lia|unfold len in *; cbn [length] in Hlen; lia|done|].
      split; [unfold len in *; cbn [length]; lia|].
      intros [|i] d; cbn; [intros [= <-]|intros Hd].
      + rewrite Z.add_0_r, (proj2 (Z.ltb_lt _ _)) by lia. split; [done|]. intros _ e [= <-]. by apply Hat.
      + destruct (H2 i d Hd) as [H3 H4]. split; [|done]. rewrite H3.
        replace (n + 1 + Z.of_nat i + 1) with (n + Z.pos (Pos.of_succ_nat i) + 1) by lia. done.
    - rewrite Hst. cbn [Terminal]. split; [unfold len; cbn; lia|].
      intros [|i] d; cbn; [intros [= <-]|done].
      rewrite Z.add_0_r, (proj2 (Z.ltb_ge _ _)) by lia. split; [done|]. by rewrite Hst. }
  destruct (Hgen errs 0 ltac:(lia) ltac:(lia) Hall) as [H1 H2]. split; [lia|].
  intros i d Hd. by destruct (H2 i d Hd).
Qed.

(** Only the absence of an error is no error class. *)
Lemma Classify_none lower err : f_Class (Classify lower err) = ErrorClassNone ↔ err = None.
Proof.
  destruct err as [e|]; [|done]. split; [|done]. intros Hc. exfalso. revert Hc.
  unfold Classify. destruct (classifyNetwork e) as [f|] eqn:Hnet.
  - unfold classifyNetwork in Hnet. repeat case_match; by simplify_eq.
  - destruct (se_reply e) as [[code msg]|]; [|done]. unfold classifyReply.
    destruct (list_find _ rules) as [[i r']|] eqn:Hf; [|done].
    apply list_find_Some in Hf as (Hr%list_elem_of_lookup_2&_). cbn. revert Hr. unfold rules.
    rewrite !elem_of_cons, elem_of_nil. intros Hr. by destruct_or! Hr; subst.
Qed.

Lemma Decide_sent p r class n now : dec_Status (Decide p r class n now) = DeliverySent ↔ class = ErrorClassNone.
Proof. unfold Decide. destruct class; try done; by destruct (_ <=? _). Qed.

(** The relay's verdict is honoured.  A send without an
    error is sent, and nothing else is.  A temporary reply (4xx, with an
    enhanced code that agrees or none) never fails a delivery that has
    attempts left; a permanent reply (5xx, with an enhanced code that agrees
    or none) is never retried as a fault of the recipient: it fails, or, when
    the relay rejects our credentials, goes back to the queue without
    consuming an attempt. *)
Theorem smtp_verdict_honoured lower p r n now err :
  0 ≤ n < maxInt64 →
  let d := Decide p r (f_Class (Classify lower err)) n now in
  (dec_Status d = DeliverySent ↔ err = None) ∧
  (∀ e code msg, err = Some e → classifyNetwork e = None → se_reply e = Some (code, msg) →
     (400 ≤ code ≤ 499 → agrees four (enhancedOf msg) → n + 1 < maxAttempts p →
        dec_Status d = DeliveryDeferred ∨ dec_Status d = DeliveryQueued) ∧
     (500 ≤ code ≤ 599 → agrees five (enhancedOf msg) →
        dec_IncrementAttempt d = false ∧ (dec_Status d = DeliveryFailed ∨ dec_Status d = DeliveryQueued))).
Proof.
  intros Hn d. split.
  - subst d. by rewrite Decide_sent, Classify_none.
  - intros e code msg -> Hnet Hrep. assert (Hcl : f_Class (Classify lower (Some e)) = f_Class (classifyReply lower code msg))
      by (unfold Classify; by rewrite Hnet, Hrep).
    subst d. rewrite Hcl. split.
    + intros Hc Ha Hleft. pose proof (reply_4xx lower code msg Hc Ha) as Hin.
      rewrite !elem_of_cons, elem_of_nil in Hin.
      assert (Hret : f_Class (classifyReply lower code msg) ∈ [ErrorClassTransient; ErrorClassRateLimited] →
        dec_Status (Decide p r (f_Class (classifyReply lower code msg)) n now) = DeliveryDeferred).
      { intros Hr. destruct (Decide_retry p r _ n now Hr Hn) as (_&_&H).
        rewrite (proj2 (Z.ltb_lt _ _)) in H by done. apply H. }
      rewrite !elem_of_cons, elem_of_nil in Hret.
      destruct Hin as [H|[H|[H|[]]]]; [left; apply Hret; auto|left; apply Hret; auto|right; by rewrite H].
    + intros Hc Ha. pose proof (reply_5xx lower code msg Hc Ha) as Hin.
      rewrite !elem_of_cons, elem_of_nil in Hin. destruct Hin as [->|[->|[->|[]]]]; cbn; auto.
Qed.

(** ** Concrete runs *)

Definition samplePolicy : Policy := DefaultPolicy (mkRetryPolicy [Minute; 5 * Minute] 3).

Lemma retry_budget_exact_witness :
  len (attemptsOf samplePolicy 0
    [(ErrorClassTransient, f64OfZ 0, Hour); (ErrorClassRateLimited, f64OfZ 0, 2 * Hour);
     (ErrorClassTransient, f64OfZ 0, 3 * Hour); (ErrorClassTransient, f64OfZ 0, 4 * Hour)]) = 3.
Proof.
  apply (retry_budget_exact samplePolicy).
  - repeat (apply Forall_cons; split; [by vm_compute|]). by apply Forall_nil.
  - by vm_compute.
  - by vm_compute.
  - repeat (apply Forall_cons; split; [apply (bool_decide_unpack _); vm_compute; exact I|]). by apply Forall_nil.
Defined.

Lemma smtp_verdict_honoured_witness :
  dec_Status (Decide samplePolicy (f64OfZ 0)
    (f_Class (Classify id (Some (mkSendError "" false false false false (Some (550, "5.1.1 no such user")))))) 0 Hour) =
  DeliveryFailed.
Proof.
  destruct (smtp_verdict_honoured id samplePolicy (f64OfZ 0) 0 Hour
    (Some (mkSendError "" false false false false (Some (550, "5.1.1 no such user")))) ltac:(by vm_compute)) as [_ H].
  destruct (H _ 550 "5.1.1 no such user" eq_refl eq_refl eq_refl) as [_ H5].
  destruct H5 as [_ [H5|H5]]; [lia|right; eexists; vm_compute; reflexivity|exact H5|].
  vm_compute in H5. discriminate.
Defined.
