(* ===== verification/Health.v ===== *)
(** * The transport circuit ([internal/sender/health.go])

    Each sender replica keeps one circuit per transport: consecutive
    authentication, TLS and connect failures take a transport out of rotation,
    a burst of rate-limited replies puts it into cooldown.  The tracker is
    proved to compute a function of the transport's history alone. *)

From S2P Require Import Prelude Enums Model.

(** ** State *)

Record transportHealth := mkTransportHealth {
  th_tenantID : string;
  th_transportID : string;
  th_failures : Z;
  th_status : TransportStatus;
  th_nextProbe : Time;
  th_rateLimits : list Time;
}.

#[global] Instance transportHealth_eta : Eta transportHealth := λ r,
  mkTransportHealth (th_tenantID r) (th_transportID r) (th_failures r) (th_status r)
    (th_nextProbe r) (th_rateLimits r).

Record healthTracker := mkHealthTracker {
  ht_threshold : Z;
  ht_probeEvery : Duration;
  ht_rateLimitThreshold : Z;
  ht_rateLimitWindow : Duration;
  ht_m : gmap string transportHealth;
}.

#[global] Instance healthTracker_eta : Eta healthTracker := λ r,
  mkHealthTracker (ht_threshold r) (ht_probeEvery r) (ht_rateLimitThreshold r)
    (ht_rateLimitWindow r) (ht_m r).

Definition defaultRateLimitThreshold : Z := 3.
Definition defaultRateLimitWindow : Duration := Minute.

Definition newHealthTracker (threshold : Z) (probeEvery : Duration) : healthTracker :=
  mkHealthTracker threshold probeEvery defaultRateLimitThreshold defaultRateLimitWindow ∅.

Definition healthKey (tenantID transportID : string) : string := tenantID +:+ "/" +:+ transportID.

(** ** Operations *)

(** [state]: the entry, created on first use. *)
Definition health_state (tenantID transportID : string) (h : healthTracker) : transportHealth :=
  default (mkTransportHealth tenantID transportID 0 TransportHealthy zeroTime [])
    (ht_m h !! healthKey tenantID transportID).

Definition storeHealth (tenantID transportID : string) (th : transportHealth) (h : healthTracker)
    : healthTracker :=
  h <| ht_m := <[healthKey tenantID transportID := th]> (ht_m h) |>.

Definition health_usable (tenantID transportID : string) (now : Time) (h : healthTracker)
    : bool * healthTracker :=
  let th := health_state tenantID transportID h in
  (negb (bool_decide (th_status th = TransportUnhealthy)) || negb (Before now (th_nextProbe th)),
   storeHealth tenantID transportID th h).

(** [pruneRateLimits]: drops the instants older than the window. *)
Definition pruneRateLimits (ts : list Time) (now : Time) (window : Duration) : list Time :=
  let cutoff := addTime now (- window) in
  filter (λ t, negb (Before t cutoff) = true) ts.

(** The body of [fail] on the entry: the status to persist, if it changed. *)
Definition failEntry (h : healthTracker) (class : ErrorClass) (now : Time) (th : transportHealth)
    : (TransportStatus * bool) * transportHealth :=
  match class with
  | ErrorClassAuth =>
      let th := th <| th_failures := int64 (th_failures th + 1) |> in
      if (th_failures th <? ht_threshold h) || bool_decide (th_status th = TransportUnhealthy)
      then
        let th := if bool_decide (th_status th = TransportUnhealthy)
                  then th <| th_nextProbe := addTime now (ht_probeEvery h) |> else th in
        ((TransportHealthy, false), th)
      else
        ((TransportUnhealthy, true),
         th <| th_status := TransportUnhealthy |> <| th_nextProbe := addTime now (ht_probeEvery h) |>)
  | ErrorClassRateLimited =>
      let th := th <| th_rateLimits := pruneRateLimits (th_rateLimits th) now (ht_rateLimitWindow h) |> in
      let th := th <| th_rateLimits := th_rateLimits th ++ [now] |> in
      if bool_decide (th_status th = TransportHealthy) &&
         (ht_rateLimitThreshold h <=? len (th_rateLimits th))
      then ((TransportCooldown, true), th <| th_status := TransportCooldown |>)
      else ((TransportHealthy, false), th)
  | _ => ((TransportHealthy, false), th)
  end.

Definition health_fail (tenantID transportID : string) (class : ErrorClass) (now : Time)
    (h : healthTracker) : (TransportStatus * bool) * healthTracker :=
  let '(r, th) := failEntry h class now (health_state tenantID transportID h) in
  (r, storeHealth tenantID transportID th h).

(** The body of [success] on the entry. *)
Definition successEntry (h : healthTracker) (now : Time) (th : transportHealth)
    : (TransportStatus * bool) * transportHealth :=
  let th := th <| th_failures := 0 |> in
  match th_status th with
  | TransportHealthy => ((TransportHealthy, false), th)
  | TransportCooldown =>
      let th := th <| th_rateLimits := pruneRateLimits (th_rateLimits th) now (ht_rateLimitWindow h) |> in
      if 0 <? len (th_rateLimits th) then ((TransportHealthy, false), th)
      else ((TransportHealthy, true), th <| th_status := TransportHealthy |>)
  | TransportUnhealthy => ((TransportHealthy, true), th <| th_status := TransportHealthy |>)
  end.

Definition health_success (tenantID transportID : string) (now : Time) (h : healthTracker)
    : (TransportStatus * bool) * healthTracker :=
  let '(r, th) := successEntry h now (health_state tenantID transportID h) in
  (r, storeHealth tenantID transportID th h).

Definition probeDue (now : Time) (th : transportHealth) : bool :=
  bool_decide (th_status th = TransportUnhealthy) && negb (Before now (th_nextProbe th)).

(** [due]: the probe targets, and the tracker with their next probe pushed
    out.  Go walks the map in no particular order. *)
Definition health_due (now : Time) (h : healthTracker) : list (string * string) * healthTracker :=
  ((λ kv, (th_tenantID kv.2, th_transportID kv.2)) <$>
     filter (λ kv, probeDue now kv.2 = true) (map_to_list (ht_m h)),
   h <| ht_m := (λ th, if probeDue now th
                       then th <| th_nextProbe := addTime now (ht_probeEvery h) |> else th) <$> ht_m h |>).


Definition limitScope (tenantID : string) (tr : Transport) : string :=
  if tr_Shared tr then SystemTenantID else tenantID.

(** [transportUsable]: the persisted status, its expiry, then this replica's circuit. *)
Definition transportUsable (tenantID : string) (tr : Transport) (now : Time) (h : healthTracker)
    : bool * healthTracker :=
  if negb (bool_decide (tr_Status tr = TransportHealthy)) && negb (IsZero (tr_StatusUntil tr)) &&
     After now (tr_StatusUntil tr) then (true, h)
  else if bool_decide (tr_Status tr = TransportUnhealthy) then (false, h)
  else health_usable (limitScope tenantID tr) (tr_ID tr) now h.

(** [statusUntil]: how long a persisted status is trusted. *)
Definition statusUntil (probeInterval : Duration) (status : TransportStatus) (now : Time) : Time :=
  if bool_decide (status = TransportHealthy) then zeroTime else addTime now probeInterval.

(** ** The circuit as a function of the history *)

(** What is observed of one transport, newest first. *)
Inductive obs :=
  | OAuth (at_ : Time)
  | ORate (at_ : Time)
  | OOther (at_ : Time)
  | OOk (at_ : Time).

(** Auth failures since the last success. *)
Fixpoint authRun (hist : list obs) : Z :=
  match hist with
  | [] => 0
  | OAuth _ :: hist' => 1 + authRun hist'
  | OOk _ :: _ => 0
  | _ :: hist' => authRun hist'
  end.

(** Rate-limited replies, newest first. *)
Definition rateTimes (hist : list obs) : list Time :=
  omap (λ o, match o with ORate t => Some t | _ => None end) hist.

Definition recent (window : Duration) (now : Time) (ts : list Time) : list Time :=
  filter (λ t, now - window ≤ t) ts.

Fixpoint circuit (threshold burst : Z) (window : Duration) (hist : list obs) : TransportStatus :=
  match hist with
  | [] => TransportHealthy
  | OAuth _ :: hist' =>
      if threshold <=? authRun hist then TransportUnhealthy else circuit threshold burst window hist'
  | ORate now :: hist' =>
      let st := circuit threshold burst window hist' in
      if bool_decide (st = TransportHealthy) && (burst <=? len (recent window now (rateTimes hist)))
      then TransportCooldown else st
  | OOther _ :: hist' => circuit threshold burst window hist'
  | OOk now :: hist' =>
      match circuit threshold burst window hist' with
      | TransportCooldown =>
          if 0 <? len (recent window now (rateTimes hist')) then TransportCooldown else TransportHealthy
      | _ => TransportHealthy
      end
  end.

(** ** Runs of the tracker *)

Inductive hop :=
  | HFail (tenantID transportID : string) (class : ErrorClass) (now : Time)
  | HSuccess (tenantID transportID : string) (now : Time)
  | HUsable (tenantID transportID : string) (now : Time)
  | HDue (now : Time).

Definition hopTime (op : hop) : Time :=
  match op with HFail _ _ _ now | HSuccess _ _ now | HUsable _ _ now | HDue now => now end.

(** A change reported to the caller, which persists it. *)
Definition reported (r : TransportStatus * bool) : option TransportStatus :=
  if r.2 then Some r.1 else None.

Definition runHop (op : hop) (h : healthTracker) : option TransportStatus * healthTracker :=
  match op with
  | HFail t tr class now => let '(r, h') := health_fail t tr class now h in (reported r, h')
  | HSuccess t tr now => let '(r, h') := health_success t tr now h in (reported r, h')
  | HUsable t tr now => (None, (health_usable t tr now h).2)
  | HDue now => (None, (health_due now h).2)
  end.

(** The tracker after a past, newest operation first. *)
Definition runHealth (h : healthTracker) (past : list hop) : healthTracker :=
  foldr (λ op h, (runHop op h).2) h past.

(** What an operation observes of the transport filed under [k]. *)
Definition obsOf (k : string) (op : hop) : option obs :=
  match op with
  | HFail t tr class now =>
      if strEq (healthKey t tr) k
      then Some match class with
                | ErrorClassAuth => OAuth now
                | ErrorClassRateLimited => ORate now
                | _ => OOther now
                end
      else None
  | HSuccess t tr now => if strEq (healthKey t tr) k then Some (OOk now) else None
  | _ => None
  end.

Definition historyOf (k : string) (past : list hop) : list obs := omap (obsOf k) past.

Definition statusOf (k : string) (h : healthTracker) : TransportStatus :=
  default TransportHealthy (th_status <$> ht_m h !! k).

(** ** The tracker refines the circuit *)

(** The part of an entry the circuit depends on. *)
Definition core (th : transportHealth) : Z * TransportStatus * list Time :=
  (th_failures th, th_status th, th_rateLimits th).

Definition coreAt (k : string) (h : healthTracker) : Z * TransportStatus * list Time :=
  default (0, TransportHealthy, []) (core <$> ht_m h !! k).

Lemma core_state t tr h : core (health_state t tr h) = coreAt (healthKey t tr) h.
Proof. unfold health_state, coreAt. by destruct (ht_m h !! healthKey t tr). Qed.

Lemma coreAt_store t tr th h k :
  coreAt k (storeHealth t tr th h) = if strEq (healthKey t tr) k then core th else coreAt k h.
Proof.
  unfold coreAt, storeHealth, strEq. cbn. case_bool_decide as Hk.
  - rewrite Hk, lookup_insert_eq. done.
  - by rewrite lookup_insert_ne.
Qed.

Section circuit.
Context (h0 : healthTracker).
Abbreviation thr := (ht_threshold h0).
Abbreviation win := (ht_rateLimitWindow h0).
Abbreviation circ := (circuit (ht_threshold h0) (ht_rateLimitThreshold h0) (ht_rateLimitWindow h0)).

(** What the entry knows of the history up to [T]. *)
Record knowsHistory (T : Time) (hist : list obs) (c : Z * TransportStatus * list Time) : Prop := {
  kh_failures : c.1.1 = authRun hist;
  kh_status : c.1.2 = circ hist;
  kh_open : c.1.2 = TransportUnhealthy → thr ≤ authRun hist;
  kh_rates : ∃ cut, cut ≤ T - win ∧ c.2 = reverse (filter (λ t, cut ≤ t) (rateTimes hist));
}.

Lemma knowsHistory_later T T' hist c : T ≤ T' → knowsHistory T hist c → knowsHistory T' hist c.
Proof. intros HT [? ? ? (cut&?&?)]. split; [done..|]. exists cut. split; [lia|done]. Qed.

Lemma prune_spec T hist c now :
  knowsHistory T hist c → T ≤ now →
  pruneRateLimits c.2 now win = reverse (recent win now (rateTimes hist)).
Proof.
  intros [_ _ _ (cut&Hcut&->)] HT. unfold pruneRateLimits, recent.
  rewrite filter_reverse. f_equal. rewrite list_filter_filter. apply list_filter_iff.
  intros t. unfold Before, addTime. rewrite negb_true_iff, Z.ltb_ge. lia.
Qed.

Lemma authRun_nonneg hist : 0 ≤ authRun hist ≤ len hist.
Proof. unfold len. induction hist as [|[] hist IH]; cbn [authRun length]; lia. Qed.

Lemma recent_idle T hist c now :
  knowsHistory T hist c → T ≤ now → 
  ∃ cut, cut ≤ now - win ∧ c.2 = reverse (filter (λ t, cut ≤ t) (rateTimes hist)).
Proof. intros [_ _ _ (cut&?&?)] HT. exists cut. split; [lia|done]. Qed.

(** What [fail] and [success] report. *)
Definition change (a b : TransportStatus) : option TransportStatus :=
  if bool_decide (a = b) then None else Some b.

(** The tracker is configured as [h0]. *)
Record sameConfig (h : healthTracker) : Prop := {
  sc_threshold : ht_threshold h = thr;
  sc_burst : ht_rateLimitThreshold h = ht_rateLimitThreshold h0;
  sc_window : ht_rateLimitWindow h = win;
}.

Definition obsClass (class : ErrorClass) (now : Time) : obs :=
  match class with
  | ErrorClassAuth => OAuth now
  | ErrorClassRateLimited => ORate now
  | _ => OOther now
  end.

(** An entry after the history was extended by [o], and what was reported. *)
Definition tracks (now : Time) (o : obs) (hist : list obs)
    (out : (TransportStatus * bool) * transportHealth) : Prop :=
  knowsHistory now (o :: hist) (core out.2) ∧ reported out.1 = change (circ hist) (circ (o :: hist)).

Lemma change_same a : change a a = None.
Proof. unfold change. by rewrite bool_decide_eq_true_2. Qed.

Lemma failEntry_rate h T hist th now :
  sameConfig h → 0 ≤ win → knowsHistory T hist (core th) → T ≤ now →
  tracks now (ORate now) hist (failEntry h ErrorClassRateLimited now th).
Proof.
  intros [_ Hb Hw] Hwin Hk HT. pose proof (prune_spec _ _ _ now Hk HT) as Hpr.
  destruct Hk as [Hf Hs Ho _]. destruct th as [tn ti fl st np rl]. cbn in Hf, Hs, Ho, Hpr.
  assert (Hrec : reverse (recent win now (rateTimes hist)) ++ [now] =
    reverse (recent win now (rateTimes (ORate now :: hist)))).
  { cbn [rateTimes omap list_omap]. unfold recent at 2. rewrite filter_cons_True by lia.
    by rewrite reverse_cons. }
  assert (Hl : len (reverse (recent win now (rateTimes (ORate now :: hist)))) =
    len (recent win now (rateTimes (ORate now :: hist)))) by (unfold len; by rewrite length_reverse).
  unfold tracks, failEntry. cbn -[circuit len addTime]. rewrite Hb, Hw, Hpr, Hrec, Hl, <- Hs.
  cbn [circuit]. rewrite <- Hs.
  destruct (bool_decide (st = TransportHealthy) && _) eqn:E.
  - pose proof E as [Est%bool_decide_eq_true _]%andb_true_iff.
    split; [|by rewrite Est]. split; cbn -[circuit]; [done| |done|].
    + cbn [circuit]. by rewrite <- Hs, E.
    + exists (now - win). split; [lia|done].
  - split; [|by rewrite change_same]. split; cbn -[circuit]; [done| |done|].
    + cbn [circuit]. by rewrite <- Hs, E.
    + exists (now - win). split; [lia|done].
Qed.

Lemma failEntry_auth h T hist th now :
  sameConfig h → knowsHistory T hist (core th) → T ≤ now → len hist < maxInt64 →
  tracks now (OAuth now) hist (failEntry h ErrorClassAuth now th).
Proof.
  intros [Ht _ _] Hk HT Hlen. pose proof (authRun_nonneg hist) as Hn.
  destruct (recent_idle _ _ _ _ Hk HT) as (cut&Hcut&Hrl).
  destruct Hk as [Hf Hs Ho _]. destruct th as [tn ti fl st np rl]. cbn in Hf, Hs, Ho, Hrl.
  assert (Hi : int64 (fl + 1) = 1 + authRun hist).
  { rewrite Hf. rewrite int64_small; [lia|]. unfold in_int64, minInt64, maxInt64 in *. lia. }
  unfold tracks, failEntry. cbn -[circuit int64 addTime]. rewrite Hi, Ht, <- Hs.
  destruct (1 + authRun hist <? thr) eqn:E; cbn -[circuit addTime].
  - assert (Hne : st ≠ TransportUnhealthy) by (intros ->; specialize (Ho eq_refl); to_prop; lia).
    rewrite (bool_decide_eq_false_2 _ Hne).
    assert (Hc : circ (OAuth now :: hist) = st).
    { cbn [circuit authRun]. rewrite (proj2 (Z.leb_gt _ _)) by (to_prop; lia). done. }
    rewrite Hc. split; [|by rewrite change_same].
    split; cbn -[circuit]; [done|by rewrite Hc|done|by exists cut].
  - assert (Hc : circ (OAuth now :: hist) = TransportUnhealthy).
    { cbn [circuit authRun]. by rewrite (proj2 (Z.leb_le _ _)) by (to_prop; lia). }
    rewrite Hc. case_bool_decide as Hst; (split; [|by unfold change; repeat case_bool_decide]);
      split; cbn -[circuit]; [done|by rewrite Hc|intros _; to_prop; lia|by exists cut|
                              done|by rewrite Hc|intros _; to_prop; lia|by exists cut].
Qed.

Lemma failEntry_tracks h T hist th class now :
  sameConfig h → 0 ≤ win → knowsHistory T hist (core th) → T ≤ now → len hist < maxInt64 →
  tracks now (obsClass class now) hist (failEntry h class now th).
Proof.
  intros Hc Hwin Hk HT Hlen. destruct class;
    try (by eapply failEntry_rate); try (by eapply failEntry_auth);
    (destruct (recent_idle _ _ _ _ Hk HT) as (cut&Hcut&Hrl); destruct Hk as [Hf Hs Ho _];
     split; [split; cbn; eauto|cbn; by rewrite change_same]).
Qed.

Lemma successEntry_tracks h T hist th now :
  sameConfig h → knowsHistory T hist (core th) → T ≤ now →
  tracks now (OOk now) hist (successEntry h now th).
Proof.
  intros [_ _ Hw] Hk HT. pose proof (prune_spec _ _ _ now Hk HT) as Hpr.
  destruct (recent_idle _ _ _ _ Hk HT) as (cut&Hcut&Hrl).
  destruct Hk as [Hf Hs Ho _]. destruct th as [tn ti fl st np rl]. cbn in Hf, Hs, Ho, Hrl, Hpr.
  assert (Hl : len (reverse (recent win now (rateTimes hist))) = len (recent win now (rateTimes hist)))
    by (unfold len; by rewrite length_reverse).
  unfold tracks, successEntry. cbn -[circuit len]. cbn [circuit]. rewrite <- Hs. destruct st; cbn -[circuit len].
  - split; [|by rewrite change_same]. split; cbn -[circuit]; [done|cbn; by rewrite <- Hs|done|by exists cut].
  - rewrite Hw, Hpr, Hl. destruct (0 <? _) eqn:E; (split; [|done]);
      (split; cbn -[circuit]; [done|cbn [circuit]; by rewrite <- Hs, E|done|exists (now - win); split; [lia|done]]).
  - split; [|done]. split; cbn -[circuit]; [done|cbn; by rewrite <- Hs|done|by exists cut].
Qed.

(** One operation on the tracker. *)
Lemma runHop_knows op h T k hist :
  sameConfig h → 0 ≤ win → knowsHistory T hist (coreAt k h) → T ≤ hopTime op → len hist < maxInt64 →
  let '(r, h') := runHop op h in
  sameConfig h' ∧
  match obsOf k op with
  | Some o => knowsHistory (hopTime op) (o :: hist) (coreAt k h') ∧ r = change (circ hist) (circ (o :: hist))
  | None => knowsHistory (hopTime op) hist (coreAt k h')
  end.
Proof.
  intros Hc Hwin Hk HT Hlen. destruct op as [t tr class now|t tr now|t tr now|now]; cbn [hopTime runHop obsOf] in *.
  - unfold health_fail. destruct (failEntry _ _ _ _) as [r th] eqn:Hf. split; [by destruct Hc|].
    rewrite coreAt_store. unfold strEq. case_bool_decide as Hkey; [|by eapply knowsHistory_later].
    rewrite <- Hkey, <- core_state in Hk.
    pose proof (failEntry_tracks h T hist _ class now Hc Hwin Hk HT Hlen) as Htr. rewrite Hf in Htr. exact Htr.
  - unfold health_success. destruct (successEntry _ _ _) as [r th] eqn:Hf. split; [by destruct Hc|].
    rewrite coreAt_store. unfold strEq. case_bool_decide as Hkey; [|by eapply knowsHistory_later].
    rewrite <- Hkey, <- core_state in Hk.
    pose proof (successEntry_tracks h T hist _ now Hc Hk HT) as Htr. rewrite Hf in Htr. exact Htr.
  - split; [by destruct Hc|]. cbn. rewrite coreAt_store. unfold strEq. case_bool_decide as Hkey.
    + rewrite core_state, Hkey. by eapply knowsHistory_later.
    + by eapply knowsHistory_later.
  - split; [by destruct Hc|]. eapply knowsHistory_later; [done|]. revert Hk. unfold coreAt. cbn.
    rewrite lookup_fmap. destruct (ht_m h !! k) as [th|]; cbn; [|done]. by destruct (probeDue now th).
Qed.
End circuit.

(** The operations ran in the order of their times. *)
Definition inOrder (past : list hop) : Prop := StronglySorted (λ a b, hopTime b ≤ hopTime a) past.

Lemma runHealth_knows thr probe past T :
  let h0 := newHealthTracker thr probe in
  inOrder past → len past ≤ maxInt64 → Forall (λ op, hopTime op ≤ T) past →
  sameConfig h0 (runHealth h0 past) ∧
  ∀ k, knowsHistory h0 T (historyOf k past) (coreAt k (runHealth h0 past)).
Proof.
  intros h0 Hord. revert T. induction Hord as [|op past Hord IH Hle]; intros T Hlen HT.
  { split; [done|]. intros k. split; cbn; [done..|]. exists (T - ht_rateLimitWindow h0). split; [apply Z.le_refl|done]. }
  inversion HT as [|? ? Hop HT']; subst.
  assert (Hlen' : len past < maxInt64) by (unfold len in *; cbn [length] in Hlen; lia).
  destruct (IH (hopTime op) ltac:(lia) Hle) as [Hc Hk].
  assert (Hh : ∀ k, len (historyOf k past) < maxInt64).
  { intros k. unfold len, historyOf in *. pose proof (length_omap_le (obsOf k) past). lia. }
  cbn [runHealth foldr]. fold (runHealth h0 past). split.
  - pose proof (runHop_knows h0 op _ (hopTime op) "" _ Hc ltac:(done) (Hk "") ltac:(lia) (Hh "")) as Hstep.
    destruct (runHop op _) as [r h']. apply Hstep.
  - intros k. pose proof (runHop_knows h0 op _ (hopTime op) k _ Hc ltac:(done) (Hk k) ltac:(lia) (Hh k)) as Hstep.
    destruct (runHop op _) as [r h']. destruct Hstep as [_ Hstep]. unfold historyOf. cbn [omap list_omap].
    destruct (obsOf k op) as [o|]; [destruct Hstep as [Hstep _]|]; by eapply knowsHistory_later.
Qed.

Lemma statusOf_core k h : statusOf k h = (coreAt k h).1.2.
Proof. unfold statusOf, coreAt. by destruct (ht_m h !! k). Qed.

(** The circuit is open exactly while the run of auth failures is long enough. *)
Lemma circuit_open thr burst win hist :
  1 ≤ thr → circuit thr burst win hist = TransportUnhealthy ↔ thr ≤ authRun hist.
Proof.
  intros Hthr. induction hist as [|[t|t|t|t] hist IH].
  - cbn. split; [done|lia].
  - cbn [circuit]. destruct (thr <=? authRun (OAuth t :: hist)) eqn:E; to_prop; [tauto|].
    rewrite IH. cbn [authRun] in *. lia.
  - cbn [circuit authRun]. rewrite <- IH. destruct (bool_decide _ && _) eqn:E; [|done].
    apply andb_true_iff in E as [E%bool_decide_eq_true _]. rewrite E. done.
  - done.
  - cbn [circuit authRun]. split; [|lia]. by destruct (circuit thr burst win hist); [|case_match|].
Qed.

(** C25 (sender/health): the circuit depends on the transport's history alone.
    After any operations in the order of their times, the status of every
    transport is the one its own failures and successes determine: open
    exactly when the auth failures since its last success reached the
    threshold, in cooldown after a burst of rate-limited replies within the
    window until a success finds the window clear; and the tracker reports a
    status to persist exactly when the status changed, and reports the new
    one. *)
Theorem circuit_refines_history thr probe past op :
  1 ≤ thr → inOrder (op :: past) → len past < maxInt64 →
  let h := runHealth (newHealthTracker thr probe) past in
  let circ := circuit thr defaultRateLimitThreshold defaultRateLimitWindow in
  (∀ k, statusOf k h = circ (historyOf k past)) ∧
  (∀ k, statusOf k h = TransportUnhealthy ↔ thr ≤ authRun (historyOf k past)) ∧
  (∀ k o, obsOf k op = Some o →
     (runHop op h).1 = change (circ (historyOf k past)) (circ (o :: historyOf k past))).
Proof.
  intros Hthr Hord Hlen h circ. inversion Hord as [|? ? Hord' Hle]; subst.
  destruct (runHealth_knows thr probe past (hopTime op) Hord' ltac:(lia) Hle) as [Hc Hk]. fold h in Hc, Hk.
  assert (Hst : ∀ k, statusOf k h = circ (historyOf k past)).
  { intros k. rewrite statusOf_core. apply Hk. }
  split; [done|]. split.
  - intros k. rewrite Hst. by apply circuit_open.
  - intros k o Ho. assert (Hh : len (historyOf k past) < maxInt64).
    { unfold len, historyOf in *. pose proof (length_omap_le (obsOf k) past). lia. }
    pose proof (runHop_knows _ op h _ k _ Hc ltac:(done) (Hk k) ltac:(lia) Hh) as Hstep.
    rewrite Ho in Hstep. destruct (runHop op h) as [r h']. by destruct Hstep as (_&_&Hr).
Qed.

(** ** Probes *)

(** The next probe of [k] is not before [t]. *)
Definition probeNotBefore (k : string) (t : Time) (h : healthTracker) : Prop :=
  ∃ th, ht_m h !! k = Some th ∧ t ≤ th_nextProbe th.

Lemma probeNotBefore_store t k tn tr th h :
  probeNotBefore k t h → (healthKey tn tr = k → t ≤ th_nextProbe th) →
  probeNotBefore k t (storeHealth tn tr th h).
Proof.
  intros (th0&Hth0&Ht) Hth. unfold probeNotBefore, storeHealth. cbn.
  destruct (decide (healthKey tn tr = k)) as [Heq|Hne].
  - exists th. rewrite Heq, lookup_insert_eq. split; [done|by apply Hth].
  - exists th0. by rewrite lookup_insert_ne.
Qed.

Lemma runHop_probe op h k t probe :
  ht_probeEvery h = probe → t ≤ addTime (hopTime op) probe → probeNotBefore k t h →
  probeNotBefore k t (runHop op h).2 ∧ ht_probeEvery (runHop op h).2 = probe.
Proof.
  intros Hp Ht Hk. assert (Hst : ∀ tn tr, healthKey tn tr = k → t ≤ th_nextProbe (health_state tn tr h)).
  { intros tn tr Hkey. destruct Hk as (th&Hth&?). unfold health_state. by rewrite Hkey, Hth. }
  destruct op as [tn tr class now|tn tr now|tn tr now|now]; cbn [runHop hopTime] in *.
  - unfold health_fail. destruct (failEntry _ _ _ _) as [r th] eqn:Hf. cbn. split; [|done].
    apply probeNotBefore_store; [done|]. intros Hkey. specialize (Hst _ _ Hkey). unfold failEntry in Hf.
    rewrite Hp in Hf. repeat case_match; simplify_eq; cbn -[addTime]; done.
  - unfold health_success. destruct (successEntry _ _ _) as [r th] eqn:Hf. cbn. split; [|done].
    apply probeNotBefore_store; [done|]. intros Hkey. specialize (Hst _ _ Hkey). unfold successEntry in Hf.
    repeat case_match; simplify_eq; cbn; done.
  - cbn. split; [|done]. by apply probeNotBefore_store; [|apply Hst].
  - cbn. split; [|done]. destruct Hk as (th&Hth&?). unfold probeNotBefore. cbn -[addTime].
    rewrite lookup_fmap, Hth. cbn -[addTime]. eexists. split; [reflexivity|].
    destruct (probeDue now th); cbn -[addTime]; [by rewrite Hp|done].
Qed.

(** An open circuit is probed at most once per interval.
    After a pass listed a transport as due, whatever failures, successes and
    passes follow, no later pass lists it again before a full probe interval
    has elapsed. *)
Theorem probe_cadence h k th t1 past t2 th' :
  ht_m h !! k = Some th → probeDue t1 th = true → Forall (λ op, t1 ≤ hopTime op) past →
  ht_m (runHealth (health_due t1 h).2 past) !! k = Some th' → probeDue t2 th' = true →
  t1 + ht_probeEvery h ≤ t2.
Proof.
  intros Hth Hdue Hpast Hth' Hdue'.
  assert (Hinv : probeNotBefore k (t1 + ht_probeEvery h) (runHealth (health_due t1 h).2 past) ∧
    ht_probeEvery (runHealth (health_due t1 h).2 past) = ht_probeEvery h).
  { clear Hth'. induction Hpast as [|op past Hop _ IH]; cbn [runHealth foldr].
    - cbn -[addTime]. split; [|done]. unfold probeNotBefore. cbn -[addTime]. rewrite lookup_fmap, Hth.
      cbn -[addTime]. eexists. split; [reflexivity|]. rewrite Hdue. cbn. unfold addTime. lia.
    - destruct IH as [IH Hp]. apply runHop_probe; [done|unfold addTime; lia|done]. }
  destruct Hinv as [(th2&Hth2&Hle) _]. rewrite Hth' in Hth2. injection Hth2 as <-.
  unfold probeDue, Before in Hdue'. to_prop. lia.
Qed.

(** ** Concrete runs *)

Lemma circuit_refines_history_witness :
  (runHop (HFail "t" "relay" ErrorClassAuth 3)
     (runHealth (newHealthTracker 2 Minute)
        [HFail "t" "other" ErrorClassAuth 2; HFail "t" "relay" ErrorClassAuth 1])).1 = Some TransportUnhealthy.
Proof.
  destruct (circuit_refines_history 2 Minute
    [HFail "t" "other" ErrorClassAuth 2; HFail "t" "relay" ErrorClassAuth 1]
    (HFail "t" "relay" ErrorClassAuth 3)) as (_&_&H); [done| |done|].
  - unfold inOrder. repeat constructor; cbn; lia.
  - rewrite (H "t/relay" (OAuth 3)); reflexivity.
Defined.

Definition openTracker : healthTracker :=
  runHealth (newHealthTracker 1 Minute) [HFail "t" "relay" ErrorClassAuth 0].

Lemma probe_cadence_witness : Minute + Minute ≤ 2 * Minute.
Proof.
  apply (probe_cadence openTracker "t/relay"
    (mkTransportHealth "t" "relay" 1 TransportUnhealthy Minute []) Minute
    [HFail "t" "relay" ErrorClassAuth Minute] (2 * Minute)
    (mkTransportHealth "t" "relay" 2 TransportUnhealthy (2 * Minute) []));
    [vm_compute; reflexivity|vm_compute; reflexivity| |vm_compute; reflexivity|vm_compute; reflexivity].
  repeat constructor; cbn; lia.
Defined.
