(* ===== verification/Codec.v ===== *)
(** * Byte encodings of the Go standard library

    What the signed tokens are made of: [binary.AppendUvarint] / [Uvarint],
    [AppendVarint] / [Varint] ([encoding/binary]) and [base64.RawURLEncoding]
    ([encoding/base64]), over byte strings, with their round trips; and the
    decimal numbers of [strconv]. *)

From Stdlib Require Import DecimalString DecimalN.
From S2P Require Import Prelude.

(** ** Bytes *)

Definition byteVal (c : Ascii.ascii) : Z := Z.of_N (Ascii.N_of_ascii c).
Definition toByte (z : Z) : Ascii.ascii := Ascii.ascii_of_N (Z.to_N (z `mod` 256)).

Lemma byteVal_range c : 0 ≤ byteVal c < 256.
Proof. unfold byteVal. pose proof (Ascii.N_ascii_bounded c). lia. Qed.

Lemma toByte_byteVal c : toByte (byteVal c) = c.
Proof.
  unfold toByte. rewrite Z.mod_small by apply byteVal_range. unfold byteVal.
  by rewrite N2Z.id, Ascii.ascii_N_embedding.
Qed.

Lemma byteVal_toByte z : 0 ≤ z < 256 → byteVal (toByte z) = z.
Proof.
  intros Hz. unfold byteVal, toByte. rewrite Z.mod_small by done.
  rewrite Ascii.N_ascii_embedding by lia. lia.
Qed.

(** ** Strings as byte slices *)

Lemma app_empty_str (b : string) : "" +:+ b = b.
Proof. done. Qed.

Lemma app_cons_str c (a b : string) : String c a +:+ b = String c (a +:+ b).
Proof. done. Qed.

Lemma app_assoc_str (a b c : string) : (a +:+ b) +:+ c = a +:+ (b +:+ c).
Proof. induction a as [|x a IH]; [done|]. by rewrite !app_cons_str, IH. Qed.

Lemma app_nil_str (a : string) : a +:+ "" = a.
Proof. induction a as [|x a IH]; [done|]. by rewrite app_cons_str, IH. Qed.

Lemma length_app_str (a b : string) : String.length (a +:+ b) = (String.length a + String.length b)%nat.
Proof. induction a as [|x a IH]; [done|]. rewrite app_cons_str. cbn. by rewrite IH. Qed.

(** [s[n:]] and [s[:n]] *)
Fixpoint strDrop (n : nat) (s : string) : string :=
  match n, s with
  | O, _ => s
  | S n', String _ s' => strDrop n' s'
  | S _, EmptyString => ""
  end.

Fixpoint strTake (n : nat) (s : string) : string :=
  match n, s with
  | S n', String c s' => String c (strTake n' s')
  | _, _ => ""
  end.

Lemma strTake_app (a b : string) : strTake (String.length a) (a +:+ b) = a.
Proof. induction a as [|x a IH]; [by destruct b|]. rewrite app_cons_str. cbn. by rewrite IH. Qed.

Lemma strDrop_app (a b : string) : strDrop (String.length a) (a +:+ b) = b.
Proof. induction a as [|x a IH]; [done|]. by rewrite app_cons_str. Qed.

Lemma strTake_drop n s : strTake n s +:+ strDrop n s = s.
Proof. revert s. induction n as [|n IH]; intros [|c s]; cbn; [done..|]. by rewrite app_cons_str, IH. Qed.

Lemma length_strTake n s : (n ≤ String.length s)%nat → String.length (strTake n s) = n.
Proof. revert s. induction n as [|n IH]; intros [|c s]; cbn; intros; [done..|lia|]. rewrite IH; lia. Qed.

Lemma app_inj_str (a b c d : string) :
  String.length a = String.length c → a +:+ b = c +:+ d → a = c ∧ b = d.
Proof.
  revert c. induction a as [|x a IH]; intros [|y c]; cbn [String.length]; intros Hl He; [done|lia|lia|].
  rewrite !app_cons_str in He.
  injection He as -> He. destruct (IH c ltac:(lia) He) as [-> ->]. done.
Qed.

(** ** Varints *)

Definition MaxVarintLen64 : Z := 10.

(** [AppendUvarint(nil, x)]; ten rounds are enough for 64 bits. *)
Fixpoint putUvarint (fuel : nat) (x : Z) : string :=
  match fuel with
  | O => ""
  | S fuel =>
      if x <? 128 then String (toByte x) ""
      else String (toByte (Z.lor (Z.land x 127) 128)) (putUvarint fuel (Z.shiftr x 7))
  end.

Definition appendUvarint (x : Z) : string := putUvarint 10 x.

Definition uint64 (z : Z) : Z := z `mod` 2 ^ 64.

(** [Uvarint]: the value and the bytes used; zero or less is an error. *)
Fixpoint uvarintLoop (i s x : Z) (buf : string) : Z * Z :=
  match buf with
  | EmptyString => (0, 0)
  | String c buf' =>
      let b := byteVal c in
      if i =? MaxVarintLen64 then (0, - (i + 1))
      else if b <? 128 then
        if (i =? MaxVarintLen64 - 1) && (1 <? b) then (0, - (i + 1))
        else (Z.lor x (uint64 (Z.shiftl b s)), i + 1)
      else uvarintLoop (i + 1) (s + 7) (Z.lor x (uint64 (Z.shiftl (Z.land b 127) s))) buf'
  end.

Definition Uvarint (buf : string) : Z * Z := uvarintLoop 0 0 0 buf.

(** [AppendVarint] and [Varint]: zig-zag over the unsigned form. *)
Definition appendVarint (x : Z) : string :=
  let ux := uint64 (Z.shiftl x 1) in
  appendUvarint (if x <? 0 then 2 ^ 64 - 1 - ux else ux).

Definition Varint (buf : string) : Z * Z :=
  let '(ux, n) := Uvarint buf in
  let x := Z.shiftr ux 1 in
  (if Z.odd ux then - x - 1 else x, n).

(** Disjoint bits add up. *)
Lemma lor_shiftl x v s : 0 ≤ s → 0 ≤ x < 2 ^ s → 0 ≤ v → Z.lor x (Z.shiftl v s) = x + v * 2 ^ s.
Proof.
  intros Hs Hx Hv. assert (Hd : Z.land x (Z.shiftl v s) = 0).
  { apply Z.bits_inj'. intros n Hn. rewrite Z.land_spec, Z.bits_0, Z.shiftl_spec by done.
    destruct (Z.lt_ge_cases n s) as [Hlt|Hge].
    - rewrite (Z.testbit_neg_r v) by lia. apply andb_false_r.
    - destruct (decide (x = 0)) as [->|]; [by rewrite Z.bits_0|].
      rewrite (Z.bits_above_log2 x n); [done|lia|]. apply Z.log2_lt_pow2; [lia|].
      apply Z.lt_le_trans with (2 ^ s); [lia|]. apply Z.pow_le_mono_r; lia. }
  rewrite <- Z.lxor_lor by done. rewrite <- Z.add_nocarry_lxor by done. by rewrite Z.shiftl_mul_pow2.
Qed.

Lemma low7 x : 0 ≤ x → Z.lor (Z.land x 127) 128 = x `mod` 128 + 128 ∧ Z.shiftr x 7 = x / 128.
Proof.
  intros Hx. split; [|by rewrite Z.shiftr_div_pow2].
  change 127 with (Z.ones 7). rewrite Z.land_ones by lia. change (2 ^ 7) with 128.
  change 128 with (Z.shiftl 1 7) at 2. rewrite lor_shiftl; [change (2 ^ 7) with 128; lia|lia| |lia].
  change (2 ^ 7) with 128. apply Z.mod_pos_bound. lia.
Qed.

(** Reading what was appended, from the middle of a number. *)
Lemma uvarintLoop_put fuel i acc x rest :
  0 ≤ i → Z.of_nat fuel + i = MaxVarintLen64 → 0 ≤ x → x * 2 ^ (7 * i) < 2 ^ 64 → 0 ≤ acc < 2 ^ (7 * i) →
  (0 < fuel)%nat →
  uvarintLoop i (7 * i) acc (putUvarint fuel x +:+ rest) =
    (acc + x * 2 ^ (7 * i), i + Z.of_nat (String.length (putUvarint fuel x))).
Proof.
  unfold MaxVarintLen64. revert i acc x. induction fuel as [|fuel IH]; intros i acc x Hi Hf Hx Hb Ha Hpos; [lia|].
  assert (Hpow : 0 < 2 ^ (7 * i)) by (apply Z.pow_pos_nonneg; lia).
  assert (Hw : ∀ v, 0 ≤ v → v ≤ x → uint64 (Z.shiftl v (7 * i)) = Z.shiftl v (7 * i)).
  { intros v Hv Hvx. unfold uint64. rewrite Z.shiftl_mul_pow2 by lia. apply Z.mod_small. nia. }
  cbn [putUvarint]. destruct (x <? 128) eqn:Hlt; to_prop.
  - rewrite app_cons_str; cbn [uvarintLoop]. rewrite byteVal_toByte by lia.
    unfold MaxVarintLen64. rewrite (proj2 (Z.eqb_neq i 10)) by lia. rewrite (proj2 (Z.ltb_lt x 128)) by lia.
    assert (H1 : (i =? 10 - 1) && (1 <? x) = false).
    { destruct (i =? 10 - 1) eqn:E9; [|done]. to_prop. subst i. apply Z.ltb_ge. cbn in Hb. lia. }
    rewrite H1, Hw by lia. rewrite lor_shiftl by lia. done.
  - destruct (low7 x Hx) as [Hl Hr]. rewrite app_cons_str; cbn [uvarintLoop].
    assert (Hmod : 0 ≤ x `mod` 128 < 128) by (apply Z.mod_pos_bound; lia).
    rewrite Hl, byteVal_toByte by lia. unfold MaxVarintLen64.
    assert (Hi9 : i < 9).
    { destruct (Z.lt_ge_cases i 9); [done|]. assert (i = 9) as -> by lia. cbn in Hb. lia. }
    rewrite (proj2 (Z.eqb_neq i 10)) by lia. rewrite (proj2 (Z.ltb_ge (x `mod` 128 + 128) 128)) by lia.
    assert (Hland : Z.land (x `mod` 128 + 128) 127 = x `mod` 128).
    { change 127 with (Z.ones 7). rewrite Z.land_ones by lia. change (2 ^ 7) with 128.
      rewrite <- Z.add_mod_idemp_r by lia. rewrite Z.mod_same, Z.add_0_r, Z.mod_mod by lia. done. }
    rewrite Hland, Hw by (try apply Z.mod_le; lia). rewrite lor_shiftl by lia. rewrite Hr.
    replace (7 * i + 7) with (7 * (i + 1)) by lia.
    assert (Hp' : 2 ^ (7 * (i + 1)) = 128 * 2 ^ (7 * i)).
    { replace (7 * (i + 1)) with (7 + 7 * i) by lia. rewrite Z.pow_add_r by lia. done. }
    pose proof (Z.div_mod x 128 ltac:(lia)) as Hdm.
    rewrite IH; [|lia|lia|apply Z.div_pos; lia|rewrite Hp'; nia|rewrite Hp'; nia|].
    + rewrite Hp'. cbn [String.length]. f_equal; [nia|lia].
    + destruct fuel; [|lia]. exfalso. lia.
Qed.

(** Unsigned varints round-trip, and reading stops where the number ends. *)
Lemma Uvarint_append x rest :
  0 ≤ x < 2 ^ 64 →
  Uvarint (appendUvarint x +:+ rest) = (x, Z.of_nat (String.length (appendUvarint x))).
Proof.
  intros Hx. unfold Uvarint, appendUvarint. pose proof (uvarintLoop_put 10 0 0 x rest) as H.
  rewrite Z.mul_0_r in H. rewrite H by (unfold MaxVarintLen64; lia). f_equal; lia.
Qed.

Lemma length_appendUvarint x : (0 < String.length (appendUvarint x))%nat.
Proof. unfold appendUvarint. cbn [putUvarint]. destruct (x <? 128); cbn; lia. Qed.

Lemma Varint_append x rest :
  - 2 ^ 63 ≤ x < 2 ^ 63 →
  Varint (appendVarint x +:+ rest) = (x, Z.of_nat (String.length (appendVarint x))).
Proof.
  intros Hx. unfold Varint, appendVarint.
  assert (Hu : (if x <? 0 then 2 ^ 64 - 1 - uint64 (Z.shiftl x 1) else uint64 (Z.shiftl x 1)) =
    if x <? 0 then - 2 * x - 1 else 2 * x).
  { unfold uint64. rewrite Z.shiftl_mul_pow2 by lia. change (2 ^ 1) with 2. destruct (x <? 0) eqn:E; to_prop.
    - replace (x * 2) with (x * 2 + 2 ^ 64 + (-1) * 2 ^ 64) by lia. rewrite Z.mod_add, Z.mod_small by lia. lia.
    - rewrite Z.mod_small; lia. }
  rewrite Hu, Uvarint_append by (destruct (x <? 0) eqn:E; to_prop; lia).
  f_equal. rewrite Z.shiftr_div_pow2 by lia. change (2 ^ 1) with 2.
  destruct (x <? 0) eqn:E; to_prop.
  - replace (- 2 * x - 1) with (1 + 2 * (- x - 1)) by lia. rewrite Z.odd_add_mul_2. cbn [Z.odd].
    replace (1 + 2 * (- x - 1)) with (1 + (- x - 1) * 2) by lia. rewrite Z.div_add by lia. change (1 / 2) with 0. lia.
  - replace (2 * x) with (0 + 2 * x) by lia. rewrite Z.odd_add_mul_2. cbn [Z.odd].
    replace (0 + 2 * x) with (x * 2) by lia. by rewrite Z.div_mul by lia.
Qed.

Lemma length_appendVarint x : (0 < String.length (appendVarint x))%nat.
Proof. apply length_appendUvarint. Qed.

(** ** base64.RawURLEncoding *)

Definition encodeURL : string := "ABCDEFGHIJKLMNOPQRSTUVWXYZabcdefghijklmnopqrstuvwxyz0123456789-_".

Definition encodeChar (n : Z) : Ascii.ascii := default (toByte 0) (String.get (Z.to_nat n) encodeURL).

Fixpoint indexFrom (i : Z) (s : string) (c : Ascii.ascii) : option Z :=
  match s with
  | EmptyString => None
  | String c' s' => if Ascii.eqb c' c then Some i else indexFrom (i + 1) s' c
  end.

Definition decodeChar (c : Ascii.ascii) : option Z := indexFrom 0 encodeURL c.

(** Three bytes to four characters; the last one or two bytes to two or three. *)
Fixpoint base64Encode (s : string) : string :=
  match s with
  | EmptyString => ""
  | String a EmptyString =>
      let v := byteVal a * 65536 in
      String (encodeChar (v / 262144)) (String (encodeChar ((v / 4096) `mod` 64)) "")
  | String a (String b EmptyString) =>
      let v := byteVal a * 65536 + byteVal b * 256 in
      String (encodeChar (v / 262144)) (String (encodeChar ((v / 4096) `mod` 64))
        (String (encodeChar ((v / 64) `mod` 64)) ""))
  | String a (String b (String c s')) =>
      let v := byteVal a * 65536 + byteVal b * 256 + byteVal c in
      String (encodeChar (v / 262144)) (String (encodeChar ((v / 4096) `mod` 64))
        (String (encodeChar ((v / 64) `mod` 64)) (String (encodeChar (v `mod` 64)) (base64Encode s'))))
  end.

(** The quanta of decoded sextets; a single one left over is corrupt.  The
    unused low bits of the last sextet are not checked. *)
Fixpoint decodeQuanta (l : list Z) : option string :=
  match l with
  | [] => Some ""
  | [_] => None
  | [a; b] => let v := a * 262144 + b * 4096 in Some (String (toByte (v / 65536)) "")
  | [a; b; c] =>
      let v := a * 262144 + b * 4096 + c * 64 in
      Some (String (toByte (v / 65536)) (String (toByte (v / 256)) ""))
  | a :: b :: c :: d :: l' =>
      let v := a * 262144 + b * 4096 + c * 64 + d in
      match decodeQuanta l' with
      | Some s => Some (String (toByte (v / 65536)) (String (toByte (v / 256)) (String (toByte v) s)))
      | None => None
      end
  end.

(** The decoder skips line breaks and refuses every other foreign character. *)
Definition newline (c : Ascii.ascii) : bool := (byteVal c =? 10) || (byteVal c =? 13).

Definition base64Decode (s : string) : option string :=
  match mapM decodeChar (filter (λ c, newline c = false) (String.list_ascii_of_string s)) with
  | Some l => decodeQuanta l
  | None => None
  end.

(** ** The round trip *)

Definition sextets : list Z := seqZ 0 64.

Lemma sextet_ok n :
  0 ≤ n < 64 → decodeChar (encodeChar n) = Some n ∧ newline (encodeChar n) = false ∧ encodeChar n ≠ toByte 46.
Proof.
  intros Hn. assert (Hall : Forall (λ n, bool_decide (decodeChar (encodeChar n) = Some n) &&
    negb (newline (encodeChar n)) && negb (Ascii.eqb (encodeChar n) (toByte 46)) = true) sextets).
  { apply (bool_decide_unpack _). vm_compute. exact I. }
  rewrite Forall_forall in Hall. specialize (Hall n). unfold sextets in Hall. rewrite elem_of_seqZ in Hall.
  specialize (Hall ltac:(lia)). apply andb_true_iff in Hall as [[H1 H2]%andb_true_iff H3].
  split_and!; [by apply bool_decide_eq_true in H1|by apply negb_true_iff|].
  intros He. rewrite He, Ascii.eqb_refl in H3. done.
Qed.

(** The sextets of a character string. *)
Definition sextetsOf (s : string) : option (list Z) :=
  mapM decodeChar (filter (λ c, newline c = false) (String.list_ascii_of_string s)).

Lemma sextetsOf_cons n s :
  0 ≤ n < 64 → sextetsOf (String (encodeChar n) s) = (n ::.) <$> sextetsOf s.
Proof.
  intros Hn. destruct (sextet_ok n Hn) as (Hd&Hl&_). unfold sextetsOf.
  change (String.list_ascii_of_string (String ?c s)) with (c :: String.list_ascii_of_string s).
  rewrite filter_cons_True by done. cbn [mapM]. rewrite Hd. by destruct (mapM decodeChar _).
Qed.

(** Recombining what was split. *)
Lemma split24 v : 0 ≤ v < 16777216 →
  v / 262144 * 262144 + (v / 4096) `mod` 64 * 4096 + (v / 64) `mod` 64 * 64 + v `mod` 64 = v ∧
  0 ≤ v / 262144 < 64 ∧ 0 ≤ (v / 4096) `mod` 64 < 64 ∧ 0 ≤ (v / 64) `mod` 64 < 64 ∧ 0 ≤ v `mod` 64 < 64.
Proof.
  intros Hv.
  assert (H2 : v / 64 / 64 = v / 4096) by (rewrite Z.div_div by lia; done).
  assert (H3 : v / 4096 / 64 = v / 262144) by (rewrite Z.div_div by lia; done).
  pose proof (Z.div_mod v 64 ltac:(lia)) as D1.
  pose proof (Z.div_mod (v / 64) 64 ltac:(lia)) as D2. rewrite H2 in D2.
  pose proof (Z.div_mod (v / 4096) 64 ltac:(lia)) as D3. rewrite H3 in D3.
  pose proof (Z.div_pos v 262144 ltac:(lia) ltac:(lia)) as B0.
  pose proof (Z.div_lt_upper_bound v 262144 64 ltac:(lia) ltac:(lia)) as B1.
  pose proof (Z.mod_pos_bound v 64 ltac:(lia)) as B2.
  pose proof (Z.mod_pos_bound (v / 64) 64 ltac:(lia)) as B3.
  pose proof (Z.mod_pos_bound (v / 4096) 64 ltac:(lia)) as B4.
  clear H2 H3.
  generalize dependent (v / 262144); intros q3; generalize dependent ((v / 4096) `mod` 64); intros r3.
  generalize dependent (v / 4096); intros q2; generalize dependent ((v / 64) `mod` 64); intros r2.
  generalize dependent (v / 64); intros q1; generalize dependent (v `mod` 64); intros r1. intros. lia.
Qed.

Lemma bytes24 a b c : 0 ≤ a < 256 → 0 ≤ b < 256 → 0 ≤ c < 256 →
  let v := a * 65536 + b * 256 + c in
  v / 65536 = a ∧ (v / 256) `mod` 256 = b ∧ v `mod` 256 = c.
Proof.
  intros Ha Hb Hc v. subst v. split_and!.
  - symmetry. apply (Z.div_unique _ _ _ (b * 256 + c)); lia.
  - assert (Hd : (a * 65536 + b * 256 + c) / 256 = a * 256 + b) by (symmetry; apply (Z.div_unique _ _ _ c); lia).
    rewrite Hd. symmetry. apply (Z.mod_unique _ _ a); lia.
  - symmetry. apply (Z.mod_unique _ _ (a * 256 + b)); lia.
Qed.

Lemma toByte_mod z : toByte (z `mod` 256) = toByte z.
Proof. unfold toByte. by rewrite Z.mod_mod. Qed.

Lemma base64_roundtrip s : base64Decode (base64Encode s) = Some s.
Proof.
  unfold base64Decode. fold (sextetsOf (base64Encode s)).
  remember (String.length s) as n eqn:Hn. revert s Hn.
  induction (Nat.lt_wf_0 n) as [n _ IH]. intros s ->.
  destruct s as [|a [|b [|c s]]]; cbn [base64Encode]; [done|..].
  - pose proof (byteVal_range a) as Ra. destruct (split24 (byteVal a * 65536)) as (He&H1&H2&H3&H4); [lia|].
    destruct (bytes24 (byteVal a) 0 0) as (Ha&_&_); [lia..|].
    rewrite !sextetsOf_cons by done. cbn [sextetsOf].
    change (sextetsOf "") with (Some (@nil Z)). cbn [fmap option_fmap option_map decodeQuanta].
    assert (Hv : byteVal a * 65536 / 262144 * 262144 + (byteVal a * 65536 / 4096) `mod` 64 * 4096 = byteVal a * 65536).
    { assert (Hz1 : (byteVal a * 65536) `mod` 64 = 0) by (symmetry; apply (Z.mod_unique _ _ (byteVal a * 1024)); lia).
      assert (Hz2 : (byteVal a * 65536 / 64) `mod` 64 = 0).
      { replace (byteVal a * 65536) with (byteVal a * 1024 * 64) by lia. rewrite Z.div_mul by lia.
        symmetry. apply (Z.mod_unique _ _ (byteVal a * 16)); lia. }
      lia. }
    rewrite Hv. rewrite Z.add_0_r in Ha. replace (0 * 256) with 0 in Ha by lia. rewrite Z.add_0_r in Ha.
    by rewrite Ha, toByte_byteVal.
  - pose proof (byteVal_range a) as Ra. pose proof (byteVal_range b) as Rb.
    set (v := byteVal a * 65536 + byteVal b * 256). destruct (split24 v) as (He&H1&H2&H3&H4); [lia|].
    destruct (bytes24 (byteVal a) (byteVal b) 0) as (Ha&Hb&_); [lia..|]. rewrite Z.add_0_r in Ha, Hb. fold v in Ha, Hb.
    rewrite !sextetsOf_cons by done. change (sextetsOf "") with (Some (@nil Z)).
    cbn [fmap option_fmap option_map decodeQuanta].
    assert (Hv : v / 262144 * 262144 + (v / 4096) `mod` 64 * 4096 + (v / 64) `mod` 64 * 64 = v).
    { assert (Hz1 : v `mod` 64 = 0)
        by (symmetry; apply (Z.mod_unique _ _ (byteVal a * 1024 + byteVal b * 4)); subst v; lia).
      lia. }
    rewrite Hv, Ha, toByte_byteVal, <- (toByte_mod (v / 256)), Hb, toByte_byteVal. done.
  - pose proof (byteVal_range a) as Ra. pose proof (byteVal_range b) as Rb. pose proof (byteVal_range c) as Rc.
    set (v := byteVal a * 65536 + byteVal b * 256 + byteVal c). destruct (split24 v) as (He&H1&H2&H3&H4); [lia|].
    destruct (bytes24 (byteVal a) (byteVal b) (byteVal c)) as (Ha&Hb&Hc); [lia..|]. fold v in Ha, Hb, Hc.
    rewrite !sextetsOf_cons by done.
    specialize (IH (String.length s) ltac:(cbn; lia) s eq_refl).
    destruct (sextetsOf (base64Encode s)) as [l|]; [|done].
    cbn [fmap option_fmap option_map decodeQuanta]. rewrite IH, He, Ha, toByte_byteVal.
    rewrite <- (toByte_mod (v / 256)), Hb, <- (toByte_mod v), Hc, !toByte_byteVal. done.
Qed.

(** ** Ranges of what is read *)

Lemma lor_range a b n : 0 ≤ n → 0 ≤ a < 2 ^ n → 0 ≤ b < 2 ^ n → 0 ≤ Z.lor a b < 2 ^ n.
Proof.
  intros Hn Ha Hb. assert (Hpos : 0 ≤ Z.lor a b) by (apply Z.lor_nonneg; lia). split; [done|].
  assert (Hmod : Z.lor a b `mod` 2 ^ n = Z.lor a b); [|rewrite <- Hmod; apply Z.mod_pos_bound; lia].
  rewrite <- !Z.land_ones by done. rewrite Z.land_lor_distr_l, !Z.land_ones by done.
  by rewrite !Z.mod_small.
Qed.

Lemma uint64_range z : 0 ≤ uint64 z < 2 ^ 64.
Proof. apply Z.mod_pos_bound. lia. Qed.

Lemma uvarintLoop_range i s x buf : 0 ≤ x < 2 ^ 64 → 0 ≤ (uvarintLoop i s x buf).1 < 2 ^ 64.
Proof.
  revert i s x. induction buf as [|c buf IH]; intros i s x Hx; cbn [uvarintLoop]; [cbn; lia|].
  cbv zeta. destruct (i =? _); [cbn; lia|]. destruct (byteVal c <? 128).
  - destruct (_ && _); cbn [fst]; [lia|]. apply lor_range; [lia|done|apply uint64_range].
  - apply IH, lor_range; [lia|done|apply uint64_range].
Qed.

Lemma Varint_range buf : - 2 ^ 63 ≤ (Varint buf).1 < 2 ^ 63.
Proof.
  unfold Varint. pose proof (uvarintLoop_range 0 0 0 buf ltac:(lia)) as Hr. unfold Uvarint.
  destruct (uvarintLoop 0 0 0 buf) as [ux n]. cbn [fst] in *. rewrite Z.shiftr_div_pow2 by lia.
  change (2 ^ 1) with 2. pose proof (Z.div_mod ux 2 ltac:(lia)). pose proof (Z.mod_pos_bound ux 2 ltac:(lia)).
  destruct (Z.odd ux); lia.
Qed.

(** ** Decimal numbers *)

(** [strconv.Itoa] of a non-negative number *)
Definition decimal (n : N) : string := NilZero.string_of_uint (N.to_uint n).
Definition Itoa (n : nat) : string := decimal (N.of_nat n).

(** [strconv.Itoa] and [strconv.FormatInt] in base 10 *)
Definition itoa (z : Z) : string := if z <? 0 then "-" +:+ decimal (Z.to_N (- z)) else decimal (Z.to_N z).

(** The digits of a number, in range of an [int]. *)
Definition atoiDigits (neg : bool) (s : string) : option Z :=
  match NilZero.uint_of_string s with
  | None => None
  | Some d =>
      let n := Z.of_N (N.of_uint d) in
      if neg then (if 2 ^ 63 <? n then None else Some (- n))
      else (if 2 ^ 63 <=? n then None else Some n)
  end.

(** [strconv.Atoi] *)
Definition Atoi (s : string) : option Z :=
  match s with
  | String c s' =>
      if Ascii.eqb c (toByte 45) then atoiDigits true s'
      else if Ascii.eqb c (toByte 43) then atoiDigits false s'
      else atoiDigits false s
  | EmptyString => None
  end.

(** [Atoi] reads back what [Itoa] writes. *)
Lemma Itoa_Atoi n : Z.of_nat n < 2 ^ 63 → Atoi (Itoa n) = Some (Z.of_nat n).
Proof.
  intros Hn. unfold Itoa, decimal. pose proof (DecimalN.Unsigned.of_to (N.of_nat n)) as Hof.
  assert (Hnil : N.to_uint (N.of_nat n) ≠ Decimal.Nil).
  { destruct (N.of_nat n); [done|]. apply DecimalPos.Unsigned.to_uint_nonnil. }
  pose proof (NilZero.usu _ Hnil) as Hs.
  assert (Hd : atoiDigits false (NilZero.string_of_uint (N.to_uint (N.of_nat n))) = Some (Z.of_nat n)).
  { unfold atoiDigits. rewrite Hs, Hof, nat_N_Z. by rewrite (proj2 (Z.leb_gt _ _)) by lia. }
  destruct (N.to_uint (N.of_nat n)); [done|exact Hd..].
Qed.
