(* ===== verification/Tokens.v ===== *)
(** * Signed tracking tokens and VERP addresses ([internal/tracking])

    Tokens are stateless: the public routes know a token only by its
    signature.  HMAC-SHA256 is the parameter [hmac] (secret, message); the
    theorems are about what the signature covers and what verification
    accepts, whatever the MAC function is. *)

From S2P Require Import Prelude Enums Model MemTable MemData Repos Prog Settings Classify Codec.

(** ** Errors *)

Definition ErrMalformedToken : error := errNamed "tracking: malformed token".
Definition ErrUnknownKID : error := errNamed "tracking: unknown key id".
Definition ErrBadSignature : error := errNamed "tracking: bad signature".
Definition ErrNoKey : error := errNamed "tracking: no usable signing key".

(** ** Payloads *)

(** [Kind uint8] *)
Definition KindOpen : Z := 1.
Definition KindClick : Z := 2.
Definition KindUnsubscribe : Z := 3.

Definition kindValid (k : Z) : bool := (k =? KindOpen) || (k =? KindClick) || (k =? KindUnsubscribe).
Definition embedsDest (k : Z) : bool := k =? KindUnsubscribe.

Record TokenPayload := mkTokenPayload {
  tp_TenantID : string;
  tp_DeliveryID : string;
  tp_Kind : Z;
  tp_LinkNo : Z;
  tp_Dest : string;
}.

#[global] Instance TokenPayload_eta : Eta TokenPayload := λ r,
  mkTokenPayload (tp_TenantID r) (tp_DeliveryID r) (tp_Kind r) (tp_LinkNo r) (tp_Dest r).

Definition macSize : nat := 16.
Definition NUL : string := String (toByte 0) "".
Definition macContext : string := "sendplane/tracking/v1" +:+ NUL.
Definition kidSep : Ascii.ascii := toByte 46.
Definition maxTokenFieldLen : Z := 2 ^ 20.

Definition strLen (s : string) : Z := Z.of_nat (String.length s).

(** ** Encoding *)

Definition appendString (s : string) : string := appendUvarint (strLen s) +:+ s.

Definition takeString (b : string) : error + string * string :=
  let '(n, used) := Uvarint b in
  if (used <=? 0) || (maxTokenFieldLen <? n) then inl ErrMalformedToken
  else if strLen b - used <? n then inl ErrMalformedToken
  else inr (strTake (Z.to_nat n) (strDrop (Z.to_nat used) b), strDrop (Z.to_nat (used + n)) b).

Definition encodeBody (p : TokenPayload) : string :=
  appendString (tp_TenantID p) +:+ (appendString (tp_DeliveryID p) +:+
    (String (toByte (tp_Kind p)) (appendVarint (tp_LinkNo p) +:+
      (if embedsDest (tp_Kind p) then appendString (tp_Dest p) else "")))).

Definition decodeBody (body : string) : error + TokenPayload :=
  match takeString body with
  | inl e => inl e
  | inr (tenant, rest) =>
      match takeString rest with
      | inl e => inl e
      | inr (id, rest) =>
          match rest with
          | EmptyString => inl ErrMalformedToken
          | String k rest =>
              let kind := byteVal k in
              let '(n, used) := Varint rest in
              if used <=? 0 then inl ErrMalformedToken
              else
                let rest := strDrop (Z.to_nat used) rest in
                if negb (kindValid kind) then inl ErrMalformedToken
                else
                  match (if embedsDest kind then takeString rest else inr ("", rest)) with
                  | inl e => inl e
                  | inr (dest, rest) =>
                      if strEq rest "" then inr (mkTokenPayload tenant id kind n dest)
                      else inl ErrMalformedToken
                  end
          end
      end
  end.

(** ** Keys *)

Definition usableKey (k : SigningKey) : bool :=
  negb (strEq (sk_KID k) "") && negb (strEq (sk_Secret k) "").

Definition keyByID (keys : list SigningKey) (kid : string) : option SigningKey :=
  snd <$> list_find (λ k, sk_KID k = kid ∧ sk_Secret k ≠ "") keys.

(** One iteration of [SelectKey]. *)
Definition betterKey (best : option SigningKey) (k : SigningKey) : option SigningKey :=
  if negb (usableKey k) then best
  else
    match best with
    | None => Some k
    | Some b =>
        if After (sk_CreatedAt k) (sk_CreatedAt b) ||
           (sk_CreatedAt k =? sk_CreatedAt b) && strLt (sk_KID b) (sk_KID k)
        then Some k else Some b
    end.

Definition SelectKey (keys : list SigningKey) : option SigningKey := foldl betterKey None keys.

(** [strings.Cut(s, c)] for a one-byte separator. *)
Fixpoint cutByte (c : Ascii.ascii) (s : string) : option (string * string) :=
  match s with
  | EmptyString => None
  | String x s' =>
      if Ascii.eqb x c then Some ("", s')
      else match cutByte c s' with Some (a, b) => Some (String x a, b) | None => None end
  end.

Fixpoint hasByte (c : Ascii.ascii) (s : string) : bool :=
  match s with EmptyString => false | String x s' => Ascii.eqb x c || hasByte c s' end.

Section tokens.
(** HMAC-SHA256 of a message under a secret. *)
Context (hmac : string → string → string).

(** ** Signing *)

(** What the MAC covers. *)
Definition macInput (p : TokenPayload) : string :=
  appendString (tp_TenantID p) +:+ (appendString (tp_DeliveryID p) +:+
    (String (toByte (tp_Kind p)) (appendVarint (tp_LinkNo p) +:+ appendString (tp_Dest p)))).

Definition computeMAC (secret : string) (p : TokenPayload) : string :=
  strTake macSize (hmac secret (macContext +:+ macInput p)).

Definition signToken (kid secret : string) (p : TokenPayload) : error + string :=
  if strEq kid "" || hasByte kidSep kid then inl ErrNoKey
  else if strEq secret "" then inl ErrNoKey
  else if negb (kindValid (tp_Kind p)) then inl ErrNoKey
  else if strEq (tp_DeliveryID p) "" then inl ErrNoKey
  else if strEq (tp_TenantID p) "" then inl ErrNoKey
  else inr (kid +:+ String kidSep (base64Encode (encodeBody p +:+ computeMAC secret p))).

Definition Sign (kid secret : string) (p : TokenPayload) : string :=
  match signToken kid secret p with inr tok => tok | inl _ => "" end.

(** ** Verification *)

(** [body, mac := raw[:len(raw)-macSize], raw[len(raw)-macSize:]], refused when too short. *)
Definition splitMAC (raw : string) : error + string * string :=
  if (String.length raw <=? macSize)%nat then inl ErrMalformedToken
  else
    let n := (String.length raw - macSize)%nat in
    inr (strTake n raw, strDrop n raw).

Definition decodeToken (token : string) : error + string * string * string :=
  match cutByte kidSep token with
  | None => inl ErrMalformedToken
  | Some (kid, rest) =>
      if strEq rest "" then inl ErrMalformedToken
      else
        match base64Decode rest with
        | None => inl ErrMalformedToken
        | Some raw =>
            match splitMAC raw with inl e => inl e | inr (body, mac) => inr (kid, body, mac) end
        end
  end.

Definition VerifyDest (keys : list SigningKey) (token dest : string) : error + TokenPayload :=
  match decodeToken token with
  | inl e => inl e
  | inr (kid, body, mac) =>
      if strEq kid "" then inl ErrMalformedToken
      else
        match decodeBody body with
        | inl e => inl e
        | inr p =>
            if embedsDest (tp_Kind p) && negb (strEq dest "") && negb (strEq dest (tp_Dest p))
            then inl ErrBadSignature
            else
              let p := if embedsDest (tp_Kind p) then p else p <| tp_Dest := dest |> in
              match keyByID keys kid with
              | None => inl ErrUnknownKID
              | Some key => if strEq mac (computeMAC (sk_Secret key) p) then inr p else inl ErrBadSignature
              end
        end
  end.

Definition Verify (keys : list SigningKey) (token : string) : error + TokenPayload :=
  VerifyDest keys token "".

(** [TenantOf]: which tenant's keys to verify against. *)
Definition TenantOf (token : string) : error + string :=
  match decodeToken token with
  | inl e => inl e
  | inr (_, body, _) =>
      match decodeBody body with
      | inl e => inl e
      | inr p => if strEq (tp_TenantID p) "" then inl ErrMalformedToken else inr (tp_TenantID p)
      end
  end.

(** ** VERP *)

Definition VERPPrefix : string := "bounce+".
Definition verpMACHex : nat := 8.
Definition verpContext : string := "sendplane/verp/v1" +:+ NUL.

Definition verpMAC (secret deliveryID : string) : string :=
  strTake verpMACHex (EncodeToString (hmac secret (verpContext +:+ deliveryID))).

Definition VERPAddress (bounceDomain deliveryID secret : string) : string :=
  if strEq bounceDomain "" || strEq deliveryID "" || strEq secret "" then ""
  else VERPPrefix +:+ deliveryID +:+ String (toByte 46) (verpMAC secret deliveryID) +:+ String (toByte 64) bounceDomain.

(** [strings.LastIndex(s, c)] as the parts around it. *)
Fixpoint cutLast (c : Ascii.ascii) (s : string) : option (string * string) :=
  match s with
  | EmptyString => None
  | String x s' =>
      match cutLast c s' with
      | Some (a, b) => Some (String x a, b)
      | None => if Ascii.eqb x c then Some ("", s') else None
      end
  end.

Definition ParseVERP (addr : string) (keys : list SigningKey) : string * bool :=
  let localPart := match cutByte (toByte 64) addr with Some (a, _) => a | None => addr end in
  if negb (String.prefix VERPPrefix localPart) then ("", false)
  else
    match cutLast (toByte 46) (strDrop (String.length VERPPrefix) localPart) with
    | None => ("", false)
    | Some (id, mac) =>
        if strEq id "" || strEq mac "" then ("", false)
        else (id, existsb (λ k, negb (strEq (sk_Secret k) "") && strEq mac (verpMAC (sk_Secret k) id)) keys)
    end.
End tokens.

(** ** Fields *)

Lemma strLen_nonneg s : 0 ≤ strLen s.
Proof. unfold strLen. lia. Qed.

Lemma takeString_append s rest :
  strLen s ≤ maxTokenFieldLen → takeString (appendString s +:+ rest) = inr (s, rest).
Proof.
  intros Hs. unfold takeString, appendString. pose proof (strLen_nonneg s) as Hn.
  rewrite app_assoc_str, Uvarint_append by (unfold maxTokenFieldLen in *; lia).
  pose proof (length_appendUvarint (strLen s)) as Hu.
  rewrite (proj2 (Z.leb_gt _ _)) by lia. rewrite (proj2 (Z.ltb_ge maxTokenFieldLen _)) by done. cbn [orb].
  rewrite (proj2 (Z.ltb_ge _ _)) by (unfold strLen in *; rewrite !length_app_str; lia).
  rewrite Nat2Z.id, strDrop_app. replace (Z.to_nat (strLen s)) with (String.length s) by (unfold strLen; lia).
  rewrite strTake_app. do 2 f_equal.
  replace (Z.to_nat (Z.of_nat (String.length (appendUvarint (strLen s))) + strLen s))
    with (String.length (appendUvarint (strLen s) +:+ s)) by (rewrite length_app_str; unfold strLen; lia).
  by rewrite <- app_assoc_str, strDrop_app.
Qed.

(** A length-prefixed field can be split off in one way only. *)
Lemma appendString_inj a b r r' :
  strLen a < 2 ^ 64 → strLen b < 2 ^ 64 → appendString a +:+ r = appendString b +:+ r' → a = b ∧ r = r'.
Proof.
  intros Ha Hb He. pose proof (strLen_nonneg a). pose proof (strLen_nonneg b).
  unfold appendString in He. rewrite !app_assoc_str in He.
  pose proof (Uvarint_append (strLen a) (a +:+ r) ltac:(lia)) as H1.
  pose proof (Uvarint_append (strLen b) (b +:+ r') ltac:(lia)) as H2.
  rewrite He, H2 in H1. injection H1 as Hl _. rewrite <- Hl in He.
  apply app_inj_str in He as [_ He]; [|done].
  apply app_inj_str in He; [done|]. unfold strLen in Hl. lia.
Qed.

Lemma appendVarint_inj a b r r' :
  in_int64 a → in_int64 b → appendVarint a +:+ r = appendVarint b +:+ r' → a = b ∧ r = r'.
Proof.
  unfold in_int64, minInt64, maxInt64. intros Ha Hb He.
  pose proof (Varint_append a r ltac:(lia)) as H1. pose proof (Varint_append b r' ltac:(lia)) as H2.
  rewrite He, H2 in H1. injection H1 as Hl _. subst b. split; [done|]. by apply app_inj_str in He as [_ He].
Qed.

(** ** Payloads in range *)

(** A payload of a real message: the link number is an int, the kind a byte. *)
Record payloadOk (p : TokenPayload) : Prop := {
  po_tenant : strLen (tp_TenantID p) ≤ maxTokenFieldLen;
  po_delivery : strLen (tp_DeliveryID p) ≤ maxTokenFieldLen;
  po_dest : strLen (tp_Dest p) ≤ maxTokenFieldLen;
  po_link : in_int64 (tp_LinkNo p);
  po_kind : 0 ≤ tp_Kind p < 256;
}.

(** What travels in the token. *)
Definition carried (p : TokenPayload) : TokenPayload :=
  if embedsDest (tp_Kind p) then p else p <| tp_Dest := "" |>.

Lemma carried_dest p : embedsDest (tp_Kind p) = false → (carried p) <| tp_Dest := tp_Dest p |> = p.
Proof. intros He. unfold carried. rewrite He. by destruct p. Qed.

Lemma decodeBody_encodeBody p :
  payloadOk p → kindValid (tp_Kind p) = true → decodeBody (encodeBody p) = inr (carried p).
Proof.
  intros [Ht Hd Hdest Hlink Hk] Hv. unfold decodeBody, encodeBody.
  rewrite !takeString_append by done. rewrite byteVal_toByte by done.
  rewrite Varint_append by (unfold in_int64, minInt64, maxInt64 in *; lia).
  pose proof (length_appendVarint (tp_LinkNo p)) as Hu.
  rewrite (proj2 (Z.leb_gt _ _)) by lia. rewrite Hv, Nat2Z.id, strDrop_app. cbn [negb]. unfold carried.
  destruct (embedsDest (tp_Kind p)) eqn:He.
  - rewrite <- (app_nil_str (appendString (tp_Dest p))), takeString_append by done. by destruct p.
  - by destruct p.
Qed.

(** ** Tokens *)

Lemma cutByte_app c a b : hasByte c a = false → cutByte c (a +:+ String c b) = Some (a, b).
Proof.
  induction a as [|x a IH]; intros Hh.
  - rewrite app_empty_str. cbn. by rewrite Ascii.eqb_refl.
  - rewrite app_cons_str. cbn in Hh |- *. apply orb_false_iff in Hh as [Hx Hh]. by rewrite Hx, IH.
Qed.

Lemma splitMAC_app body mac :
  String.length mac = macSize → body ≠ "" → splitMAC (body +:+ mac) = inr (body, mac).
Proof.
  intros Hm Hb. unfold splitMAC. rewrite length_app_str, Hm.
  destruct (Nat.leb_spec (String.length body + macSize) macSize) as [Hle|_].
  { destruct body; [done|]. cbn in Hle. lia. }
  replace (String.length body + macSize - macSize)%nat with (String.length body) by lia.
  by rewrite strTake_app, strDrop_app.
Qed.

Lemma encodeBody_nonempty p : encodeBody p ≠ "".
Proof.
  unfold encodeBody, appendString. pose proof (length_appendUvarint (strLen (tp_TenantID p))) as Hu.
  intros He. apply (f_equal String.length) in He. rewrite !length_app_str in He. cbn in He. lia.
Qed.

Lemma length_base64Encode s : s ≠ "" → base64Encode s ≠ "".
Proof. by destruct s as [|a [|b [|c s]]]. Qed.

Section verification.
Context (hmac : string → string → string).
Context (hmac_length : ∀ k m, String.length (hmac k m) = 32%nat).

Lemma length_computeMAC secret p : String.length (computeMAC hmac secret p) = macSize.
Proof. unfold computeMAC. apply length_strTake. rewrite hmac_length. unfold macSize. lia. Qed.

Lemma decodeToken_sign kid secret p :
  kid ≠ "" → hasByte kidSep kid = false →
  decodeToken (kid +:+ String kidSep (base64Encode (encodeBody p +:+ computeMAC hmac secret p))) =
    inr (kid, encodeBody p, computeMAC hmac secret p).
Proof.
  intros Hk Hd. unfold decodeToken. rewrite cutByte_app by done.
  assert (Hne : encodeBody p +:+ computeMAC hmac secret p ≠ "").
  { pose proof (encodeBody_nonempty p). by destruct (encodeBody p). }
  unfold strEq. rewrite bool_decide_eq_false_2 by (by apply length_base64Encode).
  rewrite base64_roundtrip, splitMAC_app; [done|apply length_computeMAC|apply encodeBody_nonempty].
Qed.

Lemma keyByID_unique keys key :
  NoDup (sk_KID <$> keys) → key ∈ keys → sk_Secret key ≠ "" → keyByID keys (sk_KID key) = Some key.
Proof.
  intros Hnd Hin Hs. unfold keyByID.
  destruct (list_find _ keys) as [[i k]|] eqn:Hf; cbn.
  - apply list_find_Some in Hf as (Hi&[Hk _]&_). f_equal.
    apply (NoDup_fmap_inj_on sk_KID keys); [done|by eapply list_elem_of_lookup_2|done|done].
  - apply list_find_None in Hf. rewrite Forall_forall in Hf. exfalso. by apply (Hf key).
Qed.

Lemma foldl_betterKey keys best k :
  foldl betterKey best keys = Some k → (∀ b, best = Some b → usableKey b = true) →
  (best = Some k ∨ k ∈ keys) ∧ usableKey k = true.
Proof.
  revert best. induction keys as [|x keys IH]; intros best; cbn [foldl].
  - intros -> Hb. split; [by left|by apply Hb].
  - intros Hf Hb. destruct (IH _ Hf) as [Hk Hu].
    + intros b. unfold betterKey. destruct (usableKey x) eqn:Hx; cbn [negb]; [|apply Hb].
      destruct best as [b'|]; [destruct (_ || _)|]; intros [= <-]; auto.
    + split; [|done]. destruct Hk as [Hk|Hk]; [|right; by right].
      unfold betterKey in Hk. destruct (usableKey x); cbn [negb] in Hk; [|by left].
      destruct best as [b'|]; [destruct (_ || _)|]; simplify_eq; (by left) || (right; by left).
Qed.

Lemma SelectKey_usable keys k : SelectKey keys = Some k → k ∈ keys ∧ usableKey k = true.
Proof. intros H. apply foldl_betterKey in H as [[?|?] ?]; done. Qed.
End verification.

(** C23 (tracking/tokens): a signed token verifies.  A token signed with the key
    new tokens are signed with is accepted under the tenant's keys and gives
    the signed payload back, the destination included whichever way it
    travelled, and its tenant can be read off to find those keys. *)
Theorem token_roundtrip hmac keys key p dest :
  (∀ k m, String.length (hmac k m) = 32%nat) →
  NoDup (sk_KID <$> keys) → SelectKey keys = Some key → hasByte kidSep (sk_KID key) = false →
  payloadOk p → kindValid (tp_Kind p) = true → tp_TenantID p ≠ "" → tp_DeliveryID p ≠ "" →
  dest = tp_Dest p ∨ embedsDest (tp_Kind p) = true ∧ dest = "" →
  let token := Sign hmac (sk_KID key) (sk_Secret key) p in
  VerifyDest hmac keys token dest = inr p ∧ TenantOf token = inr (tp_TenantID p).
Proof.
  intros Hlen Hnd Hsel Hdot Hok Hv Ht Hd Hdest token.
  apply SelectKey_usable in Hsel as [Hin Hu]. unfold usableKey, strEq in Hu.
  apply andb_true_iff in Hu as [Hkid%negb_true_iff%bool_decide_eq_false Hsec%negb_true_iff%bool_decide_eq_false].
  assert (Htok : decodeToken token = inr (sk_KID key, encodeBody p, computeMAC hmac (sk_Secret key) p)).
  { unfold token, Sign, signToken. unfold strEq.
    rewrite (bool_decide_eq_false_2 _ Hkid), Hdot, (bool_decide_eq_false_2 _ Hsec), Hv,
      (bool_decide_eq_false_2 _ Hd), (bool_decide_eq_false_2 _ Ht). by apply decodeToken_sign. }
  assert (Hbody : decodeBody (encodeBody p) = inr (carried p)) by (by apply decodeBody_encodeBody).
  split.
  - unfold VerifyDest. rewrite Htok, Hbody. unfold strEq at 1. rewrite (bool_decide_eq_false_2 _ Hkid).
    assert (Hkind : tp_Kind (carried p) = tp_Kind p) by (unfold carried; by destruct (embedsDest _)).
    rewrite Hkind, (keyByID_unique keys key Hnd Hin Hsec).
    assert (Hp : (if embedsDest (tp_Kind p) then carried p else (carried p) <| tp_Dest := dest |>) = p).
    { destruct (embedsDest (tp_Kind p)) eqn:He; [unfold carried; by rewrite He|].
      destruct Hdest as [->|[Hc _]]; [by apply carried_dest|done]. }
    rewrite Hp. assert (Hmis : embedsDest (tp_Kind p) && negb (strEq dest "") && negb (strEq dest (tp_Dest (carried p))) = false).
    { unfold carried, strEq. destruct (embedsDest (tp_Kind p)); [|done].
      destruct Hdest as [->|[_ ->]]; [|done].
      rewrite (bool_decide_eq_true_2 (tp_Dest p = tp_Dest p) eq_refl). apply andb_false_r. }
    rewrite Hmis. unfold strEq. by rewrite bool_decide_eq_true_2.
  - unfold TenantOf. rewrite Htok, Hbody.
    assert (Hten : tp_TenantID (carried p) = tp_TenantID p) by (unfold carried; by destruct (embedsDest _)).
    rewrite Hten. unfold strEq. by rewrite bool_decide_eq_false_2.
Qed.

(** ** What verification accepts *)

Lemma takeString_length b s rest : takeString b = inr (s, rest) → strLen s ≤ maxTokenFieldLen.
Proof.
  unfold takeString. destruct (Uvarint b) as [n used] eqn:Hu. pose proof (uvarintLoop_range 0 0 0 b ltac:(lia)) as Hr.
  unfold Uvarint in Hu. rewrite Hu in Hr. cbn in Hr.
  destruct ((used <=? 0) || (maxTokenFieldLen <? n)) eqn:E; [done|]. apply orb_false_iff in E as [_ E].
  destruct (strLen b - used <? n); [done|]. intros [= <- _]. to_prop.
  assert (Hle : ∀ m x, (String.length (strTake m x) ≤ m)%nat).
  { induction m as [|m IH]; intros [|c x]; cbn; [lia..|]. specialize (IH x). lia. }
  specialize (Hle (Z.to_nat n) (strDrop (Z.to_nat used) b)). unfold strLen. lia.
Qed.

Lemma decodeBody_ok body p :
  decodeBody body = inr p → payloadOk p ∧ kindValid (tp_Kind p) = true.
Proof.
  unfold decodeBody. destruct (takeString body) as [e|[tn r1]] eqn:H1; [done|].
  destruct (takeString r1) as [e|[id r2]] eqn:H2; [done|]. destruct r2 as [|k r3]; [done|].
  destruct (Varint r3) as [n used] eqn:Hn. destruct (used <=? 0); [done|].
  destruct (kindValid (byteVal k)) eqn:Hk; [|done]. cbn [negb].
  destruct (if embedsDest (byteVal k) then _ else _) as [e|[dest r4]] eqn:H4; [done|].
  destruct (strEq r4 ""); [|done]. intros [= <-]. split; [|done].
  apply takeString_length in H1, H2. split; cbn; [done|done| | |apply byteVal_range].
  - destruct (embedsDest (byteVal k)); [by eapply takeString_length|]. injection H4 as <- _. done.
  - pose proof (Varint_range r3) as Hr. rewrite Hn in Hr. cbn in Hr. unfold in_int64, minInt64, maxInt64. lia.
Qed.

Lemma macInput_inj p q :
  in_int64 (tp_LinkNo p) → in_int64 (tp_LinkNo q) → 0 ≤ tp_Kind p < 256 → 0 ≤ tp_Kind q < 256 →
  strLen (tp_TenantID p) < 2 ^ 64 → strLen (tp_TenantID q) < 2 ^ 64 →
  strLen (tp_DeliveryID p) < 2 ^ 64 → strLen (tp_DeliveryID q) < 2 ^ 64 →
  strLen (tp_Dest p) < 2 ^ 64 → strLen (tp_Dest q) < 2 ^ 64 →
  macInput p = macInput q → p = q.
Proof.
  destruct p as [t1 d1 k1 l1 e1], q as [t2 d2 k2 l2 e2]. unfold macInput. cbn [tp_TenantID tp_DeliveryID tp_Kind tp_LinkNo tp_Dest].
  intros ? ? Hk1 Hk2 ? ? ? ? ? ? He.
  apply appendString_inj in He as [-> He]; [|done..]. apply appendString_inj in He as [-> He]; [|done..].
  injection He as Hk He. apply appendVarint_inj in He as [-> He]; [|done..].
  rewrite <- (app_nil_str (appendString e1)), <- (app_nil_str (appendString e2)) in He.
  apply appendString_inj in He as [-> _]; [|done..].
  apply (f_equal byteVal) in Hk. rewrite !byteVal_toByte in Hk by done. by subst.
Qed.

(** C24 (tracking/tokens): what a verified token says was signed.  Whatever text
    verification accepts, its signature is the MAC, under the tenant's key of
    the ID it names, of exactly the tenant, delivery, kind, link and
    destination that are returned: the destination a click redirects to is
    part of it, no other payload has the same signed text, and the text of a
    VERP address is never mistaken for it. *)
Theorem signature_binds_payload hmac keys token dest p :
  strLen dest < 2 ^ 64 → VerifyDest hmac keys token dest = inr p →
  (∃ kid body key,
     decodeToken token = inr (kid, body, strTake macSize (hmac (sk_Secret key) (macContext +:+ macInput p))) ∧
     key ∈ keys ∧ sk_KID key = kid ∧ sk_Secret key ≠ "") ∧
  (tp_Dest p = dest ∨ tp_Kind p = KindUnsubscribe ∧ dest = "") ∧
  (∀ q, payloadOk q → macInput q = macInput p → q = p) ∧
  (∀ deliveryID, macContext +:+ macInput p ≠ verpContext +:+ deliveryID).
Proof.
  intros Hdest. unfold VerifyDest. destruct (decodeToken token) as [e|[[kid body] mac]]; [done|].
  destruct (strEq kid ""); [done|]. destruct (decodeBody body) as [e|p0] eqn:Hb; [done|].
  apply decodeBody_ok in Hb as [Hok _].
  destruct (embedsDest (tp_Kind p0) && _ && _) eqn:Hmis; [done|].
  set (p1 := if embedsDest (tp_Kind p0) then p0 else p0 <| tp_Dest := dest |>).
  destruct (keyByID keys kid) as [key|] eqn:Hkey; [|done].
  destruct (strEq mac _) eqn:Hmac; [|done]. intros [= <-]. apply bool_decide_eq_true in Hmac. subst mac.
  assert (Hp1 : in_int64 (tp_LinkNo p1) ∧ 0 ≤ tp_Kind p1 < 256 ∧ strLen (tp_TenantID p1) < 2 ^ 64 ∧
    strLen (tp_DeliveryID p1) < 2 ^ 64 ∧ strLen (tp_Dest p1) < 2 ^ 64 ∧
    (tp_Dest p1 = dest ∨ tp_Kind p1 = KindUnsubscribe ∧ dest = "")).
  { destruct Hok as [H1 H2 H3 H4 H5]. unfold maxTokenFieldLen in *. subst p1. unfold embedsDest, strEq in *.
    destruct (tp_Kind p0 =? KindUnsubscribe) eqn:He; cbn; [|split_and!; try done; try lia; by left].
    apply Z.eqb_eq in He. split_and!; try done; try lia. cbn in Hmis.
    destruct (decide (dest = "")) as [->|Hne]; [by right|left]. rewrite (bool_decide_eq_false_2 (dest = "")) in Hmis by done.
    apply negb_false_iff, bool_decide_eq_true in Hmis. done. }
  destruct Hp1 as (Hl&Hk&Ht&Hd&Hde&Hor). split_and!; [|done| |].
  - exists kid, body, key. unfold keyByID in Hkey. destruct (list_find _ keys) as [[i x]|] eqn:Hf; [|done].
    cbn in Hkey. injection Hkey as ->. apply list_find_Some in Hf as (Hi&[? ?]&_).
    split_and!; [done|by eapply list_elem_of_lookup_2|done|done].
  - intros q [Q1 Q2 Q3 Q4 Q5] He. unfold maxTokenFieldLen in *. apply macInput_inj; try done; lia.
  - intros id He. discriminate He.
Qed.

(** ** VERP *)

Lemma hasByte_app c a b : hasByte c (a +:+ b) = hasByte c a || hasByte c b.
Proof.
  induction a as [|x a IH]; [done|]. rewrite app_cons_str. cbn. rewrite IH. apply orb_assoc.
Qed.

Lemma hasByte_take c n s : hasByte c s = false → hasByte c (strTake n s) = false.
Proof.
  revert s. induction n as [|n IH]; intros [|x s]; cbn; [done..|]. intros [-> Hs]%orb_false_iff. by apply IH.
Qed.

(** Hex digits are neither dots nor at signs. *)
Lemma hexDigit_plain n : (n < 16)%nat →
  Ascii.eqb (hexDigit n) (toByte 46) = false ∧ Ascii.eqb (hexDigit n) (toByte 64) = false.
Proof. intros Hn. do 16 (destruct n as [|n]; [done|]). lia. Qed.

Lemma EncodeToString_plain s :
  hasByte (toByte 46) (EncodeToString s) = false ∧ hasByte (toByte 64) (EncodeToString s) = false ∧
  String.length (EncodeToString s) = (2 * String.length s)%nat.
Proof.
  induction s as [|c s (IH1&IH2&IH3)]; [done|]. cbn [EncodeToString hasByte String.length].
  pose proof (Ascii.nat_ascii_bounded c) as Hc.
  destruct (hexDigit_plain (Ascii.nat_of_ascii c / 16)) as [-> ->]; [apply Nat.Div0.div_lt_upper_bound; lia|].
  destruct (hexDigit_plain (Ascii.nat_of_ascii c mod 16)) as [-> ->]; [apply Nat.mod_upper_bound; lia|].
  rewrite IH1, IH2, IH3. split_and!; [done|done|lia].
Qed.

Lemma cutLast_None c s : hasByte c s = false → cutLast c s = None.
Proof. induction s as [|x s IH]; cbn; [done|]. intros [-> Hs]%orb_false_iff. by rewrite IH. Qed.

Lemma cutLast_app c a b : hasByte c b = false → cutLast c (a +:+ String c b) = Some (a, b).
Proof.
  intros Hb. induction a as [|x a IH].
  - rewrite app_empty_str. cbn. rewrite cutLast_None by done. by rewrite Ascii.eqb_refl.
  - rewrite app_cons_str. cbn. by rewrite IH.
Qed.

Lemma cutLast_spec c s a b : cutLast c s = Some (a, b) → s = a +:+ String c b.
Proof.
  revert a. induction s as [|x s IH]; intros a; cbn; [done|].
  destruct (cutLast c s) as [[a' b']|].
  - intros [= <- <-]. rewrite app_cons_str. f_equal. by apply IH.
  - destruct (Ascii.eqb x c) eqn:E; [|done]. intros [= <- <-]. apply Ascii.eqb_eq in E. by subst.
Qed.

Lemma prefix_app a b : String.prefix a (a +:+ b) = true.
Proof.
  induction a as [|x a IH]; [by destruct b|]. rewrite app_cons_str. cbn.
  destruct (Ascii.ascii_dec x x); [done|congruence].
Qed.

Lemma prefix_drop a s : String.prefix a s = true → s = a +:+ strDrop (String.length a) s.
Proof.
  revert s. induction a as [|x a IH]; intros [|y s]; cbn; try done.
  destruct (Ascii.ascii_dec x y) as [->|]; [|done]. intros Hp. rewrite app_cons_str. f_equal. by apply IH.
Qed.

Lemma verpMAC_plain hmac secret id :
  (∀ k m, String.length (hmac k m) = 32%nat) →
  hasByte (toByte 46) (verpMAC hmac secret id) = false ∧ hasByte (toByte 64) (verpMAC hmac secret id) = false ∧
  verpMAC hmac secret id ≠ "".
Proof.
  intros Hlen. unfold verpMAC. destruct (EncodeToString_plain (hmac secret (verpContext +:+ id))) as (H1&H2&H3).
  split_and!; [by apply hasByte_take..|]. intros He. apply (f_equal String.length) in He.
  rewrite length_strTake in He; [done|]. rewrite H3, Hlen. unfold verpMACHex. lia.
Qed.

(** Bounce addresses round-trip and cannot be made up.  The
    envelope sender of a delivery is parsed back to the delivery and verified
    by the key it was made with; and an address that verifies is, up to its
    domain, the address of the delivery it names under one of the tenant's
    keys. *)
Theorem verp_roundtrip hmac keys key bounceDomain id addr :
  (∀ k m, String.length (hmac k m) = 32%nat) → key ∈ keys → sk_Secret key ≠ "" →
  bounceDomain ≠ "" → id ≠ "" → hasByte (toByte 64) id = false →
  ParseVERP hmac (VERPAddress hmac bounceDomain id (sk_Secret key)) keys = (id, true) ∧
  (∀ id', ParseVERP hmac addr keys = (id', true) →
     ∃ k, k ∈ keys ∧ sk_Secret k ≠ "" ∧
       match cutByte (toByte 64) addr with Some (a, _) => a | None => addr end =
       VERPPrefix +:+ id' +:+ String (toByte 46) (verpMAC hmac (sk_Secret k) id')).
Proof.
  intros Hlen Hin Hsec Hdom Hid Hat. split.
  - destruct (verpMAC_plain hmac (sk_Secret key) id Hlen) as (Hm1&Hm2&Hm3).
    unfold VERPAddress, strEq. rewrite !bool_decide_eq_false_2 by done. cbn [orb].
    set (body := id +:+ String (toByte 46) (verpMAC hmac (sk_Secret key) id)).
    assert (Haddr : VERPPrefix +:+ id +:+ String (toByte 46) (verpMAC hmac (sk_Secret key) id) +:+ String (toByte 64) bounceDomain =
      (VERPPrefix +:+ body) +:+ String (toByte 64) bounceDomain).
    { unfold body. by rewrite !app_assoc_str, app_cons_str. }
    rewrite Haddr. unfold ParseVERP. rewrite cutByte_app.
    2: { unfold body. rewrite !hasByte_app. cbn [hasByte]. by rewrite Hat, Hm2. }
    rewrite prefix_app, strDrop_app. cbn [negb]. unfold body. rewrite cutLast_app by done.
    unfold strEq. rewrite !bool_decide_eq_false_2 by done. cbn [orb]. f_equal.
    apply existsb_exists. exists key. split; [by apply list_elem_of_In|].
    rewrite bool_decide_eq_false_2, bool_decide_eq_true_2 by done. done.
  - intros id'. unfold ParseVERP. set (l := match cutByte _ addr with Some (a, _) => a | None => addr end).
    destruct (String.prefix VERPPrefix l) eqn:Hp; [|done]. cbn [negb].
    destruct (cutLast _ _) as [[i mac]|] eqn:Hc; [|done].
    destruct (strEq i "" || strEq mac ""); [done|]. intros [= <- He].
    apply existsb_exists in He as (k&Hk&[Hs Hm]%andb_true_iff).
    apply negb_true_iff, bool_decide_eq_false in Hs. apply bool_decide_eq_true in Hm. subst mac.
    exists k. split_and!; [by apply list_elem_of_In|done|].
    rewrite (prefix_drop _ _ Hp), (cutLast_spec _ _ _ _ Hc). done.
Qed.

(** ** Concrete runs *)

(** A function of HMAC's output length. *)
Definition sampleHMAC (secret msg : string) : string :=
  strTake 32 (secret +:+ EncodeToString msg +:+ Nat.iter 32 (String (toByte 65)) "").

Lemma sampleHMAC_length k m : String.length (sampleHMAC k m) = 32%nat.
Proof.
  unfold sampleHMAC. apply length_strTake. rewrite !length_app_str.
  change (String.length (Nat.iter 32 (String (toByte 65)) "")) with 32%nat. lia.
Qed.

Definition sampleKeys : list SigningKey :=
  [mkSigningKey "k1" "old secret" 1; mkSigningKey "k2" "new secret" 2].

Definition samplePayload : TokenPayload := mkTokenPayload "acme" "d1" KindClick 7 "https://example.com/?a=b".

Lemma samplePayload_ok : payloadOk samplePayload.
Proof. split; by vm_compute. Qed.

Lemma token_roundtrip_witness :
  VerifyDest sampleHMAC sampleKeys (Sign sampleHMAC "k2" "new secret" samplePayload) "https://example.com/?a=b" =
  inr samplePayload.
Proof.
  apply (token_roundtrip sampleHMAC sampleKeys (mkSigningKey "k2" "new secret" 2) samplePayload "https://example.com/?a=b");
    [exact sampleHMAC_length|apply (bool_decide_unpack _); vm_compute; exact I|reflexivity|reflexivity|
     exact samplePayload_ok|reflexivity|discriminate|discriminate|by left].
Defined.

Lemma signature_binds_payload_witness :
  tp_Dest samplePayload = "https://example.com/?a=b" ∨
  tp_Kind samplePayload = KindUnsubscribe ∧ "https://example.com/?a=b" = "".
Proof.
  apply (signature_binds_payload sampleHMAC sampleKeys (Sign sampleHMAC "k2" "new secret" samplePayload)
    "https://example.com/?a=b"); [by vm_compute|vm_compute; reflexivity].
Defined.

Lemma verp_roundtrip_witness :
  ParseVERP sampleHMAC (VERPAddress sampleHMAC "bounces.example.com" "d1" "new secret") sampleKeys = ("d1", true).
Proof.
  apply (verp_roundtrip sampleHMAC sampleKeys (mkSigningKey "k2" "new secret" 2) "bounces.example.com" "d1" "");
    [exact sampleHMAC_length|right; left|discriminate|discriminate|discriminate|reflexivity].
Defined.
