(* ===== verification/LineReader.v ===== *)
(** * Reading a body line by line ([internal/ingest/ingest.go], [lineReader])

    [lineReader.next] reads newline-delimited records through a
    [bufio.Reader], with a byte budget per line.  The reader underneath answers
    each [Read] with what it has ready, so the same body arrives cut in any
    way; [bufio] is modelled as the Go standard library writes it, down to its
    buffer size.  The theorem says which records come out of a body, whatever
    the cuts. *)

From S2P Require Import Prelude Codec.

Abbreviation bytes := (list Ascii.ascii).

(** The line feed and the carriage return *)
Definition LF : Ascii.ascii := toByte 10.
Definition CR : Ascii.ascii := toByte 13.

(** ** [io.Reader]

    [sr_reads] is what successive calls find ready, [sr_err] the error at the
    end of it; [sr_eager] tells whether that error comes with the last bytes
    or in a call of its own, which [io.Reader] leaves open. *)

Inductive ioErr := EOF | ErrBufferFull | ErrNoProgress | ErrRead (e : error).

#[global] Instance ioErr_eq_dec : EqDecision ioErr.
Proof. solve_decision. Defined.

Record source := mkSource { sr_reads : list bytes; sr_err : ioErr; sr_eager : bool }.
#[global] Instance source_eta : Eta source := λ s, mkSource (sr_reads s) (sr_err s) (sr_eager s).

(** [Read(p)] with [len(p) = n] *)
Definition Read (n : Z) (s : source) : bytes * option ioErr * source :=
  match sr_reads s with
  | [] => ([], Some (sr_err s), s)
  | x :: xs =>
      if len x <=? n
      then (x, match xs with [] => if sr_eager s then Some (sr_err s) else None | _ => None end, s <| sr_reads := xs |>)
      else (take (Z.to_nat n) x, None, s <| sr_reads := drop (Z.to_nat n) x :: xs |>)
  end.

(** ** [bufio.Reader]: [br_buf] is the unread part of its buffer. *)

Record bufReader := mkBufReader {
  br_size : Z;
  br_buf : bytes;
  br_err : option ioErr;
  br_rd : source;
}.
#[global] Instance bufReader_eta : Eta bufReader := λ b,
  mkBufReader (br_size b) (br_buf b) (br_err b) (br_rd b).

Definition NewReaderSize (rd : source) (size : Z) : bufReader := mkBufReader size [] None rd.

(** [fill]: read once more, retrying reads of nothing. *)
Definition maxConsecutiveEmptyReads : nat := 100.

Fixpoint fillFrom (tries : nat) (b : bufReader) : bufReader :=
  match tries with
  | O => b <| br_err := Some ErrNoProgress |>
  | S tries =>
      let '(x, err, rd) := Read (br_size b - len (br_buf b)) (br_rd b) in
      let b := b <| br_buf := br_buf b ++ x |> <| br_rd := rd |> in
      match err with
      | Some _ => b <| br_err := err |>
      | None => if 0 <? len x then b else fillFrom tries b
      end
  end.

Definition fill (b : bufReader) : bufReader := fillFrom maxConsecutiveEmptyReads b.

(** The first line of the bytes, without its line feed, and what follows. *)
Fixpoint cutLine (l : bytes) : option (bytes * bytes) :=
  match l with
  | [] => None
  | c :: l' =>
      if Ascii.eqb c LF then Some ([], l')
      else match cutLine l' with Some (a, b) => Some (c :: a, b) | None => None end
  end.

(** [ReadSlice('\n')]: every round adds a byte to the buffer or ends, so a
    buffer's worth of rounds is enough. *)
Fixpoint readSliceLoop (fuel : nat) (b : bufReader) : bytes * option ioErr * bufReader :=
  match cutLine (br_buf b) with
  | Some (line, rest) => (line ++ [LF], None, b <| br_buf := rest |>)
  | None =>
      match br_err b with
      | Some err => (br_buf b, Some err, b <| br_buf := [] |> <| br_err := None |>)
      | None =>
          if br_size b <=? len (br_buf b) then (br_buf b, Some ErrBufferFull, b <| br_buf := [] |>)
          else match fuel with
               | O => ([], Some ErrNoProgress, b)
               | S fuel => readSliceLoop fuel (fill b)
               end
      end
  end.

Definition ReadSlice (b : bufReader) : bytes * option ioErr * bufReader :=
  readSliceLoop (S (Z.to_nat (br_size b))) b.

(** ** [lineReader] *)

Definition readBufferBytes : Z := Z.shiftl 64 10.

Inductive lineErr := LineEOF | ErrLineTooLong | LineIO (e : ioErr).

(** [trimCR] *)
Definition trimCR (b : bytes) : bytes :=
  match last b with
  | Some c => if Ascii.eqb c CR then removelast b else b
  | None => b
  end.

(** [n := len(chunk); if n > 0 && chunk[n-1] == '\n' { n-- }] and
    [chunk[:n]] *)
Definition chunkBody (chunk : bytes) : bytes :=
  match last chunk with
  | Some c => if Ascii.eqb c LF then removelast chunk else chunk
  | None => chunk
  end.

(** The body of [next]'s loop: [buf] is what the line has so far. *)
Fixpoint nextLoop (fuel : nat) (max : Z) (buf : bytes) (tooLong : bool) (br : bufReader)
    : (lineErr + bytes) * bufReader :=
  match fuel with
  | O => (inl (LineIO ErrNoProgress), br)
  | S fuel =>
      let '(chunk, err, br) := ReadSlice br in
      match err with
      | Some (ErrNoProgress | ErrRead _) as e => (inl (LineIO (default EOF e)), br)
      | _ =>
          let body := chunkBody chunk in
          let '(buf, tooLong) :=
            if tooLong then (buf, true)
            else if max <? len buf + len body then ([], true) else (buf ++ body, false) in
          if bool_decide (err = Some ErrBufferFull) then nextLoop fuel max buf tooLong br
          else if bool_decide (err = Some EOF) && (len chunk =? 0) && negb tooLong then (inl LineEOF, br)
          else if tooLong then (inl ErrLineTooLong, br)
          else (inr (trimCR buf), br)
      end
  end.

(** What is left of the stream *)
Definition unread (br : bufReader) : bytes := br_buf br ++ concat (sr_reads (br_rd br)).

(** [next]: a round that does not end consumes a full buffer. *)
Definition next (max : Z) (br : bufReader) : (lineErr + bytes) * bufReader :=
  nextLoop (S (length (unread br))) max [] false br.

(** The records a loop over [next] sees, up to the end of the stream or the
    first I/O error. *)
Fixpoint readLines (fuel : nat) (max : Z) (br : bufReader) : list (lineErr + bytes) * lineErr :=
  match fuel with
  | O => ([], LineIO ErrNoProgress)
  | S fuel =>
      match next max br with
      | (inl ErrLineTooLong, br) => let '(rs, e) := readLines fuel max br in (inl ErrLineTooLong :: rs, e)
      | (inl e, _) => ([], e)
      | (inr l, br) => let '(rs, e) := readLines fuel max br in (inr l :: rs, e)
      end
  end.

(** ** The reference: the lines of a body *)

(** The complete lines, and what follows the last line feed. *)
Fixpoint splitBody (l : bytes) : list bytes * bytes :=
  match l with
  | [] => ([], [])
  | c :: l' =>
      let '(ls, t) := splitBody l' in
      if Ascii.eqb c LF then ([] :: ls, t)
      else match ls with [] => ([], c :: t) | x :: xs => ((c :: x) :: xs, t) end
  end.

(** What a line of the body is to the caller. *)
Definition lineRecord (max : Z) (l : bytes) : lineErr + bytes :=
  if max <? len l then inl ErrLineTooLong else inr (trimCR l).

(** The unterminated last line [next] takes for the end of the stream: it fills
    the buffer a whole number of times, fits the budget, and the stream's end
    does not come with its last byte. *)
Definition tailLost (size max : Z) (eager : bool) (t : bytes) : bool :=
  negb eager && (len t `mod` size =? 0) && (len t <=? max).

Definition bodyRecords (size max : Z) (eager : bool) (body : bytes) : list (lineErr + bytes) :=
  let '(ls, t) := splitBody body in
  (lineRecord max <$> ls) ++ if (len t =? 0) || tailLost size max eager t then [] else [lineRecord max t].

(** ** Lemmas *)

Lemma len_app {A} (a b : list A) : len (a ++ b) = len a + len b.
Proof. unfold len. rewrite length_app. lia. Qed.

Lemma len_nonneg {A} (a : list A) : 0 ≤ len a.
Proof. unfold len. lia. Qed.

Lemma len_nil_inv {A} (a : list A) : len a = 0 → a = [].
Proof. unfold len. destruct a; [done|cbn; lia]. Qed.

Lemma len_pos {A} (a : list A) : a ≠ [] → 0 < len a.
Proof. destruct a; [done|]. unfold len. cbn. lia. Qed.

Lemma cutLine_Some l a b : cutLine l = Some (a, b) → l = a ++ LF :: b ∧ LF ∉ a.
Proof.
  revert a. induction l as [|c l IH]; intros a; cbn [cutLine]; [done|].
  destruct (Ascii.eqb_spec c LF) as [->|Hc].
  - intros [= <- <-]. split; [done|]. apply not_elem_of_nil.
  - destruct (cutLine l) as [[a' b']|]; [|done]. intros [= <- <-]. destruct (IH a' eq_refl) as [-> Ha].
    split; [done|]. apply not_elem_of_cons. by split; [intros <-|].
Qed.

Lemma cutLine_None l : cutLine l = None → LF ∉ l.
Proof.
  induction l as [|c l IH]; cbn [cutLine]; [intros; apply not_elem_of_nil|].
  destruct (Ascii.eqb_spec c LF) as [->|Hc]; [done|].
  destruct (cutLine l) as [[a b]|]; [done|]. intros _. apply not_elem_of_cons. split; [by intros <-|by apply IH].
Qed.

Lemma cutLine_line a b : LF ∉ a → cutLine (a ++ LF :: b) = Some (a, b).
Proof.
  induction a as [|c a IH]; intros Ha; [done|]. apply not_elem_of_cons in Ha as [Hc Ha].
  cbn [cutLine app]. destruct (Ascii.eqb_spec c LF) as [->|_]; [done|]. by rewrite IH.
Qed.

Lemma cutLine_tail a : LF ∉ a → cutLine a = None.
Proof.
  induction a as [|c a IH]; intros Ha; [done|]. apply not_elem_of_cons in Ha as [Hc Ha].
  cbn [cutLine]. destruct (Ascii.eqb_spec c LF) as [->|_]; [done|]. by rewrite IH.
Qed.

Lemma splitBody_tail t : LF ∉ t → splitBody t = ([], t).
Proof.
  induction t as [|c t IH]; intros Ht; [done|]. apply not_elem_of_cons in Ht as [Hc Ht].
  cbn [splitBody]. rewrite IH by done. by destruct (Ascii.eqb_spec c LF) as [->|_].
Qed.

Lemma splitBody_line a b : LF ∉ a → splitBody (a ++ LF :: b) = (a :: (splitBody b).1, (splitBody b).2).
Proof.
  induction a as [|c a IH]; intros Ha; cbn [splitBody app].
  - by destruct (splitBody b) as [ls t].
  - apply not_elem_of_cons in Ha as [Hc Ha]. rewrite IH by done.
    by destruct (Ascii.eqb_spec c LF) as [->|_].
Qed.

Lemma chunkBody_line a : chunkBody (a ++ [LF]) = a.
Proof. unfold chunkBody. rewrite last_snoc. cbn. by rewrite removelast_last. Qed.

Lemma chunkBody_tail a : LF ∉ a → chunkBody a = a.
Proof.
  intros Ha. unfold chunkBody. destruct (last a) as [c|] eqn:Hl; [|done].
  destruct (Ascii.eqb_spec c LF) as [->|_]; [|done]. destruct Ha. by apply last_Some_elem_of.
Qed.

(** ** The buffer *)

(** What holds of a buffer over a stream that ends well and never answers with
    nothing: a remembered end of stream is the stream's, it comes before the
    buffer is full unless it came with the last bytes, and an eager stream's
    end is known as soon as its bytes are. *)
Record bufOk (b : bufReader) : Prop := {
  bo_size : 0 < br_size b;
  bo_len : len (br_buf b) ≤ br_size b;
  bo_reads : Forall (λ x, x ≠ []) (sr_reads (br_rd b));
  bo_eof : sr_err (br_rd b) = EOF;
  bo_err : ∀ e, br_err b = Some e → e = EOF ∧ sr_reads (br_rd b) = [];
  bo_late : sr_eager (br_rd b) = false → br_err b ≠ None → len (br_buf b) < br_size b;
  bo_early : sr_eager (br_rd b) = true → sr_reads (br_rd b) = [] → br_err b = None → br_buf b = [];
}.

Lemma NewReaderSize_ok reads eager size :
  0 < size → Forall (λ x, x ≠ []) reads → bufOk (NewReaderSize (mkSource reads EOF eager) size).
Proof. intros Hs Hr. split; cbn; try done. unfold len. cbn. lia. Qed.

(** The fields of [bufOk] that follow from the case at hand. *)
Ltac buf_field :=
  cbn; rewrite ?len_app; intros; simplify_eq; first [done | lia | by constructor | by auto].

(** One [fill] of a buffer that has room: the stream is the same, and either
    its end is known or the buffer has grown. *)
Lemma fill_ok b :
  bufOk b → br_err b = None → len (br_buf b) < br_size b →
  let b' := fill b in
  bufOk b' ∧ unread b' = unread b ∧ br_size b' = br_size b ∧ sr_eager (br_rd b') = sr_eager (br_rd b) ∧
  (br_err b' ≠ None ∨ len (br_buf b) < len (br_buf b')).
Proof.
  intros [Hsz Hlen Hrd Heof Herr Hlate Hearly] Hne Hroom. destruct b as [size buf err [reads e eager]].
  cbn [br_size br_buf br_err br_rd sr_reads sr_err sr_eager] in *. subst e err. cbv zeta.
  unfold fill. change maxConsecutiveEmptyReads with (S 99). generalize 99%nat as tries. intros tries.
  cbn [fillFrom]. unfold Read. cbn [br_size br_buf br_rd sr_reads sr_err sr_eager].
  destruct reads as [|x xs].
  { unfold unread, upd. cbn. rewrite !app_nil_r. split_and!; [constructor; buf_field|done..|by left]. }
  apply Forall_cons in Hrd as [Hx Hxs]. pose proof (len_pos x Hx) as Hxp.
  destruct (len x <=? size - len buf) eqn:Hfit; to_prop.
  - replace (0 <? len x) with true by (symmetry; by apply Z.ltb_lt).
    destruct xs as [|y ys], eager; unfold unread, upd; cbn; rewrite ?app_nil_r, <- ?app_assoc;
      (split_and!; [constructor; buf_field|try done..]);
      rewrite ?len_app; (by left) || (right; lia).
  - assert (0 < len (take (Z.to_nat (size - len buf)) x) ≤ size - len buf) as Ht.
    { unfold len in *. rewrite length_take. lia. }
    assert (drop (Z.to_nat (size - len buf)) x ≠ []) as Hd.
    { intros Hd%(f_equal len). unfold len in *. rewrite length_drop in Hd. cbn in Hd. lia. }
    replace (0 <? len _) with true by (symmetry; apply Z.ltb_lt; lia). unfold unread, upd. cbn.
    rewrite <- app_assoc, (app_assoc (take _ _)), take_drop.
    split_and!; [constructor; buf_field|done..|].
    right. rewrite (len_app buf). lia.
Qed.

(** [ReadSlice] returns the rest of the line, a full buffer of it, or the rest
    of the stream. *)
Inductive sliceSpec (b : bufReader) : bytes * option ioErr * bufReader → Prop :=
  | slice_line l b' :
      unread b = l ++ LF :: unread b' → LF ∉ l → sliceSpec b (l ++ [LF], None, b')
  | slice_full l b' :
      unread b = l ++ unread b' → LF ∉ l → len l = br_size b →
      (sr_eager (br_rd b) = true → unread b' ≠ []) → sliceSpec b (l, Some ErrBufferFull, b')
  | slice_end b' :
      unread b' = [] → LF ∉ unread b → (sr_eager (br_rd b) = false → len (unread b) < br_size b) →
      sliceSpec b (unread b, Some EOF, b').

(** The same stream. *)
Definition sameStream (b b' : bufReader) : Prop :=
  br_size b' = br_size b ∧ sr_eager (br_rd b') = sr_eager (br_rd b).

Lemma readSliceLoop_eq fuel b :
  readSliceLoop fuel b =
    match cutLine (br_buf b), br_err b with
    | Some (line, rest), _ => (line ++ [LF], None, b <| br_buf := rest |>)
    | None, Some err => (br_buf b, Some err, b <| br_buf := [] |> <| br_err := None |>)
    | None, None =>
        if br_size b <=? len (br_buf b) then (br_buf b, Some ErrBufferFull, b <| br_buf := [] |>)
        else match fuel with
             | O => ([], Some ErrNoProgress, b)
             | S fuel => readSliceLoop fuel (fill b)
             end
    end.
Proof. destruct fuel; cbn [readSliceLoop]; by destruct (cutLine _) as [[]|], (br_err b). Qed.

Lemma readSliceLoop_spec fuel b :
  bufOk b → (br_err b = None → br_size b ≤ len (br_buf b) + Z.of_nat fuel) →
  let r := readSliceLoop fuel b in sliceSpec b r ∧ bufOk r.2 ∧ sameStream b r.2.
Proof.
  revert b. induction fuel as [fuel IH] using lt_wf_ind; intros b Hok Hfuel.
  pose proof Hok as [Hsz Hlen Hrd Heof Herr Hlate Hearly]. cbv zeta. rewrite readSliceLoop_eq.
  destruct (cutLine (br_buf b)) as [[l rest]|] eqn:Hcut.
  { apply cutLine_Some in Hcut as [Hbuf Hl]. split_and!; [|constructor; cbn; try done|done].
    - apply slice_line; [|done]. unfold unread. rewrite Hbuf, <- app_assoc. done.
    - rewrite Hbuf, len_app in Hlen. unfold len in *. cbn in Hlen. lia.
    - intros He Hn. specialize (Hlate He Hn). rewrite Hbuf, len_app in Hlate. unfold len in *. cbn in Hlate. lia.
    - intros He Hr Hn. specialize (Hearly He Hr Hn). rewrite Hbuf in Hearly. by destruct l. }
  apply cutLine_None in Hcut. destruct (br_err b) as [e|] eqn:Hbe.
  { destruct (Herr e eq_refl) as [-> Hreads].
    assert (unread b = br_buf b) as Hun by (unfold unread; rewrite Hreads; cbn; by rewrite app_nil_r).
    split_and!; [|constructor; cbn; try done; unfold len; cbn; lia|done]. rewrite <- Hun. apply slice_end.
    - unfold unread. cbn. by rewrite Hreads.
    - by rewrite Hun.
    - rewrite Hun. intros He. by apply Hlate. }
  destruct (br_size b <=? len (br_buf b)) eqn:Hfull; to_prop.
  { split_and!; [|constructor; cbn; rewrite ?Hbe; try done; intros; unfold len; cbn; lia|done]. apply slice_full; [done|done|lia|].
    intros He Hu. unfold unread in Hu. cbn in Hu. destruct (sr_reads (br_rd b)) as [|x xs] eqn:Hr.
    - specialize (Hearly He eq_refl eq_refl). rewrite Hearly in Hfull. unfold len in Hfull. cbn in Hfull. lia.
    - apply Forall_cons in Hrd as [Hx _]. by destruct x. }
  specialize (Hfuel eq_refl). destruct fuel as [|fuel]; [lia|].
  destruct (fill_ok b Hok Hbe Hfull) as (Hok'&Hun&Hsize&Heag&Hgrow). cbv zeta in *.
  destruct (IH fuel ltac:(lia) (fill b) Hok') as (Hs&Ho&[Hs1 Hs2]).
  { intros Hn. destruct Hgrow as [Hg|Hg]; [done|]. lia. }
  split_and!; [|done|by split; congruence].
  destruct Hs as [l b' Hu Hl|l b' Hu Hl Hn He|b' Hu Hl He]; rewrite ?Hun, ?Hsize, ?Heag in *; by constructor.
Qed.

Lemma ReadSlice_spec b :
  bufOk b → sliceSpec b (ReadSlice b) ∧ bufOk (ReadSlice b).2 ∧ sameStream b (ReadSlice b).2.
Proof. intros Hok. apply readSliceLoop_spec; [done|]. intros _. pose proof (bo_size b Hok). pose proof (len_nonneg (br_buf b)). lia. Qed.

(** ** One record *)

(** The record at the front of the bytes [u], of which [pre] has been read
    already, and the bytes after it. *)
Definition frontRecord (size max : Z) (eager : bool) (pre u : bytes) : lineErr + bytes :=
  match cutLine u with
  | Some (l, _) => lineRecord max (pre ++ l)
  | None =>
      if (len (pre ++ u) =? 0) || tailLost size max eager (pre ++ u) then inl LineEOF
      else lineRecord max (pre ++ u)
  end.

Definition afterRecord (u : bytes) : bytes :=
  match cutLine u with Some (_, rest) => rest | None => [] end.

Lemma cutLine_app l u : LF ∉ l →
  cutLine (l ++ u) = match cutLine u with Some (a, b) => Some (l ++ a, b) | None => None end.
Proof.
  intros Hl. destruct (cutLine u) as [[a b]|] eqn:Hu.
  - apply cutLine_Some in Hu as [-> Ha]. rewrite app_assoc. apply cutLine_line. set_solver.
  - apply cutLine_None in Hu. apply cutLine_tail. set_solver.
Qed.

Lemma frontRecord_app size max eager pre l u :
  LF ∉ l → frontRecord size max eager pre (l ++ u) = frontRecord size max eager (pre ++ l) u.
Proof.
  intros Hl. unfold frontRecord. rewrite cutLine_app by done. rewrite <- app_assoc.
  destruct (cutLine u) as [[a b]|]; [by rewrite app_assoc|done].
Qed.

(** What [next]'s loop knows of the part [pre] of the line it has read. *)
Record readSoFar (max : Z) (b : bufReader) (pre buf : bytes) (tooLong : bool) : Prop := {
  rs_short : tooLong = false → buf = pre ∧ len pre ≤ max;
  rs_long : tooLong = true → max < len pre;
  rs_full : len pre `mod` br_size b = 0;
  rs_more : sr_eager (br_rd b) = true → pre ≠ [] → unread b ≠ [];
}.

Lemma step_budget max (pre buf : bytes) tooLong (body : bytes) :
  (tooLong = false → buf = pre ∧ len pre ≤ max) → (tooLong = true → max < len pre) →
  let r := if tooLong then (buf, true)
           else if max <? len buf + len body then ([], true) else (buf ++ body, false) in
  (r.2 = false → r.1 = pre ++ body ∧ len (pre ++ body) ≤ max) ∧ (r.2 = true → max < len (pre ++ body)).
Proof.
  intros Hf Ht. pose proof (len_nonneg body). rewrite len_app. destruct tooLong; cbn.
  - specialize (Ht eq_refl). split; [done|lia].
  - destruct (Hf eq_refl) as [-> Hle]. destruct (max <? len pre + len body) eqn:E; to_prop; cbn; split; (done || lia).
Qed.

(** The stream ends after [u]. *)
Lemma end_record size max eager (pre u buf : bytes) tooLong :
  0 < size → 0 ≤ max → len pre `mod` size = 0 →
  (eager = true → pre ≠ [] → u ≠ []) → (eager = false → len u < size) →
  (tooLong = false → buf = pre ++ u ∧ len (pre ++ u) ≤ max) → (tooLong = true → max < len (pre ++ u)) →
  (if (len u =? 0) && negb tooLong then inl LineEOF
   else if tooLong then inl ErrLineTooLong else inr (trimCR buf)) =
  (if (len (pre ++ u) =? 0) || tailLost size max eager (pre ++ u) then inl LineEOF
   else lineRecord max (pre ++ u)).
Proof.
  intros Hsz Hmax Hfull Hmore Hlate Hf Ht. unfold lineRecord, tailLost.
  pose proof (len_app pre u) as Hla. pose proof (len_nonneg pre). pose proof (len_nonneg u).
  destruct tooLong.
  - specialize (Ht eq_refl). rewrite andb_false_r, (proj2 (Z.ltb_lt _ _) Ht), (proj2 (Z.leb_gt _ _) Ht), andb_false_r.
    by rewrite (proj2 (Z.eqb_neq _ _)) by lia.
  - destruct (Hf eq_refl) as [-> Hle]. rewrite andb_true_r, (proj2 (Z.ltb_ge _ _) Hle), (proj2 (Z.leb_le _ _) Hle), andb_true_r.
    destruct (len u =? 0) eqn:Hu; to_prop.
    + apply len_nil_inv in Hu as ->. rewrite app_nil_r, Hfull in *. cbn. destruct eager; cbn; [|by rewrite orb_true_r].
      destruct pre; [done|]. by destruct (Hmore eq_refl).
    + rewrite (proj2 (Z.eqb_neq (len (pre ++ u)) 0)) by lia. cbn. destruct eager; [done|]. specialize (Hlate eq_refl).
      rewrite Hla, Z.add_mod, Hfull, Z.add_0_l, Z.mod_mod, Z.mod_small by lia. by rewrite (proj2 (Z.eqb_neq _ _)).
Qed.

Lemma nextLoop_spec max fuel pre buf tooLong b :
  0 ≤ max → bufOk b → (length (unread b) < fuel)%nat → readSoFar max b pre buf tooLong →
  ∃ b', nextLoop fuel max buf tooLong b =
          (frontRecord (br_size b) max (sr_eager (br_rd b)) pre (unread b), b') ∧
        bufOk b' ∧ sameStream b b' ∧ unread b' = afterRecord (unread b).
Proof.
  intros Hmax. revert pre buf tooLong b. induction fuel as [|fuel IH]; intros pre buf tooLong b Hok Hfuel [Hs Hl Hfull Hmore]; [lia|].
  cbn [nextLoop]. destruct (ReadSlice_spec b Hok) as (Hspec&Hok'&Hsame). pose proof (bo_size b Hok) as Hsz.
  destruct Hspec as [l b' Hu Hn|l b' Hu Hn Hlen He|b' Hu Hn He]; cbn [snd] in *.
  - rewrite chunkBody_line. pose proof (step_budget max pre buf tooLong l Hs Hl) as Hb. cbv zeta in Hb.
    destruct (if tooLong then _ else _) as [buf' tl] eqn:E. cbn [fst snd] in Hb. destruct Hb as [Hf Ht].
    rewrite !bool_decide_eq_false_2 by done. cbn [andb]. exists b'. unfold frontRecord, afterRecord, lineRecord.
    rewrite Hu, cutLine_line by done. split_and!; [|done..]. destruct tl.
    + by rewrite (proj2 (Z.ltb_lt _ _) (Ht eq_refl)).
    + destruct (Hf eq_refl) as [-> Hle]. by rewrite (proj2 (Z.ltb_ge _ _) Hle).
  - rewrite chunkBody_tail by done. pose proof (step_budget max pre buf tooLong l Hs Hl) as Hb. cbv zeta in Hb.
    destruct (if tooLong then _ else _) as [buf' tl] eqn:E. cbn [fst snd] in Hb. destruct Hb as [Hf Ht].
    rewrite bool_decide_eq_true_2 by done. destruct Hsame as [Hsize Heag].
    destruct (IH (pre ++ l) buf' tl b' Hok') as (b''&Heq&Hok''&[Hsize' Heag']&Hun).
    + rewrite Hu, length_app in Hfuel. unfold len in Hlen. lia.
    + split; [done|done| |].
      * rewrite Hsize, len_app, Hlen. rewrite Z.add_mod, Hfull, Z.mod_same by lia. done.
      * intros He' _. apply He. congruence.
    + exists b''. rewrite Heq, Hu, frontRecord_app, Hsize, Heag by done.
      split_and!; [done|done|by split; congruence|]. rewrite Hun. unfold afterRecord. rewrite cutLine_app by done.
      by destruct (cutLine (unread b')) as [[]|].
  - rewrite chunkBody_tail by done. pose proof (step_budget max pre buf tooLong (unread b) Hs Hl) as Hb. cbv zeta in Hb.
    destruct (if tooLong then _ else _) as [buf' tl] eqn:E. cbn [fst snd] in Hb. destruct Hb as [Hf Ht].
    rewrite bool_decide_eq_false_2 by done. rewrite bool_decide_eq_true_2 by done. cbn [andb].
    exists b'. unfold afterRecord, frontRecord. rewrite (cutLine_tail (unread b)) by done. split_and!; [|done..].
    rewrite <- (end_record _ _ _ pre (unread b) buf' tl) by done.
    by destruct ((len (unread b) =? 0) && negb tl), tl.
Qed.

Lemma next_spec max b :
  0 ≤ max → bufOk b →
  ∃ b', next max b = (frontRecord (br_size b) max (sr_eager (br_rd b)) [] (unread b), b') ∧
        bufOk b' ∧ sameStream b b' ∧ unread b' = afterRecord (unread b).
Proof.
  intros Hmax Hok. apply nextLoop_spec; [done|done|lia|]. split; try done; by intros.
Qed.

(** ** The whole stream *)

Lemma length_afterRecord u : u ≠ [] → (length (afterRecord u) < length u)%nat.
Proof.
  intros Hu. unfold afterRecord. destruct (cutLine u) as [[l rest]|] eqn:Hc.
  - apply cutLine_Some in Hc as [-> _]. rewrite length_app. cbn. lia.
  - destruct u; [done|cbn; lia].
Qed.

Lemma bodyRecords_line size max eager l u :
  LF ∉ l → bodyRecords size max eager (l ++ LF :: u) = lineRecord max l :: bodyRecords size max eager u.
Proof. intros Hl. unfold bodyRecords. rewrite splitBody_line by done. by destruct (splitBody u). Qed.

Lemma bodyRecords_front size max eager u :
  (frontRecord size max eager [] u = inl LineEOF ∧ bodyRecords size max eager u = []) ∨
  (∃ l, u ≠ [] ∧ frontRecord size max eager [] u = lineRecord max l ∧
        bodyRecords size max eager u = lineRecord max l :: bodyRecords size max eager (afterRecord u)).
Proof.
  unfold frontRecord, afterRecord. destruct (cutLine u) as [[l rest]|] eqn:Hc.
  - apply cutLine_Some in Hc as [-> Hl]. right. exists l. rewrite bodyRecords_line by done. by destruct l.
  - apply cutLine_None in Hc. unfold bodyRecords. rewrite splitBody_tail by done. cbn [app fmap list_fmap].
    destruct ((len u =? 0) || _) eqn:E; [by left|]. right. exists u. by destruct u.
Qed.

Lemma readLines_cons fuel max b l b' :
  next max b = (lineRecord max l, b') →
  readLines (S fuel) max b = (lineRecord max l :: (readLines fuel max b').1, (readLines fuel max b').2).
Proof.
  intros Hn. cbn [readLines]. rewrite Hn. unfold lineRecord. destruct (readLines fuel max b') as [rs e]. by destruct (max <? len l).
Qed.

Lemma readLines_spec max fuel b :
  0 ≤ max → bufOk b → (length (unread b) < fuel)%nat →
  readLines fuel max b = (bodyRecords (br_size b) max (sr_eager (br_rd b)) (unread b), LineEOF).
Proof.
  intros Hmax. revert b. induction fuel as [|fuel IH]; intros b Hok Hfuel; [lia|].
  destruct (next_spec max b Hmax Hok) as (b'&Hn&Hok'&[Hsz Heag]&Hun).
  destruct (bodyRecords_front (br_size b) max (sr_eager (br_rd b)) (unread b)) as [[Hf ->]|(l&Hne&Hf&->)];
    rewrite Hf in Hn.
  - cbn [readLines]. by rewrite Hn.
  - rewrite (readLines_cons _ _ _ _ _ Hn), (IH b' Hok') by
      (rewrite Hun; pose proof (length_afterRecord _ Hne); lia).
    by rewrite Hsz, Heag, Hun.
Qed.

(** C22 (equivalence): however the stream is cut into reads, a loop over [next]
    sees exactly the lines of the body, a line over the budget as
    [ErrLineTooLong] in its place, each other without its line terminator, and
    then the end of the stream; the loop ends within one round per byte.  One
    exception is part of the statement ([tailLost]): an unterminated last line
    within the budget whose length is a multiple of the buffer's size is
    dropped without a record when the end of the stream comes in a read of its
    own. *)
Theorem line_reader_exact size max reads eager fuel :
  0 < size → 0 ≤ max → Forall (λ x, x ≠ []) reads → (length (concat reads) < fuel)%nat →
  readLines fuel max (NewReaderSize (mkSource reads EOF eager) size) =
    (bodyRecords size max eager (concat reads), LineEOF).
Proof.
  intros Hs Hm Hr Hf. apply (readLines_spec max fuel (NewReaderSize (mkSource reads EOF eager) size));
    [done|by apply NewReaderSize_ok|done].
Qed.

(** A record, an over-long line and a last line without line feed, in three
    reads; and the last line that is lost. *)
Definition sampleReads : list bytes :=
  String.list_ascii_of_string <$> ["ab" +:+ String CR (String LF "toolong"); "er" +:+ String LF ""; "cd"].

Lemma line_reader_exact_witness :
  readLines 20 4 (NewReaderSize (mkSource sampleReads EOF false) 3) =
    ([inr (String.list_ascii_of_string "ab"); inl ErrLineTooLong; inr (String.list_ascii_of_string "cd")], LineEOF) ∧
  readLines 20 4 (NewReaderSize (mkSource sampleReads EOF false) 2) =
    ([inr (String.list_ascii_of_string "ab"); inl ErrLineTooLong], LineEOF).
Proof.
  split.
  - etransitivity; [apply (line_reader_exact 3 4 sampleReads false 20); [done|done|by repeat constructor|vm_compute; lia]|].
    vm_compute. reflexivity.
  - etransitivity; [apply (line_reader_exact 2 4 sampleReads false 20); [done|done|by repeat constructor|vm_compute; lia]|].
    vm_compute. reflexivity.
Defined.
