(* ===== verification/Email.v ===== *)
(** * E-mail addresses ([store/email.go])

    The canonical form of an address, which is the key of the recipient list,
    of the suppression lists and of the unique index of a campaign. *)

From S2P Require Import Prelude Classify Codec Tokens.

(** ** [strings.TrimSpace] *)

(** The space rune at the end of a string, as its length in bytes. *)
Definition trailingSpace (s : string) : nat :=
  match list_find (λ p, String.length p ≤ String.length s ∧
                        strDrop (String.length s - String.length p) s = p)%nat
          (asciiSpaces ++ wideSpaces) with
  | Some (_, p) => String.length p
  | None => 0
  end.

Fixpoint trimRight (fuel : nat) (s : string) : string :=
  match fuel with
  | O => s
  | S fuel =>
      match trailingSpace s with
      | O => s
      | n => trimRight fuel (strTake (String.length s - n) s)
      end
  end.

(** [strings.TrimSpace] *)
Definition TrimSpace (s : string) : string :=
  let s := trimLeft (String.length s) s in trimRight (String.length s) s.

(** [strings.Split] at a byte *)
Fixpoint splitByte (c : Ascii.ascii) (s : string) : list string :=
  match s with
  | EmptyString => [""]
  | String x s' =>
      if Ascii.eqb x c then "" :: splitByte c s'
      else match splitByte c s' with [] => [String x ""] | a :: l => String x a :: l end
  end.

(** ** [NormalizeEmail] *)

Section normalize.
(** [strings.ToLower] (Unicode's tables), [mail.ParseAddress] reduced to the
    address, and the third-party [idna.Lookup.ToASCII]. *)
Context (lower : string → string) (parseAddress toASCII : string → option string).

(** [store.NormalizeEmail] *)
Definition NormalizeEmail (s : string) : option string :=
  if hasByte (toByte 13) s || hasByte (toByte 10) s then None
  else
    let s := TrimSpace s in
    if strEq s "" then None
    else
      match parseAddress s with
      | None => None
      | Some addr =>
          match cutLast (toByte 64) addr with
          | None => None
          | Some (local, domain) =>
              if strEq local "" || strEq domain "" then None
              else
                match toASCII (lower domain) with
                | None => None
                | Some ascii => Some (lower local +:+ String (toByte 64) ascii)
                end
          end
      end.

(** A canonical address is not empty. *)
Lemma NormalizeEmail_nonempty s n : NormalizeEmail s = Some n → n ≠ "".
Proof.
  unfold NormalizeEmail. intros H. repeat case_match; try done. injection H as <-.
  match goal with |- ?l +:+ _ ≠ _ => by destruct l end.
Qed.
End normalize.
