(* ===== verification/Text.v ===== *)
(** * Text: trimming, decimals and hex

    Lemmas on the text functions of Go's library that several components use:
    what [strings.TrimSpace] leaves alone, and that [strconv] and [encoding/hex]
    read back what they write. *)

From Stdlib Require Import DecimalString DecimalN.
From S2P Require Import Prelude Enums Model Settings Classify Codec Tokens Email.

(** ** Graphic characters *)

Definition graphic (c : Ascii.ascii) : bool := let n := Ascii.nat_of_ascii c in (33 <=? n)%nat && (n <=? 126)%nat.
Fixpoint allGraphic (s : string) : bool := match s with EmptyString => true | String c s' => graphic c && allGraphic s' end.
(** Text made of graphic characters. *)
Definition graphicText (s : string) : Prop := s ≠ "" ∧ allGraphic s = true.

Lemma strPrefix_cons c p s : String.prefix (String c p) s = true → ∃ s', s = String c s' ∧ String.prefix p s' = true.
Proof. destruct s as [|d s]; cbn; [done|]. destruct (Ascii.ascii_dec c d) as [->|]; [eauto|done]. Qed.

Lemma graphic_not_space :
  forallb (λ p, match p with String c _ => negb (graphic c) | EmptyString => false end) (asciiSpaces ++ wideSpaces) = true.
Proof. by vm_compute. Qed.

Lemma leadingSpace_graphic c s : graphic c = true → leadingSpace (String c s) = 0%nat.
Proof.
  intros Hc. unfold leadingSpace. destruct (list_find _ _) as [[i p]|] eqn:E; [|done].
  apply list_find_Some in E as (Hin%list_elem_of_lookup_2&Hp&_).
  pose proof (proj1 (forallb_forall _ _) graphic_not_space p (proj1 (list_elem_of_In _ _) Hin)) as Hg. destruct p as [|d p]; [done|].
  apply strPrefix_cons in Hp as (s'&[= <- _]&_). by rewrite Hc in Hg.
Qed.

Fixpoint lastByte (s : string) : option Ascii.ascii :=
  match s with
  | EmptyString => None
  | String c EmptyString => Some c
  | String _ s' => lastByte s'
  end.

Lemma lastByte_drop k s : (k < String.length s)%nat → lastByte (strDrop k s) = lastByte s.
Proof.
  revert s. induction k as [|k IH]; intros [|c s] Hk; cbn in Hk |- *; [lia|done|lia|]. rewrite IH by lia. destruct s; [cbn in Hk; lia|done].
Qed.

Lemma graphic_not_space_last :
  forallb (λ p, match lastByte p with Some c => negb (graphic c) | None => false end) (asciiSpaces ++ wideSpaces) = true.
Proof. by vm_compute. Qed.

Lemma trailingSpace_graphic c s : lastByte s = Some c → graphic c = true → trailingSpace s = 0%nat.
Proof.
  intros Hl Hc. unfold trailingSpace. destruct (list_find _ _) as [[i p]|] eqn:E; [|done].
  apply list_find_Some in E as (Hin%list_elem_of_lookup_2&[Hlen Hp]&_).
  pose proof (proj1 (forallb_forall _ _) graphic_not_space_last p (proj1 (list_elem_of_In _ _) Hin)) as Hg.
  assert (Hpos : (0 < String.length p)%nat) by (destruct p; [done|cbn; lia]).
  rewrite <- Hp, lastByte_drop, Hl, Hc in Hg by lia. done.
Qed.

(** Text that begins and ends in graphic characters is not trimmed. *)
Lemma TrimSpace_graphic c d s : graphic c = true → lastByte (String c s) = Some d → graphic d = true → TrimSpace (String c s) = String c s.
Proof.
  intros Hc Hl Hd. unfold TrimSpace. assert (Ht : ∀ n, trimLeft n (String c s) = String c s).
  { intros [|n]; cbn [trimLeft]; [done|]. by rewrite leadingSpace_graphic. }
  rewrite Ht. generalize (String.length (String c s)). intros [|n]; cbn [trimRight]; [done|].
  by rewrite (trailingSpace_graphic d).
Qed.

Lemma lastByte_app a c b : lastByte (a +:+ String c b) = lastByte (String c b).
Proof.
  induction a as [|x a IH]; [by rewrite app_empty_str|]. rewrite app_cons_str. cbn [lastByte].
  rewrite IH. destruct a; [by rewrite app_empty_str|by rewrite app_cons_str].
Qed.

Lemma graphic_last t : graphicText t → ∃ d, lastByte t = Some d ∧ graphic d = true.
Proof.
  intros [Hne Hg]. induction t as [|c t IH]; [done|]. cbn in Hg. apply andb_true_iff in Hg as [Hc Hg].
  destruct t as [|c' t]; [by exists c|]. by apply IH.
Qed.

Lemma TrimSpace_text t : graphicText t → TrimSpace t = t.
Proof.
  intros Hu. destruct (graphic_last t Hu) as (d&Hl&Hd). destruct t as [|c t]; [by destruct Hu|].
  destruct Hu as [_ Hg]. cbn in Hg. apply andb_true_iff in Hg as [Hc _]. by apply (TrimSpace_graphic c d).
Qed.

(** Decimal digits are graphic. *)
Lemma digits_graphic d : allGraphic (NilEmpty.string_of_uint d) = true.
Proof. induction d; cbn; done. Qed.

Lemma decimal_graphic n : graphicText (decimal n).
Proof.
  unfold decimal, NilZero.string_of_uint. destruct (N.to_uint n) eqn:E; split; try done; try exact (digits_graphic _).
Qed.

Lemma Itoa_graphic n : graphicText (Itoa n).
Proof. apply decimal_graphic. Qed.

Lemma itoa_nat n : itoa (Z.of_nat n) = Itoa n.
Proof. unfold itoa, Itoa. rewrite (proj2 (Z.ltb_ge _ _)) by lia. f_equal. lia. Qed.

Lemma graphic_no_byte c s : graphic c = false → allGraphic s = true → hasByte c s = false.
Proof.
  intros Hc. induction s as [|d s IH]; cbn; [done|]. intros [Hd Hs]%andb_true_iff. rewrite IH by done.
  rewrite orb_false_r. first [apply Ascii.eqb_neq; congruence].
Qed.

Lemma allGraphic_app a b : allGraphic (a +:+ b) = allGraphic a && allGraphic b.
Proof. induction a as [|c a IH]; [done|]. rewrite app_cons_str. cbn [allGraphic]. by rewrite IH, andb_assoc. Qed.

(** ** Decimals *)

Lemma itoa_graphic z : graphicText (itoa z).
Proof.
  unfold itoa. destruct (z <? 0); [|apply decimal_graphic]. destruct (decimal_graphic (Z.to_N (- z))) as [_ Hg]. by split; [|cbn].
Qed.

(** A decimal holds digits and a sign only. *)
Definition decimalByte (c : Ascii.ascii) : bool := let n := byteVal c in (n =? 45) || ((48 <=? n) && (n <=? 57)).
Fixpoint allDecimal (s : string) : bool := match s with EmptyString => true | String c s' => decimalByte c && allDecimal s' end.

Lemma decimal_decimal n : allDecimal (decimal n) = true.
Proof.
  assert (Hd : ∀ d, allDecimal (NilEmpty.string_of_uint d) = true) by (intros d; induction d; cbn; done).
  unfold decimal, NilZero.string_of_uint. destruct (N.to_uint n); [done|apply Hd..].
Qed.

Lemma itoa_decimal z : allDecimal (itoa z) = true.
Proof. unfold itoa. destruct (z <? 0); [apply (decimal_decimal (Z.to_N (- z)))|apply decimal_decimal]. Qed.

Lemma decimal_no_byte c s : decimalByte c = false → allDecimal s = true → hasByte c s = false.
Proof.
  intros Hc. induction s as [|d s IH]; cbn; [done|]. intros [Hd Hs]%andb_true_iff. rewrite IH by done.
  rewrite orb_false_r. apply Ascii.eqb_neq. congruence.
Qed.

(** [strconv.ParseInt(s, 10, 64)] reads as [strconv.Atoi] does. *)
Definition ParseInt64 : string → option Z := Atoi.

Lemma decimal_digits n : NilZero.uint_of_string (decimal n) = Some (N.to_uint n).
Proof. apply NilZero.usu. destruct n; [done|]. apply DecimalPos.Unsigned.to_uint_nonnil. Qed.

Lemma atoi_decimal neg n : (if neg : bool then Z.of_N n ≤ 2 ^ 63 else Z.of_N n < 2 ^ 63) →
  atoiDigits neg (decimal n) = Some (if neg then - Z.of_N n else Z.of_N n).
Proof.
  intros Hn. unfold atoiDigits. rewrite decimal_digits, DecimalN.Unsigned.of_to.
  destruct neg; [by rewrite (proj2 (Z.ltb_ge _ _))|by rewrite (proj2 (Z.leb_gt _ _))].
Qed.

(** [ParseInt] reads back what [FormatInt] writes. *)
Lemma ParseInt64_itoa z : in_int64 z → ParseInt64 (itoa z) = Some z.
Proof.
  unfold in_int64, minInt64, maxInt64. intros Hz. unfold itoa, ParseInt64. destruct (Z.ltb_spec z 0) as [Hn|Hp].
  - change (Atoi ("-" +:+ decimal (Z.to_N (- z)))) with (atoiDigits true (decimal (Z.to_N (- z)))).
    rewrite atoi_decimal by lia. f_equal. lia.
  - pose proof (Itoa_Atoi (Z.to_nat z) ltac:(lia)) as Ha. unfold Itoa in Ha. rewrite Z_nat_N, Z2Nat.id in Ha by lia. done.
Qed.

(** ** Hex *)

(** The value of a hex digit, of either case. *)
Definition fromHexChar (c : Ascii.ascii) : option Z :=
  let n := byteVal c in
  if (48 <=? n) && (n <=? 57) then Some (n - 48)
  else if (97 <=? n) && (n <=? 102) then Some (n - 87)
  else if (65 <=? n) && (n <=? 70) then Some (n - 55)
  else None.

(** [hex.DecodeString] *)
Fixpoint HexDecodeString (s : string) : option string :=
  match s with
  | EmptyString => Some ""
  | String a (String b s') =>
      match fromHexChar a, fromHexChar b, HexDecodeString s' with
      | Some x, Some y, Some r => Some (String (toByte (16 * x + y)) r)
      | _, _, _ => None
      end
  | String _ EmptyString => None
  end.

Lemma fromHexChar_digit n : (n < 16)%nat → fromHexChar (hexDigit n) = Some (Z.of_nat n).
Proof. intros Hn. do 16 (destruct n as [|n]; [by vm_compute|]). lia. Qed.

Lemma hex_roundtrip s : HexDecodeString (EncodeToString s) = Some s.
Proof.
  induction s as [|c s IH]; [done|]. cbn [EncodeToString HexDecodeString].
  rewrite !fromHexChar_digit, IH by (try apply Nat.Div0.div_lt_upper_bound; try apply Nat.mod_upper_bound; pose proof (Ascii.nat_ascii_bounded c); lia).
  assert (Hv : 16 * Z.of_nat (Ascii.nat_of_ascii c / 16) + Z.of_nat (Ascii.nat_of_ascii c mod 16) = byteVal c).
  { unfold byteVal, Ascii.nat_of_ascii. pose proof (Nat.div_mod_eq (N.to_nat (Ascii.N_of_ascii c)) 16). lia. }
  by rewrite Hv, toByte_byteVal.
Qed.

Lemma hexDigit_graphic n : (n < 16)%nat → graphic (hexDigit n) = true.
Proof. intros Hn. do 16 (destruct n as [|n]; [by vm_compute|]). lia. Qed.

Lemma hex_graphic s : s ≠ "" → graphicText (EncodeToString s).
Proof.
  intros Hs. split; [by destruct s|]. clear Hs. induction s as [|c s IH]; [done|]. cbn [EncodeToString allGraphic].
  rewrite !hexDigit_graphic, IH by (try apply Nat.Div0.div_lt_upper_bound; try apply Nat.mod_upper_bound; pose proof (Ascii.nat_ascii_bounded c); lia).
  done.
Qed.

Lemma hex_no_byte c s : (∀ n, (n < 16)%nat → Ascii.eqb (hexDigit n) c = false) → hasByte c (EncodeToString s) = false.
Proof.
  intros Hc. induction s as [|d s IH]; [done|]. cbn [EncodeToString hasByte].
  rewrite !Hc, IH by (try apply Nat.Div0.div_lt_upper_bound; try apply Nat.mod_upper_bound; pose proof (Ascii.nat_ascii_bounded d); lia).
  done.
Qed.

(** ** Splitting *)

Lemma splitByte_none c s : hasByte c s = false → splitByte c s = [s].
Proof. induction s as [|d s IH]; cbn; [done|]. intros [-> Hs]%orb_false_iff. by rewrite IH. Qed.

Lemma splitByte_app c a b : hasByte c a = false → splitByte c (a +:+ String c b) = a :: splitByte c b.
Proof.
  induction a as [|d a IH]; cbn [hasByte].
  - intros _. rewrite app_empty_str. cbn. by rewrite Ascii.eqb_refl.
  - intros [Hd Ha]%orb_false_iff. rewrite app_cons_str. cbn [splitByte]. by rewrite Hd, IH.
Qed.
