(* ===== verification/SigV1.v ===== *)
(** * The signature of an inbound webhook ([internal/probe/inbound/sigv1])

    A forwarder signs the body of its request with a timestamped HMAC; the
    receiver checks the header against its secrets and its clock.  HMAC-SHA256 is
    the argument [hmac] (secret, message) with its 32 raw bytes.  The theorem says
    exactly which requests are accepted and that what [Sign] writes is among
    them. *)

From S2P Require Import Prelude Enums Model Settings Classify Codec Tokens Email Text.

Definition DefaultTolerance : Duration := 5 * Minute.
Definition elemTimestamp : string := "t".
Definition elemV1 : string := "v1".
Definition sha256Size : nat := 32.

(** [inbound.ErrBadInboundSignature] *)
Definition ErrBadInboundSignature : error := errNamed "inbound: bad signature".

(** Seconds from Go's zero time to the Unix epoch. *)
Definition unixToInternal : Z := 62135596800.

(** [t.Unix()] and [time.Unix(sec, 0)]; the sum wraps as an int64. *)
Definition Unix (t : Time) : Z := t / Second - unixToInternal.
Definition unixTime (sec : Z) : Time := int64 (sec + unixToInternal) * Second.

(** ** The header *)

(** [hex.DecodeString] of a digest of the right size *)
Definition readSum (value : string) : option string :=
  match HexDecodeString value with
  | Some sum => if (String.length sum =? sha256Size)%nat then Some sum else None
  | None => None
  end.

(** The loop of [parse]. *)
Fixpoint sigElems (elems : list string) (unix : Z) (haveTS : bool) (digests : list string) : error + (Z * list string) :=
  match elems with
  | [] =>
      if negb haveTS then inl ErrBadInboundSignature
      else if bool_decide (digests = []) then inl ErrBadInboundSignature
      else inr (unix, digests)
  | elem :: elems' =>
      match cutByte (toByte 61) (TrimSpace elem) with
      | None => inl ErrBadInboundSignature
      | Some (name, value) =>
          if strEq (TrimSpace name) elemTimestamp then
            match ParseInt64 (TrimSpace value) with
            | None => inl ErrBadInboundSignature
            | Some n =>
                if haveTS && negb (n =? unix) then inl ErrBadInboundSignature
                else sigElems elems' n true digests
            end
          else if strEq (TrimSpace name) elemV1 then
            match readSum (TrimSpace value) with
            | None => inl ErrBadInboundSignature
            | Some sum => sigElems elems' unix haveTS (digests ++ [sum])
            end
          else sigElems elems' unix haveTS digests
      end
  end.

(** [parse] *)
Definition sigParse (header : string) : error + (Z * list string) :=
  let header := TrimSpace header in
  if strEq header "" then inl ErrBadInboundSignature
  else sigElems (splitByte (toByte 44) header) 0 false [].

(** ** Signing and verifying *)

Section sig.
Context (hmac : string → string → string).

(** What is signed. *)
Definition signedText (unix : Z) (body : string) : string := itoa unix +:+ "." +:+ body.

(** [digest] *)
Definition sigDigest (secret : string) (unix : Z) (body : string) : string :=
  EncodeToString (hmac secret (signedText unix body)).

(** [Sign] *)
Definition sigSign (secret : string) (t : Time) (body : string) : string :=
  let unix := Unix t in
  elemTimestamp +:+ "=" +:+ itoa unix +:+ "," +:+ elemV1 +:+ "=" +:+ sigDigest secret unix body.

(** The tolerance in force. *)
Definition sigTolerance (tolerance : Duration) : Duration := if tolerance <=? 0 then DefaultTolerance else tolerance.

(** The loop over the keys. *)
Fixpoint sigTry (keys : list string) (unix : Z) (body : string) (sums : list string) : error + unit :=
  match keys with
  | [] => inl ErrBadInboundSignature
  | key :: keys' =>
      match HexDecodeString (sigDigest key unix body) with
      | None => inl ErrBadInboundSignature
      | Some want => if existsb (λ got, strEq got want) sums then inr tt else sigTry keys' unix body sums
      end
  end.

(** [Verify] *)
Definition sigVerify (header body : string) (secrets : list string) (now : Time) (tolerance : Duration) : error + unit :=
  let tolerance := sigTolerance tolerance in
  let keys := filter (λ s, s ≠ "") secrets in
  if bool_decide (keys = []) then inl ErrBadInboundSignature
  else
    match sigParse header with
    | inl e => inl e
    | inr (unix, sums) =>
        let skew := subTime now (unixTime unix) in
        if (tolerance <? skew) || (skew <? - tolerance) then inl ErrBadInboundSignature
        else sigTry keys unix body sums
    end.

(** ** What a header says

    Independently of the order in which it is read: the elements are
    [name=value], every [t] names the same second, every [v1] is a digest of
    the right size, and there is one of each at least. *)

Definition sigElem (elem : string) : option (string * string) :=
  match cutByte (toByte 61) (TrimSpace elem) with
  | Some (name, value) => Some (TrimSpace name, TrimSpace value)
  | None => None
  end.

(** The values of the elements with a name. *)
Definition valuesOf (name : string) (nvs : list (string * string)) : list string :=
  omap (λ nv : string * string, if strEq nv.1 name then Some nv.2 else None) nvs.

Definition elemsSay (elems : list string) (unix : Z) (ts sums : list string) : Prop :=
  ∃ nvs, mapM sigElem elems = Some nvs ∧ valuesOf elemTimestamp nvs = ts ∧
    Forall (λ v, ParseInt64 v = Some unix) ts ∧ mapM readSum (valuesOf elemV1 nvs) = Some sums.

Definition headerSays (header : string) (unix : Z) (sums : list string) : Prop :=
  TrimSpace header ≠ "" ∧ sums ≠ [] ∧
  ∃ ts, ts ≠ [] ∧ elemsSay (splitByte (toByte 44) (TrimSpace header)) unix ts sums.

Lemma mapM_cons_Some {X Y} (f : X → option Y) x l k :
  mapM f (x :: l) = Some k ↔ ∃ y k', k = y :: k' ∧ f x = Some y ∧ mapM f l = Some k'.
Proof.
  rewrite mapM_Some. split.
  - intros (y&k'&Hy&Hk&->)%Forall2_cons_inv_l. exists y, k'. by rewrite mapM_Some.
  - intros (y&k'&->&Hy&Hk%mapM_Some). by constructor.
Qed.

Lemma elemsSay_nil unix ts sums : elemsSay [] unix ts sums ↔ ts = [] ∧ sums = [].
Proof.
  split; [intros (nvs&[= <-]&<-&_&[= <-]); done|]. intros [-> ->]. by exists [].
Qed.

(** What the first element adds. *)
Definition elemAdds (nv : string * string) (unix : Z) (ts sums ts' sums' : list string) : Prop :=
  if strEq nv.1 elemTimestamp then ParseInt64 nv.2 = Some unix ∧ ts = nv.2 :: ts' ∧ sums = sums'
  else if strEq nv.1 elemV1 then ∃ sum, readSum nv.2 = Some sum ∧ ts = ts' ∧ sums = sum :: sums'
  else ts = ts' ∧ sums = sums'.

Lemma elemsSay_cons e es unix ts sums :
  elemsSay (e :: es) unix ts sums ↔
    ∃ nv ts' sums', sigElem e = Some nv ∧ elemsSay es unix ts' sums' ∧ elemAdds nv unix ts sums ts' sums'.
Proof.
  unfold elemsSay, elemAdds. split.
  - intros (nvs&(nv&nvs'&->&He&Hes)%mapM_cons_Some&Hts&Hall&Hsums). exists nv. revert Hts Hsums. cbn [valuesOf omap list_omap].
    destruct (strEq nv.1 elemTimestamp) eqn:Et.
    + unfold strEq in Et. apply bool_decide_eq_true in Et. rewrite Et. cbn. intros <- Hsums.
      apply Forall_cons in Hall as [Hv Hall]. exists (valuesOf elemTimestamp nvs'), sums. split_and!; [done| |done..].
      by exists nvs'.
    + intros Hts Hsums. destruct (strEq nv.1 elemV1).
      * apply mapM_cons_Some in Hsums as (sum&sums'&->&Hsum&Hrest). exists ts, sums'. split_and!; [done| |by exists sum]. by exists nvs'.
      * exists ts, sums. split_and!; [done| |done..]. by exists nvs'.
  - intros (nv&ts'&sums'&He&(nvs&Hes&Hts&Hall&Hsums)&Ha). exists (nv :: nvs). cbn [valuesOf omap list_omap].
    split; [apply mapM_cons_Some; by exists nv, nvs|]. revert Ha. destruct (strEq nv.1 elemTimestamp) eqn:Et.
    + intros (Hv&->&->). unfold strEq in Et. apply bool_decide_eq_true in Et. rewrite Et. split_and!; [by subst|by constructor|done].
    + destruct (strEq nv.1 elemV1); [intros (sum&Hsum&->&->)|intros [-> ->]]; (split_and!; [done..|]); [|done].
      apply mapM_cons_Some. by exists sum, sums'.
Qed.

Lemma sigElems_cons e es u have ds :
  sigElems (e :: es) u have ds =
    match sigElem e with
    | None => inl ErrBadInboundSignature
    | Some (name, value) =>
        if strEq name elemTimestamp then
          match ParseInt64 value with
          | None => inl ErrBadInboundSignature
          | Some n => if have && negb (n =? u) then inl ErrBadInboundSignature else sigElems es n true ds
          end
        else if strEq name elemV1 then
          match readSum value with None => inl ErrBadInboundSignature | Some sum => sigElems es u have (ds ++ [sum]) end
        else sigElems es u have ds
    end.
Proof. cbn [sigElems]. unfold sigElem. by destruct (cutByte _ _) as [[name value]|]. Qed.

(** The loop reads exactly that. *)
Lemma sigElems_spec elems u have ds unix sums :
  sigElems elems u have ds = inr (unix, sums) ↔
    ∃ ts more, elemsSay elems unix ts more ∧ (have = true → u = unix) ∧ (have = true ∨ ts ≠ []) ∧
      sums = ds ++ more ∧ sums ≠ [].
Proof.
  revert u have ds. induction elems as [|e es IH]; intros u have ds.
  { cbn [sigElems]. split.
    - destruct have; [|done]. cbn. case_bool_decide; [done|]. intros [= <- <-]. exists [], []. rewrite app_nil_r. rewrite elemsSay_nil. naive_solver.
    - intros (ts&more&[-> ->]%elemsSay_nil&Hu&Ht&->&Hne). rewrite app_nil_r in *. destruct Ht as [->|]; [|done]. cbn.
      rewrite bool_decide_eq_false_2 by done. by rewrite Hu. }
  rewrite sigElems_cons. setoid_rewrite elemsSay_cons. destruct (sigElem e) as [[name value]|]; [|split; [done|naive_solver]].
  assert (Hx : ∀ (P : _ → _ → Prop), (∃ ts more, (∃ nv ts' sums', Some (name, value) = Some nv ∧ elemsSay es unix ts' sums' ∧ elemAdds nv unix ts more ts' sums') ∧ P ts more) ↔
    ∃ ts' sums', elemsSay es unix ts' sums' ∧ ∃ ts more, elemAdds (name, value) unix ts more ts' sums' ∧ P ts more) by naive_solver.
  rewrite Hx. clear Hx. unfold elemAdds. cbn [fst snd].
  destruct (strEq name elemTimestamp).
  - destruct (ParseInt64 value) as [n|]; [|split; [done|naive_solver]]. destruct (have && negb (n =? u)) eqn:Eh.
    + apply andb_true_iff in Eh as [-> Hn%negb_true_iff%Z.eqb_neq]. split; [done|]. naive_solver.
    + rewrite IH. apply andb_false_iff in Eh. rewrite negb_false_iff, Z.eqb_eq in Eh. split.
      * intros (ts'&more&Hs&Hn&_&->&Hne). rewrite (Hn eq_refl) in *. exists ts', more. split; [done|]. exists (value :: ts'), more.
        split; [done|]. split; [naive_solver|]. split; [by right|done].
      * intros (ts'&sums'&Hs&ts&more&([= ->]&->&->)&Hu&_&->&Hne). exists ts', sums'. naive_solver.
  - destruct (strEq name elemV1).
    + destruct (readSum value) as [sum|]; [|split; [done|naive_solver]]. rewrite IH. split.
      * intros (ts'&more&Hs&Hu&Ht&->&Hne). exists ts', more. split; [done|]. exists ts', (sum :: more). rewrite <- app_assoc in *. naive_solver.
      * intros (ts'&sums'&Hs&ts&more&(?&[= <-]&->&->)&Hu&Ht&->&Hne). exists ts', sums'. rewrite <- app_assoc. naive_solver.
    + rewrite IH. naive_solver.
Qed.

Lemma sigParse_spec header unix sums : sigParse header = inr (unix, sums) ↔ headerSays header unix sums.
Proof.
  unfold sigParse, headerSays, strEq. case_bool_decide as He; [split; [done|naive_solver]|]. rewrite sigElems_spec. cbn. naive_solver.
Qed.
(** ** The signature *)

Lemma sigTry_spec keys unix body sums :
  sigTry keys unix body sums = inr tt ↔ ∃ key, key ∈ keys ∧ hmac key (signedText unix body) ∈ sums.
Proof.
  induction keys as [|key keys IH]; cbn [sigTry]; [split; [done|intros (?&Hin&_); by apply not_elem_of_nil in Hin]|].
  unfold sigDigest. rewrite hex_roundtrip.
  assert (Hx : existsb (λ got, strEq got (hmac key (signedText unix body))) sums = true ↔ hmac key (signedText unix body) ∈ sums).
  { rewrite existsb_exists. unfold strEq. setoid_rewrite bool_decide_eq_true. setoid_rewrite <- list_elem_of_In. naive_solver. }
  destruct (existsb _ _).
  - split; [|done]. intros _. exists key. split; [by left|]. by apply Hx.
  - rewrite IH. setoid_rewrite elem_of_cons. split; [naive_solver|]. intros (k&[->|Hk]&Hs); [by apply Hx in Hs|eauto].
Qed.

Lemma sigTry_error keys unix body sums e : sigTry keys unix body sums = inl e → e = ErrBadInboundSignature.
Proof. induction keys as [|key keys IH]; cbn [sigTry]; [congruence|]. repeat case_match; naive_solver. Qed.

Lemma sigElems_error elems u have ds e : sigElems elems u have ds = inl e → e = ErrBadInboundSignature.
Proof.
  revert u have ds. induction elems as [|x elems IH]; intros u have ds; cbn [sigElems]; repeat case_match; try congruence; apply IH.
Qed.

Lemma sigVerify_error header body secrets now tolerance e : sigVerify header body secrets now tolerance = inl e → e = ErrBadInboundSignature.
Proof.
  unfold sigVerify. case_bool_decide; [congruence|]. destruct (sigParse header) as [e'|[unix sums]] eqn:E.
  - intros [= <-]. revert E. unfold sigParse. case_match; [congruence|apply sigElems_error].
  - case_match; [congruence|apply sigTry_error].
Qed.

Lemma sigVerify_spec header body secrets now tolerance :
  sigVerify header body secrets now tolerance = inr tt ↔
    ∃ key unix sums, key ∈ secrets ∧ key ≠ "" ∧ headerSays header unix sums ∧ hmac key (signedText unix body) ∈ sums ∧
      - sigTolerance tolerance ≤ subTime now (unixTime unix) ≤ sigTolerance tolerance.
Proof.
  unfold sigVerify. case_bool_decide as Hk.
  { split; [done|]. intros (key&_&_&Hin&Hne&_). assert (Hin' : key ∈ filter (λ s, s ≠ "") secrets) by by apply list_elem_of_filter.
    rewrite Hk in Hin'. by apply not_elem_of_nil in Hin'. }
  destruct (sigParse header) as [e|[unix sums]] eqn:E.
  { split; [done|]. intros (key&unix&sums&_&_&Hh%sigParse_spec&_). congruence. }
  destruct (_ || _) eqn:Hs.
  - split; [done|]. intros (key&unix'&sums'&_&_&Hh%sigParse_spec&_&Ht). rewrite E in Hh. injection Hh as <- <-. lia.
  - rewrite sigTry_spec. setoid_rewrite list_elem_of_filter. setoid_rewrite <- sigParse_spec. rewrite E.
    apply orb_false_iff in Hs as [H1%Z.ltb_ge H2%Z.ltb_ge]. naive_solver.
Qed.

(** The separator tells timestamp and body apart. *)
Lemma signedText_inj u u' b b' : in_int64 u → in_int64 u' → signedText u b = signedText u' b' → u = u' ∧ b = b'.
Proof.
  intros Hu Hu' He%(f_equal (cutByte (toByte 46))). unfold signedText in He. change "." with (String (toByte 46) "") in He.
  rewrite !app_cons_str, !app_empty_str, !cutByte_app in He by (apply decimal_no_byte; [done|apply itoa_decimal]).
  injection He as He ->. apply (f_equal ParseInt64) in He. rewrite !ParseInt64_itoa in He by done. by injection He.
Qed.

Section roundtrip.
Context (hmac_length : ∀ k m, String.length (hmac k m) = sha256Size).

Lemma sigSign_says secret t body :
  in_int64 (Unix t) → headerSays (sigSign secret t body) (Unix t) [hmac secret (signedText (Unix t) body)].
Proof.
  intros Ht. unfold sigSign. set (d := sigDigest secret (Unix t) body). set (m := hmac secret (signedText (Unix t) body)).
  pose (a := elemTimestamp +:+ "=" +:+ itoa (Unix t)). pose (b := elemV1 +:+ "=" +:+ d).
  assert (Hm : String.length m = sha256Size) by apply hmac_length.
  assert (Hd : graphicText d) by (apply hex_graphic; unfold sha256Size in *; by destruct (hmac _ _)).
  assert (Hi := itoa_graphic (Unix t)).
  assert (Ga : graphicText a) by (split; [done|unfold a; rewrite !allGraphic_app, (proj2 Hi); done]).
  assert (Gb : graphicText b) by (split; [done|unfold b; rewrite !allGraphic_app, (proj2 Hd); done]).
  assert (Heq : elemTimestamp +:+ "=" +:+ itoa (Unix t) +:+ "," +:+ elemV1 +:+ "=" +:+ d = a +:+ String (toByte 44) b) by done.
  rewrite Heq. clear Heq.
  assert (Gh : graphicText (a +:+ String (toByte 44) b)).
  { split; [done|]. rewrite allGraphic_app. cbn [allGraphic]. by rewrite (proj2 Ga), (proj2 Gb). }
  unfold headerSays. rewrite (TrimSpace_text _ Gh). split_and!; [apply Gh|done|].
  rewrite splitByte_app, splitByte_none.
  - exists [itoa (Unix t)]. split; [done|]. exists [(elemTimestamp, itoa (Unix t)); (elemV1, d)].
    assert (Sa : sigElem a = Some (elemTimestamp, itoa (Unix t))).
    { unfold sigElem. rewrite (TrimSpace_text _ Ga). change (cutByte (toByte 61) a) with (Some ("t", itoa (Unix t))). cbv beta iota. by rewrite (TrimSpace_text _ Hi). }
    assert (Sb : sigElem b = Some (elemV1, d)).
    { unfold sigElem. rewrite (TrimSpace_text _ Gb). change (cutByte (toByte 61) b) with (Some ("v1", d)). cbv beta iota. by rewrite (TrimSpace_text _ Hd). }
    split_and!; [apply mapM_Some; by repeat constructor|done|repeat constructor; by apply ParseInt64_itoa|].
    change (valuesOf elemV1 [(elemTimestamp, itoa (Unix t)); (elemV1, d)]) with [d]. apply mapM_Some. repeat constructor. unfold readSum, d, sigDigest. rewrite hex_roundtrip.
    fold m. by rewrite Hm.
  - change (hasByte (toByte 44) d = false). apply hex_no_byte. intros n Hn. do 16 (destruct n as [|n]; [by vm_compute|]). lia.
  - change (hasByte (toByte 44) (itoa (Unix t)) = false). apply decimal_no_byte; [done|apply itoa_decimal].
Qed.

(** The signed second, back as a time. *)
Lemma unixTime_Unix t : 0 ≤ t < 2 ^ 63 * Second → unixTime (Unix t) = t - t `mod` Second ∧ in_int64 (Unix t).
Proof.
  intros [H0 H1]. unfold unixTime, Unix. assert (Hq : 0 ≤ t / Second < 2 ^ 63).
  { split; [by apply Z.div_pos|]. apply Z.div_lt_upper_bound; lia. }
  rewrite Z.sub_add, int64_small by (unfold in_int64, minInt64, maxInt64; lia).
  split; [pose proof (Z.div_mod t Second ltac:(done)); lia|]. unfold in_int64, minInt64, maxInt64, unixToInternal. lia.
Qed.

(** C38 (equivalence): A request is accepted exactly if a non-empty configured
    secret signs, for the second its header names, the body as it arrived, that
    second is within the tolerance of the receiver's clock, and the header is
    well-formed: every element is a pair, all timestamps are equal, all digests
    have the size of SHA-256.  Every refusal is a bad signature.  What [Sign]
    writes is accepted by every receiver that has the secret among its own,
    whatever other secrets it has, while the clocks agree up to the tolerance;
    and the text that is signed determines timestamp and body. *)
Theorem webhook_signature_exact header body secrets now tolerance :
  (sigVerify header body secrets now tolerance = inr tt ↔
     ∃ key unix sums, key ∈ secrets ∧ key ≠ "" ∧ headerSays header unix sums ∧ hmac key (signedText unix body) ∈ sums ∧
       - sigTolerance tolerance ≤ subTime now (unixTime unix) ≤ sigTolerance tolerance) ∧
  (∀ e, sigVerify header body secrets now tolerance = inl e → e = ErrBadInboundSignature) ∧
  (∀ secret t, secret ∈ secrets → secret ≠ "" → 0 ≤ t < 2 ^ 63 * Second →
     - sigTolerance tolerance ≤ subTime now (t - t `mod` Second) ≤ sigTolerance tolerance →
     sigVerify (sigSign secret t body) body secrets now tolerance = inr tt) ∧
  (∀ u u' b b', in_int64 u → in_int64 u' → signedText u b = signedText u' b' → u = u' ∧ b = b').
Proof.
  split_and!; [apply sigVerify_spec|apply sigVerify_error| |apply signedText_inj].
  intros secret t Hin Hne Ht Hskew. destruct (unixTime_Unix t Ht) as [Hu Hr]. apply sigVerify_spec.
  exists secret, (Unix t), [hmac secret (signedText (Unix t) body)]. split_and!; [done|done|by apply sigSign_says|by left|rewrite Hu; apply Hskew..].
Qed.
End roundtrip.
End sig.

(** ** An instance *)

(** A stand-in for the MAC: 32 bytes that depend on secret and message. *)
Definition padMAC (k m : string) : string := strTake 32 (k +:+ m +:+ "................................").

Lemma length_padMAC k m : String.length (padMAC k m) = sha256Size.
Proof. unfold padMAC. apply length_strTake. rewrite !length_app_str. unfold sha256Size. cbn [String.length]. lia. Qed.

Definition sampleAt : Time := (unixToInternal + 1700000000) * Second + 5.

Lemma webhook_signature_exact_witness :
  sigVerify padMAC (sigSign padMAC "new" sampleAt "{}") "{}" ["old"; "new"] (sampleAt + 299 * Second) 0 = inr tt ∧
  sigVerify padMAC (sigSign padMAC "new" sampleAt "{}") "{}" ["old"; "new"] (sampleAt + 300 * Second) 0 = inl ErrBadInboundSignature.
Proof.
  split; [|by vm_compute].
  apply (webhook_signature_exact padMAC length_padMAC "" "{}" ["old"; "new"] (sampleAt + 299 * Second) 0).
  - right. by left.
  - done.
  - by vm_compute.
  - by vm_compute.
Defined.
