(* ===== verification/Platform.v ===== *)
(** * The platform catalog ([store/platform.go], [build] of [store/overlay.go])

    The shared transports, domains, senders and mailboxes an operator defines
    in configuration: their data, the normal form of their IDs, the validation
    of the whole catalog, and the virtual rows [WithPlatform] builds from it.
    The catalog is never written to the store ([Overlay]). *)

From S2P Require Import Prelude Enums Model Classify Codec Tokens Email.

(** ** Virtual IDs *)

Definition PlatformIDPrefix : string := "sys:".

Definition IsPlatformID (id : string) : bool := String.prefix PlatformIDPrefix id.

Definition PlatformID (local : string) : string :=
  if strEq local "" || IsPlatformID local then local else PlatformIDPrefix +:+ local.

(** ** Sender uses; [UseKind] is a string *)

Definition UseCampaign : string := "campaign".
Definition UseTransactional : string := "transactional".
Definition UseProbe : string := "probe".

(** [UseKind.Valid] *)
Definition UseKind_Valid (k : string) : bool :=
  strEq k UseCampaign || strEq k UseTransactional || strEq k UseProbe.

Definition DefaultSenderUses : list string := [UseCampaign; UseTransactional].

(** ** The catalog *)

Record PlatformTransport := mkPlatformTransport {
  pt_ID : string;
  pt_Name : string;
  pt_Host : string;
  pt_Port : Z;
  pt_TLS : string;
  pt_Username : string;
  pt_Password : string;
  pt_MaxConns : Z;
  pt_RatePerSecond : float64;
  pt_PerTenantRatePerSecond : float64;
  pt_DomainRatePerSecond : gmap string float64;
}.
#[global] Instance PlatformTransport_eta : Eta PlatformTransport := λ r,
  mkPlatformTransport (pt_ID r) (pt_Name r) (pt_Host r) (pt_Port r) (pt_TLS r) (pt_Username r)
    (pt_Password r) (pt_MaxConns r) (pt_RatePerSecond r) (pt_PerTenantRatePerSecond r)
    (pt_DomainRatePerSecond r).
#[global] Instance PlatformTransport_zero : Zero PlatformTransport :=
  mkPlatformTransport "" "" "" 0 "" "" "" 0 (S754_zero false) (S754_zero false) ∅.

Record PlatformDomain := mkPlatformDomain {
  pd_ID : string;
  pd_Domain : string;
  pd_DKIMSelector : string;
  pd_DKIMPrivateKey : string;
  pd_ReturnPathDomain : string;
  pd_ExpectedSPF : string;
  pd_OutboundIPs : list string;
}.
#[global] Instance PlatformDomain_eta : Eta PlatformDomain := λ r,
  mkPlatformDomain (pd_ID r) (pd_Domain r) (pd_DKIMSelector r) (pd_DKIMPrivateKey r)
    (pd_ReturnPathDomain r) (pd_ExpectedSPF r) (pd_OutboundIPs r).
#[global] Instance PlatformDomain_zero : Zero PlatformDomain := mkPlatformDomain "" "" "" "" "" "" [].

Record PlatformSender := mkPlatformSender {
  ps_ID : string;
  ps_Name : string;
  ps_TransportID : string;
  ps_DomainID : string;
  ps_FromName : string;
  ps_FromEmail : string;
  ps_ReplyTo : string;
  ps_Uses : list string;
  ps_ProbeVars : gmap string Any;
}.
#[global] Instance PlatformSender_eta : Eta PlatformSender := λ r,
  mkPlatformSender (ps_ID r) (ps_Name r) (ps_TransportID r) (ps_DomainID r) (ps_FromName r)
    (ps_FromEmail r) (ps_ReplyTo r) (ps_Uses r) (ps_ProbeVars r).
#[global] Instance PlatformSender_zero : Zero PlatformSender := mkPlatformSender "" "" "" "" "" "" "" [] ∅.

(** A [*bool] is an option. *)
Record PlatformProbeMailbox := mkPlatformProbeMailbox {
  pp_ID : string;
  pp_Name : string;
  pp_Kind : string;
  pp_Address : string;
  pp_Host : string;
  pp_Port : Z;
  pp_TLS : string;
  pp_Username : string;
  pp_Password : string;
  pp_InboxFolder : string;
  pp_SpamFolder : string;
  pp_AuthServID : string;
  pp_Enabled : option bool;
}.
#[global] Instance PlatformProbeMailbox_eta : Eta PlatformProbeMailbox := λ r,
  mkPlatformProbeMailbox (pp_ID r) (pp_Name r) (pp_Kind r) (pp_Address r) (pp_Host r) (pp_Port r)
    (pp_TLS r) (pp_Username r) (pp_Password r) (pp_InboxFolder r) (pp_SpamFolder r) (pp_AuthServID r)
    (pp_Enabled r).
#[global] Instance PlatformProbeMailbox_zero : Zero PlatformProbeMailbox :=
  mkPlatformProbeMailbox "" "" "" "" "" 0 "" "" "" "" "" "" None.

Record PlatformBounceMailbox := mkPlatformBounceMailbox {
  pb_ID : string;
  pb_Name : string;
  pb_Address : string;
  pb_Protocol : string;
  pb_Host : string;
  pb_Port : Z;
  pb_TLS : string;
  pb_Username : string;
  pb_Password : string;
  pb_Folder : string;
  pb_AfterProcess : string;
  pb_Enabled : option bool;
}.
#[global] Instance PlatformBounceMailbox_eta : Eta PlatformBounceMailbox := λ r,
  mkPlatformBounceMailbox (pb_ID r) (pb_Name r) (pb_Address r) (pb_Protocol r) (pb_Host r) (pb_Port r)
    (pb_TLS r) (pb_Username r) (pb_Password r) (pb_Folder r) (pb_AfterProcess r) (pb_Enabled r).
#[global] Instance PlatformBounceMailbox_zero : Zero PlatformBounceMailbox :=
  mkPlatformBounceMailbox "" "" "" "" "" 0 "" "" "" "" "" None.

Record PlatformCatalog := mkPlatformCatalog {
  pc_Transports : list PlatformTransport;
  pc_Domains : list PlatformDomain;
  pc_Senders : list PlatformSender;
  pc_ProbeMailboxes : list PlatformProbeMailbox;
  pc_BounceMailboxes : list PlatformBounceMailbox;
  pc_TrackingDomain : string;
  pc_UnsubscribeURLTemplate : string;
}.
#[global] Instance PlatformCatalog_eta : Eta PlatformCatalog := λ r,
  mkPlatformCatalog (pc_Transports r) (pc_Domains r) (pc_Senders r) (pc_ProbeMailboxes r)
    (pc_BounceMailboxes r) (pc_TrackingDomain r) (pc_UnsubscribeURLTemplate r).
#[global] Instance PlatformCatalog_zero : Zero PlatformCatalog := mkPlatformCatalog [] [] [] [] [] "" "".

(** [Empty] *)
Definition PlatformCatalog_Empty (c : PlatformCatalog) : bool :=
  (len (pc_Transports c) =? 0) && (len (pc_Domains c) =? 0) && (len (pc_Senders c) =? 0) &&
  (len (pc_ProbeMailboxes c) =? 0) && (len (pc_BounceMailboxes c) =? 0) &&
  strEq (pc_TrackingDomain c) "" && strEq (pc_UnsubscribeURLTemplate c) "".

(** [Normalize] *)
Definition PlatformCatalog_Normalize (c : PlatformCatalog) : PlatformCatalog :=
  c <| pc_Transports := (λ v, v <| pt_ID := PlatformID (pt_ID v) |>) <$> pc_Transports c |>
    <| pc_Domains := (λ v, v <| pd_ID := PlatformID (pd_ID v) |>) <$> pc_Domains c |>
    <| pc_Senders := (λ v, v <| ps_ID := PlatformID (ps_ID v) |>
                             <| ps_TransportID := PlatformID (ps_TransportID v) |>
                             <| ps_DomainID := PlatformID (ps_DomainID v) |>) <$> pc_Senders c |>
    <| pc_ProbeMailboxes := (λ v, v <| pp_ID := PlatformID (pp_ID v) |>) <$> pc_ProbeMailboxes c |>
    <| pc_BounceMailboxes := (λ v, v <| pb_ID := PlatformID (pb_ID v) |>) <$> pc_BounceMailboxes c |>.

(** ** Validation *)

(** [strings.TrimPrefix] *)
Definition TrimPrefix (s prefix : string) : string :=
  if String.prefix prefix s then strDrop (String.length prefix) s else s.

(** The body of the loop of [validPlatformLocalID] over the bytes from [i]. *)
Fixpoint validLocalFrom (i : Z) (s : string) : bool :=
  match s with
  | EmptyString => true
  | String c s' =>
      let c := byteVal c in
      (((97 <=? c) && (c <=? 122) || (48 <=? c) && (c <=? 57)) ||
       ((c =? 45) || (c =? 95)) && (0 <? i)) && validLocalFrom (i + 1) s'
  end.

Definition validPlatformLocalID (s : string) : bool :=
  if (strLen s =? 0) || (63 <? strLen s) then false else validLocalFrom 0 s.

Definition TLSNone : string := "none".
Definition TLSSTARTTLS : string := "starttls".
Definition TLSImplicit : string := "tls".

Definition validTLS (m : string) : bool :=
  strEq m "" || strEq m TLSNone || strEq m TLSSTARTTLS || strEq m TLSImplicit.

Definition ProbeMailboxIMAP : string := "imap".
Definition ProbeMailboxWebhook : string := "webhook".

(** [ProbeMailboxKind.Normalized] and [Valid] ([store/probe.go]) *)
Definition Kind_Normalized (k : string) : string := if strEq k "" then ProbeMailboxIMAP else k.

Definition Kind_Valid (k : string) : bool :=
  strEq (Kind_Normalized k) ProbeMailboxIMAP || strEq (Kind_Normalized k) ProbeMailboxWebhook.

(** One problem of the catalog: the list and the index it is in, and what is
    wrong there (the values the message quotes are left out). *)
Record problem := mkProblem { pb_where : string; pb_index : Z; pb_what : string }.

(** [add(...)] under a condition *)
Definition addIf (b : bool) (where_ : string) (i : Z) (what : string) : list problem :=
  if b then [mkProblem where_ i what] else [].

(** [checkPlatformID]: the problems added and the IDs seen. *)
Definition checkPlatformID (where_ : string) (i : Z) (id : string) (seen : gset string)
    : list problem * gset string :=
  let local := TrimPrefix id PlatformIDPrefix in
  if strEq local "" then ([mkProblem where_ i "id is required"], seen)
  else if negb (validPlatformLocalID local) then ([mkProblem where_ i "id is malformed"], seen)
  else if bool_decide (id ∈ seen) then ([mkProblem where_ i "id is already used"], seen)
  else ([], {[id]} ∪ seen).

(** [for i, v := range vs { checkPlatformID(..., seen); ... }] *)
Fixpoint checkAll {V} (where_ : string) (id : V → string) (body : Z → V → list problem)
    (i : Z) (vs : list V) (seen : gset string) : list problem * gset string :=
  match vs with
  | [] => ([], seen)
  | v :: vs' =>
      let '(errs, seen) := checkPlatformID where_ i (id v) seen in
      let '(errs', seen) := checkAll where_ id body (i + 1) vs' seen in
      (errs ++ body i v ++ errs', seen)
  end.

(** [strings.TrimSpace(s) == ""] *)
Definition blank (s : string) : bool := strEq (TrimSpace s) "".

Definition badPort (p : Z) : bool := (p <=? 0) || (65535 <? p).

(** [f < 0] *)
Definition f64Neg (f : float64) : bool := SFltb f (S754_zero false).

Definition checkTransport (i : Z) (t : PlatformTransport) : list problem :=
  let w := "platform.transports" in
  addIf (blank (pt_Name t)) w i "name is required" ++
  addIf (blank (pt_Host t)) w i "host is required" ++
  addIf (badPort (pt_Port t)) w i "port must be between 1 and 65535" ++
  addIf (negb (validTLS (pt_TLS t))) w i "tls is not none, starttls or tls" ++
  addIf (f64Neg (pt_RatePerSecond t) || f64Neg (pt_PerTenantRatePerSecond t) || (pt_MaxConns t <? 0)) w i
    "has a negative rate or connection count".

Definition checkDomain (i : Z) (d : PlatformDomain) : list problem :=
  let w := "platform.domains" in
  addIf (blank (pd_Domain d)) w i "domain is required" ++
  addIf (negb (strEq (pd_DKIMPrivateKey d) "") && strEq (pd_DKIMSelector d) "") w i "has a DKIM key but no selector".

Definition checkSender (transports domains : gset string) (i : Z) (s : PlatformSender) : list problem :=
  let w := "platform.senders" in
  addIf (blank (ps_Name s)) w i "name is required" ++
  addIf (blank (ps_FromEmail s)) w i "from_email is required" ++
  (if strEq (ps_TransportID s) "" then [mkProblem w i "transport_id is required"]
   else addIf (negb (bool_decide (ps_TransportID s ∈ transports))) w i "transport_id names no platform transport") ++
  addIf (negb (strEq (ps_DomainID s) "") && negb (bool_decide (ps_DomainID s ∈ domains))) w i
    "domain_id names no platform domain" ++
  mjoin ((λ u, addIf (negb (UseKind_Valid u)) w i "uses is not campaign, transactional or probe") <$> ps_Uses s).

Definition checkProbeMailbox (i : Z) (m : PlatformProbeMailbox) : list problem :=
  let w := "platform.probe_mailboxes" in
  addIf (blank (pp_Address m)) w i "address is required" ++
  addIf (negb (Kind_Valid (pp_Kind m))) w i "kind is not imap or webhook" ++
  (if strEq (Kind_Normalized (pp_Kind m)) ProbeMailboxIMAP then
     addIf (blank (pp_Host m)) w i "host is required for an imap mailbox" ++
     addIf (badPort (pp_Port m)) w i "port must be between 1 and 65535"
   else []) ++
  addIf (negb (validTLS (pp_TLS m))) w i "tls is not none, starttls or tls".

(** [lower] is [strings.ToLower]. *)
Definition checkBounceMailbox (lower : string → string) (i : Z) (m : PlatformBounceMailbox) : list problem :=
  let w := "platform.bounce_mailboxes" in
  addIf (blank (pb_Host m)) w i "host is required" ++
  addIf (badPort (pb_Port m)) w i "port must be between 1 and 65535" ++
  addIf (negb (validTLS (pb_TLS m))) w i "tls is not none, starttls or tls" ++
  addIf (negb (contains ["imap"; "pop3"; ""] (lower (TrimSpace (pb_Protocol m))))) w i "protocol is not imap or pop3".

(** [Validate]: the problems, none for a valid catalog. *)
Definition Validate (lower : string → string) (c : PlatformCatalog) : list problem :=
  let c := PlatformCatalog_Normalize c in
  let '(e1, transports) := checkAll "platform.transports" pt_ID checkTransport 0 (pc_Transports c) ∅ in
  let '(e2, domains) := checkAll "platform.domains" pd_ID checkDomain 0 (pc_Domains c) ∅ in
  let '(e3, _) := checkAll "platform.senders" ps_ID (checkSender transports domains) 0 (pc_Senders c) ∅ in
  let '(e4, mailboxes) := checkAll "platform.probe_mailboxes" pp_ID checkProbeMailbox 0 (pc_ProbeMailboxes c) ∅ in
  let '(e5, _) := checkAll "platform.bounce_mailboxes" pb_ID (checkBounceMailbox lower) 0
                    (pc_BounceMailboxes c) mailboxes in
  e1 ++ e2 ++ e3 ++ e4 ++ e5.

(** ** Lookups *)

(** [for _, v := range vs { if v.ID == id { return v, true } }] *)
Definition findID {V} (idOf : V → string) (id : string) (vs : list V) : option V :=
  snd <$> list_find (λ v, idOf v = id) vs.

(** [Sender], [Transport], [Domain] *)
Definition catSender (c : PlatformCatalog) (id : string) : option PlatformSender := findID ps_ID id (pc_Senders c).
Definition catTransport (c : PlatformCatalog) (id : string) : option PlatformTransport :=
  findID pt_ID id (pc_Transports c).
Definition catDomain (c : PlatformCatalog) (id : string) : option PlatformDomain := findID pd_ID id (pc_Domains c).

Definition SenderUses (c : PlatformCatalog) (id : string) : list string :=
  match catSender c id with
  | None => []
  | Some s => if len (ps_Uses s) =? 0 then DefaultSenderUses else ps_Uses s
  end.

(** ** The virtual rows *)

(** What [WithPlatform] makes of a catalog; the wrapped provider is the state
    the overlay's programs run on. *)
Record platformProvider := mkPlatformProvider {
  vp_cat : PlatformCatalog;
  vp_err : option error;
  vp_transports : list Transport;
  vp_domains : list SendingDomain;
  vp_senders : list Sender;
  vp_probeBoxes : list ProbeMailbox;
  vp_bounceBoxes : list BounceMailbox;
}.

Definition defaultTLS (m : string) : string := if strEq m "" then TLSSTARTTLS else m.

Definition enabledOr (p : option bool) (def : bool) : bool :=
  match p with None => def | Some b => b end.

(** [Encrypt] of a [SecretCipher]: the bytes and the error it returns. *)
Definition Encrypt : Type := string → string * option error.

(** [enc]: the secret as it is handed out, and the first error so far. *)
Definition enc (cipher : option Encrypt) (s : string) (err : option error) : string * option error :=
  if strEq s "" then ("", err)
  else
    match cipher with
    | None => (s, err)
    | Some encrypt =>
        let '(b, e) := encrypt s in
        (b, match err with Some _ => err | None => e end)
    end.

(** [for _, v := range vs { out = append(out, f(v)) }], the error threaded through. *)
Fixpoint buildAll {V W} (f : V → option error → W * option error) (vs : list V) (err : option error)
    : list W * option error :=
  match vs with
  | [] => ([], err)
  | v :: vs' =>
      let '(w, err) := f v err in
      let '(ws, err) := buildAll f vs' err in
      (w :: ws, err)
  end.

Section build.
Context (cipher : option Encrypt) (at_ : Time).

Definition buildTransport (t : PlatformTransport) (err : option error) : Transport * option error :=
  let '(pw, err) := enc cipher (pt_Password t) err in
  (zero <| tr_ID := pt_ID t |> <| tr_TenantID := SystemTenantID |> <| tr_Name := pt_Name t |>
        <| tr_Host := pt_Host t |> <| tr_Port := pt_Port t |> <| tr_TLS := defaultTLS (pt_TLS t) |>
        <| tr_Username := pt_Username t |> <| tr_Password := pw |>
        <| tr_MaxConns := pt_MaxConns t |> <| tr_RatePerSecond := pt_RatePerSecond t |>
        <| tr_DomainRatePerSecond := pt_DomainRatePerSecond t |>
        <| tr_Shared := true |>
        <| tr_Status := TransportHealthy |>
        <| tr_CreatedAt := at_ |> <| tr_UpdatedAt := at_ |>, err).

Definition buildDomain (d : PlatformDomain) (err : option error) : SendingDomain * option error :=
  let '(key, err) := enc cipher (pd_DKIMPrivateKey d) err in
  (zero <| sd_ID := pd_ID d |> <| sd_TenantID := SystemTenantID |> <| sd_Domain := pd_Domain d |>
        <| sd_DKIMSelector := pd_DKIMSelector d |>
        <| sd_DKIMPrivateKey := key |>
        <| sd_ReturnPathDomain := pd_ReturnPathDomain d |> <| sd_ExpectedSPF := pd_ExpectedSPF d |>
        <| sd_OutboundIPs := pd_OutboundIPs d |>
        <| sd_Shared := true |>
        <| sd_CreatedAt := at_ |> <| sd_UpdatedAt := at_ |>, err).

Definition buildSender (s : PlatformSender) : Sender :=
  zero <| s_ID := ps_ID s |> <| s_TenantID := SystemTenantID |> <| s_Name := ps_Name s |>
       <| s_FromName := ps_FromName s |> <| s_FromEmail := ps_FromEmail s |> <| s_ReplyTo := ps_ReplyTo s |>
       <| s_TransportID := ps_TransportID s |> <| s_DomainID := ps_DomainID s |>
       <| s_Shared := true |>
       <| s_CreatedAt := at_ |> <| s_UpdatedAt := at_ |>.

Definition buildProbeMailbox (m : PlatformProbeMailbox) (err : option error) : ProbeMailbox * option error :=
  let '(pw, err) := enc cipher (pp_Password m) err in
  (zero <| pm_ID := pp_ID m |> <| pm_TenantID := SystemTenantID |> <| pm_Name := pp_Name m |>
        <| pm_Kind := Kind_Normalized (pp_Kind m) |> <| pm_Address := pp_Address m |>
        <| pm_Host := pp_Host m |> <| pm_Port := pp_Port m |> <| pm_TLS := defaultTLS (pp_TLS m) |>
        <| pm_Username := pp_Username m |> <| pm_Password := pw |>
        <| pm_InboxFolder := pp_InboxFolder m |> <| pm_SpamFolder := pp_SpamFolder m |>
        <| pm_AuthServID := pp_AuthServID m |> <| pm_Enabled := enabledOr (pp_Enabled m) true |>
        <| pm_Shared := true |>
        <| pm_CreatedAt := at_ |> <| pm_UpdatedAt := at_ |>, err).

Definition buildBounceMailbox (m : PlatformBounceMailbox) (err : option error) : BounceMailbox * option error :=
  let '(pw, err) := enc cipher (pb_Password m) err in
  (zero <| bm_ID := pb_ID m |> <| bm_TenantID := SystemTenantID |> <| bm_Name := pb_Name m |>
        <| bm_Address := pb_Address m |> <| bm_Protocol := pb_Protocol m |>
        <| bm_Host := pb_Host m |> <| bm_Port := pb_Port m |> <| bm_TLS := defaultTLS (pb_TLS m) |>
        <| bm_Username := pb_Username m |> <| bm_Password := pw |>
        <| bm_Folder := pb_Folder m |> <| bm_AfterProcess := pb_AfterProcess m |>
        <| bm_Enabled := enabledOr (pb_Enabled m) true |>
        <| bm_Shared := true |>
        <| bm_CreatedAt := at_ |> <| bm_UpdatedAt := at_ |>, err).

(** [build] *)
Definition build (cat : PlatformCatalog) : platformProvider :=
  let '(ts, err) := buildAll buildTransport (pc_Transports cat) None in
  let '(ds, err) := buildAll buildDomain (pc_Domains cat) err in
  let ss := buildSender <$> pc_Senders cat in
  let '(ps, err) := buildAll buildProbeMailbox (pc_ProbeMailboxes cat) err in
  let '(bs, err) := buildAll buildBounceMailbox (pc_BounceMailboxes cat) err in
  mkPlatformProvider cat err ts ds ss ps bs.
End build.

(** [WithPlatform] of a provider that is not wrapped yet, at clock reading [now]. *)
Definition WithPlatform (cfg : PlatformCatalog) (cipher : option Encrypt) (now : Time) : platformProvider :=
  build cipher (TruncateTime now) (PlatformCatalog_Normalize cfg).

(** ** Properties *)

Lemma PlatformID_platform id : PlatformID id ≠ "" → IsPlatformID (PlatformID id) = true.
Proof.
  unfold PlatformID, strEq. case_bool_decide as He; [by subst|]. cbn [orb].
  destruct (IsPlatformID id) eqn:Hp; [done|]. intros _. apply prefix_app.
Qed.

Lemma findID_Some {V} (idOf : V → string) id vs v :
  findID idOf id vs = Some v → idOf v = id ∧ v ∈ vs.
Proof.
  unfold findID. destruct (list_find _ vs) as [[i w]|] eqn:Hf; [|done]. intros [= <-].
  apply list_find_Some in Hf as (Hi&Hv&_). split; [done|]. by eapply list_elem_of_lookup_2.
Qed.

Lemma findID_is_Some {V} (idOf : V → string) id vs : is_Some (findID idOf id vs) ↔ id ∈ idOf <$> vs.
Proof.
  rewrite list_elem_of_fmap. split.
  - intros [v [Hv Hin]%findID_Some]. by exists v.
  - intros (v&->&Hin). unfold findID. destruct (list_find_elem_of (λ w, idOf w = idOf v) vs v Hin eq_refl) as [p ->].
    by eexists.
Qed.

(** Lists built entry by entry are searched alike. *)
Lemma findID_Forall2 {V W} (R : V → W → Prop) (f : V → string) (g : W → string) id vs ws v :
  Forall2 R vs ws → (∀ v w, R v w → g w = f v) → findID f id vs = Some v →
  ∃ w, findID g id ws = Some w ∧ R v w.
Proof.
  intros HR Hfg. unfold findID. induction HR as [|x y vs ws Hxy _ IH]; cbn; [done|].
  rewrite (Hfg _ _ Hxy). destruct (decide (f x = id)) as [He|He]; cbn; [intros [= <-]; eauto|].
  destruct (list_find (λ v, f v = id) vs) as [[i v']|]; cbn in *; [|done]. intros [= ->].
  destruct (IH eq_refl) as (w&Hw&HR'). exists w. split; [|done].
  by destruct (list_find (λ v, g v = id) ws) as [[j w']|].
Qed.

Lemma findID_NoDup {V} (f : V → string) vs v : NoDup (f <$> vs) → v ∈ vs → findID f (f v) vs = Some v.
Proof.
  intros Hnd Hin. destruct (proj2 (findID_is_Some f (f v) vs)) as [w Hw]; [by apply list_elem_of_fmap_2|].
  rewrite Hw. f_equal. apply findID_Some in Hw as [He Hw].
  apply list_elem_of_lookup in Hin as [i Hi], Hw as [j Hj].
  assert (i = j) as <-; [|congruence]. eapply (NoDup_lookup _ _ _ (f v) Hnd); rewrite list_lookup_fmap.
  - by rewrite Hi.
  - by rewrite Hj; cbn; rewrite He.
Qed.

(** An ID that is a URL path segment as it is: a non-empty local part of the
    restricted alphabet behind the prefix. *)
Definition validID (id : string) : Prop := validPlatformLocalID (TrimPrefix id PlatformIDPrefix) = true.

Lemma checkPlatformID_nil w i id seen seen' :
  checkPlatformID w i id seen = ([], seen') → id ∉ seen ∧ validID id ∧ seen' = {[id]} ∪ seen.
Proof.
  unfold checkPlatformID, strEq, validID. case_bool_decide; [done|].
  destruct (validPlatformLocalID _); [|done]. cbn [negb]. case_bool_decide; [done|]. by intros [= <-].
Qed.

Lemma checkAll_nil {V} w (id : V → string) body i vs seen seen' :
  checkAll w id body i vs seen = ([], seen') →
  NoDup (id <$> vs) ∧ Forall (λ v, validID (id v) ∧ id v ∉ seen) vs ∧
  (∀ x, x ∈ seen' ↔ x ∈ id <$> vs ∨ x ∈ seen) ∧ Forall (λ v, ∃ k, body k v = []) vs.
Proof.
  revert i seen. induction vs as [|v vs IH]; intros i seen; cbn [checkAll].
  { intros [= <-]. split_and!; [constructor..| |constructor]. set_solver. }
  destruct (checkPlatformID w i (id v) seen) as [e1 s1] eqn:H1.
  destruct (checkAll w id body (i + 1) vs s1) as [e2 s2] eqn:H2.
  intros [= He <-]. apply app_nil in He as [-> He]. apply app_nil in He as [Hb ->].
  apply checkPlatformID_nil in H1 as (Hns&Hv&->). destruct (IH _ _ H2) as (Hnd&Hall&Hs&Hbs).
  rewrite fmap_cons. split_and!.
  - constructor; [|done]. intros Hin. apply list_elem_of_fmap in Hin as (u&Hu&Hin).
    rewrite Forall_forall in Hall. destruct (Hall u Hin) as [_ Hnot]. rewrite <- Hu in Hnot. set_solver.
  - constructor; [done|]. eapply Forall_impl; [exact Hall|]. cbn. intros u [? ?]. split; [done|set_solver].
  - intros x. rewrite Hs, elem_of_cons, elem_of_union, elem_of_singleton. tauto.
  - constructor; [by exists i|done].
Qed.

Lemma addIf_nil b w i s : addIf b w i s = [] → b = false.
Proof. by destruct b. Qed.

(** What validation establishes of a normalized catalog. *)
Record catalogOk (c : PlatformCatalog) : Prop := {
  co_transports : NoDup (pt_ID <$> pc_Transports c);
  co_domains : NoDup (pd_ID <$> pc_Domains c);
  co_senders : NoDup (ps_ID <$> pc_Senders c);
  co_mailboxes : NoDup ((pp_ID <$> pc_ProbeMailboxes c) ++ (pb_ID <$> pc_BounceMailboxes c));
  co_valid id :
    id ∈ (pt_ID <$> pc_Transports c) ++ (pd_ID <$> pc_Domains c) ++ (ps_ID <$> pc_Senders c) ++
         (pp_ID <$> pc_ProbeMailboxes c) ++ (pb_ID <$> pc_BounceMailboxes c) →
    IsPlatformID id = true ∧ validID id;
  co_transport s : s ∈ pc_Senders c → is_Some (catTransport c (ps_TransportID s));
  co_domain s : s ∈ pc_Senders c → ps_DomainID s = "" ∨ is_Some (catDomain c (ps_DomainID s));
  co_ports : Forall (λ t, 1 ≤ pt_Port t ≤ 65535 ∧ pt_Host t ≠ "") (pc_Transports c);
}.

Lemma validID_nonempty id : validID id → id ≠ "".
Proof. by intros H ->. Qed.

Lemma Normalize_ids c id :
  let c := PlatformCatalog_Normalize c in
  id ∈ (pt_ID <$> pc_Transports c) ++ (pd_ID <$> pc_Domains c) ++ (ps_ID <$> pc_Senders c) ++
       (pp_ID <$> pc_ProbeMailboxes c) ++ (pb_ID <$> pc_BounceMailboxes c) → ∃ l, id = PlatformID l.
Proof.
  cbn. rewrite <- !list_fmap_compose, !elem_of_app, !list_elem_of_fmap. naive_solver.
Qed.

Lemma blank_nonempty s : blank s = false → s ≠ "".
Proof. by intros H ->. Qed.

Lemma checkTransport_nil k t : checkTransport k t = [] → 1 ≤ pt_Port t ≤ 65535 ∧ pt_Host t ≠ "".
Proof.
  unfold checkTransport. intros [_ [Hh%addIf_nil [Hp%addIf_nil _]%app_nil]%app_nil]%app_nil.
  unfold badPort in Hp. apply orb_false_iff in Hp as [Hp1%Z.leb_gt Hp2%Z.ltb_ge].
  split; [lia|by apply blank_nonempty].
Qed.

Lemma checkSender_nil ts ds k s :
  checkSender ts ds k s = [] → ps_TransportID s ∈ ts ∧ (ps_DomainID s = "" ∨ ps_DomainID s ∈ ds).
Proof.
  unfold checkSender. intros [_ [_ [Ht [Hd%addIf_nil _]%app_nil]%app_nil]%app_nil]%app_nil. split.
  - destruct (strEq (ps_TransportID s) ""); [done|]. by apply addIf_nil, negb_false_iff, bool_decide_eq_true in Ht.
  - unfold strEq in Hd. repeat case_bool_decide; naive_solver.
Qed.

(** A catalog [Validate] finds no problem in is well-formed. *)
Lemma Validate_ok lower c : Validate lower c = [] → catalogOk (PlatformCatalog_Normalize c).
Proof.
  pose proof (Normalize_ids c) as Hids. cbv zeta in Hids.
  unfold Validate. set (n := PlatformCatalog_Normalize c) in *. clearbody n.
  destruct (checkAll _ pt_ID _ _ _ _) as [e1 ts] eqn:H1. destruct (checkAll _ pd_ID _ _ _ _) as [e2 ds] eqn:H2.
  destruct (checkAll _ ps_ID _ _ _ _) as [e3 ss] eqn:H3. destruct (checkAll _ pp_ID _ _ _ _) as [e4 ms] eqn:H4.
  destruct (checkAll _ pb_ID _ _ _ _) as [e5 ms'] eqn:H5.
  intros [-> [-> [-> [-> ->]%app_nil]%app_nil]%app_nil]%app_nil.
  apply checkAll_nil in H1 as (N1&V1&S1&B1), H2 as (N2&V2&S2&B2), H3 as (N3&V3&_&B3),
    H4 as (N4&V4&S4&B4), H5 as (N5&V5&_&B5).
  rewrite Forall_forall in V1. rewrite Forall_forall in V2. rewrite Forall_forall in V3.
  rewrite Forall_forall in V4. rewrite Forall_forall in V5. rewrite Forall_forall in B3.
  assert (Hval : ∀ id, id ∈ (pt_ID <$> pc_Transports n) ++ (pd_ID <$> pc_Domains n) ++ (ps_ID <$> pc_Senders n) ++
      (pp_ID <$> pc_ProbeMailboxes n) ++ (pb_ID <$> pc_BounceMailboxes n) → validID id).
  { intros id. rewrite !elem_of_app, !list_elem_of_fmap.
    intros [(v&->&Hv)|[(v&->&Hv)|[(v&->&Hv)|[(v&->&Hv)|(v&->&Hv)]]]];
      [by apply V1|by apply V2|by apply V3|by apply V4|by apply V5]. }
  split; [done..| |  | | |].
  - apply NoDup_app. split_and!; [done| |done]. intros x Hx Hx'. apply list_elem_of_fmap in Hx' as (v&->&Hv).
    destruct (V5 v Hv) as [_ Hn]. apply Hn, S4. by left.
  - intros id Hid. split; [|by apply Hval]. destruct (Hids id Hid) as [l ->].
    apply PlatformID_platform. by apply validID_nonempty, Hval.
  - intros s Hs. destruct (B3 s Hs) as [k Hk]. apply checkSender_nil in Hk as [Ht _].
    apply findID_is_Some. apply S1 in Ht as [Ht|Ht]; [done|set_solver].
  - intros s Hs. destruct (B3 s Hs) as [k Hk]. apply checkSender_nil in Hk as [_ [Hd|Hd]]; [by left|right].
    apply findID_is_Some. apply S2 in Hd as [Hd|Hd]; [done|set_solver].
  - eapply Forall_impl; [exact B1|]. intros t [k Hk]. by eapply checkTransport_nil.
Qed.

(** *** What [build] keeps of the catalog *)

Lemma buildAll_built {V W} (f : V → option error → W * option error) vs err :
  Forall2 (λ v w, ∃ e, w = (f v e).1) vs (buildAll f vs err).1.
Proof.
  revert err. induction vs as [|v vs IH]; intros err; cbn [buildAll]; [constructor|].
  destruct (f v err) as [w e] eqn:Hf. specialize (IH e).
  destruct (buildAll f vs e) as [ws e']. constructor; [exists err; by rewrite Hf|done].
Qed.

Lemma build_fields cipher at_ c :
  let o := build cipher at_ c in
  vp_cat o = c ∧
  Forall2 (λ v w, ∃ e, w = (buildTransport cipher at_ v e).1) (pc_Transports c) (vp_transports o) ∧
  Forall2 (λ v w, ∃ e, w = (buildDomain cipher at_ v e).1) (pc_Domains c) (vp_domains o) ∧
  vp_senders o = buildSender at_ <$> pc_Senders c ∧
  Forall2 (λ v w, ∃ e, w = (buildProbeMailbox cipher at_ v e).1) (pc_ProbeMailboxes c) (vp_probeBoxes o) ∧
  Forall2 (λ v w, ∃ e, w = (buildBounceMailbox cipher at_ v e).1) (pc_BounceMailboxes c) (vp_bounceBoxes o).
Proof.
  cbv zeta. unfold build.
  pose proof (λ e, buildAll_built (buildTransport cipher at_) (pc_Transports c) e) as Ht.
  pose proof (λ e, buildAll_built (buildDomain cipher at_) (pc_Domains c) e) as Hd.
  pose proof (λ e, buildAll_built (buildProbeMailbox cipher at_) (pc_ProbeMailboxes c) e) as Hp.
  pose proof (λ e, buildAll_built (buildBounceMailbox cipher at_) (pc_BounceMailboxes c) e) as Hb.
  specialize (Ht None). destruct (buildAll (buildTransport _ _) _ _) as [ts e1].
  specialize (Hd e1). destruct (buildAll (buildDomain _ _) _ _) as [ds e2].
  specialize (Hp e2). destruct (buildAll (buildProbeMailbox _ _) _ _) as [ps e3].
  specialize (Hb e3). destruct (buildAll (buildBounceMailbox _ _) _ _) as [bs e4].
  done.
Qed.

Lemma Forall2_fmap_eq {V W A} (f : V → A) (g : W → A) vs ws :
  Forall2 (λ v w, g w = f v) vs ws → g <$> ws = f <$> vs.
Proof. induction 1 as [|v w vs ws Hv _ IH]; [done|]. rewrite !fmap_cons. by f_equal. Qed.

(** The virtual rows have the catalog's IDs. *)
Lemma build_ids cipher at_ c :
  let o := build cipher at_ c in
  tr_ID <$> vp_transports o = pt_ID <$> pc_Transports c ∧ sd_ID <$> vp_domains o = pd_ID <$> pc_Domains c ∧
  s_ID <$> vp_senders o = ps_ID <$> pc_Senders c ∧ pm_ID <$> vp_probeBoxes o = pp_ID <$> pc_ProbeMailboxes c ∧
  bm_ID <$> vp_bounceBoxes o = pb_ID <$> pc_BounceMailboxes c.
Proof.
  cbv zeta. destruct (build_fields cipher at_ c) as (_&Ht&Hd&Hs&Hp&Hb).
  split_and!; [| |by rewrite Hs, <- list_fmap_compose| |];
    apply Forall2_fmap_eq; (eapply Forall2_impl; [eassumption|]); intros v w [e ->];
    unfold buildTransport, buildDomain, buildProbeMailbox, buildBounceMailbox; by destruct (enc _ _ _).
Qed.
