(* ===== verification/BounceReport.v ===== *)
(** * Reading a bounce mail ([internal/bounce/parse.go], [classify.go])

    A raw message becomes a [Parsed]: what happened, to whom, and to which
    delivery.  The MIME walk, the report fields, the classification tables and
    the correlation are translated; what Go's [net/mail], [mime], [textproto]
    and Unicode tables compute is the record [mimeLib], an argument. *)

From S2P Require Import Prelude Enums Model Classify Codec Tokens Email.

(** ** Strings *)

Fixpoint trimLeftSet (cut : list Ascii.ascii) (s : string) : string :=
  match s with
  | EmptyString => ""
  | String c s' => if contains cut c then trimLeftSet cut s' else s
  end.

Fixpoint trimRightSet (cut : list Ascii.ascii) (s : string) : string :=
  match s with
  | EmptyString => ""
  | String c s' =>
      match trimRightSet cut s' with
      | EmptyString => if contains cut c then "" else String c ""
      | r => String c r
      end
  end.

(** [strings.Trim(s, cut)] for a set of ASCII characters. *)
Definition Trim (cut : list Ascii.ascii) (s : string) : string := trimRightSet cut (trimLeftSet cut s).

Definition angles : list Ascii.ascii := [toByte 60; toByte 62].

(** [strings.Fields]; the separators of a header line are the ASCII spaces and
    the wide ones. *)
Fixpoint fieldsFrom (fuel : nat) (cur s : string) : list string :=
  let emit := if strEq cur "" then [] else [cur] in
  match fuel with
  | O => emit
  | S fuel =>
      match s with
      | EmptyString => emit
      | String c s' =>
          match leadingSpace s with
          | O => fieldsFrom fuel (cur +:+ String c "") s'
          | n => emit ++ fieldsFrom fuel "" (strDrop n s)
          end
      end
  end.
Definition Fields (s : string) : list string := fieldsFrom (String.length s) "" s.

(** ** Headers *)

(** [textproto.MIMEHeader]: values by canonical key. *)
Abbreviation MIMEHeader := (gmap string (list string)).

Definition upperByte (c : Ascii.ascii) : Ascii.ascii :=
  let n := byteVal c in if (97 <=? n) && (n <=? 122) then toByte (n - 32) else c.
Definition lowerByte (c : Ascii.ascii) : Ascii.ascii :=
  let n := byteVal c in if (65 <=? n) && (n <=? 90) then toByte (n + 32) else c.

(** [textproto.CanonicalMIMEHeaderKey] on a valid field name. *)
Fixpoint canonicalFrom (upper : bool) (s : string) : string :=
  match s with
  | EmptyString => ""
  | String c s' =>
      String (if upper then upperByte c else lowerByte c) (canonicalFrom (Ascii.eqb c (toByte 45)) s')
  end.
Definition CanonicalMIMEHeaderKey : string → string := canonicalFrom true.

(** [h.Get(name)], also on a nil header. *)
Definition hGet (h : option MIMEHeader) (name : string) : string :=
  match h with
  | None => ""
  | Some h => match h !! CanonicalMIMEHeaderKey name with Some (v :: _) => v | _ => "" end
  end.

(** The parts of Go's library the parser calls. *)
Record mimeLib := mkMimeLib {
  (** [mail.ReadMessage]: header and body *)
  ml_ReadMessage : string → option (MIMEHeader * string);
  (** [mime.ParseMediaType] *)
  ml_ParseMediaType : string → option (string * gmap string string);
  (** [multipart.Reader.NextPart], until it fails *)
  ml_Parts : string → string → list (MIMEHeader * string);
  (** what [base64.NewDecoder] and [quotedprintable.NewReader] read *)
  ml_Base64 : string → string;
  ml_QuotedPrintable : string → string;
  (** [textproto.Reader.ReadMIMEHeader]: the header, and what is left unless
      it returned an error *)
  ml_ReadMIMEHeader : string → MIMEHeader * option string;
  (** [mime.WordDecoder.DecodeHeader] *)
  ml_DecodeHeader : string → option string;
  (** [mail.ParseDate] *)
  ml_ParseDate : string → option Time;
  (** [mail.ParseAddress], the address of it *)
  ml_ParseAddress : string → option string;
  (** [strings.ToLower] *)
  ml_ToLower : string → string;
}.

(** ** Data *)

Definition ConfidenceHigh : string := "high".
Definition ConfidenceMedium : string := "medium".
Definition ConfidenceLow : string := "low".

Definition BounceSourceVERP : string := "verp".
Definition BounceSourceHeader : string := "header".
Definition BounceSourceMessageID : string := "message_id".
Definition BounceSourceHeuristic : string := "heuristic".
Definition BounceSourceNone : string := "".

Record Correlation := mkCorrelation {
  co_DeliveryID : string;
  co_TenantID : string;
  co_Source : string;
  co_Verified : bool;
}.

Record Parsed := mkParsed {
  pa_Type : BounceType;
  pa_AutoReply : bool;
  pa_Action : string;
  pa_Status : string;
  pa_DiagnosticCode : string;
  pa_FinalRecipient : string;
  pa_ReportingMTA : string;
  pa_FeedbackType : string;
  pa_MessageID : string;
  pa_Subject : string;
  pa_Date : Time;
  pa_Confidence : string;
  pa_Correlation : Correlation;
}.
#[global] Instance Parsed_eta : Eta Parsed := λ p,
  mkParsed (pa_Type p) (pa_AutoReply p) (pa_Action p) (pa_Status p) (pa_DiagnosticCode p)
    (pa_FinalRecipient p) (pa_ReportingMTA p) (pa_FeedbackType p) (pa_MessageID p) (pa_Subject p)
    (pa_Date p) (pa_Confidence p) (pa_Correlation p).

(** [Parsed.IsBounce] *)
Definition IsBounce (p : Parsed) : bool :=
  negb (pa_AutoReply p) && negb (bool_decide (pa_Type p = BounceUnknown)).

Definition maxDepth : nat := 8.
Definition maxPartSize : Z := 2 ^ 20.

Record collected := mkCollected {
  cl_top : MIMEHeader;
  cl_dsnPerMessage : option MIMEHeader;
  cl_dsnRecipients : list MIMEHeader;
  cl_feedback : option MIMEHeader;
  cl_original : option MIMEHeader;
  cl_text : string;
  cl_hasReport : bool;
}.
#[global] Instance collected_eta : Eta collected := λ c,
  mkCollected (cl_top c) (cl_dsnPerMessage c) (cl_dsnRecipients c) (cl_feedback c) (cl_original c)
    (cl_text c) (cl_hasReport c).

(** ** The MIME walk *)

Section report.
Context (L : mimeLib).

(** [fieldValue] *)
Definition fieldValue (v : string) : string :=
  let v := TrimSpace v in
  match cutByte (toByte 59) v with
  | Some (before, after) => if hasByte (toByte 64) before then v else TrimSpace after
  | None => v
  end.

(** [addressOnly] *)
Definition addressOnly (v : string) : string :=
  let v := TrimSpace (fieldValue v) in
  if strEq v "" then ""
  else
    match ml_ParseAddress L v with
    | Some addr => addr
    | None =>
        let v := Trim angles v in
        let v := match cutLast (toByte 60) v with Some (_, b) => Trim angles (String (toByte 60) b) | None => v end in
        TrimSpace v
    end.

(** [decodeHeader] *)
Definition decodeHeader (v : string) : string := default v (ml_DecodeHeader L v).

(** [contentType] *)
Definition contentType (h : MIMEHeader) : string * gmap string string :=
  let v := hGet (Some h) "Content-Type" in
  if strEq v "" then ("text/plain", ∅)
  else
    match ml_ParseMediaType L v with
    | Some (mediaType, params) => (ml_ToLower L mediaType, params)
    | None =>
        let mediaType := match cutByte (toByte 59) v with Some (a, _) => a | None => v end in
        (ml_ToLower L (TrimSpace mediaType), ∅)
    end.

(** [decodeBody] *)
Definition partBody (h : MIMEHeader) (body : string) : string :=
  let enc := ml_ToLower L (TrimSpace (hGet (Some h) "Content-Transfer-Encoding")) in
  if strEq enc "base64" then ml_Base64 L body
  else if strEq enc "quoted-printable" then ml_QuotedPrintable L body
  else body.

(** [io.LimitReader(r, maxPartSize)] *)
Definition limited (s : string) : string := strTake (Z.to_nat (Z.min maxPartSize (strLen s))) s.

(** [readBlocks]: a header that is read without an error consumes its blank
    line, so the input's length is fuel enough. *)
Fixpoint blocksFrom (fuel : nat) (s : string) : list MIMEHeader :=
  match fuel with
  | O => []
  | S fuel =>
      let '(h, rest) := ml_ReadMIMEHeader L s in
      (if bool_decide (h = ∅) then [] else [h]) ++
      match rest with Some s' => blocksFrom fuel s' | None => [] end
  end.
Definition readBlocks (r : string) : list MIMEHeader := blocksFrom (S (String.length (limited r))) (limited r).

(** [readHeaderOnly] *)
Definition readHeaderOnly (r : string) : option MIMEHeader :=
  let '(h, rest) := ml_ReadMIMEHeader L (limited r) in
  if bool_decide (h = ∅) && negb (bool_decide (is_Some rest)) then None else Some h.

(** One part that is not a multipart. *)
Definition leafPart (mediaType : string) (h : MIMEHeader) (body : string) (c : collected) : collected :=
  if strEq mediaType "message/delivery-status" then
    let c := c <| cl_hasReport := true |> in
    match readBlocks (partBody h body), cl_dsnPerMessage c with
    | b :: bs, None =>
        c <| cl_dsnPerMessage := Some b |> <| cl_dsnRecipients := cl_dsnRecipients c ++ bs |>
    | _, _ => c
    end
  else if strEq mediaType "message/feedback-report" then
    let c := c <| cl_hasReport := true |> in
    match readBlocks (partBody h body), cl_feedback c with
    | b :: _, None => c <| cl_feedback := Some b |>
    | _, _ => c
    end
  else if contains ["message/rfc822"; "text/rfc822-headers"; "message/global"; "message/global-headers"] mediaType then
    match cl_original c with
    | Some _ => c
    | None =>
        match readHeaderOnly (partBody h body) with
        | Some hdr => c <| cl_original := Some hdr |>
        | None => c
        end
    end
  else if String.prefix "text/" mediaType then
    if strLen (cl_text c) <? maxPartSize
    then c <| cl_text := cl_text c +:+ String (toByte 10) (limited (partBody h body)) |>
    else c
  else c.

(** [walk]: [fuel] is how many levels below are still looked at. *)
Fixpoint mimeWalk (fuel : nat) (h : MIMEHeader) (body : string) (c : collected) : collected :=
  match fuel with
  | O => c
  | S fuel =>
      let '(mediaType, params) := contentType h in
      if String.prefix "multipart/" mediaType then
        let boundary := default "" (params !! "boundary") in
        if strEq boundary "" then c
        else foldl (λ c part, mimeWalk fuel part.1 part.2 c) c (ml_Parts L boundary body)
      else leafPart mediaType h body c
  end.

(** [recipientBlock] *)
Definition blockAction (b : MIMEHeader) : string := ml_ToLower L (fieldValue (hGet (Some b) "Action")).

Fixpoint pickBlock (withStatus : option MIMEHeader) (bs : list MIMEHeader) : option MIMEHeader :=
  match bs with
  | [] => withStatus
  | b :: bs' =>
      if strEq (blockAction b) "failed" then Some b
      else
        pickBlock
          match withStatus with
          | Some _ => withStatus
          | None =>
              if negb (strEq (hGet (Some b) "Status") "") || negb (strEq (blockAction b) "")
              then Some b else None
          end bs'
  end.

Definition recipientBlock (c : collected) : option MIMEHeader :=
  match pickBlock None (cl_dsnRecipients c) with
  | Some b => Some b
  | None =>
      match cl_dsnRecipients c with
      | b :: _ => Some b
      | [] =>
          match cl_dsnPerMessage c with
          | Some h => if negb (strEq (hGet (Some h) "Final-Recipient") "") then Some h else None
          | None => None
          end
      end
  end.

(** [applyReport] *)
Definition applyReport (p : Parsed) (c : collected) : Parsed :=
  let p :=
    match recipientBlock c with
    | None => p
    | Some rcpt =>
        let final := fieldValue (hGet (Some rcpt) "Final-Recipient") in
        p <| pa_Action := ml_ToLower L (fieldValue (hGet (Some rcpt) "Action")) |>
          <| pa_Status := TrimSpace (fieldValue (hGet (Some rcpt) "Status")) |>
          <| pa_DiagnosticCode := TrimSpace (hGet (Some rcpt) "Diagnostic-Code") |>
          <| pa_FinalRecipient := if strEq final "" then fieldValue (hGet (Some rcpt) "Original-Recipient") else final |>
    end in
  let p :=
    match cl_feedback c with
    | None => p
    | Some f =>
        p <| pa_FeedbackType := ml_ToLower L (TrimSpace (hGet (Some f) "Feedback-Type")) |>
          <| pa_FinalRecipient :=
               if strEq (pa_FinalRecipient p) "" then addressOnly (hGet (Some f) "Original-Rcpt-To")
               else pa_FinalRecipient p |>
    end in
  let p :=
    match cl_original c with
    | None => p
    | Some o => p <| pa_MessageID := Trim angles (TrimSpace (hGet (Some o) "Message-Id")) |>
    end in
  p <| pa_FinalRecipient := addressOnly (pa_FinalRecipient p) |>.

(** ** Classification *)

Definition softStatusPrefixes : list string := ["5.2.2"; "5.2.3"; "5.3."; "5.4."; "5.5."; "5.7."].

Definition bounceSubjects : list string :=
  ["undeliverable"; "undelivered mail returned to sender"; "returned mail";
   "delivery status notification (failure)"; "delivery status notification (delay)";
   "mail delivery failed"; "failure notice"; "delivery failure";
   "message could not be delivered"; "delivery has failed";
   "mail could not be delivered"; "returned to sender"].

Definition hardPhrases : list string :=
  ["user unknown"; "unknown user"; "no such user"; "no such recipient";
   "recipient address rejected"; "does not exist"; "doesn't exist";
   "mailbox unavailable"; "mailbox not found"; "address not found";
   "no mailbox here"; "invalid recipient"; "unrouteable address";
   "account has been disabled"; "account is disabled"; "user is terminated"].

Definition softPhrases : list string :=
  ["mailbox full"; "over quota"; "quota exceeded"; "insufficient system storage";
   "try again later"; "temporarily unavailable"; "temporary failure";
   "greylist"; "message too large"; "deferred"; "connection timed out"].

Definition complaintSubjects : list string :=
  ["abuse report"; "complaint about message"; "spam report"; "email feedback report"].

Definition autoReplySubjects : list string :=
  ["out of office"; "auto-reply"; "autoreply"; "automatic reply"; "auto: "; "vacation";
   "away from the office"; "away from my"; "부재중"; "자동회신"; "자동 회신"; "자동응답"; "자동 응답"].

(** [typeFromStatus] *)
Definition typeFromStatus (status : string) : BounceType :=
  let status := TrimSpace status in
  match status with
  | String c (String d (String _ _)) =>
      if negb (Ascii.eqb d dot) then BounceUnknown
      else if Ascii.eqb c (toByte 52) then BounceSoft
      else if Ascii.eqb c (toByte 53) then
        if hasAnyPrefix status softStatusPrefixes then BounceSoft else BounceHard
      else BounceUnknown
  | _ => BounceUnknown
  end.

Definition fourOrFive (c : Ascii.ascii) : bool := Ascii.eqb c (toByte 52) || Ascii.eqb c (toByte 53).

(** A match of [([45])\.(\d{1,3})\.(\d{1,3})\b] at the front: both digit runs
    are followed by a character that is no digit, so they are taken whole. *)
Definition enhancedAt (s : string) : option string :=
  match s with
  | String c _ => if fourOrFive c && negb (strEq (enhancedFind s) "") then Some (enhancedFind s) else None
  | EmptyString => None
  end.

(** [enhancedStatusRe.FindString]: leftmost, at a word boundary; [prev] says
    whether the character before is a word character. *)
Fixpoint enhancedSearch (prev : bool) (s : string) : string :=
  match s with
  | EmptyString => ""
  | String c s' =>
      match (if prev then None else enhancedAt s) with
      | Some m => m
      | None => enhancedSearch (isWord c) s'
      end
  end.
Definition enhancedStatusRe (s : string) : string := enhancedSearch false s.

(** [[45]\d{2}] followed by a blank, a dash or a word boundary. *)
Definition replyAt (s : string) : option string :=
  match s with
  | String a (String b (String c s')) =>
      if fourOrFive a && isDigit b && isDigit c &&
         match s' with EmptyString => true | String x _ => negb (isWord x) end
      then Some (String a (String b (String c ""))) else None
  | _ => None
  end.

(** [\s] of a regular expression *)
Definition reSpace (c : Ascii.ascii) : bool := contains [9; 10; 12; 13; 32] (byteVal c).

(** The reply code [smtpCodeRe.FindStringSubmatch] captures; [open] says
    whether the position is at a line start or after a space. *)
Fixpoint replySearch (open : bool) (s : string) : option string :=
  match s with
  | EmptyString => None
  | String c s' =>
      match (if open then replyAt s else None) with
      | Some m => Some m
      | None => replySearch (reSpace c) s'
      end
  end.
Definition smtpCodeRe (s : string) : option string := replySearch true s.

(** [statusFromText] *)
Definition statusFromText (text : string) : BounceType :=
  let m := enhancedStatusRe text in
  if negb (strEq m "") then typeFromStatus m
  else
    match smtpCodeRe text with
    | Some m1 => if String.prefix "4" m1 then BounceSoft else BounceHard
    | None => BounceUnknown
    end.

(** [classifyFeedback] *)
Definition classifyFeedback (p : Parsed) : Parsed :=
  let p := p <| pa_Confidence := ConfidenceHigh |> in
  if strEq (pa_FeedbackType p) "abuse" || strEq (pa_FeedbackType p) "fraud"
  then p <| pa_Type := BounceComplaint |>
  else if strEq (pa_FeedbackType p) ""
  then p <| pa_Type := BounceComplaint |> <| pa_Confidence := ConfidenceMedium |>
  else p <| pa_Type := BounceUnknown |>.

(** [classifyDSN] *)
Definition classifyDSN (p : Parsed) : Parsed :=
  let p := p <| pa_Confidence := ConfidenceHigh |> in
  if strEq (pa_Action p) "delayed" then p <| pa_Type := BounceSoft |>
  else if contains ["delivered"; "relayed"; "expanded"] (pa_Action p) then p <| pa_Type := BounceUnknown |>
  else if strEq (pa_Status p) "" then
    p <| pa_Type := statusFromText (pa_DiagnosticCode p) |> <| pa_Confidence := ConfidenceMedium |>
  else
    let t := typeFromStatus (pa_Status p) in
    let p := p <| pa_Type := t |> in
    if bool_decide (t = BounceUnknown) then p <| pa_Confidence := ConfidenceMedium |> else p.

(** [isAutoReply] *)
Definition isAutoReply (c : collected) (subject : string) : bool :=
  let auto := ml_ToLower L (TrimSpace (hGet (Some (cl_top c)) "Auto-Submitted")) in
  if negb (strEq auto "") && negb (strEq auto "no") then true
  else if existsb (λ h, negb (strEq (hGet (Some (cl_top c)) h) "")) ["X-Autoreply"; "X-Autorespond"; "X-Vacation"]
  then true
  else if strContains (ml_ToLower L (hGet (Some (cl_top c)) "Precedence")) "auto_reply" then true
  else containsAny subject autoReplySubjects.

(** [classifyHeuristic] *)
Definition classifyHeuristic (p : Parsed) (c : collected) : Parsed :=
  let subject := ml_ToLower L (pa_Subject p) in
  let body := ml_ToLower L (cl_text c) in
  let from := ml_ToLower L (hGet (Some (cl_top c)) "From") in
  if isAutoReply c subject then
    p <| pa_AutoReply := true |> <| pa_Type := BounceUnknown |> <| pa_Confidence := ConfidenceHigh |>
  else if containsAny subject complaintSubjects then
    p <| pa_Type := BounceComplaint |> <| pa_Confidence := ConfidenceLow |>
  else if negb (containsAny subject bounceSubjects || strContains from "mailer-daemon" || strContains from "postmaster") then
    p <| pa_Type := BounceUnknown |> <| pa_Confidence := ConfidenceLow |>
  else
    let t := statusFromText (cl_text c) in
    if negb (bool_decide (t = BounceUnknown)) then
      let p := if strEq (pa_Status p) "" then p <| pa_Status := enhancedStatusRe (cl_text c) |> else p in
      let p := p <| pa_Type := t |> <| pa_Confidence := ConfidenceMedium |> in
      if containsAny body softPhrases && bool_decide (t = BounceHard) && negb (containsAny body hardPhrases)
      then p <| pa_Type := BounceSoft |> else p
    else
      let p :=
        if containsAny body hardPhrases then p <| pa_Type := BounceHard |>
        else if containsAny body softPhrases then p <| pa_Type := BounceSoft |>
        else p <| pa_Type := BounceUnknown |> in
      p <| pa_Confidence := ConfidenceLow |>.

(** [classify] *)
Definition classify (p : Parsed) (c : collected) : Parsed :=
  match cl_feedback c with
  | Some _ => classifyFeedback p
  | None => if cl_hasReport c then classifyDSN p else classifyHeuristic p c
  end.

(** ** Correlation *)

Definition verpHeaders : list string := ["Return-Path"; "To"; "Delivered-To"; "X-Original-To"; "Envelope-To"].

(** [add] of [verpCandidates] *)
Definition addrsOf (v : string) : list string :=
  filter (λ a, a ≠ "") (addressOnly <$> splitByte (toByte 44) v).

(** [verpCandidates]; an empty header adds nothing. *)
Definition verpCandidates (c : collected) : list string :=
  (verpHeaders ≫= λ name, addrsOf (hGet (Some (cl_top c)) name)) ++
  match cl_dsnPerMessage c with
  | Some h => addrsOf (hGet (Some h) "Original-Envelope-Id") ++ addrsOf (hGet (Some h) "X-Postfix-Sender")
  | None => []
  end ++
  match recipientBlock c with
  | Some h => addrsOf (hGet (Some h) "Final-Recipient") ++ addrsOf (hGet (Some h) "Original-Recipient")
  | None => []
  end ++
  match cl_feedback c with
  | Some h => addrsOf (hGet (Some h) "Original-Mail-From")
  | None => []
  end ++
  match cl_original c with
  | Some h => ["Return-Path"; "X-Original-To"; "Delivered-To"] ≫= λ name, addrsOf (hGet (Some h) name)
  | None => []
  end.

Definition HeaderSendplaneID : string := "X-Sendplane-ID".

(** [parseSendplaneID] *)
Definition parseSendplaneID (v : string) : option (string * string) :=
  let v := TrimSpace v in
  if strEq v "" then None
  else
    match cutByte (toByte 47) v with
    | Some (tenant, delivery) =>
        if strEq (TrimSpace delivery) "" then None else Some (TrimSpace tenant, TrimSpace delivery)
    | None => None
    end.

(** [messageIDCandidates] *)
Definition messageIDCandidates (c : collected) : list string :=
  match cl_original c with Some h => [hGet (Some h) "Message-Id"] | None => [] end ++
  (["In-Reply-To"; "References"] ≫= λ name, Fields (hGet (Some (cl_top c)) name)).

Definition isHex (c : Ascii.ascii) : bool :=
  let n := byteVal c in
  isDigit c || ((97 <=? n) && (n <=? 102)) || ((65 <=? n) && (n <=? 70)).

(** The loop of [isUUID]; a rune outside ASCII starts with a byte that is
    neither a dash nor hexadecimal. *)
Fixpoint uuidFrom (i : Z) (s : string) : bool :=
  match s with
  | EmptyString => true
  | String c s' =>
      (if contains [8; 13; 18; 23] i then Ascii.eqb c (toByte 45) else isHex c) && uuidFrom (i + 1) s'
  end.
Definition isUUID (s : string) : bool := (strLen s =? 36) && uuidFrom 0 s.

(** [deliveryIDFromMessageID] *)
Definition deliveryIDFromMessageID (v : string) : string :=
  let v := TrimSpace (Trim angles (TrimSpace v)) in
  match cutByte (toByte 64) v with
  | Some (local, _) => if isUUID local then local else ""
  | None => ""
  end.

Context (hmac : string → string → string).

Fixpoint correlateVERP (addrs : list string) (keys : list SigningKey) : option Correlation :=
  match addrs with
  | [] => None
  | addr :: addrs' =>
      let '(id, verified) := ParseVERP hmac addr keys in
      if strEq id "" then correlateVERP addrs' keys
      else Some (mkCorrelation id "" BounceSourceVERP verified)
  end.

Fixpoint correlateHeader (hs : list (option MIMEHeader)) : option Correlation :=
  match hs with
  | [] => None
  | h :: hs' =>
      match parseSendplaneID (hGet h HeaderSendplaneID) with
      | Some (tenant, id) => Some (mkCorrelation id tenant BounceSourceHeader true)
      | None => correlateHeader hs'
      end
  end.

Fixpoint correlateMessageID (vs : list string) : option Correlation :=
  match vs with
  | [] => None
  | v :: vs' =>
      let id := deliveryIDFromMessageID v in
      if strEq id "" then correlateMessageID vs'
      else Some (mkCorrelation id "" BounceSourceMessageID true)
  end.

(** [correlate] *)
Definition correlate (c : collected) (keys : list SigningKey) : Correlation :=
  match correlateVERP (verpCandidates c) keys with
  | Some r => r
  | None =>
      match correlateHeader [cl_original c; Some (cl_top c)] with
      | Some r => r
      | None => default (mkCorrelation "" "" BounceSourceNone false) (correlateMessageID (messageIDCandidates c))
      end
  end.

(** What the walk collects from a raw message. *)
Definition collect (raw : string) : option collected :=
  match ml_ReadMessage L raw with
  | None => None
  | Some (top, body) => Some (mimeWalk (S maxDepth) top body (mkCollected top None [] None None "" false))
  end.

(** [ParseWithKeys] *)
Definition ParseWithKeys (raw : string) (keys : list SigningKey) : option Parsed :=
  match collect raw with
  | None => None
  | Some c =>
      let top := Some (cl_top c) in
      let p := mkParsed BounceUnknown false "" "" "" "" (fieldValue (hGet (cl_dsnPerMessage c) "Reporting-MTA"))
                 "" "" (decodeHeader (hGet top "Subject"))
                 (default zeroTime (ml_ParseDate L (hGet top "Date"))) ""
                 (mkCorrelation "" "" "" false) in
      let p := classify (applyReport p c) c in
      Some (p <| pa_Correlation := correlate c keys |>)
  end.
End report.
