(* ===== verification/Bounce.v ===== *)
(** * Bounce processing ([internal/bounce/process.go], [platform.go])

    [Handle] turns one message of a bounce mailbox into store writes: the
    event is recorded, a sent delivery becomes bounced or complained, its
    address is suppressed and the host is told.  [HandlePlatform] finds the
    tenant of a message of a shared mailbox first.  Both are programs over the
    provider, so that the tenant's store and the system tenant's are in reach
    and every other process may run between two of their calls. *)

From S2P Require Import Prelude Enums Model MemTable MemData DeliveryRepo DeliveryQueue DeliveryProps Repos Provider Prog Settings Classify Codec Tokens Email Platform BounceReport.

(** ** Data *)

Definition EventDeliveryBounced : string := "delivery.bounced".
Definition EventDeliveryComplained : string := "delivery.complained".

Definition SkipAutoReply : string := "auto_reply".
Definition SkipNotABounce : string := "not_a_bounce".
Definition SkipNoCorrelation : string := "no_correlation".
Definition SkipWrongTenant : string := "wrong_tenant".
Definition SkipUnknownDelivery : string := "unknown_delivery".
Definition SkipUnverified : string := "unverified".
Definition SkipDeliveryNotSent : string := "delivery_not_sent".
Definition SkipAlreadyTerminal : string := "already_terminal".
Definition SkipSoftBounce : string := "soft_bounce".
Definition SkipNotTransitioned : string := "not_transitioned".

Definition SuppressionHardBounce : string := "hard_bounce".
Definition SuppressionComplaint : string := "complaint".

Definition DefaultMaxRawBytes : Z := 262144.

(** [mailbox.Message] *)
Record Message := mkMessage { mg_ID : string; mg_Raw : string; mg_Received : Time }.

Record Outcome := mkOutcome {
  oc_Parsed : option Parsed;
  oc_Recorded : bool;
  oc_EventID : string;
  oc_Processed : bool;
  oc_NewStatus : option DeliveryStatus;
  oc_Suppressed : bool;
  oc_Unverified : bool;
  oc_Skipped : string;
}.
#[global] Instance Outcome_eta : Eta Outcome := λ o,
  mkOutcome (oc_Parsed o) (oc_Recorded o) (oc_EventID o) (oc_Processed o) (oc_NewStatus o)
    (oc_Suppressed o) (oc_Unverified o) (oc_Skipped o).
#[global] Instance Outcome_zero : Zero Outcome := mkOutcome None false "" false None false false "".

(** [deliveryEventPayload] *)
Record deliveryEventPayload := mkDeliveryEventPayload {
  dp_DeliveryID : string;
  dp_CampaignID : string;
  dp_Status : DeliveryStatus;
  dp_Email : string;
  dp_EmailNorm : string;
  dp_Lane : Lane;
  dp_OccurredAt : Time;
  dp_BounceType : BounceType;
  dp_BounceSource : string;
  dp_SMTPStatus : string;
  dp_DiagnosticCode : string;
  dp_Confidence : string;
  dp_Suppressed : bool;
}.

(** What a processor is built with: the parser's library, the MAC, the JSON
    encoder, the third-party IDNA conversion, and its options. *)
Record processor := mkProcessor {
  bp_mime : mimeLib;
  bp_hmac : string → string → string;
  bp_marshalString : string → option string;
  bp_marshalPayload : deliveryEventPayload → option string;
  bp_ToASCII : string → option string;
  bp_Provider : bool;
  bp_MaxRawBytes : Z;
}.

(** [NewProcessor] *)
Definition NewProcessor (p : processor) : processor :=
  if bp_MaxRawBytes p <=? 0
  then mkProcessor (bp_mime p) (bp_hmac p) (bp_marshalString p) (bp_marshalPayload p) (bp_ToASCII p)
         (bp_Provider p) DefaultMaxRawBytes
  else p.

Section processor.
Context (bp : processor).
(** The random bytes of a first signing key, and the event's fresh ID. *)
Context (rand eventID : string).

(** [receivedAt] *)
Definition receivedAt (msg : Message) (parsed : Parsed) (now : Time) : Time :=
  if negb (IsZero (mg_Received msg)) then mg_Received msg
  else if negb (IsZero (pa_Date parsed)) then pa_Date parsed
  else now.

(** [rawJSON] *)
Definition rawJSON (raw : string) (max : Z) : string :=
  let raw := if (0 <? max) && (max <? strLen raw) then strTake (Z.to_nat max) raw else raw in
  default "" (bp_marshalString bp raw).

(** The event [record] writes. *)
Definition bounceEvent (s : TenantSettings) (parsed : Parsed) (msg : Message) (d : option Delivery) (now : Time)
    : BounceEvent :=
  let co := pa_Correlation parsed in
  {| b_ID := eventID;
     b_TenantID := "";
     b_DeliveryID := co_DeliveryID co;
     b_Type := pa_Type parsed;
     b_Source := if strEq (co_Source co) BounceSourceNone then BounceSourceHeuristic else co_Source co;
     b_Verified := co_Verified co;
     b_Recipient :=
       match d with
       | Some d => if strEq (pa_FinalRecipient parsed) "" then d_Email d else pa_FinalRecipient parsed
       | None => pa_FinalRecipient parsed
       end;
     b_EmailNorm :=
       match d with
       | Some d => d_EmailNorm d
       | None =>
           if strEq (pa_FinalRecipient parsed) "" then ""
           else default "" (NormalizeEmail (ml_ToLower (bp_mime bp)) (ml_ParseAddress (bp_mime bp)) (bp_ToASCII bp)
                          (pa_FinalRecipient parsed))
       end;
     b_SMTPStatus := pa_Status parsed;
     b_DiagnosticCode := pa_DiagnosticCode parsed;
     b_MessageID := pa_MessageID parsed;
     b_Raw := if ts_BounceRetainRaw s then rawJSON (mg_Raw msg) (bp_MaxRawBytes bp) else "";
     b_ReceivedAt := receivedAt msg parsed now;
     b_CreatedAt := now |}.

(** [record] *)
Definition record (t : string) (s : TenantSettings) (out : Outcome) (parsed : Parsed) (msg : Message)
    (d : option Delivery) (now : Time) : progOn Provider Outcome :=
  let? ev := tcall t (λ env, CreateBounce env (bounceEvent s parsed msg d now)) in
  pret (out <| oc_Recorded := true |> <| oc_EventID := b_ID ev |>).

(** [suppressPlatform] *)
Definition suppressPlatform (t : string) (d : Delivery) (sup : Suppression) : progOn Provider unit :=
  if negb (bp_Provider bp) || strEq (d_SenderID d) "" || strEq (d_EmailNorm d) "" then pret tt
  else
    handle (tcall t (λ env, GetSender env (d_SenderID d))) (λ r,
      match r with
      | inl err => if errIs err ErrNotFound then pret tt else fail err
      | inr snd =>
          if negb (IsPlatformID (s_TransportID snd)) then pret tt
          else
            let? sys := call (λ _, ForTenant SystemTenantID) in
            let? _ := tcall sys (λ env, Upsert env sup) in
            pret tt
      end).

(** [enqueueEvent] *)
Definition enqueueEvent (t : string) (d : Delivery) (parsed : Parsed) (typ : string) (status : DeliveryStatus)
    (suppressed : bool) (now : Time) : progOn Provider unit :=
  match bp_marshalPayload bp (mkDeliveryEventPayload (d_ID d) (d_CampaignID d) status (d_Email d)
          (d_EmailNorm d) (d_Lane d) now (pa_Type parsed) (co_Source (pa_Correlation parsed))
          (pa_Status parsed) (pa_DiagnosticCode parsed) (pa_Confidence parsed) suppressed) with
  | None => fail (errNamed "json")
  | Some payload =>
      tcall t (λ env, Enqueue env
        [zero <| o_Type := typ |> <| o_Payload := payload |> <| o_Status := OutboxPending |>
              <| o_CreatedAt := now |> <| o_NextAttemptAt := now |>])
  end.

(** The part of [Handle] from the mark on. *)
Definition transition (t : string) (s : TenantSettings) (out : Outcome) (parsed : Parsed) (d : Delivery)
    (now : Time) : progOn Provider Outcome :=
  let complaint := bool_decide (pa_Type parsed = BounceComplaint) in
  let status := if complaint then DeliveryComplained else DeliveryBounced in
  let reason := if complaint then SuppressionComplaint else SuppressionHardBounce in
  let eventType := if complaint then EventDeliveryComplained else EventDeliveryBounced in
  let sup := zero <| sp_EmailNorm := d_EmailNorm d |> <| sp_Reason := reason |>
                  <| sp_SourceDeliveryID := d_ID d |> <| sp_CreatedAt := now |> in
  let? changed := tcall t (λ env,
      if complaint then MarkComplained env (d_ID d) now else MarkBounced env (d_ID d) now) in
  if negb changed then pret (out <| oc_Skipped := SkipNotTransitioned |>)
  else
    let out := out <| oc_Processed := true |> <| oc_NewStatus := Some status |> in
    let? out :=
      (if bool_decide (d_Lane d = LaneProbe) then pret out
       else
         let? out :=
           (if ts_SuppressionEnabled s then
              let? _ := tcall t (λ env, Upsert env sup) in
              pret (out <| oc_Suppressed := true |>)
            else pret out) in
         suppressPlatform t d sup ;? pret out) in
    enqueueEvent t d parsed eventType status (oc_Suppressed out) now ;? pret out.

(** [Handle] *)
Definition Handle (t : string) (msg : Message) (now : Time) : progOn Provider Outcome :=
  let? s := inTenant t (LoadTenantSettings rand t now) in
  match ParseWithKeys (bp_mime bp) (bp_hmac bp) (mg_Raw msg) (tk_SigningKeys (ts_Tracking s)) with
  | None => pret (zero <| oc_Skipped := SkipNotABounce |>)
  | Some parsed =>
      let out := zero <| oc_Parsed := Some parsed |> in
      let co := pa_Correlation parsed in
      if pa_AutoReply parsed then pret (out <| oc_Skipped := SkipAutoReply |>)
      else if negb (IsBounce parsed) then pret (out <| oc_Skipped := SkipNotABounce |>)
      else if strEq (co_DeliveryID co) "" then
        record t s (out <| oc_Skipped := SkipNoCorrelation |>) parsed msg None now
      else if negb (strEq (co_TenantID co) "") && negb (strEq (co_TenantID co) t) then
        pret (out <| oc_Skipped := SkipWrongTenant |>)
      else
        handle (tcall t (λ env, GetDelivery env (co_DeliveryID co))) (λ r,
          match r with
          | inl err =>
              if errIs err ErrNotFound
              then record t s (out <| oc_Skipped := SkipUnknownDelivery |>) parsed msg None now
              else fail err
          | inr d =>
              let bounced := bool_decide (d_Status d = DeliveryBounced) || bool_decide (d_Status d = DeliveryComplained) in
              let soft := bool_decide (pa_Type parsed = BounceSoft) in
              if negb (co_Verified co) then
                record t s (out <| oc_Unverified := true |> <| oc_Skipped := SkipUnverified |>) parsed msg (Some d) now
              else if bool_decide (d_Status d = DeliverySent) then
                let? out := record t s out parsed msg (Some d) now in
                if soft then pret (out <| oc_Skipped := SkipSoftBounce |>)
                else transition t s out parsed d now
              else if bounced && soft then
                record t s (out <| oc_Skipped := SkipSoftBounce |>) parsed msg (Some d) now
              else if bounced then pret (out <| oc_Skipped := SkipAlreadyTerminal |>)
              else pret (out <| oc_Skipped := SkipDeliveryNotSent |>)
          end)
  end.

(** [resolveTenant] *)
Definition resolveTenant (msg : Message) : progOn Provider string :=
  match ParseWithKeys (bp_mime bp) (bp_hmac bp) (mg_Raw msg) [] with
  | None => pret SystemTenantID
  | Some parsed =>
      let co := pa_Correlation parsed in
      if negb (strEq (co_TenantID co) "") then pret (co_TenantID co)
      else if strEq (co_DeliveryID co) "" then pret SystemTenantID
      else
        handle (call (λ _, LookupDeliveryTenant (co_DeliveryID co))) (λ r,
          match r with
          | inl err => if errIs err ErrNotFound then pret SystemTenantID else fail err
          | inr t => pret t
          end)
  end.

(** [HandlePlatform] *)
Definition HandlePlatform (msg : Message) (now : Time) : progOn Provider Outcome :=
  let? t := resolveTenant msg in
  let? st := call (λ _, ForTenant t) in
  Handle st msg now.
End processor.

(** ** What the steps of a handler may do *)

Lemma stampEvent_type env i e : o_Type (stampEvent env i e) = o_Type e.
Proof.
  unfold stampEvent. destruct (strEq (o_ID e) ""); cbn; repeat (destruct (IsZero _); cbn); done.
Qed.

Lemma stampEvent_payload env i e : o_Payload (stampEvent env i e) = o_Payload e.
Proof.
  unfold stampEvent. destruct (strEq (o_ID e) ""); cbn; repeat (destruct (IsZero _); cbn); done.
Qed.

Lemma stampEvent_pending env i e :
  o_Status (stampEvent env i e) = OutboxPending ∧ o_TenantID (stampEvent env i e) = e_tenant env.
Proof.
  unfold stampEvent. destruct (strEq (o_ID e) ""); cbn; repeat (destruct (IsZero _); cbn); done.
Qed.

(** The data of a tenant the rest of the system acts on. *)
Record visible := mkVisible {
  vi_deliveries : gmap string Delivery;
  vi_suppressions : gmap string Suppression;
  vi_outbox : gmap string OutboxEvent;
}.

Definition visibleIn (td : tenantData) : visible := mkVisible (deliveries td) (suppressions td) (outbox td).

Definition visibleAt (t : string) (p : Provider) : visible :=
  match pv_tenants p !! t with Some td => visibleIn td | None => mkVisible ∅ ∅ ∅ end.

Definition sameVisible (p p' : Provider) : Prop := ∀ t, visibleAt t p' = visibleAt t p.

(** All of a tenant's data; a tenant nobody has opened yet has none. *)
Definition tenantAt (t : string) (p : Provider) : tenantData := default newTenantData (pv_tenants p !! t).

Lemma visibleAt_tenantAt t p : visibleAt t p = visibleIn (tenantAt t p).
Proof. unfold visibleAt, tenantAt. by destruct (pv_tenants p !! t). Qed.

(** No table of any tenant changes. *)
Definition quiet (p p' : Provider) : Prop := ∀ t, tenantAt t p' = tenantAt t p.

(** Only tenant [t]'s data changes, to [td]. *)
Definition onlyAt (t : string) (td : tenantData) (p p' : Provider) : Prop :=
  tenantAt t p' = td ∧ ∀ t', t' ≠ t → tenantAt t' p' = tenantAt t' p.

(** How far the handling of a mail has come. *)
Inductive bouncePhase :=
  | Reading
  | Filed
  | Found (d : Delivery) (to : DeliveryStatus)
  | Noted (d : Delivery) (to : DeliveryStatus)
  | Marked (d : Delivery) (to : DeliveryStatus) (shared : bool)
  | Announced (d : Delivery) (to : DeliveryStatus).

Section steps.
Context (bp : processor) (t : string) (msg : Message) (now : Time) (s : TenantSettings).

(** The message is a verified hard bounce or complaint about delivery [id] of
    tenant [t], and [to] the status it stands for. *)
Definition reports (parsed : Parsed) (id : string) (to : DeliveryStatus) : Prop :=
  ParseWithKeys (bp_mime bp) (bp_hmac bp) (mg_Raw msg) (tk_SigningKeys (ts_Tracking s)) = Some parsed ∧
  id ≠ "" ∧
  co_DeliveryID (pa_Correlation parsed) = id ∧
  co_Verified (pa_Correlation parsed) = true ∧
  (co_TenantID (pa_Correlation parsed) = "" ∨ co_TenantID (pa_Correlation parsed) = t) ∧
  pa_AutoReply parsed = false ∧
  ((pa_Type parsed = BounceHard ∧ to = DeliveryBounced) ∨
   (pa_Type parsed = BounceComplaint ∧ to = DeliveryComplained)).

(** [b] is the record of the message, a bounce of some kind: it names the
    delivery the message names and says whether that was verified. *)
Definition filedFor (b : BounceEvent) : Prop :=
  ∃ parsed,
    ParseWithKeys (bp_mime bp) (bp_hmac bp) (mg_Raw msg) (tk_SigningKeys (ts_Tracking s)) = Some parsed ∧
    IsBounce parsed = true ∧
    b_TenantID b = t ∧ b_Type b = pa_Type parsed ∧
    b_DeliveryID b = co_DeliveryID (pa_Correlation parsed) ∧
    b_Verified b = co_Verified (pa_Correlation parsed).

(** A new event in the tenant's bounce table, and no other change. *)
Definition filed (p p' : Provider) : Prop :=
  ∃ b, filedFor b ∧ bounces (tenantAt t p) !! b_ID b = None ∧
    onlyAt t ((tenantAt t p) <| bounces := <[b_ID b := b]> (bounces (tenantAt t p)) |>) p p'.

(** A permanent entry for the delivery's address, on its account. *)
Definition entryFor (t0 : string) (d : Delivery) (to : DeliveryStatus) (e : Suppression) : Prop :=
  sp_TenantID e = t0 ∧ sp_EmailNorm e = d_EmailNorm d ∧ sp_SourceDeliveryID e = d_ID d ∧
  sp_Reason e = (if bool_decide (to = DeliveryComplained) then SuppressionComplaint else SuppressionHardBounce) ∧
  IsZero (sp_ExpiresAt e) = true.

(** The notification of the delivery's new status. *)
Definition announces (d : Delivery) (to : DeliveryStatus) (e : OutboxEvent) : Prop :=
  o_TenantID e = t ∧ o_Status e = OutboxPending ∧
  o_Type e = (if bool_decide (to = DeliveryComplained) then EventDeliveryComplained else EventDeliveryBounced) ∧
  ∃ pl, bp_marshalPayload bp pl = Some (o_Payload e) ∧
    dp_DeliveryID pl = d_ID d ∧ dp_Status pl = to ∧ dp_EmailNorm pl = d_EmailNorm d ∧ dp_Lane pl = d_Lane d.

(** What a step may do in each phase, over all tables of all tenants. *)
Inductive bounceStep : bouncePhase → Provider → Provider → bouncePhase → Prop :=
  | bs_quiet ph p p' : quiet p p' → bounceStep ph p p' ph
  | bs_file p p' : filed p p' → bounceStep Reading p p' Filed
  | bs_find parsed d to p p' :
      reports parsed (d_ID d) to →
      deliveries (tenantAt t p) !! d_ID d = Some d → d_Status d = DeliverySent →
      quiet p p' → bounceStep Reading p p' (Found d to)
  | bs_note d to p p' : filed p p' → bounceStep (Found d to) p p' (Noted d to)
  | bs_mark d to x p p' :
      deliveries (tenantAt t p) !! d_ID d = Some x → d_Status x = DeliverySent →
      onlyAt t ((tenantAt t p) <| deliveries :=
                  <[d_ID d := markTerminalRow to now x]> (deliveries (tenantAt t p)) |>) p p' →
      bounceStep (Noted d to) p p' (Marked d to false)
  | bs_share d to x p p' :
      bp_Provider bp = true → senders (tenantAt t p) !! d_SenderID d = Some x → IsPlatformID (s_TransportID x) = true →
      quiet p p' → bounceStep (Marked d to false) p p' (Marked d to true)
  | bs_suppress d to shared t0 e p p' :
      d_Lane d ≠ LaneProbe →
      (t0 = t ∧ ts_SuppressionEnabled s = true) ∨ (t0 = SystemTenantID ∧ shared = true) →
      entryFor t0 d to e →
      onlyAt t0 ((tenantAt t0 p) <| suppressions :=
                   <[sp_EmailNorm e := e]> (suppressions (tenantAt t0 p)) |>) p p' →
      bounceStep (Marked d to shared) p p' (Marked d to shared)
  | bs_announce d to shared e p p' :
      announces d to e →
      onlyAt t ((tenantAt t p) <| outbox := <[o_ID e := e]> (outbox (tenantAt t p)) |>) p p' →
      bounceStep (Marked d to shared) p p' (Announced d to).

(** What the others keep: the tenant's settings, and rows filed under their IDs. *)
Definition bounceRely (p p' : Provider) : Prop :=
  ∀ td, pv_tenants p' !! t = Some td →
    settings td = Some s ∧ ∀ id d, deliveries td !! id = Some d → d_ID d = id.

(** The outcome says how far the handling came. *)
Definition bounceOutcome (r : error + Outcome) (ph : bouncePhase) : Prop :=
  match r with
  | inl _ => True
  | inr out =>
      match ph with
      | Reading => oc_Recorded out = false ∧ oc_Processed out = false
      | Filed | Noted _ _ => oc_Recorded out = true ∧ oc_Processed out = false
      | Announced _ to => oc_Recorded out = true ∧ oc_Processed out = true ∧ oc_NewStatus out = Some to
      | Found _ _ | Marked _ _ _ => False
      end
  end.

Definition safe (ph : bouncePhase) {A} (p : progOn Provider A) (Q : error + A → bouncePhase → Prop) : Prop :=
  ∀ p0, mwp bounceRely bounceStep p (λ r ph' _, Q r ph') ph p0.

Definition setTenant (t0 : string) (td : tenantData) (p : Provider) : Provider :=
  p <| pv_tenants := <[t0 := td]> (pv_tenants p) |>.

Lemma tenantAt_set t0 td p t' : tenantAt t' (setTenant t0 td p) = if decide (t' = t0) then td else tenantAt t' p.
Proof.
  unfold tenantAt, setTenant. cbn. destruct (decide (t' = t0)) as [->|Hne].
  - by rewrite lookup_insert_eq.
  - by rewrite lookup_insert_ne.
Qed.

Lemma set_onlyAt t0 td td' p : td = td' → onlyAt t0 td' p (setTenant t0 td p).
Proof.
  intros <-. split; [by rewrite tenantAt_set, decide_True|].
  intros t' Hne. by rewrite tenantAt_set, decide_False.
Qed.

Lemma tenantAt_Some t0 td p : pv_tenants p !! t0 = Some td → tenantAt t0 p = td.
Proof. unfold tenantAt. by intros ->. Qed.

Lemma set_quiet t0 td td' p : pv_tenants p !! t0 = Some td → td' = td → quiet p (setTenant t0 td' p).
Proof.
  intros Ht -> t'. rewrite tenantAt_set. case_decide as Hd; [|done]. subst. by rewrite (tenantAt_Some _ _ _ Ht).
Qed.

Lemma safe_handle ph {A B} (p : progOn Provider A) (k : error + A → progOn Provider B) Q Q' :
  safe ph p Q' → (∀ r ph', Q' r ph' → safe ph' (k r) Q) → safe ph (handle p k) Q.
Proof.
  intros Hp Hk p0. apply mwp_handle. eapply mwp_mono; [|apply Hp]. intros r ph' p1 HQ. by apply Hk.
Qed.

Lemma safe_done ph {A} (r : error + A) (Q : error + A → bouncePhase → Prop) : Q r ph → safe ph (Done r) Q.
Proof. intros HQ p0. exact HQ. Qed.

(** A call on a tenant's store. *)
Lemma safe_tcall ph {A} t0 (op : Env → M tenantData A) (Q : error + A → bouncePhase → Prop) :
  Q (inl errClosed) ph →
  (∀ env p td r td', e_tenant env = t0 → bounceRely p p → pv_tenants p !! t0 = Some td → op env td = (r, td') →
     ∃ ph', bounceStep ph p (setTenant t0 td' p) ph' ∧ Q r ph') →
  safe ph (tcall t0 op) Q.
Proof.
  intros Hcl Hop p0 env p Hrely. unfold onStore. destruct (pv_tenants p !! t0) as [td|] eqn:Ht.
  - destruct (op _ td) as [r td'] eqn:Hr. by refine (Hop _ p td r td' _ Hrely Ht Hr).
  - exists ph. by split; [apply bs_quiet|].
Qed.

(** The result may be an error of the call, or satisfies [P]. *)
Definition orError {A} (P : A → bouncePhase → Prop) (r : error + A) (ph : bouncePhase) : Prop :=
  match r with inl _ => True | inr a => P a ph end.

Lemma safe_ret ph {A} (P : A → bouncePhase → Prop) a : P a ph → safe ph (pret a) (orError P).
Proof. intros HP. by apply safe_done. Qed.

Lemma safe_mono ph {A} (p : progOn Provider A) (Q Q' : error + A → bouncePhase → Prop) :
  safe ph p Q → (∀ r ph', Q r ph' → Q' r ph') → safe ph p Q'.
Proof. intros Hp HQ p0. eapply mwp_mono; [|apply Hp]. intros r ph' p1. apply HQ. Qed.

Lemma safe_let ph {A B} (p : progOn Provider A) (k : A → progOn Provider B) P P' :
  safe ph p (orError P) → (∀ a ph', P a ph' → safe ph' (k a) (orError P')) → safe ph (pbind p k) (orError P').
Proof. intros Hp Hk. apply (safe_handle _ _ _ _ _ Hp). intros [e|a] ph' HP; [by apply safe_done|by apply Hk]. Qed.

Lemma closed_or {S A} env (op : M S A) st r st' :
  checked env op st = (r, st') → r = inl errClosed ∧ st' = st ∨ op st = (r, st').
Proof. unfold checked, throw. destruct (e_closed env); [|by right]. intros [= <- <-]. by left. Qed.

(** A call that changes nothing, or fails, stays in its phase. *)
Lemma stay ph t0 td p (Q : bouncePhase → Prop) :
  pv_tenants p !! t0 = Some td → Q ph → ∃ ph', bounceStep ph p (setTenant t0 td p) ph' ∧ Q ph'.
Proof. intros Ht HQ. exists ph. split; [|done]. apply bs_quiet. by eapply set_quiet. Qed.

(** ** The calls *)

Lemma createBounce_inv env b td r td' :
  CreateBounce env b td = (r, td') →
  (∃ e, r = inl e) ∧ td' = td ∨
  (∃ v b', r = inr v ∧ bounces td !! b_ID b' = None ∧
     td' = td <| bounces := <[b_ID b' := b']> (bounces td) |> ∧
     b_TenantID b' = e_tenant env ∧ b_Type b' = b_Type b ∧ b_DeliveryID b' = b_DeliveryID b ∧
     b_Verified b' = b_Verified b).
Proof.
  unfold CreateBounce, zoomWith. destruct (Create _ _ _) as [r0 [v rows]] eqn:Hc. intros Hr.
  apply closed_or in Hc as [[-> Hc]|Hc].
  { injection Hc as -> ->. injection Hr as <- <-. left. split; [by eexists|]. by destruct td. }
  cbn in Hc. set (b0 := if strEq (b_ID b) "" then _ else b) in Hc.
  assert (Hb0 : b_Type b0 = b_Type b ∧ b_DeliveryID b0 = b_DeliveryID b ∧ b_Verified b0 = b_Verified b)
    by (subst b0; by destruct (strEq _ _)).
  clearbody b0. case_bool_decide as Hs.
  { injection Hc as <- <- <-. injection Hr as <- <-. left. split; [by eexists|]. by destruct td. }
  apply eq_None_not_Some in Hs.
  destruct (IsZero (b_CreatedAt b0)); injection Hc as <- <- <-; injection Hr as <- <-; right;
    match goal with |- context [<[b_ID b0 := ?row]> (bounces td)] => eexists _, row end;
    (split; [reflexivity|]; split; [exact Hs|split; [reflexivity|done]]).
Qed.

Lemma record_safe ph ph1 eventID out parsed d :
  (∀ p p', filed p p' → bounceStep ph p p' ph1) →
  ParseWithKeys (bp_mime bp) (bp_hmac bp) (mg_Raw msg) (tk_SigningKeys (ts_Tracking s)) = Some parsed →
  IsBounce parsed = true →
  safe ph (record bp eventID t s out parsed msg d now)
    (orError (λ out' ph', ph' = ph1 ∧ oc_Recorded out' = true ∧ oc_Processed out' = oc_Processed out)).
Proof.
  intros Hfile Hparse Hib. apply (safe_let _ _ _ (λ _ ph', ph' = ph1)); [|intros ev ? ->; by apply safe_ret].
  apply safe_tcall; [done|]. intros env p td r td' Henv _ Ht Hop.
  apply createBounce_inv in Hop as [[[e ->] ->]|(v&b&->&Hnew&->&Hten&Hty&Hid&Hver)]; [by apply stay|].
  exists ph1. split; [|done]. apply Hfile. exists b. rewrite (tenantAt_Some _ _ _ Ht).
  split_and!; [|done|by apply set_onlyAt]. exists parsed. by rewrite Hten, Henv, Hty, Hid, Hver.
Qed.

Lemma upsert_safe d to shared t0 e :
  d_Lane d ≠ LaneProbe →
  (t0 = t ∧ ts_SuppressionEnabled s = true) ∨ (t0 = SystemTenantID ∧ shared = true) →
  e = zero <| sp_EmailNorm := d_EmailNorm d |>
           <| sp_Reason := if bool_decide (to = DeliveryComplained) then SuppressionComplaint else SuppressionHardBounce |>
           <| sp_SourceDeliveryID := d_ID d |> <| sp_CreatedAt := now |> →
  safe (Marked d to shared) (tcall t0 (λ env, Upsert env e)) (orError (λ _ ph, ph = Marked d to shared)).
Proof.
  intros Hlane Ht0 He. apply safe_tcall; [done|]. intros env p td r td' Henv _ Ht Hop.
  unfold Upsert in Hop. destruct (strEq (sp_EmailNorm e) ""); [injection Hop as <- <-; by apply stay|].
  apply closed_or in Hop as [[-> ->]|Hop]; [by apply stay|].
  subst e. cbn in Hop. exists (Marked d to shared).
  destruct (IsZero now); injection Hop as <- <-; (split; [|done]);
    match goal with |- context [<[_ := ?row]> (suppressions td)] => apply (bs_suppress d to shared t0 row) end;
    try done; rewrite ?(tenantAt_Some _ _ _ Ht); by apply set_onlyAt.
Qed.

Lemma forTenant_safe ph t0 : safe ph (call (λ _, ForTenant t0)) (orError (λ t1 ph', t1 = t0 ∧ ph' = ph)).
Proof.
  intros p0 env p _. unfold ForTenant, pchecked. destruct (pv_closed p); [exists ph; split; [by apply bs_quiet|done]|].
  destruct (pv_tenants p !! t0) as [td|] eqn:Ht; exists ph; (split; [|done]); apply bs_quiet; [done|].
  intros t'. unfold tenantAt. cbn. destruct (decide (t' = t0)) as [->|Hne].
  - by rewrite lookup_insert_eq, Ht.
  - by rewrite lookup_insert_ne.
Qed.

(** The delivery's sender is looked up; a shared one is noticed. *)
Lemma getSender_safe d to :
  bp_Provider bp = true →
  safe (Marked d to false) (tcall t (λ env, GetSender env (d_SenderID d))) (λ r ph,
    ∃ shared, ph = Marked d to shared ∧
      ∀ snd, r = inr snd → IsPlatformID (s_TransportID snd) = true → shared = true).
Proof.
  intros Hprov. apply safe_tcall; [exists false; by split|]. intros env p td r td' _ _ Ht Hop.
  assert (Hsame : td' = td ∧ ∀ snd, r = inr snd → senders td !! d_SenderID d = Some snd).
  { unfold GetSender, zoom, Get, checked, throw in Hop. cbn in Hop.
    destruct (e_closed env); [|destruct (senders td !! d_SenderID d) as [x|] eqn:Hx]; injection Hop as <- <-;
      (split; [by destruct td|]); intros snd Hs; by inversion Hs. }
  destruct Hsame as [-> Hrow]. destruct r as [e|snd]; [apply stay; [done|]; exists false; by split|].
  destruct (IsPlatformID (s_TransportID snd)) eqn:Hpl.
  - exists (Marked d to true). split; [|by exists true].
    eapply bs_share; [done|rewrite (tenantAt_Some _ _ _ Ht); by apply Hrow|done|by eapply set_quiet].
  - apply stay; [done|]. exists false. split; [done|]. intros ? [= <-]. by rewrite Hpl.
Qed.

Lemma suppressPlatform_safe d to e :
  d_Lane d ≠ LaneProbe →
  e = zero <| sp_EmailNorm := d_EmailNorm d |>
           <| sp_Reason := if bool_decide (to = DeliveryComplained) then SuppressionComplaint else SuppressionHardBounce |>
           <| sp_SourceDeliveryID := d_ID d |> <| sp_CreatedAt := now |> →
  safe (Marked d to false) (suppressPlatform bp t d e) (orError (λ _ ph, ∃ shared, ph = Marked d to shared)).
Proof.
  intros Hlane He. unfold suppressPlatform.
  destruct (bp_Provider bp) eqn:Hprov; cbn [negb orb]; [|apply safe_ret; by eexists].
  destruct (_ || _); [apply safe_ret; by eexists|].
  eapply safe_handle; [by apply getSender_safe|]. intros [err|snd] ? (shared&->&Hsh).
  - destruct (errIs err ErrNotFound); [apply safe_ret; by eexists|by apply safe_done].
  - destruct (IsPlatformID _) eqn:Hpl; [|apply safe_ret; by eexists]. rewrite (Hsh snd eq_refl Hpl). cbn [negb].
    eapply safe_let; [apply forTenant_safe|]. intros ? ? [-> ->].
    eapply safe_let; [by apply upsert_safe; [|right|]|]. intros ? ? ->. apply safe_ret. by eexists.
Qed.

Lemma enqueueEvent_safe d to shared parsed typ b :
  typ = (if bool_decide (to = DeliveryComplained) then EventDeliveryComplained else EventDeliveryBounced) →
  safe (Marked d to shared) (enqueueEvent bp t d parsed typ to b now) (orError (λ _ ph, ph = Announced d to)).
Proof.
  intros Htyp. unfold enqueueEvent.
  destruct (bp_marshalPayload bp _) as [payload|] eqn:Hpl; [|by apply safe_done].
  apply safe_tcall; [done|]. intros env p td r td' Henv _ Ht Hop.
  unfold Enqueue in Hop. apply closed_or in Hop as [[-> ->]|Hop]; [by apply stay|].
  cbn [enqueueLoop] in Hop. apply pair_equal_spec in Hop as [<- <-]. exists (Announced d to). split; [|done].
  match goal with |- context [stampEvent env 0 ?x] => set (e0 := x); apply (bs_announce d to shared (stampEvent env 0 e0)) end.
  - destruct (stampEvent_pending env 0 e0) as [Hpe Hte]. split_and!; [by rewrite Hte|done|by rewrite stampEvent_type|].
    rewrite stampEvent_payload. by eexists.
  - rewrite (tenantAt_Some _ _ _ Ht). by apply set_onlyAt.
Qed.

Section reported.
Context (parsed : Parsed) (id : string) (to : DeliveryStatus) (Hrep : reports parsed id to).

(** The type of the report and its status go together. *)
Lemma reports_complaint :
  bool_decide (pa_Type parsed = BounceComplaint) = bool_decide (to = DeliveryComplained) ∧
  (if bool_decide (to = DeliveryComplained) then DeliveryComplained else DeliveryBounced) = to.
Proof. destruct Hrep as (_&_&_&_&_&_&[[-> ->]|[-> ->]]); done. Qed.

Lemma mark_safe d :
  safe (Noted d to) (tcall t (λ env, if bool_decide (pa_Type parsed = BounceComplaint)
                        then MarkComplained env (d_ID d) now else MarkBounced env (d_ID d) now))
    (orError (λ changed ph, ph = if changed : bool then Marked d to false else Noted d to)).
Proof.
  destruct reports_complaint as [Hb Hto]. rewrite Hb.
  apply safe_tcall; [done|]. intros env p td r td' _ _ Ht Hop.
  assert (Hm : markTerminal env (d_ID d) to now td = (r, td'))
    by (rewrite <- Hto; by destruct (bool_decide (to = DeliveryComplained))).
  apply closed_or in Hm as [[-> ->]|Hm]; [by apply stay|].
  destruct (deliveries td !! d_ID d) as [x|] eqn:Hx; [|injection Hm as <- <-; by apply stay].
  destruct (bool_decide (d_Status x = DeliverySent)) eqn:Hs; [|injection Hm as <- <-; by apply stay].
  apply bool_decide_eq_true in Hs. injection Hm as <- <-. exists (Marked d to false). split; [|done].
  by apply (bs_mark d to x); rewrite ?(tenantAt_Some _ _ _ Ht); [| |apply set_onlyAt].
Qed.

(** From the mark on; [Noted] is where a row no longer sent stops it. *)
Lemma transition_safe out d :
  oc_Recorded out = true → oc_Processed out = false →
  safe (Noted d to) (transition bp t s out parsed d now) bounceOutcome.
Proof.
  intros Hrec Hproc. destruct reports_complaint as [Hb Hto]. unfold transition.
  eapply safe_mono; [eapply (safe_let _ _ _ _ (λ out', bounceOutcome (inr out')))|by intros [e|out']].
  { apply mark_safe. }
  intros changed ? ->. rewrite Hb, Hto. destruct changed; cbn [negb]; [|by apply safe_ret].
  set (sup := zero <| sp_EmailNorm := _ |> <| sp_Reason := _ |> <| sp_SourceDeliveryID := _ |> <| sp_CreatedAt := _ |>).
  set (good := λ out', oc_Recorded out' = true ∧ oc_Processed out' = true ∧ oc_NewStatus out' = Some to).
  apply (safe_let _ _ _ (λ out' ph, (∃ shared, ph = Marked d to shared) ∧ good out')).
  - destruct (bool_decide (d_Lane d = LaneProbe)) eqn:Hlane; [apply safe_ret; split; [by eexists|done]|].
    apply bool_decide_eq_false in Hlane.
    apply (safe_let _ _ _ (λ out' ph, ph = Marked d to false ∧ good out')).
    + destruct (ts_SuppressionEnabled s) eqn:Hen; [|by apply safe_ret].
      eapply safe_let; [by apply upsert_safe; [|left|]|]. intros ? ? ->. by apply safe_ret.
    + intros out' ? [-> Hg]. eapply safe_let; [by apply suppressPlatform_safe|].
      intros ? ph' Hph. by apply safe_ret.
  - intros out' ? [[shared ->] Hg]. eapply safe_let; [by apply enqueueEvent_safe|].
    intros ? ? ->. by apply safe_ret.
Qed.
End reported.

Lemma load_safe rand :
  safe Reading (inTenant t (LoadTenantSettings rand t now)) (orError (λ s' ph, s' = s ∧ ph = Reading)).
Proof.
  intros p0 env p Hrely. unfold onStore. destruct (pv_tenants p !! t) as [td|] eqn:Ht.
  2: { exists Reading. by split; [apply bs_quiet|]. }
  destruct (Hrely td Ht) as [Hs _]. destruct (SettingsGet _ td) as [r td'] eqn:Hop.
  apply closed_or in Hop as [[-> ->]|Hop]; [|rewrite Hs in Hop; injection Hop as <- <-];
    exists Reading; (split; [apply bs_quiet; by eapply set_quiet|done]).
Qed.

(** The delivery is read; [b] tells whether the mail is worth acting on. *)
Lemma get_safe id to (b : bool) :
  (b = true → ∃ parsed, reports parsed id to) →
  safe Reading (tcall t (λ env, GetDelivery env id)) (λ r ph,
    match r with
    | inl _ => ph = Reading
    | inr d => ph = if b && bool_decide (d_Status d = DeliverySent) then Found d to else Reading
    end).
Proof.
  intros Hb. apply safe_tcall; [done|]. intros env p td r td' _ Hrely Ht Hop.
  apply closed_or in Hop as [[-> ->]|Hop]; [by apply stay|]. destruct (Hrely td Ht) as [_ Hkeyed].
  destruct (deliveries td !! id) as [d|] eqn:Hd; injection Hop as <- <-; [|by apply stay].
  destruct (b && bool_decide (d_Status d = DeliverySent)) eqn:Hc; [|by apply stay].
  apply andb_true_iff in Hc as [Hb1 Hs%bool_decide_eq_true]. destruct (Hb Hb1) as [parsed Hrep].
  exists (Found d to). split; [|done]. pose proof (Hkeyed id d Hd) as <-.
  eapply bs_find; [done|by rewrite (tenantAt_Some _ _ _ Ht)|done|by eapply set_quiet].
Qed.

(** Every step of [Handle], under any interference, is one the automaton
    allows. *)
Lemma Handle_safe rand eventID : safe Reading (Handle bp rand eventID t msg now) bounceOutcome.
Proof.
  eapply safe_handle; [apply load_safe|]. intros [e|?] ? Hs; [by apply safe_done|]. destruct Hs as [-> ->].
  destruct (ParseWithKeys _ _ _ _) as [parsed|] eqn:Hparse; [|by apply safe_done].
  destruct (pa_AutoReply parsed) eqn:Hauto; [by apply safe_done|].
  destruct (IsBounce parsed) eqn:Hib; cbn [negb]; [|by apply safe_done].
  assert (Hfile : ∀ out d, oc_Processed out = false →
    safe Reading (record bp eventID t s out parsed msg d now) bounceOutcome).
  { intros out d Hout. eapply safe_mono; [apply (record_safe Reading Filed); [apply bs_file|done..]|].
    intros [e|out'] ph H; [done|]. destruct H as (->&?&?). cbn. split; [done|congruence]. }
  destruct (strEq (co_DeliveryID (pa_Correlation parsed)) "") eqn:Hid; [by apply Hfile|].
  destruct (_ && _) eqn:Hten; [by apply safe_done|].
  set (soft := bool_decide (pa_Type parsed = BounceSoft)).
  set (to := if bool_decide (pa_Type parsed = BounceComplaint) then DeliveryComplained else DeliveryBounced).
  set (ok := co_Verified (pa_Correlation parsed) && negb soft).
  assert (Hrep : ok = true → reports parsed (co_DeliveryID (pa_Correlation parsed)) to).
  { intros [Hver Hns%negb_true_iff%bool_decide_eq_false]%andb_true_iff. apply bool_decide_eq_false in Hid.
    refine (conj Hparse (conj Hid (conj eq_refl (conj Hver (conj _ (conj Hauto _)))))).
    - apply andb_false_iff in Hten as [H|H]; apply negb_false_iff, bool_decide_eq_true in H; auto.
    - unfold IsBounce in Hib. rewrite Hauto in Hib. apply negb_true_iff, bool_decide_eq_false in Hib.
      subst to. destruct (pa_Type parsed); try done; [by left|by right]. }
  eapply safe_handle; [apply (get_safe _ to ok); intros Hok; eexists; by apply Hrep|].
  intros [e|d] ? ->; [destruct (errIs e ErrNotFound); [by apply Hfile|by apply safe_done]|].
  subst ok. destruct (co_Verified (pa_Correlation parsed)); cbn [negb andb] in *; [|by apply Hfile].
  destruct (bool_decide (d_Status d = DeliverySent)).
  2: { rewrite andb_false_r. destruct (_ || _), soft; cbn [andb]; [by apply Hfile|by apply safe_done..]. }
  rewrite andb_true_r. destruct soft; cbn [negb] in *.
  - eapply safe_handle; [apply (record_safe Reading Filed); [apply bs_file|done..]|].
    intros [e|out'] ? H; [by apply safe_done|]. destruct H as (->&?&?). by apply safe_done.
  - eapply safe_handle; [apply (record_safe (Found d to) (Noted d to)); [apply bs_note|done..]|].
    intros [e|out'] ? H; [by apply safe_done|]. destruct H as (->&?&?). by eapply transition_safe; [apply Hrep|..].
Qed.
End steps.

(** ** Correlation and the keys *)

(** The delivery a VERP address names does not depend on the keys. *)
Lemma ParseVERP_id hmac addr keys keys' : (ParseVERP hmac addr keys).1 = (ParseVERP hmac addr keys').1.
Proof.
  unfold ParseVERP. destruct (negb _); [done|]. destruct (cutLast _ _) as [[id mac]|]; [|done].
  by destruct (_ || _).
Qed.

Lemma correlateVERP_ids hmac addrs keys keys' :
  (co_DeliveryID <$> correlateVERP hmac addrs keys) = (co_DeliveryID <$> correlateVERP hmac addrs keys') ∧
  (co_TenantID <$> correlateVERP hmac addrs keys) = (co_TenantID <$> correlateVERP hmac addrs keys').
Proof.
  induction addrs as [|a addrs IH]; [done|]. cbn. pose proof (ParseVERP_id hmac a keys keys') as Hid.
  destruct (ParseVERP hmac a keys) as [i v], (ParseVERP hmac a keys') as [i' v']. cbn in Hid. subst i'.
  by destruct (strEq i "").
Qed.

Lemma correlate_ids L hmac c keys keys' :
  co_DeliveryID (correlate L hmac c keys) = co_DeliveryID (correlate L hmac c keys') ∧
  co_TenantID (correlate L hmac c keys) = co_TenantID (correlate L hmac c keys').
Proof.
  unfold correlate. destruct (correlateVERP_ids hmac (verpCandidates L c) keys keys') as [H1 H2].
  destruct (correlateVERP _ _ keys), (correlateVERP _ _ keys'); cbn in *; simplify_eq; auto.
Qed.

(** A VERP address that does not verify decides the correlation. *)
Lemma correlate_forged L hmac c keys addrs1 addr addrs2 id :
  verpCandidates L c = addrs1 ++ addr :: addrs2 →
  Forall (λ a, (ParseVERP hmac a keys).1 = "") addrs1 →
  ParseVERP hmac addr keys = (id, false) → id ≠ "" →
  correlate L hmac c keys = mkCorrelation id "" BounceSourceVERP false.
Proof.
  intros Hc Hpre Hv Hid. unfold correlate. rewrite Hc. clear Hc.
  induction Hpre as [|a addrs1 Ha Hpre IH]; cbn.
  - rewrite Hv. unfold strEq. by rewrite bool_decide_eq_false_2.
  - destruct (ParseVERP hmac a keys) as [i v]. cbn in Ha. by subst i.
Qed.

Lemma ParseWithKeys_correlation L hmac raw keys parsed :
  ParseWithKeys L hmac raw keys = Some parsed →
  ∃ c, collect L raw = Some c ∧ pa_Correlation parsed = correlate L hmac c keys.
Proof. unfold ParseWithKeys. destruct (collect L raw) as [c|]; [|done]. intros [= <-]. by exists c. Qed.

(** ** Properties *)

(** C5 (bounce/process): everything a bounce mail sets off rests on verified
    evidence about a sent delivery.  While a mail is handled, whatever anybody
    else does between its store calls (the tenant's settings and the filing of
    rows by ID apart), its steps follow the phases of [bounceStep] over all
    tables of all tenants.  Until a step has read the delivery as sent, and the
    mail is a hard bounce or complaint about that very delivery of this tenant,
    verified by an intact VERP address or a returned header, the only change it
    can make is to file one new event in the tenant's bounce table.  After that
    it files the event, then turns the row to bounced or complained if the row
    is still sent at that instant, and only when it has done so enters the
    delivery's own address in the tenant's suppression list (if the tenant has
    suppression on and the delivery is no probe) or, having seen that its sender
    uses a shared transport, in the platform's, and queues one event about it.
    The outcome it returns tells which of these it came to. *)
Theorem bounce_steps_justified bp rand eventID t msg now s p tr r p' :
  exec (bounceRely t s) (Handle bp rand eventID t msg now) p tr r p' →
  ∃ ph, accepts (bounceStep bp t msg now s) Reading tr ph ∧ bounceOutcome r ph.
Proof.
  intros He. by eapply (mwp_sound _ _ _ _ _ _ _ _ _ (Handle_safe bp t msg now s rand eventID p)).
Qed.

Lemma quiet_sameVisible p p' : quiet p p' → sameVisible p p'.
Proof. intros Hq t. by rewrite !visibleAt_tenantAt, Hq. Qed.

Lemma filed_sameVisible bp t msg s p p' : filed bp t msg s p p' → sameVisible p p'.
Proof.
  intros (b&_&_&Ht&Hother) t'. rewrite !visibleAt_tenantAt.
  destruct (decide (t' = t)) as [->|Hne]; [by rewrite Ht|by rewrite Hother].
Qed.

(** A mail that reports nothing verified gets no further than the bounce table. *)
Lemma accepts_unreported bp t msg now s ph tr ph' :
  (∀ parsed id to, ¬ reports bp t msg s parsed id to) →
  accepts (bounceStep bp t msg now s) ph tr ph' → ph = Reading ∨ ph = Filed →
  (ph' = Reading ∨ ph' = Filed) ∧ Forall (λ st, sameVisible st.1 st.2) tr.
Proof.
  intros Hno Hacc. induction Hacc as [ph|ph ph1 ph2 st tr Hst Hacc IH]; intros Hph; [done|].
  assert (Hone : (ph1 = Reading ∨ ph1 = Filed) ∧ sameVisible st.1 st.2).
  { destruct Hst as [ph p p' Hq|p p' Hf|parsed d to p p' Hrep| | | | | ];
      [split; [done|by apply quiet_sameVisible]|split; [by right|by eapply filed_sameVisible]|
       by destruct (Hno _ _ _ Hrep)|by destruct Hph..]. }
  destruct Hone as [Hph1 Hs]. destruct (IH Hph1) as [H1 H2]. by split; [|constructor].
Qed.

(** A forged bounce address is harmless.  If the first
    address of a mail that has the shape of a bounce address carries a MAC no
    key of the tenant gives, then whatever else the mail says (a copied
    correlation header, a copied Message-ID) and whoever runs meanwhile,
    handling it changes no delivery, no suppression and emits no event. *)
Theorem forged_bounce_harmless bp rand eventID t msg now s c addrs1 addr addrs2 id p tr r p' :
  let keys := tk_SigningKeys (ts_Tracking s) in
  collect (bp_mime bp) (mg_Raw msg) = Some c →
  verpCandidates (bp_mime bp) c = addrs1 ++ addr :: addrs2 →
  Forall (λ a, (ParseVERP (bp_hmac bp) a keys).1 = "") addrs1 →
  ParseVERP (bp_hmac bp) addr keys = (id, false) → id ≠ "" →
  exec (bounceRely t s) (Handle bp rand eventID t msg now) p tr r p' →
  Forall (λ st, sameVisible st.1 st.2) tr ∧ ∀ out, r = inr out → oc_Processed out = false.
Proof.
  intros keys Hc Hcand Hpre Hv Hid He. unfold keys in *.
  assert (Hno : ∀ parsed id' to, ¬ reports bp t msg s parsed id' to).
  { intros parsed id' to (Hp&_&_&Hver&_). destruct (ParseWithKeys_correlation _ _ _ _ _ Hp) as (c'&Hc'&Hco).
    rewrite Hc in Hc'. injection Hc' as <-.
    rewrite Hco, (correlate_forged _ _ _ _ _ _ _ _ Hcand Hpre Hv Hid) in Hver. done. }
  destruct (mwp_sound _ _ _ _ _ _ _ _ _ (Handle_safe bp t msg now s rand eventID p) He) as (ph&Hacc&Hout).
  destruct (accepts_unreported _ _ _ _ _ _ _ _ Hno Hacc (or_introl eq_refl)) as [Hph Htr]. split; [done|].
  intros out ->. by destruct Hph as [->| ->], Hout.
Qed.

(** ** Runs *)

Lemma run_tcall {A} env t (op : Env → M tenantData A) p td :
  pv_tenants p !! t = Some td →
  run env (tcall t op) p =
    let '(r, td') := op (mkEnv (pv_closed p) (e_clock env) t (e_newID env)) td in (r, setTenant t td' p).
Proof.
  intros Ht. cbn. unfold onStore. rewrite Ht. by destruct (op _ td).
Qed.

Lemma run_forTenant env t p td :
  pv_closed p = false → pv_tenants p !! t = Some td → run env (call (λ _, ForTenant t)) p = (inr t, p).
Proof. intros Hcl Ht. rewrite run_call. unfold ForTenant, pchecked. by rewrite Hcl, Ht. Qed.

(** A shared mailbox serves the tenant the mail is about.
    A report that names a delivery but no tenant, read from a mailbox all
    tenants share, is handled exactly as if it had come into the mailbox of the
    one tenant that holds the delivery; and what that tenant's keys say about
    it concerns the delivery the unverified reading named. *)
Theorem platform_mailbox_equiv bp rand eventID env t td msg now parsed p :
  let id := co_DeliveryID (pa_Correlation parsed) in
  pv_closed p = false → pv_tenants p !! t = Some td → is_Some (deliveries td !! id) →
  (∀ t1 t2 td1 td2, pv_tenants p !! t1 = Some td1 → pv_tenants p !! t2 = Some td2 →
     is_Some (deliveries td1 !! id) → is_Some (deliveries td2 !! id) → t1 = t2) →
  ParseWithKeys (bp_mime bp) (bp_hmac bp) (mg_Raw msg) [] = Some parsed →
  co_TenantID (pa_Correlation parsed) = "" → id ≠ "" →
  run env (HandlePlatform bp rand eventID msg now) p = run env (Handle bp rand eventID t msg now) p ∧
  ∀ keys parsed', ParseWithKeys (bp_mime bp) (bp_hmac bp) (mg_Raw msg) keys = Some parsed' →
    co_DeliveryID (pa_Correlation parsed') = id ∧ co_TenantID (pa_Correlation parsed') = "".
Proof.
  intros id Hcl Ht Hd Huniq Hparse Hten Hid. split.
  - unfold HandlePlatform. rewrite run_pbind.
    assert (Hres : run env (resolveTenant bp msg) p = (inr t, p)).
    { unfold resolveTenant. rewrite Hparse, Hten. fold id. unfold strEq.
      rewrite (bool_decide_eq_true_2 ("" = "")), (bool_decide_eq_false_2 (id = "")) by done. cbn [negb].
      rewrite run_handle, run_call.
      destruct (lookup_delivery_tenant_exact p id Hcl Huniq) as (Hl&_).
      by rewrite (proj2 (Hl t) (conj Hid (ex_intro _ td (conj Ht Hd)))). }
    by rewrite Hres, run_pbind, (run_forTenant _ _ _ td).
  - intros keys parsed' Hparse'.
    destruct (ParseWithKeys_correlation _ _ _ _ _ Hparse) as (c&Hc&Hco).
    destruct (ParseWithKeys_correlation _ _ _ _ _ Hparse') as (c'&Hc'&Hco'). rewrite Hc in Hc'. injection Hc' as <-.
    destruct (correlate_ids (bp_mime bp) (bp_hmac bp) c keys []) as [H1 H2].
    unfold id. rewrite <- Hten, Hco', Hco. by split.
Qed.

Section runs.
Context (bp : processor) (rand eventID t : string) (env : Env) (msg : Message) (now : Time) (s : TenantSettings).

Lemma setTenant_id t0 td p : pv_tenants p !! t0 = Some td → setTenant t0 td p = p.
Proof.
  intros Ht. unfold setTenant. rewrite insert_id by done. by destruct p.
Qed.

Lemma setTenant_lookup t0 td p : pv_tenants (setTenant t0 td p) !! t0 = Some td.
Proof. apply lookup_insert_eq. Qed.

Lemma run_load p td :
  pv_closed p = false → pv_tenants p !! t = Some td → settings td = Some s →
  run env (inTenant t (LoadTenantSettings rand t now)) p = (inr s, p).
Proof.
  intros Hcl Ht Hs. cbn. unfold onStore. rewrite Ht. unfold SettingsGet, checked, throw. cbn.
  rewrite Hcl, Hs. cbn. f_equal. by apply (setTenant_id t td).
Qed.

Lemma run_get p td id d :
  pv_closed p = false → pv_tenants p !! t = Some td → deliveries td !! id = Some d →
  run env (tcall t (λ env, GetDelivery env id)) p = (inr d, p).
Proof.
  intros Hcl Ht Hd. rewrite (run_tcall _ _ _ _ td Ht). unfold GetDelivery, checked, throw. cbn.
  rewrite Hcl, Hd. f_equal. by apply setTenant_id.
Qed.

Lemma run_record p td out parsed d :
  pv_closed p = false → pv_tenants p !! t = Some td → bounces td !! eventID = None → eventID ≠ "" →
  ∃ b, run env (record bp eventID t s out parsed msg d now) p =
    (inr (out <| oc_Recorded := true |> <| oc_EventID := eventID |>),
     setTenant t (td <| bounces := <[eventID := b]> (bounces td) |>) p).
Proof.
  intros Hcl Ht Hb Hid. unfold record. rewrite run_pbind, (run_tcall _ _ _ _ td Ht).
  set (ev := bounceEvent bp eventID s parsed msg d now).
  assert (Hev : b_ID ev = eventID) by reflexivity. clearbody ev.
  unfold CreateBounce, zoomWith, Create, checked, throw. cbn. rewrite Hcl, Hev. unfold strEq.
  rewrite (bool_decide_eq_false_2 (eventID = "")) by done. rewrite Hev, Hb. cbn.
  destruct (IsZero (b_CreatedAt ev)); cbn; rewrite Hev; eexists; reflexivity.
Qed.

Lemma run_mark p td id d parsed to :
  reports bp t msg s parsed id to → d_ID d = id →
  pv_closed p = false → pv_tenants p !! t = Some td → deliveries td !! id = Some d → d_Status d = DeliverySent →
  run env (tcall t (λ env, if bool_decide (pa_Type parsed = BounceComplaint)
                           then MarkComplained env (d_ID d) now else MarkBounced env (d_ID d) now)) p =
    (inr true, setTenant t (td <| deliveries := <[id := markTerminalRow to now d]> (deliveries td) |>) p).
Proof.
  intros Hrep Hid Hcl Ht Hd Hs. rewrite (run_tcall _ _ _ _ td Ht), Hid.
  destruct Hrep as (_&_&_&_&_&_&[[Hty ->]|[Hty ->]]); rewrite Hty;
    [rewrite bool_decide_eq_false_2 by done|rewrite bool_decide_eq_true_2 by done];
    unfold MarkComplained, MarkBounced, markTerminal, checked, throw; cbn; rewrite Hcl, Hd, Hs; done.
Qed.

(** The entry a bounce writes into a suppression list. *)
Definition suppressionOf (t0 : string) (d : Delivery) (to : DeliveryStatus) : Suppression :=
  mkSuppression t0 (d_EmailNorm d)
    (if bool_decide (to = DeliveryComplained) then SuppressionComplaint else SuppressionHardBounce)
    (d_ID d) (TruncateTime now) (TruncateTime zeroTime).

Lemma run_upsert p t0 td d to sup :
  sup = zero <| sp_EmailNorm := d_EmailNorm d |>
             <| sp_Reason := if bool_decide (to = DeliveryComplained) then SuppressionComplaint else SuppressionHardBounce |>
             <| sp_SourceDeliveryID := d_ID d |> <| sp_CreatedAt := now |> →
  pv_closed p = false → pv_tenants p !! t0 = Some td → d_EmailNorm d ≠ "" → IsZero now = false →
  ∃ v, run env (tcall t0 (λ env, Upsert env sup)) p =
    (inr v, setTenant t0 (td <| suppressions := <[d_EmailNorm d := suppressionOf t0 d to]> (suppressions td) |>) p).
Proof.
  intros -> Hcl Ht He Hnow. rewrite (run_tcall _ _ _ _ td Ht). unfold Upsert, checked, throw. cbn.
  unfold strEq. rewrite (bool_decide_eq_false_2 (d_EmailNorm d = "")) by done. rewrite Hcl. cbn. rewrite Hnow.
  eexists. reflexivity.
Qed.

Lemma run_getSender p td id :
  pv_closed p = false → pv_tenants p !! t = Some td →
  run env (tcall t (λ env, GetSender env id)) p =
    (match senders td !! id with Some x => inr x | None => inl ErrNotFound end, p).
Proof.
  intros Hcl Ht. rewrite (run_tcall _ _ _ _ td Ht). unfold GetSender, zoom, Get, checked, throw. cbn. rewrite Hcl.
  destruct (senders td !! id); cbn; f_equal; apply setTenant_id; rewrite Ht; by destruct td.
Qed.

(** Whether the delivery went out through a shared transport. *)
Definition sharedSend (td : tenantData) (d : Delivery) : bool :=
  bp_Provider bp && negb (strEq (d_SenderID d) "") &&
  match senders td !! d_SenderID d with Some x => IsPlatformID (s_TransportID x) | None => false end.

(** The provider after a write to the system tenant's suppression list. *)
Definition platformSuppressed (d : Delivery) (to : DeliveryStatus) (p : Provider) : Provider :=
  let sys := default newTenantData (pv_tenants p !! SystemTenantID) in
  setTenant SystemTenantID
    (sys <| suppressions := <[d_EmailNorm d := suppressionOf SystemTenantID d to]> (suppressions sys) |>) p.

Lemma run_suppressPlatform p td d to sup :
  sup = zero <| sp_EmailNorm := d_EmailNorm d |>
             <| sp_Reason := if bool_decide (to = DeliveryComplained) then SuppressionComplaint else SuppressionHardBounce |>
             <| sp_SourceDeliveryID := d_ID d |> <| sp_CreatedAt := now |> →
  pv_closed p = false → pv_tenants p !! t = Some td → d_EmailNorm d ≠ "" → IsZero now = false →
  run env (suppressPlatform bp t d sup) p =
    (inr tt, if sharedSend td d then platformSuppressed d to p else p).
Proof.
  intros Hsup Hcl Ht He Hnow. unfold suppressPlatform, sharedSend.
  assert (Hne : strEq (d_EmailNorm d) "" = false) by (unfold strEq; by rewrite bool_decide_eq_false_2).
  rewrite Hne, orb_false_r. destruct (bp_Provider bp); cbn [negb orb andb]; [|done].
  destruct (strEq (d_SenderID d) ""); cbn [negb andb]; [done|].
  rewrite run_handle, (run_getSender _ td) by done.
  destruct (senders td !! d_SenderID d) as [x|] eqn:Hx; [|done].
  destruct (IsPlatformID (s_TransportID x)); cbn [negb]; [|done].
  rewrite run_pbind, run_call. unfold ForTenant, pchecked, platformSuppressed. rewrite Hcl.
  destruct (pv_tenants p !! SystemTenantID) as [sys|] eqn:Hsys; cbv beta iota; cbn [default].
  - rewrite run_pbind. destruct (run_upsert p SystemTenantID sys d to sup) as [v Hv]; [done..|]. by rewrite Hv.
  - rewrite run_pbind.
    destruct (run_upsert (setTenant SystemTenantID newTenantData p) SystemTenantID newTenantData d to sup)
      as [v Hv]; [done|done|apply setTenant_lookup|done|done|].
    unfold setTenant in Hv at 1. rewrite Hv. cbn. f_equal. unfold setTenant. cbn. by rewrite insert_insert_eq.
Qed.

Lemma run_enqueueEvent p td d parsed typ status b :
  pv_closed p = false → pv_tenants p !! t = Some td → (∀ x, is_Some (bp_marshalPayload bp x)) →
  ∃ ev, o_Type ev = typ ∧
    run env (enqueueEvent bp t d parsed typ status b now) p =
      (inr tt, setTenant t (td <| outbox := <[e_newID env 0 := ev]> (outbox td) |>) p).
Proof.
  intros Hcl Ht Hm. unfold enqueueEvent.
  match goal with |- context [bp_marshalPayload bp ?x] => destruct (Hm x) as [payload ->] end.
  rewrite (run_tcall _ _ _ _ td Ht). unfold Enqueue, checked, throw. cbn [e_closed]. rewrite Hcl.
  cbn [enqueueLoop].
  match goal with |- context [stampEvent ?e 0 ?x] =>
    exists (stampEvent e 0 x); split; [apply stampEvent_type|];
    assert (Hid : o_ID (stampEvent e 0 x) = e_newID env 0)
      by (unfold stampEvent; cbn; repeat (destruct (IsZero _); cbn); done)
  end.
  by rewrite Hid.
Qed.

(** The tenant's data after its sent delivery [d] was reported. *)
Definition bouncedData (td : tenantData) (id : string) (d : Delivery) (to : DeliveryStatus) (b : BounceEvent)
    (ev : OutboxEvent) : tenantData :=
  let td := td <| bounces := <[eventID := b]> (bounces td) |>
               <| deliveries := <[id := markTerminalRow to now d]> (deliveries td) |> in
  let td := if negb (bool_decide (d_Lane d = LaneProbe)) && ts_SuppressionEnabled s
            then td <| suppressions := <[d_EmailNorm d := suppressionOf t d to]> (suppressions td) |> else td in
  td <| outbox := <[e_newID env 0 := ev]> (outbox td) |>.

Lemma platformSuppressed_at d to p t0 :
  t0 ≠ SystemTenantID → pv_tenants (platformSuppressed d to p) !! t0 = pv_tenants p !! t0.
Proof. intros Hne. cbn. by rewrite lookup_insert_ne. Qed.

Lemma setTenant_twice t0 td td' p : setTenant t0 td' (setTenant t0 td p) = setTenant t0 td' p.
Proof. unfold setTenant. cbn. by rewrite insert_insert_eq. Qed.

Lemma platformSuppressed_set d to t0 td p :
  t0 ≠ SystemTenantID →
  platformSuppressed d to (setTenant t0 td p) = setTenant t0 td (platformSuppressed d to p).
Proof.
  intros Hne. unfold platformSuppressed, setTenant. cbn. rewrite lookup_insert_ne by done.
  by rewrite insert_insert_ne.
Qed.

(** The provider after the handler is through with the delivery. *)
Definition bouncedState (p : Provider) (td : tenantData) (id : string) (d : Delivery) (to : DeliveryStatus)
    (b : BounceEvent) (ev : OutboxEvent) : Provider :=
  setTenant t (bouncedData td id d to b ev)
    (if negb (bool_decide (d_Lane d = LaneProbe)) && sharedSend td d then platformSuppressed d to p else p).

(** The tenant's own list is written if the tenant wants one. *)
Lemma run_suppressOwn p td d to sup out :
  sup = zero <| sp_EmailNorm := d_EmailNorm d |>
             <| sp_Reason := if bool_decide (to = DeliveryComplained) then SuppressionComplaint else SuppressionHardBounce |>
             <| sp_SourceDeliveryID := d_ID d |> <| sp_CreatedAt := now |> →
  pv_closed p = false → d_EmailNorm d ≠ "" → IsZero now = false →
  ∃ b, run env (if ts_SuppressionEnabled s then
                  let? _ := tcall t (λ env, Upsert env sup) in pret (out <| oc_Suppressed := true |>)
                else pret out) (setTenant t td p) =
    (inr (out <| oc_Suppressed := b |>),
     setTenant t (if ts_SuppressionEnabled s
                  then td <| suppressions := <[d_EmailNorm d := suppressionOf t d to]> (suppressions td) |> else td) p).
Proof.
  intros Hsup Hcl He Hnow.
  destruct (ts_SuppressionEnabled s); [exists true|by exists (oc_Suppressed out); destruct out].
  rewrite run_pbind. destruct (run_upsert (setTenant t td p) t td d to sup) as [v Hv];
    [done|done|apply setTenant_lookup|done|done|]. by rewrite Hv, setTenant_twice.
Qed.

Lemma run_transition p td b id d parsed to out :
  reports bp t msg s parsed id to → d_ID d = id →
  pv_closed p = false → t ≠ SystemTenantID →
  deliveries td !! id = Some d → d_Status d = DeliverySent → d_EmailNorm d ≠ "" → IsZero now = false →
  (∀ x, is_Some (bp_marshalPayload bp x)) → oc_Skipped out = "" →
  ∃ out' ev,
    run env (transition bp t s out parsed d now)
      (setTenant t (td <| bounces := <[eventID := b]> (bounces td) |>) p) =
      (inr out', bouncedState p td id d to b ev) ∧
    oc_Processed out' = true ∧ oc_NewStatus out' = Some to ∧ oc_Skipped out' = "" ∧
    o_Type ev = (if bool_decide (to = DeliveryComplained) then EventDeliveryComplained else EventDeliveryBounced).
Proof.
  intros Hrep Hid Hcl Hsys Hd Hst He Hnow Hm Hskip.
  assert (Hb : bool_decide (pa_Type parsed = BounceComplaint) = bool_decide (to = DeliveryComplained)).
  { destruct Hrep as (_&_&_&_&_&_&[[-> ->]|[-> ->]]); done. }
  assert (Hto : (if bool_decide (to = DeliveryComplained) then DeliveryComplained else DeliveryBounced) = to).
  { destruct Hrep as (_&_&_&_&_&_&[[_ ->]|[_ ->]]); done. }
  set (td1 := td <| bounces := _ |>). unfold transition.
  rewrite run_pbind, (run_mark _ td1 id d parsed to) by (done || apply setTenant_lookup).
  cbv beta iota. cbn [negb]. rewrite Hb, Hto, setTenant_twice, run_pbind.
  set (td2 := td1 <| deliveries := _ |>). unfold bouncedState, bouncedData. fold td1. 
  destruct (bool_decide (d_Lane d = LaneProbe)); cbn [negb andb].
  - change (run env (pret ?x) ?q) with (@inr error _ x, q).
    cbv beta iota. rewrite run_pbind.
    edestruct (run_enqueueEvent (setTenant t td2 p) td2) as (ev&Hev&Hrun);
      [done|apply setTenant_lookup|done|rewrite Hrun, setTenant_twice].
    eexists _, ev. split_and!; [reflexivity|done..].
  - pose (td3 := if ts_SuppressionEnabled s
                 then td2 <| suppressions := <[d_EmailNorm d := suppressionOf t d to]> (suppressions td2) |> else td2).
    set (sup := zero <| sp_EmailNorm := _ |> <| sp_Reason := _ |> <| sp_SourceDeliveryID := _ |> <| sp_CreatedAt := _ |>).
    set (out1 := out <| oc_Processed := true |> <| oc_NewStatus := Some to |>).
    destruct (run_suppressOwn p td2 d to sup out1) as [b' Hinner]; [done..|]. fold td3 in Hinner.
    rewrite run_pbind, Hinner. cbv beta iota.
    assert (Hsh : sharedSend td3 d = sharedSend td d) by (subst td3; by destruct (ts_SuppressionEnabled s)).
    rewrite run_pbind, (run_suppressPlatform _ td3 d to sup) by (done || apply setTenant_lookup).
    rewrite Hsh. cbv beta iota. change (run env (pret ?x) ?q) with (@inr error _ x, q). cbv beta iota.
    set (p4 := if sharedSend td d then platformSuppressed d to (setTenant t td3 p) else setTenant t td3 p).
    assert (Hp4 : p4 = setTenant t td3 (if sharedSend td d then platformSuppressed d to p else p)).
    { subst p4. destruct (sharedSend td d); [by rewrite platformSuppressed_set|done]. }
    rewrite Hp4, run_pbind.
    edestruct (run_enqueueEvent (setTenant t td3 (if sharedSend td d then platformSuppressed d to p else p)) td3)
      as (ev&Hev&Hrun); [by destruct (sharedSend td d)|apply setTenant_lookup|done|rewrite Hrun, setTenant_twice].
    eexists _, ev. split_and!; [reflexivity|done..].
Qed.

(** A verified hard bounce or complaint, once its delivery is read. *)
Lemma run_Handle_reports p td id d parsed to :
  reports bp t msg s parsed id to →
  pv_closed p = false → pv_tenants p !! t = Some td → settings td = Some s → deliveries td !! id = Some d →
  let out := zero <| oc_Parsed := Some parsed |> in
  run env (Handle bp rand eventID t msg now) p =
    if bool_decide (d_Status d = DeliverySent)
    then run env (let? out := record bp eventID t s out parsed msg (Some d) now in
                  transition bp t s out parsed d now) p
    else (inr (out <| oc_Skipped :=
                 if bool_decide (d_Status d = DeliveryBounced) || bool_decide (d_Status d = DeliveryComplained)
                 then SkipAlreadyTerminal else SkipDeliveryNotSent |>), p).
Proof.
  intros Hrep Hcl Ht Hs Hd out. destruct Hrep as (Hparse&Hid&Hco&Hver&Hten&Hauto&Hty).
  unfold Handle. rewrite run_pbind, (run_load p td), Hparse, Hauto, Hver, Hco by done. cbv beta iota.
  assert (Hib : IsBounce parsed = true).
  { unfold IsBounce. rewrite Hauto. by destruct Hty as [[-> _]|[-> _]]. }
  assert (Hsoft : bool_decide (pa_Type parsed = BounceSoft) = false) by (by destruct Hty as [[-> _]|[-> _]]).
  assert (Hid' : strEq id "" = false) by (unfold strEq; by rewrite bool_decide_eq_false_2).
  assert (Htt : negb (strEq (co_TenantID (pa_Correlation parsed)) "") &&
                negb (strEq (co_TenantID (pa_Correlation parsed)) t) = false).
  { unfold strEq. destruct Hten as [->| ->]; [done|]. rewrite (bool_decide_eq_true_2 (t = t)) by done.
    by rewrite andb_false_r. }
  rewrite Hib, Hid', Htt. cbn [negb]. rewrite run_handle, (run_get p td id d) by done. cbv beta iota.
  rewrite Hsoft, andb_false_r. destruct (bool_decide (d_Status d = DeliverySent)); [done|].
  by destruct (_ || _).
Qed.

(** A report on a sent delivery goes all the way. *)
Lemma run_Handle_sent p td id d parsed to :
  reports bp t msg s parsed id to → d_ID d = id →
  pv_closed p = false → t ≠ SystemTenantID → pv_tenants p !! t = Some td → settings td = Some s →
  bounces td !! eventID = None → eventID ≠ "" →
  deliveries td !! id = Some d → d_Status d = DeliverySent → d_EmailNorm d ≠ "" → IsZero now = false →
  (∀ x, is_Some (bp_marshalPayload bp x)) →
  ∃ out b ev,
    run env (Handle bp rand eventID t msg now) p = (inr out, bouncedState p td id d to b ev) ∧
    oc_Processed out = true ∧ oc_NewStatus out = Some to ∧ oc_Skipped out = "" ∧
    o_Type ev = (if bool_decide (to = DeliveryComplained) then EventDeliveryComplained else EventDeliveryBounced).
Proof.
  intros Hrep Hdid Hcl Hsys Ht Hs Hb Hev Hd Hst He Hnow Hm.
  rewrite (run_Handle_reports p td id d parsed to) by done. rewrite bool_decide_eq_true_2 by done.
  destruct (run_record p td (zero <| oc_Parsed := Some parsed |>) parsed (Some d)) as [b Hrec]; [done..|].
  rewrite run_pbind, Hrec. cbv beta iota.
  destruct (run_transition p td b id d parsed to
    (zero <| oc_Parsed := Some parsed |> <| oc_Recorded := true |> <| oc_EventID := eventID |>)) as (out&ev&Hrun&H); [done..|]. rewrite Hrun. by exists out, b, ev.
Qed.
End runs.


(** ** Concrete runs *)

(** A library that reads every message as a delivery report with the message
    text as its envelope recipient. *)
Definition sampleMime : mimeLib := {|
  ml_ReadMessage raw :=
    Some (<["Content-Type" := ["message/delivery-status"]]> (<["To" := [raw]]> ∅), "per-message");
  ml_ParseMediaType v := Some (v, ∅);
  ml_Parts _ _ := [];
  ml_Base64 s := s;
  ml_QuotedPrintable s := s;
  ml_ReadMIMEHeader s :=
    if strEq s "per-message" then (<["Reporting-Mta" := ["dns; mx.example"]]> ∅, Some "recipient")
    else (<["Action" := ["failed"]]> (<["Status" := ["5.1.1"]]> ∅), None);
  ml_DecodeHeader v := Some v;
  ml_ParseDate _ := None;
  ml_ParseAddress v := Some v;
  ml_ToLower s := s;
|}.

Definition sampleProcessor : processor :=
  mkProcessor sampleMime sampleHMAC (λ s, Some s) (λ _, Some "{}") (λ s, Some s) true DefaultMaxRawBytes.

Definition bounceSettings : TenantSettings :=
  zero <| ts_SuppressionEnabled := true |> <| ts_Tracking := zero <| tk_SigningKeys := sampleKeys |> |>.

Definition bounceDelivery : Delivery :=
  zero <| d_ID := "d1" |> <| d_Email := "Ann@example.com" |> <| d_EmailNorm := "ann@example.com" |>
       <| d_Status := DeliverySent |> <| d_SenderID := "s1" |>.

Definition bounceData : tenantData :=
  newTenantData <| settings := Some bounceSettings |> <| deliveries := <["d1" := bounceDelivery]> ∅ |>
    <| senders := <["s1" := zero <| s_TransportID := "sys:relay" |>]> ∅ |>.

Definition bounceProvider : Provider := mkProvider false (<["acme" := bounceData]> ∅).

Definition bounceEnv : Env := mkEnv false Hour "acme" (λ _, "e1").

Definition bounceSecret : string :=
  match SelectKey sampleKeys with Some k => sk_Secret k | None => "" end.

Definition bounceMail : Message := mkMessage "m1" (VERPAddress sampleHMAC "b.example" "d1" bounceSecret) zeroTime.
Definition forgedMail : Message := mkMessage "m2" "bounce+d1.00000000@b.example" zeroTime.

Definition handleOnce (msg : Message) : progOn Provider Outcome :=
  Handle sampleProcessor "" "ev1" "acme" msg Hour.

(** The rely condition, computed. *)
Definition relyHolds (p : Provider) : bool :=
  match pv_tenants p !! "acme" with
  | Some td =>
      bool_decide (settings td = Some bounceSettings) &&
      bool_decide (map_Forall (λ id d, d_ID d = id) (deliveries td))
  | None => true
  end.

Lemma relyHolds_spec p p' : relyHolds p' = true → bounceRely "acme" bounceSettings p p'.
Proof.
  unfold relyHolds, bounceRely. destruct (pv_tenants p' !! "acme") as [td|]; [|done].
  rewrite andb_true_iff, !bool_decide_eq_true. intros [Hs Hk] ? [= <-]. by split.
Qed.

(** A run along which it holds is an interleaving. *)
Lemma sample_exec msg :
  forallb (λ st, relyHolds st.1) (steps bounceEnv (handleOnce msg) bounceProvider) = true →
  exec (bounceRely "acme" bounceSettings) (handleOnce msg) bounceProvider
    (steps bounceEnv (handleOnce msg) bounceProvider)
    (run bounceEnv (handleOnce msg) bounceProvider).1 (run bounceEnv (handleOnce msg) bounceProvider).2.
Proof.
  intros H. apply (steps_exec (λ p', bounceRely "acme" bounceSettings bounceProvider p')).
  apply Forall_forall. intros st Hst%list_elem_of_In. rewrite forallb_forall in H. by apply relyHolds_spec, H.
Qed.

Lemma bounce_steps_justified_witness :
  ∃ d, accepts (bounceStep sampleProcessor "acme" bounceMail Hour bounceSettings) Reading
    (steps bounceEnv (handleOnce bounceMail) bounceProvider) (Announced d DeliveryBounced).
Proof.
  destruct (bounce_steps_justified sampleProcessor "" "ev1" "acme" bounceMail Hour bounceSettings bounceProvider
    (steps bounceEnv (handleOnce bounceMail) bounceProvider) _ _ (sample_exec bounceMail ltac:(by vm_compute)))
    as (ph&Hacc&Hout).
  destruct (run bounceEnv (handleOnce bounceMail) bounceProvider).1 as [e|out] eqn:Hrun; [by vm_compute in Hrun|].
  assert (Hp : oc_Processed out = true ∧ oc_NewStatus out = Some DeliveryBounced)
    by (vm_compute in Hrun; injection Hrun as <-; by split).
  destruct Hp as [Hp Hn]. clear Hrun.
  destruct ph as [| |d to|d to|d to sh|d to]; cbn in Hout; [destruct Hout; congruence..|done|destruct Hout; congruence|done|].
  destruct Hout as (_&_&Hn'). rewrite Hn in Hn'. injection Hn' as <-. by exists d.
Defined.

Lemma forged_bounce_harmless_witness :
  Forall (λ st, sameVisible st.1 st.2) (steps bounceEnv (handleOnce forgedMail) bounceProvider).
Proof.
  destruct (collect sampleMime (mg_Raw forgedMail)) as [c|] eqn:Hc; [|by vm_compute in Hc].
  assert (Hcand : verpCandidates sampleMime c = [] ++ mg_Raw forgedMail :: []).
  { vm_compute in Hc. injection Hc as <-. by vm_compute. }
  exact (proj1 (forged_bounce_harmless sampleProcessor "" "ev1" "acme" forgedMail Hour bounceSettings
    c [] (mg_Raw forgedMail) [] "d1" bounceProvider _ _ _
    Hc Hcand ltac:(constructor) ltac:(by vm_compute) ltac:(done)
    (sample_exec forgedMail ltac:(by vm_compute)))).
Defined.

Lemma bounce_reports :
  ∃ parsed, reports sampleProcessor "acme" bounceMail bounceSettings parsed "d1" DeliveryBounced.
Proof. eexists. split; [by vm_compute|]. split_and!; [done..|by left|done|by left]. Qed.


Lemma bounce_unverified_reading : ∃ parsed,
  ParseWithKeys sampleMime sampleHMAC (mg_Raw bounceMail) [] = Some parsed ∧
  co_DeliveryID (pa_Correlation parsed) = "d1" ∧ co_TenantID (pa_Correlation parsed) = "".
Proof. eexists. split; [by vm_compute|]. by split. Qed.

Lemma platform_mailbox_equiv_witness :
  run bounceEnv (HandlePlatform sampleProcessor "" "ev1" bounceMail Hour) bounceProvider =
  run bounceEnv (Handle sampleProcessor "" "ev1" "acme" bounceMail Hour) bounceProvider.
Proof.
  destruct bounce_unverified_reading as (parsed&Hp&Hid&Hten).
  refine (proj1 (platform_mailbox_equiv sampleProcessor "" "ev1" bounceEnv "acme" bounceData bounceMail Hour parsed
    bounceProvider eq_refl eq_refl _ _ Hp Hten _)).
  - rewrite Hid. by eexists.
  - intros t1 t2 td1 td2. cbn [pv_tenants bounceProvider]. rewrite !lookup_insert_Some, !lookup_empty.
    by intros [[<- _]|[_ ?]] [[<- _]|[_ ?]].
  - by rewrite Hid.
Defined.

(** A process that dies between marking the delivery and suppressing its
    address leaves the mail in the mailbox; the next reading finds the delivery
    bounced, drops the mail, and neither list nor outbox ever hears of it. *)
Theorem bounce_crash_loses_suppression :
  let p1 := runFor 4 bounceEnv (handleOnce bounceMail) bounceProvider in
  let '(r, p2) := run bounceEnv (handleOnce bounceMail) p1 in
  match r with inr out => oc_Skipped out | inl _ => "error" end = SkipAlreadyTerminal ∧
  d_Status <$> (vi_deliveries (visibleAt "acme" p2) !! "d1") = Some DeliveryBounced ∧
  vi_suppressions (visibleAt "acme" p2) = ∅ ∧ vi_outbox (visibleAt "acme" p2) = ∅ ∧
  vi_suppressions (visibleAt SystemTenantID p2) = ∅.
Proof. by vm_compute. Qed.
