(* ===== verification/Message.v ===== *)
(** * Building a message ([internal/sender/message.go], [process.go], [tracking.go])

    What goes on the wire for one delivery: the rendered parts with their
    tracking links, the unsubscribe links, and the checks that keep a caller's
    text out of the header block.  Template engines, the HTML rewriter, the
    MIME writer (go-mail) and the DKIM signer are arguments; what is handed to
    them, field by field, is [messageDraft]. *)

From Stdlib Require Import DecimalString DecimalN.
From S2P Require Import Prelude Enums Model Classify Codec Tokens Email BounceReport.

Definition ErrHeaderInjection : error := errNamed "sender: header injection".
Definition ErrHeaderNotAllowed : error := errNamed "sender: header not allowed".
Definition ErrNoBody : error := errNamed "sender: message has no body".

(** ** URLs *)

Definition PathOpen : string := "/t/o/".
Definition PathClick : string := "/t/c/".
Definition PathUnsubscribe : string := "/t/u/".
Definition DestParam : string := "u".

Definition unreserved (c : Ascii.ascii) : bool :=
  let n := byteVal c in
  isDigit c || ((65 <=? n) && (n <=? 90)) || ((97 <=? n) && (n <=? 122)) || contains [45; 95; 46; 126] n.

(** The sub-delimiters a path segment may hold: [$ & + = : @] *)
Definition pathSafe (c : Ascii.ascii) : bool := unreserved c || contains [36; 38; 43; 61; 58; 64] (byteVal c).

Definition upperHex (n : Z) : Ascii.ascii := if n <? 10 then toByte (48 + n) else toByte (55 + n).

Definition percent (c : Ascii.ascii) : string :=
  let n := byteVal c in String (toByte 37) (String (upperHex (n / 16)) (String (upperHex (n `mod` 16)) "")).

(** [url.PathEscape] *)
Fixpoint PathEscape (s : string) : string :=
  match s with
  | EmptyString => ""
  | String c s' => (if pathSafe c then String c "" else percent c) +:+ PathEscape s'
  end.

(** [url.QueryEscape] *)
Fixpoint QueryEscape (s : string) : string :=
  match s with
  | EmptyString => ""
  | String c s' =>
      (if unreserved c then String c "" else if byteVal c =? 32 then "+" else percent c) +:+ QueryEscape s'
  end.

(** [base] *)
Definition base (domain : string) : string :=
  let d := TrimSpace domain in
  if strEq d "" then ""
  else
    let d := if strContains d "://" then d else "https://" +:+ d in
    trimRightSet [toByte 47] d.

(** [OpenURL] and [UnsubscribeURL] *)
Definition tokenURL (path domain token : string) : string :=
  let b := base domain in
  if strEq b "" || strEq token "" then "" else b +:+ path +:+ PathEscape token.
Definition OpenURL : string → string → string := tokenURL PathOpen.
Definition UnsubscribeURL : string → string → string := tokenURL PathUnsubscribe.

(** [ClickURL] *)
Definition ClickURL (domain token dest : string) : string :=
  let b := base domain in
  if strEq b "" || strEq token "" then ""
  else b +:+ PathClick +:+ PathEscape token +:+ "?" +:+ DestParam +:+ "=" +:+ QueryEscape dest.

(** ** Outbound messages *)

(** [host.RecipientContext] *)
Record RecipientContext := mkRecipientContext {
  rx_TenantID : string;
  rx_CampaignID : string;
  rx_DeliveryID : string;
  rx_Email : string;
  rx_EmailNorm : string;
  rx_Name : string;
  rx_Locale : string;
  rx_Vars : gmap string Any;
}.

(** [host.OutboundMessage] *)
Record OutboundMessage := mkOutboundMessage {
  om_TenantID : string;
  om_DeliveryID : string;
  om_CampaignID : string;
  om_VersionID : string;
  om_SenderID : string;
  om_Lane : Lane;
  om_Recipient : RecipientContext;
  om_FromName : string;
  om_From : string;
  om_ReplyTo : string;
  om_Subject : string;
  om_HTML : string;
  om_Text : string;
  om_Headers : gmap string string;
  om_UnsubscribeURL : string;
}.

#[global] Instance OutboundMessage_eta : Eta OutboundMessage := λ m,
  mkOutboundMessage (om_TenantID m) (om_DeliveryID m) (om_CampaignID m) (om_VersionID m) (om_SenderID m) (om_Lane m)
    (om_Recipient m) (om_FromName m) (om_From m) (om_ReplyTo m) (om_Subject m) (om_HTML m) (om_Text m) (om_Headers m)
    (om_UnsubscribeURL m).

Definition SenderHeaderID : string := "X-Sendplane-ID".
Definition HeaderAttempt : string := "X-Sendplane-Attempt".
Definition HeaderProbe : string := "X-Sendplane-Probe".

Definition allowedCustomHeaders : list string :=
  ["in-reply-to"; "references"; "auto-submitted"; "precedence"; "list-id"; "list-help"; "list-post";
   "list-owner"; "list-archive"; "importance"; "priority"].

Definition headersSetBySender : list string :=
  ["from"; "to"; "cc"; "bcc"; "subject"; "date"; "message-id"; "mime-version"; "content-type";
   "content-transfer-encoding"; "return-path"; "reply-to"; "list-unsubscribe"; "list-unsubscribe-post";
   "x-sendplane-id"; "x-sendplane-attempt"].

(** [strings.ContainsAny(s, chars)] *)
Definition containsByte (chars : list Z) (s : string) : bool := existsb (λ n, hasByte (toByte n) s) chars.
Definition hasCRLF (s : string) : bool := containsByte [13; 10] s.

Section outbound.
Context (L : mimeLib).

(** [ValidateCustomHeader]; [None] is no error. *)
Definition ValidateCustomHeader (name value : string) : option error :=
  let lower := ml_ToLower L (TrimSpace name) in
  if hasCRLF value then Some ErrHeaderInjection
  else if strEq lower "" || (negb (strEq lower name) && containsByte [13; 10; 58; 32] name) then Some ErrHeaderInjection
  else if containsByte [13; 10; 58] name || containsByte [32; 9] name then Some ErrHeaderInjection
  else if contains headersSetBySender lower then Some ErrHeaderNotAllowed
  else if String.prefix "x-" lower || contains allowedCustomHeaders lower then None
  else Some ErrHeaderNotAllowed.

(** An address field; [required] for From and To. *)
Definition validateAddress (required : bool) (value : string) : option error :=
  if strEq value "" then if required then Some ErrHeaderInjection else None
  else if hasCRLF value then Some ErrHeaderInjection
  else match ml_ParseAddress L value with None => Some ErrHeaderInjection | Some _ => None end.

(** The first error of a list of checks. *)
Fixpoint firstError (l : list (option error)) : option error :=
  match l with [] => None | Some e :: _ => Some e | None :: l' => firstError l' end.

Definition noCRLF (s : string) : option error := if hasCRLF s then Some ErrHeaderInjection else None.

(** [validateOutbound]; Go walks the header map in no particular order. *)
Definition validateOutbound (m : OutboundMessage) : option error :=
  firstError
    ([noCRLF (om_Subject m); noCRLF (om_FromName m); noCRLF (rx_Name (om_Recipient m)); noCRLF (om_UnsubscribeURL m);
      validateAddress true (om_From m); validateAddress false (om_ReplyTo m);
      validateAddress true (rx_Email (om_Recipient m))] ++
     ((λ kv, ValidateCustomHeader kv.1 kv.2) <$> map_to_list (om_Headers m))).

(** [dkimKey]; a signer stands for the key it was parsed from *)
Record dkimKey := mkDkimKey { dk_domain : string; dk_selector : string; dk_signer : string }.

(** [messageInput] *)
Record messageInput := mkMessageInput {
  mi_msg : OutboundMessage;
  mi_messageID : string;
  mi_attemptNo : Z;
  mi_date : Time;
  mi_listUnsubscribe : string;
  mi_oneClick : bool;
  mi_dkim : option dkimKey;
}.

(** What [buildMessage] sets on the go-mail message: the date if it is not left
    to the library, From and To with their display names, Reply-To, the generic
    fields, [SetBulk], List-Unsubscribe with whether List-Unsubscribe-Post goes
    with it, the caller's fields, and the parts by content type. *)
Record mailDraft := mkMailDraft {
  ma_Date : option Time;
  ma_From : string * string;
  ma_To : string * string;
  ma_ReplyTo : option string;
  ma_Subject : string;
  ma_MessageID : string;
  ma_Ident : string;
  ma_Attempt : string;
  ma_Bulk : bool;
  ma_ListUnsubscribe : option (string * bool);
  ma_Headers : gmap string string;
  ma_Parts : list (string * string);
}.

(** go-mail's setters and [WriteTo], which may refuse an address, and the
    signer of [signDKIM]. *)
Record mailWriter := mkMailWriter {
  mw_Write : mailDraft → error + string;
  mw_Sign : dkimKey → string → error + string;
}.

Definition TypeTextPlain : string := "text/plain".
Definition TypeTextHTML : string := "text/html".

Definition blankText (s : string) : bool := strEq (TrimSpace s) "".

(** The parts, the least capable first. *)
Definition messageParts (m : OutboundMessage) : list (string * string) :=
  if negb (blankText (om_Text m)) && negb (blankText (om_HTML m)) then [(TypeTextPlain, om_Text m); (TypeTextHTML, om_HTML m)]
  else if negb (blankText (om_HTML m)) then [(TypeTextHTML, om_HTML m)]
  else [(TypeTextPlain, om_Text m)].

Definition messageDraft (inp : messageInput) : mailDraft :=
  let m := mi_msg inp in
  {| ma_Date := if IsZero (mi_date inp) then None else Some (mi_date inp);
     ma_From := (om_FromName m, om_From m);
     ma_To := (rx_Name (om_Recipient m), rx_Email (om_Recipient m));
     ma_ReplyTo := if strEq (om_ReplyTo m) "" then None else Some (om_ReplyTo m);
     ma_Subject := om_Subject m;
     ma_MessageID := mi_messageID inp;
     ma_Ident := om_TenantID m +:+ "/" +:+ om_DeliveryID m;
     ma_Attempt := itoa (mi_attemptNo inp);
     ma_Bulk := bool_decide (om_Lane m = LaneBulk);
     ma_ListUnsubscribe := if strEq (mi_listUnsubscribe inp) "" then None
                           else Some (mi_listUnsubscribe inp, mi_oneClick inp);
     ma_Headers := om_Headers m;
     ma_Parts := messageParts m |}.

(** [buildMessage] *)
Definition buildMessage (W : mailWriter) (inp : messageInput) : error + string :=
  let m := mi_msg inp in
  if blankText (om_HTML m) && blankText (om_Text m) then inl ErrNoBody
  else
    match validateOutbound m with
    | Some e => inl e
    | None =>
        match mw_Write W (messageDraft inp) with
        | inl e => inl e
        | inr raw => match mi_dkim inp with None => inr raw | Some k => mw_Sign W k raw end
        end
    end.
End outbound.

(** [domainOf] *)
Definition domainOf (lower : string → string) (addr : string) : string :=
  match cutLast (toByte 64) addr with
  | Some (_, d) => if strEq d "" then "" else lower d
  | None => ""
  end.

(** [FailureReason] *)
Definition sharedSenderReason : string := "shared sender unavailable".
Definition FailureReason (shared : bool) (reason : string) : string := if shared then sharedSenderReason else reason.

(** [tenantVarsFor] *)
Definition tenantVarsFor (d : Delivery) (c : option Campaign) : gmap string Any :=
  if (0 <? size (d_TenantVars d))%nat then d_TenantVars d
  else match c with Some c => c_TenantVars c | None => ∅ end.

(** [outboundHeaders] *)
Definition outboundHeaders (d : Delivery) : gmap string string :=
  match d_Vars d !! "probe_token" with
  | Some (AnyString tok) => if strEq tok "" then d_Headers d else <[HeaderProbe := tok]> (d_Headers d)
  | _ => d_Headers d
  end.

(** ** Rendering *)

(** [render.Bindings], its [Recipient] and [Campaign] spelled out. *)
Record Bindings := mkBindings {
  bi_Email : string;
  bi_Name : string;
  bi_Locale : string;
  bi_RecipientVars : gmap string Any;
  bi_Vars : gmap string Any;
  bi_TenantVars : gmap string Any;
  bi_CampaignID : string;
  bi_CampaignName : string;
  bi_UnsubscribeURL : string;
}.

(** The bindings a delivery renders with. *)
Definition bindingsFor (d : Delivery) (c : option Campaign) (tenantVars : gmap string Any) (unsub : string) : Bindings :=
  mkBindings (d_Email d) (d_Name d) (d_Locale d) (d_Vars d)
    match c with Some c => c_Vars c | None => ∅ end tenantVars
    match c with Some c => c_ID c | None => "" end match c with Some c => c_Name c | None => "" end unsub.

Record unsubLinks := mkUnsubLinks { ul_body : string; ul_header : string; ul_oneClick : bool }.

(** What a job builds its message from, once it is rendered and hooked. *)
Definition jobInput (L : mimeLib) (msg : OutboundMessage) (unsub : unsubLinks) (d : Delivery) (started : Time)
    (dkim : option dkimKey) : messageInput :=
  mkMessageInput msg (d_ID d +:+ "@" +:+ domainOf (ml_ToLower L) (om_From msg)) (int64 (d_AttemptCount d + 1)) started
    (ul_header unsub) (ul_oneClick unsub) dkim.

(** [platform.From] *)
Record From := mkFrom { fr_Name : string; fr_Email : string; fr_ReplyTo : string }.

(** The engines behind a render. *)
Record renderLib := mkRenderLib {
  (** [Renderer.PrepareChain] and [Render]: subject, HTML, text *)
  rl_Render : MessageVersion → list string → Bindings → error + (string * string * string);
  (** [render.RewriteLinks] *)
  rl_RewriteLinks : string → (Z → string → string) → error + string;
  (** [render.InsertPixel] *)
  rl_InsertPixel : string → string → string;
  (** the tenant's Liquid URL template *)
  rl_Liquid : string → Delivery → option Campaign → error + string;
  (** [Hooks.UnsubscribeURL], if set *)
  rl_UnsubscribeHook : option (RecipientContext → error + string);
  (** [platform.Resolver.Resolve], without one in a process with no catalog *)
  rl_Resolve : option (string → gmap string Any → error + From);
  (** [PlatformSender.ProbeVars] *)
  rl_ProbeVars : string → gmap string Any;
}.

Definition UnsubscribeSendplane : string := "sendplane".
Definition UnsubscribeHost : string := "host".
Definition UnsubscribeNone : string := "none".

Section render.
Context (R : renderLib) (hmac : string → string → string).

Definition errMissingPlatform : error := errNamed "sender: no platform configuration".

(** [resolveFrom] *)
Definition resolveFrom (snd : Sender) (tenantVars : gmap string Any) : error + From :=
  if negb (s_Shared snd) then inr (mkFrom (s_FromName snd) (s_FromEmail snd) (s_ReplyTo snd))
  else
    match rl_Resolve R with
    | None => inl errMissingPlatform
    | Some resolve => resolve (s_ID snd) tenantVars
    end.

(** [unsubscribeLinks] *)
Definition unsubscribeLinks (s : TenantSettings) (tenantID deliveryID dest : string) (key : option SigningKey)
    (domain : string) : unsubLinks :=
  let none := mkUnsubLinks "" "" false in
  if strEq (ts_UnsubscribeMode s) UnsubscribeSendplane then
    if strEq dest "" then none
    else
      match key with
      | Some k =>
          let u := UnsubscribeURL domain (Sign hmac (sk_KID k) (sk_Secret k)
                     (mkTokenPayload tenantID deliveryID KindUnsubscribe 0 dest)) in
          if negb (strEq domain "") && negb (strEq u "")
          then mkUnsubLinks u u (String.prefix "https://" u)
          else mkUnsubLinks dest dest false
      | None => mkUnsubLinks dest dest false
      end
  else if strEq (ts_UnsubscribeMode s) UnsubscribeHost then
    if strEq dest "" then none
    else mkUnsubLinks dest dest (ts_UnsubscribeOneClick s && String.prefix "https://" dest)
  else none.

(** [renderUnsubscribeTemplate] *)
Definition renderUnsubscribeTemplate (tpl : string) (d : Delivery) (c : option Campaign) : error + string :=
  match rl_Liquid R tpl d c with
  | inl e => inl e
  | inr out => let url := TrimSpace out in if hasCRLF url then inl ErrHeaderInjection else inr url
  end.

(** [unsubscribeDest] *)
Definition unsubscribeDest (s : TenantSettings) (d : Delivery) (c : option Campaign) (rc : RecipientContext)
    : error + string :=
  let hook := match rl_UnsubscribeHook R with Some h => h rc | None => inr "" end in
  if strEq (ts_UnsubscribeMode s) UnsubscribeNone then inr ""
  else if negb (strEq (d_UnsubscribeURL d) "") then inr (d_UnsubscribeURL d)
  else
    match d_Vars d !! "unsubscribe_url" with
    | Some (AnyString ((String _ _) as v)) => inr v
    | _ =>
        let tpl := TrimSpace (ts_UnsubscribeURLTemplate s) in
        if strEq tpl "" then hook
        else
          match renderUnsubscribeTemplate tpl d c with
          | inl e => inl e
          | inr "" => hook
          | inr url => inr url
          end
    end.

(** [renderMessage] *)
Definition renderMessage (tenantID : string) (s : TenantSettings) (campaign : option Campaign)
    (version : MessageVersion) (snd : Sender) (d : Delivery) : error + (OutboundMessage * unsubLinks) :=
  let rc := mkRecipientContext tenantID (d_CampaignID d) (d_ID d) (d_Email d) (d_EmailNorm d) (d_Name d)
              (d_Locale d) (d_Vars d) in
  let probe := bool_decide (d_Lane d = LaneProbe) in
  let vars := tenantVarsFor d campaign in
  let tenantVars := if probe && (size vars =? 0)%nat then rl_ProbeVars R (s_ID snd) else vars in
  match resolveFrom snd tenantVars with
  | inl e => inl e
  | inr from =>
      let domain := tk_Domain (ts_Tracking s) in
      let unsub :=
        if probe then inr (mkUnsubLinks "" "" false, None)
        else
          match unsubscribeDest s d campaign rc with
          | inl e => inl e
          | inr dest =>
              let key := SelectKey (tk_SigningKeys (ts_Tracking s)) in
              inr (unsubscribeLinks s tenantID (d_ID d) dest key domain, key)
          end in
      match unsub with
      | inl e => inl e
      | inr (unsub, key) =>
          let locales := d_Locale d :: match campaign with Some c => [c_DefaultLocale c] | None => [] end in
          match rl_Render R version locales (bindingsFor d campaign tenantVars (ul_body unsub)) with
          | inl e => inl e
          | inr (subject, html, text) =>
              let token k kind linkNo dest := Sign hmac (sk_KID k) (sk_Secret k)
                                                (mkTokenPayload tenantID (d_ID d) kind linkNo dest) in
              let html :=
                match key with
                | Some k =>
                    if strEq domain "" then inr html
                    else
                      let clicked :=
                        if tk_Clicks (ts_Tracking s) then
                          rl_RewriteLinks R html (λ linkNo href,
                            let u := ClickURL domain (token k KindClick linkNo href) href in
                            if strEq u "" then href else u)
                        else inr html in
                      match clicked with
                      | inl e => inl e
                      | inr html =>
                          inr (if tk_Opens (ts_Tracking s)
                               then rl_InsertPixel R html (OpenURL domain (token k KindOpen 0 ""))
                               else html)
                      end
                | None => inr html
                end in
              match html with
              | inl e => inl e
              | inr html =>
                  inr (mkOutboundMessage tenantID (d_ID d) (d_CampaignID d) (mv_ID version) (d_SenderID d) (d_Lane d)
                         rc (fr_Name from) (fr_Email from) (fr_ReplyTo from) subject html text (outboundHeaders d)
                         (ul_body unsub), unsub)
              end
          end
      end
  end.
End render.

(** ** Properties *)

Lemma firstError_None l : firstError l = None ↔ Forall (λ x, x = None) l.
Proof.
  induction l as [|[e|] l IH]; cbn; [done| |].
  - split; [done|]. by intros [? _]%Forall_cons.
  - rewrite Forall_cons, IH. naive_solver.
Qed.

Lemma noCRLF_None s : noCRLF s = None ↔ hasCRLF s = false.
Proof. unfold noCRLF. by destruct (hasCRLF s). Qed.

(** A header field the sender accepts from its callers. *)
Definition fieldAccepted (L : mimeLib) (name value : string) : Prop :=
  let lower := ml_ToLower L (TrimSpace name) in
  hasCRLF value = false ∧ containsByte [13; 10; 58; 32; 9] name = false ∧
  lower ∉ headersSetBySender ∧ (String.prefix "x-" lower = true ∨ lower ∈ allowedCustomHeaders).

Lemma containsByte_app l1 l2 s : containsByte (l1 ++ l2) s = containsByte l1 s || containsByte l2 s.
Proof. unfold containsByte. apply existsb_app. Qed.

Lemma ValidateCustomHeader_None L name value : ValidateCustomHeader L name value = None ↔ fieldAccepted L name value.
Proof.
  unfold ValidateCustomHeader, fieldAccepted. set (lower := ml_ToLower L (TrimSpace name)).
  destruct (hasCRLF value); [naive_solver|].
  change [13; 10; 58; 32; 9] with ([13; 10; 58] ++ [32; 9]). rewrite containsByte_app.
  change [13; 10; 58; 32] with ([13; 10; 58] ++ [32]). rewrite containsByte_app.
  destruct (strEq lower "") eqn:Hl; cbn [orb].
  { split; [done|]. apply bool_decide_eq_true in Hl. rewrite Hl. intros (_&_&_&[Hx|Ha]); [done|].
    assert (Hno : "" ∉ allowedCustomHeaders) by (apply (bool_decide_unpack _); by vm_compute). done. }
  assert (H32 : containsByte [32] name = true → containsByte [32; 9] name = true).
  { change [32; 9] with ([32] ++ [9]). rewrite containsByte_app. by intros ->. }
  destruct (containsByte [13; 10; 58] name); cbn [orb andb].
  { rewrite andb_true_r. split; [by destruct (negb _)|naive_solver]. }
  destruct (containsByte [32] name) eqn:H1; [rewrite H32 by done|rewrite andb_false_r; destruct (containsByte [32; 9] name)].
  { split; [by destruct (_ && _)|naive_solver]. }
  { split; [done|naive_solver]. }
  unfold contains. destruct (bool_decide (lower ∈ headersSetBySender)) eqn:Hset; to_prop; [naive_solver|].
  destruct (String.prefix "x-" lower) eqn:Hx; cbn [orb]; [naive_solver|].
  destruct (bool_decide (lower ∈ allowedCustomHeaders)) eqn:Ha; to_prop; naive_solver.
Qed.

Lemma validateAddress_None L required v :
  validateAddress L required v = None ↔
  hasCRLF v = false ∧ if strEq v "" then required = false else is_Some (ml_ParseAddress L v).
Proof.
  unfold validateAddress. destruct (strEq v "") eqn:Hv.
  - apply bool_decide_eq_true in Hv as ->. destruct required; naive_solver.
  - destruct (hasCRLF v); [naive_solver|]. destruct (ml_ParseAddress L v); naive_solver.
Qed.

(** A text of one line. *)
Definition oneLine (s : string) : Prop := ∀ c, c ∈ String.list_ascii_of_string s → c ≠ toByte 13 ∧ c ≠ toByte 10.

Lemma hasByte_elem c s : hasByte c s = true ↔ c ∈ String.list_ascii_of_string s.
Proof.
  induction s as [|a s IH]; cbn; [rewrite elem_of_nil; done|]. rewrite elem_of_cons, orb_true_iff, IH.
  destruct (Ascii.eqb_spec a c), (Ascii.eqb_spec c a); naive_solver.
Qed.

Lemma hasCRLF_false s : hasCRLF s = false ↔ oneLine s.
Proof.
  unfold hasCRLF, containsByte, oneLine. cbn [existsb]. rewrite orb_false_r, orb_false_iff, <- !not_true_iff_false, !hasByte_elem.
  split; [intros [H1 H2] c Hc; split; by intros ->|]. intros H. split; intros Hc; by destruct (H _ Hc).
Qed.

Lemma oneLine_app a b : oneLine (a +:+ b) ↔ oneLine a ∧ oneLine b.
Proof. rewrite <- !hasCRLF_false. unfold hasCRLF, containsByte. cbn [existsb]. rewrite !hasByte_app. destruct (hasByte (toByte 13) a), (hasByte (toByte 10) a), (hasByte (toByte 13) b), (hasByte (toByte 10) b); naive_solver. Qed.

(** What a message must be to be composed. *)
Definition acceptable (L : mimeLib) (m : OutboundMessage) : Prop :=
  let To := rx_Email (om_Recipient m) in
  Forall oneLine [om_Subject m; om_FromName m; rx_Name (om_Recipient m); om_UnsubscribeURL m; om_From m; om_ReplyTo m; To] ∧
  om_From m ≠ "" ∧ To ≠ "" ∧ is_Some (ml_ParseAddress L (om_From m)) ∧ is_Some (ml_ParseAddress L To) ∧
  (om_ReplyTo m = "" ∨ is_Some (ml_ParseAddress L (om_ReplyTo m))) ∧
  ∀ name value, om_Headers m !! name = Some value → fieldAccepted L name value.

Lemma validateOutbound_None L m : validateOutbound L m = None ↔ acceptable L m.
Proof.
  unfold validateOutbound, acceptable. rewrite firstError_None, Forall_app, !Forall_cons, Forall_fmap, !noCRLF_None,
    !validateAddress_None, !Forall_nil, !hasCRLF_false.
  assert (Hh : Forall ((λ x, x = None) ∘ (λ kv, ValidateCustomHeader L kv.1 kv.2)) (map_to_list (om_Headers m)) ↔
    ∀ name value, om_Headers m !! name = Some value → fieldAccepted L name value).
  { rewrite Forall_forall. setoid_rewrite <- ValidateCustomHeader_None. split.
    - intros H name value Hv. apply (H (name, value)). by apply elem_of_map_to_list.
    - intros H [name value] Hv%elem_of_map_to_list. by apply H. }
  rewrite Hh. unfold strEq. repeat case_bool_decide; naive_solver.
Qed.

(** Every text of a draft that goes into the header block. *)
Definition headerTexts (f : mailDraft) : list string :=
  [(ma_From f).1; (ma_From f).2; (ma_To f).1; (ma_To f).2; ma_Subject f; ma_MessageID f; ma_Ident f; ma_Attempt f] ++
  option_list (ma_ReplyTo f) ++ (option_list (ma_ListUnsubscribe f)).*1 ++
  (map_to_list (ma_Headers f)).*1 ++ (map_to_list (ma_Headers f)).*2.

(** The link of the body is the link of the header. *)
Lemma unsubscribeLinks_same hmac s t id dest key domain :
  let u := unsubscribeLinks hmac s t id dest key domain in ul_header u = ul_body u.
Proof.
  cbv zeta. unfold unsubscribeLinks. destruct (strEq _ UnsubscribeSendplane).
  - destruct (strEq dest ""); [done|]. destruct key as [k|]; [|done]. by destruct (_ && _).
  - destruct (strEq _ UnsubscribeHost); [|done]. by destruct (strEq dest "").
Qed.

(** What a rendered message takes over from its delivery. *)
Lemma renderMessage_links R hmac t s c v snd d m u :
  renderMessage R hmac t s c v snd d = inr (m, u) →
  om_TenantID m = t ∧ om_DeliveryID m = d_ID d ∧ om_UnsubscribeURL m = ul_header u.
Proof.
  unfold renderMessage. destruct (resolveFrom R snd _) as [e|from]; [done|].
  destruct (bool_decide (d_Lane d = LaneProbe)).
  - destruct (rl_Render _ _ _ _) as [e|[[subject html] text]]; [done|]. by intros [= <- <-].
  - destruct (unsubscribeDest _ _ _ _ _) as [e|dest]; [done|].
    pose proof (unsubscribeLinks_same hmac s t (d_ID d) dest (SelectKey (tk_SigningKeys (ts_Tracking s))) (tk_Domain (ts_Tracking s))) as Hsame.
    cbv zeta in Hsame. set (key := SelectKey _) in *. set (links := unsubscribeLinks _ _ _ _ _ _ _) in *.
    destruct (rl_Render _ _ _ _) as [e|[[subject html] text]]; [done|].
    match goal with |- match ?X with _ => _ end = _ → _ => destruct X as [e|html']; [done|] end.
    by intros [= <- <-].
Qed.

(** Every sort of text in a draft. *)
Lemma headerTexts_oneLine f :
  Forall oneLine [(ma_From f).1; (ma_From f).2; (ma_To f).1; (ma_To f).2; ma_Subject f; ma_MessageID f; ma_Ident f; ma_Attempt f] →
  (∀ v, ma_ReplyTo f = Some v → oneLine v) → (∀ v, ma_ListUnsubscribe f = Some v → oneLine v.1) →
  (∀ name value, ma_Headers f !! name = Some value → oneLine name ∧ oneLine value) →
  Forall oneLine (headerTexts f).
Proof.
  intros Hown Hr Hu Hh. unfold headerTexts. rewrite !Forall_app. split_and!; [done| | | |].
  - destruct (ma_ReplyTo f) as [v|]; cbn; [apply Forall_singleton; by apply Hr|constructor].
  - destruct (ma_ListUnsubscribe f) as [v|]; cbn; [apply Forall_singleton; by apply Hu|constructor].
  - apply Forall_fmap, Forall_forall. intros [name value] Hv%elem_of_map_to_list. by apply (Hh name value).
  - apply Forall_fmap, Forall_forall. intros [name value] Hv%elem_of_map_to_list. by apply (Hh name value).
Qed.

(** A number is written in one line. *)
Lemma decimal_oneLine n : oneLine (decimal n).
Proof.
  apply hasCRLF_false. unfold decimal, NilZero.string_of_uint.
  assert (Hu : ∀ u, hasCRLF (NilEmpty.string_of_uint u) = false) by (induction u as [|u IH|u IH|u IH|u IH|u IH|u IH|u IH|u IH|u IH|u IH]; done).
  by destruct (N.to_uint n).
Qed.

Lemma itoa_oneLine n : oneLine (itoa n).
Proof.
  unfold itoa. destruct (n <? 0); [|apply decimal_oneLine]. apply oneLine_app. split; [by apply hasCRLF_false|apply decimal_oneLine].
Qed.

Lemma cutLast_oneLine c s a b : cutLast c s = Some (a, b) → oneLine s → oneLine a ∧ oneLine b.
Proof.
  intros ->%cutLast_spec. change (String c b) with (String c "" +:+ b). rewrite !oneLine_app. tauto.
Qed.

(** The draft of a job: its own texts and those the check has seen. *)
Lemma jobDraft_oneLine L msg unsub d started dkim :
  (∀ x, oneLine x → oneLine (ml_ToLower L x)) → oneLine (om_TenantID msg) → oneLine (om_DeliveryID msg) → oneLine (d_ID d) →
  om_UnsubscribeURL msg = ul_header unsub → acceptable L msg →
  Forall oneLine (headerTexts (messageDraft (jobInput L msg unsub d started dkim))).
Proof.
  intros Hlow Ht Hi Hd Hu (Hl&_&_&_&_&_&Hh). rewrite !Forall_cons in Hl. destruct Hl as (Hsub&Hfn&Hrn&Hun&Hfrom&Hrep&Hto&_).
  assert (Hdot : ∀ x, oneLine x → oneLine (domainOf (ml_ToLower L) x)).
  { intros x Hx. unfold domainOf. destruct (cutLast (toByte 64) x) as [[a b]|] eqn:Hc; [|by apply hasCRLF_false].
    destruct (strEq b ""); [by apply hasCRLF_false|]. by apply Hlow, (cutLast_oneLine _ _ _ _ Hc). }
  assert (Hsep : oneLine "@" ∧ oneLine "/") by (by rewrite <- !hasCRLF_false).
  apply headerTexts_oneLine; cbn [messageDraft jobInput mi_msg mi_messageID mi_attemptNo mi_listUnsubscribe
    ma_From ma_To ma_Subject ma_MessageID ma_Ident ma_Attempt ma_ReplyTo ma_ListUnsubscribe ma_Headers fst snd].
  - rewrite !Forall_cons, !oneLine_app. split_and!; try done; [tauto|by apply Hdot|tauto|apply itoa_oneLine].
  - intros v. destruct (strEq (om_ReplyTo msg) ""); [done|]. by intros [= <-].
  - intros v. destruct (strEq (ul_header unsub) ""); [done|]. intros [= <-]. cbn. by rewrite <- Hu.
  - intros name value Hv. destruct (Hh name value Hv) as (Hv1&Hn&_). split; [|by apply hasCRLF_false].
    apply hasCRLF_false. change [13; 10; 58; 32; 9] with ([13; 10] ++ [58; 32; 9]) in Hn. rewrite containsByte_app in Hn.
    by apply orb_false_iff in Hn as [? _].
Qed.

(** The parts of a message with a body. *)
Lemma messageParts_spec m :
  blankText (om_HTML m) && blankText (om_Text m) = false →
  messageParts m ≠ [] ∧
  ∀ part, part ∈ messageParts m ↔
    TrimSpace part.2 ≠ "" ∧ (part = (TypeTextPlain, om_Text m) ∨ part = (TypeTextHTML, om_HTML m)).
Proof.
  unfold messageParts, blankText, strEq. repeat case_bool_decide; cbn; try done; intros _; (split; [done|]);
    intros part; rewrite !elem_of_cons, elem_of_nil; naive_solver.
Qed.

Lemma unsubscribeLinks_https hmac s t id dest key domain :
  ul_oneClick (unsubscribeLinks hmac s t id dest key domain) = true →
  String.prefix "https://" (ul_header (unsubscribeLinks hmac s t id dest key domain)) = true.
Proof.
  unfold unsubscribeLinks. destruct (strEq _ UnsubscribeSendplane).
  - destruct (strEq dest ""); [done|]. destruct key as [k|]; [|done]. by destruct (_ && _).
  - destruct (strEq _ UnsubscribeHost); [|done]. destruct (strEq dest ""); [done|]. cbn. by intros [_ ?]%andb_true_iff.
Qed.


(** Only recipients are tracked.  A rendered message is
    addressed to its delivery's recipient under the tenant's and delivery's
    own identity; it announces one-click unsubscription only for an https
    endpoint; and a probe mail carries exactly the rendered HTML, untouched by
    pixels or rewritten links, and no unsubscribe link or header. *)
Theorem tracking_only_for_recipients R hmac t s c v snd d m u :
  renderMessage R hmac t s c v snd d = inr (m, u) →
  rx_Email (om_Recipient m) = d_Email d ∧ om_TenantID m = t ∧ om_DeliveryID m = d_ID d ∧ om_Lane m = d_Lane d ∧
  om_UnsubscribeURL m = ul_body u ∧
  (ul_oneClick u = true → String.prefix "https://" (ul_header u) = true) ∧
  (d_Lane d = LaneProbe →
     u = mkUnsubLinks "" "" false ∧
     ∃ locales b, rl_Render R v locales b = inr (om_Subject m, om_HTML m, om_Text m)).
Proof.
  unfold renderMessage. destruct (resolveFrom R snd _) as [e|from]; [done|].
  destruct (bool_decide (d_Lane d = LaneProbe)) eqn:Hp.
  - destruct (rl_Render _ _ _ _) as [e|[[subject html] text]] eqn:Hr; [done|]. intros [= <- <-]. cbn.
    split_and!; [done..|]. intros _. split; [done|]. eauto.
  - apply bool_decide_eq_false in Hp. destruct (unsubscribeDest _ _ _ _ _) as [e|dest]; [done|].
    set (key := SelectKey _). set (links := unsubscribeLinks _ _ _ _ _ _ _).
    destruct (rl_Render _ _ _ _) as [e|[[subject html] text]]; [done|].
    match goal with |- match ?X with _ => _ end = _ → _ => destruct X as [e|html']; [done|] end.
    intros [= <- <-]. cbn. split_and!; [done..| |done]. apply unsubscribeLinks_https.
Qed.

(** ** Concrete runs *)

Fixpoint asciiLower (s : string) : string :=
  match s with EmptyString => "" | String c s' => String (lowerByte c) (asciiLower s') end.

Definition plainMime : mimeLib :=
  mkMimeLib (λ _, None) (λ _, None) (λ _ _, []) id id (λ _, (∅, None)) Some (λ _, None) Some asciiLower.


Definition sampleRender : renderLib :=
  mkRenderLib (λ v _ b, inr (mv_SubjectTpl v, "<a href=x>" +:+ bi_Name b, mv_TextTpl v))
    (λ html rewrite, inr (html +:+ rewrite 1 "https://shop.example")) (λ html pixel, html +:+ pixel)
    (λ tpl _ _, inr tpl) None None (λ _, ∅).

Definition sampleSettings : TenantSettings :=
  zero <| ts_UnsubscribeMode := UnsubscribeSendplane |> <| ts_SuppressionEnabled := true |>
       <| ts_Tracking := mkTrackingConfig "t.acme.example" true true sampleKeys |>.

Definition sampleRecipient : Delivery :=
  zero <| d_ID := "d1" |> <| d_Email := "ann@example.com" |> <| d_EmailNorm := "ann@example.com" |> <| d_Name := "Ann" |>
       <| d_UnsubscribeURL := "https://acme.example/bye" |> <| d_Lane := LaneTransactional |> <| d_SenderID := "s1" |>.

Definition sampleVersion : MessageVersion :=
  zero <| mv_ID := "v1" |> <| mv_SubjectTpl := "Hello" |> <| mv_TextTpl := "Hi" |>.

Definition sampleSender : Sender :=
  zero <| s_ID := "s1" |> <| s_FromEmail := "news@acme.example" |> <| s_TransportID := "t1" |>.

Lemma asciiLower_oneLine x : oneLine x → oneLine (asciiLower x).
Proof.
  assert (Hb : ∀ c, lowerByte c = toByte 13 ∨ lowerByte c = toByte 10 → lowerByte c = c)
    by (intros [[] [] [] [] [] [] [] []]; vm_compute; naive_solver).
  induction x as [|c x IH]; [done|]. intros Hx. assert (Hx' : oneLine x) by (intros c' Hc'; apply Hx; by right).
  intros c' [->|Hc']%elem_of_cons; [|by apply (IH Hx')].
  assert (Hc : c ≠ toByte 13 ∧ c ≠ toByte 10) by (apply Hx; by left).
  split; intros He; [rewrite Hb in He by (by left)|rewrite Hb in He by (by right)]; naive_solver.
Qed.

(** A writer that prints the subject, and a signer. *)
Definition sampleWriter : mailWriter :=
  mkMailWriter (λ f, inr (ma_Subject f)) (λ k raw, inr (dk_domain k +:+ raw)).


Lemma tracking_only_for_recipients_witness : ∃ m u,
  renderMessage sampleRender sampleHMAC "acme" sampleSettings None sampleVersion sampleSender sampleRecipient =
    inr (m, u) ∧ ul_oneClick u = true ∧ String.prefix "https://" (ul_header u) = true.
Proof.
  destruct (renderMessage sampleRender sampleHMAC "acme" sampleSettings None sampleVersion sampleSender
    sampleRecipient) as [e|[m u]] eqn:Hr; [by vm_compute in Hr|].
  exists m, u. assert (H1 : ul_oneClick u = true) by (vm_compute in Hr; by injection Hr as <- <-).
  split; [reflexivity|]. split; [exact H1|].
  destruct (tracking_only_for_recipients _ _ _ _ _ _ _ _ _ _ Hr) as (_&_&_&_&_&Hh&_). exact (Hh H1).
Defined.
