(* ===== verification/Send.v ===== *)
(** * Sending one delivery ([internal/sender/process.go], [results.go], [health.go], [platform.go])

    [process] takes a claimed delivery to its result: configuration, the
    suppression lists, the circuit, rendering, the host's hook, the message,
    the rate limit, the relay, the retry policy and the immediate mark.  The
    batcher commits the results and emits their events.  Both run over a
    [world]: the store of every tenant, this replica's circuit tracker, and a
    log of what the replica put on the wire. *)

From S2P Require Import Prelude Enums Model MemTable MemData DeliveryRepo DeliveryQueue DeliveryProps Repos Provider Prog Settings Classify Policy Health Codec Tokens Email Platform BounceReport Bounce Message.

(** ** The world *)

(** One SMTP transaction: envelope, message and whether the relay took it. *)
Record transmission := mkTransmission {
  tx_from : string;
  tx_rcpt : list string;
  tx_raw : string;
  tx_accepted : bool;
}.

(** [deliveryRef] and [completion]: a result with what its event names. *)
Record deliveryRef := mkDeliveryRef {
  rf_CampaignID : string;
  rf_SenderID : string;
  rf_Email : string;
  rf_EmailNorm : string;
  rf_Lane : Lane;
  rf_AttemptNo : Z;
}.

Record completion := mkCompletion { cm_res : DeliveryResult; cm_d : deliveryRef }.

(** [w_buf] is the tenant's batcher, [w_penalized] the buckets halved. *)
Record world := mkWorld {
  w_store : Provider;
  w_health : healthTracker;
  w_penalized : list string;
  w_buf : list completion;
  w_wire : list transmission;
}.
#[global] Instance world_eta : Eta world := λ w,
  mkWorld (w_store w) (w_health w) (w_penalized w) (w_buf w) (w_wire w).

(** A call on a tenant's store. *)
Definition storeCall {A} (t : string) (op : Env → M tenantData A) : progOn world A :=
  call (λ env w,
    let '(r, p) := onStore t (e_clock env) (e_newID env) op (w_store w) in (r, w <| w_store := p |>)).

(** A call on this replica's circuit tracker. *)
Definition healthCall {A} (f : healthTracker → A * healthTracker) : progOn world A :=
  call (λ _ w, let '(a, h) := f (w_health w) in (inr a, w <| w_health := h |>)).

(** [limiter.Penalize] *)
Definition penalize (names : list string) : progOn world unit :=
  call (λ _ w, (inr tt, w <| w_penalized := w_penalized w ++ names |>)).

(** [conn.Send] *)
Definition transmit (tx : transmission) : progOn world unit :=
  call (λ _ w, (inr tt, w <| w_wire := w_wire w ++ [tx] |>)).

(** ** What a run is given *)

Record senderConfig := mkSenderConfig {
  sc_WorkerID : string;
  sc_RateLimitCap : Duration;
  sc_AuthRetryAfter : Duration;
  sc_TransportProbeInterval : Duration;
  sc_mime : mimeLib;
  sc_hmac : string → string → string;
  sc_render : renderLib;
  (** [Hooks.BeforeSend], if set: the message as the hook leaves it, and its
      error, [inl tt] for [host.ErrSkip] *)
  sc_BeforeSend : option (OutboundMessage → OutboundMessage * option (unit + string));
  (** the MIME writer and the DKIM signer *)
  sc_writer : mailWriter;
  (** the signing key of a domain, decrypted and parsed, as the cache holds it;
      none if that fails *)
  sc_dkimSigner : SendingDomain → option string;
  (** [err.Error()] *)
  sc_errText : error → string;
}.

(** The clock readings, the configuration rows as the caches hold them (the
    transport and domain of a shared sender through the platform view), and
    what limiter, cipher, pool and relay answer. *)
Record answers := mkAnswers {
  an_started : Time;
  an_sendStart : Time;
  an_finished : Time;
  an_late : Time;
  an_rand : SpecFloat.spec_float;
  an_settings : error + TenantSettings;
  an_campaign : string → error + Campaign;
  an_version : string → error + MessageVersion;
  an_sender : string → error + Sender;
  an_transport : string → error + Transport;
  an_domain : string → error + option SendingDomain;
  an_sysState : option error;
  an_wait : option error;
  an_password : option error;
  an_connect : option sendError;
  an_reply : option sendError;
}.

Section process.
Context (cfg : senderConfig) (an : answers) (t : string).

Definition internalRetryAfter : Duration := 30 * Second.

(** [policy] *)
Definition policyFor (s : TenantSettings) : Policy :=
  let p := DefaultPolicy (ts_Retry s) in
  mkPolicy (pol_Retry p)
    (if 0 <? sc_RateLimitCap cfg then sc_RateLimitCap cfg else pol_RateLimitCap p)
    (if 0 <? sc_AuthRetryAfter cfg then sc_AuthRetryAfter cfg else pol_AuthRetryAfter p)
    (pol_Jitter p).

(** The fields every result has. *)
Definition sendResult (d : Delivery) (status : DeliveryStatus) : DeliveryResult :=
  zero <| dr_DeliveryID := d_ID d |> <| dr_LeaseOwner := sc_WorkerID cfg |> <| dr_NewStatus := status |>.

(** [decide] *)
Definition decideResult (d : Delivery) (pol : Policy) (f : Failure) (now : Time) (transportID : string) : DeliveryResult :=
  let dec := Decide pol (an_rand an) (f_Class f) (d_AttemptCount d) now in
  let res := (sendResult d (dec_Status dec))
               <| dr_NextAttemptAt := dec_NextAttemptAt dec |> <| dr_ErrorClass := f_Class f |>
               <| dr_SMTPCode := f_Code f |> <| dr_Error := f_Message f |>
               <| dr_IncrementAttempt := dec_IncrementAttempt dec |> in
  if negb (dec_RecordAttempt dec) then res
  else
    let no := if dec_IncrementAttempt dec then int64 (d_AttemptCount d + 1) else d_AttemptCount d in
    res <| dr_Attempt := Some (zero
             <| a_TenantID := d_TenantID d |> <| a_DeliveryID := d_ID d |> <| a_AttemptNo := no |>
             <| a_RetryGen := d_RetryGen d |> <| a_TransportID := transportID |>
             <| a_StartedAt := now |> <| a_FinishedAt := now |> <| a_SMTPCode := f_Code f |>
             <| a_EnhancedCode := f_Enhanced f |> <| a_ErrorClass := f_Class f |> <| a_Error := f_Message f |>) |>.

(** [failResult] *)
Definition failResult (d : Delivery) (class : ErrorClass) (code : Z) (msg : string) (now : Time) : DeliveryResult :=
  (sendResult d DeliveryFailed)
    <| dr_ErrorClass := class |> <| dr_SMTPCode := code |> <| dr_Error := msg |>
    <| dr_Attempt := Some (zero
         <| a_TenantID := d_TenantID d |> <| a_DeliveryID := d_ID d |> <| a_AttemptNo := d_AttemptCount d |>
         <| a_RetryGen := d_RetryGen d |> <| a_StartedAt := now |> <| a_FinishedAt := now |>
         <| a_ErrorClass := class |> <| a_Error := msg |> <| a_SMTPCode := code |>) |>.

(** [internalDefer] *)
Definition internalDefer (d : Delivery) (what : string) (err : error) : DeliveryResult :=
  (sendResult d DeliveryQueued)
    <| dr_NextAttemptAt := addTime (an_late an) internalRetryAfter |> <| dr_Error := what +:+ ": " +:+ sc_errText cfg err |>.

(** [configResult] *)
Definition configResult (d : Delivery) (what : string) (err : error) : DeliveryResult :=
  if errIs err ErrNotFound
  then failResult d ErrorClassPermanent 0 (what +:+ " not found: " +:+ sc_errText cfg err) (an_late an)
  else internalDefer d what err.

(** [platformSuppressed] *)
Definition platformSuppression (tr : Transport) (emailNorm : string) : progOn world bool :=
  if negb (tr_Shared tr) then pret false
  else
    match an_sysState an with
    | Some e => fail e
    | None =>
        let? r := storeCall SystemTenantID (λ env, IsSuppressed env emailNorm (an_started an)) in pret r.1
    end.

(** Whether the address is suppressed for this send. *)
Definition suppressedFor (s : TenantSettings) (tr : Transport) (d : Delivery) : progOn world ((string * error) + bool) :=
  if ts_SuppressionEnabled s && negb (bool_decide (d_Lane d = LaneProbe)) then
    handle (storeCall t (λ env, IsSuppressed env (d_EmailNorm d) (an_started an))) (λ r,
      match r with
      | inl e => pret (inl ("suppression lookup", e))
      | inr (true, _) => pret (inr true)
      | inr (false, _) =>
          handle (platformSuppression tr (d_EmailNorm d)) (λ r,
            match r with
            | inl e => pret (inl ("platform suppression lookup", e))
            | inr b => pret (inr b)
            end)
      end)
  else pret (inr false).

(** [setTransportStatus]: two attempts to write the row it reads; every error
    ends it silently. *)
Definition statusTenant (tr : Transport) : string :=
  if negb (IsPlatformID (tr_ID tr)) || strEq t SystemTenantID then t else SystemTenantID.

Fixpoint writeStatus (n : nat) (tr : Transport) (status : TransportStatus) (reason : string) (until : Time)
    : progOn world unit :=
  match n with
  | O => pret tt
  | S n =>
      handle (storeCall (statusTenant tr) (λ env, GetTransport env (tr_ID tr))) (λ r,
        match r with
        | inl _ => pret tt
        | inr row =>
            let until := TruncateTime until in
            if bool_decide (tr_Status row = status) && (tr_StatusUntil row =? until) then pret tt
            else
              handle (storeCall (statusTenant tr) (λ env, UpdateTransport env
                  (row <| tr_Status := status |> <| tr_StatusReason := reason |>
                       <| tr_StatusChangedAt := an_late an |> <| tr_StatusUntil := until |>))) (λ r,
                match r with
                | inr _ => pret tt
                | inl _ => writeStatus n tr status reason until
                end)
        end)
  end.

Definition setTransportStatus (tr : Transport) (status : TransportStatus) (reason : string) (until : Time)
    : progOn world unit :=
  match (if strEq (statusTenant tr) t then None else an_sysState an) with
  | Some _ => pret tt
  | None => writeStatus 2 tr status reason until
  end.

(** The circuit's reaction to one attempt. *)
Definition noteAttempt (tr : Transport) (f : Failure) (penalized : list string) (finished : Time) : progOn world unit :=
  let scope := limitScope t tr in
  let report (r : TransportStatus * bool) (reason : string) :=
    if r.2 then setTransportStatus tr r.1 reason (statusUntil (sc_TransportProbeInterval cfg) r.1 finished)
    else pret tt in
  match f_Class f with
  | ErrorClassNone =>
      let? r := healthCall (health_success scope (tr_ID tr) finished) in report r "delivery succeeded"
  | ErrorClassRateLimited =>
      let? _ := penalize penalized in
      let? r := healthCall (health_fail scope (tr_ID tr) (f_Class f) finished) in report r (f_Message f)
  | ErrorClassAuth =>
      let? r := healthCall (health_fail scope (tr_ID tr) (f_Class f) finished) in report r (f_Message f)
  | _ => pret tt
  end.

(** The envelope sender: a bounce address if the domain has one and the tenant
    a key. *)
Definition returnPathFor (s : TenantSettings) (domain : option SendingDomain) (d : Delivery) (from : string) : string :=
  match SelectKey (tk_SigningKeys (ts_Tracking s)), domain with
  | Some key, Some dom =>
      let v := VERPAddress (sc_hmac cfg) (sd_ReturnPathDomain dom) (d_ID d) (sk_Secret key) in
      if strEq v "" then from else v
  | _, _ => from
  end.

(** [dkimFor]: without a usable key the mail goes out unsigned. *)
Definition dkimFor (domain : option SendingDomain) : option dkimKey :=
  match domain with
  | Some dom =>
      if strEq (sd_DKIMSelector dom) "" || strEq (sd_DKIMPrivateKey dom) "" then None
      else mkDkimKey (sd_Domain dom) (sd_DKIMSelector dom) <$> sc_dkimSigner cfg dom
  | None => None
  end.

(** From the connection on. *)
Definition deliver (s : TenantSettings) (tr : Transport) (domain : option SendingDomain) (d : Delivery)
    (from messageID raw : string) : progOn world DeliveryResult :=
  let transportKey := healthKey (limitScope t tr) (tr_ID tr) in
  let domainKey := transportKey +:+ "|" +:+ domainOf (ml_ToLower (sc_mime cfg)) (d_Email d) in
  let attempt :=
    match an_connect an with
    | Some e => Poll (λ cancelled, if cancelled then pret (inl e) else pret (inr (Classify (ml_ToLower (sc_mime cfg)) (Some e))))
    | None =>
        let accepted := match an_reply an with None => true | Some _ => false end in
        let? _ := transmit (mkTransmission (returnPathFor s domain d from) [d_Email d] raw accepted) in
        pret (inr (Classify (ml_ToLower (sc_mime cfg)) (an_reply an)))
    end in
  let? r := attempt in
  match r with
  | inl e => pret (internalDefer d "connect" (errNamed (se_text e)))
  | inr f =>
      let finished := an_finished an in
      let? _ := noteAttempt tr f [transportKey; domainKey] finished in
      let res := (decideResult d (policyFor s) f finished (tr_ID tr)) <| dr_MessageID := messageID |> in
      let res := res <| dr_Attempt := (λ a, a <| a_StartedAt := an_sendStart an |> <| a_FinishedAt := finished |>) <$> dr_Attempt res |> in
      match f_Class f with
      | ErrorClassNone =>
          handle (storeCall t (λ env, MarkSent env (d_ID d) (sc_WorkerID cfg) messageID finished)) (λ r,
            match r with
            | inl e => if errIs e ErrLeaseLost then pret zero else pret res
            | inr _ => pret res
            end)
      | _ => pret res
      end
  end.

(** From the rendering on. *)
Definition renderAndDeliver (s : TenantSettings) (campaign : option Campaign) (version : MessageVersion) (snd : Sender)
    (tr : Transport) (domain : option SendingDomain) (d : Delivery) : progOn world DeliveryResult :=
  let started := an_started an in
  match renderMessage (sc_render cfg) (sc_hmac cfg) t s campaign version snd d with
  | inl err =>
      Poll (λ cancelled,
        if cancelled then pret (internalDefer d "render" err)
        else pret (failResult d ErrorClassPermanent 0 (sc_errText cfg err) started))
  | inr (msg, unsub) =>
      let '(msg, hookErr) := match sc_BeforeSend cfg with Some hook => hook msg | None => (msg, None) end in
      match hookErr with
      | Some (inl tt) => pret ((sendResult d DeliverySuppressed) <| dr_Error := "skipped by BeforeSend" |>)
      | Some (inr text) =>
          pret (decideResult d (policyFor s) (mkFailure ErrorClassTransient 0 "" ("BeforeSend: " +:+ text) "")
                  started (tr_ID tr))
      | None =>
          let inp := jobInput (sc_mime cfg) msg unsub d started (dkimFor domain) in
          match buildMessage (sc_mime cfg) (sc_writer cfg) inp with
          | inl err => pret (failResult d ErrorClassPermanent 0 (sc_errText cfg err) started)
          | inr raw =>
              match an_wait an with
              | Some err => pret (internalDefer d "rate limiter" err)
              | None =>
                  match an_password an with
                  | Some err => pret (internalDefer d "transport password" err)
                  | None => deliver s tr domain d (om_From msg) (mi_messageID inp) raw
                  end
              end
          end
      end
  end.

(** The suppression lists and the circuit. *)
Definition checkAndDeliver (s : TenantSettings) (campaign : option Campaign) (version : MessageVersion) (snd : Sender)
    (tr : Transport) (domain : option SendingDomain) (d : Delivery) : progOn world DeliveryResult :=
  let started := an_started an in
  let? sup := suppressedFor s tr d in
  match sup with
  | inl (what, err) => pret (internalDefer d what err)
  | inr true => pret ((sendResult d DeliverySuppressed) <| dr_Error := "address is suppressed" |>)
  | inr false =>
      let? usable := healthCall (transportUsable t tr started) in
      if negb usable then
        pret ((sendResult d DeliveryQueued)
                <| dr_NextAttemptAt := addTime started (pol_AuthRetryAfter (policyFor s)) |>
                <| dr_ErrorClass := ErrorClassAuth |>
                <| dr_Error := FailureReason (tr_Shared tr) "transport is unhealthy" |>)
      else renderAndDeliver s campaign version snd tr domain d
  end.

(** [process] *)
Definition process (d : Delivery) : progOn world DeliveryResult :=
  let started := an_started an in
  match an_settings an with
  | inl err => pret (internalDefer d "tenant settings" err)
  | inr s =>
      let campaign :=
        if strEq (d_CampaignID d) "" then inr None
        else match an_campaign an (d_CampaignID d) with inl e => inl e | inr c => inr (Some c) end in
      match campaign with
      | inl err => pret (configResult d "campaign" err)
      | inr campaign =>
          let versionID :=
            if strEq (d_VersionID d) ""
            then match campaign with Some c => c_VersionID c | None => d_VersionID d end
            else d_VersionID d in
          match an_version an versionID with
          | inl err => pret (configResult d "message version" err)
          | inr version =>
              match an_sender an (d_SenderID d) with
              | inl err => pret (configResult d "sender" err)
              | inr snd =>
                  match an_transport an (s_TransportID snd) with
                  | inl err => pret (configResult d "transport" err)
                  | inr tr =>
                      match an_domain an (s_DomainID snd) with
                      | inl err =>
                          if negb (errIs err ErrNotFound) then pret (internalDefer d "sending domain" err)
                          else checkAndDeliver s campaign version snd tr None d
                      | inr domain => checkAndDeliver s campaign version snd tr domain d
                      end
                  end
              end
          end
      end
  end.
End process.

(** ** The batcher *)

Definition EventDeliverySent : string := "delivery.sent".
Definition EventDeliveryFailed : string := "delivery.failed".

(** [deliveryEventPayload] of [results.go] *)
Record resultEventPayload := mkResultEventPayload {
  rp_DeliveryID : string;
  rp_CampaignID : string;
  rp_SenderID : string;
  rp_Status : DeliveryStatus;
  rp_Email : string;
  rp_EmailNorm : string;
  rp_Lane : Lane;
  rp_OccurredAt : Time;
  rp_MessageID : string;
  rp_AttemptNo : Z;
  rp_ErrorClass : ErrorClass;
  rp_SMTPCode : Z;
  rp_Error : string;
}.

(** [eventTypeFor] *)
Definition eventTypeFor (status : DeliveryStatus) : string :=
  match status with
  | DeliverySent => EventDeliverySent
  | DeliveryFailed => EventDeliveryFailed
  | _ => ""
  end.

(** [add] *)
Definition refOf (r : DeliveryResult) (d : Delivery) : deliveryRef :=
  mkDeliveryRef (d_CampaignID d) (d_SenderID d) (d_Email d) (d_EmailNorm d) (d_Lane d)
    (if dr_IncrementAttempt r then int64 (d_AttemptCount d + 1) else d_AttemptCount d).

Definition batcherAdd (r : DeliveryResult) (d : Delivery) : progOn world unit :=
  if strEq (dr_DeliveryID r) "" then pret tt
  else call (λ _ w, (inr tt, w <| w_buf := w_buf w ++ [mkCompletion r (refOf r d)] |>)).

Section flush.
(** The JSON encoder, and the settings and time an event round sees. *)
Context (marshal : resultEventPayload → option string) (settings : error + TenantSettings) (now : Time) (t : string).

(** The event of a completion, if it has one the tenant wants. *)
Definition resultEvent (s : TenantSettings) (c : completion) : option OutboxEvent :=
  let typ := eventTypeFor (dr_NewStatus (cm_res c)) in
  if negb (SubscribedTo (Some s) typ) then None
  else
    match marshal (mkResultEventPayload (dr_DeliveryID (cm_res c)) (rf_CampaignID (cm_d c)) (rf_SenderID (cm_d c))
            (dr_NewStatus (cm_res c)) (rf_Email (cm_d c)) (rf_EmailNorm (cm_d c)) (rf_Lane (cm_d c)) now
            (dr_MessageID (cm_res c)) (rf_AttemptNo (cm_d c)) (dr_ErrorClass (cm_res c)) (dr_SMTPCode (cm_res c))
            (dr_Error (cm_res c))) with
    | None => None
    | Some payload =>
        Some (zero <| o_Type := typ |> <| o_Payload := payload |> <| o_Status := OutboxPending |>
                   <| o_CreatedAt := now |> <| o_NextAttemptAt := now |>)
    end.

(** [enqueueEvents] *)
Definition enqueueEvents (batch : list completion) : progOn world unit :=
  let candidates := filter (λ c, eventTypeFor (dr_NewStatus (cm_res c)) ≠ "") batch in
  if len candidates =? 0 then pret tt
  else
    match settings with
    | inl _ => pret tt
    | inr s =>
        let evs := omap (resultEvent s) candidates in
        if len evs =? 0 then pret tt
        else handle (storeCall t (λ env, Enqueue env evs)) (λ _, pret tt)
    end.

(** [flush] *)
Definition flush : progOn world unit :=
  let? batch := call (λ _ w, (inr (w_buf w), w <| w_buf := [] |>)) in
  if len batch =? 0 then pret tt
  else
    handle (storeCall t (λ env, Complete env (cm_res <$> batch))) (λ r,
      match r with inl _ => pret tt | inr _ => enqueueEvents batch end).
End flush.

(** [handle]: one job of a worker. *)
Definition handleJob (cfg : senderConfig) (an : answers) (t : string) (d : Delivery) : progOn world unit :=
  let? res := process cfg an t d in batcherAdd res d.
