(* ===== verification/SendProps.v ===== *)
(** * Properties of the send path

    What a run of [process] does to the wire and to its delivery, whatever
    the rest of the system does meanwhile, and what the batcher makes of its
    result. *)

From S2P Require Import Prelude Enums Model MemTable MemData DeliveryRepo DeliveryQueue DeliveryProps Repos Provider Prog Settings Classify Policy Health Codec Tokens BounceReport Bounce Message Send.

(** ** Specifications of runs

    [specOn π J x p Q]: started in a world whose view [π] is [x], with others
    that keep the view and [J] of the store, [p] ends with a result and a view
    that satisfy [Q]. *)

Section spec.
Context {X : Type} (π : world → X) (J : Provider → Prop).

Definition sendRely (w w' : world) : Prop := J (w_store w') ∧ π w' = π w.

Definition specOn {A} (x : X) (p : progOn world A) (Q : error + A → X → Prop) : Prop :=
  ∀ w, π w = x → wp sendRely (λ _ _, True) p (λ r w', Q r (π w')) w.

Lemma spec_done {A} x (r : error + A) (Q : error + A → X → Prop) : Q r x → specOn x (Done r) Q.
Proof. by intros HQ w <-. Qed.

Lemma spec_handle {A B} x (p : progOn world A) (k : error + A → progOn world B) Q Q' :
  specOn x p Q' → (∀ r x', Q' r x' → specOn x' (k r) Q) → specOn x (handle p k) Q.
Proof.
  intros Hp Hk w Hw. apply wp_handle. eapply wp_mono; [|by apply Hp].
  intros r w' HQ. by eapply Hk; [exact HQ|].
Qed.

Lemma spec_bind {A B} x (p : progOn world A) (k : A → progOn world B) Q (Q' : A → X → Prop) :
  specOn x p (λ r x', match r with inl e => Q (inl e) x' | inr a => Q' a x' end) →
  (∀ a x', Q' a x' → specOn x' (k a) Q) → specOn x (pbind p k) Q.
Proof.
  intros Hp Hk. eapply spec_handle; [exact Hp|]. intros [e|a] x' HQ; [by apply spec_done|by apply Hk].
Qed.

Lemma spec_mono {A} x (p : progOn world A) (Q Q' : error + A → X → Prop) :
  specOn x p Q → (∀ r x', Q r x' → Q' r x') → specOn x p Q'.
Proof. intros Hp HQ w Hw. eapply wp_mono; [|by apply Hp]. intros r w'. apply HQ. Qed.

Lemma spec_poll {A} x (k : bool → progOn world A) Q : (∀ b, specOn x (k b) Q) → specOn x (Poll k) Q.
Proof. intros Hk w Hw b. by apply Hk. Qed.

Lemma spec_call {A} x (op : Env → M world A) (Q : error + A → X → Prop) :
  (∀ env w r w', J (w_store w) → π w = x → op env w = (r, w') → Q r (π w')) → specOn x (call op) Q.
Proof.
  intros Hop w <- env w0 [HJ Hw]. destruct (op env w0) as [r w1] eqn:Hr. split; [done|].
  cbn. by eapply Hop.
Qed.

Lemma spec_exec {A} (p : progOn world A) Q w tr r w' :
  specOn (π w) p Q → exec sendRely p w tr r w' → Q r (π w').
Proof. intros Hp He. eapply (wp_sound _ _ _ _ _ _ _ _ (Hp w eq_refl) He). Qed.
End spec.
Arguments spec_done {X π J A} _ _ _ _.
Arguments spec_handle {X π J A B} _ _ _ _ _ _ _.
Arguments spec_bind {X π J A B} _ _ _ _ _ _ _.
Arguments spec_mono {X π J A} _ _ _ _ _ _.
Arguments spec_poll {X π J A} _ _ _ _.
Arguments spec_call {X π J A} _ _ _ _.
Arguments spec_exec {X π J A} _ _ _ _ _ _ _.

(** The circuit's bookkeeping, for a view the transports, the tracker and the
    limiter have no part in. *)
Section bookkeeping.
Context {X : Type} (π : world → X) (J : Provider → Prop).

Definition keeps {A} (x : X) (r : error + A) (x' : X) : Prop := x' = x.

Record blind : Prop := {
  bl_get x t id : specOn π J x (storeCall t (λ env, GetTransport env id)) (keeps x);
  bl_update x t row : specOn π J x (storeCall t (λ env, UpdateTransport env row)) (keeps x);
  bl_health {A} x (f : healthTracker → A * healthTracker) :
    specOn π J x (healthCall f) (λ r x', x' = x ∧ ∃ a, r = inr a);
  bl_penalize x names : specOn π J x (penalize names) (λ r x', x' = x ∧ ∃ a, r = inr a);
}.
Context (Hb : blind).

(** It ends without an error and leaves the view as it is. *)
Definition quiet {A} (x : X) (r : error + A) (x' : X) : Prop := x' = x ∧ ∃ a, r = inr a.

Lemma quiet_ret {A} x (a : A) : specOn π J x (pret a) (quiet x).
Proof. apply spec_done. by split; [|exists a]. Qed.

Lemma quiet_bind {A B} x (p : progOn world A) (k : A → progOn world B) :
  specOn π J x p (quiet x) → (∀ a, specOn π J x (k a) (quiet x)) → specOn π J x (pbind p k) (quiet x).
Proof.
  intros Hp Hk. apply (spec_bind _ _ _ _ (λ _ x', x' = x)); [|by intros a x' ->].
  eapply spec_mono; [exact Hp|]. by intros [e|a] x' [-> [a' Ha]].
Qed.

Lemma quiet_writeStatus an t x n tr status reason u :
  specOn π J x (writeStatus an t n tr status reason u) (quiet x).
Proof.
  revert u. induction n as [|n IH]; intros u; cbn [writeStatus]; [apply quiet_ret|].
  eapply spec_handle; [apply (bl_get Hb)|]. intros [e|row] x' ->; [apply quiet_ret|].
  destruct (_ && _); [apply quiet_ret|].
  eapply spec_handle; [apply (bl_update Hb)|]. intros [e|row'] x' ->; [apply IH|apply quiet_ret].
Qed.

Lemma quiet_noteAttempt cfg an t x tr f names finished :
  specOn π J x (noteAttempt cfg an t tr f names finished) (quiet x).
Proof.
  assert (Hrep : ∀ (r : TransportStatus * bool) reason, specOn π J x (if r.2 then setTransportStatus an t tr r.1 reason
      (statusUntil (sc_TransportProbeInterval cfg) r.1 finished) else pret tt) (quiet x)).
  { intros [st b] reason. destruct b; [|apply quiet_ret]. unfold setTransportStatus.
    destruct (if strEq _ _ then _ else _); [apply quiet_ret|apply quiet_writeStatus]. }
  unfold noteAttempt. destruct (f_Class f); try apply quiet_ret.
  - apply quiet_bind; [apply (bl_health Hb)|]. intros r. apply Hrep.
  - apply quiet_bind; [apply (bl_penalize Hb)|]. intros _. apply quiet_bind; [apply (bl_health Hb)|]. intros r. apply Hrep.
  - apply quiet_bind; [apply (bl_health Hb)|]. intros r. apply Hrep.
Qed.
End bookkeeping.

(** The log of the wire. *)
Section wire.
Context (J : Provider → Prop).
Abbreviation spec := (specOn w_wire J).

(** A store call answers what its operation says of a store that satisfies [J]. *)
Lemma spec_storeCall {A} W t (op : Env → M tenantData A) (Q : error + A → list transmission → Prop) :
  (∀ env p r p', J p → onStore t (e_clock env) (e_newID env) op p = (r, p') → Q r W) → spec W (storeCall t op) Q.
Proof.
  intros Hop. apply spec_call. intros env w r w' HJ <- Hr.
  destruct (onStore _ _ _ op (w_store w)) as [r0 p'] eqn:Hs. injection Hr as <- <-. by eapply Hop.
Qed.

Lemma spec_healthCall {A} W (f : healthTracker → A * healthTracker) (Q : error + A → list transmission → Prop) :
  (∀ a, Q (inr a) W) → spec W (healthCall f) Q.
Proof. intros Hf. apply spec_call. intros env w r w' _ <- Hr. destruct (f (w_health w)). by injection Hr as <- <-. Qed.

Lemma spec_penalize W names (Q : error + unit → list transmission → Prop) : Q (inr tt) W → spec W (penalize names) Q.
Proof. intros HQ. apply spec_call. intros env w r w' _ <- Hr. by injection Hr as <- <-. Qed.

Lemma spec_transmit W tx (Q : error + unit → list transmission → Prop) :
  Q (inr tt) (W ++ [tx]) → spec W (transmit tx) Q.
Proof. intros HQ. apply spec_call. intros env w r w' _ <- Hr. by injection Hr as <- <-. Qed.

Lemma wire_blind : blind w_wire J.
Proof.
  split; intros; [by apply spec_storeCall|by apply spec_storeCall|apply spec_healthCall; eauto|apply spec_penalize; eauto].
Qed.

(** ** The outcome of a run *)

Section outcome.
Context (cfg : senderConfig) (an : answers) (t : string) (d : Delivery).

(** A result that settles [d] on this worker's behalf. *)
Definition settles (res : DeliveryResult) : Prop :=
  dr_DeliveryID res = d_ID d ∧ dr_LeaseOwner res = sc_WorkerID cfg ∧ dr_NewStatus res ∈ sendOutcomes.

(** The run added [txs] to the log and returned [r]. *)
Definition sendOutcome (W : list transmission) (r : error + DeliveryResult) (W' : list transmission) : Prop :=
  ∃ res txs, r = inr res ∧ W' = W ++ txs ∧ Forall (λ tx, tx_rcpt tx = [d_Email d]) txs ∧
    (length txs ≤ 1)%nat ∧
    ((res = zero ∧ ∃ tx, txs = [tx] ∧ tx_accepted tx = true) ∨
     (settles res ∧ (dr_NewStatus res = DeliverySent ↔ ∃ tx, txs = [tx] ∧ tx_accepted tx = true) ∧
      (txs = [] → dr_IncrementAttempt res = true →
         an_connect an ≠ None ∨ ∃ hook, sc_BeforeSend cfg = Some hook))).

(** A run that sends nothing. *)
Lemma outcome_silent W res :
  settles res → dr_NewStatus res ≠ DeliverySent → dr_IncrementAttempt res = false →
  sendOutcome W (inr res) W.
Proof.
  intros Hs Hns Hi. exists res, []. split_and!; [done|by rewrite app_nil_r|done|cbn; lia|].
  right. split; [done|]. split; [|by rewrite Hi]. split; [done|]. by intros (tx&?&_).
Qed.

Lemma settles_result status res :
  status ∈ sendOutcomes → dr_DeliveryID res = d_ID d → dr_LeaseOwner res = sc_WorkerID cfg → dr_NewStatus res = status →
  settles res.
Proof. by intros ? ? ? <-. Qed.

Lemma outcome_defer W what e : sendOutcome W (inr (internalDefer cfg an d what e)) W.
Proof. apply outcome_silent; [|done|done]. split_and!; [done|done|]. by apply (bool_decide_unpack _). Qed.

Lemma outcome_fail W class code msg now : sendOutcome W (inr (failResult cfg d class code msg now)) W.
Proof. apply outcome_silent; [|done|done]. split_and!; [done|done|]. by apply (bool_decide_unpack _). Qed.

Lemma outcome_config W what e : sendOutcome W (inr (configResult cfg an d what e)) W.
Proof. unfold configResult. destruct (errIs e ErrNotFound); [apply outcome_fail|apply outcome_defer]. Qed.

Lemma decide_settles pol f now tid res :
  res = decideResult cfg an d pol f now tid →
  settles res ∧ (dr_NewStatus res = DeliverySent ↔ f_Class f = ErrorClassNone).
Proof.
  intros ->. assert (Hst : dr_NewStatus (decideResult cfg an d pol f now tid) =
    dec_Status (Decide pol (an_rand an) (f_Class f) (d_AttemptCount d) now)).
  { unfold decideResult. by destruct (negb _). }
  assert (Hid : dr_DeliveryID (decideResult cfg an d pol f now tid) = d_ID d ∧
                dr_LeaseOwner (decideResult cfg an d pol f now tid) = sc_WorkerID cfg).
  { unfold decideResult. by destruct (negb _). }
  destruct Hid as [Hid Hown]. rewrite Hst, Decide_sent. split; [|done]. split_and!; [done|done|]. rewrite Hst.
  unfold Decide, sendOutcomes. destruct (f_Class f); cbn; try destruct (_ <=? _); cbn; set_solver.
Qed.

Lemma spec_deliver W s tr domain from messageID raw :
  spec W (deliver cfg an t s tr domain d from messageID raw) (sendOutcome W).
Proof.
  unfold deliver.
  set (tx := mkTransmission (returnPathFor cfg s domain d from) [d_Email d] raw
    match an_reply an with None => true | Some _ => false end).
  (** What is on the log when the attempt has been classified. *)
  apply (spec_bind _ _ _ _ (λ r W', match r with
    | inl _ => W' = W
    | inr f => ∃ txs, W' = W ++ txs ∧ (txs = [] ∧ an_connect an ≠ None ∧ f_Class f ≠ ErrorClassNone ∨
        txs = [tx] ∧ (f_Class f = ErrorClassNone ↔ tx_accepted tx = true))
    end)).
  - destruct (an_connect an) as [e|] eqn:Hc.
    + apply spec_poll. intros []; apply spec_done; [done|]. exists []. split; [by rewrite app_nil_r|].
      left. split_and!; [done..|]. by rewrite Classify_none.
    + apply (spec_bind _ _ _ _ (λ _ W', W' = W ++ [tx])); [by apply spec_transmit|]. intros _ W' ->.
      apply spec_done. exists [tx]. split; [done|]. right. split; [done|]. rewrite Classify_none. cbn.
      by destruct (an_reply an).
  - intros [e|f] W'; [intros ->; apply spec_done, outcome_defer|]. intros (txs&->&Htxs).
    apply (spec_bind _ _ _ _ (λ _ W', W' = W ++ txs)).
    { eapply spec_mono; [apply (quiet_noteAttempt _ _ wire_blind)|]. by intros [e|[]] W' [-> [a Ha]]. }
    intros _ W' ->. set (res0 := decideResult _ _ _ _ _ _ _).
    destruct (decide_settles _ _ _ _ res0 eq_refl) as [(Hid&Hown&Hin) Hsent].
    set (res := res0 <| dr_MessageID := messageID |> <| dr_Attempt := _ |>).
    assert (Hout : sendOutcome W (inr res) (W ++ txs)).
    { exists res, txs. split_and!; [done|done| | |].
      - destruct Htxs as [[-> _]|[-> _]]; by repeat constructor.
      - destruct Htxs as [[-> _]|[-> _]]; cbn; lia.
      - right. split; [done|]. change (dr_NewStatus res) with (dr_NewStatus res0). rewrite Hsent. split.
        + destruct Htxs as [(->&_&Hne)|[-> Hacc]]; [split; [done|by intros (?&?&_)]|].
          rewrite Hacc. split; [by eauto|]. by intros (?&[= <-]&?).
        + intros ->. destruct Htxs as [(_&Hc&_)|[? _]]; [by left|done]. }
    destruct (f_Class f) eqn:Hcl; try by apply spec_done.
    eapply (spec_handle _ _ _ _ (λ _ W', W' = W ++ txs)); [by apply spec_storeCall|].
    intros [e|[]] W' ->; [|by apply spec_done]. destruct (errIs e ErrLeaseLost); [|by apply spec_done].
    apply spec_done. exists zero, txs. destruct Htxs as [(_&_&Hne)|[-> Hacc]]; [done|].
    split_and!; [done|done|by repeat constructor|cbn; lia|]. left. split; [done|]. exists tx. split; [done|]. by apply Hacc.
Qed.

Lemma spec_renderAndDeliver W s campaign version snd tr domain :
  spec W (renderAndDeliver cfg an t s campaign version snd tr domain d) (sendOutcome W).
Proof.
  unfold renderAndDeliver. destruct (renderMessage _ _ _ _ _ _ _ _) as [e|[msg unsub]].
  { apply spec_poll. intros []; apply spec_done; [apply outcome_defer|apply outcome_fail]. }
  destruct (match sc_BeforeSend cfg with Some hook => hook msg | None => (msg, None) end) as [msg' err] eqn:Hhook.
  destruct err as [[[]|text]|].
  - apply spec_done, outcome_silent; [|done|done]. split_and!; [done|done|]. by apply (bool_decide_unpack _).
  - apply spec_done. set (res := decideResult _ _ _ _ _ _ _).
    destruct (decide_settles _ _ _ _ res eq_refl) as [Hs Hsent].
    exists res, []. split_and!; [done|by rewrite app_nil_r|done|cbn; lia|]. right. split; [done|].
    rewrite Hsent. split; [split; [done|by intros (?&?&_)]|]. intros _ _. right.
    destruct (sc_BeforeSend cfg) as [hook|]; [by exists hook|done].
  - destruct (buildMessage _ _ _) as [e|raw]; [apply spec_done, outcome_fail|].
    destruct (an_wait an) as [e|]; [apply spec_done, outcome_defer|].
    destruct (an_password an) as [e|]; [apply spec_done, outcome_defer|]. apply spec_deliver.
Qed.

(** What the suppression check may answer. *)
Lemma spec_suppressedFor W s tr (P : (string * error) + bool → Prop) :
  (∀ e, P (inl e)) → P (inr true) →
  (∀ env p r p', J p →
     ts_SuppressionEnabled s && negb (bool_decide (d_Lane d = LaneProbe)) = true →
     onStore t (e_clock env) (e_newID env) (λ env, IsSuppressed env (d_EmailNorm d) (an_started an)) p = (inr (false, r), p') →
     tr_Shared tr = false → P (inr false)) →
  (∀ env p r p', J p →
     ts_SuppressionEnabled s && negb (bool_decide (d_Lane d = LaneProbe)) = true →
     onStore SystemTenantID (e_clock env) (e_newID env)
       (λ env, IsSuppressed env (d_EmailNorm d) (an_started an)) p = (inr (false, r), p') →
     (∃ env p r p', J p ∧
        onStore t (e_clock env) (e_newID env) (λ env, IsSuppressed env (d_EmailNorm d) (an_started an)) p =
          (inr (false, r), p')) → P (inr false)) →
  (ts_SuppressionEnabled s && negb (bool_decide (d_Lane d = LaneProbe)) = false → P (inr false)) →
  spec W (suppressedFor an t s tr d) (λ r W', W' = W ∧ ∃ a, r = inr a ∧ P a).
Proof.
  intros Herr Htrue Hown Hsys Hoff. unfold suppressedFor. destruct (_ && _) eqn:Hon; [|apply spec_done; eauto].
  eapply (spec_handle _ _ _ _ (λ r W', W' = W ∧ ∃ env p p', J p ∧
    onStore t (e_clock env) (e_newID env) (λ env, IsSuppressed env (d_EmailNorm d) (an_started an)) p = (r, p'))).
  { apply spec_storeCall. intros env p r p' HJ Hr. split; [done|]. by exists env, p, p'. }
  intros [e|[[] v]] W' [-> (env&p&p'&HJ&Hr)]; [apply spec_done; eauto|apply spec_done; eauto|].
  unfold platformSuppression. destruct (tr_Shared tr) eqn:Hsh; cbn [negb].
  2: { apply spec_done. eauto 10. }
  destruct (an_sysState an) as [e|]; [apply spec_done; eauto|].
  eapply (spec_handle _ _ _ _ (λ r W', W' = W ∧ (∀ b, r = inr b → P (inr b)))).
  - apply (spec_bind _ _ _ _ (λ r W', W' = W ∧ (r.1 = false → P (inr false)))).
    + apply spec_storeCall. intros env1 p1 r1 p1' HJ1 Hr1. destruct r1 as [e|[b v1]]; [by split|].
      split; [done|]. cbn. intros ->. eapply Hsys; eauto 10.
    + intros [b v1] W' [-> Hb]. apply spec_done. split; [done|]. intros b' [= <-]. destruct b; auto.
  - intros [e|b] W' [-> Hb]; apply spec_done; eauto.
Qed.

Lemma spec_checkAndDeliver W s campaign version snd tr domain :
  spec W (checkAndDeliver cfg an t s campaign version snd tr domain d) (sendOutcome W).
Proof.
  unfold checkAndDeliver. apply (spec_bind _ _ _ _ (λ _ W', W' = W)).
  { eapply spec_mono; [apply (spec_suppressedFor _ _ _ (λ _, True)); eauto|]. by intros [e|a] W' [-> (x&Hx&_)]. }
  intros [[what e]|[]] W' ->; [apply spec_done, outcome_defer| |].
  - apply spec_done, outcome_silent; [|done|done]. split_and!; [done|done|]. by apply (bool_decide_unpack _).
  - apply (spec_bind _ _ _ _ (λ _ W', W' = W)); [by apply spec_healthCall|]. intros usable W' ->.
    destruct usable; cbn [negb]; [apply spec_renderAndDeliver|].
    apply spec_done, outcome_silent; [|done|done]. split_and!; [done|done|]. by apply (bool_decide_unpack _).
Qed.

(** The decision before the checks: a result, or the configuration. *)
Lemma process_cases :
  (∃ what e, process cfg an t d = pret (configResult cfg an d what e)) ∨
  (∃ what e, process cfg an t d = pret (internalDefer cfg an d what e)) ∨
  (∃ s campaign version snd tr domain,
     process cfg an t d = checkAndDeliver cfg an t s campaign version snd tr domain d ∧
     an_settings an = inr s ∧ an_transport an (s_TransportID snd) = inr tr).
Proof.
  unfold process. destruct (an_settings an) as [e|s]; [right; left; eauto|].
  destruct (if strEq _ _ then _ else _) as [e|campaign]; [left; eauto|].
  destruct (an_version an _) as [e|version]; [left; eauto|].
  destruct (an_sender an _) as [e|snd]; [left; eauto|].
  destruct (an_transport an _) as [e|tr] eqn:Htr; [left; eauto|].
  destruct (an_domain an _) as [e|domain]; [destruct (negb _); [right; left; eauto|]|]; right; right; eauto 10.
Qed.

Lemma spec_process W : spec W (process cfg an t d) (sendOutcome W).
Proof.
  destruct process_cases as [(what&e&->)|[(what&e&->)|(s&campaign&version&snd&tr&domain&->&_)]].
  - apply spec_done, outcome_config.
  - apply spec_done, outcome_defer.
  - apply spec_checkAndDeliver.
Qed.
End outcome.
End wire.


(** The address has a suppression entry on the tenant's list at [at_]. *)
Definition suppressedIn (t norm : string) (at_ : Time) (p : Provider) : Prop :=
  ∀ td, pv_tenants p !! t = Some td →
    ∃ v, suppressions td !! norm = Some v ∧
      (sp_ExpiresAt v = zeroTime ∨ TruncateTime at_ < sp_ExpiresAt v).

Lemma suppressedIn_answer t norm at_ clock newID p r p' :
  suppressedIn t norm at_ p → onStore t clock newID (λ env, IsSuppressed env norm at_) p ≠ (inr (false, r), p').
Proof.
  intros Hs Hr. unfold onStore in Hr. destruct (pv_tenants p !! t) as [td|] eqn:Ht; [|done].
  destruct (Hs td Ht) as (v&Hv&Hexp). unfold IsSuppressed, checked, throw in Hr. cbn in Hr.
  destruct (pv_closed p); [done|]. rewrite Hv in Hr.
  assert (Hno : negb (IsZero (sp_ExpiresAt v)) && negb (After (sp_ExpiresAt v) (TruncateTime at_)) = false).
  { unfold IsZero, After. destruct Hexp as [->|Hlt]; [done|]. rewrite (proj2 (Z.ltb_lt _ _) Hlt).
    by rewrite andb_false_r. }
  by rewrite Hno in Hr.
Qed.

(** C4 (sender/process): a suppressed address is not mailed.  While an address
    is on the tenant's suppression list, or on the platform's list and the
    delivery goes through a shared transport, no delivery to it that is no
    probe puts anything on the wire, for a tenant that has suppression turned
    on. *)
Theorem suppressed_never_sent cfg an t d s L w tr r w' :
  an_settings an = inr s → ts_SuppressionEnabled s = true → d_Lane d ≠ LaneProbe →
  (L = t ∨ L = SystemTenantID ∧ ∀ id x, an_transport an id = inr x → tr_Shared x = true) →
  exec (sendRely w_wire (suppressedIn L (d_EmailNorm d) (an_started an))) (process cfg an t d) w tr r w' →
  w_wire w' = w_wire w ∧ ∃ res, r = inr res ∧ settles cfg d res ∧ dr_NewStatus res ≠ DeliverySent.
Proof.
  intros Hset Hon Hlane HL He. set (J := suppressedIn L (d_EmailNorm d) (an_started an)) in *.
  cut (specOn w_wire J (w_wire w) (process cfg an t d) (λ r W', W' = w_wire w ∧
    ∃ res, r = inr res ∧ settles cfg d res ∧ dr_NewStatus res ≠ DeliverySent)).
  { intros Hspec. apply (spec_exec _ _ _ _ _ _ Hspec He). }
  assert (Hdefer : ∀ what e, settles cfg d (internalDefer cfg an d what e)).
  { intros. split_and!; [done|done|]. by apply (bool_decide_unpack _). }
  destruct (process_cases cfg an t d) as [(what&e&->)|[(what&e&->)|(s'&campaign&version&snd&x&domain&->&Hs'&Hx)]].
  - apply spec_done. split; [done|]. eexists. split; [done|]. unfold configResult.
    destruct (errIs e ErrNotFound); [|split; [apply Hdefer|done]].
    split; [|done]. split_and!; [done|done|]. by apply (bool_decide_unpack _).
  - apply spec_done. split; [done|]. eexists. split; [done|]. split; [apply Hdefer|done].
  - rewrite Hset in Hs'. injection Hs' as <-. unfold checkAndDeliver.
    apply (spec_bind _ _ _ _ (λ a W', W' = w_wire w ∧ a ≠ inr false)).
    { eapply spec_mono; [apply (spec_suppressedFor J an t d _ _ _ (λ a, a ≠ inr false))|].
      - done.
      - done.
      - intros env p v p' HJ _ Hr Hsh. destruct HL as [->|[-> Hall]].
        + by destruct (suppressedIn_answer _ _ _ _ _ _ _ _ HJ Hr).
        + by rewrite (Hall _ _ Hx) in Hsh.
      - intros env p v p' HJ _ Hr (env0&p0&v0&p0'&HJ0&Hr0). destruct HL as [->|[-> Hall]].
        + by destruct (suppressedIn_answer _ _ _ _ _ _ _ _ HJ0 Hr0).
        + by destruct (suppressedIn_answer _ _ _ _ _ _ _ _ HJ Hr).
      - rewrite Hon. cbn. intros Hp. apply negb_false_iff, bool_decide_eq_true in Hp. done.
      - intros [e|a] W' [-> (y&Hy&Hne)]; [done|]. injection Hy as ->. by split. }
    intros [[what e]|[]] W' [-> Hne]; [| |done]; apply spec_done; (split; [done|]); eexists; (split; [done|]).
    + split; [apply Hdefer|done].
    + split; [|done]. split_and!; [done|done|]. by apply (bool_decide_unpack _).
Qed.

(** ** From the lease to the committed row *)

Section job.
Context (cfg : senderConfig) (an : answers) (t : string) (d : Delivery).

Definition rowAt (w : world) : option Delivery := vi_deliveries (visibleAt t (w_store w)) !! d_ID d.

(** The delivery's row and the batcher. *)
Definition jobView (w : world) : option Delivery * list completion := (rowAt w, w_buf w).

Definition storeOpen (p : Provider) : Prop := pv_closed p = false ∧ is_Some (pv_tenants p !! t).

Abbreviation jspec := (specOn jobView storeOpen).

Lemma rowAt_onStore t0 clock newID {A} (op : Env → M tenantData A) w r p' :
  (∀ env td r td', op env td = (r, td') → deliveries td' = deliveries td) →
  onStore t0 clock newID op (w_store w) = (r, p') → rowAt (w <| w_store := p' |>) = rowAt w.
Proof.
  intros Hop Hr. unfold rowAt, visibleAt, onStore in *. cbn. destruct (pv_tenants (w_store w) !! t0) as [td|] eqn:Ht.
  - destruct (op _ td) as [r0 td'] eqn:Ho. injection Hr as <- <-. cbn. destruct (decide (t0 = t)) as [->|Hne].
    + rewrite lookup_insert_eq, Ht. cbn. by rewrite (Hop _ _ _ _ Ho).
    + by rewrite lookup_insert_ne.
  - by injection Hr as <- <-.
Qed.

(** A store call that leaves the deliveries alone. *)
Lemma jspec_quiet {A} x t0 (op : Env → M tenantData A) :
  (∀ env td r td', op env td = (r, td') → deliveries td' = deliveries td) → jspec x (storeCall t0 op) (keeps x).
Proof.
  intros Hop. apply spec_call. intros env w r w' _ <- Hr.
  destruct (onStore _ _ _ op (w_store w)) as [r0 p'] eqn:Hs. injection Hr as <- <-.
  unfold keeps, jobView. by rewrite (rowAt_onStore _ _ _ _ _ _ _ Hop Hs).
Qed.

Lemma jspec_transmit x tx : jspec x (transmit tx) (λ r x', x' = x ∧ r = inr tt).
Proof. apply spec_call. intros env w r w' _ <- Hr. by injection Hr as <- <-. Qed.

Lemma quiet_suppressed norm at_ : ∀ env td r td',
  IsSuppressed env norm at_ td = (r, td') → deliveries td' = deliveries td.
Proof.
  intros env td r td'. unfold IsSuppressed, checked, throw. destruct (e_closed env); [by intros [= <- <-]|].
  destruct (suppressions td !! norm); [destruct (_ && _)|]; by intros [= <- <-].
Qed.

Lemma quiet_getTransport id : ∀ env td r td', GetTransport env id td = (r, td') → deliveries td' = deliveries td.
Proof.
  intros env td r td'. unfold GetTransport, zoom. destruct (Get _ _ _). by intros [= <- <-].
Qed.

Lemma quiet_updateTransport row : ∀ env td r td', UpdateTransport env row td = (r, td') → deliveries td' = deliveries td.
Proof.
  intros env td r td'. unfold UpdateTransport, zoomWith.
  destruct (Update _ _ _) as [[e|[]] [v rows]]; by intros [= <- <-].
Qed.

Lemma quiet_enqueue evs : ∀ env td r td', Enqueue env evs td = (r, td') → deliveries td' = deliveries td.
Proof.
  intros env td r td'. unfold Enqueue, checked, throw. destruct (e_closed env); [by intros [= <- <-]|].
  intros [= <- <-]. generalize 0%nat as i. revert td. induction evs as [|e evs IH]; intros td i; cbn [enqueueLoop]; [done|].
  by rewrite IH.
Qed.

Lemma job_blind : blind jobView storeOpen.
Proof.
  split.
  - intros. apply jspec_quiet, quiet_getTransport.
  - intros. apply jspec_quiet, quiet_updateTransport.
  - intros A x f. apply spec_call. intros env w r w' _ <- Hr. destruct (f (w_health w)). injection Hr as <- <-. eauto.
  - intros x names. apply spec_call. intros env w r w' _ <- Hr. injection Hr as <- <-. eauto.
Qed.

(** ** The row of a leased delivery *)

Section leased.
Context (row : Delivery) (B : list completion).
Context (Hlease : d_Status row = DeliveryLeased) (Hown : d_LeaseOwner row = sc_WorkerID cfg) (Hworker : sc_WorkerID cfg ≠ "").

(** The run ends with a result for the delivery, whose lease is still held. *)
Definition jobResult (r : error + DeliveryResult) (x : option Delivery * list completion) : Prop :=
  ∃ res row', r = inr res ∧ x = (Some row', B) ∧ dr_DeliveryID res = d_ID d ∧
    dr_LeaseOwner res = sc_WorkerID cfg ∧ d_LeaseOwner row' = sc_WorkerID cfg.

Lemma job_ret res :
  dr_DeliveryID res = d_ID d → dr_LeaseOwner res = sc_WorkerID cfg → jspec (Some row, B) (pret res) jobResult.
Proof. intros Hid Ho. apply spec_done. by exists res, row. Qed.

Lemma jspec_MarkSent messageID at_ :
  jspec (Some row, B) (storeCall t (λ env, MarkSent env (d_ID d) (sc_WorkerID cfg) messageID at_))
    (λ r x, r = inr tt ∧ x = (Some (markSentRow messageID at_ row), B)).
Proof.
  apply spec_call. intros env w r w' [Hcl [td Ht]] Hv Hr. apply pair_equal_spec in Hv as [Hrow Hbuf].
  unfold rowAt, visibleAt in Hrow. rewrite Ht in Hrow. cbn in Hrow.
  unfold onStore in Hr. rewrite Ht in Hr. unfold MarkSent, checked, throw in Hr. cbn in Hr.
  rewrite Hcl, Hrow in Hr. unfold strEq in Hr. rewrite Hlease, Hown in Hr.
  rewrite (bool_decide_eq_true_2 (DeliveryLeased = _)), (bool_decide_eq_true_2 (sc_WorkerID cfg = sc_WorkerID cfg)),
    (bool_decide_eq_false_2 (sc_WorkerID cfg = "")) in Hr by done. cbn in Hr.
  injection Hr as <- <-. split; [done|]. unfold jobView, rowAt, visibleAt. cbn. rewrite lookup_insert_eq. cbn.
  by rewrite lookup_insert_eq, Hbuf.
Qed.

Lemma jspec_deliver s tr domain from messageID raw :
  jspec (Some row, B) (deliver cfg an t s tr domain d from messageID raw) jobResult.
Proof.
  unfold deliver. apply (spec_bind _ _ _ _ (λ _ x, x = (Some row, B))).
  { destruct (an_connect an) as [e|]; [by apply spec_poll; intros []; apply spec_done|].
    apply (spec_bind _ _ _ _ (λ _ x, x = (Some row, B))); [|by intros _ x ->; apply spec_done].
    eapply spec_mono; [apply jspec_transmit|]. by intros [e|[]] x [-> Hr]. }
  intros [e|f] x ->; [by apply job_ret|].
  apply (spec_bind _ _ _ _ (λ _ x, x = (Some row, B))).
  { eapply spec_mono; [apply (quiet_noteAttempt _ _ job_blind)|]. by intros [e|[]] x [-> [a Ha]]. }
  intros _ x ->. set (res0 := decideResult _ _ _ _ _ _ _).
  destruct (decide_settles cfg an d _ _ _ _ res0 eq_refl) as [(Hid&Hres&_) _].
  destruct (f_Class f); try by apply job_ret.
  eapply spec_handle; [apply jspec_MarkSent|]. intros r x [-> ->]. apply spec_done.
  eexists _, _. split_and!; [done|done|done|done|exact Hown].
Qed.

Lemma jspec_process : jspec (Some row, B) (process cfg an t d) jobResult.
Proof.
  destruct (process_cases cfg an t d) as [(what&e&->)|[(what&e&->)|(s&campaign&version&snd&tr&domain&->&_)]].
  - unfold configResult. destruct (errIs e ErrNotFound); by apply job_ret.
  - by apply job_ret.
  - unfold checkAndDeliver. apply (spec_bind _ _ _ _ (λ _ x, x = (Some row, B))).
    { unfold suppressedFor, platformSuppression. destruct (_ && _); [|by apply spec_done].
      eapply (spec_handle _ _ _ _ (keeps (Some row, B))); [by apply jspec_quiet, quiet_suppressed|].
      intros [e|[[] v]] x ->; [by apply spec_done|by apply spec_done|].
      eapply (spec_handle _ _ _ _ (keeps (Some row, B))); [|by intros [e|b] x ->; apply spec_done].
      destruct (negb (tr_Shared tr)); [by apply spec_done|]. destruct (an_sysState an); [by apply spec_done|].
      apply (spec_bind _ _ _ _ (λ _ x, x = (Some row, B))); [|by intros b x ->; apply spec_done].
      eapply spec_mono; [by apply jspec_quiet, quiet_suppressed|]. by intros [e|b] x ->. }
    intros [[what e]|[]] x ->; [by apply job_ret|by apply job_ret|].
    apply (spec_bind _ _ _ _ (λ _ x, x = (Some row, B))).
    { eapply spec_mono; [apply (bl_health _ _ job_blind)|]. by intros [e|a] x [-> [b Hb]]. }
    intros usable x ->. destruct usable; cbn [negb]; [|by apply job_ret].
    unfold renderAndDeliver. destruct (renderMessage _ _ _ _ _ _ _ _) as [e|[msg unsub]].
    { apply spec_poll. intros []; by apply job_ret. }
    destruct (match sc_BeforeSend cfg with Some hook => hook msg | None => (msg, None) end) as [msg' err].
    destruct err as [[[]|text]|]; [by apply job_ret| |].
    { set (res0 := decideResult _ _ _ _ _ _ _).
      destruct (decide_settles cfg an d _ _ _ _ res0 eq_refl) as [(Hid&Hres&_) _]. by apply job_ret. }
    destruct (buildMessage _ _ _); [by apply job_ret|]. destruct (an_wait an); [by apply job_ret|].
    destruct (an_password an); [by apply job_ret|]. apply jspec_deliver.
Qed.
End leased.

(** ** The commit *)

Lemma completeRow_lease now0 res row :
  d_LeaseOwner (completeRow now0 res row) = "" ∧ d_Status (completeRow now0 res row) = dr_NewStatus res.
Proof.
  unfold completeRow. cbv zeta. destruct (negb (strEq _ _)), (dr_IncrementAttempt res), (negb (IsZero _)),
    (bool_decide (dr_NewStatus res = DeliverySent) && _), (Terminal _); done.
Qed.

(** A result whose owner holds the lease is committed, and its events are
    written without touching the row. *)
Lemma jspec_flush marshal st now0 row res c :
  c = mkCompletion res (refOf res d) → dr_DeliveryID res = d_ID d →
  dr_LeaseOwner res = sc_WorkerID cfg → d_LeaseOwner row = sc_WorkerID cfg → sc_WorkerID cfg ≠ "" →
  jspec (Some row, [c]) (flush marshal st now0 t)
    (λ _ x, ∃ row', x = (Some row', []) ∧ d_LeaseOwner row' = "" ∧ d_Status row' = dr_NewStatus res).
Proof.
  intros Hc Hid Hres Hrow Hw. unfold flush.
  apply (spec_bind _ _ _ _ (λ batch x, batch = [c] ∧ x = (Some row, []))).
  { apply spec_call. intros env w r w' _ Hv Hr. injection Hr as <- <-. apply pair_equal_spec in Hv as [Hrow' Hbuf].
    split; [done|]. by rewrite <- Hrow'. }
  intros batch x [-> ->]. change (len [c] =? 0) with false. cbv iota.
  eapply (spec_handle _ _ _ _ (λ _ x, ∃ row', x = (Some row', []) ∧ d_LeaseOwner row' = "" ∧ d_Status row' = dr_NewStatus res)).
  - apply spec_call. intros env w r w' [Hcl [td Ht]] Hv Hr. apply pair_equal_spec in Hv as [Hrow' Hbuf].
    unfold rowAt, visibleAt in Hrow'. rewrite Ht in Hrow'. cbn in Hrow'.
    unfold onStore in Hr. rewrite Ht in Hr. unfold Complete, checked, throw in Hr. cbn in Hr. rewrite Hcl, Hc in Hr.
    cbn in Hr. unfold completeOne in Hr. rewrite Hid, Hrow' in Hr.
    assert (Hown : ownsLease res row = true).
    { unfold ownsLease, strEq. rewrite Hres, Hrow. rewrite (bool_decide_eq_false_2 (sc_WorkerID cfg = "")) by done.
      by rewrite (bool_decide_eq_true_2 (sc_WorkerID cfg = sc_WorkerID cfg)). }
    rewrite Hown in Hr. cbn [negb] in Hr. apply pair_equal_spec in Hr as [<- <-].
    eexists. split; [|apply completeRow_lease]. unfold jobView, rowAt, visibleAt. cbn. rewrite lookup_insert_eq, Hbuf.
    destruct (dr_Attempt res); cbn; by rewrite lookup_insert_eq.
  - intros r x (row'&->&Hrow'). destruct r as [e|[]]; [apply spec_done; eauto|]. unfold enqueueEvents.
    destruct (_ =? 0); [apply spec_done; eauto|]. destruct st as [e|s]; [apply spec_done; eauto|].
    destruct (_ =? 0); [apply spec_done; eauto|].
    eapply spec_handle; [apply jspec_quiet, quiet_enqueue|]. intros r x ->. apply spec_done. eauto.
Qed.

Lemma wire_flush W marshal st now0 : specOn w_wire storeOpen W (flush marshal st now0 t) (λ _ W', W' = W).
Proof.
  unfold flush. apply (spec_bind _ _ _ _ (λ _ W', W' = W)).
  { apply spec_call. intros env w r w' _ <- Hr. by injection Hr as <- <-. }
  intros batch W' ->. destruct (_ =? 0); [by apply spec_done|].
  eapply (spec_handle _ _ _ _ (λ _ W', W' = W)); [by apply spec_storeCall|].
  intros [e|[]] W' ->; [by apply spec_done|]. unfold enqueueEvents.
  destruct (_ =? 0); [by apply spec_done|]. destruct st as [e|s]; [by apply spec_done|].
  destruct (_ =? 0); [by apply spec_done|].
  eapply (spec_handle _ _ _ _ (λ _ W', W' = W)); [by apply spec_storeCall|]. intros r W' ->. by apply spec_done.
Qed.

(** Row, batcher and wire together. *)
Definition fullView (w : world) : (option Delivery * list completion) * list transmission := (jobView w, w_wire w).

Abbreviation fspec := (specOn fullView storeOpen).

Lemma fspec_conj {A} x W (p : progOn world A) Q Q' :
  jspec x p Q → specOn w_wire storeOpen W p Q' → fspec (x, W) p (λ r y, Q r y.1 ∧ Q' r y.2).
Proof.
  intros Hj Hw w Hv. apply pair_equal_spec in Hv as [Hx HW].
  eapply wp_rely; [apply wp_conj; [by apply Hj|by apply Hw]| |done].
  intros a b [HJ Hv]. apply pair_equal_spec in Hv as [Hx' HW']. by split; split.
Qed.

Lemma fspec_job marshal st now0 row W :
  d_Status row = DeliveryLeased → d_LeaseOwner row = sc_WorkerID cfg → sc_WorkerID cfg ≠ "" → d_ID d ≠ "" →
  fspec (Some row, [], W) (handleJob cfg an t d ;? flush marshal st now0 t)
    (λ _ y, ∃ row' txs, y = (Some row', [], W ++ txs) ∧ d_LeaseOwner row' = "" ∧ d_Status row' ∈ sendOutcomes ∧
       (length txs ≤ 1)%nat ∧ Forall (λ tx, tx_rcpt tx = [d_Email d]) txs ∧
       (d_Status row' = DeliverySent ↔ ∃ tx, txs = [tx] ∧ tx_accepted tx = true)).
Proof.
  intros Hl Ho Hw Hid.
  apply (spec_bind _ _ _ _ (λ _ y, ∃ res row' txs,
    y = (Some row', [mkCompletion res (refOf res d)], W ++ txs) ∧ settles cfg d res ∧
    d_LeaseOwner row' = sc_WorkerID cfg ∧ (length txs ≤ 1)%nat ∧ Forall (λ tx, tx_rcpt tx = [d_Email d]) txs ∧
    (dr_NewStatus res = DeliverySent ↔ ∃ tx, txs = [tx] ∧ tx_accepted tx = true))).
  - unfold handleJob. apply (spec_bind _ _ _ _ (λ res y, ∃ row' txs,
      y = (Some row', [], W ++ txs) ∧ settles cfg d res ∧
      d_LeaseOwner row' = sc_WorkerID cfg ∧ (length txs ≤ 1)%nat ∧ Forall (λ tx, tx_rcpt tx = [d_Email d]) txs ∧
      (dr_NewStatus res = DeliverySent ↔ ∃ tx, txs = [tx] ∧ tx_accepted tx = true))).
    + eapply spec_mono; [apply fspec_conj; [by apply (jspec_process row [])|apply spec_process]|].
      intros r [x W'] [(res&row'&->&Hx&Hrid&Hrown&Hrow') (res'&txs&Hr&HW&Hto&Hlen&Hcase)]. cbn in Hx, HW. subst.
      injection Hr as <-. destruct Hcase as [[-> _]|(Hs&Hsent&_)]; [by rewrite <- Hrid in Hid|].
      exists row', txs. by split_and!.
    + intros res y (row'&txs&->&Hs&H). unfold batcherAdd, strEq. rewrite (proj1 Hs), bool_decide_eq_false_2 by done.
      apply spec_call. intros env w r w' _ Hv Hr. injection Hr as <- <-.
      apply pair_equal_spec in Hv as [Hv HW]. apply pair_equal_spec in Hv as [Hrow Hbuf].
      exists res, row', txs. split; [|by destruct H]. unfold fullView, jobView. cbn. rewrite Hbuf, HW.
      by rewrite <- Hrow.
  - intros _ y (res&row'&txs&->&(Hrid&Hrown&Hin)&Hrow'&Hlen&Hto&Hsent).
    eapply spec_mono; [apply fspec_conj; [by apply (jspec_flush marshal st now0 row' res _ eq_refl)|apply wire_flush]|].
    intros r [x W'] [(row2&Hx&Hlo&Hst) HW]. cbn in Hx, HW. subst. exists row2, txs. rewrite Hst. by split_and!.
Qed.
End job.

(** C2 (sender/commit): what a worker commits is what happened.  Take a
    delivery this worker holds the lease of, let the worker process it and the
    batcher flush, with anybody else at work who leaves the leased row alone.
    Then the row carries an outcome of the send path, sent exactly if the
    relay took the one message that was offered to it, the lease is released
    and the batcher is empty. *)
Theorem job_commits_outcome cfg an t d marshal st now0 row w tr r w' :
  rowAt t d w = Some row → w_buf w = [] →
  d_Status row = DeliveryLeased → d_LeaseOwner row = sc_WorkerID cfg → sc_WorkerID cfg ≠ "" → d_ID d ≠ "" →
  exec (sendRely (fullView t d) (storeOpen t)) (handleJob cfg an t d ;? flush marshal st now0 t) w tr r w' →
  w_buf w' = [] ∧
  ∃ row' txs, rowAt t d w' = Some row' ∧ w_wire w' = w_wire w ++ txs ∧
    d_LeaseOwner row' = "" ∧ d_Status row' ∈ sendOutcomes ∧
    (length txs ≤ 1)%nat ∧ Forall (λ tx, tx_rcpt tx = [d_Email d]) txs ∧
    (d_Status row' = DeliverySent ↔ ∃ tx, txs = [tx] ∧ tx_accepted tx = true).
Proof.
  intros Hrow Hbuf Hl Ho Hw Hid He.
  assert (Hv : fullView t d w = (Some row, [], w_wire w)) by (unfold fullView, jobView; by rewrite Hrow, Hbuf).
  pose proof (fspec_job cfg an t d marshal st now0 row (w_wire w) Hl Ho Hw Hid) as Hspec. rewrite <- Hv in Hspec.
  destruct (spec_exec _ _ _ _ _ _ Hspec He) as (row'&txs&Hy&H).
  apply pair_equal_spec in Hy as [Hy HW]. apply pair_equal_spec in Hy as [Hr Hb]. split; [done|].
  exists row', txs. by destruct H.
Qed.

(** ** Concrete runs *)

Definition sampleTransport : Transport := zero <| tr_ID := "t1" |>.

Definition sampleSenderConfig : senderConfig :=
  mkSenderConfig "w1" 0 0 Minute plainMime sampleHMAC sampleRender None
    (mkMailWriter (λ f, inr (match ma_Parts f with part :: _ => part.2 | [] => "" end)) (λ _ raw, inr raw)) (λ _, None) (λ _, "error").

(** Everything is found and answers; the relay says what it is given. *)
Definition answersWith (s : TenantSettings) (tr : Transport) (reply : option sendError) : answers :=
  mkAnswers Hour (Hour + Second) (Hour + 2 * Second) (Hour + 3 * Second) (f64OfZ 0)
    (inr s) (λ _, inl ErrNotFound) (λ _, inr sampleVersion)
    (λ _, inr sampleSender) (λ _, inr tr) (λ _, inr None) None None None None reply.

Definition jobRow : Delivery :=
  sampleRecipient <| d_Status := DeliveryLeased |> <| d_LeaseOwner := "w1" |> <| d_LeaseUntil := 2 * Hour |>.

Definition jobWorld : world :=
  mkWorld (mkProvider false (<["acme" := newTenantData <| deliveries := <["d1" := jobRow]> ∅ |>]> ∅))
    (newHealthTracker 3 Minute) [] [] [].

Definition jobEnv : Env := mkEnv false Hour "acme" (λ _, "e1").

Definition openAt (w : world) : bool :=
  negb (pv_closed (w_store w)) && bool_decide (is_Some (pv_tenants (w_store w) !! "acme")).

Lemma idle_exec {A X} (π : world → X) (p : progOn world A) w :
  forallb (λ st, openAt st.1) (steps jobEnv p w) = true →
  exec (sendRely π (storeOpen "acme")) p w (steps jobEnv p w) (run jobEnv p w).1 (run jobEnv p w).2.
Proof.
  intros H. apply steps_exec_idle, Forall_forall. intros st Hst%list_elem_of_In.
  rewrite forallb_forall in H. specialize (H st Hst). split; [|done].
  unfold openAt in H. apply andb_true_iff in H as [Hc Ht]. apply bool_decide_eq_true in Ht.
  apply negb_true_iff in Hc. by split.
Qed.

Definition sampleJob : progOn world DeliveryResult :=
  process sampleSenderConfig (answersWith sampleSettings sampleTransport None) "acme" jobRow.


Definition sampleFullJob : progOn world unit :=
  handleJob sampleSenderConfig (answersWith sampleSettings sampleTransport None) "acme" jobRow ;?
  flush (λ _, Some "{}") (inr sampleSettings) Hour "acme".

Lemma job_commits_outcome_witness :
  ∃ row', rowAt "acme" jobRow (run jobEnv sampleFullJob jobWorld).2 = Some row' ∧ d_LeaseOwner row' = "".
Proof.
  destruct (job_commits_outcome sampleSenderConfig (answersWith sampleSettings sampleTransport None) "acme" jobRow
    (λ _, Some "{}") (inr sampleSettings) Hour jobRow jobWorld (steps jobEnv sampleFullJob jobWorld)
    (run jobEnv sampleFullJob jobWorld).1 (run jobEnv sampleFullJob jobWorld).2
    eq_refl eq_refl eq_refl eq_refl ltac:(done) ltac:(done)
    (idle_exec _ sampleFullJob jobWorld ltac:(by vm_compute))) as (_&row'&txs&Hrow&_&Hlo&_).
  exists row'. exact (conj Hrow Hlo).
Defined.

(** The address of [jobRow] on the platform's list. *)
Definition suppressedWorld (t : string) : world :=
  jobWorld <| w_store := mkProvider false
    (<[t := newTenantData <| suppressions := <["ann@example.com" := zero]> ∅ |>]> (pv_tenants (w_store jobWorld))) |>.

Definition sharedTransport : Transport := zero <| tr_ID := "sys:relay" |> <| tr_Shared := true |>.

Definition suppressedJob : progOn world DeliveryResult :=
  process sampleSenderConfig (answersWith sampleSettings sharedTransport None) "acme" jobRow.

Lemma suppressed_never_sent_witness :
  w_wire (run jobEnv suppressedJob (suppressedWorld SystemTenantID)).2 = [] ∧
  ts_SuppressionEnabled sampleSettings = true.
Proof.
  split; [|reflexivity].
  refine (proj1 (suppressed_never_sent sampleSenderConfig (answersWith sampleSettings sharedTransport None) "acme" jobRow
    sampleSettings SystemTenantID (suppressedWorld SystemTenantID)
    (steps jobEnv suppressedJob (suppressedWorld SystemTenantID)) _ _ eq_refl eq_refl _ _ _)).
  - done.
  - right. split; [done|]. by intros id x [= <-].
  - apply steps_exec_idle. vm_compute. repeat constructor; intros td [= <-]; exists zero; (split; [reflexivity|by left]).
Defined.

(** A tenant that turned its own suppression off mails an address the platform
    has suppressed, through the shared relay. *)
Theorem platform_list_skipped_when_off :
  let s := sampleSettings <| ts_SuppressionEnabled := false |> in
  let '(r, w) := run jobEnv (process sampleSenderConfig (answersWith s sharedTransport None) "acme" jobRow)
                   (suppressedWorld SystemTenantID) in
  (suppressedIn SystemTenantID "ann@example.com" Hour (w_store w)) ∧
  tx_rcpt <$> w_wire w = [["ann@example.com"]].
Proof. vm_compute. split; [|done]. intros td [= <-]. exists zero. split; [reflexivity|by left]. Qed.

(** A worker whose lease was taken over commits nothing, yet the event of its
    failed attempt is queued. *)
Theorem stale_result_emits_event :
  let row := jobRow <| d_LeaseOwner := "w2" |> in
  let w := jobWorld <| w_store := mkProvider false
      (<["acme" := newTenantData <| deliveries := <["d1" := row]> ∅ |>]> ∅) |> in
  let res := failResult sampleSenderConfig jobRow ErrorClassPermanent 550 "no such user" Hour in
  let '(_, w') := run jobEnv (batcherAdd res jobRow ;? flush (λ _, Some "{}") (inr sampleSettings) Hour "acme") w in
  rowAt "acme" jobRow w' = Some row ∧
  o_Type <$> (vi_outbox (visibleAt "acme" (w_store w')) !! "e1") = Some EventDeliveryFailed.
Proof. by vm_compute. Qed.
