(* ===== verification/NetIP.v ===== *)
(** * Addresses of the [net] package

    A [net.IP] is its bytes, four or sixteen of them; a [net.IPMask] too.  The
    theorem relates the bytewise mask test to the prefix of the address as a
    number. *)

From S2P Require Import Prelude Codec.

Abbreviation IP := (list Z).

Definition IPv4len : nat := 4.
Definition IPv6len : nat := 16.
Definition v4InV6Prefix : IP := replicate 10 0 ++ [255; 255].

(** [net.IPv4zero] *)
Definition IPv4zero : IP := v4InV6Prefix ++ [0; 0; 0; 0].

(** [IP.To4] and [IP.To16]; [None] is nil. *)
Definition To4 (ip : IP) : option IP :=
  if (length ip =? IPv4len)%nat then Some ip
  else if (length ip =? IPv6len)%nat && bool_decide (take 12 ip = v4InV6Prefix) then Some (drop 12 ip)
  else None.
Definition To16 (ip : IP) : option IP :=
  if (length ip =? IPv4len)%nat then Some (v4InV6Prefix ++ ip)
  else if (length ip =? IPv6len)%nat then Some ip
  else None.

(** [IP.Equal] *)
Definition IPEqual (a b : IP) : bool :=
  if (length a =? length b)%nat then bool_decide (a = b)
  else if (length a =? IPv4len)%nat && (length b =? IPv6len)%nat then
    bool_decide (take 12 b = v4InV6Prefix) && bool_decide (a = drop 12 b)
  else if (length a =? IPv6len)%nat && (length b =? IPv4len)%nat then
    bool_decide (take 12 a = v4InV6Prefix) && bool_decide (drop 12 a = b)
  else false.

(** [IP.Mask] *)
Definition IPMask (ip mask : IP) : option IP :=
  let mask := if (length mask =? IPv6len)%nat && (length ip =? IPv4len)%nat && bool_decide (take 12 mask = replicate 12 255)
              then drop 12 mask else mask in
  let ip := if (length mask =? IPv4len)%nat && (length ip =? IPv6len)%nat && bool_decide (take 12 ip = v4InV6Prefix)
            then drop 12 ip else ip in
  if (length ip =? length mask)%nat then Some (zip_with Z.land ip mask) else None.

(** [a.Mask(m).Equal(b.Mask(m))], where nil equals nil. *)
Definition maskEqual (a b mask : IP) : bool := IPEqual (default [] (IPMask a mask)) (default [] (IPMask b mask)).

(** [CIDRMask]: the bytes that are left to fill, and the ones among their bits. *)
Fixpoint maskBytes (l : nat) (n : Z) : IP :=
  match l with
  | O => []
  | S l => if 8 <=? n then 255 :: maskBytes l (n - 8) else (255 - Z.shiftr 255 n) :: maskBytes l 0
  end.
Definition CIDRMask (ones bits : Z) : option IP :=
  if negb (bits =? 32) && negb (bits =? 128) then None
  else if (ones <? 0) || (bits <? ones) then None
  else Some (maskBytes (Z.to_nat (bits / 8)) ones).

(** [net.IPNet] *)
Record IPNet := mkIPNet { in_IP : IP; in_Mask : IP }.

Definition networkNumberAndMask (n : IPNet) : option (IP * IP) :=
  let ip := match To4 (in_IP n) with
            | Some ip => Some ip
            | None => if (length (in_IP n) =? IPv6len)%nat then Some (in_IP n) else None end in
  match ip with
  | None => None
  | Some ip =>
      let m := in_Mask n in
      if (length m =? IPv4len)%nat then (if (length ip =? IPv4len)%nat then Some (ip, m) else None)
      else if (length m =? IPv6len)%nat then Some (ip, if (length ip =? IPv4len)%nat then drop 12 m else m)
      else None
  end.

(** [IPNet.Contains] *)
Definition NetContains (n : IPNet) (ip : IP) : bool :=
  let ip := default ip (To4 ip) in
  match networkNumberAndMask n with
  | Some (nn, m) => (length ip =? length nn)%nat && bool_decide (zip_with Z.land nn m = zip_with Z.land ip m)
  | None => bool_decide (ip = [])
  end.

(** ** The prefix of an address *)

(** The address as a number, most significant byte first. *)
Definition addrNum (ip : IP) : Z := foldl (λ n b, 256 * n + b) 0 ip.
Definition bytesOk (ip : IP) : Prop := Forall (λ b, 0 ≤ b < 256) ip.

Lemma addrNum_from n ip : foldl (λ n b, 256 * n + b) n ip = n * 256 ^ len ip + addrNum ip.
Proof.
  unfold addrNum. revert n. induction ip as [|b ip IH]; intros n; [unfold len; cbn; lia|]. cbn [foldl].
  rewrite (IH (256 * n + b)), (IH (256 * 0 + b)). replace (len (b :: ip)) with (len ip + 1) by (unfold len; cbn; lia).
  rewrite Z.pow_add_r by (unfold len; lia). lia.
Qed.
Lemma addrNum_cons b ip : addrNum (b :: ip) = b * 256 ^ len ip + addrNum ip.
Proof. unfold addrNum at 1. cbn [foldl]. rewrite addrNum_from. lia. Qed.

Lemma addrNum_range ip : bytesOk ip → 0 ≤ addrNum ip < 256 ^ len ip.
Proof.
  induction 1 as [|b ip Hb Hip IH]; [by vm_compute|]. rewrite addrNum_cons.
  replace (len (b :: ip)) with (len ip + 1) by (unfold len; cbn; lia). rewrite Z.pow_add_r by (unfold len; lia). nia.
Qed.

(** The byte of a mask with [n] ones keeps the top [n] bits. *)
Lemma land_mask b n : 0 ≤ b < 256 → 0 ≤ n ≤ 8 → Z.land b (255 - Z.shiftr 255 n) = 2 ^ (8 - n) * (b / 2 ^ (8 - n)).
Proof.
  intros Hb Hn.
  assert (H : ∀ k, (k < 9)%nat → ∀ i, (i < 256)%nat →
    Z.land (Z.of_nat i) (255 - Z.shiftr 255 (Z.of_nat k)) =? 2 ^ (8 - Z.of_nat k) * (Z.of_nat i / 2 ^ (8 - Z.of_nat k)) = true).
  { intros k Hk i Hi. assert (Hall : forallb (λ k, forallb (λ i, Z.land (Z.of_nat i) (255 - Z.shiftr 255 (Z.of_nat k)) =?
      2 ^ (8 - Z.of_nat k) * (Z.of_nat i / 2 ^ (8 - Z.of_nat k))) (seq 0 256)) (seq 0 9) = true) by (vm_compute; reflexivity).
    rewrite forallb_forall in Hall. specialize (Hall k ltac:(apply in_seq; lia)). rewrite forallb_forall in Hall.
    apply (Hall i). apply in_seq. lia. }
  specialize (H (Z.to_nat n) ltac:(lia) (Z.to_nat b) ltac:(lia)). rewrite !Z2Nat.id in H by lia. lia.
Qed.

(** Two numbers of [k] bits below a common base agree above [s] bits. *)
Lemma prefix_split a b x y (w s : Z) :
  0 ≤ s ≤ w → 0 ≤ x < 2 ^ w → 0 ≤ y < 2 ^ w →
  ((a * 2 ^ w + x) / 2 ^ s = (b * 2 ^ w + y) / 2 ^ s ↔ a = b ∧ x / 2 ^ s = y / 2 ^ s).
Proof.
  intros Hs Hx Hy. replace (2 ^ w) with (2 ^ (w - s) * 2 ^ s) in * by (rewrite <- Z.pow_add_r by lia; f_equal; lia).
  assert (0 < 2 ^ s) by lia. assert (0 < 2 ^ (w - s)) by lia.
  replace (a * (2 ^ (w - s) * 2 ^ s) + x) with (x + a * 2 ^ (w - s) * 2 ^ s) by lia.
  replace (b * (2 ^ (w - s) * 2 ^ s) + y) with (y + b * 2 ^ (w - s) * 2 ^ s) by lia.
  rewrite !Z.div_add by lia.
  assert (0 ≤ x / 2 ^ s < 2 ^ (w - s)) by (split; [by apply Z.div_pos; lia|apply Z.div_lt_upper_bound; lia]).
  assert (0 ≤ y / 2 ^ s < 2 ^ (w - s)) by (split; [by apply Z.div_pos; lia|apply Z.div_lt_upper_bound; lia]).
  split; [|by intros [-> ->]]. intros E. assert (a = b) by nia. split; [done|]. subst. lia.
Qed.

(** Masking with [n] ones and comparing is comparing the first [n] bits. *)
Lemma maskBytes_prefix l n a b :
  bytesOk a → bytesOk b → length a = l → length b = l → 0 ≤ n ≤ 8 * Z.of_nat l →
  (zip_with Z.land a (maskBytes l n) = zip_with Z.land b (maskBytes l n) ↔
   addrNum a / 2 ^ (8 * Z.of_nat l - n) = addrNum b / 2 ^ (8 * Z.of_nat l - n)).
Proof.
  intros Ha. revert n b l. induction Ha as [|x a Hx Ha IH]; intros n b l Hb Hla Hlb Hn; subst l.
  { apply nil_length_inv in Hlb as ->. done. }
  destruct Hb as [|y b Hy Hb]; [done|]. injection Hlb as Hlb. cbn [length maskBytes]. rewrite !addrNum_cons.
  assert (Hw : 256 ^ len a = 2 ^ (8 * len a)) by (rewrite Z.pow_mul_r by (unfold len; lia); done).
  replace (len b) with (len a) by (unfold len; lia). rewrite Hw.
  pose proof (addrNum_range a Ha) as Ra. pose proof (addrNum_range b Hb) as Rb. replace (len b) with (len a) in Rb by (unfold len; lia).
  rewrite Hw in Ra, Rb. change (Z.of_nat (length a)) with (len a) in *.
  replace (8 * Z.of_nat (S (length a)) - n) with (8 * len a - (n - 8)) by (unfold len; lia).
  cbn [length] in Hn. replace (8 * Z.of_nat (S (length a))) with (8 * len a + 8) in Hn by (unfold len; lia).
  destruct (Z.leb_spec 8 n).
  - rewrite prefix_split by lia. specialize (IH (n - 8) b (length a) Hb eq_refl Hlb ltac:(unfold len in *; lia)).
    change (Z.of_nat (length a)) with (len a) in IH. rewrite <- IH. cbn [zip_with].
    assert (H255 : ∀ z, 0 ≤ z < 256 → Z.land z 255 = z).
    { intros z Hz. pose proof (land_mask z 8 Hz ltac:(lia)) as Hm. change (255 - Z.shiftr 255 8) with 255 in Hm.
      change (2 ^ (8 - 8)) with 1 in Hm. rewrite Z.div_1_r in Hm. lia. }
    rewrite !H255 by done. split; [by intros [= -> ->]|by intros [-> ->]].
  - cbn [zip_with]. rewrite !land_mask by (done || lia).
    specialize (IH 0 b (length a) Hb eq_refl Hlb ltac:(unfold len in *; lia)).
    change (Z.of_nat (length a)) with (len a) in IH. rewrite Z.sub_0_r in IH. rewrite !Z.div_small in IH by lia.
    assert (Htail : zip_with Z.land a (maskBytes (length a) 0) = zip_with Z.land b (maskBytes (length a) 0)) by by apply IH.
    replace (8 * len a - (n - 8)) with (8 * len a + (8 - n)) by lia. rewrite Z.pow_add_r by (unfold len; lia).
    rewrite <- !Z.div_div by (unfold len; lia). rewrite !Z.div_add_l by (unfold len; lia). rewrite !(Z.div_small (addrNum _)) by lia.
    rewrite !Z.add_0_r, Htail. split; [intros [= E]; nia|by intros ->].
Qed.
