(* ===== verification/Spf.v ===== *)
(** * Evaluating an SPF record ([internal/dnscheck/spf.go])

    RFC 7208's check_host as the health check runs it: the record of a domain is
    parsed into terms, the terms are tried in order, [include] and [redirect]
    recurse, and a budget of lookups bounds the work.  The evaluator threads its
    state, the budget and the memoised answers; DNS and the text forms of
    addresses are arguments. *)

From S2P Require Import Prelude Enums Model Classify Codec Tokens Email BounceReport NetIP.

(** ** What the checks ask *)

(** The library functions the checks call. *)
Record dnsLib := mkDnsLib {
  (** [strings.ToLower] and [strings.EqualFold] *)
  dl_ToLower : string → string;
  dl_EqualFold : string → string → bool;
  (** [net.ParseIP], [net.ParseCIDR] and [IP.String] *)
  dl_ParseIP : string → option IP;
  dl_ParseCIDR : string → option IPNet;
  dl_IPString : IP → string;
  (** [strconv.Quote] *)
  dl_Quote : string → string;
}.

(** An error of a lookup: [ErrNoRecord], or one with its text. *)
Inductive dnsErr := ErrNoRecord | dnsFailed (text : string).

Record MX := mkMX { mx_Host : string; mx_Pref : Z }.
Record Resolver := mkResolver {
  rs_TXT : string → dnsErr + list string;
  rs_A : string → dnsErr + list IP;
  rs_AAAA : string → dnsErr + list IP;
  rs_MX : string → dnsErr + list MX;
  rs_PTR : string → dnsErr + list string;
}.

Definition MaxSPFLookups : Z := 10.
Definition termIgnored : string := "-ignored-".
Definition maxSPFDepth : nat := 12.

(** The results, as RFC 7208 names them. *)
Inductive spfResult := spfPass | spfFail | spfSoftfail | spfNeutral | spfNone | spfPermerror | spfTemperror.
#[global] Instance spfResult_eq_dec : EqDecision spfResult.
Proof. solve_decision. Defined.
Definition spfText (r : spfResult) : string :=
  match r with
  | spfPass => "pass" | spfFail => "fail" | spfSoftfail => "softfail" | spfNeutral => "neutral"
  | spfNone => "none" | spfPermerror => "permerror" | spfTemperror => "temperror"
  end.

(** ** Terms *)

Record spfTerm := mkSpfTerm {
  sf_qualifier : Ascii.ascii; sf_name : string; sf_value : string; sf_cidr4 : Z; sf_cidr6 : Z;
}.
#[global] Instance spfTerm_eta : Eta spfTerm := λ t,
  mkSpfTerm (sf_qualifier t) (sf_name t) (sf_value t) (sf_cidr4 t) (sf_cidr6 t).

Definition plusSign : Ascii.ascii := toByte 43.
Definition minusSign : Ascii.ascii := toByte 45.
Definition tildeSign : Ascii.ascii := toByte 126.
Definition questionSign : Ascii.ascii := toByte 63.
Definition slashByte : Ascii.ascii := toByte 47.
Definition colonByte : Ascii.ascii := toByte 58.
Definition equalsByte : Ascii.ascii := toByte 61.

(** [spfTerm.String] *)
Definition termString (t : spfTerm) : string :=
  let s := if negb (strEq (sf_value t) "") && negb (strEq (sf_name t) "a") && negb (strEq (sf_name t) "mx")
           then sf_name t +:+ ":" +:+ sf_value t else sf_name t in
  if Ascii.eqb (sf_qualifier t) plusSign then s else String (sf_qualifier t) s.

Definition target (t : spfTerm) (domain : string) : string := if strEq (sf_value t) "" then domain else sf_value t.

Definition prefix (t : spfTerm) (ip : IP) : Z :=
  match To4 ip with
  | Some _ => if 0 <=? sf_cidr4 t then sf_cidr4 t else 32
  | None => if 0 <=? sf_cidr6 t then sf_cidr6 t else 128
  end.

Definition qualifierResult (q : Ascii.ascii) : spfResult :=
  if Ascii.eqb q minusSign then spfFail
  else if Ascii.eqb q tildeSign then spfSoftfail
  else if Ascii.eqb q questionSign then spfNeutral
  else spfPass.

(** The text before and after the first occurrence of [sep]. *)
Fixpoint cutText (sep s : string) : option (string * string) :=
  if String.prefix sep s then Some ("", strDrop (String.length sep) s)
  else match s with
       | EmptyString => None
       | String c s' => match cutText sep s' with Some (a, b) => Some (String c a, b) | None => None end
       end.

Section spf.
Context (L : dnsLib).

(** [parseDualCIDR] *)
Definition parseDualCIDR (s : string) : string + (Z * Z) :=
  let v4 (s : string) (v6 : Z) :=
    match s with
    | String c (String _ _ as digits) =>
        if Ascii.eqb c slashByte then
          match Atoi digits with
          | Some v => if (v <? 0) || (32 <? v) then inl ("잘못된 IPv4 프리픽스 " +:+ dl_Quote L s) else inr (v, v6)
          | None => inl ("잘못된 IPv4 프리픽스 " +:+ dl_Quote L s)
          end
        else inr (-1, v6)
    | _ => inr (-1, v6)
    end in
  match cutText "//" s with
  | Some (before, after) =>
      match Atoi after with
      | Some v => if (v <? 0) || (128 <? v) then inl ("잘못된 IPv6 프리픽스 " +:+ dl_Quote L s) else v4 before v
      | None => inl ("잘못된 IPv6 프리픽스 " +:+ dl_Quote L s)
      end
  | None => v4 s (-1)
  end.

(** [matchCIDR] *)
Definition matchCIDR (spec : string) (ip : IP) : string + bool :=
  if hasByte slashByte spec then
    match dl_ParseCIDR L spec with
    | None => inl ("잘못된 CIDR " +:+ dl_Quote L spec)
    | Some n => inr (NetContains n ip)
    end
  else
    match dl_ParseIP L spec with
    | None => inl ("잘못된 IP " +:+ dl_Quote L spec)
    | Some got => inr (IPEqual got ip)
    end.

(** [containsIP] *)
Definition containsIP (l : list IP) (ip : IP) (prefix : Z) : bool :=
  let bits := match To4 ip with Some _ => 32 | None => 128 end in
  let mask := default [] (CIDRMask prefix bits) in
  let form := if bits =? 32 then To4 else To16 in
  existsb (λ got, match form got, form ip with Some a, Some b => maskEqual a b mask | _, _ => false end) l.

Definition isSPFRecord (s : string) : bool :=
  if strLen s <? 6 then false
  else if negb (dl_EqualFold L (strTake 6 s) "v=spf1") then false
  else match strDrop 6 s with
       | EmptyString => true
       | String c _ => Ascii.eqb c (toByte 32) || Ascii.eqb c (toByte 9)
       end.

(** A term that is a mechanism, after its qualifier. *)
Definition parseMechanism (q : Ascii.ascii) (f : string) : string + spfTerm :=
  if strEq f "" then inl "빈 메커니즘"
  else
    let '(name, rest) := match cutByte colonByte f with Some (n, r) => (n, r) | None => (f, "") end in
    let '(name, cidrPart) :=
      if strEq rest "" then
        match cutByte slashByte name with Some (n, c) => (n, String slashByte c) | None => (name, "") end
      else (name, "") in
    let name := dl_ToLower L name in
    let t := mkSpfTerm q name "" (-1) (-1) in
    if negb (strEq cidrPart "") && negb (strEq name "a") && negb (strEq name "mx") && negb (strEq name "ptr")
    then inl (name +:+ "는 프리픽스 길이를 받지 않습니다")
    else if strEq name "ip4" || strEq name "ip6" then
      if strEq rest "" then inl (name +:+ ": 주소가 없습니다")
      else match matchCIDR rest IPv4zero with inl e => inl e | inr _ => inr (t <| sf_value := rest |>) end
    else if strEq name "all" then
      if strEq rest "" then inr t else inl "all은 인자를 받지 않습니다"
    else if strEq name "include" || strEq name "exists" then
      if strEq rest "" then inl (name +:+ ": 도메인이 없습니다") else inr (t <| sf_value := rest |>)
    else if strEq name "a" || strEq name "mx" || strEq name "ptr" then
      let '(v, cidrPart) := match cutByte slashByte rest with
                            | Some (v, c) => (v, String slashByte c)
                            | None => (rest, cidrPart) end in
      if strEq cidrPart "" then inr (t <| sf_value := v |>)
      else match parseDualCIDR cidrPart with
           | inl e => inl e
           | inr (c4, c6) => inr (t <| sf_value := v |> <| sf_cidr4 := c4 |> <| sf_cidr6 := c6 |>)
           end
    else inl ("알 수 없는 메커니즘 " +:+ dl_Quote L name).

(** [parseSPFTerm] *)
Definition parseSPFTerm (f : string) : string + spfTerm :=
  let modifier :=
    match cutByte equalsByte f with
    | Some (n, v) => if negb (strEq n "") && negb (hasByte colonByte n) && negb (hasByte slashByte n) then Some (n, v) else None
    | None => None
    end in
  match modifier with
  | Some (n, v) =>
      let name := dl_ToLower L n in
      if strEq name "redirect" || strEq name "exp" then
        if strEq v "" then inl (name +:+ "= 값이 비어 있습니다") else inr (mkSpfTerm plusSign name v (-1) (-1))
      else inr (mkSpfTerm plusSign termIgnored "" (-1) (-1))
  | None =>
      match f with
      | String c f' =>
          if contains [plusSign; minusSign; tildeSign; questionSign] c then parseMechanism c f' else parseMechanism plusSign f
      | EmptyString => parseMechanism plusSign f
      end
  end.

Fixpoint parseTerms (fs : list string) : string + list spfTerm :=
  match fs with
  | [] => inr []
  | f :: fs' =>
      match parseSPFTerm f with
      | inl e => inl e
      | inr t => match parseTerms fs' with inl e => inl e | inr ts => inr (t :: ts) end
      end
  end.

(** [parseSPF] *)
Definition parseSPF (record : string) : string + list spfTerm :=
  match Fields record with
  | f :: fs => if dl_EqualFold L f "v=spf1" then parseTerms fs else inl "v=spf1로 시작하지 않습니다"
  | [] => inl "v=spf1로 시작하지 않습니다"
  end.

(** ** The evaluation *)

Record spfEval := mkSpfEval {
  sp_lookups : Z;
  sp_seen : gmap string (dnsErr + list string);
  sp_record : string;
  sp_matched : string;
  sp_hasAll : bool;
}.
#[global] Instance spfEval_eta : Eta spfEval := λ e,
  mkSpfEval (sp_lookups e) (sp_seen e) (sp_record e) (sp_matched e) (sp_hasAll e).
Definition newSpfEval : spfEval := mkSpfEval 0 ∅ "" "" false.

Context (R : Resolver) (ip : option IP).

(** [charge] *)
Definition charge (e : spfEval) : bool * spfEval :=
  let e := e <| sp_lookups := int64 (sp_lookups e + 1) |> in (sp_lookups e <=? MaxSPFLookups, e).
Definition overText (e : spfEval) : string := "DNS 조회 " +:+ pretty (sp_lookups e) +:+ "회 > " +:+ pretty MaxSPFLookups.

(** [txt] *)
Definition txt (name : string) (e : spfEval) : (dnsErr + list string) * spfEval :=
  let key := dl_ToLower L name in
  match sp_seen e !! key with
  | Some got => (got, e)
  | None => let got := rs_TXT R name in (got, e <| sp_seen := <[key := got]> (sp_seen e) |>)
  end.

(** [addrs] *)
Definition addrs (name : string) (ip : IP) : dnsErr + list IP :=
  match To4 ip with Some _ => rs_A R name | None => rs_AAAA R name end.

(** What [check] returns: a result and an error's text. *)
Abbreviation spfAnswer := (spfResult * option string)%type.

(** What [match] returns: whether the term matched, a result that ends the
    evaluation, an error's text. *)
Abbreviation termAnswer := (bool * option spfResult * option string)%type.

(** Spend a lookup, or end with permerror. *)
Definition charged (e : spfEval) (k : spfEval → termAnswer * spfEval) : termAnswer * spfEval :=
  let '(ok, e) := charge e in
  if ok then k e else ((false, Some spfPermerror, Some (overText e)), e).

(** [match]; [rec] is [check] one level down. *)
Definition matchTerm (rec : string → spfEval → spfAnswer * spfEval) (t : spfTerm) (domain : string) (e : spfEval)
    : termAnswer * spfEval :=
  let name := sf_name t in
  if strEq name "all" then ((true, None, None), e)
  else if strEq name "ip4" || strEq name "ip6" then
    match ip with
    | None => ((false, None, None), e)
    | Some ip =>
        match matchCIDR (sf_value t) ip with
        | inl err => ((false, Some spfPermerror, Some err), e)
        | inr ok => ((ok, None, None), e)
        end
    end
  else if strEq name "a" then
    charged e (λ e,
      match ip with
      | None => ((false, None, None), e)
      | Some ip =>
          match addrs (target t domain) ip with
          | inl _ => ((false, None, None), e)
          | inr ips => ((containsIP ips ip (prefix t ip), None, None), e)
          end
      end)
  else if strEq name "mx" then
    charged e (λ e,
      match ip with
      | None => ((false, None, None), e)
      | Some ip =>
          match rs_MX R (target t domain) with
          | inl _ => ((false, None, None), e)
          | inr mxs =>
              let mxs := take (Z.to_nat MaxSPFLookups) mxs in
              ((existsb (λ mx, match addrs (mx_Host mx) ip with
                               | inl _ => false
                               | inr ips => containsIP ips ip (prefix t ip) end) mxs, None, None), e)
          end
      end)
  else if strEq name "include" then
    charged e (λ e,
      let '((res, err), e) := rec (sf_value t) e in
      match res with
      | spfPass => ((true, None, None), e)
      | spfTemperror => ((false, Some spfTemperror, err), e)
      | spfPermerror | spfNone => ((false, Some spfPermerror, Some ("include:" +:+ sf_value t +:+ " → " +:+ spfText res)), e)
      | _ => ((false, None, None), e)
      end)
  else if strEq name "exists" then
    charged e (λ e, match rs_A R (sf_value t) with inl _ => ((false, None, None), e) | inr _ => ((true, None, None), e) end)
  else if strEq name "ptr" then charged e (λ e, ((false, None, None), e))
  else ((false, Some spfPermerror, Some ("알 수 없는 메커니즘 " +:+ dl_Quote L name)), e).

(** The terms of a record, in order; [redirect] is the one seen last.  An error
    of [match] always comes with its result. *)
Fixpoint evalTerms (rec : string → spfEval → spfAnswer * spfEval) (top : bool) (domain : string) (ts : list spfTerm)
    (redirect : string) (e : spfEval) : spfAnswer * spfEval :=
  match ts with
  | [] =>
      if strEq redirect "" then ((spfNeutral, None), e)
      else
        let e := if top then e <| sp_hasAll := true |> else e in
        let '(ok, e) := charge e in
        if negb ok then ((spfPermerror, Some (overText e)), e)
        else
          let '((res, err), e) := rec redirect e in
          if bool_decide (res = spfNone)
          then ((spfPermerror, Some ("redirect 대상 " +:+ redirect +:+ "에 SPF 레코드가 없습니다")), e)
          else
            let e := if strEq (sp_matched e) "" then e <| sp_matched := "redirect:" +:+ redirect |> else e in
            ((res, err), e)
  | t :: ts' =>
      if strEq (sf_name t) "redirect" then evalTerms rec top domain ts' (sf_value t) e
      else if strEq (sf_name t) "exp" || strEq (sf_name t) termIgnored then evalTerms rec top domain ts' redirect e
      else
        let e := if top && strEq (sf_name t) "all" then e <| sp_hasAll := true |> else e in
        let '((matched, res, err), e) := matchTerm rec t domain e in
        match err with
        | Some _ => ((default spfNeutral res, err), e)
        | None =>
            match matched, res with
            | false, Some r => ((r, None), e)
            | false, None => evalTerms rec top domain ts' redirect e
            | true, _ =>
                let e := if top || strEq (sp_matched e) "" then e <| sp_matched := termString t |> else e in
                ((qualifierResult (sf_qualifier t), None), e)
            end
        end
  end.

(** [check]; [levels] more may be entered, [top] is depth 0. *)
Fixpoint check (levels : nat) (top : bool) (domain : string) (e : spfEval) : spfAnswer * spfEval :=
  match levels with
  | O => ((spfPermerror, Some "include/redirect가 너무 깊습니다"), e)
  | S levels =>
      let '(txts, e) := txt domain e in
      match txts with
      | inl ErrNoRecord => ((spfNone, None), e)
      | inl (dnsFailed text) => ((spfTemperror, Some text), e)
      | inr txts =>
          match filter (λ t, isSPFRecord t = true) txts with
          | [] => ((spfNone, None), e)
          | [record] =>
              let e := if top then e <| sp_record := record |> else e in
              match parseSPF record with
              | inl err => ((spfPermerror, Some err), e)
              | inr terms => evalTerms (λ d e, check levels false d e) top domain terms "" e
              end
          | records => ((spfPermerror, Some ("SPF 레코드가 " +:+ pretty (len records) +:+ "개입니다")), e)
          end
      end
  end.
End spf.
