(* ===== verification/SpfProps.v ===== *)
(** * What the SPF evaluator computes

    A relational semantics of RFC 7208's check_host, without budget, depth or
    memory of earlier answers; the evaluator stays within the budget whatever is
    published, its depth limit never decides anything, and within the budget its
    result is the one of the semantics. *)

From S2P Require Import Prelude Enums Model Classify Codec Tokens Email BounceReport NetIP Spf.

Section semantics.
Context (L : dnsLib) (R : Resolver) (ip : option IP).

(** ** The semantics *)

(** The mechanisms that consult no other record; [None] is permerror. *)
Definition covers (d : string) (t : spfTerm) : option bool :=
  let name := sf_name t in
  if strEq name "all" then Some true
  else if strEq name "ip4" || strEq name "ip6" then
    match ip with
    | None => Some false
    | Some ip => match matchCIDR L (sf_value t) ip with inl _ => None | inr b => Some b end
    end
  else if strEq name "a" then
    match ip with
    | None => Some false
    | Some ip => match addrs R (target t d) ip with inl _ => Some false | inr ips => Some (containsIP ips ip (prefix t ip)) end
    end
  else if strEq name "mx" then
    match ip with
    | None => Some false
    | Some ip =>
        match rs_MX R (target t d) with
        | inl _ => Some false
        | inr mxs => Some (existsb (λ mx, match addrs R (mx_Host mx) ip with
                                          | inl _ => false
                                          | inr ips => containsIP ips ip (prefix t ip) end) (take 10 mxs))
        end
    end
  else if strEq name "exists" then Some (match rs_A R (sf_value t) with inl _ => false | inr _ => true end)
  else if strEq name "ptr" then Some false
  else None.

Definition isModifier (t : spfTerm) : bool :=
  strEq (sf_name t) "redirect" || strEq (sf_name t) "exp" || strEq (sf_name t) termIgnored.
Definition lastRedirect (ts : list spfTerm) (v : string) : string :=
  foldl (λ v t, if strEq (sf_name t) "redirect" then sf_value t else v) v ts.
Definition records (txts : list string) : list string := filter (λ t, isSPFRecord L t = true) txts.

(** [hostR d r]: the record of [d] gives [r]; [termsR d ts v r]: its remaining
    terms and the redirect [v] do; [mechR d t a]: the mechanism [t] matches or
    not, or ends the evaluation. *)
Inductive hostR : string → spfResult → Prop :=
  | H_none d : rs_TXT R d = inl ErrNoRecord → hostR d spfNone
  | H_temp d text : rs_TXT R d = inl (dnsFailed text) → hostR d spfTemperror
  | H_other d txts : rs_TXT R d = inr txts → records txts = [] → hostR d spfNone
  | H_many d txts : rs_TXT R d = inr txts → 1 < len (records txts) → hostR d spfPermerror
  | H_bad d txts record err : rs_TXT R d = inr txts → records txts = [record] → parseSPF L record = inl err → hostR d spfPermerror
  | H_terms d txts record ts r : rs_TXT R d = inr txts → records txts = [record] → parseSPF L record = inr ts →
      termsR d ts (lastRedirect ts "") r → hostR d r
with termsR : string → list spfTerm → string → spfResult → Prop :=
  | T_end d : termsR d [] "" spfNeutral
  | T_redirect d v r : v ≠ "" → hostR v r → r ≠ spfNone → termsR d [] v r
  | T_dangling d v : v ≠ "" → hostR v spfNone → termsR d [] v spfPermerror
  | T_modifier d t ts v r : isModifier t = true → termsR d ts v r → termsR d (t :: ts) v r
  | T_match d t ts v : isModifier t = false → mechR d t (inl true) → termsR d (t :: ts) v (qualifierResult (sf_qualifier t))
  | T_next d t ts v r : isModifier t = false → mechR d t (inl false) → termsR d ts v r → termsR d (t :: ts) v r
  | T_error d t ts v r : isModifier t = false → mechR d t (inr r) → termsR d (t :: ts) v r
with mechR : string → spfTerm → bool + spfResult → Prop :=
  | M_direct d t b : sf_name t ≠ "include" → covers d t = Some b → mechR d t (inl b)
  | M_bad d t : sf_name t ≠ "include" → covers d t = None → mechR d t (inr spfPermerror)
  | M_pass d t : sf_name t = "include" → hostR (sf_value t) spfPass → mechR d t (inl true)
  | M_other d t r : sf_name t = "include" → hostR (sf_value t) r → r ∈ [spfFail; spfSoftfail; spfNeutral] → mechR d t (inl false)
  | M_temp d t : sf_name t = "include" → hostR (sf_value t) spfTemperror → mechR d t (inr spfTemperror)
  | M_perm d t r : sf_name t = "include" → hostR (sf_value t) r → r ∈ [spfPermerror; spfNone] → mechR d t (inr spfPermerror).

(** ** The budget *)

Definition cap (n : Z) : Z := Z.min n MaxSPFLookups.

(** From [e] to [e'] with the answer [perm]anent error or not, asking for at
    most [n] names that no charged lookup paid for. *)
Definition spent (n : Z) (e e' : spfEval) (perm : Prop) : Prop :=
  sp_lookups e ≤ sp_lookups e' ≤ 11 ∧ (MaxSPFLookups < sp_lookups e' → perm) ∧
  Z.of_nat (size (sp_seen e')) ≤ Z.of_nat (size (sp_seen e)) + n + (cap (sp_lookups e') - cap (sp_lookups e)).

Definition inBudget (e : spfEval) : Prop := 0 ≤ sp_lookups e ≤ MaxSPFLookups.

(** A way to check another domain that keeps to the budget. *)
Definition recOk (rec : string → spfEval → (spfResult * option string) * spfEval) : Prop :=
  ∀ d e, inBudget e → let '((r, err), e') := rec d e in spent 1 e e' (r = spfPermerror).

Lemma charge_spec e : inBudget e →
  let '(ok, e') := charge e in
  sp_lookups e' = sp_lookups e + 1 ∧ sp_seen e' = sp_seen e ∧ (ok = true ↔ inBudget e').
Proof.
  unfold inBudget, charge, MaxSPFLookups. intros He. cbn. rewrite int64_small by (unfold in_int64, minInt64, maxInt64; lia).
  split_and!; [done|done|]. split; intros; to_prop; lia.
Qed.

(** A charged mechanism keeps to the budget if the rest does. *)
Lemma charged_spent e k :
  inBudget e →
  (∀ e1, sp_lookups e1 = sp_lookups e + 1 → sp_seen e1 = sp_seen e → inBudget e1 →
     let '((m, r, err), e') := k e1 in spent 1 e1 e' (m = false ∧ r = Some spfPermerror ∧ is_Some err)) →
  let '((m, r, err), e') := charged e k in spent 0 e e' (m = false ∧ r = Some spfPermerror ∧ is_Some err).
Proof.
  intros He Hk. unfold charged. pose proof (charge_spec e He) as Hc. destruct (charge e) as [ok e1]. destruct Hc as (Hl&Hs&Hok).
  destruct ok.
  - specialize (Hk e1 Hl Hs ltac:(by apply Hok)). destruct (k e1) as [[[m r] err] e'].
    unfold spent, inBudget, cap, MaxSPFLookups in *. rewrite Hs in Hk. destruct Hk as (?&?&?).
    assert (0 ≤ sp_lookups e1 ≤ 10) by by apply Hok. split_and!; [lia|lia|done|lia].
  - assert (¬ inBudget e1) by (rewrite <- Hok; done). unfold spent, inBudget, cap, MaxSPFLookups in *. rewrite Hs.
    split_and!; [lia|lia|by eauto|lia].
Qed.

Lemma spent_refl n e (P : Prop) : 0 ≤ n → inBudget e → spent n e e P.
Proof. unfold spent, inBudget, MaxSPFLookups. intros. split_and!; lia. Qed.

Lemma matchTerm_spent rec t d e :
  recOk rec → inBudget e →
  let '((m, r, err), e') := matchTerm L R ip rec t d e in spent 0 e e' (m = false ∧ r = Some spfPermerror ∧ is_Some err).
Proof.
  intros Hrec He. assert (H0 : ∀ P, spent 0 e e P) by (intros; by apply spent_refl).
  unfold matchTerm. destruct (strEq _ "all"); [done|]. destruct (_ || _); [repeat case_match; simplify_eq; done|].
  repeat (match goal with |- let '(_, _) := (if ?b then _ else _) in _ => destruct b end);
    try (apply charged_spent; [done|]; intros e1 Hl Hs Hb; cbn;
         assert (H1 : ∀ P, spent 1 e1 e1 P) by (intros; by apply spent_refl)); try done.
  - repeat case_match; simplify_eq; done.
  - repeat case_match; simplify_eq; done.
  - specialize (Hrec (sf_value t) e1 Hb). destruct (rec (sf_value t) e1) as [[r err] e']. destruct Hrec as (?&Hp&?).
    destruct r; split_and!; try lia; intros Hlt; specialize (Hp Hlt); try done.
  - repeat case_match; simplify_eq; done.
Qed.

(** Only the counters matter. *)
Lemma spent_same n e1 e2 e' P :
  sp_lookups e1 = sp_lookups e2 → sp_seen e1 = sp_seen e2 → spent n e1 e' P → spent n e2 e' P.
Proof. unfold spent. by intros -> ->. Qed.
Lemma spent_end n e e1 e2 P : sp_lookups e1 = sp_lookups e2 → sp_seen e1 = sp_seen e2 → spent n e e1 P → spent n e e2 P.
Proof. unfold spent. by intros -> ->. Qed.

Lemma spent_step n e e1 e2 (P Q : Prop) :
  spent 0 e e1 P → (inBudget e → inBudget e1 → spent n e1 e2 Q) → 0 ≤ n → inBudget e → inBudget e1 → spent n e e2 Q.
Proof.
  unfold spent, inBudget, cap, MaxSPFLookups. intros (?&_&?) H2 ? He He1. destruct (H2 He He1) as (?&?&?). split_and!; try lia. done.
Qed.

Lemma evalTerms_spent rec top d ts v e :
  recOk rec → inBudget e →
  let out := evalTerms L R ip rec top d ts v e in spent 0 e out.2 (out.1.1 = spfPermerror).
Proof.
  intros Hrec. revert v e. induction ts as [|t ts IH]; intros v e He; cbv zeta; cbn [evalTerms].
  - destruct (strEq v ""); [by apply spent_refl|].
    set (e0 := if top then e <| sp_hasAll := true |> else e).
    assert (H0 : sp_lookups e0 = sp_lookups e ∧ sp_seen e0 = sp_seen e) by (unfold e0; by destruct top).
    clearbody e0. destruct H0 as [Hl0 Hs0]. assert (He0 : inBudget e0) by (unfold inBudget; by rewrite Hl0).
    pose proof (charge_spec e0 He0) as Hc. destruct (charge e0) as [ok e1]. destruct Hc as (Hl&Hs&Hok).
    apply (spent_same _ e0); [done..|]. destruct ok; cbn [negb].
    + specialize (Hrec v e1 ltac:(by apply Hok)). destruct (rec v e1) as [[r err] e2].
      assert (Hb1 : inBudget e1) by by apply Hok.
      assert (Hsp : spent 0 e0 e2 (r = spfPermerror)).
      { unfold spent, inBudget, cap, MaxSPFLookups in *. rewrite Hs, Hl in *. destruct Hrec as (?&?&?). split_and!; [lia|lia|done|lia]. }
      case_bool_decide; [subst; destruct Hsp as (?&Hp&?); cbn; split_and!; [lia|lia|done|lia]|].
      apply (spent_end _ _ e2); [by destruct (strEq _ "")..|done].
    + assert (¬ inBudget e1) by (rewrite <- Hok; done). cbn [fst snd]. unfold spent, inBudget, cap, MaxSPFLookups in *. rewrite Hs, Hl.
      split_and!; [lia|lia|done|lia].
  - destruct (strEq _ "redirect"); [by apply IH|]. destruct (_ || _); [by apply IH|].
    set (e0 := if top && _ then e <| sp_hasAll := true |> else e).
    assert (H0 : sp_lookups e0 = sp_lookups e ∧ sp_seen e0 = sp_seen e) by (unfold e0; by destruct (top && _)).
    clearbody e0. destruct H0 as [Hl0 Hs0]. assert (He0 : inBudget e0) by (unfold inBudget; by rewrite Hl0).
    apply (spent_same _ e0); [done..|]. pose proof (matchTerm_spent rec t d e0 Hrec He0) as Hm.
    destruct (matchTerm L R ip rec t d e0) as [[[m r] err] e1]. destruct err as [err|].
    { destruct Hm as (?&Hp&?). cbn [fst snd]. split; [done|]. split; [|done]. intros Hlt. by destruct (Hp Hlt) as (_&->&_). }
    assert (Hb1 : inBudget e1).
    { destruct Hm as (?&Hp&?). unfold inBudget, MaxSPFLookups in *. split; [lia|]. destruct (decide (10 < sp_lookups e1)); [|lia].
      by destruct (Hp ltac:(lia)) as (_&_&[]). }
    assert (H1 : ∀ P, spent 0 e0 e1 P).
    { intros P. destruct Hm as (?&Hp&?). split; [done|]. split; [|done]. intros. unfold inBudget in *. lia. }
    destruct m; [|destruct r; [by apply H1|]].
    + apply (spent_end _ _ e1); [by destruct (top || _)..|apply H1].
    + specialize (IH v e1 Hb1). cbv zeta in IH. by apply (spent_step 0 e0 e1 _ True _ (H1 True)).
Qed.

Lemma check_spent levels top d e :
  inBudget e → let '((r, err), e') := check L R ip levels top d e in spent 1 e e' (r = spfPermerror).
Proof.
  revert top d e. induction levels as [|levels IH]; intros top d e He; cbn [check]; [by apply spent_refl|].
  destruct (txt L R d e) as [txts e1] eqn:Et.
  assert (Hsz : sp_lookups e1 = sp_lookups e ∧ (size (sp_seen e1) ≤ S (size (sp_seen e)))%nat).
  { unfold txt in Et. destruct (sp_seen e !! _) eqn:Hlk; simplify_eq; [split; [done|lia]|]. cbn. split; [done|].
    rewrite map_size_insert_None by done. lia. }
  destruct Hsz as [Hl Hsz].
  assert (H1 : ∀ P e2, sp_lookups e2 = sp_lookups e1 → sp_seen e2 = sp_seen e1 → spent 1 e e2 P).
  { intros P e2 El Es. unfold spent, inBudget, cap, MaxSPFLookups in *. rewrite El, Es. split_and!; lia. }
  destruct txts as [[|text]|txts]; [by apply H1..|]. destruct (filter _ txts) as [|record [|]]; [by apply H1| |by apply H1].
  set (e2 := if top then e1 <| sp_record := record |> else e1).
  assert (H2 : sp_lookups e2 = sp_lookups e1 ∧ sp_seen e2 = sp_seen e1) by (unfold e2; by destruct top).
  clearbody e2. destruct H2 as [El2 Es2]. destruct (parseSPF L record) as [err|ts]; [by apply H1|].
  assert (Hb2 : inBudget e2) by (unfold inBudget; by rewrite El2, Hl).
  pose proof (evalTerms_spent (λ d e, check L R ip levels false d e) top d ts "" e2 (λ d e He, IH false d e He) Hb2) as He2.
  cbv zeta in He2. destruct (evalTerms _ _ _ _ _ _ _ _ _) as [[r err] e3]. cbn [fst snd] in He2. unfold spent in *. rewrite El2, Es2, Hl in He2.
  destruct He2 as (?&?&?). split_and!; try done; lia.
Qed.

(** ** The depth limit *)

Lemma matchTerm_ext rec rec' t d e :
  inBudget e → (∀ d e1, sp_lookups e < sp_lookups e1 ≤ MaxSPFLookups → rec d e1 = rec' d e1) →
  matchTerm L R ip rec t d e = matchTerm L R ip rec' t d e.
Proof.
  intros He Hext. unfold matchTerm. repeat case_match; try done. unfold charged. pose proof (charge_spec e He) as Hc.
  destruct (charge e) as [ok e1]. destruct Hc as (Hl&_&Hok). destruct ok; [|done].
  rewrite Hext; [done|]. assert (inBudget e1) as [_ ?] by by apply Hok. lia.
Qed.

Lemma evalTerms_ext rec rec' top d ts v e :
  recOk rec → inBudget e → (∀ d e1, sp_lookups e < sp_lookups e1 ≤ MaxSPFLookups → rec d e1 = rec' d e1) →
  evalTerms L R ip rec top d ts v e = evalTerms L R ip rec' top d ts v e.
Proof.
  intros Hrec. revert v e. induction ts as [|t ts IH]; intros v e He Hext; cbn [evalTerms].
  - destruct (strEq v ""); [done|].
    set (e0 := if top then e <| sp_hasAll := true |> else e).
    assert (Hl0 : sp_lookups e0 = sp_lookups e) by (unfold e0; by destruct top). clearbody e0.
    pose proof (charge_spec e0 ltac:(unfold inBudget; by rewrite Hl0)) as Hc. destruct (charge e0) as [ok e1].
    destruct Hc as (Hl&_&Hok). destruct ok; [|done]. cbn [negb]. rewrite Hext; [done|].
    assert (inBudget e1) as [_ ?] by by apply Hok. lia.
  - destruct (strEq _ "redirect"); [by apply IH|]. destruct (_ || _); [by apply IH|].
    set (e0 := if top && _ then e <| sp_hasAll := true |> else e).
    assert (Hl0 : sp_lookups e0 = sp_lookups e) by (unfold e0; by destruct (top && _)). clearbody e0.
    assert (He0 : inBudget e0) by (unfold inBudget; by rewrite Hl0).
    rewrite <- (matchTerm_ext rec rec') by (done || by rewrite Hl0).
    pose proof (matchTerm_spent rec t d e0 Hrec He0) as Hm. destruct (matchTerm L R ip rec t d e0) as [[[m r] err] e1].
    destruct err as [err|]; [done|]. destruct m; [done|]. destruct r; [done|]. apply IH.
    + destruct Hm as (?&Hp&?). unfold inBudget, MaxSPFLookups in *. split; [lia|]. destruct (decide (10 < sp_lookups e1)); [|lia].
      by destruct (Hp ltac:(lia)) as (_&_&[]).
    + intros d' e2 He2. apply Hext. destruct Hm as (?&_&_). lia.
Qed.

(** Levels beyond the lookups that are left make no difference. *)
Lemma check_levels n n' top d e :
  inBudget e → MaxSPFLookups - sp_lookups e < Z.of_nat n → MaxSPFLookups - sp_lookups e < Z.of_nat n' →
  check L R ip n top d e = check L R ip n' top d e.
Proof.
  revert n' top d e. induction n as [|n IH]; intros n' top d e He Hn Hn'; [unfold inBudget in *; lia|].
  destruct n' as [|n']; [unfold inBudget in *; lia|]. cbn [check]. destruct (txt L R d e) as [txts e1] eqn:Et.
  assert (Hl : sp_lookups e1 = sp_lookups e) by (unfold txt in Et; by destruct (sp_seen e !! _); simplify_eq).
  destruct txts as [[|text]|txts]; [done..|]. destruct (filter _ txts) as [|record [|]]; [done| |done].
  destruct (parseSPF L record) as [err|ts]; [done|]. apply evalTerms_ext.
  - intros d' e' He'. by apply check_spent.
  - unfold inBudget. by destruct top; cbn; rewrite Hl.
  - intros d' e' He'. assert (sp_lookups e < sp_lookups e' ≤ MaxSPFLookups) by (by destruct top; cbn in He'; rewrite Hl in He').
    apply IH; unfold inBudget in *; lia.
Qed.

(** ** Within the budget *)

Section refinement.
(** Names are looked up whatever their case. *)
Hypothesis Hcase : ∀ a b, dl_ToLower L a = dl_ToLower L b → rs_TXT R a = rs_TXT R b.

(** The answers that were kept are the resolver's. *)
Definition seenOk (e : spfEval) : Prop :=
  ∀ name got, sp_seen e !! dl_ToLower L name = Some got → rs_TXT R name = got.

(** [rec] is right once more than [lb] lookups were charged. *)
Definition recSound (lb : Z) (rec : string → spfEval → (spfResult * option string) * spfEval) : Prop :=
  ∀ d e, lb < sp_lookups e → inBudget e → seenOk e → seenOk (rec d e).2 ∧ (sp_lookups (rec d e).2 ≤ MaxSPFLookups → hostR d (rec d e).1.1).

Lemma txt_sound d e : seenOk e → (txt L R d e).1 = rs_TXT R d ∧ seenOk (txt L R d e).2.
Proof using Hcase.
  intros He. unfold txt. destruct (sp_seen e !! dl_ToLower L d) as [got|] eqn:Hg; cbn; [by rewrite (He _ _ Hg)|].
  split; [done|]. intros name got. cbn. destruct (decide (dl_ToLower L d = dl_ToLower L name)) as [E|E].
  - rewrite E, lookup_insert_eq. intros [= <-]. by apply Hcase.
  - rewrite lookup_insert_ne by done. apply He.
Qed.

(** What an answer of [match] says. *)
Definition mechOf (d : string) (t : spfTerm) (a : bool * option spfResult * option string) : Prop :=
  match a with
  | (true, _, None) => mechR d t (inl true)
  | (false, None, None) => mechR d t (inl false)
  | (false, Some r, _) => mechR d t (inr r)
  | _ => False
  end.

Lemma charged_sound d t e k :
  inBudget e → seenOk e →
  (∀ e1, sp_lookups e < sp_lookups e1 → inBudget e1 → seenOk e1 → seenOk (k e1).2 ∧ (sp_lookups (k e1).2 ≤ MaxSPFLookups → mechOf d t (k e1).1)) →
  seenOk (charged e k).2 ∧ (sp_lookups (charged e k).2 ≤ MaxSPFLookups → mechOf d t (charged e k).1).
Proof.
  intros He Hs Hk. unfold charged. pose proof (charge_spec e He) as Hc. destruct (charge e) as [ok e1]. destruct Hc as (Hl&Hse&Hok).
  assert (Hs1 : seenOk e1) by (unfold seenOk; by rewrite Hse). destruct ok; [apply Hk; [lia|by apply Hok|done]|].
  split; [done|]. cbn. intros Hle. assert (¬ inBudget e1) as Hnot by (rewrite <- Hok; done). destruct Hnot. unfold inBudget in *. lia.
Qed.

Lemma matchTerm_sound lb rec t d e :
  recSound lb rec → lb ≤ sp_lookups e → inBudget e → seenOk e →
  let out := matchTerm L R ip rec t d e in
  seenOk out.2 ∧ (sp_lookups out.2 ≤ MaxSPFLookups → mechOf d t out.1).
Proof.
  intros Hrec Hlb He Hs. cbv zeta.
  assert (Hd : sf_name t ≠ "include" → ∀ b, covers d t = Some b → mechOf d t (b, None, None)).
  { intros Hn b Hb. destruct b; by apply M_direct. }
  assert (Hx : sf_name t ≠ "include" → covers d t = None → ∀ err, mechOf d t (false, Some spfPermerror, err)).
  { intros Hn Hb err. by apply M_bad. }
  unfold matchTerm. unfold covers in Hd, Hx. unfold strEq in *.
  destruct (decide (sf_name t = "include")) as [Hi|Hi].
  { rewrite Hi. cbn [bool_decide]. rewrite !(bool_decide_eq_false_2 ("include" = _)) by done.
    rewrite (bool_decide_eq_true_2 ("include" = "include")) by done. cbn [orb].
    apply charged_sound; [done..|]. intros e1 Hlt He1 Hs1. destruct (Hrec (sf_value t) e1 ltac:(lia) He1 Hs1) as [H1 H2].
    destruct (rec (sf_value t) e1) as [[r err] e2]. cbn [fst snd] in *.
    destruct r; (split; [done|]); intros Hle; specialize (H2 Hle); cbn.
    - by apply M_pass.
    - eapply M_other; [done..|set_solver].
    - eapply M_other; [done..|set_solver].
    - eapply M_other; [done..|set_solver].
    - eapply M_perm; [done..|set_solver].
    - eapply M_perm; [done..|set_solver].
    - by apply M_temp. }
  rewrite (bool_decide_eq_false_2 (sf_name t = "include")) by done. specialize (Hd Hi). specialize (Hx Hi).
  repeat (match goal with |- context [if bool_decide ?P then _ else _] => destruct (bool_decide P) end
          || match goal with |- context [if bool_decide ?P || bool_decide ?Q then _ else _] => destruct (bool_decide P || bool_decide Q) end);
    try (apply charged_sound; [done..|]; intros e1 Hlt He1 Hs1); try (split; [done|]; intros _; first [by apply Hd|by apply Hx]).
  all: repeat case_match; (split; [done|]); intros _; first [by apply Hd|by apply Hx].
Qed.

Lemma evalTerms_sound lb rec top d ts v e :
  recOk rec → recSound lb rec → lb ≤ sp_lookups e → inBudget e → seenOk e →
  let out := evalTerms L R ip rec top d ts v e in
  seenOk out.2 ∧ (sp_lookups out.2 ≤ MaxSPFLookups → termsR d ts (lastRedirect ts v) out.1.1).
Proof.
  intros Hok Hrec. revert v e. induction ts as [|t ts IH]; intros v e Hlb He Hs; cbv zeta; cbn [evalTerms].
  - cbn [lastRedirect foldl]. destruct (strEq v "") eqn:Ev; apply bool_decide_eq_true_1 in Ev || apply bool_decide_eq_false_1 in Ev.
    { subst. split; [done|]. intros _. constructor. }
    set (e0 := if top then e <| sp_hasAll := true |> else e).
    assert (H0 : sp_lookups e0 = sp_lookups e ∧ sp_seen e0 = sp_seen e) by (unfold e0; by destruct top).
    clearbody e0. destruct H0 as [Hl0 Hs0]. assert (He0 : inBudget e0) by (unfold inBudget; by rewrite Hl0).
    pose proof (charge_spec e0 He0) as Hc. destruct (charge e0) as [ok e1]. destruct Hc as (Hl&Hse&Hcok).
    assert (Hs1 : seenOk e1) by (unfold seenOk; by rewrite Hse, Hs0). destruct ok; cbn [negb].
    + destruct (Hrec v e1 ltac:(lia) ltac:(by apply Hcok) Hs1) as [H1 H2]. destruct (rec v e1) as [[r err] e2]. cbn [fst snd] in *.
      case_bool_decide; cbn [fst snd].
      * subst. split; [done|]. intros Hle. by apply T_dangling; auto.
      * destruct (strEq (sp_matched e2) ""); (split; [done|]); intros Hle; (apply T_redirect; [done|by apply H2|done]).
    + cbn [fst snd]. split; [done|]. intros Hle. assert (¬ inBudget e1) as Hnot by (rewrite <- Hcok; done). destruct Hnot.
      unfold inBudget in *. lia.
  - unfold lastRedirect. cbn [foldl]. fold (lastRedirect ts v). fold (lastRedirect ts (sf_value t)).
    destruct (strEq (sf_name t) "redirect") eqn:Er.
    { destruct (IH (sf_value t) e Hlb He Hs) as [H1 H2]. split; [done|]. intros Hle. apply T_modifier; [|by apply H2].
      unfold isModifier. by rewrite Er. }
    destruct (strEq (sf_name t) "exp" || strEq (sf_name t) termIgnored) eqn:Em.
    { destruct (IH v e Hlb He Hs) as [H1 H2]. split; [done|]. intros Hle. apply T_modifier; [|by apply H2].
      unfold isModifier. by rewrite Er, <- orb_assoc. }
    assert (Hmod : isModifier t = false) by (unfold isModifier; by rewrite Er, <- orb_assoc).
    set (e0 := if top && _ then e <| sp_hasAll := true |> else e).
    assert (H0 : sp_lookups e0 = sp_lookups e ∧ sp_seen e0 = sp_seen e) by (unfold e0; by destruct (top && _)).
    clearbody e0. destruct H0 as [Hl0 Hs0]. assert (He0 : inBudget e0) by (unfold inBudget; by rewrite Hl0).
    assert (Hse0 : seenOk e0) by (unfold seenOk; by rewrite Hs0).
    pose proof (matchTerm_spent rec t d e0 Hok He0) as Hsp. pose proof (matchTerm_sound lb rec t d e0 Hrec ltac:(lia) He0 Hse0) as Hm. cbv zeta in Hm.
    destruct (matchTerm L R ip rec t d e0) as [[[m r] err] e1]. cbn [fst snd] in Hm. destruct Hm as [Hs1 Hm].
    destruct err as [err|]; cbn [fst snd].
    { split; [done|]. intros Hle. specialize (Hm Hle). destruct m; [done|]. destruct r as [r|]; [|done]. by apply T_error. }
    assert (Hb1 : inBudget e1).
    { destruct Hsp as (?&Hp&?). unfold inBudget, MaxSPFLookups in *. split; [lia|]. destruct (decide (10 < sp_lookups e1)); [|lia].
      by destruct (Hp ltac:(lia)) as (_&_&[]). }
    specialize (Hm ltac:(by destruct Hb1)). destruct m; [|destruct r as [r|]].
    + destruct (top || _); (split; [done|]); intros _; by apply T_match.
    + split; [done|]. intros _. by apply T_error.
    + destruct (IH v e1 ltac:(destruct Hsp; lia) Hb1 Hs1) as [H1 H2]. split; [done|]. intros Hle. apply T_next; [done..|by apply H2].
Qed.

Lemma check_sound levels : ∀ top d e,
  inBudget e → seenOk e → MaxSPFLookups - sp_lookups e < Z.of_nat levels →
  let out := check L R ip levels top d e in
  seenOk out.2 ∧ (sp_lookups out.2 ≤ MaxSPFLookups → hostR d out.1.1).
Proof using Hcase.
  induction levels as [|levels IH]; intros top d e He Hs Hlv; cbv zeta; [unfold inBudget in *; lia|]. cbn [check].
  destruct (txt_sound d e Hs) as [Ht Hs1]. assert (Hl : sp_lookups (txt L R d e).2 = sp_lookups e) by (unfold txt; by case_match).
  destruct (txt L R d e) as [txts e1]. cbn [fst snd] in *. subst txts.
  destruct (rs_TXT R d) as [[|text]|txts] eqn:Et; cbn [fst snd].
  { split; [done|]. intros _. by apply H_none. }
  { split; [done|]. intros _. by eapply H_temp. }
  destruct (filter (λ t, isSPFRecord L t = true) txts) as [|record [|r2 rs]] eqn:Ef; cbn [fst snd].
  { split; [done|]. intros _. by eapply H_other. }
  2:{ split; [done|]. intros _. eapply H_many; [done|]. unfold records. rewrite Ef. unfold len. cbn. lia. }
  set (e2 := if top then e1 <| sp_record := record |> else e1).
  assert (H2 : sp_lookups e2 = sp_lookups e1 ∧ sp_seen e2 = sp_seen e1) by (unfold e2; by destruct top).
  clearbody e2. destruct H2 as [El2 Es2]. assert (Hs2 : seenOk e2) by (unfold seenOk; by rewrite Es2).
  assert (Hb2 : inBudget e2) by (unfold inBudget; by rewrite El2, Hl).
  destruct (parseSPF L record) as [err|ts] eqn:Ep; cbn [fst snd].
  { split; [done|]. intros _. by eapply H_bad. }
  destruct (evalTerms_sound (sp_lookups e) (λ d e, check L R ip levels false d e) top d ts "" e2) as [H1 H2]; [| |lia|done|done|].
  { intros d' e' He'. by apply check_spent. }
  { intros d' e' Hlt He' Hs'. apply IH; [done|done|lia]. }
  split; [done|]. intros Hle. eapply H_terms; [done..|]. by apply H2.
Qed.
End refinement.

(** ** Determinism *)

Scheme hostR_mut := Induction for hostR Sort Prop
  with termsR_mut := Induction for termsR Sort Prop
  with mechR_mut := Induction for mechR Sort Prop.
Combined Scheme spfR_ind from hostR_mut, termsR_mut, mechR_mut.

(** The same lookups were answered the same way. *)
Ltac same_answer :=
  simplify_eq; repeat match goal with
  | E : ?x = inr ?a, E' : ?x = inr ?b |- _ => assert (a = b) by congruence; clear E'; subst
  | E : records ?x = ?a, E' : records ?x = ?b |- _ => rewrite E in E'; simplify_eq
  | E : records ?x = ?a, E' : context [records ?x] |- _ => rewrite E in E'
  end.

Lemma spfR_det :
  (∀ d r, hostR d r → ∀ r', hostR d r' → r = r') ∧
  (∀ d ts v r, termsR d ts v r → ∀ r', termsR d ts v r' → r = r') ∧
  (∀ d t a, mechR d t a → ∀ a', mechR d t a' → a = a').
Proof.
  apply spfR_ind.
  - intros d E r' H. inversion H; congruence.
  - intros d text E r' H. inversion H; congruence.
  - intros d txts E Er r' H. inversion H; same_answer; try congruence. unfold len in *. cbn in *. lia.
  - intros d txts E Er r' H. inversion H; same_answer; try congruence; unfold len in *; cbn in *; lia.
  - intros d txts record err E Er Ep r' H. inversion H; same_answer; congruence.
  - intros d txts record ts r E Er Ep Ht IH r' H. inversion H; same_answer; try congruence.
    + unfold len in *. cbn in *. lia.
    + auto.
  - intros d r' H. inversion H; congruence.
  - intros d v r Hv Hh IH Hr r' H. inversion H; simplify_eq; [auto|]. exfalso. auto.
  - intros d v Hv Hh IH r' H. inversion H; simplify_eq; [|done]. exfalso. match goal with X : hostR v ?r, Y : ?r ≠ spfNone |- _ => apply Y; symmetry; auto end.
  - intros d t ts v r Hm Ht IH r' H. inversion H; simplify_eq; try congruence. auto.
  - intros d t ts v Hm Hme IH r' H. inversion H; simplify_eq; try congruence.
    + by match goal with X : mechR d t _ |- _ => apply IH in X end.
    + by match goal with X : mechR d t _ |- _ => apply IH in X end.
  - intros d t ts v r Hm Hme IH1 Ht IH2 r' H. inversion H; simplify_eq; try congruence.
    + by match goal with X : mechR d t (inl true) |- _ => apply IH1 in X end.
    + auto.
    + by match goal with X : mechR d t (inr _) |- _ => apply IH1 in X end.
  - intros d t ts v r Hm Hme IH r' H. inversion H; simplify_eq; try congruence.
    + by match goal with X : mechR d t _ |- _ => apply IH in X end.
    + by match goal with X : mechR d t _ |- _ => apply IH in X end.
    + match goal with X : mechR d t (inr r') |- _ => apply IH in X end. congruence.
  - intros d t b Hn Hc a' H. inversion H; simplify_eq; congruence.
  - intros d t Hn Hc a' H. inversion H; simplify_eq; congruence.
  - intros d t Hn Hh IH a' H. inversion H; simplify_eq; try congruence; try done;
      match goal with X : hostR (sf_value t) ?r |- _ => apply IH in X; subst; set_solver end.
  - intros d t r Hn Hh IH Hr a' H. inversion H; simplify_eq; try congruence; try done;
      match goal with X : hostR (sf_value t) ?r |- _ => apply IH in X; subst; set_solver end.
  - intros d t Hn Hh IH a' H. inversion H; simplify_eq; try congruence; try done;
      match goal with X : hostR (sf_value t) ?r |- _ => apply IH in X; subst; set_solver end.
  - intros d t r Hn Hh IH Hr a' H. inversion H; simplify_eq; try congruence; try done;
      match goal with X : hostR (sf_value t) ?r |- _ => apply IH in X; subst; set_solver end.
Qed.
End semantics.
