(* ===== verification/DnsCheck.v ===== *)
(** * The DNS layer of the health check ([internal/dnscheck])

    The checks of a sending domain: SPF, DKIM, DMARC, MX and PTR, and the report
    they make up.  The resolver and the key parsers of [crypto] are
    arguments. *)

From S2P Require Import Prelude Enums Model Classify Codec Tokens Email BounceReport NetIP Spf.

(** ** Results *)

(** [Result] *)
Record DNSResult := mkDNSResult {
  dn_Check : string; dn_Status : HealthStatus; dn_Summary : string; dn_Details : gmap string string;
}.
(** [Report]: its checks are SPF, DKIM, DMARC, MX and PTR. *)
Record DNSReport := mkDNSReport {
  rp_Status : HealthStatus; rp_CheckedAt : Time;
  rp_SPF : option DNSResult; rp_DKIM : option DNSResult; rp_DMARC : option DNSResult; rp_MX : option DNSResult; rp_PTR : option DNSResult;
}.
Definition rp_Checks (r : DNSReport) : list (option DNSResult) := [rp_SPF r; rp_DKIM r; rp_DMARC r; rp_MX r; rp_PTR r].

(** [Inputs]; an address is its text. *)
Record DNSInputs := mkDNSInputs {
  di_Domain : string; di_ObservedIP : option string; di_DKIMSelector : string; di_ReturnPathDomain : string; di_DKIMKey : string;
}.

(** The order of [HealthStatus] *)
Definition healthRank (h : HealthStatus) : Z :=
  match h with HealthUnknown => 0 | HealthGreen => 1 | HealthYellow => 2 | HealthRed => 3 end.

(** [result] *)
Definition dnsResult (check : string) (status : HealthStatus) (summary : string) (details : gmap string string) : DNSResult :=
  mkDNSResult check status summary (filter (λ kv, kv.2 ≠ "") details).

(** [Report.worst] *)
Definition reportWorst (l : list (option DNSResult)) : HealthStatus :=
  foldl (λ out res, match res with
                    | Some r => if healthRank out <? healthRank (dn_Status r) then dn_Status r else out
                    | None => out end) HealthUnknown l.

(** ** Tags *)

Definition semicolon : Ascii.ascii := toByte 59.
Definition blanks : list Ascii.ascii := [toByte 32; toByte 9; toByte 13; toByte 10].

(** [parseTagValue]; the first of two equal tags counts. *)
Definition addTag (out : gmap string string) (part : string) : gmap string string :=
  let part := TrimSpace part in
  match cutByte equalsByte part with
  | None => out
  | Some (k, v) =>
      let k := TrimSpace k in
      if strEq k "" then out
      else match out !! k with Some _ => out | None => <[k := TrimSpace v]> out end
  end.
Definition parseTagValue (s : string) : gmap string string := foldl addTag ∅ (splitByte semicolon s).
Definition tag (tags : gmap string string) (k : string) : string := default "" (tags !! k).

(** [stripWhitespace] and [shorten] *)
Fixpoint stripWhitespace (s : string) : string :=
  match s with
  | EmptyString => ""
  | String c s' => if contains blanks c then stripWhitespace s' else String c (stripWhitespace s')
  end.
Definition shorten (s : string) : string :=
  if strLen s <=? 24 then s else strTake 12 s +:+ "…" +:+ strDrop (String.length s - 8) s.

(** ** Keys *)

Inductive pkcs8Key := RSAKey (k : string) | Ed25519Key (pub : string) | OtherKey (typ : string).
Inductive pkixKey := PKIXRSA (bits : Z) | PKIXOther (typ : string).

(** [encoding/base64], [encoding/pem] and [crypto/x509]; errors are their text,
    a key is opaque. *)
Record keyLib := mkKeyLib {
  kl_Decode : string → string + string;
  kl_Encode : string → string;
  kl_PEM : string → option (string * string);
  kl_PKCS1Private : string → string + string;
  kl_PKCS8Private : string → string + pkcs8Key;
  kl_MarshalPKIX : string → string + string;
  kl_PKIXPublic : string → string + pkixKey;
  kl_PKCS1Public : string → string + Z;
}.

Section keys.
Context (K : keyLib).

Definition marshalPublic (k : string) : string + string :=
  match kl_MarshalPKIX K k with inl e => inl e | inr der => inr (kl_Encode K der) end.

(** [expectedPublicKey] *)
Definition expectedPublicKey (quote : string → string) (key : string) : string + string :=
  match kl_PEM K key with
  | Some (typ, bytes) =>
      if strEq typ "RSA PRIVATE KEY" then
        match kl_PKCS1Private K bytes with inl e => inl e | inr k => marshalPublic k end
      else if strEq typ "PRIVATE KEY" then
        match kl_PKCS8Private K bytes with
        | inl e => inl e
        | inr (RSAKey k) => marshalPublic k
        | inr (Ed25519Key pub) => inr (kl_Encode K pub)
        | inr (OtherKey t) => inl ("지원하지 않는 키 타입 " +:+ t)
        end
      else if strEq typ "PUBLIC KEY" || strEq typ "RSA PUBLIC KEY" then inr (kl_Encode K bytes)
      else inl ("PEM 블록 " +:+ quote typ +:+ "는 키가 아닙니다")
  | None =>
      let s := stripWhitespace key in
      match kl_Decode K s with inl _ => inl "PEM도 base64 공개키도 아닙니다" | inr _ => inr s end
  end.

(** [dkimKeyBits] *)
Definition dkimKeyBits (alg pub : string) : string + Z :=
  if strEq alg "ed25519" then
    if negb (strLen pub =? 32) then inl ("ed25519 키 길이가 " +:+ pretty (strLen pub) +:+ "바이트입니다") else inr 0
  else if strEq alg "rsa" then
    match kl_PKIXPublic K pub with
    | inl err => match kl_PKCS1Public K pub with inl _ => inl err | inr bits => inr bits end
    | inr (PKIXRSA bits) => inr bits
    | inr (PKIXOther t) => inl ("k=rsa인데 " +:+ t +:+ "가 게시되어 있습니다")
    end
  else inl ("지원하지 않는 k=" +:+ alg).
End keys.

(** ** The checks *)

Section checks.
Context (L : dnsLib) (K : keyLib) (R : Resolver).
(** [dns.ReverseAddr], and the address a text denotes *)
Context (reverseAddr : string → string + string) (ipOf : string → IP).
Abbreviation lower := (dl_ToLower L).
Abbreviation fold := (dl_EqualFold L).

(** [Checker.SPF] *)
Definition SPF (domain : string) (observed : option string) : DNSResult :=
  let ip := ipOf <$> observed in
  let ipText := default "" observed in
  let '((res, err), e) := check L R ip (S maxSPFDepth) true domain newSpfEval in
  let details : gmap string string :=
    {["domain" := domain; "ip" := ipText; "lookups" := pretty (sp_lookups e); "result" := spfText res;
      "record" := sp_record e; "matched" := sp_matched e; "error" := default "" err]} in
  let say st summary := dnsResult "spf" st summary details in
  match res with
  | spfNone => say HealthRed "SPF 레코드가 없습니다"
  | spfPermerror =>
      if MaxSPFLookups <? sp_lookups e
      then say HealthRed ("SPF DNS 조회가 " +:+ pretty (sp_lookups e) +:+ "회로 한도(" +:+ pretty MaxSPFLookups +:+ ")를 넘었습니다")
      else say HealthRed "SPF 레코드를 해석할 수 없습니다(permerror)"
  | spfTemperror => say HealthYellow "SPF 조회가 일시적으로 실패했습니다(temperror)"
  | _ =>
      match observed with
      | None =>
          if negb (sp_hasAll e) then say HealthYellow "SPF 레코드에 all 메커니즘이 없습니다"
          else say HealthGreen ("SPF 레코드 정상(조회 " +:+ pretty (sp_lookups e) +:+ "/" +:+ pretty MaxSPFLookups +:+
                                "). 관측된 발신 IP가 없어 인가 여부는 확인하지 않았습니다")
      | Some ipText =>
          match res with
          | spfPass => say HealthGreen (ipText +:+ "는 SPF에 인가되어 있습니다(" +:+ sp_matched e +:+ ")")
          | spfSoftfail => say HealthYellow (ipText +:+ "가 SPF에 없어 softfail(~all)입니다")
          | spfNeutral => say HealthYellow (ipText +:+ "에 대한 SPF 판정이 neutral입니다")
          | _ => say HealthRed ("IP " +:+ ipText +:+ "가 SPF에 없습니다")
          end
      end
  end.

(** [pickDKIMRecord] *)
Definition pickDKIMRecord (txts : list string) : string :=
  match list_find (λ t, fold (tag (parseTagValue t) "v") "DKIM1" = true) txts with
  | Some (_, t) => t
  | None => match list_find (λ t, is_Some (parseTagValue t !! "p")) txts with Some (_, t) => t | None => "" end
  end.

(** [Checker.DKIM], from the record on. *)
Definition dkimRecord (name record key : string) (details : gmap string string) : DNSResult :=
  let say st summary details := dnsResult "dkim" st summary details in
  let tags := parseTagValue record in
  let v := tag tags "v" in
  if bool_decide (is_Some (tags !! "v")) && negb (fold v "DKIM1")
  then say HealthRed "DKIM 레코드의 v가 DKIM1이 아닙니다" (<["v" := v]> details)
  else
    let alg := if strEq (lower (tag tags "k")) "" then "rsa" else lower (tag tags "k") in
    let details := <["t" := tag tags "t"]> (<["k" := alg]> details) in
    match tags !! "p" with
    | None => say HealthRed "DKIM 레코드에 p= 태그가 없습니다" details
    | Some p =>
        if strEq (TrimSpace p) "" then say HealthRed "DKIM 공개키가 비어 있습니다(키 폐기 상태)" details
        else
          match kl_Decode K (stripWhitespace p) with
          | inl err => say HealthRed "DKIM 공개키를 base64로 해석할 수 없습니다" (<["error" := err]> details)
          | inr pub =>
              match dkimKeyBits K alg pub with
              | inl err => say HealthRed "DKIM 공개키를 해석할 수 없습니다" (<["error" := err]> details)
              | inr bits =>
                  let details := if 0 <? bits then <["bits" := pretty bits]> details else details in
                  let rest details :=
                    if strContains (lower (tag tags "t")) "y" then say HealthYellow "DKIM 레코드가 테스트 모드(t=y)입니다" details
                    else if strEq alg "rsa" && (0 <? bits) && (bits <? 1024)
                    then say HealthYellow ("DKIM RSA 키가 " +:+ pretty bits +:+ "비트로 너무 짧습니다") details
                    else if strEq key ""
                    then say HealthGreen (name +:+ "에 DKIM 공개키가 게시되어 있습니다(개인키 미보관, 릴레이 서명)") details
                    else say HealthGreen (name +:+ "의 공개키가 서명키와 일치합니다") details in
                  if strEq key "" then rest details
                  else
                    match expectedPublicKey K (dl_Quote L) key with
                    | inl err => say HealthYellow "저장된 DKIM 키를 해석할 수 없어 공개키를 비교하지 못했습니다" (<["error" := err]> details)
                    | inr want =>
                        if negb (strEq want (stripWhitespace p))
                        then say HealthRed (name +:+ "의 공개키가 sendplane 서명키와 다릅니다(선택자/키 불일치)")
                               (<["expected_p" := shorten want]> (<["published_p" := shorten (stripWhitespace p)]> details))
                        else rest (<["key_match" := "true"]> details)
                    end
              end
          end
    end.

(** [Checker.DKIM] *)
Definition DKIM (domain selector key : string) : DNSResult :=
  let name := selector +:+ "._domainkey." +:+ domain in
  let details : gmap string string := {["domain" := domain; "selector" := selector; "name" := name]} in
  match rs_TXT R name with
  | inl ErrNoRecord => dnsResult "dkim" HealthRed (name +:+ "에 DKIM 레코드가 없습니다") details
  | inl (dnsFailed err) => dnsResult "dkim" HealthYellow "DKIM 레코드를 조회하지 못했습니다" (<["error" := err]> details)
  | inr txts =>
      let record := pickDKIMRecord txts in
      if strEq record "" then dnsResult "dkim" HealthRed (name +:+ "의 TXT가 DKIM 레코드가 아닙니다") details
      else dkimRecord name record key (<["record" := record]> details)
  end.

(** [Checker.DMARC] *)
Definition DMARC (domain : string) : DNSResult :=
  let name := "_dmarc." +:+ domain in
  let details : gmap string string := {["domain" := domain; "name" := name]} in
  let say := dnsResult "dmarc" in
  match rs_TXT R name with
  | inl ErrNoRecord => say HealthRed (name +:+ "에 DMARC 레코드가 없습니다") details
  | inl (dnsFailed err) => say HealthYellow "DMARC 레코드를 조회하지 못했습니다" (<["error" := err]> details)
  | inr txts =>
      match filter (λ t, String.prefix "v=dmarc1" (lower (TrimSpace t)) = true) txts with
      | [] => say HealthRed (name +:+ "의 TXT가 DMARC 레코드가 아닙니다") details
      | [record] =>
          let tags := parseTagValue record in
          let policy := lower (tag tags "p") in
          let relaxed k := let v := lower (tag tags k) in if strEq v "" then "r" else v in
          let adkim := relaxed "adkim" in
          let aspf := relaxed "aspf" in
          let rua := tag tags "rua" in
          let details : gmap string string :=
            {["domain" := domain; "name" := name; "record" := record; "p" := policy; "adkim" := adkim; "aspf" := aspf;
              "sp" := (if strEq (tag tags "sp") "" then "" else lower (tag tags "sp")); "pct" := tag tags "pct"; "rua" := rua]} in
          if strEq policy "" then say HealthRed "DMARC 레코드에 p= 태그가 없습니다" details
          else if strEq policy "none" then say HealthYellow "DMARC 정책이 p=none입니다(모니터링 전용)" details
          else if negb (strEq policy "quarantine") && negb (strEq policy "reject")
          then say HealthRed ("알 수 없는 DMARC 정책 p=" +:+ policy) details
          else if strEq rua "" then say HealthYellow ("DMARC p=" +:+ policy +:+ "이지만 rua= 집계 리포트 주소가 없습니다") details
          else say HealthGreen ("DMARC p=" +:+ policy +:+ ", adkim=" +:+ adkim +:+ ", aspf=" +:+ aspf) details
      | records =>
          say HealthRed "DMARC 레코드가 여러 개라 수신 측이 전부 무시합니다" (<["count" := pretty (len records)]> details)
      end
  end.

Definition joinComma (l : list string) : string :=
  match l with [] => "" | x :: l' => foldl (λ acc y, acc +:+ ", " +:+ y) x l' end.

(** [Checker.MX] *)
Definition checkMX (domain : string) : DNSResult :=
  let details : gmap string string := {["domain" := domain]} in
  match rs_MX R domain with
  | inl ErrNoRecord => dnsResult "mx" HealthRed (domain +:+ "에 MX 레코드가 없어 바운스를 받을 수 없습니다") details
  | inl (dnsFailed err) => dnsResult "mx" HealthYellow "MX 레코드를 조회하지 못했습니다" (<["error" := err]> details)
  | inr mxs =>
      let details := <["hosts" := joinComma ((λ mx, pretty (mx_Pref mx) +:+ " " +:+ mx_Host mx) <$> mxs)]> details in
      match mxs with
      | [mx] => if strEq (mx_Host mx) "" || strEq (mx_Host mx) "."
                then dnsResult "mx" HealthRed (domain +:+ "가 null MX(RFC 7505)라 바운스를 받지 않습니다") details
                else dnsResult "mx" HealthGreen (domain +:+ "의 MX " +:+ pretty (len mxs) +:+ "개") details
      | _ => dnsResult "mx" HealthGreen (domain +:+ "의 MX " +:+ pretty (len mxs) +:+ "개") details
      end
  end.

(** [ReverseName] *)
Definition ReverseName (ipText : string) : string + string :=
  match reverseAddr ipText with
  | inl e => inl ("dnscheck: " +:+ e)
  | inr name => inr (match cutLast (toByte 46) name with Some (n, "") => n | _ => name end)
  end.

(** [Checker.PTR] *)
Definition PTR (ipText : string) : DNSResult :=
  let ip := ipOf ipText in
  let details : gmap string string := {["ip" := ipText]} in
  match ReverseName ipText with
  | inl e => dnsResult "ptr" HealthYellow "역방향 조회 이름을 만들 수 없습니다" (<["error" := e]> details)
  | inr name =>
      let details := <["name" := name]> details in
      match rs_PTR R name with
      | inl ErrNoRecord => dnsResult "ptr" HealthYellow (ipText +:+ "에 PTR 레코드가 없습니다") details
      | inl (dnsFailed err) => dnsResult "ptr" HealthYellow "PTR 레코드를 조회하지 못했습니다" (<["error" := err]> details)
      | inr names =>
          let details := <["ptr" := joinComma names]> details in
          match list_find (λ host, match addrs R host ip with inl _ => false | inr l => existsb (λ got, IPEqual got ip) l end = true) names with
          | Some (_, host) =>
              dnsResult "ptr" HealthGreen (ipText +:+ " → " +:+ host +:+ " → " +:+ ipText +:+ " (FCrDNS 일치)")
                (<["match" := host]> (<["fcrdns" := "true"]> details))
          | None =>
              dnsResult "ptr" HealthYellow
                (ipText +:+ "의 PTR(" +:+ joinComma names +:+ ")이 정방향에서 같은 IP로 돌아오지 않습니다(FCrDNS 불일치)")
                (<["fcrdns" := "false"]> details)
          end
      end
  end.

(** [Checker.RunAll] *)
Definition RunAll (now : Time) (i : DNSInputs) : DNSReport :=
  let dom := negb (strEq (di_Domain i) "") in
  let spf := if dom then Some (SPF (di_Domain i) (di_ObservedIP i)) else None in
  let dmarc := if dom then Some (DMARC (di_Domain i)) else None in
  let dkim := if dom && negb (strEq (di_DKIMSelector i) "")
              then Some (DKIM (di_Domain i) (di_DKIMSelector i) (di_DKIMKey i)) else None in
  let d := if strEq (di_ReturnPathDomain i) "" then di_Domain i else di_ReturnPathDomain i in
  let mx := if strEq d "" then None else Some (checkMX d) in
  let ptr := PTR <$> di_ObservedIP i in
  mkDNSReport (reportWorst [spf; dkim; dmarc; mx; ptr]) now spf dkim dmarc mx ptr.
End checks.
