(* ===== verification/DnsProps.v ===== *)
(** * The DNS checks on what is published

    The address tests of SPF against prefixes of the address, the SPF check
    against the semantics of [SpfProps], and the budget of its lookups. *)

From S2P Require Import Prelude Enums Model Classify Codec Tokens Email BounceReport NetIP Spf SpfProps DnsCheck.

(** ** Prefixes *)

Lemma maskBytes_length l n : length (maskBytes l n) = l.
Proof. revert n. induction l as [|l IH]; intros n; [done|]. cbn [maskBytes]. by destruct (8 <=? n); cbn; rewrite IH. Qed.

Lemma CIDRMask_length n bits : bits = 32 ∨ bits = 128 → 0 ≤ n ≤ bits → CIDRMask n bits = Some (maskBytes (Z.to_nat (bits / 8)) n).
Proof. intros [-> | ->] Hn; unfold CIDRMask; cbn [negb andb Z.eqb Pos.eqb]; by rewrite (proj2 (Z.ltb_ge _ _)), (proj2 (Z.ltb_ge _ _)) by lia. Qed.

(** On addresses of one length the mask is applied bytewise. *)
Lemma maskEqual_bytes a b mask :
  length a = length b → length a = length mask →
  maskEqual a b mask = bool_decide (zip_with Z.land a mask = zip_with Z.land b mask).
Proof.
  intros Hab Ham. unfold maskEqual.
  assert (Hm : ∀ x, length x = length mask → IPMask x mask = Some (zip_with Z.land x mask)).
  { intros x Hx. unfold IPMask, IPv4len, IPv6len.
    destruct (Nat.eqb_spec (length mask) 16), (Nat.eqb_spec (length x) 4); cbn [andb]; try lia;
      destruct (Nat.eqb_spec (length mask) 4), (Nat.eqb_spec (length x) 16); cbn [andb]; try lia;
      by rewrite Hx, Nat.eqb_refl. }
  rewrite !Hm by congruence. cbn [from_option id]. unfold IPEqual. replace (length (zip_with Z.land a mask)) with (length (zip_with Z.land b mask)) by (rewrite !length_zip_with, Hab; done). by rewrite Nat.eqb_refl.
Qed.

(** The form in which two addresses are compared, and its width. *)
Definition family (ip : IP) : (IP → option IP) * Z := match To4 ip with Some _ => (To4, 32) | None => (To16, 128) end.

Lemma To4_length ip a : To4 ip = Some a → length a = 4%nat.
Proof.
  unfold To4, IPv4len, IPv6len. destruct (Nat.eqb_spec (length ip) 4); [by intros [= <-]|].
  destruct (Nat.eqb_spec (length ip) 16); [|done]. cbn [andb]. case_bool_decide; [|done]. intros [= <-]. rewrite length_drop. lia.
Qed.
Lemma To16_length ip a : To16 ip = Some a → length a = 16%nat.
Proof.
  unfold To16, IPv4len, IPv6len. destruct (Nat.eqb_spec (length ip) 4) as [E|]; [intros [= <-]; unfold v4InV6Prefix; cbn [length app replicate]; by rewrite E|].
  destruct (Nat.eqb_spec (length ip) 16); [|done]. by intros [= <-].
Qed.
Lemma family_length ip x a : (family ip).1 x = Some a → Z.of_nat (length a) = (family ip).2 / 8.
Proof. unfold family. destruct (To4 ip); cbn; [intros H%To4_length|intros H%To16_length]; by rewrite H. Qed.

Lemma bytesOk_form ip x a : bytesOk x → (family ip).1 x = Some a → bytesOk a.
Proof.
  intros Hx. unfold family. destruct (To4 ip); cbn; unfold To4, To16; repeat case_match; intros [= <-]; try done.
  - by apply Forall_drop.
  - unfold bytesOk. repeat (apply Forall_cons; split; [lia|]). done.
Qed.

(** The addresses of an [a] or [mx] mechanism contain
    the observed one exactly if one of them, in the family of the observed
    address, has the same first [prefix] bits, for every prefix length from
    nothing to the whole address. *)
Theorem contains_ip_prefix l ip b n :
  Forall bytesOk l → bytesOk ip → (family ip).1 ip = Some b → 0 ≤ n ≤ (family ip).2 →
  (containsIP l ip n = true ↔
   ∃ got a, got ∈ l ∧ (family ip).1 got = Some a ∧
     addrNum a / 2 ^ ((family ip).2 - n) = addrNum b / 2 ^ ((family ip).2 - n)).
Proof.
  intros Hl Hip Hb Hn. unfold containsIP.
  set (w := (family ip).2) in *. set (form := (family ip).1) in *.
  replace (match To4 ip with Some _ => 32 | None => 128 end) with w by (unfold w, family; by destruct (To4 ip)).
  replace (if w =? 32 then To4 else To16) with form by (unfold w, form, family; by destruct (To4 ip)).
  assert (Hw : w = 32 ∨ w = 128) by (unfold w, family; destruct (To4 ip); auto).
  rewrite (CIDRMask_length n w Hw Hn). cbn [from_option id]. rewrite existsb_exists.
  assert (H8 : 8 * Z.of_nat (Z.to_nat (w / 8)) = w) by (destruct Hw as [E|E]; rewrite E; done).
  pose proof (family_length ip ip b Hb) as Lb. fold w in Lb.
  assert (Hone : ∀ got a, got ∈ l → form got = Some a →
    maskEqual a b (maskBytes (Z.to_nat (w / 8)) n) = true ↔ addrNum a / 2 ^ (w - n) = addrNum b / 2 ^ (w - n)).
  { intros got a Hin Ha. pose proof (family_length ip got a Ha) as La. fold w in La.
    rewrite maskEqual_bytes by (rewrite ?maskBytes_length; lia). rewrite bool_decide_eq_true.
    pose proof (maskBytes_prefix (Z.to_nat (w / 8)) n a b) as Hp. rewrite Hp.
    - by rewrite H8.
    - by apply (bytesOk_form ip got); [apply (proj1 (Forall_forall _ _) Hl)|].
    - by apply (bytesOk_form ip ip).
    - lia.
    - lia.
    - by rewrite H8. }
  split.
  - intros (got&Hin%list_elem_of_In&Hg). rewrite Hb in Hg. destruct (form got) as [a|] eqn:Ea; [|done]. exists got, a. split_and!; [done..|].
    apply (Hone got a Hin Ea). exact Hg.
  - intros (got&a&Hin&Ha&He). exists got. split; [by apply list_elem_of_In|]. rewrite Ha, Hb. by apply (Hone got).
Qed.

(** ** The SPF check *)

Section spf.
Context (L : dnsLib) (R : Resolver) (ipOf : string → IP).

(** The evaluation of one check. *)
Definition spfRun (ip : option IP) (d : string) : (spfResult * option string) * spfEval :=
  check L R ip (S maxSPFDepth) true d newSpfEval.

Lemma spf_budget_perm ip d :
  (MaxSPFLookups < sp_lookups (spfRun ip d).2 → (spfRun ip d).1.1 = spfPermerror) ∧
  0 ≤ sp_lookups (spfRun ip d).2 ≤ MaxSPFLookups + 1 ∧ (size (sp_seen (spfRun ip d).2) ≤ 11)%nat.
Proof.
  pose proof (check_spent L R ip (S maxSPFDepth) true d newSpfEval ltac:(by split)) as Hs.
  fold (spfRun ip d) in Hs. destruct (spfRun ip d) as [[r err] e]. destruct Hs as (Hl&Hp&Hz). cbn in Hl, Hz. cbn [fst snd].
  unfold cap, MaxSPFLookups in *. split_and!; [done|lia..|].
  change (size (∅ : gmap string (dnsErr + list string))) with 0%nat in Hz. lia.
Qed.

(** C33 (SPF budget): whatever the world publishes, records that include each
    other in circles among it, evaluating an SPF record ends after at most ten
    charged lookups and the one that is refused, asks for the TXT records of at
    most eleven names, gives permerror when it runs out, and its depth limit
    never decides anything: any limit above the budget gives the same. *)
Theorem spf_lookup_budget ip d :
  let out := spfRun ip d in
  0 ≤ sp_lookups out.2 ≤ MaxSPFLookups + 1 ∧
  (MaxSPFLookups < sp_lookups out.2 → out.1.1 = spfPermerror) ∧
  (size (sp_seen out.2) ≤ 11)%nat ∧
  ∀ n, MaxSPFLookups < Z.of_nat n → check L R ip n true d newSpfEval = out.
Proof.
  cbv zeta. destruct (spf_budget_perm ip d) as (Hp&Hl&Hz). split_and!; [lia..|done|done|].
  intros n Hn. apply check_levels; [by split|cbn; lia|by vm_compute].
Qed.

(** The colour of a result for an observed address. *)
Definition spfColour (r : spfResult) : HealthStatus :=
  match r with
  | spfPass => HealthGreen
  | spfSoftfail | spfNeutral | spfTemperror => HealthYellow
  | spfFail | spfNone | spfPermerror => HealthRed
  end.

Lemma SPF_colour d ipText : dn_Status (SPF L R ipOf d (Some ipText)) = spfColour (spfRun (Some (ipOf ipText)) d).1.1.
Proof.
  unfold SPF, spfRun. cbn [fmap option_fmap option_map]. destruct (check _ _ _ _ _ _ _) as [[r err] e]. cbn [fst snd].
  destruct r; try done. by destruct (_ <? _).
Qed.

(** C32 (SPF verdict): with DNS names looked up whatever their case, the SPF
    check of an observed address is green only if the semantics of the record
    gives pass, and as long as the record keeps to ten lookups its colour is
    exactly that of the one result the semantics gives. *)
Theorem spf_check_exact d ipText :
  (∀ a b, dl_ToLower L a = dl_ToLower L b → rs_TXT R a = rs_TXT R b) →
  let ip := Some (ipOf ipText) in
  let colour := dn_Status (SPF L R ipOf d (Some ipText)) in
  (colour = HealthGreen → hostR L R ip d spfPass) ∧
  (sp_lookups (spfRun ip d).2 ≤ MaxSPFLookups → ∃ r, (∀ r', hostR L R ip d r' ↔ r' = r) ∧ colour = spfColour r) ∧
  (MaxSPFLookups < sp_lookups (spfRun ip d).2 → colour = HealthRed).
Proof.
  intros Hcase ip colour. unfold colour. rewrite SPF_colour. fold ip.
  destruct (check_sound L R ip Hcase (S maxSPFDepth) true d newSpfEval) as [_ Hs]; [by split|intros ?? H; unfold newSpfEval in H; cbn [sp_seen] in H; by rewrite lookup_empty in H|by vm_compute|].
  fold (spfRun ip d) in Hs. destruct (spf_budget_perm ip d) as [Hp _].
  destruct (spfRun ip d) as [[r err] e]. cbn [fst snd] in *. split_and!.
  - intros Hg. destruct (decide (sp_lookups e ≤ MaxSPFLookups)) as [Hle|Hgt]; [|by rewrite (Hp ltac:(lia)) in Hg].
    specialize (Hs Hle). by destruct r.
  - intros Hle. exists r. split; [|done]. intros r'. split; [|intros ->; by apply Hs]. intros Hr'.
    by apply (proj1 (spfR_det L R ip) d r' Hr' r), Hs.
  - intros Hgt. by rewrite (Hp Hgt).
Qed.
End spf.

(** ** On concrete records *)

Definition sampleNet : IPNet := mkIPNet [192; 0; 2; 0] [255; 255; 255; 0].
Definition sampleDnsLib : dnsLib :=
  mkDnsLib id strEq (λ _, None) (λ s, if strEq s "192.0.2.0/24" then Some sampleNet else None) (λ _, "") id.

(** A provider's record that is included, and a record that includes itself. *)
Definition sampleTXT (name : string) : dnsErr + list string :=
  if strEq name "example.com" then inr ["v=spf1 include:_spf.example.net -all"; "verification=1"]
  else if strEq name "_spf.example.net" then inr ["v=spf1 ip4:192.0.2.0/24 ~all"]
  else if strEq name "loop.example" then inr ["v=spf1 include:loop.example -all"]
  else inl ErrNoRecord.
Definition sampleResolver : Resolver :=
  mkResolver sampleTXT (λ _, inl ErrNoRecord) (λ _, inl ErrNoRecord) (λ _, inl ErrNoRecord) (λ _, inl ErrNoRecord).

Lemma contains_ip_prefix_witness :
  containsIP [[192; 0; 2; 77]] [192; 0; 2; 1] 24 = true ∧ containsIP [[192; 0; 2; 77]] [192; 0; 2; 1] 26 = false.
Proof.
  split; [|vm_compute; reflexivity].
  apply (contains_ip_prefix [[192; 0; 2; 77]] [192; 0; 2; 1] [192; 0; 2; 1] 24).
  - repeat constructor; lia.
  - repeat constructor; lia.
  - vm_compute. reflexivity.
  - vm_compute. split; discriminate.
  - exists [192; 0; 2; 77], [192; 0; 2; 77]. split_and!; [set_solver|vm_compute; reflexivity..].
Defined.

Lemma spf_lookup_budget_witness :
  sp_lookups (spfRun sampleDnsLib sampleResolver None "loop.example").2 = 11 ∧
  (spfRun sampleDnsLib sampleResolver None "loop.example").1.1 = spfPermerror.
Proof.
  pose proof (spf_lookup_budget sampleDnsLib sampleResolver None "loop.example") as (_&Hp&_). split; [vm_compute; reflexivity|].
  apply Hp. vm_compute. reflexivity.
Defined.

Lemma spf_check_exact_witness :
  hostR sampleDnsLib sampleResolver (Some [192; 0; 2; 9]) "example.com" spfPass ∧
  dn_Status (SPF sampleDnsLib sampleResolver (λ _, [192; 0; 2; 9]) "example.com" (Some "192.0.2.9")) = HealthGreen.
Proof.
  destruct (spf_check_exact sampleDnsLib sampleResolver (λ _, [192; 0; 2; 9]) "example.com" "192.0.2.9") as [Hg _]; [intros a b Hab; unfold sampleDnsLib, id in Hab; cbn in Hab; by rewrite Hab|].
  assert (Hc : dn_Status (SPF sampleDnsLib sampleResolver (λ _, [192; 0; 2; 9]) "example.com" (Some "192.0.2.9")) = HealthGreen)
    by (vm_compute; reflexivity).
  split; [by apply Hg|exact Hc].
Defined.
