(* ===== verification/MailboxHealth.v ===== *)
(** * Reachability of a mailbox ([internal/mbhealth/mbhealth.go])

    Four callers observe whether a mailbox can be opened; [Next] turns an
    observation into the row's health and [healthTransition] decides whether the host
    is told.  [RecordHealth] writes both, as a program over the tenant's store.
    The theorems say what a sequence of observations amounts to: the stored
    health is the history's trailing failures, and the host hears of an outage
    once and of a recovery only after an outage it heard of. *)

From S2P Require Import Prelude Enums Model MemTable MemData Repos Provider Prog.

Definition EventMailboxUnhealthy : string := "mailbox.unhealthy".
Definition EventMailboxRecovered : string := "mailbox.recovered".
Definition KindProbe : string := "probe".
Definition KindBounce : string := "bounce".
Definition FailuresForEvent : Z := 2.
Definition MailboxStageOK : string := "ok".
Definition MailboxStageDial : string := "dial".
Definition MailboxStageWebhook : string := "webhook".

(** [Mailbox]: the part of a row that is needed, with the health it replaces. *)
Record Mailbox := mkMailbox { mb_ID : string; mb_Name : string; mb_Health : MailboxHealth }.

Record MailboxOutcome := mkOutcome { oc_OK : bool; oc_Stage : string; oc_Reason : string }.
Definition OK : MailboxOutcome := mkOutcome true "" "".
Definition Fail_ (stage reason : string) : MailboxOutcome := mkOutcome false stage reason.

Definition Next (prev : MailboxHealth) (o : MailboxOutcome) (now : Time) : MailboxHealth :=
  let now := TruncateTime now in
  if oc_OK o
  then zero <| mh_Status := MailboxOK |> <| mh_Stage := MailboxStageOK |> <| mh_CheckedAt := now |> <| mh_LastOKAt := now |>
  else mkMailboxHealth MailboxError (oc_Stage o) (oc_Reason o) now (mh_LastOKAt prev)
         (int64 (mh_ConsecutiveFailures prev + 1)).

Definition healthTransition (prev next : MailboxHealth) : string :=
  if bool_decide (mh_Status next = MailboxError) && (mh_ConsecutiveFailures next =? FailuresForEvent)
  then EventMailboxUnhealthy
  else if bool_decide (mh_Status next = MailboxOK) && bool_decide (mh_Status prev = MailboxError) &&
          (FailuresForEvent <=? mh_ConsecutiveFailures prev)
  then EventMailboxRecovered
  else "".

Record eventPayload := mkEventPayload {
  ep_Kind : string; ep_MailboxID : string; ep_Name : string; ep_Status : MailboxStatus; ep_Stage : string;
  ep_Reason : string; ep_Failures : Z; ep_CheckedAt : Time; ep_LastOKAt : Time; ep_OccurredAt : Time;
}.

Section record.
(** [json.Marshal] *)
Context (marshal : eventPayload → error + string).

(** [Record]; the health it returns is [Next], whatever the error. *)
Definition RecordHealth (kind : string) (m : Mailbox) (o : MailboxOutcome) (now : Time) : prog MailboxHealth :=
  let next := Next (mb_Health m) o now in
  let? _ :=
    if strEq kind KindProbe then call (λ env, ProbeMailboxUpdateHealth env (mb_ID m) next)
    else if strEq kind KindBounce then call (λ env, BounceMailboxUpdateHealth env (mb_ID m) next)
    else fail (errNamed "mbhealth: unknown mailbox kind") in
  let typ := healthTransition (mb_Health m) next in
  if strEq typ "" then pret next
  else
    match marshal (mkEventPayload kind (mb_ID m) (mb_Name m) (mh_Status next) (mh_Stage next) (mh_Reason next)
                     (mh_ConsecutiveFailures next) (mh_CheckedAt next) (mh_LastOKAt next) (TruncateTime now)) with
    | inl e => fail e
    | inr payload =>
        let? _ := call (λ env, Enqueue env
          [zero <| o_Type := typ |> <| o_Payload := payload |> <| o_Status := OutboxPending |>
                <| o_CreatedAt := TruncateTime now |> <| o_NextAttemptAt := TruncateTime now |>]) in
        pret next
    end.
End record.

(** ** A history of observations *)

(** The health after the observations, oldest first, and the event of each. *)
Fixpoint observeAll (h : MailboxHealth) (os : list (MailboxOutcome * Time)) : MailboxHealth * list string :=
  match os with
  | [] => (h, [])
  | (o, now) :: os' =>
      let next := Next h o now in
      let '(h', evs) := observeAll next os' in (h', healthTransition h next :: evs)
  end.

(** The failures a history ends with. *)
Fixpoint trailingFailures (os : list (MailboxOutcome * Time)) (n : Z) : Z :=
  match os with
  | [] => n
  | (o, _) :: os' => trailingFailures os' (if oc_OK o then 0 else n + 1)
  end.
(** When a check last worked. *)
Fixpoint lastOK (os : list (MailboxOutcome * Time)) (t : Time) : Time :=
  match os with
  | [] => t
  | (o, now) :: os' => lastOK os' (if oc_OK o then TruncateTime now else t)
  end.

(** The events a history must produce: an outage is announced at its second
    failure, a recovery after an announced outage. *)
Fixpoint announcements (n : Z) (os : list (MailboxOutcome * Time)) : list string :=
  match os with
  | [] => []
  | (o, _) :: os' =>
      if oc_OK o then (if 2 <=? n then EventMailboxRecovered else "") :: announcements 0 os'
      else (if n =? 1 then EventMailboxUnhealthy else "") :: announcements (n + 1) os'
  end.

(** The events that were sent. *)
Definition sent (evs : list string) : list string := filter (λ e, e ≠ "") evs.

Inductive alternates : bool → list string → Prop :=
  | alt_nil b : alternates b []
  | alt_outage l : alternates true l → alternates false (EventMailboxUnhealthy :: l)
  | alt_recovery l : alternates false l → alternates true (EventMailboxRecovered :: l).

(** A health that ends [n] failures. *)
Definition counts (h : MailboxHealth) (n : Z) : Prop :=
  mh_ConsecutiveFailures h = n ∧ (mh_Status h = MailboxError ↔ 0 < n).

Lemma Next_counts h n o now :
  counts h n → 0 ≤ n < maxInt64 → counts (Next h o now) (if oc_OK o then 0 else n + 1).
Proof.
  intros [Hn _] Hr. unfold Next, counts. destruct (oc_OK o); cbn; [by split|].
  rewrite Hn, int64_small by (unfold in_int64, minInt64, maxInt64 in *; lia). split; [done|]. split; [lia|done].
Qed.

Lemma healthTransition_counts h n o now :
  counts h n → 0 ≤ n < maxInt64 →
  healthTransition h (Next h o now) =
    if oc_OK o then (if 2 <=? n then EventMailboxRecovered else "") else (if n =? 1 then EventMailboxUnhealthy else "").
Proof.
  intros [Hn Hs] Hr. unfold healthTransition, Next, FailuresForEvent. destruct (oc_OK o); cbn.
  - rewrite Hn. destruct (decide (0 < n)).
    + rewrite (bool_decide_eq_true_2 (mh_Status h = MailboxError)) by by apply Hs. done.
    + rewrite (bool_decide_eq_false_2 (mh_Status h = MailboxError)) by (rewrite Hs; lia). by rewrite (proj2 (Z.leb_gt _ _)) by lia.
  - rewrite Hn, int64_small by (unfold in_int64, minInt64, maxInt64 in *; lia).
    destruct (n =? 1) eqn:E; to_prop; [by rewrite E|]. by rewrite (proj2 (Z.eqb_neq (n + 1) 2)) by lia.
Qed.

Lemma observeAll_counts h n os :
  counts h n → 0 ≤ n → n + len os ≤ maxInt64 →
  counts (observeAll h os).1 (trailingFailures os n) ∧ mh_LastOKAt (observeAll h os).1 = lastOK os (mh_LastOKAt h) ∧
  (observeAll h os).2 = announcements n os.
Proof.
  revert h n. induction os as [|[o now] os IH]; intros h n Hc Hn Hl; [done|]. cbn [observeAll trailingFailures lastOK announcements].
  assert (Hl' : len ((o, now) :: os) = len os + 1) by (unfold len; cbn; lia). assert (0 ≤ len os) by (unfold len; lia).
  pose proof (Next_counts h n o now Hc ltac:(lia)) as Hc'. pose proof (healthTransition_counts h n o now Hc ltac:(lia)) as Ht.
  destruct (IH (Next h o now) _ Hc') as (H1&H2&H3); [destruct (oc_OK o); lia..|].
  destruct (observeAll (Next h o now) os) as [h' evs]. cbn [fst snd] in *. rewrite Ht, H2, H3.
  split_and!; [done|..]; unfold Next; by destruct (oc_OK o).
Qed.

Lemma announcements_alternate n os : 0 ≤ n → alternates (bool_decide (2 ≤ n)) (sent (announcements n os)).
Proof.
  revert n. induction os as [|[o now] os IH]; intros n Hn; [constructor|]. cbn [announcements]. unfold sent.
  assert (Hskip : ∀ l, filter (λ e, e ≠ "") ("" :: l) = sent l) by done.
  destruct (oc_OK o).
  - specialize (IH 0 ltac:(lia)). rewrite bool_decide_eq_false_2 in IH by lia. destruct (Z.leb_spec 2 n).
    + rewrite bool_decide_eq_true_2, filter_cons_True by done. by constructor.
    + by rewrite bool_decide_eq_false_2, Hskip by lia.
  - specialize (IH (n + 1) ltac:(lia)). destruct (Z.eqb_spec n 1) as [->|Hne].
    + rewrite bool_decide_eq_true_2 in IH by lia. rewrite bool_decide_eq_false_2 by lia. rewrite filter_cons_True by done. by constructor.
    + rewrite Hskip. replace (bool_decide (2 ≤ n)) with (bool_decide (2 ≤ n + 1)); [exact IH|]. apply bool_decide_ext. lia.
Qed.

(** After any sequence of observations of a mailbox the
    stored health is exactly what the history says: as many consecutive
    failures as it ends with, in error exactly if it ends with one, and the
    time of the last check that worked; and the host is told of an outage once,
    at its second failure, and of a recovery only after an outage it was told
    of: the events alternate. *)
Theorem mailbox_health_exact os :
  len os ≤ maxInt64 →
  let '(h, evs) := observeAll zero os in
  mh_ConsecutiveFailures h = trailingFailures os 0 ∧
  (mh_Status h = MailboxError ↔ 0 < trailingFailures os 0) ∧
  mh_LastOKAt h = lastOK os zeroTime ∧
  evs = announcements 0 os ∧ alternates false (sent evs).
Proof.
  intros Hl. destruct (observeAll_counts zero 0 os) as ([H1 H2]&H3&H4); [by split|done|lia|].
  pose proof (announcements_alternate 0 os ltac:(lia)) as Ha. destruct (observeAll zero os) as [h evs]. cbn [fst snd] in *. subst.
  split_and!; [done..|]. by rewrite bool_decide_eq_false_2 in Ha by lia.
Qed.

(** ** Writing it *)

Lemma enqueueLoop_mailboxes env i evs td : probeMailboxes (enqueueLoop env i evs td) = probeMailboxes td.
Proof. revert i td. induction evs as [|e evs IH]; intros i td; cbn [enqueueLoop]; [done|]. by rewrite IH. Qed.

Lemma stampEvent_keeps_type env i e : o_Type (stampEvent env i e) = o_Type e.
Proof. unfold stampEvent. by repeat case_match. Qed.

Lemma enqueue_one env e td : ∃ id, outbox (enqueueLoop env 0 [e] td) !! id = Some (stampEvent env 0 e).
Proof. exists (o_ID (stampEvent env 0 e)). cbn [enqueueLoop]. generalize (stampEvent env 0 e) as x. intros x. apply lookup_insert_eq. Qed.

(** An observation of a probe mailbox that exists is stored, and an event is
    in the outbox exactly if there is a transition. *)
Lemma RecordHealth_probe marshal env m o now td x payload :
  e_closed env = false → probeMailboxes td !! mb_ID m = Some x → (∀ p, marshal p = inr payload) →
  let next := Next (mb_Health m) o now in
  let '(r, td') := run env (RecordHealth marshal KindProbe m o now) td in
  r = inr next ∧
  probeMailboxes td' = <[mb_ID m := x <| pm_Health := truncateHealth next |>]> (probeMailboxes td) ∧
  (healthTransition (mb_Health m) next = "" → outbox td' = outbox td) ∧
  (healthTransition (mb_Health m) next ≠ "" → ∃ id e, outbox td' !! id = Some e ∧ o_Type e = healthTransition (mb_Health m) next).
Proof.
  intros Hc Hx Hm next. unfold RecordHealth. fold next. clearbody next.
  set (typ := healthTransition (mb_Health m) next). clearbody typ. rewrite run_pbind. change (strEq KindProbe KindProbe) with true.
  cbv iota. rewrite run_call. unfold ProbeMailboxUpdateHealth, checked at 1. rewrite Hc, Hx. cbn [fst snd].
  destruct (strEq typ "") eqn:E.
  - cbn. apply bool_decide_eq_true_1 in E. by split_and!.
  - rewrite Hm, run_pbind, run_call. unfold Enqueue, checked. rewrite Hc. cbn [run pret].
    apply bool_decide_eq_false_1 in E. split_and!; [done|by rewrite enqueueLoop_mailboxes|done|]. intros _.
    match goal with |- context [enqueueLoop env 0 [?e] ?td0] => destruct (enqueue_one env e td0) as [id Hid] end.
    exists id. eexists. split; [exact Hid|]. by rewrite stampEvent_keeps_type.
Qed.

Lemma mailbox_health_exact_witness :
  let os := [(Fail_ "dial" "refused", Hour); (Fail_ "auth" "bad password", 2 * Hour); (Fail_ "auth" "bad password", 3 * Hour);
             (OK, 4 * Hour); (Fail_ "dial" "reset", 5 * Hour)] in
  sent (observeAll zero os).2 = [EventMailboxUnhealthy; EventMailboxRecovered] ∧
  mh_ConsecutiveFailures (observeAll zero os).1 = 1.
Proof.
  intros os. pose proof (mailbox_health_exact os ltac:(by vm_compute)) as H.
  destruct (observeAll zero os) as [h evs]. destruct H as (Hn&_&_&->&_). split; [vm_compute; reflexivity|].
  cbn [fst]. rewrite Hn. vm_compute. reflexivity.
Defined.
