(* ===== verification/Mailbox.v ===== *)
(** * Mailboxes ([internal/mailbox/mailbox.go], [fake.go], [test.go])

    What the bounce poller and the probe read mail with: the configuration of a
    mailbox and its validation, the errors of a session with the stage they
    happened at, the [Client] interface, and the in-memory client.  The
    promise of the interface, [Fetch] returns the messages that have not been
    acknowledged, is the class [UnhandledMail]; [Pop3] and [Imap] hold the two
    protocols. *)

From S2P Require Import Prelude Enums Model Classify Codec Tokens Email Platform BounceReport Bounce MailboxHealth.

(** ** Errors

    An error is its chain of wrappings: [errors.As] finds the outermost of a
    type.  Texts are quoted with [strconv.Quote], an argument where it matters. *)

Inductive mailErr :=
  | ioError (text : string)
  | EOFError
  | ServerError (Text : string)
  | imapError (text : string)
  | errUnknownProtocol (p : string)
  | errNoHost
  | errUnknownTLS (mode : string)
  | errNoDestination (action : string)
  | errUnknownAction (action : string)
  | errPop3Move (folder : string)
  | errUnexpected (line : string)
  | errTruncated (num : Z)
  | ErrNoFolders
  | ErrNoIdle
  | errNotUID (id : string)
  | errWrap (context : string) (e : mailErr)
  | DialError (Stage : string) (Err : mailErr).

#[global] Instance mailErr_eq_dec : EqDecision mailErr.
Proof. solve_decision. Defined.

Definition MailboxStageTLS : string := "tls".
Definition MailboxStageAuth : string := "auth".
Definition MailboxStageFolder : string := "folder".
Definition StageConfig : string := "config".
Definition StageDial : string := MailboxStageDial.
Definition StageTLS : string := MailboxStageTLS.
Definition StageAuth : string := MailboxStageAuth.
Definition StageFolder : string := MailboxStageFolder.
Definition StageOK : string := MailboxStageOK.

(** [StageOf] *)
Fixpoint StageOf (e : mailErr) : string :=
  match e with
  | DialError stage _ => if strEq stage "" then StageDial else stage
  | errWrap _ e => StageOf e
  | _ => StageDial
  end.

(** [refused] *)
Fixpoint refused (e : mailErr) : bool :=
  match e with
  | ServerError _ | imapError _ => true
  | errWrap _ e | DialError _ e => refused e
  | _ => false
  end.

Definition loginStage (e : mailErr) : string := if refused e then StageAuth else StageDial.

(** ** Results *)

(** A session's operation: it reads and writes the session and may fail. *)
Definition MM (S A : Type) : Type := S → (mailErr + A) * S.
Definition mret_ {S A} (a : A) : MM S A := λ s, (inr a, s).
Definition mfail {S A} (e : mailErr) : MM S A := λ s, (inl e, s).
Definition mbind_ {S A B} (m : MM S A) (k : A → MM S B) : MM S B := λ s,
  match m s with
  | (inl e, s') => (inl e, s')
  | (inr a, s') => k a s'
  end.
(** Continue with the outcome, error included. *)
Definition mtry {S A B} (m : MM S A) (k : mailErr + A → MM S B) : MM S B := λ s, let '(r, s') := m s in k r s'.
(** [if err != nil { return f(err) }] *)
Definition mapErr {S A} (f : mailErr → mailErr) (m : MM S A) : MM S A :=
  mtry m (λ r, match r with inl e => mfail (f e) | inr a => mret_ a end).
(** A change of the session that cannot fail. *)
Definition mdo {S} (f : S → S) : MM S unit := λ s, (inr tt, f s).

Declare Scope mail_scope.
Delimit Scope mail_scope with mail.
Notation "'let@' x ':=' m 'in' k" := (mbind_ m (λ x, k))
  (at level 10, x name, m at level 100, k at level 200,
   format "'[v' 'let@'  x  ':='  m  'in' '/' k ']'") : mail_scope.
#[global] Open Scope mail_scope.

(** ** Actions *)

Definition ActionKeep : string := "keep".
Definition ActionDelete : string := "delete".
Definition MovePrefix : string := "move:".

(** [ParseAction] *)
Definition ParseAction (s : string) : mailErr + string :=
  if strEq s "" then inr ActionKeep
  else if strEq s ActionKeep || strEq s ActionDelete then inr s
  else if String.prefix MovePrefix s then
    if strEq (TrimSpace (strDrop (String.length MovePrefix) s)) "" then inl (errNoDestination s) else inr s
  else inl (errUnknownAction s).

(** [Action.MoveFolder] *)
Definition MoveFolder (a : string) : option string :=
  if String.prefix MovePrefix a then Some (TrimSpace (strDrop (String.length MovePrefix) a)) else None.

(** ** Configuration *)

Definition ProtocolIMAP : string := "imap".
Definition ProtocolPOP3 : string := "pop3".
Definition TLSModeNone : string := "none".
Definition TLSModeSTARTTLS : string := "starttls".
Definition TLSModeImplicit : string := "tls".

(** [Config], without what only tests set. *)
Record MailConfig := mkMailConfig {
  mc_Protocol : string;
  mc_Host : string;
  mc_Port : Z;
  mc_TLS : string;
  mc_Username : string;
  mc_Password : string;
  mc_Folder : string;
  mc_ExtraFolders : list string;
  mc_AfterProcess : string;
  mc_DialTimeout : Duration;
  mc_Timeout : Duration;
}.
#[global] Instance MailConfig_eta : Eta MailConfig := λ c,
  mkMailConfig (mc_Protocol c) (mc_Host c) (mc_Port c) (mc_TLS c) (mc_Username c) (mc_Password c) (mc_Folder c)
    (mc_ExtraFolders c) (mc_AfterProcess c) (mc_DialTimeout c) (mc_Timeout c).

Definition DefaultDialTimeout : Duration := 30 * Second.
Definition DefaultMailTimeout : Duration := 2 * Minute.
Definition DefaultFolder : string := "INBOX".

(** [Config.Validate] *)
Definition ValidateConfig (c : MailConfig) : option mailErr :=
  if negb (strEq (mc_Protocol c) ProtocolIMAP || strEq (mc_Protocol c) ProtocolPOP3)
  then Some (errUnknownProtocol (mc_Protocol c))
  else if strEq (TrimSpace (mc_Host c)) "" then Some errNoHost
  else if negb (contains [TLSModeNone; TLSModeSTARTTLS; TLSModeImplicit; ""] (mc_TLS c)) then Some (errUnknownTLS (mc_TLS c))
  else if strEq (mc_AfterProcess c) "" then None
  else
    match ParseAction (mc_AfterProcess c) with
    | inl e => Some e
    | inr _ =>
        match MoveFolder (mc_AfterProcess c) with
        | Some folder => if strEq (mc_Protocol c) ProtocolPOP3 then Some (errPop3Move folder) else None
        | None => None
        end
    end.

Definition defaultPort (p mode : string) : Z :=
  if strEq p ProtocolIMAP && strEq mode TLSModeImplicit then 993
  else if strEq p ProtocolIMAP then 143
  else if strEq mode TLSModeImplicit then 995
  else 110.

(** [Config.withDefaults] *)
Definition configDefaults (c : MailConfig) : MailConfig :=
  let c := if strEq (mc_TLS c) "" then c <| mc_TLS := TLSModeImplicit |> else c in
  let c := if mc_Port c =? 0 then c <| mc_Port := defaultPort (mc_Protocol c) (mc_TLS c) |> else c in
  let c := if strEq (mc_Folder c) "" then c <| mc_Folder := DefaultFolder |> else c in
  let c := if strEq (mc_AfterProcess c) "" then c <| mc_AfterProcess := ActionKeep |> else c in
  let c := if mc_DialTimeout c <=? 0 then c <| mc_DialTimeout := DefaultDialTimeout |> else c in
  if mc_Timeout c <=? 0 then c <| mc_Timeout := DefaultMailTimeout |> else c.

(** ** Checking a mailbox ([test.go]) *)

Definition TestTimeout : Duration := 20 * Second.

Record FolderInfo := mkFolderInfo { fi_Exists : bool; fi_Messages : Z }.

(** [TestResult], without its latency. *)
Record TestResult := mkTestResult {
  tr_OK : bool;
  tr_Stage : string;
  tr_Error : string;
  tr_Folders : gmap string FolderInfo;
  tr_Server : string;
}.
#[global] Instance TestResult_eta : Eta TestResult := λ r,
  mkTestResult (tr_OK r) (tr_Stage r) (tr_Error r) (tr_Folders r) (tr_Server r).

(** [errors.As] at [*ServerError] and [*imap.Error] *)
Fixpoint asServerError (e : mailErr) : option string :=
  match e with
  | ServerError text => Some text
  | errWrap _ e | DialError _ e => asServerError e
  | _ => None
  end.
Fixpoint asImapError (e : mailErr) : option string :=
  match e with
  | imapError text => Some text
  | errWrap _ e | DialError _ e => asImapError e
  | _ => None
  end.

Section test.
(** [err.Error()] and [strings.EqualFold] *)
Context (errText : mailErr → string) (EqualFold : string → string → bool).

Definition cleanErr (e : mailErr) : string :=
  match asServerError e with
  | Some (String _ _ as text) => text
  | _ => match asImapError e with Some text => text | None => TrimPrefix (errText e) "mailbox: " end
  end.

(** [TestResult.fail] and [TestResult.succeed] *)
Definition testFail (r : TestResult) (stage : string) (e : mailErr) : TestResult :=
  r <| tr_OK := false |> <| tr_Stage := stage |> <| tr_Error := cleanErr e |>.
Definition testSucceed (r : TestResult) : TestResult := r <| tr_OK := true |> <| tr_Stage := StageOK |>.

(** [Config.testFolders] *)
Definition addFolder (out : list string) (f : string) : list string :=
  let f := TrimSpace f in
  if strEq f "" then out else if existsb (λ have, EqualFold have f) out then out else out ++ [f].
Definition testFolders (c : MailConfig) : list string := foldl addFolder [mc_Folder c] (mc_ExtraFolders c).
End test.

(** [statCount]; [range] decodes runes, and a byte of a longer rune is no digit. *)
Fixpoint digitsFrom (s : string) (n : Z) : Z :=
  match s with
  | EmptyString => n
  | String c s' => if isDigit c then digitsFrom s' (int64 (n * 10 + (Z.of_nat (Ascii.nat_of_ascii c) - 48))) else 0
  end.
Definition statCount (stat : string) : Z :=
  let s := TrimSpace stat in
  digitsFrom (match cutByte (toByte 32) s with Some (first, _) => first | None => s end) 0.

(** The timeouts of a test. *)
Definition testTimeouts (c : MailConfig) : MailConfig :=
  let c := if TestTimeout <? mc_DialTimeout c then c <| mc_DialTimeout := TestTimeout |> else c in
  if TestTimeout <? mc_Timeout c then c <| mc_Timeout := TestTimeout |> else c.

(** The password a session logs in with. *)
Definition decryptPassword (cipher : option (string → mailErr + string)) (c : MailConfig) : mailErr + string :=
  match cipher with
  | Some decrypt => if strEq (mc_Password c) "" then inr "" else decrypt (mc_Password c)
  | None => inr (mc_Password c)
  end.

(** ** The client interface *)

(** [Client], with [Idler] where a client has it. *)
Class MailClient (C : Type) := {
  cl_Fetch : Z → MM C (list Message);
  cl_Ack : list string → string → MM C unit;
  cl_Close : MM C unit;
  cl_Idle : option (Duration → MM C unit);
}.

(** What the interface promises of a session that does not fail: there is a
    list of unhandled messages, oldest first, that [Fetch] shows the front of
    (in which order is the client's) and [Ack] with the action [a] takes
    messages off.  [um_ok] is what the session keeps. *)
Class UnhandledMail (C : Type) `{MailClient C} (a : string) := {
  um_ok : C → Prop;
  um_pending : C → list Message;
  um_NoDup c : um_ok c → NoDup (mg_ID <$> um_pending c);
  um_fetch max c : um_ok c → 0 < max →
    ∃ batch c', cl_Fetch max c = (inr batch, c') ∧ batch ≡ₚ capTo max (um_pending c) ∧
      um_ok c' ∧ um_pending c' = um_pending c ∧
      (∀ ids, (∀ id, id ∈ ids → id ∈ mg_ID <$> batch) →
         ∃ c'', cl_Ack ids a c' = (inr tt, c'') ∧ um_ok c'' ∧
           um_pending c'' = filter (λ m, mg_ID m ∉ ids) (um_pending c));
}.

(** ** The in-memory client ([Fake]) *)

Record Fake := mkFake {
  fk_msgs : list Message;
  fk_acked : list (list string * string);
  fk_seen : gset string;
  fk_FetchErr : option mailErr;
  fk_AckErr : option mailErr;
  fk_Closed : Z;
  fk_Fetches : Z;
}.
#[global] Instance Fake_eta : Eta Fake := λ f,
  mkFake (fk_msgs f) (fk_acked f) (fk_seen f) (fk_FetchErr f) (fk_AckErr f) (fk_Closed f) (fk_Fetches f).

(** [Fake.Add] *)
Definition fakeAdd (raw : string) (f : Fake) : string * Fake :=
  let id := Itoa (length (fk_msgs f) + 1) in
  (id, f <| fk_msgs := fk_msgs f ++ [mkMessage id raw (len (fk_msgs f) * Second)] |>).

(** [NewFake] *)
Definition NewFake (raws : list string) : Fake :=
  foldl (λ f raw, (fakeAdd raw f).2) (mkFake [] [] ∅ None None 0 0) raws.

(** The loop of [Fake.Fetch]: it stops when [max] messages are out. *)
Fixpoint fakeTake (seen : gset string) (max : Z) (msgs out : list Message) : list Message :=
  match msgs with
  | [] => out
  | m :: msgs' =>
      if bool_decide (mg_ID m ∈ seen) then fakeTake seen max msgs' out
      else
        let out := out ++ [m] in
        if (0 <? max) && (len out =? max) then out else fakeTake seen max msgs' out
  end.

Definition fakeFetch (max : Z) : MM Fake (list Message) := λ f,
  let f := f <| fk_Fetches := fk_Fetches f + 1 |> in
  match fk_FetchErr f with
  | Some e => (inl e, f)
  | None => (inr (fakeTake (fk_seen f) max (fk_msgs f) []), f)
  end.

(** [containsID] *)
Fixpoint containsID (ids : list string) (id : string) : bool :=
  match ids with
  | [] => false
  | v :: ids' => strEq v id || containsID ids' id
  end.

Definition fakeAck (ids : list string) (action : string) : MM Fake unit := λ f,
  match fk_AckErr f with
  | Some e => (inl e, f)
  | None =>
      match ids with
      | [] => (inr tt, f)
      | _ =>
          let f := f <| fk_acked := fk_acked f ++ [(ids, action)] |> <| fk_seen := list_to_set ids ∪ fk_seen f |> in
          (inr tt, if strEq action ActionDelete
                   then f <| fk_msgs := filter (λ m, containsID ids (mg_ID m) = false) (fk_msgs f) |> else f)
      end
  end.

Definition fakeClose : MM Fake unit := λ f, (inr tt, f <| fk_Closed := fk_Closed f + 1 |>).

(** [Acks], [AckedIDs] and [Remaining] *)
Definition fakeAckedIDs (f : Fake) : list string := sortStrings (elements (fk_seen f)).
Definition fakeRemaining (f : Fake) : Z := len (fk_msgs f).

#[global] Instance Fake_client : MailClient Fake := {|
  cl_Fetch := fakeFetch; cl_Ack := fakeAck; cl_Close := fakeClose; cl_Idle := None |}.

(** *** It keeps the interface's promise *)

Lemma list_filter_ext {A} (P Q : A → Prop) `{!∀ x, Decision (P x), !∀ x, Decision (Q x)} (l : list A) :
  (∀ x, x ∈ l → P x ↔ Q x) → filter P l = filter Q l.
Proof.
  intros Hl. induction l as [|x l IH]; [done|]. rewrite !filter_cons.
  rewrite IH by (intros y Hy; apply Hl; by right). pose proof (Hl x (list_elem_of_here _ _)). repeat case_decide; tauto || done.
Qed.

Lemma list_filter_all {A} (P : A → Prop) `{!∀ x, Decision (P x)} (l : list A) : (∀ x, x ∈ l → P x) → filter P l = l.
Proof.
  intros Hl. induction l as [|x l IH]; [done|]. rewrite filter_cons_True by apply Hl, list_elem_of_here.
  f_equal. apply IH. intros y Hy. apply Hl. by right.
Qed.

Lemma list_filter_nil {A} (P : A → Prop) `{!∀ x, Decision (P x)} (l : list A) : (∀ x, x ∈ l → ¬ P x) → filter P l = [].
Proof.
  intros Hl. induction l as [|x l IH]; [done|]. rewrite filter_cons_False by apply Hl, list_elem_of_here.
  apply IH. intros y Hy. apply Hl. by right.
Qed.

Definition fakePending (f : Fake) : list Message := filter (λ m, mg_ID m ∉ fk_seen f) (fk_msgs f).

Lemma fakeTake_spec seen max msgs out :
  0 < max → len out < max →
  fakeTake seen max msgs out = capTo max (out ++ filter (λ m, mg_ID m ∉ seen) msgs).
Proof.
  intros Hm. revert out. induction msgs as [|m msgs IH]; intros out Hl; cbn [fakeTake].
  - rewrite app_nil_r, capTo_all; [done|lia].
  - case_bool_decide as Hs.
    + rewrite filter_cons_False by tauto. by apply IH.
    + rewrite filter_cons_True by done. rewrite (cons_middle m out (filter _ msgs)), (assoc_L (++) out).
      assert (Hlen : len (out ++ [m]) = len out + 1) by (unfold len; rewrite length_app; cbn; lia).
      destruct (Z.eqb_spec (len (out ++ [m])) max) as [He|He].
      * rewrite (proj2 (Z.ltb_lt _ _)) by done. cbn [andb]. rewrite capTo_take by done. rewrite <-He. unfold len.
        by rewrite Nat2Z.id, take_app_length.
      * rewrite andb_false_r. apply IH. lia.
Qed.

Lemma containsID_spec ids id : containsID ids id = true ↔ id ∈ ids.
Proof.
  induction ids as [|v ids IH]; cbn; [by rewrite elem_of_nil|].
  rewrite orb_true_iff, IH, elem_of_cons. unfold strEq. rewrite bool_decide_eq_true. naive_solver.
Qed.

Lemma fakeAck_pending ids a f :
  fk_AckErr f = None →
  ∃ f', fakeAck ids a f = (inr tt, f') ∧ fk_AckErr f' = None ∧ fk_FetchErr f' = fk_FetchErr f ∧
    sublist (fk_msgs f') (fk_msgs f) ∧ fakePending f' = filter (λ m, mg_ID m ∉ ids) (fakePending f).
Proof.
  intros He. unfold fakeAck. rewrite He. destruct ids as [|id ids].
  - eexists. split_and!; [done..|]. unfold fakePending. symmetry. apply list_filter_filter_r. intros x _. apply not_elem_of_nil.
  - set (l := id :: ids). clearbody l. eexists. split; [done|]. unfold strEq. case_bool_decide as Ha; cbn.
    + split_and!; [done..|apply sublist_filter|]. unfold fakePending. cbn. rewrite !list_filter_filter. apply list_filter_iff. intros x.
      rewrite not_elem_of_union, elem_of_list_to_set. rewrite <-not_true_iff_false, containsID_spec. tauto.
    + split_and!; [done..|]. unfold fakePending. cbn. rewrite list_filter_filter. apply list_filter_iff. intros x.
      rewrite not_elem_of_union, elem_of_list_to_set. tauto.
Qed.

Definition fakeOk (f : Fake) : Prop := fk_FetchErr f = None ∧ fk_AckErr f = None ∧ NoDup (mg_ID <$> fk_msgs f).

#[global] Instance Fake_unhandled a : UnhandledMail Fake a.
Proof.
  refine (Build_UnhandledMail Fake _ a fakeOk fakePending _ _).
  - intros f (_&_&Hnd). eapply sublist_NoDup; [exact Hnd|]. apply fmap_sublist, sublist_filter.
  - intros max f (Hf&Ha&Hnd) Hm. eexists _, _. split.
    { cbn. unfold fakeFetch. cbn. rewrite Hf. rewrite fakeTake_spec by (unfold len; cbn; lia). done. }
    split_and!; [done|by repeat split|done|]. intros ids _.
    match goal with |- context [cl_Ack _ _ ?x] => destruct (fakeAck_pending ids a x Ha) as (f'&H1&H2&H3&H4&H5) end.
    exists f'. split_and!; [exact H1| |exact H5]. split_and!; [by rewrite H3|done|].
    eapply sublist_NoDup; [exact Hnd|]. by apply fmap_sublist.
Defined.
