(* ===== verification/Pop3.v ===== *)
(** * The POP3 client ([internal/mailbox/pop3.go], and its part of [test.go])

    The client is written here over a connection: the bytes that arrive are
    read in lines through [bufio], and what is written is answered by a peer
    that may answer anything.  [Pop3Props] holds the theorems. *)

From S2P Require Import Prelude Enums Model Classify Codec Tokens LineReader Email Platform BounceReport Bounce MailboxHealth Mailbox.

(** ** The connection *)

(** What the network and the peer do.  A write may fail; a dial, a TLS
    handshake and a flush yield the bytes that arrive on the connection before
    the client reads on; a read that finds no line
    fails with [nw_readErr].  [nw_ctx] is the context's error. *)
Record network (P : Type) := mkNetwork {
  nw_dial : P → option mailErr * string * P;
  nw_handshake : P → option mailErr * string * P;
  nw_write : string → P → option mailErr * P;
  nw_flush : P → option mailErr * string * P;
  nw_readErr : P → mailErr;
  nw_close : P → option mailErr * P;
  nw_ctx : P → option mailErr;
}.
Arguments nw_dial {P} _ _. Arguments nw_handshake {P} _ _. Arguments nw_write {P} _ _ _.
Arguments nw_flush {P} _ _. Arguments nw_readErr {P} _ _. Arguments nw_close {P} _ _. Arguments nw_ctx {P} _ _.

(** [pop3Mailbox]: its reader holds the complete lines that arrived and the
    rest; [p3_secure] tells whether the connection is TLS, [p3_sent] what was
    written so far, with that. *)
Record pop3Mailbox (P : Type) := mkPop3 {
  p3_peer : P;
  p3_lines : list string;
  p3_tail : string;
  p3_secure : bool;
  p3_open : bool;
  p3_nums : gmap string Z;
  p3_closed : bool;
  p3_sent : list (bool * string);
}.
Arguments mkPop3 {P} _ _ _ _ _ _ _ _.
Arguments p3_peer {P} _. Arguments p3_lines {P} _. Arguments p3_tail {P} _. Arguments p3_secure {P} _.
Arguments p3_open {P} _. Arguments p3_nums {P} _. Arguments p3_closed {P} _. Arguments p3_sent {P} _.
#[global] Instance pop3Mailbox_eta P : Eta (pop3Mailbox P) := λ m,
  mkPop3 (p3_peer m) (p3_lines m) (p3_tail m) (p3_secure m) (p3_open m) (p3_nums m) (p3_closed m) (p3_sent m).

Definition CRLF : string := String CR (String LF "").

(** The complete lines of a text, line feeds included, and the rest. *)
Fixpoint cutLines (s : string) : list string * string :=
  match s with
  | EmptyString => ([], "")
  | String c s' =>
      let '(ls, t) := cutLines s' in
      if Ascii.eqb c LF then (String c "" :: ls, t)
      else match ls with [] => ([], String c t) | l :: ls' => (String c l :: ls', t) end
  end.

(** [strings.TrimRight(line, CRLF)] *)
Fixpoint trimEOL (s : string) : string :=
  match s with
  | EmptyString => ""
  | String c s' =>
      let t := trimEOL s' in
      if strEq t "" && (Ascii.eqb c CR || Ascii.eqb c LF) then "" else String c t
  end.

(** [unstuff] *)
Definition unstuff (line : string) : string := if String.prefix ".." line then strDrop 1 line else line.

Section pop3.
Context {P : Type} (net : network P).
#[local] Abbreviation session := (pop3Mailbox P).

(** Bytes arrive. *)
Definition arrive (text : string) (m : session) : session :=
  let '(ls, t) := cutLines (p3_tail m +:+ text) in
  m <| p3_lines := p3_lines m ++ ls |> <| p3_tail := t |>.

(** [m.reset(conn)]: fresh buffers; what the old reader held is dropped. *)
Definition resetReader (m : session) : session := m <| p3_lines := [] |> <| p3_tail := "" |>.

(** [m.r.ReadString('\n')] *)
Definition readString : MM session string := λ m,
  match p3_lines m with
  | l :: ls => (inr l, m <| p3_lines := ls |>)
  | [] => (inl (nw_readErr net (p3_peer m)), m <| p3_tail := "" |>)
  end.

(** [conn.Close()] *)
Definition closeConn : MM session unit := λ m,
  let '(err, p) := nw_close net (p3_peer m) in
  let m := m <| p3_peer := p |> <| p3_open := false |> in
  match err with Some e => (inl e, m) | None => (inr tt, m) end.

(** *** Protocol *)

Definition pop3Send (line : string) : MM session unit := λ m,
  let m := m <| p3_sent := p3_sent m ++ [(p3_secure m, line)] |> in
  match nw_write net (line +:+ CRLF) (p3_peer m) with
  | (Some e, p) => (inl (errWrap "mailbox: pop3 write" e), m <| p3_peer := p |>)
  | (None, p) =>
      match nw_flush net p with
      | (Some e, text, p) => (inl (errWrap "mailbox: pop3 flush" e), arrive text (m <| p3_peer := p |>))
      | (None, text, p) => (inr tt, arrive text (m <| p3_peer := p |>))
      end
  end.

Definition okToken : string := "+OK".
Definition errToken : string := "-ERR".

(** [readStatus]: what a status line says *)
Definition parseStatus (line : string) : mailErr + string :=
  if String.prefix okToken line then inr (TrimSpace (TrimPrefix line okToken))
  else if String.prefix errToken line then inl (ServerError (TrimSpace (TrimPrefix line errToken)))
  else inl (errUnexpected line).

Definition readStatus : MM session string := λ m,
  match readString m with
  | (inl e, m) => (inl (errWrap "mailbox: pop3 read" e), m)
  | (inr line, m) => (parseStatus (trimEOL line), m)
  end.

(** [cmd] *)
Definition pop3Cmd (line : string) : MM session string :=
  let@ _ := pop3Send line in readStatus.

(** The lines up to the dot, and what follows it; none if there is no dot. *)
Fixpoint multiLines (ls : list string) : option (list string * list string) :=
  match ls with
  | [] => None
  | l :: ls' =>
      let line := trimEOL l in
      if strEq line "." then Some ([], ls')
      else match multiLines ls' with Some (out, rest) => Some (unstuff line :: out, rest) | None => None end
  end.

(** [multi] *)
Definition pop3Multi (command : string) : MM session (list string) :=
  let@ _ := pop3Cmd command in λ m,
  match multiLines (p3_lines m) with
  | Some (out, rest) => (inr out, m <| p3_lines := rest |>)
  | None => (inl (errWrap "mailbox: pop3 read" (nw_readErr net (p3_peer m))), resetReader m)
  end.

(** The same for a message: each line gets its line ending back. *)
Fixpoint retrLines (ls : list string) : option (string * list string) :=
  match ls with
  | [] => None
  | l :: ls' =>
      let line := trimEOL l in
      if strEq line "." then Some ("", ls')
      else match retrLines ls' with Some (out, rest) => Some (unstuff line +:+ CRLF +:+ out, rest) | None => None end
  end.

(** [retr] *)
Definition retr (num : Z) : MM session string :=
  let@ _ := pop3Cmd ("RETR " +:+ itoa num) in λ m,
  match retrLines (p3_lines m) with
  | Some (raw, rest) => (inr raw, m <| p3_lines := rest |>)
  | None =>
      let e := nw_readErr net (p3_peer m) in
      (inl (if bool_decide (e = EOFError) then errTruncated num else errWrap "mailbox: pop3 read" e), resetReader m)
  end.

(** *** [Fetch] *)

(** A line of the UIDL listing *)
Definition uidlEntry (line : string) : option (Z * string) :=
  match cutByte (toByte 32) (TrimSpace line) with
  | None => None
  | Some (num, uid) => match Atoi num with Some n => Some (n, TrimSpace uid) | None => None end
  end.

Definition entryLe (a b : Z * string) : Prop := a.1 ≤ b.1.
#[global] Instance entryLe_dec : RelDecision entryLe := λ a b, Z.le_dec a.1 b.1.

Fixpoint retrAll (entries : list (Z * string)) (out : list Message) : MM session (list Message) :=
  match entries with
  | [] => mret_ out
  | (num, uid) :: entries' =>
      let@ raw := retr num in
      let@ _ := mdo (λ m, m <| p3_nums := <[uid := num]> (p3_nums m) |>) in
      retrAll entries' (out ++ [mkMessage uid raw zeroTime])
  end.

(** [pop3Mailbox.Fetch]; on an error the messages read so far go with it. *)
Definition pop3Fetch (max : Z) : MM session (list Message) :=
  let@ lines := pop3Multi "UIDL" in
  let@ out := retrAll (capTo max (merge_sort entryLe (omap uidlEntry lines))) [] in λ m,
  match nw_ctx net (p3_peer m) with Some e => (inl e, m) | None => (inr out, m) end.

(** *** [Ack] *)

Fixpoint deleAll (ids : list string) : MM session unit :=
  match ids with
  | [] => mret_ tt
  | id :: ids' => λ m,
      match p3_nums m !! id with
      | None => deleAll ids' m
      | Some num =>
          (let@ _ := pop3Cmd ("DELE " +:+ itoa num) in
           let@ _ := mdo (λ m, m <| p3_nums := delete id (p3_nums m) |>) in
           deleAll ids') m
      end
  end.

(** [pop3Mailbox.Ack] *)
Definition pop3Ack (ids : list string) (action : string) : MM session unit :=
  if bool_decide (ids = []) || strEq action ActionKeep then mret_ tt
  else
    match MoveFolder action with
    | Some _ => mfail ErrNoFolders
    | None => if negb (strEq action ActionDelete) then mfail (errUnknownAction action) else deleAll ids
    end.

(** [pop3Mailbox.Close] *)
Definition pop3Close : MM session unit := λ m,
  if p3_closed m then (inr tt, m)
  else
    let '(quit, m) := pop3Cmd "QUIT" (m <| p3_closed := true |>) in
    let '(closed, m) := closeConn m in
    (match quit with inl e => inl e | inr _ => closed end, m).

(** ** Dialing *)

Definition newSession (p : P) : session := mkPop3 p [] "" false false ∅ false [].

(** A failed dial closes the connection. *)
Definition closing {A} (m : MM session A) : MM session A :=
  mtry m (λ r, match r with inl e => mtry closeConn (λ _, mfail e) | inr a => mret_ a end).

(** [Config.dialConn] and [testDial], which report the stage and the error. *)
Definition dialStaged (cfg : MailConfig) : MM session (option (string * mailErr)) := λ m,
  match nw_dial net (p3_peer m) with
  | (Some e, _, p) => (inr (Some (StageDial, e)), m <| p3_peer := p |>)
  | (None, text, p) =>
      let m := arrive text (m <| p3_peer := p |> <| p3_open := true |>) in
      if negb (strEq (mc_TLS cfg) TLSModeImplicit) then (inr None, m)
      else
        match nw_handshake net (p3_peer m) with
        | (Some e, _, p) =>
            let '(_, m) := closeConn (m <| p3_peer := p |>) in (inr (Some (StageTLS, e)), m)
        | (None, text, p) => (inr None, arrive text (resetReader (m <| p3_peer := p |> <| p3_secure := true |>)))
        end
  end.

Definition dialConn (cfg : MailConfig) : MM session unit :=
  let@ failed := dialStaged cfg in
  match failed with
  | None => mret_ tt
  | Some (stage, e) =>
      mfail (DialError stage (errWrap (if strEq stage StageDial then "mailbox: dial" else "mailbox: tls handshake") e))
  end.

(** [HandshakeContext] of the upgraded connection, whose buffers are new. *)
Definition startTLS : MM session unit := λ m,
  match nw_handshake net (p3_peer m) with
  | (Some e, _, p) => (inl e, m <| p3_peer := p |>)
  | (None, text, p) => (inr tt, arrive text (resetReader (m <| p3_peer := p |> <| p3_secure := true |>)))
  end.

(** [dialPOP3] *)
Definition dialPOP3 (cfg : MailConfig) (password : string) : MM session unit :=
  let@ _ := dialConn cfg in
  closing (
    let@ _ := mapErr (λ e, DialError StageDial (errWrap "mailbox: pop3 greeting" e)) readStatus in
    let@ _ :=
      (if strEq (mc_TLS cfg) TLSModeSTARTTLS then
         let@ _ := mapErr (λ e, DialError StageTLS (errWrap "mailbox: pop3 stls" e)) (pop3Cmd "STLS") in
         mapErr (λ e, DialError StageTLS (errWrap "mailbox: pop3 tls handshake" e)) startTLS
       else mret_ tt) in
    let@ _ := mapErr (λ e, DialError (loginStage e) (errWrap "mailbox: pop3 user" e)) (pop3Cmd ("USER " +:+ mc_Username cfg)) in
    let@ _ := mapErr (λ e, DialError (loginStage e) (errWrap "mailbox: pop3 login" e)) (pop3Cmd ("PASS " +:+ password)) in
    mret_ tt).

(** ** Testing *)

Section test.
Context (errText : mailErr → string).

(** A step of a test: its failure is the result. *)
Definition testStep {A} (stage : mailErr → string) (res : TestResult) (m : MM session A)
    (k : A → MM session TestResult) : MM session TestResult :=
  mtry m (λ r, match r with inl e => mret_ (testFail errText res (stage e) e) | inr a => k a end).

(** [testPOP3]; the connection is closed in every case. *)
Definition testPOP3 (cfg : MailConfig) (password : string) (res : TestResult) : MM session TestResult :=
  let@ failed := dialStaged cfg in
  match failed with
  | Some (stage, e) => mret_ (testFail errText res stage e)
  | None =>
      let@ out :=
        testStep (λ _, StageDial) res readStatus (λ greeting,
          let res := res <| tr_Server := greeting |> in
          let login :=
            testStep loginStage res (pop3Cmd ("USER " +:+ mc_Username cfg)) (λ _,
            testStep loginStage res (pop3Cmd ("PASS " +:+ password)) (λ _,
            testStep (λ _, StageFolder) res (pop3Cmd "STAT") (λ stat,
              let res := res <| tr_Folders := <[mc_Folder cfg := mkFolderInfo true (statCount stat)]> (tr_Folders res) |> in
              mtry (pop3Cmd "QUIT") (λ _, mret_ (testSucceed res))))) in
          if strEq (mc_TLS cfg) TLSModeSTARTTLS then
            testStep (λ _, StageTLS) res (pop3Cmd "STLS") (λ _, testStep (λ _, StageTLS) res startTLS (λ _, login))
          else login) in
      mtry closeConn (λ _, mret_ out)
  end.
End test.
End pop3.

(** As a [Client] *)
Definition pop3_client {P} (net : network P) : MailClient (pop3Mailbox P) := {|
  cl_Fetch := pop3Fetch net; cl_Ack := pop3Ack net; cl_Close := pop3Close net; cl_Idle := None |}.
