(* ===== verification/Pop3Props.v ===== *)
(** * Properties of the POP3 client

    No peer can make it send the credentials in the clear when the mailbox asks
    for TLS; a message comes out of the transfer encoding exactly as it went
    in; and against a server that follows RFC 1939 ([Maildrop]) a session that
    deletes keeps the promise of the mailbox interface. *)

From Stdlib Require Import DecimalString DecimalN.
From S2P Require Import Prelude Enums Model Classify Codec Tokens LineReader Email Text Platform BounceReport Bounce MailboxHealth Mailbox Pop3.

(** ** Credentials *)

(** [hoare Pre m Post]: from a session that satisfies [Pre], [m] ends with a
    result and a session that satisfy [Post]. *)
Definition hoare {S A} (Pre : S → Prop) (m : MM S A) (Post : mailErr + A → S → Prop) : Prop :=
  ∀ s, Pre s → Post (m s).1 (m s).2.

Lemma hoare_bind {S A B} Pre (m : MM S A) (k : A → MM S B) (Mid : A → S → Prop) (Err : mailErr → S → Prop) Post :
  hoare Pre m (λ r s, match r with inl e => Err e s | inr a => Mid a s end) →
  (∀ e s, Err e s → Post (inl e) s) → (∀ a, hoare (Mid a) (k a) Post) → hoare Pre (mbind_ m k) Post.
Proof.
  intros Hm He Hk s Hs. unfold mbind_. specialize (Hm s Hs). destruct (m s) as [[e|a] s']; cbn in *; [by apply He|by apply Hk].
Qed.

Lemma hoare_try {S A B} Pre (m : MM S A) (k : mailErr + A → MM S B) Mid Post :
  hoare Pre m Mid → (∀ r, hoare (Mid r) (k r) Post) → hoare Pre (mtry m k) Post.
Proof.
  intros Hm Hk s Hs. unfold mtry. specialize (Hm s Hs). destruct (m s) as [r s']. by apply Hk.
Qed.

Lemma hoare_conseq {S A} Pre Pre' (m : MM S A) Post Post' :
  hoare Pre m Post → (∀ s, Pre' s → Pre s) → (∀ r s, Post r s → Post' r s) → hoare Pre' m Post'.
Proof. intros Hm H1 H2 s Hs. by apply H2, Hm, H1. Qed.

Lemma hoare_mapErr {S A} Pre f (m : MM S A) (I : S → Prop) (Mid : S → Prop) :
  hoare Pre m (λ r s, match r with inl _ => I s | inr _ => Mid s end) →
  hoare Pre (mapErr f m) (λ r s, match r with inl _ => I s | inr _ => Mid s end).
Proof. intros Hm. eapply hoare_try; [exact Hm|]. by intros [e|a] s. Qed.

Section credentials.
Context {P : Type} (net : network P).
#[local] Abbreviation session := (pop3Mailbox P).

(** Nothing but the request for TLS went out in the clear. *)
Definition sentSecurely (m : session) : Prop := Forall (λ x, x.1 = true ∨ x.2 = "STLS") (p3_sent m).
Definition secured (m : session) : Prop := sentSecurely m ∧ p3_secure m = true.

Lemma arrive_sent text (m : session) : p3_sent (arrive text m) = p3_sent m ∧ p3_secure (arrive text m) = p3_secure m.
Proof. unfold arrive. by destruct (cutLines _). Qed.

Lemma send_secure line (m : session) :
  sentSecurely m → p3_secure m = true ∨ line = "STLS" →
  sentSecurely (pop3Send net line m).2 ∧ p3_secure (pop3Send net line m).2 = p3_secure m.
Proof.
  intros Hs Hl. assert (Hs' : Forall (λ x, x.1 = true ∨ x.2 = "STLS") (p3_sent m ++ [(p3_secure m, line)])).
  { apply Forall_app. split; [exact Hs|]. apply Forall_singleton. tauto. }
  unfold pop3Send, sentSecurely. cbn. destruct (nw_write net _ _) as [[e|] p]; cbn; [done|].
  destruct (nw_flush net p) as [[[e|] text] p']; cbn;
    match goal with |- context [arrive text ?x] => destruct (arrive_sent text x) as [-> ->] end; done.
Qed.

Lemma read_secure (m : session) : p3_sent (readStatus net m).2 = p3_sent m ∧ p3_secure (readStatus net m).2 = p3_secure m.
Proof. unfold readStatus, readString. destruct (p3_lines m); cbn; done. Qed.

Lemma cmd_keeps line (m : session) :
  sentSecurely m → p3_secure m = true ∨ line = "STLS" →
  sentSecurely (pop3Cmd net line m).2 ∧ p3_secure (pop3Cmd net line m).2 = p3_secure m.
Proof.
  intros Hs Hl. destruct (send_secure line m Hs Hl) as [H1 H2]. unfold pop3Cmd, mbind_.
  destruct (pop3Send net line m) as [[e|[]] m1]; cbn in *; [done|].
  unfold sentSecurely. by rewrite (proj1 (read_secure m1)), (proj2 (read_secure m1)).
Qed.

Lemma cmd_secured line : hoare secured (pop3Cmd net line) (λ _, secured).
Proof. intros m [Hs Hc]. destruct (cmd_keeps line m Hs) as [H1 H2]; [by left|]. split; [done|]. by rewrite H2. Qed.

Lemma close_sent (m : session) : p3_sent (closeConn net m).2 = p3_sent m.
Proof. unfold closeConn. by destruct (nw_close net _) as [[e|] p]. Qed.

Lemma dialStaged_secure cfg (p : P) :
  let '(r, m) := dialStaged net cfg (newSession p) in
  p3_sent m = [] ∧ (r = inr None → p3_secure m = strEq (mc_TLS cfg) TLSModeImplicit).
Proof.
  unfold dialStaged. cbn. destruct (nw_dial net p) as [[[e|] text] p1]; [by split|].
  destruct (strEq (mc_TLS cfg) TLSModeImplicit) eqn:E; cbn [negb];
    [|by rewrite (proj1 (arrive_sent _ _)), (proj2 (arrive_sent _ _))].
  destruct (nw_handshake net _) as [[[e|] text'] p2].
  - match goal with |- context [closeConn net ?x] => pose proof (close_sent x) as Hc; destruct (closeConn net x) as [r m] end.
    cbn in Hc. rewrite (proj1 (arrive_sent _ _)) in Hc. by split.
  - rewrite (proj1 (arrive_sent _ _)), (proj2 (arrive_sent _ _)). cbn. by rewrite (proj1 (arrive_sent _ _)).
Qed.

Lemma startTLS_secure (m : session) :
  sentSecurely m → sentSecurely (startTLS net m).2 ∧ ((startTLS net m).1 = inr tt → p3_secure (startTLS net m).2 = true).
Proof.
  intros Hs. unfold startTLS. destruct (nw_handshake net _) as [[[e|] text] p]; cbn; [done|].
  unfold sentSecurely. rewrite (proj1 (arrive_sent _ _)), (proj2 (arrive_sent _ _)). done.
Qed.

(** After the greeting a session that is not secure has TLS still to start. *)
Definition upgradable (cfg : MailConfig) (m : session) : Prop :=
  sentSecurely m ∧ (p3_secure m = true ∨ mc_TLS cfg = TLSModeSTARTTLS).

(** The outcome of a step, after which the session is secure or it failed. *)
Definition okSecured {A} (r : mailErr + A) (m : session) : Prop := match r with inl _ => sentSecurely m | inr _ => secured m end.

Lemma upgrade_secure cfg :
  hoare (upgradable cfg)
    (if strEq (mc_TLS cfg) TLSModeSTARTTLS then
       let@ _ := mapErr (λ e, DialError StageTLS (errWrap "mailbox: pop3 stls" e)) (pop3Cmd net "STLS") in
       mapErr (λ e, DialError StageTLS (errWrap "mailbox: pop3 tls handshake" e)) (startTLS net)
     else mret_ tt) okSecured.
Proof.
  intros m [Hs Hc]. unfold strEq. case_bool_decide as Ht; [|by destruct Hc].
  destruct (cmd_keeps "STLS" m Hs) as [H1 _]; [by right|]. unfold mapErr, mtry, mbind_.
  destruct (pop3Cmd net "STLS" m) as [[e|a] m1]; cbn in *; [done|].
  destruct (startTLS_secure m1 H1) as [H2 H3]. destruct (startTLS net m1) as [[e|[]] m2]; cbn in *; [done|].
  split; [done|by apply H3].
Qed.
Lemma closing_secure {A} Pre (m : MM session A) :
  hoare Pre m (λ _, sentSecurely) → hoare Pre (closing net m) (λ _, sentSecurely).
Proof.
  intros Hm s Hs. unfold closing, mtry. specialize (Hm s Hs). destruct (m s) as [[e|a] s']; cbn in *; [|done].
  pose proof (close_sent s') as Hc. destruct (closeConn net s') as [r s'']. cbn in *. unfold sentSecurely. by rewrite Hc.
Qed.

Lemma step_secured {A} f (m : MM session A) (k : A → MM session unit) :
  hoare secured m (λ _, secured) → (∀ a, hoare secured (k a) (λ _, sentSecurely)) →
  hoare secured (let@ a := mapErr f m in k a) (λ _, sentSecurely).
Proof.
  intros Hm Hk. eapply (hoare_bind _ _ _ (λ _, secured) (λ _, sentSecurely)); [|done|done].
  apply hoare_mapErr. eapply hoare_conseq; [exact Hm|done|]. intros [e|a] s [? ?]; done.
Qed.

Lemma read_upgradable cfg : hoare (upgradable cfg) (readStatus net) (λ _, upgradable cfg).
Proof. intros m [Hs Hc]. unfold upgradable, sentSecurely. by rewrite (proj1 (read_secure m)), (proj2 (read_secure m)). Qed.

Lemma dialStaged_upgradable cfg (p : P) :
  mc_TLS cfg = TLSModeSTARTTLS ∨ mc_TLS cfg = TLSModeImplicit →
  let '(r, m) := dialStaged net cfg (newSession p) in
  ∃ f, r = inr f ∧ sentSecurely m ∧ (f = None → upgradable cfg m).
Proof.
  intros Ht. pose proof (dialStaged_secure cfg p) as Hd.
  assert (Hr : ∃ f, (dialStaged net cfg (newSession p)).1 = inr f).
  { unfold dialStaged. repeat (case_match; simplify_eq/=); eauto. }
  destruct Hr as [f Hf]. destruct (dialStaged net cfg (newSession p)) as [r m]. cbn in Hf. subst r. destruct Hd as [Hs Hc].
  exists f. assert (Hss : sentSecurely m) by (unfold sentSecurely; by rewrite Hs). split_and!; [done..|]. intros ->.
  split; [done|]. rewrite Hc by done. unfold strEq. case_bool_decide; [by left|]. naive_solver.
Qed.

Lemma dial_secure cfg password p :
  mc_TLS cfg = TLSModeSTARTTLS ∨ mc_TLS cfg = TLSModeImplicit →
  sentSecurely (dialPOP3 net cfg password (newSession p)).2.
Proof.
  intros Ht. unfold dialPOP3, dialConn, mbind_ at 1 2. pose proof (dialStaged_upgradable cfg p Ht) as Hd.
  destruct (dialStaged net cfg (newSession p)) as [r m]. destruct Hd as (f&->&Hs&Hu). destruct f as [[stage e]|]; [done|]. cbn [mret_].
  apply (closing_secure (upgradable cfg)); [|by apply Hu].
  eapply (hoare_bind _ _ _ (λ _, upgradable cfg) (λ _, sentSecurely)); [|done|intros _].
  { apply hoare_mapErr. eapply hoare_conseq; [apply read_upgradable|done|]. intros [e|a] s [? ?]; done. }
  eapply (hoare_bind _ _ _ (λ _, secured) (λ _, sentSecurely)); [|done|intros _].
  { eapply hoare_conseq; [apply upgrade_secure|done|]. by intros [e|a] s. }
  apply step_secured; [apply cmd_secured|intros _]. apply step_secured; [apply cmd_secured|intros _]. by intros s [? _].
Qed.

Lemma testStep_secure {A} errText stage res (m : MM session A) k (Pre Mid : session → Prop) :
  hoare Pre m (λ r s, match r with inl _ => sentSecurely s | inr _ => Mid s end) →
  (∀ a, hoare Mid (k a) (λ _, sentSecurely)) → hoare Pre (testStep errText stage res m k) (λ _, sentSecurely).
Proof. intros Hm Hk. eapply hoare_try; [exact Hm|]. intros [e|a]; [by intros s|apply Hk]. Qed.

Lemma cmd_step line : hoare secured (pop3Cmd net line) (λ r s, match r with inl _ => sentSecurely s | inr _ => secured s end).
Proof. eapply hoare_conseq; [apply cmd_secured|done|]. by intros [e|a] s [? ?]. Qed.

Lemma test_secure errText cfg password res p :
  mc_TLS cfg = TLSModeSTARTTLS ∨ mc_TLS cfg = TLSModeImplicit →
  sentSecurely (testPOP3 net errText cfg password res (newSession p)).2.
Proof.
  intros Ht. unfold testPOP3, mbind_ at 1. pose proof (dialStaged_upgradable cfg p Ht) as Hd.
  destruct (dialStaged net cfg (newSession p)) as [r m]. destruct Hd as (f&->&Hs&Hu). destruct f as [[stage e]|]; [done|].
  eapply (hoare_bind (upgradable cfg) _ _ (λ _, sentSecurely) (λ _, sentSecurely) (λ _, sentSecurely)); [|done|intros out|by apply Hu].
  2: { intros s Hss. unfold mtry. pose proof (close_sent s) as Hc. destruct (closeConn net s). cbn in *. unfold sentSecurely. by rewrite Hc. }
  apply (hoare_conseq (upgradable cfg) _ _ (λ _, sentSecurely)); [|done|by intros [? | ?]].
  apply (testStep_secure _ _ _ _ _ _ (upgradable cfg)).
  { eapply hoare_conseq; [apply read_upgradable|done|]. by intros [e|a] s [? ?]. }
  intros greeting. cbv zeta. assert (Hlogin : hoare secured
    (testStep errText loginStage (res <| tr_Server := greeting |>) (pop3Cmd net ("USER " +:+ mc_Username cfg)) (λ _,
     testStep errText loginStage (res <| tr_Server := greeting |>) (pop3Cmd net ("PASS " +:+ password)) (λ _,
     testStep errText (λ _, StageFolder) (res <| tr_Server := greeting |>) (pop3Cmd net "STAT") (λ stat,
       mtry (pop3Cmd net "QUIT") (λ _, mret_ (testSucceed ((res <| tr_Server := greeting |>)
         <| tr_Folders := <[mc_Folder cfg := mkFolderInfo true (statCount stat)]> (tr_Folders (res <| tr_Server := greeting |>)) |>))))))) (λ _, sentSecurely)).
  { do 3 (eapply testStep_secure; [apply cmd_step|intros ?]). eapply hoare_try; [apply cmd_secured|]. by intros ? s [? _]. }
  unfold strEq. case_bool_decide as Hstls.
  - apply (testStep_secure _ _ _ _ _ _ sentSecurely).
    { intros s [Hss _]. destruct (cmd_keeps "STLS" s Hss) as [H1 _]; [by right|]. by destruct (pop3Cmd net "STLS" s) as [[e|a] s']. }
    intros _. eapply testStep_secure; [|intros _; exact Hlogin]. intros s Hss. destruct (startTLS_secure s Hss) as [H1 H2].
    destruct (startTLS net s) as [[e|[]] s']; cbn in *; [done|]. split; [done|by apply H2].
  - eapply hoare_conseq; [exact Hlogin| |done]. intros s [Hss [Hc|Hc]]; [done|by destruct Hstls].
Qed.
End credentials.

(** ** The transfer encoding *)

(** Lines on the wire; a line; and a line the client reads back as it was: it
    ends in no carriage return. *)
Fixpoint wire (ls : list string) : string := match ls with [] => "" | l :: ls' => l +:+ CRLF +:+ wire ls' end.
Definition isLine (l : string) : Prop := hasByte LF l = false.
Definition goodLine (l : string) : Prop := hasByte LF l = false ∧ trimEOL l = l.

(** The byte-stuffing of RFC 1939, section 3. *)
Definition stuff (l : string) : string := if String.prefix "." l then "." +:+ l else l.

Lemma cutLines_line l s : hasByte LF l = false →
  cutLines (l +:+ (CRLF +:+ s)) = (((l +:+ CRLF) :: (cutLines s).1), (cutLines s).2).
Proof.
  intros Hl. induction l as [|c l IH].
  - rewrite !app_empty_str. unfold CRLF. rewrite !app_cons_str, app_empty_str. cbn. by destruct (cutLines s) as [ls t].
  - rewrite !app_cons_str. cbn in Hl. apply orb_false_iff in Hl as [Hc Hl]. cbn [cutLines]. rewrite IH by done.
    assert (Ascii.eqb c LF = false) as ->; [|done]. first [exact Hc|by rewrite Ascii.eqb_sym].
Qed.

Lemma cutLines_wire ls s : Forall (λ l, hasByte LF l = false) ls →
  cutLines (wire ls +:+ s) = (((λ l, l +:+ CRLF) <$> ls) ++ (cutLines s).1, (cutLines s).2).
Proof.
  induction ls as [|l ls IH]; intros Hls; [cbn [wire]; rewrite app_empty_str; by destruct (cutLines s)|].
  apply Forall_cons in Hls as [Hl Hls]. cbn [wire]. rewrite !app_assoc_str, cutLines_line by done. by rewrite IH.
Qed.

Lemma trimEOL_crlf l : trimEOL (l +:+ CRLF) = trimEOL l.
Proof. induction l as [|c l IH]; [done|]. rewrite app_cons_str. cbn. by rewrite IH. Qed.

Lemma stuff_line l : isLine l → isLine (stuff l).
Proof. unfold stuff, isLine. destruct (String.prefix "." l); [|done]. intros Hl. by rewrite app_cons_str, app_empty_str. Qed.

(** The client trims the stuffed line, which is stuffing the trimmed one. *)
Lemma trimEOL_stuff l : trimEOL (stuff l) = stuff (trimEOL l).
Proof.
  assert (Hdot : ∀ s, trimEOL (String (toByte 46) s) = String (toByte 46) (trimEOL s)) by (intros s; cbn; by rewrite andb_false_r).
  unfold stuff. destruct (String.prefix "." l) eqn:E.
  - apply strPrefix_cons in E as (s&->&_). rewrite app_cons_str, app_empty_str, !Hdot. by destruct (trimEOL s).
  - destruct l as [|c s]; [done|]. cbn [trimEOL]. destruct (_ && _); [done|].
    destruct (String.prefix "." (String c (trimEOL s))) eqn:E2; [|done]. apply strPrefix_cons in E2 as (s'&[= -> _]&_). by destruct s.
Qed.

Lemma stuff_no_dot l : stuff l ≠ ".".
Proof.
  unfold stuff. destruct (String.prefix "." l) eqn:E; [|by intros ->]. apply strPrefix_cons in E as (s'&->&_). by rewrite app_cons_str, app_empty_str.
Qed.

Lemma unstuff_stuff l : unstuff (stuff l) = l.
Proof.
  unfold stuff. destruct (String.prefix "." l) eqn:E.
  - apply strPrefix_cons in E as (s'&->&_). rewrite app_cons_str, app_empty_str. unfold unstuff. cbn. by destruct s'.
  - unfold unstuff. destruct (String.prefix ".." l) eqn:E2; [|done]. apply strPrefix_cons in E2 as (s'&->&_). cbn in E. by destruct s'.
Qed.

Lemma retrLines_stuffed body rest :
  retrLines (((λ l, stuff l +:+ CRLF) <$> body) ++ ("." +:+ CRLF) :: rest) = Some (wire (trimEOL <$> body), rest).
Proof.
  induction body as [|l body IH]; [done|]. cbn [fmap list_fmap app retrLines wire].
  rewrite trimEOL_crlf, trimEOL_stuff. unfold strEq. rewrite bool_decide_eq_false_2 by apply stuff_no_dot.
  rewrite IH. by rewrite unstuff_stuff.
Qed.

(** Trimming changes a line exactly if it ends in a carriage return. *)
Lemma trimEOL_fixed l : isLine l → trimEOL l = l ↔ lastByte l ≠ Some CR.
Proof.
  unfold isLine. induction l as [|c l IH]; [done|]. cbn [hasByte]. intros [Hc Hl]%orb_false_iff.
  assert (Hlf : Ascii.eqb c LF = false) by first [exact Hc|by rewrite Ascii.eqb_sym].
  cbn [trimEOL]. rewrite Hlf, orb_false_r. destruct l as [|c' l].
  - cbn. destruct (Ascii.eqb_spec c CR) as [->|Hne]; [naive_solver|]. split; [|done]. intros _ [= ?]. done.
  - specialize (IH Hl). change (lastByte (String c (String c' l))) with (lastByte (String c' l)). rewrite <- IH.
    destruct (_ && _) eqn:E; [|split; [intros He; by apply (f_equal (strDrop 1)) in He|by intros ->]]. split; [done|]. intros He. rewrite He in E. by cbn in E.
Qed.

Lemma trimEOL_line l : isLine l → isLine (trimEOL l).
Proof.
  unfold isLine. induction l as [|c l IH]; [done|]. cbn [hasByte trimEOL]. intros [Hc Hl]%orb_false_iff.
  destruct (_ && _); [done|]. cbn [hasByte]. by rewrite Hc, IH.
Qed.

Lemma wire_inj ls ls' : Forall isLine ls → Forall isLine ls' → wire ls = wire ls' → ls = ls'.
Proof.
  intros Hl Hl' He%(f_equal (λ s, (cutLines (s +:+ "")).1)). rewrite !cutLines_wire in He by done. cbn in He. rewrite !app_nil_r in He.
  revert He. apply list_fmap_eq_inj. intros a b. revert b. induction a as [|c a IH]; intros [|c' b]; rewrite ?app_cons_str, ?app_empty_str.
  - done.
  - intros He%(f_equal String.length). cbn in He. rewrite length_app_str in He. cbn in He. lia.
  - intros He%(f_equal String.length). cbn in He. rewrite length_app_str in He. cbn in He. lia.
  - intros [= -> Hab]. f_equal. by apply IH.
Qed.

Lemma multiLines_plain ls rest : Forall (λ l, goodLine l ∧ String.prefix "." l = false) ls →
  multiLines (((λ l, l +:+ CRLF) <$> ls) ++ ("." +:+ CRLF) :: rest) = Some (ls, rest).
Proof.
  induction ls as [|l ls IH]; intros Hb; [done|]. apply Forall_cons in Hb as [[Hl Hd] Hb]. cbn [fmap list_fmap app multiLines].
  rewrite trimEOL_crlf, (proj2 Hl). unfold strEq. rewrite bool_decide_eq_false_2 by (intros ->; done).
  rewrite IH by done. unfold unstuff. destruct (String.prefix ".." l) eqn:E; [|done].
  apply strPrefix_cons in E as (s'&->&_). cbn in Hd. by destruct s'.
Qed.

(** ** A server that follows RFC 1939 *)

(** A message of the maildrop: its number, its unique id, its lines. *)
Record popMail := mkPopMail { pl_num : nat; pl_uid : string; pl_body : list string }.

(** What the client makes of it: [retr] trims its lines. *)
Definition popMessage (x : popMail) : Message := mkMessage (pl_uid x) (wire (trimEOL <$> pl_body x)) zeroTime.

(** A unique id is made of graphic characters. *)
Abbreviation goodUID := graphicText.

Definition uidlLine (x : popMail) : string := itoa (Z.of_nat (pl_num x)) +:+ " " +:+ pl_uid x.

(** The peer answers a line with a text. *)
Definition answers {P} (net : network P) (line : string) (p : P) (text : string) (p' : P) : Prop :=
  ∃ p1, nw_write net (line +:+ CRLF) p = (None, p1) ∧ nw_flush net p1 = (None, text, p').

(** RFC 1939's transaction state: what UIDL, RETR and DELE answer and do. *)
Class Maildrop {P} (net : network P) := {
  md_ok : P → Prop;
  md_mails : P → list popMail;
  md_ctx p : md_ok p → nw_ctx net p = None;
  md_sorted p : md_ok p → StronglySorted (λ a b, pl_num a < pl_num b)%nat (md_mails p);
  md_unique p : md_ok p → NoDup (pl_uid <$> md_mails p);
  md_good p x : md_ok p → x ∈ md_mails p →
    Z.of_nat (pl_num x) < 2 ^ 63 ∧ goodUID (pl_uid x) ∧ Forall isLine (pl_body x);
  md_uidl p : md_ok p → ∃ g p', hasByte LF g = false ∧ md_ok p' ∧ md_mails p' = md_mails p ∧
    answers net "UIDL" p (wire ((okToken +:+ g) :: (uidlLine <$> md_mails p) ++ ["."])) p';
  md_retr p x : md_ok p → x ∈ md_mails p → ∃ g p', hasByte LF g = false ∧ md_ok p' ∧ md_mails p' = md_mails p ∧
    answers net ("RETR " +:+ itoa (Z.of_nat (pl_num x))) p (wire ((okToken +:+ g) :: (stuff <$> pl_body x) ++ ["."])) p';
  md_dele p x : md_ok p → x ∈ md_mails p → ∃ g p', hasByte LF g = false ∧ md_ok p' ∧
    md_mails p' = filter (λ y, pl_num y ≠ pl_num x) (md_mails p) ∧
    answers net ("DELE " +:+ itoa (Z.of_nat (pl_num x))) p (wire [okToken +:+ g]) p';
}.

(** *** Texts *)

Lemma trimEOL_last s d : lastByte s = Some d → graphic d = true → trimEOL s = s.
Proof.
  intros Hl Hd. induction s as [|c s IH]; [done|]. cbn [trimEOL]. destruct s as [|c' s].
  - cbn in Hl. injection Hl as ->. cbn [trimEOL]. destruct (Ascii.eqb_spec d CR) as [->|]; [done|]. destruct (Ascii.eqb_spec d LF) as [->|]; [done|]. by rewrite andb_false_r.
  - rewrite IH by exact Hl. done.
Qed.

Section drop.
Context (x : popMail) (Hn : Z.of_nat (pl_num x) < 2 ^ 63) (Hu : goodUID (pl_uid x)).

Lemma uidlLine_shape : ∃ c s d, uidlLine x = String c s ∧ graphic c = true ∧ lastByte (String c s) = Some d ∧ graphic d = true.
Proof.
  unfold uidlLine. rewrite itoa_nat. destruct (Itoa_graphic (pl_num x)) as [Hne Hg]. destruct (Itoa (pl_num x)) as [|c s]; [done|].
  cbn in Hg. apply andb_true_iff in Hg as [Hc _]. destruct (graphic_last _ Hu) as (d&Hl&Hd).
  exists c, (s +:+ (" " +:+ pl_uid x)), d. rewrite app_cons_str. split_and!; [done|done| |done].
  rewrite <- app_cons_str. destruct (pl_uid x) as [|u us] eqn:E; [done|]. rewrite (app_cons_str _ "" (String u us)), app_empty_str, lastByte_app. exact Hl.
Qed.

Lemma uidlEntry_line : uidlEntry (uidlLine x) = Some (Z.of_nat (pl_num x), pl_uid x).
Proof.
  destruct uidlLine_shape as (c&s&d&He&Hc&Hl&Hd). unfold uidlEntry. rewrite He, (TrimSpace_graphic c d) by done. rewrite <- He.
  unfold uidlLine. rewrite app_cons_str, app_empty_str, itoa_nat. rewrite cutByte_app.
  - by rewrite Itoa_Atoi, TrimSpace_text.
  - apply graphic_no_byte; [done|]. apply Itoa_graphic.
Qed.

Lemma uidlLine_good : goodLine (uidlLine x) ∧ String.prefix "." (uidlLine x) = false.
Proof.
  destruct uidlLine_shape as (c&s&d&He&Hc&Hl&Hd). split; [split|].
  - unfold uidlLine. rewrite !hasByte_app, itoa_nat. rewrite (graphic_no_byte LF (Itoa _)) by (done || apply Itoa_graphic).
    by rewrite (graphic_no_byte LF (pl_uid x)) by (done || apply Hu).
  - rewrite He. by eapply trimEOL_last.
  - unfold uidlLine. rewrite itoa_nat. unfold Itoa, decimal, NilZero.string_of_uint.
    destruct (N.to_uint (N.of_nat (pl_num x))); cbn [NilEmpty.string_of_uint]; by rewrite app_cons_str.
Qed.
End drop.

(** *** Sessions *)

(** A list is sorted to itself by a key it is strictly sorted by. *)
Lemma merge_sort_sorted (l : list (Z * string)) :
  StronglySorted (λ a b, a.1 < b.1) l → merge_sort entryLe l = l.
Proof.
  intros Hs. pose proof (merge_sort_Permutation entryLe l) as Hp.
  assert (Htot : Total entryLe) by (intros a b; unfold entryLe; lia).
  assert (Htr : Transitive entryLe) by (intros a b c; unfold entryLe; lia).
  pose proof (StronglySorted_merge_sort entryLe l) as Hm.
  generalize dependent (merge_sort entryLe l). clear -Hs. intros l' Hp Hm. revert l Hs Hp.
  induction Hm as [|a l' Hm IH Ha]; intros l Hs Hp; [by apply Permutation_nil_l in Hp|].
  destruct Hs as [|b l Hs Hb]; [by apply Permutation_nil_r in Hp|].
  assert (a = b) as ->; [|f_equal; apply IH; [done|by eapply Permutation_cons_inv]].
  assert (Hin : a ∈ b :: l) by (rewrite <- Hp; by left). apply elem_of_cons in Hin as [->|Hin]; [done|].
  assert (Hin' : b ∈ a :: l') by (rewrite Hp; by left). apply elem_of_cons in Hin' as [->|Hin']; [done|].
  rewrite Forall_forall in Ha, Hb. specialize (Ha b Hin'). specialize (Hb a Hin). unfold entryLe in Ha. lia.
Qed.

Lemma trimEOL_cons c s : graphic c = true → trimEOL (String c s) = String c (trimEOL s).
Proof.
  intros Hc. cbn [trimEOL]. destruct (Ascii.eqb_spec c CR) as [->|]; [done|]. destruct (Ascii.eqb_spec c LF) as [->|]; [done|].
  by rewrite andb_false_r.
Qed.

Lemma status_ok g : ∃ s, parseStatus (trimEOL (okToken +:+ g)) = inr s.
Proof.
  assert (trimEOL (okToken +:+ g) = okToken +:+ trimEOL g) as ->.
  { unfold okToken. by rewrite !app_cons_str, !app_empty_str, !trimEOL_cons. }
  unfold parseStatus. eexists. assert (String.prefix okToken (okToken +:+ trimEOL g) = true) as ->; [|done].
  unfold okToken. rewrite !app_cons_str, app_empty_str. cbn. by destruct (trimEOL g).
Qed.

Lemma sorted_num (l : list popMail) x y :
  StronglySorted (λ a b, pl_num a < pl_num b)%nat l → x ∈ l → y ∈ l → pl_num x = pl_num y → x = y.
Proof.
  intros Hs Hx Hy He. induction Hs as [|z xs Hs IH Hz]; [by apply elem_of_nil in Hx|].
  rewrite Forall_forall in Hz. apply elem_of_cons in Hx as [->|Hx], Hy as [->|Hy].
  - done.
  - specialize (Hz y Hy). lia.
  - specialize (Hz x Hx). lia.
  - by apply IH.
Qed.

Section session.
Context {P : Type} (net : network P) `{!Maildrop net}.
#[local] Abbreviation session := (pop3Mailbox P).

(** Between two exchanges nothing is left to read. *)
Definition idleSession (m : session) : Prop := p3_lines m = [] ∧ p3_tail m = "" ∧ md_ok (p3_peer m).

Lemma cmd_ok line (m : session) g rest p' :
  p3_lines m = [] → p3_tail m = "" → hasByte LF g = false → Forall (λ l, hasByte LF l = false) rest →
  answers net line (p3_peer m) (wire ((okToken +:+ g) :: rest)) p' →
  ∃ s m', pop3Cmd net line m = (inr s, m') ∧ p3_peer m' = p' ∧ p3_lines m' = (λ l, l +:+ CRLF) <$> rest ∧ p3_tail m' = "" ∧
    p3_nums m' = p3_nums m.
Proof.
  intros Hl Ht Hg Hr (p1&Hw&Hf).
  assert (Hcut : cutLines (wire ((okToken +:+ g) :: rest)) = ((λ l, l +:+ CRLF) <$> ((okToken +:+ g) :: rest), "")).
  { rewrite <- (app_nil_str (wire _)), cutLines_wire; [cbn [cutLines fst snd]; by rewrite app_nil_r|].
    apply Forall_cons. split; [by rewrite hasByte_app, Hg|done]. }
  unfold pop3Cmd, mbind_, pop3Send. cbn. rewrite Hw, Hf. unfold arrive. cbn -[wire].
  rewrite Hl, Ht, app_empty_str, Hcut. cbn.
  unfold readStatus, readString. cbn. rewrite trimEOL_crlf. destruct (status_ok g) as [st ->]. by eexists _, _.
Qed.

Lemma retr_exact (m : session) x :
  idleSession m → x ∈ md_mails (p3_peer m) →
  ∃ m', retr net (Z.of_nat (pl_num x)) m = (inr (wire (trimEOL <$> pl_body x)), m') ∧ idleSession m' ∧
    md_mails (p3_peer m') = md_mails (p3_peer m) ∧ p3_nums m' = p3_nums m.
Proof.
  intros (Hl&Ht&Hok) Hx. destruct (md_good _ x Hok Hx) as (_&_&Hb). destruct (md_retr _ x Hok Hx) as (g&p'&Hg&Hok'&Hm&Ha).
  destruct (cmd_ok ("RETR " +:+ itoa (Z.of_nat (pl_num x))) m g ((stuff <$> pl_body x) ++ ["."]) p' Hl Ht Hg)
    as (s&m1&Hc&Hp&Hls&Htl&Hn); [|done|].
  { apply Forall_app. split; [|by apply Forall_singleton]. apply Forall_fmap. eapply Forall_impl; [exact Hb|].
    intros l Hgl. by apply stuff_line. }
  unfold retr, mbind_. rewrite Hc, Hls, fmap_app, <- list_fmap_compose.
  change (((λ l, l +:+ CRLF) ∘ stuff <$> pl_body x) ++ ((λ l, l +:+ CRLF) <$> ["."]))
    with (((λ l, stuff l +:+ CRLF) <$> pl_body x) ++ ["." +:+ CRLF]).
  rewrite (retrLines_stuffed (pl_body x) []). eexists. split_and!; [done|by split_and!; cbn; [| |rewrite Hp]|cbn; by rewrite Hp|done].
Qed.

Definition entryOf (x : popMail) : Z * string := (Z.of_nat (pl_num x), pl_uid x).

Lemma retrAll_exact xs (m : session) out :
  idleSession m → (∀ x, x ∈ xs → x ∈ md_mails (p3_peer m)) →
  ∃ m', retrAll net (entryOf <$> xs) out m = (inr (out ++ (popMessage <$> xs)), m') ∧ idleSession m' ∧
    md_mails (p3_peer m') = md_mails (p3_peer m) ∧
    (∀ id, id ∉ pl_uid <$> xs → p3_nums m' !! id = p3_nums m !! id) ∧
    (NoDup (pl_uid <$> xs) → ∀ x, x ∈ xs → p3_nums m' !! pl_uid x = Some (Z.of_nat (pl_num x))).
Proof.
  revert m out. induction xs as [|x xs IH]; intros m out Hi Hxs; cbn [fmap list_fmap retrAll entryOf].
  { exists m. rewrite app_nil_r. split_and!; [done..|]. intros _ x Hx. by apply elem_of_nil in Hx. }
  destruct (retr_exact m x Hi) as (m1&Hr&Hi1&Hm1&Hn1); [apply Hxs; by left|].
  unfold mbind_ at 1, mbind_ at 1. rewrite Hr. cbn [mdo].
  match goal with |- context [retrAll net _ _ ?m0] => set (m2 := m0) end.
  destruct (IH m2 (out ++ [popMessage x])) as (m'&Hr'&Hi'&Hm'&Hn'&Hin'); [done| |].
  { intros y Hy. cbn. rewrite Hm1. apply Hxs. by right. }
  exists m'. rewrite <- app_assoc in Hr'. split_and!; [exact Hr'|done|by rewrite Hm'; cbn| |].
  - intros id Hid. apply not_elem_of_cons in Hid as [Hne Hid]. rewrite Hn' by done. cbn. by rewrite lookup_insert_ne, Hn1.
  - intros [Hx Hnd]%NoDup_cons y [->|Hy]%elem_of_cons; [|by apply Hin']. rewrite Hn' by done. cbn. by rewrite lookup_insert_eq.
Qed.
Lemma capTo_fmap {A B} (f : A → B) max l : capTo max (f <$> l) = f <$> capTo max l.
Proof. unfold capTo, len. rewrite length_fmap. destruct (_ && _); [by rewrite fmap_take|done]. Qed.

Lemma uidl_entries p : md_ok p → omap uidlEntry (uidlLine <$> md_mails p) = entryOf <$> md_mails p.
Proof.
  intros Hok. assert (Hg : ∀ x, x ∈ md_mails p → uidlEntry (uidlLine x) = Some (entryOf x)).
  { intros x Hx. destruct (md_good p x Hok Hx) as (Hn&Hu&_). by apply uidlEntry_line. }
  induction (md_mails p) as [|x xs IH]; [done|]. cbn. rewrite Hg by by left. f_equal. apply IH. intros y Hy. apply Hg. by right.
Qed.

Lemma entries_sorted p : md_ok p → merge_sort entryLe (entryOf <$> md_mails p) = entryOf <$> md_mails p.
Proof.
  intros Hok. apply merge_sort_sorted. pose proof (md_sorted p Hok) as Hs.
  induction Hs as [|x xs Hs IH Hx]; cbn; constructor; [done|]. apply Forall_fmap. eapply Forall_impl; [exact Hx|]. cbn. lia.
Qed.

Lemma pop3Fetch_exact max (m : session) :
  idleSession m →
  ∃ m', pop3Fetch net max m = (inr (popMessage <$> capTo max (md_mails (p3_peer m))), m') ∧ idleSession m' ∧
    md_mails (p3_peer m') = md_mails (p3_peer m) ∧
    ∀ x, x ∈ capTo max (md_mails (p3_peer m)) → p3_nums m' !! pl_uid x = Some (Z.of_nat (pl_num x)).
Proof.
  intros (Hl&Ht&Hok). destruct (md_uidl _ Hok) as (g&p'&Hg&Hok'&Hm&Ha).
  assert (Hgood : Forall (λ l, goodLine l ∧ String.prefix "." l = false) (uidlLine <$> md_mails (p3_peer m))).
  { apply Forall_fmap, Forall_forall. intros x Hx. destruct (md_good _ x Hok Hx) as (Hn&Hu&_). by apply uidlLine_good. }
  destruct (cmd_ok "UIDL" m g ((uidlLine <$> md_mails (p3_peer m)) ++ ["."]) p' Hl Ht Hg) as (s&m1&Hc&Hp&Hls&Htl&Hn); [|done|].
  { apply Forall_app. split; [|by apply Forall_singleton]. eapply Forall_impl; [exact Hgood|]. by intros l [[? _] _]. }
  unfold pop3Fetch, pop3Multi. unfold mbind_ at 1 2. rewrite Hc, Hls, fmap_app.
  change ((λ l, l +:+ CRLF) <$> ["."]) with ["." +:+ CRLF]. rewrite multiLines_plain by done.
  rewrite uidl_entries, entries_sorted, capTo_fmap by done. unfold mbind_ at 1.
  match goal with |- context [retrAll net _ _ ?m0] => set (m2 := m0) end.
  assert (Hi2 : idleSession m2) by (split_and!; cbn; [done..|by rewrite Hp]).
  destruct (retrAll_exact (capTo max (md_mails (p3_peer m))) m2 [] Hi2) as (m'&Hr&Hi'&Hm'&_&Hin).
  { intros x Hx. cbn. rewrite Hp, Hm. by apply elem_of_capTo in Hx. }
  rewrite Hr, app_nil_l. rewrite md_ctx by apply Hi'. exists m'. split_and!; [done|done|by rewrite Hm'; cbn; rewrite Hp|].
  apply Hin. destruct (capTo_prefix max (md_mails (p3_peer m))) as [rest Hrest].
  pose proof (md_unique _ Hok) as Hu. rewrite Hrest, fmap_app in Hu. by apply NoDup_app in Hu as [? _].
Qed.

Lemma same_uid p x y : md_ok p → x ∈ md_mails p → y ∈ md_mails p → pl_uid x = pl_uid y → x = y.
Proof. intros Hok Hx Hy He. by eapply (NoDup_fmap_inj_on pl_uid (md_mails p) x y (md_unique p Hok)). Qed.

Lemma same_num p x y : md_ok p → x ∈ md_mails p → y ∈ md_mails p → pl_num x = pl_num y → x = y.
Proof. intros Hok. apply sorted_num. by apply md_sorted. Qed.

(** The numbers of the messages [ids] that are still in the maildrop. *)
Definition knows (ids : list string) (m : session) : Prop :=
  ∀ id, id ∈ ids →
    match p3_nums m !! id with
    | Some n => ∃ x, x ∈ md_mails (p3_peer m) ∧ pl_uid x = id ∧ Z.of_nat (pl_num x) = n
    | None => id ∉ pl_uid <$> md_mails (p3_peer m)
    end.

Lemma deleAll_exact ids (m : session) :
  idleSession m → knows ids m →
  ∃ m', deleAll net ids m = (inr tt, m') ∧ idleSession m' ∧
    md_mails (p3_peer m') = filter (λ x, pl_uid x ∉ ids) (md_mails (p3_peer m)).
Proof.
  revert m. induction ids as [|id ids IH]; intros m Hi Hk; cbn [deleAll].
  { exists m. split_and!; [done..|]. symmetry. apply list_filter_all. intros x _. apply not_elem_of_nil. }
  pose proof (Hk id (list_elem_of_here _ _)) as Hid. destruct (p3_nums m !! id) as [n|] eqn:Hn.
  - destruct Hid as (x&Hx&<-&<-). destruct Hi as (Hl&Ht&Hok). destruct (md_dele _ x Hok Hx) as (g&p'&Hg&Hok'&Hm&Ha).
    destruct (cmd_ok ("DELE " +:+ itoa (Z.of_nat (pl_num x))) m g [] p' Hl Ht Hg) as (s&m1&Hc&Hp&Hls&Htl&Hnums); [constructor|done|].
    assert (Hm2 : md_mails p' = filter (λ y, pl_uid y ≠ pl_uid x) (md_mails (p3_peer m))).
    { rewrite Hm. apply list_filter_ext. intros y Hy. split; intros Hne He; apply Hne;
        [by rewrite (same_uid _ y x Hok Hy Hx He)|by rewrite (same_num _ y x Hok Hy Hx He)]. }
    unfold mbind_. rewrite Hc. cbn [mdo]. match goal with |- context [deleAll net ids ?m0] => set (m2 := m0) end.
    destruct (IH m2) as (m'&Hd&Hi'&Hm').
    + split_and!; cbn; [done..|by rewrite Hp].
    + intros id' Hid'. cbn. rewrite Hnums, Hp, Hm2. destruct (decide (id' = pl_uid x)) as [->|Hne].
      * rewrite lookup_delete_eq. intros (y&He&[Hne _]%list_elem_of_filter)%list_elem_of_fmap. by apply Hne.
      * rewrite lookup_delete_ne by done. specialize (Hk id' (list_elem_of_further _ _ _ Hid')).
        destruct (p3_nums m !! id') as [n'|].
        -- destruct Hk as (y&Hy&<-&<-). exists y. split; [|done]. by apply list_elem_of_filter.
        -- intros (y&He&[_ Hy]%list_elem_of_filter)%list_elem_of_fmap. apply Hk. apply list_elem_of_fmap. by exists y.
    + exists m'. split_and!; [done..|]. rewrite Hm'. cbn. rewrite Hp, Hm2, list_filter_filter. apply list_filter_iff. intros y.
      rewrite not_elem_of_cons. tauto.
  - destruct (IH m Hi) as (m'&Hd&Hi'&Hm'). { intros id' Hid'. by apply Hk, list_elem_of_further. }
    exists m'. split_and!; [done..|]. rewrite Hm'. apply list_filter_ext. intros y Hy. rewrite not_elem_of_cons.
    split; [|tauto]. intros Hni. split; [|done]. intros He. apply Hid, list_elem_of_fmap. by exists y.
Qed.
End session.

Lemma filter_popMessage (ids : list string) (xs : list popMail) :
  filter (λ m, mg_ID m ∉ ids) (popMessage <$> xs) = popMessage <$> filter (λ x, pl_uid x ∉ ids) xs.
Proof. induction xs as [|x xs IH]; [done|]. cbn [fmap list_fmap]. rewrite !filter_cons, IH. cbn [mg_ID popMessage]. by case_decide. Qed.

Section unhandled.
Context {P : Type} (net : network P) `{!Maildrop net}.

(** A session that deletes what it handled keeps the interface's promise. *)
#[global] Instance pop3_unhandled : @UnhandledMail (pop3Mailbox P) (pop3_client net) ActionDelete.
Proof.
  refine (@Build_UnhandledMail _ (pop3_client net) ActionDelete (idleSession net) (λ m, popMessage <$> md_mails (p3_peer m)) _ _).
  - intros m (_&_&Hok). rewrite <- list_fmap_compose. by apply md_unique.
  - intros max m Hi Hmax. destruct (pop3Fetch_exact net max m Hi) as (m'&Hf&Hi'&Hm'&Hn).
    exists (popMessage <$> capTo max (md_mails (p3_peer m))), m'. split_and!; [exact Hf|by rewrite capTo_fmap|done|by rewrite Hm'|].
    intros ids Hids. cbn [cl_Ack pop3_client]. unfold pop3Ack. case_bool_decide as Hnil.
    + subst ids. exists m'. split_and!; [done..|]. rewrite Hm', list_filter_all; [done|]. intros x _. apply not_elem_of_nil.
    + cbn. destruct (deleAll_exact net ids m' Hi') as (m''&Hd&Hi''&Hm'').
      * intros id Hid. specialize (Hids id Hid). rewrite <- list_fmap_compose in Hids. apply list_elem_of_fmap in Hids as (x&->&Hx).
        change ((mg_ID ∘ popMessage) x) with (pl_uid x). rewrite (Hn x Hx). exists x. split_and!; [|done..].
        rewrite Hm'. by apply elem_of_capTo in Hx.
      * exists m''. split_and!; [done..|]. by rewrite Hm'', Hm', filter_popMessage.
Defined.

(** One that keeps it does not: acknowledging changes nothing, so the next
    fetch returns the same messages. *)
Lemma pop3_keep_repeats max (m : pop3Mailbox P) ids :
  idleSession net m →
  ∃ m' m'', pop3Fetch net max m = (inr (popMessage <$> capTo max (md_mails (p3_peer m))), m') ∧
    pop3Ack net ids ActionKeep m' = (inr tt, m') ∧
    pop3Fetch net max m' = (inr (popMessage <$> capTo max (md_mails (p3_peer m))), m'') ∧
    idleSession net m'' ∧ md_mails (p3_peer m'') = md_mails (p3_peer m).
Proof.
  intros Hi. destruct (pop3Fetch_exact net max m Hi) as (m'&Hf&Hi'&Hm'&_).
  destruct (pop3Fetch_exact net max m' Hi') as (m''&Hf'&Hi''&Hm''&_). exists m', m''. rewrite Hm' in Hf', Hm''.
  split_and!; [done| |done..]. unfold pop3Ack. by rewrite orb_true_r.
Qed.
End unhandled.

(** ** A maildrop *)

(** The messages and the line that was written last. *)
Definition dropPeer : Type := list popMail * string.

Definition command (verb : string) (x : popMail) : string := verb +:+ itoa (Z.of_nat (pl_num x)) +:+ CRLF.

Definition react (mails : list popMail) (line : string) : string * list popMail :=
  if strEq line ("UIDL" +:+ CRLF) then (wire ("+OK" :: (uidlLine <$> mails) ++ ["."]), mails)
  else
    match list_find (λ x, line = command "RETR " x) mails with
    | Some (_, x) => (wire ("+OK" :: (stuff <$> pl_body x) ++ ["."]), mails)
    | None =>
        match list_find (λ x, line = command "DELE " x) mails with
        | Some (_, x) => (wire ["+OK"], filter (λ y, pl_num y ≠ pl_num x) mails)
        | None => (wire ["+OK"], mails)
        end
    end.

Definition dropNet : network dropPeer := {|
  nw_dial := λ p, (None, wire ["+OK ready"], p);
  nw_handshake := λ p, (None, "", p);
  nw_write := λ line p, (None, (p.1, line));
  nw_flush := λ p, let '(text, mails) := react p.1 p.2 in (None, text, (mails, ""));
  nw_readErr := λ _, EOFError;
  nw_close := λ p, (None, p);
  nw_ctx := λ _, None |}.

Definition dropOk (p : dropPeer) : Prop :=
  StronglySorted (λ a b, pl_num a < pl_num b)%nat p.1 ∧ NoDup (pl_uid <$> p.1) ∧
  Forall (λ x, Z.of_nat (pl_num x) < 2 ^ 63 ∧ goodUID (pl_uid x) ∧ Forall isLine (pl_body x)) p.1.

Lemma command_inj verb x y : Z.of_nat (pl_num x) < 2 ^ 63 → Z.of_nat (pl_num y) < 2 ^ 63 →
  command verb x = command verb y → pl_num x = pl_num y.
Proof.
  unfold command. intros Hx Hy He%(f_equal (strDrop (String.length verb))). rewrite !strDrop_app, !itoa_nat in He.
  assert (Hi : Itoa (pl_num x) = Itoa (pl_num y)).
  { apply (f_equal (λ s, trimEOL s)) in He. rewrite !trimEOL_crlf in He.
    destruct (graphic_last _ (Itoa_graphic (pl_num x))) as (d&Hd&Hg). destruct (graphic_last _ (Itoa_graphic (pl_num y))) as (d'&Hd'&Hg').
    by rewrite (trimEOL_last _ d), (trimEOL_last _ d') in He. }
  apply (f_equal Atoi) in Hi. rewrite !Itoa_Atoi in Hi by done. injection Hi. lia.
Qed.

Lemma find_command verb mails x : dropOk (mails, "") → x ∈ mails →
  ∃ i, list_find (λ y, command verb x = command verb y) mails = Some (i, x).
Proof.
  intros (Hs&_&Hg) Hx. rewrite Forall_forall in Hg.
  destruct (list_find_elem_of (λ y, command verb x = command verb y) mails x Hx eq_refl) as [[i y] Hf].
  pose proof Hf as (Hy%list_elem_of_lookup_2&He&_)%list_find_Some. exists i. rewrite Hf. do 2 f_equal.
  apply command_inj in He; [|apply Hg; done..]. by eapply sorted_num.
Qed.

Lemma react_uidl mails : react mails ("UIDL" +:+ CRLF) = (wire ("+OK" :: (uidlLine <$> mails) ++ ["."]), mails).
Proof. unfold react. unfold strEq. by rewrite bool_decide_eq_true_2. Qed.

(** A command is not UIDL, and a RETR is not a DELE. *)
Lemma command_not verb x s : String.prefix (strTake 1 verb) s = false → (1 <= String.length verb)%nat → command verb x ≠ s.
Proof.
  intros Hp Hl <-. destruct verb as [|c verb]; [cbn in Hl; lia|]. unfold command in Hp. rewrite app_cons_str in Hp. cbn in Hp.
  destruct (Ascii.ascii_dec c c); [|done]. by destruct (strTake 0 verb); destruct (verb +:+ _).
Qed.

Lemma react_retr mails x : dropOk (mails, "") → x ∈ mails →
  react mails (command "RETR " x) = (wire ("+OK" :: (stuff <$> pl_body x) ++ ["."]), mails).
Proof.
  intros Hok Hx. unfold react, strEq. rewrite bool_decide_eq_false_2 by (apply command_not; [done|cbn; lia]).
  by destruct (find_command "RETR " mails x Hok Hx) as [i ->].
Qed.

Lemma react_dele mails x : dropOk (mails, "") → x ∈ mails →
  react mails (command "DELE " x) = (wire ["+OK"], filter (λ y, pl_num y ≠ pl_num x) mails).
Proof.
  intros Hok Hx. unfold react, strEq. rewrite bool_decide_eq_false_2 by (apply command_not; [done|cbn; lia]).
  assert (list_find (λ y, command "DELE " x = command "RETR " y) mails = None) as ->.
  { apply list_find_None, Forall_forall. intros y _. apply command_not; [|cbn; lia]. unfold command. by rewrite app_cons_str. }
  by destruct (find_command "DELE " mails x Hok Hx) as [i ->].
Qed.

Lemma dropOk_filter mails line (F : popMail → Prop) `{!∀ x, Decision (F x)} : dropOk (mails, line) → dropOk (filter F mails, "").
Proof.
  intros (Hs&Hn&Hg). cbn [fst] in *. split_and!; cbn [fst].
  - clear Hn Hg. induction Hs as [|x xs Hs IH Hx]; [constructor|]. rewrite filter_cons. case_decide; [|done].
    constructor; [done|]. rewrite Forall_forall in Hx |- *. intros y [_ Hy]%list_elem_of_filter. by apply Hx.
  - eapply sublist_NoDup; [exact Hn|]. apply fmap_sublist, sublist_filter.
  - rewrite Forall_forall in Hg |- *. intros y [_ Hy]%list_elem_of_filter. by apply Hg.
Qed.

(** The maildrop follows RFC 1939. *)
#[global] Instance dropNet_maildrop : Maildrop dropNet.
Proof.
  assert (Hok0 : ∀ p : dropPeer, dropOk p → dropOk (p.1, "")) by done.
  refine (Build_Maildrop dropPeer dropNet dropOk (λ p, p.1) _ _ _ _ _ _ _).
  - done.
  - by intros p (?&_&_).
  - by intros p (_&?&_).
  - intros p x (_&_&Hg). rewrite Forall_forall in Hg. apply Hg.
  - intros p Hok. exists "", (p.1, ""). split_and!; [done|by apply Hok0|done|]. exists (p.1, "UIDL" +:+ CRLF). split; [done|].
    cbn. rewrite react_uidl. done.
  - intros p x Hok Hx. exists "", (p.1, ""). split_and!; [done|by apply Hok0|done|]. exists (p.1, command "RETR " x).
    split; [unfold command; cbn; by rewrite app_assoc_str|]. cbn [nw_flush dropNet fst snd]. by rewrite (react_retr _ _ (Hok0 p Hok) Hx).
  - intros p x Hok Hx. exists "", (filter (λ y, pl_num y ≠ pl_num x) p.1, "").
    split_and!; [done|by apply (dropOk_filter _ (p.2)); destruct p|done|]. exists (p.1, command "DELE " x).
    split; [unfold command; cbn; by rewrite app_assoc_str|]. cbn [nw_flush dropNet fst snd]. by rewrite (react_dele _ _ (Hok0 p Hok) Hx).
Defined.

(** ** Claims *)

(** Trimmed lines are the lines exactly if none ends in a carriage return. *)
Lemma popMessage_exact x :
  Forall isLine (pl_body x) →
  mg_Raw (popMessage x) = wire (pl_body x) ↔ Forall (λ l, lastByte l ≠ Some CR) (pl_body x).
Proof.
  intros Hl. cbn [mg_Raw popMessage].
  assert (Hfix : Forall (λ l, lastByte l ≠ Some CR) (pl_body x) ↔ trimEOL <$> pl_body x = pl_body x).
  { induction Hl as [|l ls Hl Hls IH]; [done|]. rewrite Forall_cons, IH, <- (trimEOL_fixed l Hl). cbn. split; [by intros [-> ->]|].
    intros [= H1 H2]. by rewrite H1, H2. }
  rewrite Hfix. split; [|by intros ->]. apply wire_inj; [|done]. apply Forall_fmap. eapply Forall_impl; [exact Hl|].
  intros l. apply trimEOL_line.
Qed.

(** C35 (POP3 transfer): against a server that follows RFC 1939 [Fetch] returns
    the oldest messages of the maildrop, in arrival order, as many as it is
    asked for, each under its unique id and with all its lines, dots at the
    beginning of a line included, less the carriage returns a line ends in
    before its line ending; so it is byte for byte the message the server holds
    exactly if none of its lines ends in a carriage return.  Nothing is left
    unread, the maildrop is unchanged, and the session can delete what it
    fetched, which leaves exactly the later messages. *)
Theorem pop3_transfer_exact {P} (net : network P) `{!Maildrop net} max (m : pop3Mailbox P) :
  idleSession net m →
  ∃ m', pop3Fetch net max m = (inr (popMessage <$> capTo max (md_mails (p3_peer m))), m') ∧
    (∀ x, x ∈ md_mails (p3_peer m) →
       mg_Raw (popMessage x) = wire (pl_body x) ↔ Forall (λ l, lastByte l ≠ Some CR) (pl_body x)) ∧
    idleSession net m' ∧ md_mails (p3_peer m') = md_mails (p3_peer m) ∧
    ∃ m'', pop3Ack net (pl_uid <$> capTo max (md_mails (p3_peer m))) ActionDelete m' = (inr tt, m'') ∧
      idleSession net m'' ∧
      md_mails (p3_peer m'') = drop (length (capTo max (md_mails (p3_peer m)))) (md_mails (p3_peer m)).
Proof.
  intros Hi. destruct (pop3Fetch_exact net max m Hi) as (m'&Hf&Hi'&Hm'&Hn). exists m'.
  split_and!; [done| |done..|].
  { intros x Hx. apply popMessage_exact. by apply (md_good (p3_peer m) x (proj2 (proj2 Hi)) Hx). }
  destruct (capTo_prefix max (md_mails (p3_peer m))) as [rest Hrest]. set (batch := capTo max (md_mails (p3_peer m))) in *.
  destruct (deleAll_exact net (pl_uid <$> batch) m' Hi') as (m''&Hd&Hi''&Hm'').
  { intros id (x&->&Hx)%list_elem_of_fmap. rewrite (Hn x Hx). exists x. split_and!; [|done..]. rewrite Hm', Hrest. set_solver. }
  assert (Hrem : filter (λ x, pl_uid x ∉ pl_uid <$> batch) (md_mails (p3_peer m)) = rest).
  { destruct Hi as (_&_&Hok). pose proof (md_unique _ Hok) as Hu. rewrite Hrest, fmap_app in Hu. apply NoDup_app in Hu as (_&Hdis&_).
    rewrite Hrest, filter_app, (list_filter_all _ rest).
    - rewrite (list_filter_ext _ (λ _, False)); [|intros x Hx; split; [intros Hc; by apply Hc, list_elem_of_fmap_2|by intros []]].
      generalize batch. clear. intros b. induction b as [|x b IH]; [done|]. rewrite filter_cons_False by tauto. exact IH.
    - intros x Hx Hin. eapply Hdis; [exact Hin|]. by apply list_elem_of_fmap_2. }
  assert (Hdrop : drop (length batch) (md_mails (p3_peer m)) = rest) by (rewrite Hrest; apply drop_app_length).
  exists m''. split_and!; [|done|by rewrite Hdrop, <- Hrem, <- Hm'].
  unfold pop3Ack. case_bool_decide as Hnil; [|done]. rewrite Hnil in Hd. exact Hd.
Qed.

(** [retr] says that it keeps a body byte for byte; a carriage return before
    the end of a line is lost. *)
Lemma retr_drops_cr :
  retrLines ["a" +:+ String CR CRLF; "." +:+ CRLF] = Some ("a" +:+ CRLF, []).
Proof. by vm_compute. Qed.

(** ** Concrete runs *)

Definition sampleDrop : list popMail :=
  [mkPopMail 1 "u1" ["Subject: bounce"; ""; ".hidden dot"; "."]; mkPopMail 2 "u2" ["x"; "y" +:+ String CR ""]; mkPopMail 3 "u3" []].

Definition samplePop3 : pop3Mailbox dropPeer := (newSession (sampleDrop, "")) <| p3_open := true |>.

Lemma samplePop3_idle : idleSession dropNet samplePop3.
Proof.
  split_and!; [done..|]. split_and!.
  - repeat first [apply SSorted_nil|apply SSorted_cons; [|repeat first [apply Forall_nil_2|apply Forall_cons_2; [cbn; lia|]]]].
  - apply (bool_decide_unpack _). by vm_compute.
  - repeat first [apply Forall_nil_2|apply Forall_cons_2; [split_and!; [vm_compute; reflexivity|by split|]|]];
      repeat first [apply Forall_nil_2|apply Forall_cons_2; [done|]].
Qed.

Lemma pop3_transfer_exact_witness :
  (pop3Fetch dropNet 2 samplePop3).1 =
    inr [mkMessage "u1" (wire ["Subject: bounce"; ""; ".hidden dot"; "."]) 0; mkMessage "u2" (wire ["x"; "y"]) 0].
Proof. destruct (pop3_transfer_exact dropNet 2 samplePop3 samplePop3_idle) as (m'&->&_). reflexivity. Defined.
