(* ===== verification/Imap.v ===== *)
(** * The IMAP client ([internal/mailbox/imap.go], and its part of [test.go])

    The protocol is go-imap's, whose commands are arguments over the state of
    the connection; modelled is what the code does with them: dialing, the
    search for unhandled mail, acknowledging, idling and testing.  [Dial] and
    [Test] choose between the two protocols.  A session records the commands it
    gave, and whether the connection was TLS. *)

From Stdlib Require Import DecimalString.
From S2P Require Import Prelude Enums Model Classify Codec Tokens LineReader Email Platform BounceReport Bounce MailboxHealth Mailbox Pop3 Pop3Props.

Definition FlagSeen : string := "\Seen".
Definition FlagDeleted : string := "\Deleted".
Definition CapMove : string := "MOVE".
Definition CapUIDPlus : string := "UIDPLUS".
Definition CapIdle : string := "IDLE".

(** [imap.SearchCriteria]: the fields the code sets. *)
Record SearchCriteria := mkSearchCriteria { sc_Header : list (string * string); sc_NotFlag : list string }.

(** [imapclient.FetchMessageBuffer]: UID, the body section, the internal date. *)
Record fetchBuffer := mkFetchBuffer { fb_UID : Z; fb_Body : option string; fb_InternalDate : Time }.

(** The client library over a connection. *)
Record imapLib (P : Type) := mkImapLib {
  il_dial : P → option mailErr * P;
  il_handshake : P → option mailErr * P;
  il_NewStartTLS : P → option mailErr * P;
  il_WaitGreeting : P → option mailErr * P;
  il_Login : string → string → P → option mailErr * P;
  il_Select : string → bool → P → (mailErr + Z) * P;
  il_Logout : P → option mailErr * P;
  il_Close : P → option mailErr * P;
  il_Caps : P → gset string;
  il_UIDSearch : SearchCriteria → P → (mailErr + list Z) * P;
  il_Fetch : list Z → P → (mailErr + list fetchBuffer) * P;
  il_Store : list Z → list string → P → option mailErr * P;
  il_Move : list Z → string → P → option mailErr * P;
  il_Copy : list Z → string → P → option mailErr * P;
  il_UIDExpunge : list Z → P → option mailErr * P;
  il_Expunge : P → option mailErr * P;
  il_IdleStart : P → option mailErr * P;
  il_IdleStop : Duration → P → option mailErr * P;
  il_ctx : P → option mailErr;
}.
Arguments il_dial {P} _ _. Arguments il_handshake {P} _ _. Arguments il_NewStartTLS {P} _ _.
Arguments il_WaitGreeting {P} _ _. Arguments il_Login {P} _ _ _ _. Arguments il_Select {P} _ _ _ _.
Arguments il_Logout {P} _ _. Arguments il_Close {P} _ _. Arguments il_Caps {P} _ _. Arguments il_UIDSearch {P} _ _ _.
Arguments il_Fetch {P} _ _ _. Arguments il_Store {P} _ _ _ _. Arguments il_Move {P} _ _ _ _. Arguments il_Copy {P} _ _ _ _.
Arguments il_UIDExpunge {P} _ _ _. Arguments il_Expunge {P} _ _. Arguments il_IdleStart {P} _ _.
Arguments il_IdleStop {P} _ _ _. Arguments il_ctx {P} _ _.

Inductive imapCommand :=
  | cmdLogin (username password : string)
  | cmdSelect (folder : string)
  | cmdSearch (c : SearchCriteria)
  | cmdFetch (uids : list Z)
  | cmdStore (uids : list Z) (flags : list string)
  | cmdMove (uids : list Z) (folder : string)
  | cmdCopy (uids : list Z) (folder : string)
  | cmdExpunge (uids : option (list Z))
  | cmdIdle
  | cmdLogout.

(** [imapMailbox], with its history of commands. *)
Record imapMailbox (P : Type) := mkImap {
  im_peer : P;
  im_secure : bool;
  im_closed : bool;
  im_log : list (bool * imapCommand);
}.
Arguments mkImap {P} _ _ _ _. Arguments im_peer {P} _. Arguments im_secure {P} _. Arguments im_closed {P} _. Arguments im_log {P} _.
#[global] Instance imapMailbox_eta P : Eta (imapMailbox P) := λ m, mkImap (im_peer m) (im_secure m) (im_closed m) (im_log m).

(** [strconv.ParseUint(id, 10, 32)] *)
Definition ParseUint32 (s : string) : option Z :=
  match NilZero.uint_of_string s with
  | Some d => let n := Z.of_N (N.of_uint d) in if n <? 2 ^ 32 then Some n else None
  | None => None
  end.

(** [parseUIDs] *)
Fixpoint parseUIDs (ids : list string) : mailErr + list Z :=
  match ids with
  | [] => inr []
  | id :: ids' =>
      match ParseUint32 id with
      | None => inl (errNotUID id)
      | Some n => match parseUIDs ids' with inl e => inl e | inr out => inr (n :: out) end
      end
  end.

Definition msgLe (a b : Message) : Prop := String.le (mg_ID a) (mg_ID b).
#[global] Instance msgLe_dec : RelDecision msgLe := λ a b, String.le_dec (mg_ID a) (mg_ID b).

Section imap.
Context {P : Type} (lib : imapLib P).
#[local] Abbreviation session := (imapMailbox P).

(** A call of the library. *)
Definition onLib {A} (f : P → (mailErr + A) * P) : MM session A := λ m,
  let '(r, p) := f (im_peer m) in (r, m <| im_peer := p |>).
Definition onLibErr (f : P → option mailErr * P) : MM session unit :=
  onLib (λ p, let '(e, p') := f p in (match e with Some e => inl e | None => inr tt end, p')).
Definition logCmd (c : imapCommand) : MM session unit := mdo (λ m, m <| im_log := im_log m ++ [(im_secure m, c)] |>).

(** ** Dialing *)

Definition newImap (p : P) : session := mkImap p false false [].

Definition closingImap {A} (m : MM session A) : MM session A :=
  mtry m (λ r, match r with inl e => mtry (onLibErr (il_Close lib)) (λ _, mfail e) | inr a => mret_ a end).

Definition goSecure : MM session unit := mdo (λ m, m <| im_secure := true |>).

(** [Config.dialConn] and [testDial] *)
Definition imapDialStaged (cfg : MailConfig) : MM session (option (string * mailErr)) :=
  mtry (onLibErr (il_dial lib)) (λ r,
    match r with
    | inl e => mret_ (Some (StageDial, e))
    | inr _ =>
        if negb (strEq (mc_TLS cfg) TLSModeImplicit) then mret_ None
        else mtry (onLibErr (il_handshake lib)) (λ r,
          match r with
          | inl e => mtry (onLibErr (il_Close lib)) (λ _, mret_ (Some (StageTLS, e)))
          | inr _ => let@ _ := goSecure in mret_ None
          end)
    end).

(** STARTTLS or the greeting, and the stage of its failure. *)
Definition imapGreet (cfg : MailConfig) : MM session unit :=
  if strEq (mc_TLS cfg) TLSModeSTARTTLS then
    let@ _ := onLibErr (il_NewStartTLS lib) in goSecure
  else onLibErr (il_WaitGreeting lib).
Definition greetStage (cfg : MailConfig) : string := if strEq (mc_TLS cfg) TLSModeSTARTTLS then StageTLS else StageDial.

Definition imapLogin (username password : string) : MM session unit :=
  let@ _ := logCmd (cmdLogin username password) in onLibErr (il_Login lib username password).

Definition imapSelect (folder : string) (readOnly : bool) : MM session Z :=
  let@ _ := logCmd (cmdSelect folder) in onLib (il_Select lib folder readOnly).

(** [dialIMAP] *)
Definition dialIMAP (cfg : MailConfig) (password : string) : MM session unit :=
  let@ failed := imapDialStaged cfg in
  match failed with
  | Some (stage, e) => mfail (DialError stage (errWrap (if strEq stage StageDial then "mailbox: dial" else "mailbox: tls handshake") e))
  | None =>
      closingImap (
        let@ _ := mapErr (λ e, DialError (greetStage cfg)
          (errWrap (if strEq (mc_TLS cfg) TLSModeSTARTTLS then "mailbox: imap starttls" else "mailbox: imap greeting") e)) (imapGreet cfg) in
        let@ _ := mapErr (λ e, DialError (loginStage e) (errWrap "mailbox: imap login" e)) (imapLogin (mc_Username cfg) password) in
        let@ _ := mapErr (λ e, DialError StageFolder (errWrap "mailbox: imap select" e)) (imapSelect (mc_Folder cfg) false) in
        mret_ tt)
  end.

(** ** Fetching *)

Definition bufferMessage (b : fetchBuffer) : option Message :=
  match fb_Body b with
  | None => None
  | Some raw => Some (mkMessage (itoa (fb_UID b)) raw (fb_InternalDate b))
  end.

(** [searchAndFetch] *)
Definition searchAndFetch (c : SearchCriteria) (max : Z) : MM session (list Message) :=
  let@ _ := logCmd (cmdSearch c) in
  let@ uids := mapErr (errWrap "mailbox: imap search") (onLib (il_UIDSearch lib c)) in
  match uids with
  | [] => mret_ []
  | _ =>
      let uids := capTo max (merge_sort Z.le uids) in
      let@ _ := logCmd (cmdFetch uids) in
      let@ bufs := mapErr (errWrap "mailbox: imap fetch") (onLib (il_Fetch lib uids)) in λ m,
      match il_ctx lib (im_peer m) with
      | Some e => (inl e, m)
      | None => (inr (merge_sort msgLe (omap bufferMessage bufs)), m)
      end
  end.

Definition unhandledCriteria : SearchCriteria := mkSearchCriteria [] [FlagSeen; FlagDeleted].

(** [imapMailbox.Fetch] and [FetchByHeader] *)
Definition imapFetch (max : Z) : MM session (list Message) := searchAndFetch unhandledCriteria max.
Definition imapFetchByHeader (name value : string) : MM session (list Message) :=
  searchAndFetch (mkSearchCriteria [(name, value)] [FlagDeleted]) 0.

(** ** Acknowledging *)

(** [store] *)
Definition imapStore (uids : list Z) (flags : list string) : MM session unit :=
  let@ _ := logCmd (cmdStore uids flags) in mapErr (errWrap "mailbox: imap store flags") (onLibErr (il_Store lib uids flags)).

(** [expunge] *)
Definition imapExpunge (uids : list Z) : MM session unit :=
  let@ _ := imapStore uids [FlagDeleted] in λ m,
  (if bool_decide (CapUIDPlus ∈ il_Caps lib (im_peer m))
   then let@ _ := logCmd (cmdExpunge (Some uids)) in mapErr (errWrap "mailbox: imap expunge") (onLibErr (il_UIDExpunge lib uids))
   else let@ _ := logCmd (cmdExpunge None) in mapErr (errWrap "mailbox: imap expunge") (onLibErr (il_Expunge lib))) m.

(** [imapMailbox.Ack] *)
Definition imapAck (ids : list string) (action : string) : MM session unit :=
  if bool_decide (ids = []) then mret_ tt
  else
    match parseUIDs ids with
    | inl e => mfail e
    | inr uids =>
        let@ _ := imapStore uids [FlagSeen] in
        if strEq action ActionKeep then mret_ tt
        else if strEq action ActionDelete then imapExpunge uids
        else
          match MoveFolder action with
          | None => mfail (errUnknownAction action)
          | Some folder => λ m,
              (if bool_decide (CapMove ∈ il_Caps lib (im_peer m))
               then let@ _ := logCmd (cmdMove uids folder) in mapErr (errWrap "mailbox: imap move") (onLibErr (il_Move lib uids folder))
               else
                 let@ _ := logCmd (cmdCopy uids folder) in
                 let@ _ := mapErr (errWrap "mailbox: imap copy") (onLibErr (il_Copy lib uids folder)) in
                 imapExpunge uids) m
          end
    end.

(** [imapMailbox.Idle]; when the wait ends is the server's, the timer's and the
    context's. *)
Definition imapIdle (timeout : Duration) : MM session unit := λ m,
  if negb (bool_decide (CapIdle ∈ il_Caps lib (im_peer m))) then (inl ErrNoIdle, m)
  else
    (let@ _ := logCmd cmdIdle in
     let@ _ := mapErr (errWrap "mailbox: imap idle") (onLibErr (il_IdleStart lib)) in
     mapErr (errWrap "mailbox: imap idle close") (onLibErr (il_IdleStop lib timeout))) m.

(** [imapMailbox.Close] *)
Definition imapClose : MM session unit := λ m,
  if im_closed m then (inr tt, m)
  else
    (let@ _ := logCmd cmdLogout in
     mtry (onLibErr (il_Logout lib)) (λ _, onLibErr (il_Close lib))) (m <| im_closed := true |>).

(** ** Testing *)

Section test.
Context (errText : mailErr → string) (EqualFold : string → string → bool).

Definition imapTestStep {A} (stage : mailErr → string) (res : TestResult) (m : MM session A)
    (k : A → MM session TestResult) : MM session TestResult :=
  mtry m (λ r, match r with inl e => mret_ (testFail errText res (stage e) e) | inr a => k a end).

(** [capsSummary] *)
Definition capsSummary (caps : gset string) : string := String.concat " " (sortStrings (elements caps)).

(** The folders, and the first that failed *)
Fixpoint examineAll (folders : list string) (res : TestResult) (firstErr : option mailErr) : MM session (TestResult * option mailErr) :=
  match folders with
  | [] => mret_ (res, firstErr)
  | folder :: folders' =>
      mtry (imapSelect folder true) (λ r,
        match r with
        | inl e =>
            examineAll folders' (res <| tr_Folders := <[folder := mkFolderInfo false 0]> (tr_Folders res) |>)
              (match firstErr with Some _ => firstErr | None => Some (errWrap "folder" e) end)
        | inr n => examineAll folders' (res <| tr_Folders := <[folder := mkFolderInfo true n]> (tr_Folders res) |>) firstErr
        end)
  end.

(** [testIMAP]; the connection is closed in every case. *)
Definition testIMAP (cfg : MailConfig) (password : string) (res : TestResult) : MM session TestResult :=
  let@ failed := imapDialStaged cfg in
  match failed with
  | Some (stage, e) => mret_ (testFail errText res stage e)
  | None =>
      let@ out :=
        imapTestStep (λ _, greetStage cfg) res (imapGreet cfg) (λ _ m,
          let res := res <| tr_Server := capsSummary (il_Caps lib (im_peer m)) |> in
          imapTestStep loginStage res (imapLogin (mc_Username cfg) password) (λ _,
            let@ x := examineAll (testFolders EqualFold cfg) res None in
            match x with
            | (res, Some e) => mret_ (testFail errText res StageFolder e)
            | (res, None) =>
                let@ _ := logCmd cmdLogout in
                mtry (onLibErr (il_Logout lib)) (λ _, mret_ (testSucceed res))
            end) m) in
      mtry (onLibErr (il_Close lib)) (λ _, mret_ out)
  end.
End test.
End imap.

(** As a [Client] *)
Definition imap_client {P} (lib : imapLib P) : MailClient (imapMailbox P) := {|
  cl_Fetch := imapFetch lib; cl_Ack := imapAck lib; cl_Close := imapClose lib; cl_Idle := Some (imapIdle lib) |}.

(** ** Either protocol *)

Section mailbox.
Context {P : Type} (net : network P) (lib : imapLib P).

Inductive mailSession := imapSession (m : imapMailbox P) | pop3Session (m : pop3Mailbox P) | noSession.

(** [Dial] from the mailbox's side [p]; a session that failed is returned too,
    for what it did. *)
Definition Dial (cfg : MailConfig) (cipher : option (string → mailErr + string)) (p : P) : (mailErr + unit) * mailSession :=
  match ValidateConfig cfg with
  | Some e => (inl (DialError StageConfig e), noSession)
  | None =>
      let cfg := configDefaults cfg in
      match decryptPassword cipher cfg with
      | inl e => (inl (DialError StageConfig (errWrap "mailbox: decrypt password" e)), noSession)
      | inr password =>
          if strEq (mc_Protocol cfg) ProtocolIMAP
          then let '(r, m) := dialIMAP lib cfg password (newImap p) in (r, imapSession m)
          else let '(r, m) := dialPOP3 net cfg password (newSession p) in (r, pop3Session m)
      end
  end.

Context (errText : mailErr → string) (EqualFold : string → string → bool).

(** [Test]; a step of a test does not fail, its result says what did. *)
Definition Test (cfg : MailConfig) (cipher : option (string → mailErr + string)) (p : P) : TestResult * mailSession :=
  let res := mkTestResult false "" "" ∅ "" in
  let result (r : mailErr + TestResult) : TestResult := match r with inr t => t | inl e => testFail errText res StageDial e end in
  match ValidateConfig cfg with
  | Some e => (testFail errText res StageConfig e, noSession)
  | None =>
      let cfg := testTimeouts (configDefaults cfg) in
      match decryptPassword cipher cfg with
      | inl e => (testFail errText res StageConfig (errWrap "cannot decrypt the stored password" e), noSession)
      | inr password =>
          if strEq (mc_Protocol cfg) ProtocolIMAP
          then let '(r, m) := testIMAP lib errText EqualFold cfg password res (newImap p) in (result r, imapSession m)
          else let '(r, m) := testPOP3 net errText cfg password res (newSession p) in (result r, pop3Session m)
      end
  end.
End mailbox.
Arguments mailSession : clear implicits.
