(* ===== verification/MailboxProps.v ===== *)
(** * Properties of mailbox sessions

    Credentials only go out over TLS when the mailbox asks for it; a handled
    message is marked before anything else happens to it; and against a server
    that keeps RFC 3501's promises ([ImapServer]) an IMAP session keeps the
    promise of the mailbox interface. *)

From Stdlib Require Import DecimalString DecimalN.
From S2P Require Import Prelude Enums Model Classify Codec Tokens LineReader Email Text Platform BounceReport Bounce MailboxHealth Mailbox Pop3 Pop3Props Imap.

(** ** Credentials *)

Section imap.
Context {P : Type} (lib : imapLib P).
#[local] Abbreviation session := (imapMailbox P).

Definition isLogin (c : imapCommand) : bool := match c with cmdLogin _ _ => true | _ => false end.

(** Every login went over TLS. *)
Definition loginsSecure (m : session) : Prop := Forall (λ x, isLogin x.2 = true → x.1 = true) (im_log m).
Definition imapSecured (m : session) : Prop := loginsSecure m ∧ im_secure m = true.

(** Operations that neither log in nor change the kind of connection. *)
Definition quietOp {A} (m : MM session A) : Prop :=
  ∀ s, loginsSecure s → loginsSecure (m s).2 ∧ im_secure (m s).2 = im_secure s.

Lemma quiet_onLib {A} (f : P → (mailErr + A) * P) : quietOp (onLib f).
Proof. intros s Hs. unfold onLib. by destruct (f (im_peer s)). Qed.
Lemma quiet_onLibErr f : quietOp (onLibErr f).
Proof. apply quiet_onLib. Qed.
Lemma quiet_log c : isLogin c = false → quietOp (logCmd c).
Proof. intros Hc s Hs. split; [|done]. apply Forall_app. split; [done|]. apply Forall_singleton. cbn. by rewrite Hc. Qed.
Lemma quietOp_ret {A} (a : A) : quietOp (mret_ a).
Proof. done. Qed.
Lemma quiet_fail {A} e : quietOp (A := A) (mfail e).
Proof. done. Qed.
Lemma quietOp_bind {A B} (m : MM session A) (k : A → MM session B) : quietOp m → (∀ a, quietOp (k a)) → quietOp (mbind_ m k).
Proof.
  intros Hm Hk s Hs. unfold mbind_. destruct (Hm s Hs) as [H1 H2]. destruct (m s) as [[e|a] s']; cbn in *; [done|].
  destruct (Hk a s' H1) as [H3 H4]. split; [done|]. by rewrite H4.
Qed.
Lemma quiet_try {A B} (m : MM session A) (k : mailErr + A → MM session B) : quietOp m → (∀ r, quietOp (k r)) → quietOp (mtry m k).
Proof.
  intros Hm Hk s Hs. unfold mtry. destruct (Hm s Hs) as [H1 H2]. destruct (m s) as [r s']; cbn in *.
  destruct (Hk r s' H1) as [H3 H4]. split; [done|]. by rewrite H4.
Qed.
Lemma quiet_mapErr {A} f (m : MM session A) : quietOp m → quietOp (mapErr f m).
Proof. intros Hm. apply quiet_try; [done|]. intros [e|a]; [apply quiet_fail|apply quietOp_ret]. Qed.
Lemma quiet_select folder ro : quietOp (imapSelect lib folder ro).
Proof. apply quietOp_bind; [by apply quiet_log|intros _]. apply quiet_onLib. Qed.

Lemma quiet_examine folders res firstErr : quietOp (examineAll lib folders res firstErr).
Proof.
  revert res firstErr. induction folders as [|f folders IH]; intros res firstErr; cbn [examineAll]; [apply quietOp_ret|].
  apply quiet_try; [apply quiet_select|]. by intros [e|n].
Qed.

Lemma quiet_hoare {A} (m : MM session A) : quietOp m → hoare imapSecured m (λ _, imapSecured).
Proof. intros Hm s [Hs Hc]. destruct (Hm s Hs) as [H1 H2]. split; [done|]. by rewrite H2. Qed.

Lemma login_secured u pw : hoare imapSecured (imapLogin lib u pw) (λ _, imapSecured).
Proof.
  intros s [Hs Hc]. unfold imapLogin, mbind_, logCmd, mdo. apply (quiet_hoare _ (quiet_onLibErr _)). split; [|done].
  apply Forall_app. split; [done|]. apply Forall_singleton. done.
Qed.

(** A connected session will be secure before the login. *)
Definition imapUpgradable (cfg : MailConfig) (m : session) : Prop :=
  loginsSecure m ∧ (im_secure m = true ∨ mc_TLS cfg = TLSModeSTARTTLS).

Definition imapOk {A} (r : mailErr + A) (s : session) : Prop := match r with inl _ => loginsSecure s | inr _ => imapSecured s end.

Lemma imapDialStaged_upgradable cfg (p : P) :
  mc_TLS cfg = TLSModeSTARTTLS ∨ mc_TLS cfg = TLSModeImplicit →
  let '(r, m) := imapDialStaged lib cfg (newImap p) in
  ∃ f, r = inr f ∧ loginsSecure m ∧ (f = None → imapUpgradable cfg m).
Proof.
  intros Ht. unfold imapDialStaged, mtry at 1, onLibErr at 1, onLib at 1. cbn. destruct (il_dial lib p) as [[e|] p1].
  { eexists. split_and!; [done|constructor|done]. }
  unfold strEq. case_bool_decide as Himp; cbn [negb].
  - unfold mtry at 1, onLibErr at 1, onLib at 1. cbn. destruct (il_handshake lib p1) as [[e|] p2].
    + unfold mtry, onLibErr, onLib. cbn. destruct (il_Close lib p2) as [[e'|] p3]; eexists; (split_and!; [done|constructor|done]).
    + eexists. split_and!; [done|constructor|]. intros _. split; [constructor|by left].
  - eexists. split_and!; [done|constructor|]. intros _. split; [constructor|]. right. naive_solver.
Qed.

Lemma greet_secure cfg : hoare (imapUpgradable cfg) (imapGreet lib cfg) imapOk.
Proof.
  intros s [Hs Hc]. unfold imapGreet, strEq. case_bool_decide as Ht.
  - unfold mbind_. destruct (quiet_onLibErr (il_NewStartTLS lib) s Hs) as [H1 _].
    destruct (onLibErr (il_NewStartTLS lib) s) as [[e|[]] s']; cbn in *; [done|]. by split.
  - destruct Hc as [Hc|Hc]; [|done]. destruct (quiet_onLibErr (il_WaitGreeting lib) s Hs) as [H1 H2].
    destruct (onLibErr (il_WaitGreeting lib) s) as [[e|[]] s']; cbn in *; [done|]. split; [done|]. by rewrite H2.
Qed.

Lemma imap_step_secured {A} f (m : MM session A) (k : A → MM session unit) (Pre : session → Prop) :
  hoare Pre m imapOk → (∀ a, hoare imapSecured (k a) (λ _, loginsSecure)) →
  hoare Pre (let@ a := mapErr f m in k a) (λ _, loginsSecure).
Proof. intros Hm Hk. eapply (hoare_bind _ _ _ (λ _, imapSecured) (λ _, loginsSecure)); [|done|done]. by apply hoare_mapErr. Qed.

Lemma secured_ok {A} (m : MM session A) : hoare imapSecured m (λ _, imapSecured) → hoare imapSecured m imapOk.
Proof. intros Hm. eapply hoare_conseq; [exact Hm|done|]. by intros [e|a] s [? ?]. Qed.

Lemma imap_dial_secure cfg password p :
  mc_TLS cfg = TLSModeSTARTTLS ∨ mc_TLS cfg = TLSModeImplicit →
  loginsSecure (dialIMAP lib cfg password (newImap p)).2.
Proof.
  intros Ht. unfold dialIMAP, mbind_ at 1. pose proof (imapDialStaged_upgradable cfg p Ht) as Hd.
  destruct (imapDialStaged lib cfg (newImap p)) as [r m]. destruct Hd as (f&->&Hs&Hu). destruct f as [[stage e]|]; [done|].
  specialize (Hu eq_refl). unfold closingImap.
  eapply (hoare_try (imapUpgradable cfg) _ _ (λ _, loginsSecure) (λ _, loginsSecure)); [| |exact Hu].
  - apply imap_step_secured; [apply greet_secure|intros _]. apply imap_step_secured; [apply secured_ok, login_secured|intros _].
    apply imap_step_secured; [apply secured_ok, quiet_hoare, quiet_select|intros _]. by intros s [? _].
  - intros [e|a] s Hl; [|done]. by apply (quiet_try _ _ (quiet_onLibErr (il_Close lib)) (λ _, quiet_fail e)).
Qed.

Lemma imapTestStep_secure {A} errText stage res (m : MM session A) k (Pre : session → Prop) :
  hoare Pre m imapOk → (∀ a, hoare imapSecured (k a) (λ _, loginsSecure)) →
  hoare Pre (imapTestStep errText stage res m k) (λ _, loginsSecure).
Proof. intros Hm Hk. eapply hoare_try; [exact Hm|]. intros [e|a]; [by intros s|apply Hk]. Qed.

Lemma imap_test_secure errText EqualFold cfg password res p :
  mc_TLS cfg = TLSModeSTARTTLS ∨ mc_TLS cfg = TLSModeImplicit →
  loginsSecure (testIMAP lib errText EqualFold cfg password res (newImap p)).2.
Proof.
  intros Ht. unfold testIMAP, mbind_ at 1. pose proof (imapDialStaged_upgradable cfg p Ht) as Hd.
  destruct (imapDialStaged lib cfg (newImap p)) as [r m]. destruct Hd as (f&->&Hs&Hu). destruct f as [[stage e]|]; [done|].
  specialize (Hu eq_refl).
  eapply (hoare_bind (imapUpgradable cfg) _ _ (λ _, loginsSecure) (λ _, loginsSecure) (λ _, loginsSecure)); [|done|intros out|exact Hu].
  2: { intros s Hl. by apply (quiet_try _ _ (quiet_onLibErr (il_Close lib)) (λ _, quietOp_ret out)). }
  apply (hoare_conseq (imapUpgradable cfg) _ _ (λ _, loginsSecure)); [|done|by intros [? | ?]].
  apply imapTestStep_secure; [apply greet_secure|intros _ s Hs']. cbv zeta.
  apply (imapTestStep_secure _ _ _ _ _ imapSecured); [apply secured_ok, login_secured|intros _|exact Hs'].
  intros s1 [Hs1 _]. apply quietOp_bind; [apply quiet_examine| |done]. intros [res' [e|]]; [apply quietOp_ret|].
  apply quietOp_bind; [by apply quiet_log|intros _]. apply quiet_try; [apply quiet_onLibErr|]. intros r. apply quietOp_ret.
Qed.
End imap.

(** No credentials went out in the clear. *)
Definition credentialsSecure {P} (s : mailSession P) : Prop :=
  match s with
  | imapSession m => loginsSecure m
  | pop3Session m => sentSecurely m
  | noSession => True
  end.

Lemma valid_tls cfg : ValidateConfig cfg = None → mc_TLS cfg ≠ TLSModeNone →
  mc_TLS (configDefaults cfg) = TLSModeSTARTTLS ∨ mc_TLS (configDefaults cfg) = TLSModeImplicit.
Proof.
  intros Hv Hn.
  assert (Hin : mc_TLS cfg ∈ [TLSModeNone; TLSModeSTARTTLS; TLSModeImplicit; ""]).
  { unfold ValidateConfig in Hv. repeat case_match; try done;
      match goal with H : negb (contains _ _) = false |- _ => apply negb_false_iff in H; by apply bool_decide_eq_true_1 in H end. }
  assert (Hd : mc_TLS (configDefaults cfg) = if strEq (mc_TLS cfg) "" then TLSModeImplicit else mc_TLS cfg).
  { unfold configDefaults. destruct (strEq (mc_TLS cfg) ""); repeat case_match; done. }
  rewrite Hd. unfold strEq. case_bool_decide; [by right|]. rewrite !elem_of_cons in Hin. set_solver.
Qed.

Lemma timeouts_tls cfg : mc_TLS (testTimeouts cfg) = mc_TLS cfg.
Proof. unfold testTimeouts. by repeat case_match. Qed.

(** C34 (credentials): whatever the server answers and however the session
    ends, opening a mailbox and testing one never send a credential over a
    connection that is not TLS, unless the mailbox is configured without TLS;
    over POP3 the only command that goes out in the clear is the request for
    TLS itself. *)
Theorem mailbox_credentials_secure {P} (net : network P) (lib : imapLib P) errText EqualFold cfg cipher p :
  mc_TLS cfg ≠ TLSModeNone →
  credentialsSecure (Dial net lib cfg cipher p).2 ∧ credentialsSecure (Test net lib errText EqualFold cfg cipher p).2.
Proof.
  intros Hn. unfold Dial, Test. destruct (ValidateConfig cfg) eqn:Hv; [done|]. pose proof (valid_tls cfg Hv Hn) as Ht.
  split.
  - destruct (decryptPassword cipher _) as [e|pw]; [done|]. destruct (strEq _ ProtocolIMAP).
    + pose proof (imap_dial_secure lib _ pw p Ht). by destruct (dialIMAP _ _ _ _).
    + pose proof (dial_secure net _ pw p Ht). by destruct (dialPOP3 _ _ _ _).
  - rewrite <- timeouts_tls in Ht. cbv zeta. destruct (decryptPassword cipher _) as [e|pw]; [done|]. destruct (strEq _ ProtocolIMAP).
    + pose proof (imap_test_secure lib errText EqualFold _ pw (mkTestResult false "" "" ∅ "") p Ht). by destruct (testIMAP _ _ _ _ _ _ _).
    + pose proof (test_secure net errText _ pw (mkTestResult false "" "" ∅ "") p Ht). by destruct (testPOP3 _ _ _ _ _ _).
Qed.

(** ** A server that follows RFC 3501 *)

Record imapMail := mkImapMail { ix_uid : Z; ix_raw : string; ix_date : Time; ix_flags : list string }.
#[global] Instance imapMail_eq_dec : EqDecision imapMail.
Proof. solve_decision. Defined.
#[global] Instance imapMail_eta : Eta imapMail := λ x, mkImapMail (ix_uid x) (ix_raw x) (ix_date x) (ix_flags x).

Definition imapMessage (x : imapMail) : Message := mkMessage (itoa (ix_uid x)) (ix_raw x) (ix_date x).
Definition bufferOf (x : imapMail) : fetchBuffer := mkFetchBuffer (ix_uid x) (Some (ix_raw x)) (ix_date x).

Definition unhandledMail (x : imapMail) : Prop := FlagSeen ∉ ix_flags x ∧ FlagDeleted ∉ ix_flags x.
#[global] Instance unhandledMail_dec x : Decision (unhandledMail x).
Proof. unfold unhandledMail. apply _. Defined.

Definition storeFlags (uids : list Z) (flags : list string) (xs : list imapMail) : list imapMail :=
  (λ x, if bool_decide (ix_uid x ∈ uids) then x <| ix_flags := ix_flags x ++ flags |> else x) <$> xs.

(** SEARCH, FETCH, STORE and EXPUNGE in the selected mailbox, which others
    leave alone; peeking sets no flag. *)
Class ImapServer {P} (lib : imapLib P) := {
  is_ok : P → Prop;
  is_mails : P → list imapMail;
  is_ctx p : is_ok p → il_ctx lib p = None;
  is_sorted p : is_ok p → StronglySorted (λ a b, ix_uid a < ix_uid b) (is_mails p);
  is_range p x : is_ok p → x ∈ is_mails p → 0 < ix_uid x < 2 ^ 32;
  is_search p : is_ok p → ∃ uids p', il_UIDSearch lib unhandledCriteria p = (inr uids, p') ∧
    is_ok p' ∧ is_mails p' = is_mails p ∧ uids ≡ₚ ix_uid <$> filter unhandledMail (is_mails p);
  is_fetch p uids : is_ok p → ∃ bufs p', il_Fetch lib uids p = (inr bufs, p') ∧
    is_ok p' ∧ is_mails p' = is_mails p ∧ bufs ≡ₚ bufferOf <$> filter (λ x, ix_uid x ∈ uids) (is_mails p);
  is_store p uids flags : is_ok p → ∃ p', il_Store lib uids flags p = (None, p') ∧
    is_ok p' ∧ is_mails p' = storeFlags uids flags (is_mails p);
  is_uidexpunge p uids : is_ok p → ∃ p', il_UIDExpunge lib uids p = (None, p') ∧
    is_ok p' ∧ is_mails p' = filter (λ x, ¬ (FlagDeleted ∈ ix_flags x ∧ ix_uid x ∈ uids)) (is_mails p);
  is_expunge p : is_ok p → ∃ p', il_Expunge lib p = (None, p') ∧
    is_ok p' ∧ is_mails p' = filter (λ x, FlagDeleted ∉ ix_flags x) (is_mails p);
}.

Lemma sorted_uid (l : list imapMail) x y :
  StronglySorted (λ a b, ix_uid a < ix_uid b) l → x ∈ l → y ∈ l → ix_uid x = ix_uid y → x = y.
Proof.
  intros Hs Hx Hy He. induction Hs as [|z xs Hs IH Hz]; [by apply elem_of_nil in Hx|].
  rewrite Forall_forall in Hz. apply elem_of_cons in Hx as [->|Hx], Hy as [->|Hy].
  - done.
  - specialize (Hz y Hy). lia.
  - specialize (Hz x Hx). lia.
  - by apply IH.
Qed.

Lemma SSorted_filter {A} (R : A → A → Prop) (F : A → Prop) `{!∀ x, Decision (F x)} (l : list A) :
  StronglySorted R l → StronglySorted R (filter F l).
Proof.
  intros Hs. induction Hs as [|x xs Hs IH Hx]; [constructor|]. rewrite filter_cons. case_decide; [|done].
  constructor; [done|]. rewrite Forall_forall in Hx |- *. intros y [_ Hy]%list_elem_of_filter. by apply Hx.
Qed.

Lemma SSorted_NoDup (l : list imapMail) : StronglySorted (λ a b, ix_uid a < ix_uid b) l → NoDup (ix_uid <$> l).
Proof.
  induction 1 as [|x xs Hs IH Hx]; cbn; constructor; [|done]. rewrite Forall_forall in Hx.
  intros (y&He&Hy)%list_elem_of_fmap. specialize (Hx y Hy). lia.
Qed.

Lemma sort_uids (l : list imapMail) uids :
  StronglySorted (λ a b, ix_uid a < ix_uid b) l → uids ≡ₚ ix_uid <$> l → merge_sort Z.le uids = ix_uid <$> l.
Proof.
  intros Hs Hp. apply (StronglySorted_unique Z.le).
  - apply StronglySorted_merge_sort; apply _.
  - clear Hp. induction Hs as [|x xs Hs IH Hx]; cbn; constructor; [done|]. apply Forall_fmap.
    eapply Forall_impl; [exact Hx|]. cbn. lia.
  - by rewrite merge_sort_Permutation.
Qed.

(** The messages picked by the UIDs of a prefix are the prefix. *)
Lemma filter_uids (l b rest : list imapMail) F `{!∀ x, Decision (F x)} :
  StronglySorted (λ a b, ix_uid a < ix_uid b) l → filter F l = b ++ rest →
  filter (λ x, ix_uid x ∈ ix_uid <$> b) l = b.
Proof.
  intros Hs Hf. pose proof (SSorted_NoDup _ (SSorted_filter _ F l Hs)) as Hnd. rewrite Hf, fmap_app in Hnd.
  apply NoDup_app in Hnd as (_&Hdis&_).
  rewrite (list_filter_ext _ (λ x, x ∈ b ∧ F x)).
  - rewrite <- list_filter_filter, Hf, filter_app, list_filter_all by done.
    rewrite (list_filter_ext _ (λ _, False)).
    + generalize rest. clear. intros r. assert (filter (λ _ : imapMail, False) r = []) as ->; [|apply app_nil_r].
      induction r as [|x r IH]; [done|]. by rewrite filter_cons_False by tauto.
    + intros x Hx. split; [|by intros []]. intros Hb. eapply Hdis; by apply list_elem_of_fmap_2.
  - intros x Hx. split.
    + intros (y&He&Hy)%list_elem_of_fmap. assert (Hy' : y ∈ filter F l) by (rewrite Hf; set_solver).
      apply list_elem_of_filter in Hy' as [HF Hy']. by rewrite (sorted_uid l x y Hs Hx Hy' He).
    + intros [Hxb _]. by apply list_elem_of_fmap_2.
Qed.

Section unhandled.
Context {P : Type} (lib : imapLib P) `{!ImapServer lib}.
#[local] Abbreviation session := (imapMailbox P).

Definition imapIdleOk (m : session) : Prop := is_ok (im_peer m).
Definition imapPending (m : session) : list imapMail := filter unhandledMail (is_mails (im_peer m)).

Lemma pending_sorted m : imapIdleOk m → StronglySorted (λ a b, ix_uid a < ix_uid b) (imapPending m).
Proof. intros Hok. apply SSorted_filter. by apply is_sorted. Qed.

Lemma omap_buffers (xs : list imapMail) : omap bufferMessage (bufferOf <$> xs) = imapMessage <$> xs.
Proof. induction xs as [|x xs IH]; [done|]. cbn. by rewrite IH. Qed.

Lemma imapFetch_exact max (m : session) :
  imapIdleOk m →
  ∃ batch m', imapFetch lib max m = (inr batch, m') ∧ batch ≡ₚ imapMessage <$> capTo max (imapPending m) ∧
    imapIdleOk m' ∧ is_mails (im_peer m') = is_mails (im_peer m).
Proof.
  intros Hok. destruct (is_search _ Hok) as (uids&p1&Hs&Hok1&Hm1&Hp). unfold imapFetch, searchAndFetch.
  unfold mbind_ at 1 2, logCmd, mdo, mapErr at 1, mtry, onLib at 1. cbn [im_peer]. cbn. rewrite Hs. cbn. destruct uids as [|u us] eqn:Eu.
  - apply Permutation_nil_l in Hp. symmetry in Hp. apply fmap_nil_inv in Hp.
    eexists [], _. split_and!; [done| |done|done]. unfold imapPending. rewrite Hp. unfold capTo. by destruct (_ && _); rewrite ?take_nil.
  - rewrite <- Eu in *. clear u us Eu. pose proof (pending_sorted m Hok) as Hsort. fold (imapPending m) in Hp.
    rewrite (sort_uids _ _ Hsort Hp), capTo_fmap. destruct (capTo_prefix max (imapPending m)) as [rest Hrest].
    set (b := capTo max (imapPending m)) in *.
    destruct (is_fetch p1 (ix_uid <$> b) Hok1) as (bufs&p2&Hf&Hok2&Hm2&Hb).
    unfold mbind_, mapErr, mtry, onLib. cbn. rewrite Hf. cbn. rewrite is_ctx by done. eexists _, _. split; [done|]. split_and!; [|done|by cbn; rewrite Hm2].
    rewrite merge_sort_Permutation, Hb, omap_buffers, Hm1. by rewrite (filter_uids _ b rest unhandledMail (is_sorted _ Hok) Hrest).
Qed.
Lemma parse_itoa u : 0 < u < 2 ^ 32 → ParseUint32 (itoa u) = Some u.
Proof.
  intros Hu. unfold itoa. rewrite (proj2 (Z.ltb_ge _ _)) by lia. unfold ParseUint32.
  rewrite decimal_digits, DecimalN.Unsigned.of_to, Z2N.id by lia. by rewrite (proj2 (Z.ltb_lt _ _)) by lia.
Qed.

Lemma itoa_inj u v : 0 < u < 2 ^ 32 → 0 < v < 2 ^ 32 → itoa u = itoa v → u = v.
Proof. intros Hu Hv He%(f_equal ParseUint32). rewrite !parse_itoa in He by done. by injection He. Qed.

Lemma parseUIDs_exact ids :
  (∀ id, id ∈ ids → ∃ u, id = itoa u ∧ 0 < u < 2 ^ 32) →
  ∃ uids, parseUIDs ids = inr uids ∧ ids = itoa <$> uids ∧ ∀ u, u ∈ uids → 0 < u < 2 ^ 32.
Proof.
  induction ids as [|id ids IH]; intros Hids. { exists []. split_and!; [done..|]. intros u Hu. by apply elem_of_nil in Hu. }
  destruct (Hids id (list_elem_of_here _ _)) as (u&->&Hu).
  destruct IH as (uids&Hp&->&Hr). { intros id' Hid'. apply Hids. by right. }
  exists (u :: uids). cbn [parseUIDs]. rewrite parse_itoa by done. rewrite Hp. split_and!; [done..|]. by intros v [->|Hv%Hr]%elem_of_cons.
Qed.

Lemma storeFlags_pending uids flag xs :
  flag = FlagSeen ∨ flag = FlagDeleted →
  filter unhandledMail (storeFlags uids [flag] xs) = filter (λ x, ix_uid x ∉ uids) (filter unhandledMail xs).
Proof.
  intros Hf. induction xs as [|x xs IH]; [done|]. unfold storeFlags. cbn [fmap list_fmap]. fold (storeFlags uids [flag] xs).
  case_bool_decide as Hin.
  - rewrite filter_cons_False by (intros [H1 H2]; cbn in *; set_solver). rewrite IH, (filter_cons unhandledMail x).
    case_decide; [|done]. by rewrite filter_cons_False by tauto.
  - rewrite !filter_cons, IH. case_decide; [|done]. by rewrite filter_cons_True.
Qed.

Lemma imapStore_exact uids flag (m : session) :
  imapIdleOk m → flag = FlagSeen ∨ flag = FlagDeleted →
  ∃ m', imapStore lib uids [flag] m = (inr tt, m') ∧ imapIdleOk m' ∧
    imapPending m' = filter (λ x, ix_uid x ∉ uids) (imapPending m).
Proof.
  intros Hok Hf. destruct (is_store _ uids [flag] Hok) as (p'&Hs&Hok'&Hm).
  unfold imapStore, mbind_, logCmd, mdo, mapErr, mtry, onLibErr, onLib. cbn. rewrite Hs.
  eexists. split_and!; [done|done|]. unfold imapPending. cbn. rewrite Hm. by apply storeFlags_pending.
Qed.

Lemma imapExpunge_exact uids (m : session) :
  imapIdleOk m →
  ∃ m', imapExpunge lib uids m = (inr tt, m') ∧ imapIdleOk m' ∧
    imapPending m' = filter (λ x, ix_uid x ∉ uids) (imapPending m).
Proof.
  intros Hok. destruct (imapStore_exact uids FlagDeleted m Hok) as (m1&Hs&Hok1&Hp1); [by right|].
  unfold imapExpunge. unfold mbind_ at 1. rewrite Hs. case_bool_decide.
  - destruct (is_uidexpunge _ uids Hok1) as (p'&He&Hok'&Hm). unfold mbind_, logCmd, mdo, mapErr, mtry, onLibErr, onLib. cbn. rewrite He.
    eexists. split_and!; [done|done|]. unfold imapPending in *. cbn. rewrite Hm, <- Hp1. apply list_filter_filter_l. by intros x [_ ?] [? _].
  - destruct (is_expunge _ Hok1) as (p'&He&Hok'&Hm). unfold mbind_, logCmd, mdo, mapErr, mtry, onLibErr, onLib. cbn. rewrite He.
    eexists. split_and!; [done|done|]. unfold imapPending in *. cbn. rewrite Hm, <- Hp1. apply list_filter_filter_l. by intros x [_ ?].
Qed.

Lemma filter_imapMessage (uids : list Z) (xs : list imapMail) :
  (∀ u, u ∈ uids → 0 < u < 2 ^ 32) → (∀ x, x ∈ xs → 0 < ix_uid x < 2 ^ 32) →
  filter (λ m, mg_ID m ∉ itoa <$> uids) (imapMessage <$> xs) = imapMessage <$> filter (λ x, ix_uid x ∉ uids) xs.
Proof.
  intros Hu Hx. induction xs as [|x xs IH]; [done|]. cbn [fmap list_fmap].
  rewrite !filter_cons, IH by (intros y Hy; apply Hx; by right). cbn [mg_ID imapMessage].
  assert (Hiff : itoa (ix_uid x) ∈ itoa <$> uids ↔ ix_uid x ∈ uids).
  { split; [|apply list_elem_of_fmap_2]. intros (u&He&Hin)%list_elem_of_fmap.
    apply itoa_inj in He as ->; [done| |by apply Hu]. apply Hx. by left. }
  repeat case_decide; tauto || done.
Qed.

(** Acknowledging takes the messages off the unhandled ones, whether they are
    kept or deleted. *)
Lemma imapAck_exact a ids (m : session) :
  a = ActionKeep ∨ a = ActionDelete → imapIdleOk m →
  (∀ id, id ∈ ids → ∃ x, x ∈ is_mails (im_peer m) ∧ id = itoa (ix_uid x)) →
  ∃ m', imapAck lib ids a m = (inr tt, m') ∧ imapIdleOk m' ∧
    imapMessage <$> imapPending m' = filter (λ y, mg_ID y ∉ ids) (imapMessage <$> imapPending m).
Proof.
  intros Ha Hok Hids. unfold imapAck. case_bool_decide as Hnil.
  { subst ids. exists m. split_and!; [done..|]. symmetry. apply list_filter_all. intros y _. apply not_elem_of_nil. }
  destruct (parseUIDs_exact ids) as (uids&Hp&->&Hr).
  { intros id (x&Hx&->)%Hids. exists (ix_uid x). split; [done|]. by eapply is_range. }
  rewrite Hp. destruct (imapStore_exact uids FlagSeen m Hok) as (m1&Hs&Hok1&Hp1); [by left|].
  rewrite filter_imapMessage; [|done|intros x [_ Hx]%list_elem_of_filter; exact (is_range _ x Hok Hx)].
  unfold mbind_ at 1. rewrite Hs. destruct Ha as [->| ->].
  - exists m1. split_and!; [done..|]. by rewrite Hp1.
  - destruct (imapExpunge_exact uids m1 Hok1) as (m2&He&Hok2&Hp2). exists m2. split_and!; [exact He|done|].
    rewrite Hp2, Hp1, list_filter_filter. f_equal. apply list_filter_iff. tauto.
Qed.

(** An IMAP session keeps the interface's promise, deleting or not. *)
Lemma imap_unhandled_for a : a = ActionKeep ∨ a = ActionDelete → @UnhandledMail (imapMailbox P) (imap_client lib) a.
Proof.
  intros Ha. refine (@Build_UnhandledMail _ (imap_client lib) a imapIdleOk (λ m, imapMessage <$> imapPending m) _ _).
  - intros m Hok. rewrite <- list_fmap_compose. change (mg_ID ∘ imapMessage) with (itoa ∘ ix_uid). rewrite list_fmap_compose.
    pose proof (SSorted_NoDup _ (pending_sorted m Hok)) as Hnd.
    assert (Hr : ∀ u, u ∈ ix_uid <$> imapPending m → 0 < u < 2 ^ 32).
    { intros u (x&->&[_ Hx]%list_elem_of_filter)%list_elem_of_fmap. by eapply is_range. }
    induction Hnd as [|u us Hu Hnd IH]; [constructor|]. cbn. constructor.
    + intros (v&He&Hv)%list_elem_of_fmap. apply itoa_inj in He as ->; [done|apply Hr; by left|apply Hr; by right].
    + apply IH. intros v Hv. apply Hr. by right.
  - intros max m Hok Hm. destruct (imapFetch_exact max m Hok) as (batch&m'&Hf&Hb&Hok'&Hmails). exists batch, m'.
    assert (Hpm : imapPending m' = imapPending m) by (unfold imapPending; by rewrite Hmails).
    split_and!; [exact Hf|by rewrite capTo_fmap|done|by rewrite Hpm|].
    intros ids Hids. destruct (imapAck_exact a ids m' Ha Hok') as (m''&Hack&Hok''&Hp).
    + intros id Hid%Hids. rewrite Hb, <- list_fmap_compose in Hid. apply list_elem_of_fmap in Hid as (x&->&Hx).
      exists x. split; [|done]. rewrite Hmails. apply elem_of_capTo in Hx. by apply list_elem_of_filter in Hx as [_ ?].
    + exists m''. split_and!; [exact Hack|done|]. by rewrite Hp, Hpm.
Defined.

#[global] Instance imap_unhandled_keep : @UnhandledMail (imapMailbox P) (imap_client lib) ActionKeep.
Proof. apply imap_unhandled_for. by left. Defined.
#[global] Instance imap_unhandled_delete : @UnhandledMail (imapMailbox P) (imap_client lib) ActionDelete.
Proof. apply imap_unhandled_for. by right. Defined.
End unhandled.

(** ** Concrete runs *)

(** A mailbox in memory, behind a server that refuses STARTTLS if told so. *)
Record imapPeer := mkImapPeer { ip_mails : list imapMail; ip_tls : bool }.

Definition memImap : imapLib imapPeer := {|
  il_dial := λ p, (None, p);
  il_handshake := λ p, (None, p);
  il_NewStartTLS := λ p, (if ip_tls p then None else Some (imapError "STARTTLS is not supported"), p);
  il_WaitGreeting := λ p, (None, p);
  il_Login := λ _ _ p, (None, p);
  il_Select := λ _ _ p, (inr (len (ip_mails p)), p);
  il_Logout := λ p, (None, p);
  il_Close := λ p, (None, p);
  il_Caps := λ _, {[CapUIDPlus]};
  il_UIDSearch := λ c p, (inr (ix_uid <$> filter (λ x, Forall (λ f, f ∉ ix_flags x) (sc_NotFlag c)) (ip_mails p)), p);
  il_Fetch := λ uids p, (inr (bufferOf <$> filter (λ x, ix_uid x ∈ uids) (ip_mails p)), p);
  il_Store := λ uids flags p, (None, mkImapPeer (storeFlags uids flags (ip_mails p)) (ip_tls p));
  il_Move := λ _ _ p, (Some (imapError "MOVE is not supported"), p);
  il_Copy := λ _ _ p, (Some (imapError "no such mailbox"), p);
  il_UIDExpunge := λ uids p,
    (None, mkImapPeer (filter (λ x, ¬ (FlagDeleted ∈ ix_flags x ∧ ix_uid x ∈ uids)) (ip_mails p)) (ip_tls p));
  il_Expunge := λ p, (None, mkImapPeer (filter (λ x, FlagDeleted ∉ ix_flags x) (ip_mails p)) (ip_tls p));
  il_IdleStart := λ p, (None, p);
  il_IdleStop := λ _ p, (None, p);
  il_ctx := λ _, None |}.

Definition memOk (p : imapPeer) : Prop :=
  StronglySorted (λ a b, ix_uid a < ix_uid b) (ip_mails p) ∧ Forall (λ x, 0 < ix_uid x < 2 ^ 32) (ip_mails p).

Lemma memOk_filter p (F : imapMail → Prop) `{!∀ x, Decision (F x)} : memOk p → memOk (mkImapPeer (filter F (ip_mails p)) (ip_tls p)).
Proof.
  intros [Hs Hr]. split; [by apply SSorted_filter|]. cbn. rewrite Forall_forall in Hr |- *.
  intros x [_ Hx]%list_elem_of_filter. by apply Hr.
Qed.

(** It follows RFC 3501. *)
#[global] Instance memImap_server : ImapServer memImap.
Proof.
  refine (Build_ImapServer imapPeer memImap memOk ip_mails _ _ _ _ _ _ _ _).
  - done.
  - by intros p [? _].
  - intros p x [_ Hr]. rewrite Forall_forall in Hr. apply Hr.
  - intros p Hok. eexists _, p. split_and!; [done..|]. match goal with |- ?a ≡ₚ ?b => assert (a = b) as ->; [|done] end. f_equal. apply list_filter_iff. intros x.
    unfold unhandledMail. cbn. rewrite !Forall_cons. pose proof (Forall_nil_2 (λ f, f ∉ ix_flags x)). tauto.
  - intros p uids Hok. by eexists _, p.
  - intros p uids flags [Hs Hr]. eexists. split_and!; [done| |done]. split; cbn; unfold storeFlags.
    + clear Hr. induction Hs as [|x xs Hs IH Hx]; cbn; constructor; [done|]. apply Forall_fmap. eapply Forall_impl; [exact Hx|].
      intros y Hy. cbn. by repeat case_bool_decide.
    + apply Forall_fmap. eapply Forall_impl; [exact Hr|]. intros x Hx. cbn. by case_bool_decide.
  - intros p uids Hok. eexists. split_and!; [done|by apply memOk_filter|done].
  - intros p Hok. eexists. split_and!; [done|by apply memOk_filter|done].
Defined.

Definition sampleImap : imapPeer := mkImapPeer [mkImapMail 9 "old" 0 []; mkImapMail 10 "new" 0 []; mkImapMail 11 "done" 0 [FlagSeen]] false.

(** [Fetch] promises the oldest UID first; IDs are sorted as text. *)
Lemma imap_order_lexicographic :
  mg_ID <$> match (imapFetch memImap 0 (newImap sampleImap)).1 with inr l => l | inl _ => [] end = ["10"; "9"].
Proof. by vm_compute. Qed.

Definition sampleMailConfig (protocol tls : string) : MailConfig :=
  mkMailConfig protocol "mx.example.test" 0 tls "bounce" "secret" "" [] "" 0 0.

(** A network with no POP3 server. *)
Definition noNet {P} : network P := {|
  nw_dial := λ p, (Some (ioError "connection refused"), "", p);
  nw_handshake := λ p, (Some EOFError, "", p);
  nw_write := λ _ p, (Some EOFError, p);
  nw_flush := λ p, (Some EOFError, "", p);
  nw_readErr := λ _, EOFError;
  nw_close := λ p, (None, p);
  nw_ctx := λ _, None |}.

(** A server that refuses STARTTLS sees no password; without TLS it does. *)
Lemma mailbox_credentials_secure_witness :
  (let '(r, s) := Dial noNet memImap (sampleMailConfig ProtocolIMAP TLSModeSTARTTLS) None sampleImap in
   credentialsSecure s ∧ (match r with inl e => StageOf e | inr _ => StageOK end) = StageTLS) ∧
  match (Dial noNet memImap (sampleMailConfig ProtocolIMAP TLSModeNone) None sampleImap).2 with
  | imapSession m => im_log m = [(false, cmdLogin "bounce" "secret"); (false, cmdSelect "INBOX")]
  | _ => False
  end.
Proof.
  split; [|by vm_compute].
  destruct (mailbox_credentials_secure noNet memImap (λ _, "") (λ _ _, false) (sampleMailConfig ProtocolIMAP TLSModeSTARTTLS) None sampleImap)
    as [H _]; [done|].
  destruct (Dial noNet memImap (sampleMailConfig ProtocolIMAP TLSModeSTARTTLS) None sampleImap) as [r s] eqn:E. split; [exact H|].
  assert (r = (Dial noNet memImap (sampleMailConfig ProtocolIMAP TLSModeSTARTTLS) None sampleImap).1) as -> by by rewrite E.
  vm_compute. reflexivity.
Defined.
