(* ===== verification/Poller.v ===== *)
(** * The bounce mailbox poller ([internal/bounce/poller.go], [bounce.go])

    A pass over a mailbox takes the mailbox's lock, opens it, hands its mail to
    the processor batch by batch, acknowledges what was handled and gives the
    lock back, as a program over a world of stores and mailbox that interleaves
    with everybody else's calls.  Around it: the list of mailboxes, the workers
    that poll them and their schedule.  [PollerProps] holds the theorems. *)

From S2P Require Import Prelude Enums Model MemTable MemData DeliveryRepo Repos Provider Prog Settings Classify Codec Tokens LineReader Email Platform BounceReport Bounce MailboxHealth Mailbox.

(** ** Configuration *)

(** [TenantMailbox] *)
Record TenantMailbox := mkTenantMailbox {
  tm_TenantID : string;
  tm_MailboxID : string;
  tm_Config : MailConfig;
  tm_PollInterval : Duration;
  tm_Platform : bool;
}.
#[global] Instance TenantMailbox_eta : Eta TenantMailbox := λ m,
  mkTenantMailbox (tm_TenantID m) (tm_MailboxID m) (tm_Config m) (tm_PollInterval m) (tm_Platform m).

Definition mailboxKey (m : TenantMailbox) : string := tm_TenantID m +:+ "/" +:+ tm_MailboxID m.

Definition LockName (mailboxID : string) : string := "bounce:" +:+ mailboxID.

(** [RunnerConfig]: its durations and numbers. *)
Record RunnerConfig := mkRunnerConfig {
  rc_Owner : string;
  rc_PollInterval : Duration;
  rc_FetchBatch : Z;
  rc_RefreshInterval : Duration;
  rc_LockTTL : Duration;
  rc_SessionTimeout : Duration;
  rc_MaxBackoff : Duration;
  rc_UseIdle : bool;
}.
#[global] Instance RunnerConfig_eta : Eta RunnerConfig := λ c,
  mkRunnerConfig (rc_Owner c) (rc_PollInterval c) (rc_FetchBatch c) (rc_RefreshInterval c) (rc_LockTTL c)
    (rc_SessionTimeout c) (rc_MaxBackoff c) (rc_UseIdle c).

Definition DefaultMailboxInterval : Duration := Minute.
Definition DefaultFetchBatch : Z := 50.
Definition DefaultRefreshInterval : Duration := 5 * Minute.
Definition DefaultLockTTL : Duration := 2 * Minute.
Definition DefaultSessionTimeout : Duration := 10 * Minute.
Definition DefaultMaxBackoff : Duration := 15 * Minute.

(** [RunnerConfig.withDefaults] *)
Definition runnerDefaults (c : RunnerConfig) : RunnerConfig :=
  let c := if rc_PollInterval c <=? 0 then c <| rc_PollInterval := DefaultMailboxInterval |> else c in
  let c := if rc_FetchBatch c <=? 0 then c <| rc_FetchBatch := DefaultFetchBatch |> else c in
  let c := if rc_RefreshInterval c <=? 0 then c <| rc_RefreshInterval := DefaultRefreshInterval |> else c in
  let c := if rc_LockTTL c <=? 0 then c <| rc_LockTTL := DefaultLockTTL |> else c in
  let c := if rc_SessionTimeout c <=? 0 then c <| rc_SessionTimeout := DefaultSessionTimeout |> else c in
  if rc_MaxBackoff c <=? 0 then c <| rc_MaxBackoff := DefaultMaxBackoff |> else c.

(** [NewRunner]; provider and source are there. *)
Definition NewRunner (c : RunnerConfig) : option RunnerConfig :=
  if strEq (rc_Owner c) "" then None else Some (runnerDefaults c).

(** ** The list of mailboxes ([bounceMailboxes.ListMailboxes]) *)

(** A row as a mailbox to poll; none if its policy is unusable. *)
Definition pollable (tenantID : string) (m : BounceMailbox) : option TenantMailbox :=
  match ParseAction (bm_AfterProcess m) with
  | inl _ => None
  | inr action =>
      Some (mkTenantMailbox tenantID (bm_ID m)
              (mkMailConfig (if strEq (bm_Protocol m) "" then ProtocolIMAP else bm_Protocol m) (bm_Host m) (bm_Port m)
                 (bm_TLS m) (bm_Username m) (bm_Password m) (bm_Folder m) [] action 0 0)
              0 (IsPlatformID (bm_ID m)))
  end.

Fixpoint listTenants (tenants : list string) (out : list TenantMailbox) : progOn Provider (list TenantMailbox) :=
  match tenants with
  | [] => pret out
  | t :: tenants' =>
      let? st := call (λ _, ForTenant t) in
      let? boxes := tcall st ListEnabled in
      listTenants tenants' (out ++ omap (pollable t) boxes)
  end.

Definition ListMailboxes : progOn Provider (list TenantMailbox) :=
  let? tenants := call (λ _, Tenants) in
  listTenants (tenants ++ [SystemTenantID]) [].

(** ** Workers *)

(** The mailboxes to poll, by key. *)
Definition wantedBoxes (boxes : list TenantMailbox) : gmap string TenantMailbox :=
  foldl (λ want b, if strEq (tm_TenantID b) "" || strEq (tm_MailboxID b) "" then want else <[mailboxKey b := b]> want) ∅ boxes.

(** [refresh]: the workers, each with the mailbox its goroutine was started
    with; a failed listing changes nothing. *)
Definition refreshWorkers (listed : error + list TenantMailbox) (workers : gmap string TenantMailbox) : gmap string TenantMailbox :=
  match listed with
  | inl _ => workers
  | inr boxes =>
      let want := wantedBoxes boxes in
      filter (λ kv, is_Some (want !! kv.1)) workers ∪ want
  end.

(** [stopAll] *)
Definition stopAll (workers : gmap string TenantMailbox) : gmap string TenantMailbox := ∅.

(** ** One pass *)

(** [Stats] *)
Record Stats := mkStats {
  sx_Locked : bool;
  sx_Fetched : Z;
  sx_Processed : Z;
  sx_Recorded : Z;
  sx_Skipped : Z;
  sx_Acked : Z;
  sx_Idled : bool;
}.
#[global] Instance Stats_eta : Eta Stats := λ s,
  mkStats (sx_Locked s) (sx_Fetched s) (sx_Processed s) (sx_Recorded s) (sx_Skipped s) (sx_Acked s) (sx_Idled s).
Definition zeroStats : Stats := mkStats false 0 0 0 0 0 false.

(** An error of a pass: the store's or the mailbox's. *)
Inductive pollErr := storeErr (e : error) | boxErr (e : mailErr).

(** What a pass did to the mailbox and with its mail, for the record. *)
Inductive pollEvent :=
  | evFetched (ids : list string)
  | evHandled (id : string)
  | evAcked (ids : list string) (action : string).

(** The stores, the mailbox, and the record. *)
Record pollWorld (C : Type) := mkPollWorld { pw_store : Provider; pw_client : C; pw_log : list pollEvent }.
Arguments mkPollWorld {C} _ _ _. Arguments pw_store {C} _. Arguments pw_client {C} _. Arguments pw_log {C} _.
#[global] Instance pollWorld_eta C : Eta (pollWorld C) := λ w, mkPollWorld (pw_store w) (pw_client w) (pw_log w).

(** A pass returns its statistics and an error, or goes on. *)
Definition pollResult : Type := Stats * option pollErr.

Definition errDeadline : mailErr := ioError "context deadline exceeded".

Section poll.
Context {C : Type} `{MailClient C}.
(** [RunnerConfig.Dial], the processor, the outcome of a JSON encoding and
    the text of an error. *)
Context (dial : MailConfig → MM C unit)
        (processor : TenantMailbox → Message → string → Time → progOn Provider Outcome)
        (marshal : eventPayload → error + string) (errText : mailErr → string).
Context (cfg : RunnerConfig).
#[local] Abbreviation pworld := (pollWorld C).

(** A program on the stores. *)
Fixpoint onStores {A} (p : progOn Provider A) : progOn pworld A :=
  match p with
  | Done r => Done r
  | Call op k => Call (λ env w, let '(r, s) := op env (pw_store w) in (r, w <| pw_store := s |>)) (λ r, onStores (k r))
  | Poll k => Poll (λ b, onStores (k b))
  end.

(** An operation of the mailbox, recorded as [ev] of its result. *)
Definition onBox {A} (m : MM C A) (ev : mailErr + A → list pollEvent) : progOn pworld (mailErr + A) :=
  call (λ _ w, let '(r, c) := m (pw_client w) in (inr r, w <| pw_client := c |> <| pw_log := pw_log w ++ ev r |>)).

(** Nothing happens to the mailbox. *)
Definition note (ev : pollEvent) : progOn pworld unit := call (λ _ w, (inr tt, w <| pw_log := pw_log w ++ [ev] |>)).

(** [r.cfg.Clock().UTC()], and the next fresh ID *)
Definition clockNow : progOn pworld Time := call (λ env w, (inr (e_clock env), w)).
Definition freshID (n : Z) : progOn pworld string := call (λ env w, (inr (e_newID env (Z.to_nat n)), w)).

(** [recordHealth] *)
Definition recordHealth (st : string) (box : TenantMailbox) (dialErr : option mailErr) : progOn pworld unit :=
  Poll (λ canceled,
    if canceled then pret tt
    else
      handle (onStores (tcall st (λ env, zoom (field bounceMailboxes) (Get env (tm_MailboxID box))))) (λ r,
        match r with
        | inl _ => pret tt
        | inr row =>
            let outcome := match dialErr with None => OK | Some e => Fail_ (StageOf e) (errText e) end in
            let? now := clockNow in
            handle (onStores (inTenant st (RecordHealth marshal KindBounce
                      (mkMailbox (tm_MailboxID box) (bm_Name row) (bm_Health row)) outcome now)))
              (λ _, pret tt)
        end)).

(** [ack] *)
Definition ackBox (ids : list string) (action : string) : progOn pworld (mailErr + unit) :=
  match ids with
  | [] => pret (inr tt)
  | _ => onBox (cl_Ack ids action) (λ r, [evAcked ids action])
  end.

(** The counters of an outcome. *)
Definition countOutcome (out : Outcome) (s : Stats) : Stats :=
  let s := if oc_Processed out then s <| sx_Processed := sx_Processed s + 1 |> else s in
  let s := if oc_Recorded out then s <| sx_Recorded := sx_Recorded s + 1 |> else s in
  if negb (strEq (oc_Skipped out) "") then s <| sx_Skipped := sx_Skipped s + 1 |> else s.

(** The messages of a batch, until one fails; [handled] are the IDs that
    worked.  [n] messages were handled before in this pass. *)
Fixpoint handleBatch (box : TenantMailbox) (msgs : list Message) (n : Z) (handled : list string) (s : Stats)
    : progOn pworld (list string * Stats * option error) :=
  match msgs with
  | [] => pret (handled, s, None)
  | msg :: msgs' =>
      let? now := clockNow in
      let? id := freshID n in
      handle (onStores (processor box msg id now)) (λ r,
        match r with
        | inl e => pret (handled, s, Some e)
        | inr out =>
            let? _ := note (evHandled (mg_ID msg)) in
            handleBatch box msgs' (n + 1) (handled ++ [mg_ID msg]) (countOutcome out s)
        end)
  end.

(** [box.Config.AfterProcess], keep if there is none *)
Definition actionOf (box : TenantMailbox) : string :=
  if strEq (mc_AfterProcess (tm_Config box)) "" then ActionKeep else mc_AfterProcess (tm_Config box).

(** The loop of [PollOnce].  [time] is how many batches the session's timeout
    leaves room for; the fetch after it fails.  The loop ends the pass with a
    result, or is left with the statistics. *)
Fixpoint drainBox (time : nat) (st : string) (box : TenantMailbox) (s : Stats) : progOn pworld (pollResult + Stats) :=
  match time with
  | O => pret (inl (s, Some (boxErr errDeadline)))
  | S time =>
      let? fetched := onBox (cl_Fetch (rc_FetchBatch cfg)) (λ r, match r with inr msgs => [evFetched (mg_ID <$> msgs)] | inl _ => [] end) in
      match fetched with
      | inl e => pret (inl (s, Some (boxErr e)))
      | inr [] => pret (inr s)
      | inr msgs =>
          let n := sx_Fetched s in
          let s := s <| sx_Fetched := sx_Fetched s + len msgs |> in
          let? done := handleBatch box msgs n [] s in
          let '(handled, s, failed) := done in
          let? acked := ackBox handled (actionOf box) in
          match failed with
          | Some e => pret (inl (s <| sx_Acked := sx_Acked s + len handled |>, Some (storeErr e)))
          | None =>
              match acked with
              | inl e => pret (inl (s, Some (boxErr e)))
              | inr _ =>
                  let s := s <| sx_Acked := sx_Acked s + len handled |> in
                  let? now := clockNow in
                  handle (onStores (tcall st (λ env, Renew env (LockName (tm_MailboxID box)) (rc_Owner cfg) (rc_LockTTL cfg) now))) (λ r,
                    match r with
                    | inl e => pret (inl (s, Some (storeErr e)))
                    | inr false => pret (inl (s, None))
                    | inr true => if len msgs <? rc_FetchBatch cfg then pret (inr s) else drainBox time st box s
                    end)
              end
          end
      end
  end.

(** The interval of a mailbox *)
Definition intervalOf (box : TenantMailbox) : Duration :=
  if tm_PollInterval box <=? 0 then rc_PollInterval cfg else tm_PollInterval box.

(** The end of a pass that drained the mailbox: wait for more, if asked. *)
Definition idlePart (box : TenantMailbox) (s : Stats) : progOn pworld pollResult :=
  if rc_UseIdle cfg then
    match cl_Idle with
    | None => pret (s, None)
    | Some idle =>
        let? r := onBox (idle (intervalOf box)) (λ _, []) in
        match r with
        | inr _ => pret (s <| sx_Idled := true |>, None)
        | inl e => if bool_decide (e = ErrNoIdle) then pret (s, None) else pret (s, Some (boxErr e))
        end
    end
  else pret (s, None).

(** The part of [PollOnce] that holds the lock. *)
Definition pollSession (time : nat) (st : string) (box : TenantMailbox) (s : Stats) : progOn pworld pollResult :=
  let? dialed := onBox (dial (tm_Config box)) (λ _, []) in
  let? _ := recordHealth st box (match dialed with inl e => Some e | inr _ => None end) in
  match dialed with
  | inl e => pret (s, Some (boxErr e))
  | inr _ =>
      let? out := drainBox time st box s in
      let? res := (match out with inl res => pret res | inr s => idlePart box s end) in
      let? _ := onBox cl_Close (λ _, []) in
      pret res
  end.

(** [PollOnce]; the lock is released however the session ends. *)
Definition PollOnce (time : nat) (box : TenantMailbox) : progOn pworld pollResult :=
  handle (onStores (call (λ _, ForTenant (tm_TenantID box)))) (λ r,
    match r with
    | inl e => pret (zeroStats, Some (storeErr e))
    | inr st =>
        let? now := clockNow in
        handle (onStores (tcall st (λ env, Acquire env (LockName (tm_MailboxID box)) (rc_Owner cfg) (rc_LockTTL cfg) now))) (λ r,
          match r with
          | inl e => pret (zeroStats, Some (storeErr e))
          | inr false => pret (zeroStats, None)
          | inr true =>
              handle (pollSession time st box (zeroStats <| sx_Locked := true |>)) (λ res,
                handle (onStores (tcall st (λ env, Release env (LockName (tm_MailboxID box)) (rc_Owner cfg))))
                  (λ _, Done res))
          end)
    end).
End poll.

(** ** The schedule *)

(** [nextBackoff] *)
Definition nextBackoff (current interval max : Duration) : Duration :=
  let current := if current <=? 0 then interval else int64 (current * 2) in
  if max <? current then max else current.

(** One turn of [pollLoop] after a pass: the new backoff and how long to wait.
    [canceled] is the loop's context. *)
Definition pollTurn (cfg : RunnerConfig) (interval backoff : Duration) (res : pollResult) (canceled : bool) : Duration * Duration :=
  let backoff := match res.2 with
                 | Some _ => if canceled then 0 else nextBackoff backoff interval (rc_MaxBackoff cfg)
                 | None => 0
                 end in
  let wait := if 0 <? backoff then backoff else if sx_Idled res.1 then 0 else interval in
  (backoff, wait).

(** The processor the poller calls: a shared mailbox's mail belongs to the
    tenant of its delivery. *)
Definition pollProcessor (bp : processor) (rand : string) (box : TenantMailbox) (msg : Message) (eventID : string) (now : Time)
    : progOn Provider Outcome :=
  if tm_Platform box then HandlePlatform bp rand eventID msg now else Handle bp rand eventID (tm_TenantID box) msg now.
