(* ===== verification/PollerProps.v ===== *)
(** * Properties of the bounce poller

    What a pass does with a mailbox whatever the mailbox, the processor and the
    rest of the system do; that it drains a mailbox that keeps the interface's
    promise, and never ends over one that does not; which mailboxes have a
    worker; and the schedule after failures. *)

From S2P Require Import Prelude Enums Model MemTable MemData DeliveryRepo Repos Provider Prog Settings Classify Codec Tokens LineReader Email Platform BounceReport Bounce MailboxHealth Mailbox Pop3 Pop3Props Poller.

(** ** The record of a pass

    The state of the record: the fetched messages that are still to be handled,
    and the handled ones that are still to be acknowledged. *)

Definition traceState : Type := list string * list string.

(** A fetch comes when nothing is left of the batch before; messages are
    handled in the order they were fetched; an acknowledgement names exactly
    the messages handled since the fetch, with the mailbox's action. *)
Definition traceStep (action : string) (s : traceState) (ev : pollEvent) : option traceState :=
  let '(todo, handled) := s in
  match ev with
  | evFetched ids => if bool_decide (todo = []) && bool_decide (handled = []) then Some (ids, []) else None
  | evHandled id =>
      match todo with
      | [] => None
      | id' :: todo' => if strEq id' id then Some (todo', handled ++ [id]) else None
      end
  | evAcked ids a => if bool_decide (ids = handled) && negb (bool_decide (ids = [])) && strEq a action then Some (todo, []) else None
  end.

Fixpoint traceRun (action : string) (s : traceState) (evs : list pollEvent) : option traceState :=
  match evs with
  | [] => Some s
  | ev :: evs' => match traceStep action s ev with Some s' => traceRun action s' evs' | None => None end
  end.

Lemma traceRun_app a s l1 l2 :
  traceRun a s (l1 ++ l2) = match traceRun a s l1 with Some s' => traceRun a s' l2 | None => None end.
Proof. revert s. induction l1 as [|e l1 IH]; intros s; cbn; [done|]. destruct (traceStep a s e); [apply IH|done]. Qed.

(** Whether a pass holds the lock does not change in it. *)
Definition lockedIn (x : pollResult + Stats) : bool := match x with inl (s, _) => sx_Locked s | inr s => sx_Locked s end.

Lemma countOutcome_locked out s : sx_Locked (countOutcome out s) = sx_Locked s.
Proof. unfold countOutcome. by repeat case_match. Qed.

(** How far the lock of a pass is confirmed: never taken, confirmed by the
    store since the last fetch, or used for a fetch since. *)
Inductive leaseStage := NotHeld | Confirmed | Used.

Section poll.
Context {C : Type} `{MailClient C}.
Context (dial : MailConfig → MM C unit)
        (processor : TenantMailbox → Message → string → Time → progOn Provider Outcome)
        (marshal : eventPayload → error + string) (errText : mailErr → string) (cfg : RunnerConfig).
#[local] Abbreviation pworld := (pollWorld C).

(** The others change the stores as they like; the session is the poller's. *)
Definition othersStores (w w' : pworld) : Prop := pw_client w' = pw_client w ∧ pw_log w' = pw_log w.

Section trace.
Context (box : TenantMailbox).

(** The store grants the mailbox's lock to this poller, for a full term. *)
Definition confirms (p p' : Provider) : Prop :=
  ∃ clock newID now,
    let name := LockName (tm_MailboxID box) in
    onStore (tm_TenantID box) clock newID (λ env, Acquire env name (rc_Owner cfg) (rc_LockTTL cfg) now) p = (inr true, p') ∨
    onStore (tm_TenantID box) clock newID (λ env, Renew env name (rc_Owner cfg) (rc_LockTTL cfg) now) p = (inr true, p').

(** What a step of a pass may do: work on the stores; with the lock taken, act
    on the mailbox and handle messages as [traceStep] allows; and fetch only
    if the store has confirmed the lock since the fetch before. *)
Inductive passStep : traceState * leaseStage → pworld → pworld → traceState * leaseStage → Prop :=
  | ps_store s g w w' : othersStores w w' → passStep (s, g) w w' (s, g)
  | ps_confirm s g w w' : othersStores w w' → confirms (pw_store w) (pw_store w') → passStep (s, g) w w' (s, Confirmed)
  | ps_box s s' g w w' evs :
      g ≠ NotHeld → pw_store w' = pw_store w → pw_log w' = pw_log w ++ evs →
      (∀ ids, evFetched ids ∉ evs) → traceRun (actionOf box) s evs = Some s' →
      passStep (s, g) w w' (s', g)
  | ps_fetch s s' w w' ids :
      pw_store w' = pw_store w → pw_log w' = pw_log w ++ [evFetched ids] →
      traceStep (actionOf box) s (evFetched ids) = Some s' →
      passStep (s, Confirmed) w w' (s', Used).

(** [tracks ph p Q]: started in phase [ph], the steps of [p] are accepted and
    it ends with a result and a phase in [Q]. *)
Definition tracks {A} (ph : traceState * leaseStage) (p : progOn pworld A) (Q : error + A → traceState * leaseStage → Prop) : Prop :=
  ∀ w, mwp othersStores passStep p (λ r ph' _, Q r ph') ph w.

Lemma tracks_done {A} ph (r : error + A) (Q : error + A → traceState * leaseStage → Prop) : Q r ph → tracks ph (Done r) Q.
Proof. by intros HQ w. Qed.

Lemma tracks_handle {A B} ph (p : progOn pworld A) (k : error + A → progOn pworld B) Q Q' :
  tracks ph p Q' → (∀ r ph', Q' r ph' → tracks ph' (k r) Q) → tracks ph (handle p k) Q.
Proof. intros Hp Hk w. apply mwp_handle. eapply mwp_mono; [|by apply Hp]. intros r ph' w' HQ. by eapply Hk. Qed.

(** A program that returns a value. *)
Lemma tracks_bind {A B} ph (p : progOn pworld A) (k : A → progOn pworld B) (Q : error + B → traceState * leaseStage → Prop) Q' :
  tracks ph p (λ r ph', ∃ a, r = inr a ∧ Q' a ph') → (∀ a ph', Q' a ph' → tracks ph' (k a) Q) → tracks ph (pbind p k) Q.
Proof. intros Hp Hk. eapply tracks_handle; [exact Hp|]. intros r ph' (a&->&HQ). by apply Hk. Qed.

Lemma tracks_mono {A} ph (p : progOn pworld A) (Q Q' : error + A → traceState * leaseStage → Prop) :
  tracks ph p Q → (∀ r ph', Q r ph' → Q' r ph') → tracks ph p Q'.
Proof. intros Hp HQ w. eapply mwp_mono; [|by apply Hp]. eauto. Qed.

(** The stores are not part of the record. *)
Lemma tracks_onStores {A} s g (p : progOn Provider A) : tracks (s, g) (onStores p) (λ _ ph', ph' = (s, g)).
Proof.
  induction p as [r|B op k IH|k IH]; cbn [onStores].
  - by apply tracks_done.
  - intros w env w0 HR. cbn. destruct (op env (pw_store w0)) as [r st]. exists (s, g). split; [by apply ps_store|apply IH].
  - intros w b. by apply IH.
Qed.

Lemma tracks_clock s g : tracks (s, g) clockNow (λ r ph', ∃ a, r = inr a ∧ ph' = (s, g)).
Proof. intros w env w0 HR. cbn. exists (s, g). split; [by apply ps_store|eauto]. Qed.
Lemma tracks_fresh s g n : tracks (s, g) (freshID n) (λ r ph', ∃ a, r = inr a ∧ ph' = (s, g)).
Proof. intros w env w0 HR. cbn. exists (s, g). split; [by apply ps_store|eauto]. Qed.

(** A renewal the store grants confirms the lock. *)
Lemma tracks_renew s g now :
  tracks (s, g) (onStores (tcall (tm_TenantID box) (λ env, Renew env (LockName (tm_MailboxID box)) (rc_Owner cfg) (rc_LockTTL cfg) now)))
    (λ r ph', ph' = (s, if bool_decide (r = inr true) then Confirmed else g)).
Proof.
  intros w env w0 HR. cbn. destruct (onStore _ _ _ _ (pw_store w0)) as [r p] eqn:Hr. eexists. split; [|done].
  case_bool_decide as Hb; [|by apply ps_store]. subst r. apply ps_confirm; [done|]. eexists _, _, now. right. exact Hr.
Qed.

(** An operation of the mailbox that fetches nothing. *)
Lemma tracks_onBox {A} s g (m : MM C A) ev (Q : mailErr + A → traceState * leaseStage → Prop) :
  g ≠ NotHeld →
  (∀ r, (∀ ids, evFetched ids ∉ ev r) ∧ ∃ s', traceRun (actionOf box) s (ev r) = Some s' ∧ Q r (s', g)) →
  tracks (s, g) (onBox m ev) (λ r ph', ∃ a, r = inr a ∧ Q a ph').
Proof.
  intros Hg Hev w env w0 HR. cbn. destruct (m (pw_client w0)) as [r c]. destruct (Hev r) as (Hnf&s'&Hs'&HQ).
  exists (s', g). split; [by eapply ps_box|eauto].
Qed.

(** One that is not recorded. *)
Lemma tracks_silent {A} s g (m : MM C A) :
  g ≠ NotHeld → tracks (s, g) (onBox m (λ _, [])) (λ r ph', ∃ a, r = inr a ∧ ph' = (s, g)).
Proof. intros Hg. apply (tracks_onBox _ _ _ _ (λ _ ph', ph' = (s, g))); [done|]. intros r. split; [intros ? []%not_elem_of_nil|by exists s]. Qed.

Lemma tracks_note s g ev s' :
  g ≠ NotHeld → (∀ ids, ev ≠ evFetched ids) → traceStep (actionOf box) s ev = Some s' →
  tracks (s, g) (note ev) (λ r ph', ∃ a, r = inr a ∧ ph' = (s', g)).
Proof.
  intros Hg Hnf Hev w env w0 HR. cbn. exists (s', g). split; [|eauto]. eapply (ps_box _ _ _ _ _ [ev]); [done..| |cbn; by rewrite Hev].
  intros ids Hin%list_elem_of_singleton. by apply (Hnf ids).
Qed.

Lemma tracks_health s g st e : tracks (s, g) (recordHealth marshal errText st box e) (λ r ph', ∃ a, r = inr a ∧ ph' = (s, g)).
Proof.
  intros w []; [by exists tt|]. revert w.
  change (tracks (s, g) (handle (onStores (tcall st (λ env, zoom (field bounceMailboxes) (Get env (tm_MailboxID box))))) (λ r,
    match r with
    | inl _ => pret tt
    | inr row =>
        let? now := clockNow in
        handle (onStores (inTenant st (RecordHealth marshal KindBounce (mkMailbox (tm_MailboxID box) (bm_Name row) (bm_Health row))
          (match e with None => OK | Some e => Fail_ (StageOf e) (errText e) end) now))) (λ _, pret tt)
    end)) (λ r ph', ∃ a, r = inr a ∧ ph' = (s, g))).
  eapply tracks_handle; [apply tracks_onStores|]. intros [err|row] ? ->; [apply tracks_done; eauto|].
  eapply tracks_bind; [apply tracks_clock|]. intros now ? ->. eapply tracks_handle; [apply tracks_onStores|].
  intros r ? ->. apply tracks_done. eauto.
Qed.

Lemma tracks_ack todo handled g :
  g ≠ NotHeld →
  tracks ((todo, handled), g) (ackBox handled (actionOf box)) (λ r ph', ∃ a, r = inr a ∧ ph' = ((todo, []), g)).
Proof.
  intros Hg. unfold ackBox. destruct handled as [|id ids]; [apply tracks_done; eauto|].
  apply (tracks_onBox _ _ _ _ (λ _ ph', ph' = ((todo, []), g))); [done|]. intros r.
  split; [by intros ? ?%list_elem_of_singleton|]. eexists. split; [|done]. cbn.
  rewrite bool_decide_eq_true_2 by done. unfold strEq. by rewrite bool_decide_eq_true_2.
Qed.

Lemma tracks_batch msgs n handled s g :
  g ≠ NotHeld →
  tracks ((mg_ID <$> msgs, handled), g) (handleBatch processor box msgs n handled s)
    (λ r ph', ∃ handled' st failed todo', r = inr (handled', st, failed) ∧ ph' = ((todo', handled'), g) ∧
       (failed = None → todo' = []) ∧ sx_Locked st = sx_Locked s).
Proof.
  intros Hg. revert n handled s. induction msgs as [|msg msgs IH]; intros n handled s; cbn [handleBatch fmap list_fmap].
  { apply tracks_done. by eexists _, _, _, _. }
  eapply tracks_bind; [apply tracks_clock|]. intros now ? ->. eapply tracks_bind; [apply tracks_fresh|]. intros id ? ->.
  eapply tracks_handle; [apply tracks_onStores|]. intros [e|out] ? ->.
  - apply tracks_done. by eexists _, _, _, _.
  - eapply tracks_bind; [apply tracks_note; [done|done|]|].
    { cbn. unfold strEq. by rewrite bool_decide_eq_true_2. }
    intros ? ? ->. eapply tracks_mono; [apply IH|]. intros r ph' (h'&st&f&t&->&->&Hf&Hl).
    exists h', st, f, t. by rewrite Hl, countOutcome_locked.
Qed.

(** A fetch uses up the confirmation. *)
Lemma tracks_fetch limit :
  tracks (([], []), Confirmed)
    (onBox (cl_Fetch limit) (λ r, match r with inr msgs => [evFetched (mg_ID <$> msgs)] | inl _ => [] end))
    (λ r ph', ∃ a, r = inr a ∧ match a with
                               | inr msgs => ph' = ((mg_ID <$> msgs, []), Used)
                               | inl _ => ph' = (([], []), Confirmed) end).
Proof.
  intros w env w0 HR. cbn. destruct (cl_Fetch limit (pw_client w0)) as [[e|msgs] c].
  - exists (([], []), Confirmed). split; [|by eexists]. by eapply (ps_box _ _ _ _ _ []); [..|intros ? []%not_elem_of_nil|].
  - exists ((mg_ID <$> msgs, []), Used). split; [|by eexists]. by eapply ps_fetch.
Qed.

(** A pass leaves a record that is accepted, with nothing handled that is not
    acknowledged. *)
Definition settled (ph : traceState * leaseStage) : Prop := ph.1.2 = [] ∧ ph.2 ≠ NotHeld.

Lemma drain_tracks time s :
  tracks (([], []), Confirmed) (drainBox processor cfg time (tm_TenantID box) box s)
    (λ r ph', ∃ a, r = inr a ∧ settled ph' ∧ lockedIn a = sx_Locked s).
Proof.
  assert (Hdone : ∀ todo g a, g ≠ NotHeld → lockedIn a = sx_Locked s →
    tracks (todo, [], g) (pret a) (λ r ph', ∃ a, r = inr a ∧ settled ph' ∧ lockedIn a = sx_Locked s)).
  { intros todo g a Hg Ha. apply tracks_done. exists a. by split_and!. }
  revert s Hdone. induction time as [|time IH]; intros s Hdone; cbn [drainBox]; [by apply Hdone|].
  eapply tracks_bind; [apply tracks_fetch|]. intros [e|msgs] ? ->; [by apply Hdone|].
  destruct msgs as [|msg msgs]; [by apply Hdone|].
  set (ms := msg :: msgs). eapply tracks_handle; [by apply tracks_batch|]. intros r ? (handled&st'&failed&todo&->&->&Hf&Hlk).
  cbv beta iota zeta. cbn in Hlk.
  eapply tracks_bind; [by apply tracks_ack|]. intros acked ? ->. destruct failed as [e|]; [by apply Hdone|].
  destruct acked as [e|[]]; [by apply Hdone|]. rewrite Hf by done.
  eapply tracks_bind; [apply tracks_clock|]. intros now ? ->. eapply tracks_handle; [apply tracks_renew|].
  intros [e|[]] ? ->; [by apply Hdone| |by apply Hdone]. rewrite bool_decide_eq_true_2 by done. case_match; [by apply Hdone|].
  eapply tracks_mono; [apply IH|].
  - intros todo' g a Hg Ha. apply tracks_done. exists a. by split_and!.
  - intros r ph' (a&->&H2&H3). exists a. by rewrite H3.
Qed.

Lemma session_tracks time s :
  tracks (([], []), Confirmed) (pollSession dial processor marshal errText cfg time (tm_TenantID box) box s)
    (λ r ph', ∃ a, r = inr a ∧ settled ph' ∧ sx_Locked a.1 = sx_Locked s).
Proof.
  unfold pollSession. eapply tracks_bind; [by apply tracks_silent|].
  intros dialed ? ->. eapply tracks_bind; [apply tracks_health|]. intros ? ? ->.
  destruct dialed as [e|[]]; [apply tracks_done; eexists; by split_and!|].
  eapply tracks_bind; [apply drain_tracks|]. intros out [s1 g] [[H1 Hg] Hlk]. cbn in H1, Hg.
  eapply (tracks_bind _ _ _ _ (λ (a : pollResult) ph', ph' = (s1, g) ∧ sx_Locked a.1 = sx_Locked s)).
  - destruct out as [[s2 e2]|st']; [apply tracks_done; eauto|]. unfold idlePart. destruct (rc_UseIdle cfg); [|apply tracks_done; eauto].
    destruct cl_Idle as [idle|]; [|apply tracks_done; eauto].
    eapply tracks_bind; [by apply tracks_silent|]. intros [e|[]] ? ->; [case_bool_decide|]; apply tracks_done; eauto.
  - intros res ? [-> Hl']. eapply tracks_bind; [by apply tracks_silent|].
    intros r ? ->. apply tracks_done. eexists. by split_and!.
Qed.

(** Only taking the lock leads on. *)
Lemma accepts_NotHeld ph tr ph' :
  accepts passStep ph tr ph' → ph'.2 = NotHeld → ph.2 = NotHeld ∧ Forall (λ st, othersStores st.1 st.2) tr.
Proof.
  intros Hacc. induction Hacc as [ph|ph ph1 ph2 st tr Hst Hacc IH]; intros Hph; [done|].
  destruct (IH Hph) as [H1 H2].
  assert (Hone : ph.2 = NotHeld ∧ othersStores st.1 st.2) by (destruct Hst; cbn in *; done || congruence).
  destruct Hone. split; [done|]. by constructor.
Qed.
End trace.

(** What a pass promises: it ends with statistics, its steps are accepted and
    nothing is left unacknowledged; without the lock it leaves the mailbox
    alone, and with it the lock is no longer its owner's when it ends. *)
Definition passPromise (box : TenantMailbox) (tr : list (pworld * pworld)) (w : pworld) (r : error + pollResult) : Prop :=
  ∃ s e todo g, r = inr (s, e) ∧ accepts (passStep box) (([], []), NotHeld) tr ((todo, []), g) ∧
    if sx_Locked s
    then g ≠ NotHeld ∧
      (pv_closed (pw_store w) = true ∨
       ∀ td lk, pv_tenants (pw_store w) !! tm_TenantID box = Some td → locks td !! LockName (tm_MailboxID box) = Some lk →
         lk_Owner lk ≠ rc_Owner cfg)
    else Forall (λ st, pw_client st.2 = pw_client st.1 ∧ pw_log st.2 = pw_log st.1) tr.

Lemma Release_owner env t name owner p :
  let p' := (onStore t (e_clock env) (e_newID env) (λ env, Release env name owner) p).2 in
  pv_closed p' = true ∨ ∀ td lk, pv_tenants p' !! t = Some td → locks td !! name = Some lk → lk_Owner lk ≠ owner.
Proof.
  cbv zeta. unfold onStore. destruct (pv_tenants p !! t) as [td|] eqn:Ht; cbn; [|right; by rewrite Ht].
  unfold Release, checked, throw. cbn. destruct (pv_closed p) eqn:Hc; cbn; [by left|right]. intros td' lk Htd Hlk.
  destruct (locks td !! name) as [cur|] eqn:Hl; [unfold strEq in *; case_bool_decide as Ho|];
    cbn in Htd; rewrite lookup_insert_eq in Htd; injection Htd as <-.
  - cbn in Hlk. by rewrite lookup_delete_eq in Hlk.
  - congruence.
  - congruence.
Qed.

Lemma ForTenant_name t p st p' : ForTenant t p = (inr st, p') → st = t.
Proof. unfold ForTenant, pchecked. repeat case_match; intros; by simplify_eq. Qed.

(** The result of a pass, its last phase and its last state. *)
Definition passEnd (box : TenantMailbox) (r : error + pollResult) (ph : traceState * leaseStage) (w : pworld) : Prop :=
  ∃ s e, r = inr (s, e) ∧ ph.1.2 = [] ∧
    if sx_Locked s
    then ph.2 ≠ NotHeld ∧
      (pv_closed (pw_store w) = true ∨
       ∀ td lk, pv_tenants (pw_store w) !! tm_TenantID box = Some td → locks td !! LockName (tm_MailboxID box) = Some lk →
         lk_Owner lk ≠ rc_Owner cfg)
    else ph.2 = NotHeld.

Lemma PollOnce_tracks time box w :
  mwp othersStores (passStep box) (PollOnce dial processor marshal errText cfg time box) (passEnd box) (([], []), NotHeld) w.
Proof.
  assert (Hskip : ∀ w' e, passEnd box (inr (zeroStats, e)) (([], []), NotHeld) w') by (intros w' e; by exists zeroStats, e).
  unfold PollOnce. apply mwp_handle. intros env w0 HR0. cbn [onStores call].
  destruct (ForTenant (tm_TenantID box) (pw_store w0)) as [[e|st] p1] eqn:Hft;
    exists (([], []), NotHeld); (split; [by apply ps_store|]); [by apply Hskip|].
  apply ForTenant_name in Hft as ->. cbv beta iota. apply mwp_handle. intros env1 w1 HR1.
  exists (([], []), NotHeld). split; [by apply ps_store|]. cbv beta iota. apply mwp_handle.
  intros env2 w2 HR2. cbn [onStores tcall inTenant call].
  destruct (onStore _ _ _ _ (pw_store w2)) as [r2 p2] eqn:Hacq.
  destruct r2 as [e|[]]; [exists (([], []), NotHeld); split; [by apply ps_store|apply Hskip]| |exists (([], []), NotHeld); split; [by apply ps_store|apply Hskip]].
  exists (([], []), Confirmed). split; [apply ps_confirm; [done|]; eexists _, _, _; left; exact Hacq|].
  apply mwp_handle. eapply mwp_mono; [|apply session_tracks]. intros r [[todo handled] g] w4 ([s e]&->&[Hs' Hg]&Hlk). cbn in Hlk, Hs', Hg. subst handled.
  apply mwp_handle. intros env5 w5 HR5. cbn [onStores tcall inTenant call].
  pose proof (Release_owner env5 (tm_TenantID box) (LockName (tm_MailboxID box)) (rc_Owner cfg) (pw_store w5)) as Hrel.
  destruct (onStore _ _ _ _ (pw_store w5)) as [r5 p5]. exists ((todo, []), g). split; [by apply ps_store|].
  exists s, e. by rewrite Hlk.
Qed.
End poll.

(** C36 (poll discipline): whatever the mailbox answers, the processor does and
    the rest of the system writes in between, a pass over a mailbox handles
    messages only in the order it fetched them, fetches more only when all were
    handled and acknowledged and the store has since granted or extended the
    mailbox's lock to it, and acknowledges exactly the messages whose handling
    succeeded since the fetch, with the mailbox's own action: one that failed
    stays for the next pass, one that worked does not come back because a later
    one failed.  It does not touch the mailbox before the store has granted the
    lock, not at all if it is refused, and gives the lock back however the pass
    ends.  Within a batch the lock is not looked at again: a batch that takes
    longer than the lock's term is still acknowledged. *)
Theorem poll_discipline {C} `{MailClient C} dial processor marshal errText cfg time box (w w' : pollWorld C) tr r :
  exec othersStores (PollOnce dial processor marshal errText cfg time box) w tr r w' →
  passPromise cfg box tr w' r.
Proof.
  intros He.
  destruct (mwp_sound _ _ _ _ _ _ _ _ _ (PollOnce_tracks dial processor marshal errText cfg time box w) He) as ([[todo h] g]&Hacc&s&e&->&Hs&Hif).
  cbn in Hs, Hif. subst h. exists s, e, todo, g. split_and!; [done..|]. destruct (sx_Locked s); [done|].
  by eapply (accepts_NotHeld cfg box _ _ _ Hacc).
Qed.

(** ** A pass drains the mailbox *)

Definition handledIDs (l : list pollEvent) : list string := omap (λ ev, match ev with evHandled id => Some id | _ => None end) l.
Definition ackedIDs (l : list pollEvent) : list string := l ≫= λ ev, match ev with evAcked ids _ => ids | _ => [] end.

Lemma handledIDs_handled ids : handledIDs (evHandled <$> ids) = ids.
Proof. induction ids as [|id ids IH]; [done|]. exact (f_equal (cons id) IH). Qed.
Lemma ackedIDs_handled ids : ackedIDs (evHandled <$> ids) = [].
Proof. induction ids as [|id ids IH]; [done|]. exact IH. Qed.

Lemma run_onStores {C A} env (p : progOn Provider A) (w : pollWorld C) :
  run env (onStores p) w = let '(r, s) := run env p (pw_store w) in (r, w <| pw_store := s |>).
Proof.
  revert w. induction p as [r|B op k IH|k IH]; intros w; cbn [onStores run]; [by destruct w| |by apply IH].
  destruct (op env (pw_store w)) as [r s]. rewrite IH. cbn. by destruct (run env (k r) s).
Qed.

Section drain.
Context {C : Type} `{MailClient C}.
Context (processor : TenantMailbox → Message → string → Time → progOn Provider Outcome)
        (marshal : eventPayload → error + string) (errText : mailErr → string) (cfg : RunnerConfig) (box : TenantMailbox) (env : Env).
Context `{!UnhandledMail C (actionOf box)}.
#[local] Abbreviation pworld := (pollWorld C).

(** The poller holds the mailbox's lock in an open store. *)
Definition lockHeld (p : Provider) : Prop :=
  pv_closed p = false ∧ ∃ td lk, pv_tenants p !! tm_TenantID box = Some td ∧
    locks td !! LockName (tm_MailboxID box) = Some lk ∧ lk_Owner lk = rc_Owner cfg ∧ TruncateTime (e_clock env) < lk_ExpiresAt lk.

(** The processor does its work on the messages, and leaves the lock alone. *)
Definition processorWorks (msgs : list Message) : Prop := ∀ msg id p, msg ∈ msgs → lockHeld p →
  ∃ out p', run env (processor box msg id (e_clock env)) p = (inr out, p') ∧ lockHeld p'.

Lemma handleBatch_run msgs n handled s (w : pworld) :
  processorWorks msgs → lockHeld (pw_store w) →
  ∃ s' p', run env (handleBatch processor box msgs n handled s) w =
      (inr (handled ++ (mg_ID <$> msgs), s', None), w <| pw_store := p' |> <| pw_log := pw_log w ++ (evHandled <$> (mg_ID <$> msgs)) |>) ∧
    lockHeld p' ∧ sx_Fetched s' = sx_Fetched s ∧ sx_Acked s' = sx_Acked s ∧ sx_Locked s' = sx_Locked s.
Proof.
  revert n handled s w. induction msgs as [|msg msgs IH]; intros n handled s w Hproc Hw; cbn [handleBatch].
  { exists s, (pw_store w). cbn. rewrite !app_nil_r. by destruct w. }
  rewrite run_pbind. unfold clockNow. rewrite run_call. rewrite run_pbind. unfold freshID. rewrite run_call, run_handle, run_onStores.
  destruct (Hproc msg (e_newID env (Z.to_nat n)) (pw_store w) (list_elem_of_here _ _) Hw) as (out&p'&Hr&Hp'). rewrite Hr. rewrite run_pbind. unfold note. rewrite run_call.
  match goal with |- context [run env _ ?w0] => destruct (IH (n + 1) (handled ++ [mg_ID msg]) (countOutcome out s) w0) as (s'&p''&Hr'&Hp''&Hf&Ha&Hk);
    [intros m' i' p0 Hm'; by apply Hproc, list_elem_of_further|exact Hp'|] end.
  exists s', p''. rewrite Hr'. cbn. rewrite <- !app_assoc. split_and!; [done|done|rewrite Hf|rewrite Ha|rewrite Hk]; unfold countOutcome; by repeat case_match.
Qed.

Lemma expires_later t d : Millisecond ≤ d → TruncateTime t < TruncateTime (addTime (TruncateTime t) d).
Proof.
  intros Hd. unfold addTime. pose proof (TruncateTime_le (TruncateTime t + d)). pose proof (TruncateTime_idemp t).
  rewrite !TruncateTime_floor in *. unfold Millisecond in *. lia.
Qed.

Lemma Renew_run p : lockHeld p → Millisecond ≤ rc_LockTTL cfg →
  ∃ p', run env (tcall (tm_TenantID box) (λ env0, Renew env0 (LockName (tm_MailboxID box)) (rc_Owner cfg) (rc_LockTTL cfg) (e_clock env))) p = (inr true, p') ∧
    lockHeld p'.
Proof.
  intros (Hc&td&lk&Ht&Hl&Ho&He) Httl. pose proof (expires_later (e_clock env) _ Httl) as Hexp. rewrite (run_tcall _ _ _ _ td Ht). unfold Renew, checked. cbn. rewrite Hc, Hl.
  unfold strEq. rewrite bool_decide_eq_true_2 by done. unfold After. rewrite (proj2 (Z.ltb_lt _ _) He). cbn. eexists. split; [done|].
  split; [done|]. eexists _, _. cbn. rewrite lookup_insert_eq. split_and!; [done|cbn; by rewrite lookup_insert_eq|done|exact Hexp].
Qed.

(** What is left when the front of the unhandled messages is taken off. *)
Lemma filter_front (l b : list Message) k :
  NoDup (mg_ID <$> l) → b ≡ₚ capTo k l → filter (λ m, mg_ID m ∉ mg_ID <$> b) l = drop (length b) l.
Proof.
  intros Hnd Hb. destruct (capTo_prefix k l) as [rest Hrest]. pose proof Hnd as Hnd'. rewrite Hrest, fmap_app in Hnd'.
  apply NoDup_app in Hnd' as (_&Hdis&_). rewrite (Permutation_length Hb).
  assert (Hlen : drop (length (capTo k l)) l = rest) by (rewrite Hrest at 2; apply drop_app_length). rewrite Hlen.
  rewrite Hrest, filter_app. rewrite (list_filter_all _ rest).
  - assert (filter (λ m, mg_ID m ∉ mg_ID <$> b) (capTo k l) = []) as ->; [|done].
    apply list_filter_nil. intros x Hx. rewrite <- Hb in Hx. intros Hc. by apply Hc, list_elem_of_fmap_2.
  - intros x Hx. rewrite Hb. intros Hin. eapply Hdis; [exact Hin|]. by apply list_elem_of_fmap_2.
Qed.
Lemma front_rest (l b : list Message) k : b ≡ₚ capTo k l → l ≡ₚ b ++ drop (length b) l.
Proof.
  intros Hb. destruct (capTo_prefix k l) as [rest Hrest]. rewrite (Permutation_length Hb).
  assert (drop (length (capTo k l)) l = rest) as -> by (rewrite Hrest at 2; apply drop_app_length). rewrite Hb. by rewrite <- Hrest.
Qed.

Lemma run_onBox {A} (m : MM C A) ev (w : pworld) :
  run env (onBox m ev) w = let '(r, c) := m (pw_client w) in (inr r, w <| pw_client := c |> <| pw_log := pw_log w ++ ev r |>).
Proof. unfold onBox. rewrite run_call. by destruct (m (pw_client w)). Qed.

Lemma handledIDs_app l1 l2 : handledIDs (l1 ++ l2) = handledIDs l1 ++ handledIDs l2.
Proof. apply omap_app. Qed.
Lemma ackedIDs_app l1 l2 : ackedIDs (l1 ++ l2) = ackedIDs l1 ++ ackedIDs l2.
Proof. apply bind_app. Qed.

Context (Hbatch : 0 < rc_FetchBatch cfg) (Httl : Millisecond ≤ rc_LockTTL cfg).

Lemma drain_run time s (w : pworld) :
  um_ok (pw_client w) → processorWorks (um_pending (pw_client w)) → lockHeld (pw_store w) → (length (um_pending (pw_client w)) < time)%nat →
  ∃ s' w' l, run env (drainBox processor cfg time (tm_TenantID box) box s) w = (inr (inr s'), w') ∧
    pw_log w' = pw_log w ++ l ∧ handledIDs l ≡ₚ mg_ID <$> um_pending (pw_client w) ∧ ackedIDs l = handledIDs l ∧
    lockHeld (pw_store w') ∧
    sx_Locked s' = sx_Locked s ∧
    sx_Fetched s' = sx_Fetched s + len (um_pending (pw_client w)) ∧ sx_Acked s' = sx_Acked s + len (um_pending (pw_client w)).
Proof.
  revert s w. induction time as [|time IH]; intros s w Hok Hproc Hlock Htime; [lia|]. cbn [drainBox].
  rewrite run_pbind, run_onBox. destruct (um_fetch (rc_FetchBatch cfg) _ Hok Hbatch) as (batch&c1&Hf&Hb&Hok1&Hp1&Hack). rewrite Hf.
  pose proof (um_NoDup _ Hok) as Hnd. set (L := um_pending (pw_client w)) in *.
  destruct batch as [|m0 ms].
  { assert (L = []) as ->.
    { apply Permutation_nil_l in Hb. destruct L as [|x L]; [done|]. exfalso. unfold capTo in Hb. destruct (_ && _); [|done].
      by replace (Z.to_nat (rc_FetchBatch cfg)) with (S (Z.to_nat (rc_FetchBatch cfg - 1))) in Hb by lia. }
    eexists s, _, [evFetched []]. split; [done|]. cbn. split_and!; [done..|exact Hlock|done|unfold len; cbn; lia|unfold len; cbn; lia]. }
  set (batch := m0 :: ms) in *. rewrite run_pbind.
  match goal with |- context [handleBatch processor box batch ?n ?h ?s0] => match goal with |- context [run env (handleBatch processor box batch n h s0) ?w0] =>
    destruct (handleBatch_run batch n h s0 w0) as (s1&p1&Hr1&Hlock1&Hfe&Hak&Hkk);
      [intros m' i' p0 Hm'; apply Hproc; rewrite Hb in Hm'; by apply elem_of_capTo in Hm'|exact Hlock|]; rewrite Hr1 end end.
  rewrite app_nil_l, run_pbind. change (ackBox (mg_ID <$> batch) (actionOf box)) with (onBox (cl_Ack (mg_ID <$> batch) (actionOf box)) (λ _, [evAcked (mg_ID <$> batch) (actionOf box)])).
  rewrite run_onBox. destruct (Hack (mg_ID <$> batch)) as (c2&Ha&Hok2&Hp2); [done|].
  match goal with |- context [cl_Ack _ _ (pw_client ?x)] => change (pw_client x) with c1 end. rewrite Ha.
  rewrite run_pbind. unfold clockNow. rewrite run_call, run_handle, run_onStores.
  destruct (Renew_run p1 Hlock1 Httl) as (p2&Hren&Hlock2). match goal with |- context [run env _ (pw_store ?x)] => change (pw_store x) with p1 end. rewrite Hren.
  rewrite (filter_front _ _ _ Hnd Hb) in Hp2.
  assert (Hlb : length batch = Nat.min (Z.to_nat (rc_FetchBatch cfg)) (length L)).
  { rewrite (Permutation_length Hb). pose proof (length_capTo (rc_FetchBatch cfg) L Hbatch). unfold len in *. lia. }
  assert (Hpos : (0 < length batch)%nat) by (cbn; lia).
  match goal with |- context [run env (if _ then _ else _) ?x] => set (w2 := x) end.
  set (l1 := evFetched (mg_ID <$> batch) :: (evHandled <$> (mg_ID <$> batch)) ++ [evAcked (mg_ID <$> batch) (actionOf box)]).
  assert (Hl2 : pw_log w2 = pw_log w ++ l1) by (cbn [w2 pw_log]; unfold l1; cbn; by rewrite <- !app_assoc).
  assert (Hh1 : handledIDs l1 = mg_ID <$> batch).
  { unfold l1. change (handledIDs (evFetched ?i :: ?x)) with (handledIDs x). rewrite handledIDs_app, handledIDs_handled. apply app_nil_r. }
  assert (Ha1 : ackedIDs l1 = mg_ID <$> batch).
  { unfold l1. change (ackedIDs (evFetched ?i :: ?x)) with (ackedIDs x). rewrite ackedIDs_app, ackedIDs_handled. apply app_nil_r. }
  assert (HL : mg_ID <$> L ≡ₚ (mg_ID <$> batch) ++ (mg_ID <$> drop (length batch) L)).
  { rewrite <- fmap_app. by rewrite <- (front_rest L batch _ Hb). }
  assert (Hlm : len (mg_ID <$> batch) = len batch) by (unfold len; by rewrite length_fmap).
  clearbody batch l1. cbn in Hfe, Hak, Hkk. destruct (Z.ltb_spec (len batch) (rc_FetchBatch cfg)) as [Hlt|Hge].
  - assert (Hall : length batch = length L) by (unfold len in *; lia).
    eexists _, w2, l1. split; [done|]. split_and!; [done| |by rewrite Ha1, Hh1|exact Hlock2|done|cbn; rewrite Hfe; unfold len; lia|].
    + rewrite Hh1, HL, Hall, drop_all. by rewrite app_nil_r.
    + cbn. rewrite Hlm, Hak. unfold len. lia.
  - destruct (IH (s1 <| sx_Acked := sx_Acked s1 + len (mg_ID <$> batch) |>) w2 Hok2) as (s'&w'&l&Hr&Hl&Hh&Hak'&Hlk&Hk'&Hf'&Ha').
    { change (pw_client w2) with c2. rewrite Hp2. intros m' i' p0 Hm'. apply Hproc.
      rewrite <- (take_drop (length batch) L). apply elem_of_app. by right. }
    { exact Hlock2. }
    { change (pw_client w2) with c2. rewrite Hp2, length_drop. lia. }
    change (pw_client w2) with c2 in *. rewrite Hp2 in *. assert (Hld : len (drop (length batch) L) = len L - len batch) by (unfold len; rewrite length_drop; lia).
    exists s', w', (l1 ++ l). split_and!; [done|by rewrite Hl, Hl2, app_assoc|by rewrite handledIDs_app, Hh1, Hh, HL|
      by rewrite handledIDs_app, ackedIDs_app, Hh1, Ha1, Hak'|done|by rewrite Hk'|rewrite Hf', Hld; cbn; lia|rewrite Ha', Hld; cbn; rewrite Hlm; lia].
Qed.
(** A program of the tenant that leaves the locks alone. *)
Definition leavesLocks {A} (p : prog A) (td : tenantData) : Prop := wp (λ _ _, True) (λ a b, locks b = locks a) p (λ _ _, True) td.

Lemma inTenant_lockHeld {A} (p : prog A) P td0 :
  leavesLocks p td0 → lockHeld P → ∃ r P', run env (inTenant (tm_TenantID box) p) P = (r, P') ∧ lockHeld P'.
Proof.
  revert P td0. induction p as [r|B op k IH|k IH]; intros P td0 Hp Hl; cbn [inTenant run]; [eauto| |by eapply IH; [apply (Hp false)|]].
  destruct Hl as (Hc&td&lk&Ht&Hlk&Ho&He). unfold onStore. rewrite Ht.
  pose proof (Hp (mkEnv (pv_closed P) (e_clock env) (tm_TenantID box) (e_newID env)) td I) as Hop.
  destruct (op _ td) as [r td']. destruct Hop as [Hlocks Hk]. eapply IH; [exact Hk|]. split; [done|].
  exists td', lk. cbn. rewrite lookup_insert_eq, Hlocks. done.
Qed.

Lemma enqueueLoop_locks env0 i evs td : locks (enqueueLoop env0 i evs td) = locks td.
Proof. revert i td. induction evs as [|e evs IH]; intros i td; cbn [enqueueLoop]; [done|]. by rewrite IH. Qed.

Lemma RecordHealth_locks kind m o now td : leavesLocks (RecordHealth marshal kind m o now) td.
Proof.
  unfold RecordHealth, leavesLocks. apply wp_pbind.
  assert (Hw : ∀ td1, wp (λ _ _, True) (λ a b, locks b = locks a)
    (if strEq kind KindProbe then call (λ env, ProbeMailboxUpdateHealth env (mb_ID m) (Next (mb_Health m) o now))
     else if strEq kind KindBounce then call (λ env, BounceMailboxUpdateHealth env (mb_ID m) (Next (mb_Health m) o now))
     else fail (errNamed "mbhealth: unknown mailbox kind")) (λ _ _, True) td1).
  { intros td1. case_match; [|case_match; [|done]]; apply wp_call; intros env0 td0 _; (split; [|done]);
      unfold ProbeMailboxUpdateHealth, BounceMailboxUpdateHealth, checked, throw; by repeat case_match. }
  eapply wp_mono; [|apply Hw]. intros [e|[]] td' _; [done|]. cbv beta iota zeta.
  destruct (strEq (healthTransition _ _) ""); [exact I|]. destruct (marshal _) as [e|payload]; [exact I|].
  apply wp_pbind, wp_call. intros env0 td0 _. unfold Enqueue, checked, throw. destruct (e_closed env0); [done|]. cbn [fst snd].
  by rewrite enqueueLoop_locks.
Qed.

Lemma recordHealth_run e (w : pworld) :
  lockHeld (pw_store w) →
  ∃ p', run env (recordHealth marshal errText (tm_TenantID box) box e) w = (inr tt, w <| pw_store := p' |>) ∧ lockHeld p'.
Proof.
  intros Hl. unfold recordHealth. cbn [run]. rewrite run_handle, run_onStores.
  destruct (inTenant_lockHeld (call (λ env, zoom (field bounceMailboxes) (Get env (tm_MailboxID box)))) (pw_store w) newTenantData) as (r&p1&Hr&Hl1); [|done|].
  { apply wp_call. intros env0 td _. unfold zoom, Get, checked, throw. by repeat case_match. }
  unfold tcall. rewrite Hr. destruct r as [err|row]; [by exists p1|].
  rewrite run_pbind. unfold clockNow. rewrite run_call, run_handle, run_onStores. cbn [pw_store].
  match goal with |- context [RecordHealth marshal KindBounce ?m ?o ?n] =>
    destruct (inTenant_lockHeld (RecordHealth marshal KindBounce m o n) p1 newTenantData) as (r&p2&Hr2&Hl2); [apply RecordHealth_locks|done|] end.
  match goal with |- context [run env (inTenant _ _) (pw_store ?x)] => change (pw_store x) with p1 end. rewrite Hr2. by exists p2.
Qed.

Context (dial : MailConfig → MM C unit).

Lemma PollOnce_drains time (w : pworld) td c1 :
  pv_closed (pw_store w) = false → pv_tenants (pw_store w) !! tm_TenantID box = Some td →
  locks td !! LockName (tm_MailboxID box) = None →
  dial (tm_Config box) (pw_client w) = (inr tt, c1) → um_ok c1 → processorWorks (um_pending c1) → (length (um_pending c1) < time)%nat → rc_UseIdle cfg = false →
  ∃ s w' l, run env (PollOnce dial processor marshal errText cfg time box) w = (inr (s, None), w') ∧
    pw_log w' = pw_log w ++ l ∧ handledIDs l ≡ₚ mg_ID <$> um_pending c1 ∧ ackedIDs l = handledIDs l ∧
    sx_Locked s = true ∧ sx_Fetched s = len (um_pending c1) ∧ sx_Acked s = len (um_pending c1).
Proof.
  intros Hc Ht Hfree Hdial Hok Hproc Htime Hidle. unfold PollOnce. rewrite run_handle, run_onStores, run_call.
  unfold ForTenant, pchecked. rewrite Hc, Ht. rewrite run_pbind. unfold clockNow. rewrite run_call, run_handle, run_onStores. cbn [pw_store].
  match goal with |- context [run env (tcall _ _) (pw_store ?x)] => change (pw_store x) with (pw_store w) end.
  rewrite (run_tcall _ _ _ _ td Ht). unfold Acquire at 1, checked at 1. cbn [e_closed]. rewrite Hc, Hfree.
  match goal with |- context [setTenant _ ?td' _] => set (td1 := td') end.
  assert (Hl1 : lockHeld (setTenant (tm_TenantID box) td1 (pw_store w))).
  { split; [done|]. exists td1. eexists. rewrite setTenant_lookup. split; [done|]. split; [cbn; by rewrite lookup_insert_eq|]. split; [done|]. by apply expires_later. }
  rewrite run_handle. unfold pollSession. rewrite run_pbind, run_onBox.
  match goal with |- context [dial _ (pw_client ?x)] => change (pw_client x) with (pw_client w) end. rewrite Hdial.
  rewrite run_pbind. match goal with |- context [run env (recordHealth _ _ _ _ ?e) ?x] => destruct (recordHealth_run e x Hl1) as (p2&Hh&Hl2); rewrite Hh end.
  rewrite run_pbind. match goal with |- context [run env (drainBox _ _ _ _ _ ?s0) ?x] =>
    destruct (drain_run time s0 x Hok Hproc Hl2 Htime) as (s&w3&l&Hr&Hlog&Hha&Hac&Hl3&Hk&Hf&Ha); rewrite Hr end.
  rewrite run_pbind. unfold idlePart. rewrite Hidle. cbn [run pret].
  rewrite run_pbind, run_onBox. destruct (cl_Close (pw_client w3)) as [rc c3]. cbn [run pret].
  rewrite run_handle, run_onStores. destruct (run env (tcall _ _) _) as [rr p4]. cbn [run].
  eexists s, _, l. split; [done|]. cbn. cbn in Hlog, Hk, Hf, Ha. rewrite app_nil_r in Hlog |- *. split_and!; [exact Hlog|done|done|done|lia|lia].
Qed.
End drain.

(** C37 (draining): a pass over a mailbox whose client keeps the interface's
    promise, with a processor that works, the lock free and time for the
    batches, returns without error and has handled every message that was
    unhandled when the mailbox was opened, each exactly once, and acknowledged
    exactly those; the statistics say so. *)
Theorem poll_drains {C} `{MailClient C} dial processor marshal errText cfg box `{!UnhandledMail C (actionOf box)} env time (w : pollWorld C) td c1 :
  0 < rc_FetchBatch cfg → Millisecond ≤ rc_LockTTL cfg → rc_UseIdle cfg = false →
  pv_closed (pw_store w) = false → pv_tenants (pw_store w) !! tm_TenantID box = Some td →
  locks td !! LockName (tm_MailboxID box) = None →
  dial (tm_Config box) (pw_client w) = (inr tt, c1) → um_ok c1 →
  processorWorks processor cfg box env (um_pending c1) → (length (um_pending c1) < time)%nat →
  ∃ s w' l, run env (PollOnce dial processor marshal errText cfg time box) w = (inr (s, None), w') ∧
    pw_log w' = pw_log w ++ l ∧ handledIDs l ≡ₚ mg_ID <$> um_pending c1 ∧ NoDup (handledIDs l) ∧ ackedIDs l = handledIDs l ∧
    sx_Locked s = true ∧ sx_Fetched s = len (um_pending c1) ∧ sx_Acked s = len (um_pending c1).
Proof.
  intros Hb Httl Hidle Hc Ht Hfree Hdial Hok Hproc Htime.
  destruct (PollOnce_drains processor marshal errText cfg box env Hb Httl dial time w td c1 Hc Ht Hfree Hdial Hok Hproc Htime Hidle)
    as (s&w'&l&Hr&Hlog&Hh&Ha&Hrest).
  destruct Hrest as (?&?&?). exists s, w', l. split_and!; [done|done|done| |done..]. rewrite Hh. by apply um_NoDup.
Qed.

(** ** A POP3 mailbox that keeps its mail *)

Section keep.
Context {P : Type} (net : network P) `{!Maildrop net}.
#[local] Existing Instance pop3_client.
Context (processor : TenantMailbox → Message → string → Time → progOn Provider Outcome)
        (marshal : eventPayload → error + string) (errText : mailErr → string) (cfg : RunnerConfig) (box : TenantMailbox) (env : Env).
Context (Hbatch : 0 < rc_FetchBatch cfg) (Httl : Millisecond ≤ rc_LockTTL cfg) (Hkeep : actionOf box = ActionKeep).
#[local] Abbreviation pworld := (pollWorld (pop3Mailbox P)).

(** As long as the session lasts the loop reads the first batch again. *)
Lemma drain_keeps time s (w : pworld) mails :
  idleSession net (pw_client w) → md_mails (p3_peer (pw_client w)) = mails → rc_FetchBatch cfg ≤ len mails →
  processorWorks processor cfg box env (popMessage <$> capTo (rc_FetchBatch cfg) mails) → lockHeld cfg box env (pw_store w) →
  ∃ s' w' l, run env (@drainBox _ (pop3_client net) processor cfg time (tm_TenantID box) box s) w =
      (inr (inl (s', Some (boxErr errDeadline))), w') ∧
    pw_log w' = pw_log w ++ l ∧ (∀ id, id ∈ handledIDs l → id ∈ pl_uid <$> capTo (rc_FetchBatch cfg) mails) ∧
    lockHeld cfg box env (pw_store w').
Proof.
  intros Hi Hm Hlen Hproc. revert s w Hi Hm. induction time as [|time IH]; intros s w Hi Hm Hlock; cbn [drainBox].
  { exists s, w, []. rewrite app_nil_r. split_and!; [done..| |done]. intros id Hid. by apply elem_of_nil in Hid. }
  rewrite run_pbind, run_onBox. destruct (pop3Fetch_exact net (rc_FetchBatch cfg) (pw_client w) Hi) as (c1&Hf&Hi1&Hm1&_).
  cbn [cl_Fetch pop3_client]. rewrite Hf, Hm. rewrite Hm in Hm1. set (batch := popMessage <$> capTo (rc_FetchBatch cfg) mails) in *.
  assert (Hlb : len batch = rc_FetchBatch cfg).
  { unfold batch, len. rewrite length_fmap. pose proof (length_capTo (rc_FetchBatch cfg) mails Hbatch). unfold len in *. lia. }
  assert (Hids : mg_ID <$> batch = pl_uid <$> capTo (rc_FetchBatch cfg) mails) by (unfold batch; by rewrite <- list_fmap_compose).
  clearbody batch. destruct batch as [|m0 ms]; [unfold len in Hlb; cbn in Hlb; lia|]. set (batch := m0 :: ms) in *.
  rewrite run_pbind. match goal with |- context [handleBatch processor box batch ?n ?h ?s0] => match goal with |- context [run env (handleBatch processor box batch n h s0) ?w0] =>
    destruct (handleBatch_run processor cfg box env batch n h s0 w0 Hproc Hlock) as (s1&p1&Hr1&Hlock1&_&_&_); rewrite Hr1 end end.
  rewrite app_nil_l, run_pbind.
  change (ackBox (mg_ID <$> batch) (actionOf box)) with (onBox (@cl_Ack _ (pop3_client net) (mg_ID <$> batch) (actionOf box)) (λ _, [evAcked (mg_ID <$> batch) (actionOf box)])).
  rewrite run_onBox. cbn [cl_Ack pop3_client].
  assert (Hack : ∀ m, pop3Ack net (mg_ID <$> batch) (actionOf box) m = (inr tt, m)) by (intros m; rewrite Hkeep; unfold pop3Ack; by rewrite orb_true_r).
  rewrite Hack, run_pbind. unfold clockNow. rewrite run_call, run_handle, run_onStores.
  destruct (Renew_run cfg box env p1 Hlock1 Httl) as (p2&Hren&Hlock2).
  match goal with |- context [run env (tcall _ _) (pw_store ?x)] => change (pw_store x) with p1 end. rewrite Hren.
  rewrite (proj2 (Z.ltb_ge _ _)) by lia.
  match goal with |- context [run env (drainBox _ _ _ _ _ ?s0) ?x] => destruct (IH s0 x Hi1 Hm1 Hlock2) as (s'&w'&l&Hr&Hl&Hh&Hlk) end.
  exists s', w', (evFetched (mg_ID <$> batch) :: (evHandled <$> (mg_ID <$> batch)) ++ evAcked (mg_ID <$> batch) (actionOf box) :: l).
  split_and!; [exact Hr|rewrite Hl; cbn; by rewrite <- !app_assoc| |done]. intros id.
  change (handledIDs (evFetched ?i :: ?x)) with (handledIDs x). rewrite handledIDs_app, handledIDs_handled.
  change (handledIDs (evAcked ?i ?a :: ?x)) with (handledIDs x). rewrite Hids. intros [Hin|Hin]%elem_of_app; [done|by apply Hh].
Qed.
End keep.

(** The comment on POP3 says that a mailbox that keeps its mail re-delivers
    everything on every poll.  With as many messages as a batch a pass never
    gets past the first batch: whatever its time, it reads the same messages
    again until its session times out, and no later message is handled. *)
Theorem pop3_keep_never_drains {P} (net : network P) `{!Maildrop net} processor cfg box env time s (w : pollWorld (pop3Mailbox P)) :
  0 < rc_FetchBatch cfg → Millisecond ≤ rc_LockTTL cfg → actionOf box = ActionKeep →
  idleSession net (pw_client w) → rc_FetchBatch cfg ≤ len (md_mails (p3_peer (pw_client w))) →
  processorWorks processor cfg box env (popMessage <$> capTo (rc_FetchBatch cfg) (md_mails (p3_peer (pw_client w)))) →
  lockHeld cfg box env (pw_store w) →
  ∃ s' w' l, run env (@drainBox _ (pop3_client net) processor cfg time (tm_TenantID box) box s) w =
      (inr (inl (s', Some (boxErr errDeadline))), w') ∧
    pw_log w' = pw_log w ++ l ∧
    ∀ id, id ∈ handledIDs l → id ∈ pl_uid <$> take (Z.to_nat (rc_FetchBatch cfg)) (md_mails (p3_peer (pw_client w))).
Proof.
  intros Hb Httl Hk Hi Hlen Hproc Hlock.
  destruct (drain_keeps net processor cfg box env Hb Httl Hk time s w _ Hi eq_refl Hlen Hproc Hlock) as (s'&w'&l&Hr&Hl&Hh&_).
  exists s', w', l. split_and!; [done..|]. intros id Hid. rewrite <- capTo_take by done. by apply Hh.
Qed.

(** ** Which mailboxes are polled *)

(** An enabled mailbox of the tenant, as it is polled. *)
Definition enabledBox (p : Provider) (t : string) (b : TenantMailbox) : Prop :=
  ∃ td id row, pv_tenants p !! t = Some td ∧ bounceMailboxes td !! id = Some row ∧ bm_Enabled row = true ∧ pollable t row = Some b.

Lemma ListEnabled_run env t p td : pv_closed p = false → pv_tenants p !! t = Some td →
  ∃ rows, run env (tcall t ListEnabled) p = (inr rows, p) ∧
    ∀ b, b ∈ omap (pollable t) rows ↔ enabledBox p t b.
Proof.
  intros Hc Ht. rewrite (run_tcall _ _ _ _ td Ht). unfold ListEnabled, checked. cbn [e_closed]. rewrite Hc, setTenant_id by done.
  eexists. split; [done|]. intros b. rewrite list_elem_of_omap. setoid_rewrite list_elem_of_omap. setoid_rewrite elem_of_selectIDs.
  unfold enabledBox. setoid_rewrite Ht. split.
  - intros (row&(id&(row'&Hr&He)&Hr')&Hp). simplify_eq. by eexists td, id, _.
  - intros (td'&id&row&[= <-]&Hr&He&Hp). exists row. split; [|done]. exists id. split; [by exists row|done].
Qed.

Lemma opened_boxes p t t0 b : pv_tenants p !! t0 = None →
  enabledBox (p <| pv_tenants := <[t0 := newTenantData]> (pv_tenants p) |>) t b ↔ enabledBox p t b.
Proof.
  intros Hn. unfold enabledBox. cbn. destruct (decide (t = t0)) as [->|Hne].
  - rewrite lookup_insert_eq, Hn. split; [|naive_solver]. intros (td&id&row&[= <-]&Hr&_). cbn in Hr. by rewrite lookup_empty in Hr.
  - by rewrite lookup_insert_ne.
Qed.

Lemma listTenants_run env ts out p :
  pv_closed p = false →
  ∃ boxes p', run env (listTenants ts out) p = (inr (out ++ boxes), p') ∧ pv_closed p' = false ∧
    (∀ t b, enabledBox p' t b ↔ enabledBox p t b) ∧
    (∀ b, b ∈ boxes ↔ ∃ t, t ∈ ts ∧ enabledBox p t b).
Proof.
  revert out p. induction ts as [|t ts IH]; intros out p Hc; cbn [listTenants].
  { exists [], p. rewrite app_nil_r. split_and!; [done..|]. intros b. rewrite elem_of_nil. setoid_rewrite elem_of_nil. naive_solver. }
  rewrite run_pbind, run_call. unfold ForTenant, pchecked. rewrite Hc.
  set (p1 := match pv_tenants p !! t with Some _ => p | None => p <| pv_tenants := <[t := newTenantData]> (pv_tenants p) |> end).
  assert (Hp1 : pv_closed p1 = false ∧ (∃ td, pv_tenants p1 !! t = Some td) ∧ ∀ t' b, enabledBox p1 t' b ↔ enabledBox p t' b).
  { unfold p1. destruct (pv_tenants p !! t) as [td|] eqn:Ht; [split_and!; [done|by exists td|done]|].
    split_and!; [done|cbn; exists newTenantData; by rewrite lookup_insert_eq|]. intros t' b. by apply opened_boxes. }
  destruct Hp1 as (Hc1&[td Htd]&Heq1). destruct (ListEnabled_run env t p1 td Hc1 Htd) as (rows&Hr&Hrows).
  destruct (IH (out ++ omap (pollable t) rows) p1 Hc1) as (boxes&p'&Hr'&Hc'&Heq'&Hb).
  exists (omap (pollable t) rows ++ boxes), p'. split_and!.
  - destruct (pv_tenants p !! t); cbn [p1] in *; rewrite run_pbind; fold p1; rewrite Hr, Hr'; by rewrite app_assoc.
  - done.
  - intros t' b. by rewrite Heq', Heq1.
  - intros b. rewrite elem_of_app, Hrows, Hb, Heq1. setoid_rewrite elem_of_cons. setoid_rewrite Heq1. naive_solver.
Qed.

(** Every mailbox in some tenant makes the tenant known. *)
Lemma box_tenant_known p t b td : pv_tenants p !! t = Some td → enabledBox p t b → isKnownTenant td = true.
Proof.
  intros Ht (td'&id&row&Ht'&Hr&_). assert (td' = td) as -> by congruence. unfold isKnownTenant.
  assert (nonEmpty (bounceMailboxes td) = true) as ->; [|by rewrite !orb_true_r].
  unfold nonEmpty. apply Z.ltb_lt. destruct (size (bounceMailboxes td)) eqn:E; [|lia].
  apply map_size_empty_inv in E. rewrite E in Hr. by rewrite lookup_empty in Hr.
Qed.

Lemma ListMailboxes_run env p :
  pv_closed p = false →
  ∃ boxes p', run env ListMailboxes p = (inr boxes, p') ∧ ∀ b, b ∈ boxes ↔ ∃ t, enabledBox p t b.
Proof.
  intros Hc. unfold ListMailboxes. rewrite run_pbind, run_call. unfold Tenants, pchecked. rewrite Hc.
  destruct (listTenants_run env (selectIDs (λ id d, negb (strEq id SystemTenantID) && isKnownTenant d) (pv_tenants p) ++ [SystemTenantID]) [] p Hc)
    as (boxes&p'&Hr&_&_&Hb). exists boxes, p'. split; [done|]. intros b. rewrite Hb. split; [naive_solver|]. intros [t Ht]. exists t. split; [|done].
  apply elem_of_app. destruct (decide (t = SystemTenantID)) as [->|Hne]; [right; by apply list_elem_of_singleton|left].
  apply elem_of_selectIDs. pose proof Ht as (td&_&_&Htd&_). exists td. split; [done|].
  rewrite (box_tenant_known _ _ _ _ Htd Ht), andb_true_r. apply negb_true_iff. unfold strEq. by apply bool_decide_eq_false_2.
Qed.

(** The mailboxes that get a worker. *)
Definition named (b : TenantMailbox) : Prop := tm_TenantID b ≠ "" ∧ tm_MailboxID b ≠ "".

Lemma wantedBoxes_spec boxes k :
  (∀ b, wantedBoxes boxes !! k = Some b → b ∈ boxes ∧ named b ∧ mailboxKey b = k) ∧
  (∀ b, b ∈ boxes → named b → mailboxKey b = k → is_Some (wantedBoxes boxes !! k)).
Proof.
  unfold wantedBoxes. set (f := λ (want : gmap string TenantMailbox) b, if strEq (tm_TenantID b) "" || strEq (tm_MailboxID b) "" then want else <[mailboxKey b := b]> want).
  assert (Hf : ∀ want b, f want b = if decide (named b) then <[mailboxKey b := b]> want else want).
  { intros want b. unfold f, named, strEq. repeat case_bool_decide; cbn; case_decide; naive_solver. }
  clearbody f. induction boxes as [|x boxes IH] using rev_ind; [split; [by intros b|by intros b Hb%elem_of_nil]|].
  rewrite foldl_app. cbn [foldl]. rewrite Hf. destruct IH as [IH1 IH2]. case_decide as Hn.
  - destruct (decide (mailboxKey x = k)) as [<-|Hne].
    + rewrite lookup_insert_eq. split; [|eauto]. intros b [= <-]. split_and!; [set_solver|done..].
    + rewrite lookup_insert_ne by done. split; [intros b Hb%IH1; set_solver|]. intros b [Hb| ->%list_elem_of_singleton]%elem_of_app ??; [by eapply IH2|done].
  - split; [intros b Hb%IH1; set_solver|]. intros b [Hb| ->%list_elem_of_singleton]%elem_of_app ??; [by eapply IH2|done].
Qed.

(** A mailbox whose worker runs keeps the configuration the worker was started
    with: a changed password or host is not seen until the mailbox has left
    the list once. *)
Lemma refresh_keeps_stale_config workers boxes k old new :
  workers !! k = Some old → wantedBoxes boxes !! k = Some new → refreshWorkers (inr boxes) workers !! k = Some old.
Proof.
  intros Ho Hn. unfold refreshWorkers. apply lookup_union_Some_l. apply map_lookup_filter_Some. split; [done|]. cbn. rewrite Hn. eauto.
Qed.

(** The list of mailboxes holds every enabled bounce
    mailbox with a usable policy of every tenant, whether the tenant is active
    or not, and of the system tenant, and nothing else; a refresh leaves one
    worker for each that has its IDs, stops the ones that left the list, and
    does not disturb a worker whose mailbox stayed. *)
Theorem mailbox_workers_exact env p workers :
  pv_closed p = false →
  ∃ boxes p', run env ListMailboxes p = (inr boxes, p') ∧
    (∀ b, b ∈ boxes ↔ ∃ t td id row, pv_tenants p !! t = Some td ∧ bounceMailboxes td !! id = Some row ∧
                        bm_Enabled row = true ∧ pollable t row = Some b) ∧
    let workers' := refreshWorkers (inr boxes) workers in
    (∀ k, is_Some (workers' !! k) ↔ ∃ b, b ∈ boxes ∧ tm_TenantID b ≠ "" ∧ tm_MailboxID b ≠ "" ∧ mailboxKey b = k) ∧
    (∀ k b, workers' !! k = Some b →
       workers !! k = Some b ∨ workers !! k = None ∧ b ∈ boxes) ∧
    (∀ k b, workers !! k = Some b → is_Some (workers' !! k) → workers' !! k = Some b).
Proof.
  intros Hc. destruct (ListMailboxes_run env p Hc) as (boxes&p'&Hr&Hb). exists boxes, p'. split; [done|]. split.
  { intros b. rewrite Hb. unfold enabledBox. naive_solver. }
  assert (Hlk : ∀ k, refreshWorkers (inr boxes) workers !! k =
    match wantedBoxes boxes !! k with Some b => Some (default b (workers !! k)) | None => None end).
  { intros k. unfold refreshWorkers. rewrite lookup_union, map_lookup_filter. destruct (workers !! k) as [w|]; cbn [mbind option_bind].
    - destruct (wantedBoxes boxes !! k) as [b|] eqn:E; cbn [fst];
        [by rewrite option_guard_True by eauto|by rewrite option_guard_False by (rewrite E; by intros [? ?])].
    - by destruct (wantedBoxes boxes !! k). }
  cbv zeta. split_and!.
  - intros k. rewrite Hlk. destruct (wantedBoxes_spec boxes k) as [H1 H2]. destruct (wantedBoxes boxes !! k) as [b|] eqn:E.
    + split; [intros _|eauto]. destruct (H1 b eq_refl) as (?&[? ?]&?). by exists b.
    + split; [by intros [? ?]|]. intros (b&Hin&Ht&Hm&Hk). by destruct (H2 b Hin (conj Ht Hm) Hk).
  - intros k b. rewrite Hlk. destruct (wantedBoxes boxes !! k) as [b'|] eqn:E; [|done]. destruct (workers !! k) as [w|]; intros [= <-]; [by left|right].
    split; [done|]. by apply (proj1 (wantedBoxes_spec boxes k) _ E).
  - intros k b Hw. rewrite Hlk, Hw. by destruct (wantedBoxes boxes !! k); [|intros [? ?]].
Qed.

(** ** The schedule *)

(** The backoff after [n] passes in a row that failed. *)
Definition backoffAfter (interval max : Duration) (n : nat) : Duration := Nat.iter n (λ b, nextBackoff b interval max) 0.

Lemma backoffAfter_spec interval max n :
  0 < interval → 0 < max < 2 ^ 62 → backoffAfter interval max (S n) = Z.min max (interval * 2 ^ Z.of_nat n).
Proof.
  intros Hi Hm. induction n as [|n IH].
  - cbn. unfold nextBackoff. cbn. destruct (Z.ltb_spec max interval); lia.
  - change (backoffAfter interval max (S (S n))) with (nextBackoff (backoffAfter interval max (S n)) interval max). rewrite IH.
    assert (Hp : 0 < interval * 2 ^ Z.of_nat n) by lia.
    unfold nextBackoff. rewrite (proj2 (Z.leb_gt _ _)) by lia. rewrite int64_small by (unfold in_int64, minInt64, maxInt64; lia).
    replace (Z.of_nat (S n)) with (Z.of_nat n + 1) by lia. rewrite Z.pow_add_r by lia. change (2 ^ 1) with 2.
    destruct (Z.ltb_spec max (Z.min max (interval * 2 ^ Z.of_nat n) * 2)); lia.
Qed.

(** Backoff: after [n] failed passes in a row the worker of a mailbox waits
    its interval doubled [n - 1] times, and no longer than the maximum,
    which no number of failures overflows; a pass that worked resets it to the
    interval, or to no wait at all after an IDLE. *)
Theorem poll_backoff_exact cfg interval s e n :
  0 < interval → 0 < rc_MaxBackoff cfg < 2 ^ 62 →
  let failed := pollTurn cfg interval (backoffAfter interval (rc_MaxBackoff cfg) n) (s, Some e) false in
  failed = (backoffAfter interval (rc_MaxBackoff cfg) (S n), Z.min (rc_MaxBackoff cfg) (interval * 2 ^ Z.of_nat n)) ∧
  in_int64 failed.2 ∧
  pollTurn cfg interval (backoffAfter interval (rc_MaxBackoff cfg) n) (s, None) false = (0, if sx_Idled s then 0 else interval).
Proof.
  intros Hi Hm failed.
  assert (Hf : failed = (backoffAfter interval (rc_MaxBackoff cfg) (S n), Z.min (rc_MaxBackoff cfg) (interval * 2 ^ Z.of_nat n))).
  { unfold failed, pollTurn. cbn [fst snd]. change (nextBackoff (backoffAfter interval (rc_MaxBackoff cfg) n) interval (rc_MaxBackoff cfg))
      with (backoffAfter interval (rc_MaxBackoff cfg) (S n)). rewrite (backoffAfter_spec interval _ n Hi Hm).
    rewrite (proj2 (Z.ltb_lt _ _)); [done|]. lia. }
  split_and!; [done|rewrite Hf; unfold in_int64, minInt64, maxInt64; cbn [snd]; lia|done].
Qed.

(** ** Concrete runs *)

(** Mail that cannot be read is no bounce: handling it works. *)
Lemma unreadable_works bp rand cfg box env msgs :
  (∀ raw, ml_ReadMessage (bp_mime bp) raw = None) → tm_Platform box = false →
  processorWorks (pollProcessor bp rand) cfg box env msgs.
Proof.
  intros Hraw Hpl msg id p _ (Hc&td&lk&Ht&Hlk&Ho&He). unfold pollProcessor. rewrite Hpl. unfold Handle. rewrite run_pbind.
  assert (Hload : ∃ s td', run env (inTenant (tm_TenantID box) (LoadTenantSettings rand (tm_TenantID box) (e_clock env))) p =
    (inr s, setTenant (tm_TenantID box) td' p) ∧ locks td' = locks td).
  { unfold LoadTenantSettings. cbn. unfold onStore at 1. rewrite Ht. unfold SettingsGet at 1, checked at 1. cbn [e_closed]. rewrite Hc.
    destruct (settings td) as [s|] eqn:Hs; cbn; [by exists s, td|]. change (errIs ErrNotFound ErrNotFound) with true.
    cbn [negb]. cbn. unfold onStore. cbn. rewrite lookup_insert_eq.
    unfold SettingsCreate, checked. cbn [e_closed pv_closed]. rewrite Hc, Hs. cbn. eexists _, _.
    split; [exact (f_equal (pair _) (setTenant_twice (tm_TenantID box) td _ p))|done]. }
  destruct Hload as (s&td'&->&Hl). unfold ParseWithKeys, collect. rewrite Hraw. eexists _, _. split; [done|].
  split; [done|]. exists td', lk. by rewrite setTenant_lookup, Hl.
Qed.

Definition deafMime : mimeLib := {|
  ml_ReadMessage _ := None; ml_ParseMediaType _ := None; ml_Parts _ _ := []; ml_Base64 s := s; ml_QuotedPrintable s := s;
  ml_ReadMIMEHeader _ := (∅, None); ml_DecodeHeader v := Some v; ml_ParseDate _ := None; ml_ParseAddress _ := None; ml_ToLower s := s |}.
Definition deafProcessor : processor := mkProcessor deafMime (λ _ _, "") (λ s, Some s) (λ _, Some "{}") (λ s, Some s) true DefaultMaxRawBytes.

Definition pollEnv : Env := mkEnv false Hour "acme" (λ n, "id" +:+ pretty n).
Definition pollRow : BounceMailbox :=
  zero <| bm_ID := "b1" |> <| bm_Host := "mx.example.test" |> <| bm_Enabled := true |> <| bm_AfterProcess := "delete" |>.
Definition pollStore : Provider :=
  mkProvider false (<["acme" := newTenantData <| bounceMailboxes := <["b1" := pollRow]> ∅ |>]> ∅).
Definition pollBox : TenantMailbox :=
  mkTenantMailbox "acme" "b1" (mkMailConfig ProtocolIMAP "mx.example.test" 0 "" "" "" "" [] ActionDelete 0 0) 0 false.
Definition pollConfig : RunnerConfig := runnerDefaults (mkRunnerConfig "replica-1" 0 2 0 0 0 0 false).

Definition fakeWorld : pollWorld Fake := mkPollWorld pollStore (NewFake ["one"; "two"; "three"]) [].
Definition fakeDial (_ : MailConfig) : MM Fake unit := λ f, (inr tt, f).
Definition fakePoll (time : nat) : progOn (pollWorld Fake) pollResult :=
  PollOnce fakeDial (pollProcessor deafProcessor "rand") (λ _, inr "{}") (λ _, "") pollConfig time pollBox.

Lemma poll_drains_witness :
  ∃ s w' l, run pollEnv (fakePoll 4) fakeWorld = (inr (s, None), w') ∧ pw_log w' = l ∧ handledIDs l ≡ₚ ["1"; "2"; "3"] ∧
    sx_Acked s = 3.
Proof.
  destruct (poll_drains fakeDial (pollProcessor deafProcessor "rand") (λ _, inr "{}") (λ _, "") pollConfig pollBox pollEnv 4 fakeWorld
    (newTenantData <| bounceMailboxes := <["b1" := pollRow]> ∅ |>) (NewFake ["one"; "two"; "three"])) as (s&w'&l&Hr&Hl&Hh&_&_&_&_&Ha).
  1-7: by vm_compute.
  - split; [done|]. split; [done|]. apply (bool_decide_unpack _). by vm_compute.
  - by apply unreadable_works.
  - vm_compute. lia.
  - exists s, w', l. split; [exact Hr|]. split; [exact Hl|]. split; [exact Hh|]. rewrite Ha. by vm_compute.
Defined.

(** The record of that pass: three messages in batches of two. *)
Lemma poll_discipline_witness :
  (∃ tr, passPromise pollConfig pollBox tr (run pollEnv (fakePoll 4) fakeWorld).2 (run pollEnv (fakePoll 4) fakeWorld).1) ∧
  pw_log (run pollEnv (fakePoll 4) fakeWorld).2 =
    [evFetched ["1"; "2"]; evHandled "1"; evHandled "2"; evAcked ["1"; "2"] "delete";
     evFetched ["3"]; evHandled "3"; evAcked ["3"] "delete"].
Proof.
  split; [|by vm_compute]. destruct (run_exec othersStores pollEnv (fakePoll 4) fakeWorld) as [tr He]; [by split|].
  exists tr. exact (poll_discipline fakeDial (pollProcessor deafProcessor "rand") (λ _, inr "{}") (λ _, "") pollConfig 4 pollBox _ _ tr _ He).
Defined.

Lemma mailbox_workers_exact_witness :
  ∃ boxes p', run pollEnv ListMailboxes pollStore = (inr boxes, p') ∧ pollBox ∈ boxes.
Proof.
  destruct (mailbox_workers_exact pollEnv pollStore ∅ eq_refl) as (boxes&p'&Hr&Hb&_). exists boxes, p'. split; [exact Hr|]. apply Hb.
  exists "acme", (newTenantData <| bounceMailboxes := <["b1" := pollRow]> ∅ |>), "b1", pollRow. split_and!; by vm_compute.
Defined.

Lemma poll_backoff_exact_witness :
  (pollTurn pollConfig Minute (backoffAfter Minute (rc_MaxBackoff pollConfig) 3) (zeroStats, Some (boxErr EOFError)) false).2 = 8 * Minute.
Proof.
  pose proof (poll_backoff_exact pollConfig Minute zeroStats (boxErr EOFError) 3 ltac:(by vm_compute) ltac:(split; by vm_compute)) as H.
  cbv zeta in H. destruct H as [-> _]. by vm_compute.
Defined.
