(* ===== verification/ProbeHeaders.v ===== *)
(** * The headers of a probe mail ([internal/probe/headers.go])

    A header block in wire order, the Authentication-Results headers with their
    trust rule, and the Received chain.  Text is bytes; what Go's Unicode
    tables, [net] and [net/mail] compute is the record [probeLib]. *)

From S2P Require Import Prelude Enums Model Classify Codec Tokens Email Platform BounceReport.

(** The parts of Go's library the parser calls. *)
Record probeLib := mkProbeLib {
  (** [strings.ToLower], [strings.ToUpper] and [strings.EqualFold] *)
  pl_ToLower : string → string;
  pl_ToUpper : string → string;
  pl_EqualFold : string → string → bool;
  (** [net.ParseIP], as the text of [net.IP.String] *)
  pl_ParseIP : string → option string;
  (** [IsLoopback], [IsPrivate], [IsLinkLocalUnicast], [IsLinkLocalMulticast]
      or [IsUnspecified] of an address *)
  pl_LocalIP : string → bool;
  (** [mail.ParseDate] *)
  pl_ParseDate : string → option Time;
}.

Section headers.
Context (L : probeLib).
Abbreviation lower := (pl_ToLower L).
Abbreviation fold := (pl_EqualFold L).

(** ** Text *)

Definition endsWithByte (c : Ascii.ascii) (s : string) : bool :=
  match cutLast c s with Some (_, "") => true | _ => false end.

(** [strings.TrimSuffix] of one byte *)
Definition trimSuffixByte (c : Ascii.ascii) (s : string) : string :=
  match cutLast c s with Some (a, "") => a | _ => s end.

(** [strings.FieldsFunc] with a set of ASCII separators *)
Fixpoint fieldsBy (seps : list Ascii.ascii) (cur s : string) : list string :=
  let emit := if strEq cur "" then [] else [cur] in
  match s with
  | EmptyString => emit
  | String c s' =>
      if contains seps c then emit ++ fieldsBy seps "" s' else fieldsBy seps (cur +:+ String c "") s'
  end.

Definition space : Ascii.ascii := toByte 32.
Definition tab : Ascii.ascii := toByte 9.
Definition comma : Ascii.ascii := toByte 44.
Definition semi : Ascii.ascii := toByte 59.
Definition quote : Ascii.ascii := toByte 34.
Definition backslash : Ascii.ascii := toByte 92.
Definition lparen : Ascii.ascii := toByte 40.
Definition rparen : Ascii.ascii := toByte 41.
Definition lbracket : Ascii.ascii := toByte 91.
Definition rbracket : Ascii.ascii := toByte 93.
Definition equals : Ascii.ascii := toByte 61.

(** ** The header block *)

Record Field := mkField { fd_Name : string; fd_Value : string }.
Abbreviation Headers := (list Field).

(** [Headers.Values] and [Headers.Get] *)
Definition Values (h : Headers) (name : string) : list string :=
  fd_Value <$> filter (λ f, fold (fd_Name f) name = true) h.
Definition HGet (h : Headers) (name : string) : string := default "" (head (Values h name)).

(** The field that is being read, appended when it has a name. *)
Definition flushField (name value : string) (out : Headers) : Headers :=
  if strEq name "" then out else out ++ [mkField name (TrimSpace value)].

(** The lines of [ParseHeaders], with the field that is being read. *)
Fixpoint parseLines (lines : list string) (name value : string) (out : Headers) : Headers :=
  match lines with
  | [] => flushField name value out
  | line :: lines' =>
      let line := trimSuffixByte (toByte 13) line in
      match line with
      | EmptyString => flushField name value out
      | String c _ =>
          if Ascii.eqb c space || Ascii.eqb c tab then
            if strEq name "" then parseLines lines' name value out
            else parseLines lines' name (value +:+ String space (TrimSpace line)) out
          else
            match cutByte (toByte 58) line with
            | Some (n, v) =>
                if strEq n "" then parseLines lines' name value out
                else parseLines lines' (TrimSpace n) (TrimSpace v) (flushField name value out)
            | None => parseLines lines' name value out
            end
      end
  end.

(** [ParseHeaders] *)
Definition ParseHeaders (raw : string) : Headers := parseLines (splitByte (toByte 10) raw) "" "" [].

(** [HeadersFromMap] *)
Definition HeadersFromMap (m : gmap string (list string)) : Headers :=
  concat ((λ name, (λ v, mkField name (TrimSpace v)) <$> default [] (m !! name)) <$> sortStrings (elements (dom m))).

(** [Headers.String] *)
Fixpoint HeadersString (h : Headers) : string :=
  match h with
  | [] => ""
  | f :: h' => fd_Name f +:+ ": " +:+ fd_Value f +:+ String (toByte 13) (String (toByte 10) "") +:+ HeadersString h'
  end.

(** ** Clauses and comments *)

(** [readComment] from inside [depth] parentheses: the text, and what follows
    the comment. *)
Fixpoint readCommentFrom (depth : nat) (s : string) : string * string :=
  match s with
  | EmptyString => ("", "")
  | String c s' =>
      if Ascii.eqb c backslash then
        match s' with
        | String d s'' => let '(t, r) := readCommentFrom depth s'' in (String d t, r)
        | EmptyString => (String c "", "")
        end
      else if Ascii.eqb c lparen then
        let '(t, r) := readCommentFrom (S depth) s' in
        (match depth with O => t | _ => String c t end, r)
      else if Ascii.eqb c rparen then
        match depth with
        | O | S O => ("", s')
        | S depth' => let '(t, r) := readCommentFrom depth' s' in (String c t, r)
        end
      else let '(t, r) := readCommentFrom depth s' in (String c t, r)
  end.
Definition readComment (s : string) : string * string :=
  let '(t, r) := readCommentFrom 0 s in (TrimSpace t, r).

Record clause := mkClause { cs_text : string; cs_comments : list string }.

(** [splitClauses]; every step consumes a byte, so the length is fuel enough. *)
Fixpoint clausesFrom (fuel : nat) (inQuote : bool) (b : string) (comments : list string) (s : string) : list clause :=
  let last := if strEq (TrimSpace b) "" && (len comments =? 0) then [] else [mkClause b comments] in
  match fuel with
  | O => last
  | S fuel =>
      match s with
      | EmptyString => last
      | String c s' =>
          if inQuote then
            match Ascii.eqb c backslash, s' with
            | true, String d s'' => clausesFrom fuel true (b +:+ String c (String d "")) comments s''
            | _, _ => clausesFrom fuel (negb (Ascii.eqb c quote)) (b +:+ String c "") comments s'
            end
          else if Ascii.eqb c quote then clausesFrom fuel true (b +:+ String c "") comments s'
          else if Ascii.eqb c lparen then
            let '(text, rest) := readComment s in
            clausesFrom fuel false (b +:+ String space "") (comments ++ [text]) rest
          else if Ascii.eqb c semi then mkClause b comments :: clausesFrom fuel false "" [] s'
          else clausesFrom fuel false (b +:+ String c "") comments s'
      end
  end.
Definition splitClauses (s : string) : list clause := clausesFrom (S (String.length s)) false "" [] s.

(** [quotedFields] *)
Fixpoint quotedFrom (inQuote : bool) (cur s : string) : list string :=
  let emit := if strEq cur "" then [] else [cur] in
  match s with
  | EmptyString => emit
  | String c s' =>
      match Ascii.eqb c backslash, s' with
      | true, String d s'' => quotedFrom inQuote (cur +:+ String d "") s''
      | _, _ =>
          if Ascii.eqb c quote then quotedFrom (negb inQuote) (cur +:+ String c "") s'
          else if negb inQuote && (Ascii.eqb c space || Ascii.eqb c tab) then emit ++ quotedFrom inQuote "" s'
          else quotedFrom inQuote (cur +:+ String c "") s'
      end
  end.
Definition quotedFields : string → list string := quotedFrom false "".

(** ** Authentication-Results *)

Record AuthMethod := mkAuthMethod {
  am_Method : string;
  am_Result : string;
  am_Reason : string;
  am_Comment : string;
  am_Props : gmap string string;
}.
#[global] Instance AuthMethod_eta : Eta AuthMethod := λ m,
  mkAuthMethod (am_Method m) (am_Result m) (am_Reason m) (am_Comment m) (am_Props m).

Definition Prop_ (m : AuthMethod) (name : string) : string := default "" (am_Props m !! lower name).

Record AuthResults := mkAuthResults { ar_AuthServID : string; ar_Version : string; ar_Methods : list AuthMethod }.

(** [AuthResults.Method] *)
Definition Method (a : AuthResults) (name : string) : option AuthMethod :=
  snd <$> list_find (λ m, fold (am_Method m) name = true) (ar_Methods a).

(** [method]: without a version *)
Definition methodName (s : string) : string := match cutByte (toByte 47) s with Some (a, _) => a | None => s end.

Definition knownMethods : list string :=
  ["auth"; "arc"; "bimi"; "compauth"; "dkim"; "dkim-adsp"; "dkim-atps"; "dmarc"; "domainkeys"; "iprev"; "rrvs";
   "sender-id"; "smime"; "spf"; "vbr"; "none"].

Definition isMethodClause (s : string) : bool :=
  match cutByte equals s with Some (name, _) => contains knownMethods (lower (methodName name)) | None => false end.

Definition isDigits (s : string) : bool :=
  negb (strEq s "") && forallb isDigit (String.list_ascii_of_string s).

Definition Join (sep : string) (l : list string) : string :=
  match l with [] => "" | x :: l' => foldl (λ acc y, acc +:+ sep +:+ y) x l' end.

(** The fields after the first of a clause. *)
Definition methodField (m : AuthMethod) (f : string) : AuthMethod :=
  match cutByte equals f with
  | None => m
  | Some (k, v) =>
      let k := lower (TrimSpace k) in
      let v := Trim [quote] (TrimSpace v) in
      if strEq k "reason" then m <| am_Reason := v |>
      else if negb (hasByte (toByte 46) k) then m
      else m <| am_Props := <[k := v]> (am_Props m) |>
  end.

(** [parseAuthMethod] *)
Definition parseAuthMethod (c : clause) : option AuthMethod :=
  match quotedFields (cs_text c) with
  | [] => None
  | f0 :: fields =>
      match cutByte equals f0 with
      | None => None
      | Some (name, result) =>
          let m := mkAuthMethod (lower (TrimSpace (methodName name))) (lower (Trim [quote] result)) ""
                     (Join " " (cs_comments c)) ∅ in
          let m := foldl methodField m fields in
          if strEq (am_Method m) "" then None else Some m
      end
  end.

(** [ParseAuthResults]; [None] is [ErrNoAuthServID]. *)
Definition ParseAuthResults (value : string) : option AuthResults :=
  match splitClauses value with
  | [] => None
  | seg :: rest =>
      match Fields (cs_text seg) with
      | [] => None
      | h0 :: head =>
          Some (if isMethodClause h0 then mkAuthResults "" "" (omap parseAuthMethod (seg :: rest))
                else mkAuthResults (Trim [quote] h0)
                       (match head with v :: _ => if isDigits v then v else "" | [] => "" end)
                       (omap parseAuthMethod rest))
      end
  end.

(** Whether a mailbox configured with [authServID] believes the header. *)
Definition trusted (authServID : string) (ar : AuthResults) : bool :=
  strEq authServID "" || fold (TrimSpace (ar_AuthServID ar)) authServID.

(** [TrustedAuthResults] *)
Definition TrustedAuthResults (h : Headers) (authServID : string) : list AuthResults :=
  filter (λ ar, trusted authServID ar = true) (omap ParseAuthResults (Values h "Authentication-Results")).

(** [DMARCPolicy] *)
Definition DMARCPolicy (m : AuthMethod) : string :=
  let v := Prop_ m "header.p" in
  if negb (strEq v "") then lower v
  else
    match omap (λ tok, match cutByte equals tok with
                       | Some (k, v) => if fold k "p" then Some (lower v) else None
                       | None => None
                       end) (fieldsBy [space; comma; semi] "" (am_Comment m)) with
    | v :: _ => v
    | [] => ""
    end.

(** ** The Received chain *)

Record Hop := mkHop {
  hp_From : string;
  hp_RDNS : string;
  hp_IP : option string;
  hp_By : string;
  hp_TLS : bool;
  hp_At : Time;
}.
#[global] Instance Hop_eta : Eta Hop := λ h,
  mkHop (hp_From h) (hp_RDNS h) (hp_IP h) (hp_By h) (hp_TLS h) (hp_At h).

(** What follows the last of a set of bytes. *)
Fixpoint afterLastAny (set : list Ascii.ascii) (cur s : string) : string :=
  match s with
  | EmptyString => cur
  | String c s' => afterLastAny set (if contains set c then "" else cur +:+ String c "") s'
  end.

Definition containsAnyByte (set : list Ascii.ascii) (s : string) : bool := existsb (λ c, hasByte c s) set.

(** [rdnsBefore] *)
Definition rdnsBefore (s : string) : string :=
  let s := trimRightSet [space; tab] s in
  if strEq s "" || endsWithByte lparen s then ""
  else
    let name := trimSuffixByte (toByte 46) (Trim [lparen; rparen] (TrimSpace (afterLastAny [space; tab; lparen] "" s))) in
    if strEq name "" || fold name "unknown" || fold name "from" then ""
    else if containsAnyByte [toByte 60; toByte 62; toByte 64] name then "" else name.

(** [bracketedAddr], with the text in front; every step consumes a byte. *)
Fixpoint bracketFrom (fuel : nat) (before s : string) : option (string * string) :=
  match fuel, s with
  | S fuel, String c s' =>
      if Ascii.eqb c lbracket then
        match cutByte rbracket s' with
        | None => None
        | Some (inner, rest) =>
            match pl_ParseIP L (TrimSpace (TrimPrefix (TrimPrefix inner "IPv6:") "ipv6:")) with
            | Some ip => Some (ip, rdnsBefore before)
            | None => bracketFrom fuel (before +:+ String c inner +:+ String rbracket "") rest
            end
        end
      else bracketFrom fuel (before +:+ String c "") s'
  | _, _ => None
  end.

(** The tokens of one comment of [commentAddr]: the first address and the first
    name. *)
Fixpoint commentTokens (toks : list string) (ip : option string) (name : string) : option string * string :=
  match toks with
  | [] => (ip, name)
  | tok :: toks' =>
      let tok := Trim [lbracket; rbracket] tok in
      match pl_ParseIP L tok, ip with
      | Some got, None => commentTokens toks' (Some got) name
      | _, _ =>
          commentTokens toks' ip
            (if strEq name "" && hasByte (toByte 46) tok &&
                negb (containsAnyByte [equals; toByte 60; toByte 62; toByte 64] tok)
             then trimSuffixByte (toByte 46) tok else name)
      end
  end.

(** [commentAddr] *)
Fixpoint commentAddr (fuel : nat) (s : string) : option string * string :=
  match fuel, s with
  | S fuel, String c s' =>
      if Ascii.eqb c lparen then
        let '(text, rest) := readComment s in
        match commentTokens (fieldsBy [space; tab; comma; semi] "" text) None "" with
        | (Some ip, name) => (Some ip, if fold name "unknown" then "" else name)
        | (None, _) => commentAddr fuel rest
        end
      else commentAddr fuel s'
  | _, _ => (None, "")
  end.

(** [observedAddr] *)
Definition observedAddr (s : string) : option string * string :=
  match bracketFrom (String.length s) "" s with
  | Some (ip, rdns) => (Some ip, rdns)
  | None => commentAddr (String.length s) s
  end.

(** [stripComments] *)
Fixpoint stripComments (fuel : nat) (s : string) : string :=
  match fuel, s with
  | S fuel, String c s' =>
      if Ascii.eqb c lparen then String space (stripComments fuel (readComment s).2)
      else String c (stripComments fuel s')
  | _, _ => ""
  end.
Definition withoutComments (s : string) : string := stripComments (String.length s) s.

(** [parseDate] *)
Definition parseDate (s : string) : option Time :=
  let s := TrimSpace s in
  match pl_ParseDate L s with
  | Some t => Some t
  | None => pl_ParseDate L (TrimSpace (withoutComments s))
  end.

Definition isTLSProtocol (s : string) : bool :=
  contains ["ESMTPS"; "ESMTPSA"; "ESMTPTLS"; "SMTPS"; "HTTPS"; "ESMTPTLSA"] (pl_ToUpper L (trimSuffixByte semi s)).

Definition mentionsTLS (s : string) : bool :=
  containsAny (lower s) ["using tls"; "version=tls"; "with tls"; "(tls1"; "cipher="].

(** The words of a Received header, each with the one after it. *)
Fixpoint receivedWords (fields : list string) (h : Hop) : Hop :=
  match fields with
  | [] => h
  | f :: fields' =>
      let h :=
        match fields' with
        | [] => h
        | next :: _ =>
            if strEq (lower f) "from" then
              (if strEq (hp_From h) "" then h <| hp_From := Trim angles next |> else h)
            else if strEq (lower f) "by" then
              (if strEq (hp_By h) "" then h <| hp_By := trimSuffixByte (toByte 46) next |> else h)
            else if strEq (lower f) "with" then (if isTLSProtocol next then h <| hp_TLS := true |> else h)
            else h
        end in
      receivedWords fields' h
  end.

(** [ParseReceived] *)
Definition ParseReceived (value : string) : Hop :=
  let clauses := splitClauses value in
  let at_ := if 1 <? len clauses
             then match last clauses with Some c => default zeroTime (parseDate (cs_text c)) | None => zeroTime end
             else zeroTime in
  let '(ip, rdns) := observedAddr value in
  let h := receivedWords (Fields (withoutComments value)) (mkHop "" rdns ip "" false at_) in
  if hp_TLS h then h else h <| hp_TLS := mentionsTLS value |>.

(** [ReceivedChain], oldest first *)
Definition ReceivedChain (h : Headers) : list Hop := ParseReceived <$> reverse (Values h "Received").

(** [hop.IP != nil && isPublicIP(hop.IP)] *)
Definition publicHop (hop : Hop) : bool := match hp_IP hop with Some ip => negb (pl_LocalIP L ip) | None => false end.

(** [FirstExternalHop] *)
Definition FirstExternalHop (h : Headers) : option Hop :=
  let chain := ReceivedChain h in
  match list_find (λ hop, publicHop hop = true) chain with
  | Some (_, hop) => Some hop
  | None => snd <$> list_find (λ hop, is_Some (hp_IP hop)) chain
  end.

(** The time of the newest hop that recorded one. *)
Definition newestAt (chain : list Hop) : Time :=
  match list_find (λ hop, IsZero (hp_At hop) = false) (reverse chain) with Some (_, hop) => hp_At hop | None => zeroTime end.

(** [Latency]; 0 when it cannot be told. *)
Definition Latency (h : Headers) (receivedAt : Time) : Duration :=
  let chain := ReceivedChain h in
  let sent := match parseDate (HGet h "Date") with
              | Some t => t
              | None => match chain with hop :: _ => hp_At hop | [] => zeroTime end
              end in
  if IsZero sent then 0
  else
    let got := if IsZero receivedAt then newestAt chain else receivedAt in
    if IsZero got then 0
    else Z.max 0 (subTime got sent).

(** ** What an upstream host cannot do *)

(** A header with another authserv-id is not believed, wherever it stands. *)
Lemma TrustedAuthResults_app (h1 h2 : list Field) authServID :
  TrustedAuthResults (h1 ++ h2) authServID = TrustedAuthResults h1 authServID ++ TrustedAuthResults h2 authServID.
Proof.
  unfold TrustedAuthResults, Values. rewrite filter_app, fmap_app, omap_app. apply filter_app.
Qed.

Lemma TrustedAuthResults_forged f authServID :
  (∀ ar, ParseAuthResults (fd_Value f) = Some ar → trusted authServID ar = false) →
  TrustedAuthResults [f] authServID = [].
Proof.
  intros Hf. unfold TrustedAuthResults, Values. rewrite filter_cons. case_decide; [|done]. cbn.
  destruct (ParseAuthResults (fd_Value f)) as [ar|] eqn:E; [|done]. rewrite filter_cons_False; [done|]. by rewrite Hf.
Qed.
End headers.
