(* ===== verification/Probe.v ===== *)
(** * The loopback probe ([internal/probe/run.go], [verdict.go])

    A probe sends a real mail through a sender to a mailbox and turns what comes
    back into a verdict.  [Trigger] queues the mails and their runs, [Collect]
    closes the runs of every mailbox and refreshes the senders, as programs over
    the tenant's store that interleave with everybody else's calls.  The
    mailboxes, the DNS checker, the cipher and Go's Unicode, JSON and HMAC
    functions are arguments. *)

From S2P Require Import Prelude Enums Model MemTable MemData DeliveryRepo Repos Provider Prog Classify Codec Tokens Email Platform BounceReport NetIP Spf DnsCheck ProbeHeaders MailboxHealth.

(** ** The verdict ([verdict.go]) *)

Definition FolderInbox : string := "inbox".
Definition FolderSpam : string := "spam".
Definition FolderOther : string := "other".
Definition FolderUnknown : string := "unknown".

Record Observation := mkObservation {
  ob_Delivered : bool;
  ob_TrustedAR : bool;
  ob_SPF : string;
  ob_DKIM : string;
  ob_DMARC : string;
  ob_DKIMDomain : string;
  ob_DKIMSelector : string;
  ob_DMARCPolicy : string;
  ob_MailFrom : string;
  ob_Folder : string;
  ob_TLS : bool;
  ob_ObservedIP : option string;
  ob_PTR : string;
  ob_PTRChecked : bool;
  ob_PTRMatch : bool;
  ob_Latency : Duration;
}.
#[global] Instance Observation_eta : Eta Observation := λ o,
  mkObservation (ob_Delivered o) (ob_TrustedAR o) (ob_SPF o) (ob_DKIM o) (ob_DMARC o) (ob_DKIMDomain o)
    (ob_DKIMSelector o) (ob_DMARCPolicy o) (ob_MailFrom o) (ob_Folder o) (ob_TLS o) (ob_ObservedIP o) (ob_PTR o)
    (ob_PTRChecked o) (ob_PTRMatch o) (ob_Latency o).
#[global] Instance Observation_zero : Zero Observation :=
  mkObservation false false "" "" "" "" "" "" "" "" false None "" false false 0.

Section verdict.
Context (L : probeLib).

Definition normalizeAuthResult (s : string) : string := pl_ToLower L (TrimSpace s).

(** The first failed method, worst first. *)
Fixpoint redOf (l : list (string * string)) : option string :=
  match l with
  | [] => None
  | (name, result) :: l' =>
      let r := normalizeAuthResult result in
      if strEq r "fail" then Some (name +:+ "=fail")
      else if strEq r "policy" then Some (name +:+ "=policy") else redOf l'
  end.

(** The first method without a pass. *)
Fixpoint yellowOf (l : list (string * string)) : option string :=
  match l with
  | [] => None
  | (name, result) :: l' =>
      let r := normalizeAuthResult result in
      if strEq r "softfail" then Some (name +:+ "=softfail")
      else if strEq r "none" || strEq r "" then Some (name +:+ " 판정이 없습니다")
      else if contains ["neutral"; "permerror"; "temperror"] r then Some (name +:+ "=" +:+ r)
      else yellowOf l'
  end.

Definition Verdict (o : Observation) : HealthStatus * string :=
  if negb (ob_Delivered o) then (HealthRed, "메일이 도착하지 않았습니다")
  else
    match redOf [("dmarc", ob_DMARC o); ("dkim", ob_DKIM o); ("spf", ob_SPF o)] with
    | Some reason => (HealthRed, reason)
    | None =>
        if negb (ob_TrustedAR o) then (HealthYellow, "신뢰할 수 있는 Authentication-Results 헤더가 없습니다")
        else if strEq (ob_Folder o) FolderSpam then (HealthYellow, "스팸함으로 분류되었습니다")
        else
          match yellowOf [("spf", ob_SPF o); ("dkim", ob_DKIM o); ("dmarc", ob_DMARC o)] with
          | Some reason => (HealthYellow, reason)
          | None =>
              if strEq (ob_DMARCPolicy o) "none" then (HealthYellow, "DMARC 정책이 p=none입니다")
              else if negb (ob_TLS o) then (HealthYellow, "TLS 없이 전달되었습니다")
              else if ob_PTRChecked o && negb (ob_PTRMatch o)
              then (HealthYellow, "PTR가 정방향 조회와 일치하지 않습니다(FCrDNS)")
              else if strEq (ob_Folder o) FolderOther then (HealthYellow, "받은편지함이 아닌 폴더로 분류되었습니다")
              else if strEq (ob_Folder o) FolderInbox then (HealthGreen, "spf/dkim/dmarc pass, 받은편지함, TLS")
              else (HealthGreen, "spf/dkim/dmarc pass, TLS (도착 폴더는 확인할 수 없음)")
          end
    end.

(** [folderKind]; [None] is a mailbox that was deleted. *)
Definition folderKind (m : option ProbeMailbox) (folder : string) : string :=
  let isFolder (p : ProbeMailbox → string) :=
    match m with Some b => negb (strEq (p b) "") && pl_EqualFold L folder (p b) | None => false end in
  if strEq folder "" then FolderUnknown
  else if isFolder pm_SpamFolder then FolderSpam
  else if isFolder pm_InboxFolder then FolderInbox
  else
    let f := pl_ToLower L folder in
    if strEq f FolderInbox then FolderInbox
    else if contains [FolderSpam; "junk"; "[gmail]/spam"; "junk email"; "junk e-mail"] f then FolderSpam
    else FolderOther.
End verdict.

Definition worst (a b : HealthStatus) : HealthStatus := if healthRank a <? healthRank b then b else a.

(** ** Options and arguments *)

Record probeOptions := mkProbeOptions {
  po_Interval : Duration;
  po_Timeout : Duration;
  (** [Timeout.String()] *)
  po_TimeoutText : string;
  po_ConsecutiveFailuresForRed : Z;
  po_HMACKey : string;
  (** [Options.DNS.RunAll], nil or not *)
  po_DNS : option (DNSInputs → DNSReport);
  (** [Options.Secrets.Decrypt], nil or not *)
  po_Decrypt : option (string → option string);
}.
#[global] Instance probeOptions_eta : Eta probeOptions := λ o,
  mkProbeOptions (po_Interval o) (po_Timeout o) (po_TimeoutText o) (po_ConsecutiveFailuresForRed o) (po_HMACKey o)
    (po_DNS o) (po_Decrypt o).

(** [New], the timings *)
Definition probeDefaults (o : probeOptions) : probeOptions :=
  o <| po_Interval := if po_Interval o <=? 0 then 6 * Hour else po_Interval o |>
    <| po_Timeout := if po_Timeout o <=? 0 then 15 * Minute else po_Timeout o |>
    <| po_ConsecutiveFailuresForRed :=
         if po_ConsecutiveFailuresForRed o <=? 0 then 2 else po_ConsecutiveFailuresForRed o |>.

Record healthChangedPayload := mkHealthChangedPayload {
  hc_SenderID : string; hc_Name : string; hc_From : HealthStatus; hc_To : HealthStatus; hc_Reason : string;
  hc_CheckedAt : Time; hc_OccurredAt : Time;
}.

Record probeArgs := mkProbeArgs {
  pg_lib : probeLib;
  pg_opts : probeOptions;
  (** hex of HMAC-SHA256, key and message *)
  pg_hmac : string → string → string;
  (** [json.Marshal] of a report and of the two event payloads *)
  pg_marshalReport : DNSReport → option string;
  pg_marshalHealth : healthChangedPayload → error + string;
  pg_marshalMailbox : eventPayload → error + string;
  (** [store.NormalizeEmail] *)
  pg_NormalizeEmail : string → option string;
}.

(** [RawMessage], and what an open mailbox answers to [FetchByHeader] *)
Record RawMessage := mkRawMessage { rm_ID : string; rm_Folder : string; rm_Raw : string; rm_ReceivedAt : Time }.
Definition Fetcher : Type := string → string → error + list RawMessage.
(** An error of [Open]: the stage it names, empty when it names none, and its text *)
Record openError := mkOpenError { oe_Stage : string; oe_Text : string }.
(** [MailboxOpener.Open]: an error, or the connection, whose answers depend on
    the messages that were deleted over it *)
Definition Opener : Type := ProbeMailbox → openError + (list string → Fetcher).

(** [mailboxStage] *)
Definition mailboxStage (e : openError) : string := if strEq (oe_Stage e) "" then MailboxStageDial else oe_Stage e.

Definition ProbeHeader : string := "X-Sendplane-Probe".
Definition EventSenderHealthChanged : string := "sender.health_changed".
Definition ProbeTemplateID : string := "_sendplane_probe".
Definition probeChecksum : string := "sendplane-probe-v1".
Definition maxRawHeaders : Z := 16384.
Definition ErrNoMailbox : error := errNamed "probe: no enabled probe mailbox".

Definition Subject (runID : string) : string := "[sendplane probe " +:+ runID +:+ "]".

Section runner.
Context (A : probeArgs).
Abbreviation L := (pg_lib A).
Abbreviation opts := (pg_opts A).

(** ** Tokens *)

(** [Runner.Token] *)
Definition Token (tenantID runID : string) : string :=
  let body := tenantID +:+ "/" +:+ runID in
  if strEq (po_HMACKey opts) "" then body
  else body +:+ "/" +:+ strTake 16 (pg_hmac A (po_HMACKey opts) (tenantID +:+ String (toByte 0) runID)).

(** [ParseToken] *)
Definition ParseToken (token : string) : option (string * string) :=
  let slash := toByte 47 in
  let parts := splitByte slash token in
  if len parts <? 2 then None
  else
    let parts := if 2 <? len parts then removelast parts else parts in
    let runID := default "" (last parts) in
    let tenantID := Join "/" (removelast parts) in
    if strEq tenantID "" || strEq runID "" then None else Some (tenantID, runID).

Definition VerifyToken (tenantID runID token : string) : bool := strEq token (Token tenantID runID).

(** ** Reading the store

    [listAll] and its kin drain a paginated listing; the source's [for] has no
    bound, [fuel] bounds the pages. *)

Fixpoint drain {T} (fetch : Page → prog (Result T)) (fuel : nat) (page : Page) (out : list T) : prog (list T) :=
  match fuel with
  | O => fail errFuel
  | S fuel =>
      let? res := fetch page in
      let out := out ++ res_Items res in
      if strEq (res_NextCursor res) "" then pret out
      else drain fetch fuel (page <| p_Cursor := res_NextCursor res |>) out
  end.
Definition firstPage : Page := mkPage MaxPageLimit "".

Definition listAll {T} (tab : lens tenantData (gmap string T)) (fuel : nat) : prog (list T) :=
  drain (λ p, call (λ env, zoom tab (List env p))) fuel firstPage [].
Definition pendingRuns (fuel : nat) : prog (list ProbeRun) :=
  drain (λ p, call (λ env, ListPending env p)) fuel firstPage [].
Definition runsOf (fuel : nat) (senderID : string) : prog (list ProbeRun) :=
  drain (λ p, call (λ env, ListBySender env senderID p)) fuel firstPage [].
Definition enabledMailboxes (fuel : nat) : prog (list ProbeMailbox) :=
  let? all := listAll (field probeMailboxes) fuel in pret (filter (λ m, pm_Enabled m = true) all).

(** ** The DNS layer *)

Definition probeDomainOf (email : string) : string := match cutLast (toByte 64) email with Some (_, d) => d | None => "" end.

Definition firstRedSummary (rep : DNSReport) : string :=
  match list_find (λ r, match r with Some x => dn_Status x | None => HealthUnknown end = HealthRed) (rp_Checks rep) with
  | Some (_, Some x) => dn_Summary x
  | _ => ""
  end.

(** [runDNS] *)
Definition runDNS (senderID : string) (observedIP : option string) : prog (option DNSReport) :=
  match po_DNS opts with
  | None => pret None
  | Some runAll =>
      let? snd := call (λ env, GetSender env senderID) in
      let inputs := mkDNSInputs (probeDomainOf (s_FromEmail snd)) observedIP "" "" "" in
      let? inputs :=
        if strEq (s_DomainID snd) "" then pret inputs
        else
          handle (call (λ env, zoom (field domains) (Get env (s_DomainID snd)))) (λ r,
            match r with
            | inl e => if bool_decide (e = ErrNotFound) then pret inputs else fail e
            | inr dom =>
                pret (mkDNSInputs (if strEq (sd_Domain dom) "" then di_Domain inputs else sd_Domain dom) observedIP
                        (sd_DKIMSelector dom) (sd_ReturnPathDomain dom)
                        (if strEq (sd_DKIMPrivateKey dom) "" then ""
                         else match po_Decrypt opts with Some d => default "" (d (sd_DKIMPrivateKey dom)) | None => "" end))
            end) in
      if strEq (di_Domain inputs) "" then pret None else pret (Some (runAll inputs))
  end.

(** A failure of the DNS layer is logged. *)
Definition tryDNS (senderID : string) (observedIP : option string) : prog (option DNSReport) :=
  handle (runDNS senderID observedIP) (λ r, match r with inl _ => pret None | inr rep => pret rep end).

(** ** Evidence *)

(** [Evidence]: one probe mail as its channel saw it. *)
Record Evidence := mkEvidence {
  ev_Mailbox : option ProbeMailbox;
  ev_Headers : list Field;
  ev_Folder : string;
  ev_ReceivedAt : Time;
  ev_RawHeaders : string;
}.

Definition capRawHeaders (s : string) : string := if maxRawHeaders <? strLen s then strTake (Z.to_nat maxRawHeaders) s else s.

(** The text before the first occurrence of [sep]. *)
Fixpoint beforeText (sep s : string) : option string :=
  if String.prefix sep s then Some ""
  else match s with EmptyString => None | String c s' => String c <$> beforeText sep s' end.

Definition crlfcrlf : string := String (toByte 13) (String (toByte 10) (String (toByte 13) (String (toByte 10) ""))).
Definition lflf : string := String (toByte 10) (String (toByte 10) "").

Definition rawHeaders (raw : string) : string :=
  capRawHeaders (match beforeText crlfcrlf raw with
                 | Some r => r
                 | None => match beforeText lflf raw with Some r => r | None => raw end
                 end).

Definition evidenceOf (box : ProbeMailbox) (msg : RawMessage) : Evidence :=
  mkEvidence (Some box) (ParseHeaders (rm_Raw msg)) (rm_Folder msg) (rm_ReceivedAt msg) (rawHeaders (rm_Raw msg)).

(** What one trusted header adds; the first to name a method decides it. *)
Definition observeAR (obs : Observation) (ar : AuthResults) : Observation :=
  let obs := obs <| ob_TrustedAR := true |> in
  let obs := match Method L ar "spf" with
             | Some m => if strEq (ob_SPF obs) ""
                         then obs <| ob_SPF := am_Result m |> <| ob_MailFrom := Prop_ L m "smtp.mailfrom" |> else obs
             | None => obs end in
  let obs := match Method L ar "dkim" with
             | Some m =>
                 if strEq (ob_DKIM obs) "" then
                   let d := TrimPrefix (Prop_ L m "header.d") "@" in
                   obs <| ob_DKIM := am_Result m |>
                       <| ob_DKIMDomain := if strEq d "" then TrimPrefix (Prop_ L m "header.i") "@" else d |>
                       <| ob_DKIMSelector := Prop_ L m "header.s" |>
                 else obs
             | None => obs end in
  match Method L ar "dmarc" with
  | Some m => if strEq (ob_DMARC obs) ""
              then obs <| ob_DMARC := am_Result m |> <| ob_DMARCPolicy := DMARCPolicy L m |> else obs
  | None => obs
  end.

(** [Observe] *)
Definition Observe (ev : Evidence) : Observation :=
  let h := ev_Headers ev in
  let obs := zero <| ob_Delivered := true |> <| ob_Folder := folderKind L (ev_Mailbox ev) (ev_Folder ev) |> in
  let authServID := match ev_Mailbox ev with Some m => pm_AuthServID m | None => "" end in
  let obs := foldl observeAR obs (TrustedAuthResults L h authServID) in
  let obs := match FirstExternalHop L h with
             | Some hop => obs <| ob_ObservedIP := hp_IP hop |> <| ob_TLS := hp_TLS hop |> <| ob_PTR := hp_RDNS hop |>
             | None => obs end in
  obs <| ob_Latency := Latency L h (ev_ReceivedAt ev) |>.

(** [probeReceivedAt] *)
Definition probeReceivedAt (channelAt : Time) (h : list Field) (now : Time) : Time :=
  if negb (IsZero channelAt) then channelAt
  else let t := newestAt (ReceivedChain L h) in if IsZero t then now else t.

(** ** Closing a run *)

Definition UpdateRun (env : Env) (r : ProbeRun) : M tenantData ProbeRun :=
  zoomWith (field probeRuns) (Update probeRunMeta env) r.
Definition CreateRun (env : Env) (r : ProbeRun) : M tenantData ProbeRun :=
  zoomWith (field probeRuns) (Create probeRunMeta env) r.
Definition updateRun (run : ProbeRun) : prog unit := let? _ := call (λ env, UpdateRun env run) in pret tt.

Definition withDNS (report : option DNSReport) (run : ProbeRun) : ProbeRun :=
  match report with
  | Some rep => match pg_marshalReport A rep with Some b => run <| pr_DNS := b |> | None => run end
  | None => run
  end.

(** The run [CompleteRun] saves, given what the DNS layer said. *)
Definition completedRun (run : ProbeRun) (ev : Evidence) (now : Time) (report : option DNSReport) : ProbeRun :=
  let obs := Observe ev in
  let obs := match report with
             | Some rep =>
                 match rp_PTR rep with
                 | Some p => obs <| ob_PTRChecked := true |>
                                 <| ob_PTRMatch := strEq (default "" (dn_Details p !! "fcrdns")) "true" |>
                                 <| ob_PTR := default "" (dn_Details p !! "ptr") |>
                 | None => obs end
             | None => obs end in
  let '(status, reason) := Verdict L obs in
  let red := match report with Some rep => bool_decide (rp_Status rep = HealthRed) | None => false end in
  let '(status, reason) :=
    if red && bool_decide (status = HealthGreen)
    then (HealthYellow, "루프백은 통과했지만 DNS 정적 검사가 실패했습니다") else (status, reason) in
  let run := run <| pr_Status := status |> <| pr_Reason := reason |> <| pr_Delivered := true |>
                 <| pr_Folder := ob_Folder obs |> <| pr_Latency := ob_Latency obs |>
                 <| pr_SPF := ob_SPF obs |> <| pr_DKIM := ob_DKIM obs |> <| pr_DMARC := ob_DMARC obs |>
                 <| pr_DKIMDomain := ob_DKIMDomain obs |> <| pr_DKIMSelector := ob_DKIMSelector obs |>
                 <| pr_DMARCPolicy := ob_DMARCPolicy obs |> <| pr_TLS := ob_TLS obs |> in
  let run := match ob_ObservedIP obs with Some ip => run <| pr_ObservedIP := ip |> | None => run end in
  withDNS report
    (run <| pr_PTR := ob_PTR obs |> <| pr_PTRMatch := ob_PTRMatch obs |>
         <| pr_RawHeaders := capRawHeaders (ev_RawHeaders ev) |>
         <| pr_ReceivedAt := TruncateTime (probeReceivedAt (ev_ReceivedAt ev) (ev_Headers ev) now) |>
         <| pr_Pending := false |>).

(** [CompleteRun] *)
Definition CompleteRun (run : ProbeRun) (ev : Evidence) (now : Time) : prog unit :=
  let? report := tryDNS (pr_SenderID run) (ob_ObservedIP (Observe ev)) in
  updateRun (completedRun run ev now report).

(** [finishUnreachable] *)
Definition finishUnreachable (run : ProbeRun) (stage : string) : prog unit :=
  updateRun (run <| pr_Status := HealthUnknown |> <| pr_Reason := "probe mailbox unreachable: " +:+ stage |>
                 <| pr_Delivered := false |> <| pr_ReceivedAt := zeroTime |> <| pr_Pending := false |>).

(** The walk of [undeliveredStreak] over the runs, newest first. *)
Fixpoint streakFrom (run : ProbeRun) (runs : list ProbeRun) (streak : Z) : Z :=
  match runs with
  | [] => streak
  | prev :: runs' =>
      if strEq (pr_ID prev) (pr_ID run) || negb (strEq (pr_MailboxID prev) (pr_MailboxID run)) || pr_Pending prev
      then streakFrom run runs' streak
      else if bool_decide (pr_Status prev = HealthUnknown) && negb (pr_Delivered prev) then streakFrom run runs' streak
      else if pr_Delivered prev then streak
      else streakFrom run runs' (streak + 1)
  end.

(** [undeliveredStreak] *)
Definition undeliveredStreak (fuel : nat) (run : ProbeRun) : prog Z :=
  let? runs := runsOf fuel (pr_SenderID run) in pret (streakFrom run (reverse runs) 1).

(** The run [finishUndelivered] saves. *)
Definition undeliveredRun (run : ProbeRun) (subject : string) (streak : Z) (report : option DNSReport) : ProbeRun :=
  let '(status, reason) :=
    if po_ConsecutiveFailuresForRed opts <=? streak
    then (HealthRed, subject +:+ " 도착하지 않았습니다 (연속 " +:+ pretty streak +:+ "회)")
    else (HealthYellow, subject +:+ " " +:+ po_TimeoutText opts +:+ " 안에 도착하지 않았습니다 (" +:+ pretty streak +:+
                          "/" +:+ pretty (po_ConsecutiveFailuresForRed opts) +:+ ")") in
  let reason := match report with
                | Some rep => if bool_decide (rp_Status rep = HealthRed) then reason +:+ " · " +:+ firstRedSummary rep else reason
                | None => reason end in
  (withDNS report run) <| pr_Status := status |> <| pr_Reason := reason |> <| pr_Delivered := false |>
    <| pr_ReceivedAt := zeroTime |> <| pr_Pending := false |>.

(** [finishUndelivered] *)
Definition finishUndelivered (fuel : nat) (run : ProbeRun) (subject : string) : prog unit :=
  let? streak := undeliveredStreak fuel run in
  let? report := tryDNS (pr_SenderID run) None in
  updateRun (undeliveredRun run subject streak report).
End runner.
