(* ===== verification/ProbeCollect.v ===== *)
(** * Triggering and collecting probes ([internal/probe/run.go])

    [Trigger] queues the probe mails of a sender with their runs, [Tick] does so
    for every sender that is due, [CollectWith] reads the mailboxes, closes the
    runs and refreshes the health of the senders they belong to.  All are
    programs over the tenant's store, so that every store call may interleave
    with the API, the senders and the webhook. *)

From S2P Require Import Prelude Enums Model MemTable MemData DeliveryRepo Repos Provider Prog Classify Codec Tokens Email Platform BounceReport NetIP Spf DnsCheck ProbeHeaders MailboxHealth Probe.

Definition cmpErr (first : option error) (err : error) : option error :=
  match first with Some _ => first | None => Some err end.
Definition errOf (first : option error) : prog unit := match first with Some e => fail e | None => pret tt end.

Definition probeSubjectTpl : string := "[sendplane probe {{ vars.run_id }}]".
Definition probeHTMLTpl : string :=
  "<!doctype html><html><body>" +:+
  "<p>sendplane loopback health probe.</p>" +:+
  "<p>run: {{ vars.run_id }}</p>" +:+
  "<p>This message is generated automatically and can be deleted.</p>" +:+
  "</body></html>".
Definition crlf : string := String (toByte 13) (String (toByte 10) "").
Definition probeTextTpl : string :=
  "sendplane loopback health probe." +:+ crlf +:+
  "run: {{ vars.run_id }}" +:+ crlf +:+
  "This message is generated automatically and can be deleted." +:+ crlf.

Section collect.
(** [shuffle] is the iteration order of a map, given its keys. *)
Context (A : probeArgs) (shuffle : list string → list string).
Abbreviation opts := (pg_opts A).

(** ** The summary of a sender *)

Definition UpdateSender (env : Env) (s : Sender) : M tenantData Sender :=
  zoomWith (field senders) (Update senderMeta env) s.

(** [enqueueHealthChanged] *)
Definition enqueueHealthChanged (snd : Sender) (before : HealthStatus) (now : Time) : prog unit :=
  match pg_marshalHealth A (mkHealthChangedPayload (s_ID snd) (s_Name snd) before (s_Health snd) (s_HealthReason snd)
                              (s_HealthCheckedAt snd) now) with
  | inl e => fail e
  | inr payload =>
      call (λ env, Enqueue env
        [zero <| o_Type := EventSenderHealthChanged |> <| o_Payload := payload |> <| o_Status := OutboxPending |>
              <| o_CreatedAt := now |> <| o_NextAttemptAt := now |>])
  end.

(** [setSenderHealth], with the attempts that are left. *)
Fixpoint setHealthLoop (attempts : nat) (senderID : string) (status : HealthStatus) (reason : string) (now : Time) : prog unit :=
  match attempts with
  | O => pret tt
  | S n =>
      let? snd := call (λ env, GetSender env senderID) in
      let before := s_Health snd in
      let snd := snd <| s_Health := status |> <| s_HealthReason := reason |> <| s_HealthCheckedAt := TruncateTime now |> in
      handle (call (λ env, UpdateSender env snd)) (λ r,
        match r with
        | inl e => if errIs e ErrConflict && (0 <? Z.of_nat n) then setHealthLoop n senderID status reason now else fail e
        | inr snd => if bool_decide (before = status) then pret tt else enqueueHealthChanged snd before now
        end)
  end.
Definition setSenderHealth (senderID : string) (status : HealthStatus) (reason : string) (now : Time) : prog unit :=
  setHealthLoop 3 senderID status reason now.

(** The newest finished run of every mailbox, by ID. *)
Definition latestOf (runs : list ProbeRun) : gmap string ProbeRun :=
  foldl (λ latest run,
    if pr_Pending run then latest
    else match latest !! pr_MailboxID run with
         | Some cur => if strLt (pr_ID cur) (pr_ID run) then <[pr_MailboxID run := run]> latest else latest
         | None => <[pr_MailboxID run := run]> latest
         end) ∅ runs.

(** A map's values, in the order of its iteration. *)
Definition iterate {T} (m : gmap string T) : list T := omap (λ k, m !! k) (shuffle (map_to_list m).*1).

Definition worstOf (l : list ProbeRun) : HealthStatus := foldl (λ s run, worst s (pr_Status run)) HealthUnknown l.
Definition reasonsOf (status : HealthStatus) (l : list ProbeRun) : list string :=
  pr_Reason <$> filter (λ run, pr_Status run = status ∧ pr_Reason run ≠ "") l.
Definition summaryReason (reasons : list string) : string :=
  match reasons with
  | [] => ""
  | [r] => r
  | r :: _ => r +:+ " (메일박스 " +:+ pretty (len reasons) +:+ "곳)"
  end.

(** [updateSenderHealth] *)
Definition updateSenderHealth (senderID : string) (runs : list ProbeRun) (now : Time) : prog unit :=
  let latest := latestOf runs in
  if bool_decide (latest = ∅) then pret tt
  else
    let status := worstOf (iterate latest) in
    setSenderHealth senderID status (summaryReason (reasonsOf status (iterate latest))) now.

(** [RefreshSenderHealth] *)
Definition RefreshSenderHealth (fuel : nat) (senderID : string) (now : Time) : prog unit :=
  let? runs := runsOf fuel senderID in updateSenderHealth senderID runs now.

(** ** Reading a mailbox *)

(** The first message of a search that is the probe's. *)
Fixpoint findIn (tenantID runID : string) (msgs : list RawMessage) : option RawMessage :=
  match msgs with
  | [] => None
  | msg :: msgs' =>
      let h := ParseHeaders (rm_Raw msg) in
      let tok := HGet (pg_lib A) h ProbeHeader in
      if negb (strEq tok "") && negb (VerifyToken A tenantID runID tok) then findIn tenantID runID msgs'
      else if strEq tok "" && negb (strContains (HGet (pg_lib A) h "Subject") runID) then findIn tenantID runID msgs'
      else Some msg
  end.

(** [find] *)
Definition find (f : Fetcher) (tenantID runID : string) : error + option RawMessage :=
  match f ProbeHeader (Token A tenantID runID) with
  | inl e => inl e
  | inr [] =>
      match f "Subject" (Subject runID) with inl e => inl e | inr msgs => inr (findIn tenantID runID msgs) end
  | inr msgs => inr (findIn tenantID runID msgs)
  end.

(** [recordWebhookHealth] and [recordMailboxHealth]: a failure is logged. *)
Definition recordHealthOf (box : ProbeMailbox) (o : MailboxOutcome) (now : Time) : prog unit :=
  handle (RecordHealth (pg_marshalMailbox A) KindProbe (mkMailbox (pm_ID box) (pm_Name box) (pm_Health box)) o now)
    (λ _, pret tt).
Definition recordMailboxHealth (box : ProbeMailbox) (openErr : option openError) (now : Time) : prog unit :=
  recordHealthOf box (match openErr with Some e => Fail_ (mailboxStage e) (oe_Text e) | None => OK end) now.

(** What a collect reports: its first error and the senders it touched. *)
Record collectState := mkCollected { co_err : option error; co_touched : gset string }.
#[global] Instance collectState_eta : Eta collectState := λ c, mkCollected (co_err c) (co_touched c).

Definition failed (e : error) (acc : collectState) : collectState := acc <| co_err := cmpErr (co_err acc) e |>.
Definition touch (run : ProbeRun) (acc : collectState) : collectState := acc <| co_touched := {[pr_SenderID run]} ∪ co_touched acc |>.

(** Close one run and note its sender, or the error. *)
Definition closeRun (p : prog unit) (run : ProbeRun) (acc : collectState) : prog collectState :=
  handle p (λ r, pret (match r with inl e => failed e acc | inr _ => touch run acc end)).

Definition timedOut (run : ProbeRun) (now : Time) : bool := po_Timeout opts <=? subTime now (pr_StartedAt run).

(** [collectWebhook] *)
Fixpoint webhookRuns (fuel : nat) (pending : list ProbeRun) (now : Time) (acc : collectState) (missed : bool)
    : prog (collectState * bool) :=
  match pending with
  | [] => pret (acc, missed)
  | run :: pending' =>
      if negb (timedOut run now) then webhookRuns fuel pending' now acc missed
      else
        handle (finishUndelivered A fuel run "웹훅으로 프로브가") (λ r,
          match r with
          | inl e => webhookRuns fuel pending' now (failed e acc) missed
          | inr _ => webhookRuns fuel pending' now (touch run acc) true
          end)
  end.
Definition collectWebhook (fuel : nat) (box : ProbeMailbox) (pending : list ProbeRun) (now : Time) (acc : collectState)
    : prog collectState :=
  let? r := webhookRuns fuel pending now acc false in
  let '(acc, missed) := r in
  (if missed && negb (strEq (pm_ID box) "")
   then recordHealthOf box (Fail_ MailboxStageWebhook "no probe received within timeout") now else pret tt);?
  pret acc.

(** The runs of one IMAP mailbox: [fetcher] is the connection, after the
    messages that were deleted over it. *)
Fixpoint mailboxRuns (fuel : nat) (box : ProbeMailbox) (fetcher : option (list string → Fetcher)) (openErr : option openError)
    (deleted : list string) (pending : list ProbeRun) (now : Time) (acc : collectState) : prog collectState :=
  match pending with
  | [] => pret acc
  | run :: pending' =>
      let '(acc, msg) :=
        match fetcher with
        | Some f => match find (f deleted) (pr_TenantID run) (pr_ID run) with
                    | inl e => (failed e acc, None)
                    | inr got => (acc, got) end
        | None => (acc, None)
        end in
      match msg with
      | Some m =>
          handle (CompleteRun A run (evidenceOf box m) now) (λ r,
            match r with
            | inl e => mailboxRuns fuel box fetcher openErr deleted pending' now (failed e acc)
            | inr _ => mailboxRuns fuel box fetcher openErr (deleted ++ [rm_ID m]) pending' now (touch run acc)
            end)
      | None =>
          if timedOut run now then
            let? acc := closeRun (match openErr with
                                 | Some e => finishUnreachable run (mailboxStage e)
                                 | None => finishUndelivered A fuel run "메일이" end) run acc in
            mailboxRuns fuel box fetcher openErr deleted pending' now acc
          else mailboxRuns fuel box fetcher openErr deleted pending' now acc
      end
  end.

(** [collectMailbox] *)
Definition collectMailbox (fuel : nat) (opener : Opener) (box : ProbeMailbox) (pending : list ProbeRun) (now : Time)
    (acc : collectState) : prog collectState :=
  if strEq (Kind_Normalized (pm_Kind box)) ProbeMailboxWebhook then collectWebhook fuel box pending now acc
  else
    let attempted := pm_Enabled box || negb (strEq (pm_Host box) "") || negb (strEq (pm_Address box) "") in
    if attempted then
      match opener box with
      | inl e =>
          recordMailboxHealth box (Some e) now;?
          mailboxRuns fuel box None (Some e) [] pending now (failed (errNamed (oe_Text e)) acc)
      | inr f =>
          recordMailboxHealth box None now;?
          mailboxRuns fuel box (Some f) None [] pending now acc
      end
    else mailboxRuns fuel box None None [] pending now acc.

(** The mailboxes of a collect, in the order of the map. *)
Fixpoint collectBoxes (fuel : nat) (opener : Opener) (byID : gmap string ProbeMailbox) (waiting : list ProbeRun)
    (ids : list string) (now : Time) (acc : collectState) : prog collectState :=
  match ids with
  | [] => pret acc
  | id :: ids' =>
      let box := match byID !! id with Some b => b | None => zero <| pm_ID := id |> end in
      let? acc := collectMailbox fuel opener box (filter (λ run, pr_MailboxID run = id) waiting) now acc in
      collectBoxes fuel opener byID waiting ids' now acc
  end.

(** The touched senders of a collect. *)
Fixpoint refreshAll (fuel : nat) (ids : list string) (now : Time) (err : option error) : prog unit :=
  match ids with
  | [] => errOf err
  | id :: ids' =>
      handle (RefreshSenderHealth fuel id now) (λ r,
        refreshAll fuel ids' now (match r with inl e => cmpErr err e | inr _ => err end))
  end.

(** [CollectWith] *)
Definition CollectWith (fuel : nat) (opener : Opener) (now : Time) : prog unit :=
  let? waiting := pendingRuns fuel in
  if len waiting =? 0 then pret tt
  else
    let? boxes := listAll (field probeMailboxes) fuel in
    let byID := list_to_map (reverse ((λ b, (pm_ID b, b)) <$> boxes)) in
    let ids := remove_dups (filter (λ id, id ≠ "") (pr_MailboxID <$> waiting)) in
    if len ids =? 0 then pret tt
    else
      let? acc := collectBoxes fuel opener byID waiting (shuffle ids) now (mkCollected None ∅) in
      refreshAll fuel (shuffle (elements (co_touched acc))) now (co_err acc).

(** [Collect]: one fetcher for every mailbox *)
Definition Collect (fuel : nat) (fetcher : list string → Fetcher) (now : Time) : prog unit :=
  CollectWith fuel (λ _, inr fetcher) now.

(** ** Starting probes *)

(** [probeVersion] *)
Fixpoint findVersion (fuel : nat) (page : Page) : prog (option string) :=
  match fuel with
  | O => fail errFuel
  | S fuel =>
      let? res := call (λ env, ListByTemplate env ProbeTemplateID page) in
      match list_find (λ v, mv_Checksum v = probeChecksum) (res_Items res) with
      | Some (_, v) => pret (Some (mv_ID v))
      | None =>
          if strEq (res_NextCursor res) "" then pret None
          else findVersion fuel (page <| p_Cursor := res_NextCursor res |>)
      end
  end.
Definition CreateVersion (env : Env) (v : MessageVersion) : M tenantData MessageVersion :=
  zoomWith (field versions) (Create versionMeta env) v.
Definition probeVersion (fuel : nat) (newID : string) (clock : Time) : prog string :=
  let? found := findVersion fuel firstPage in
  match found with
  | Some id => pret id
  | None =>
      let? v := call (λ env, CreateVersion env
        (zero <| mv_ID := newID |> <| mv_TemplateID := ProbeTemplateID |> <| mv_SubjectTpl := probeSubjectTpl |>
              <| mv_HTMLTpl := probeHTMLTpl |> <| mv_TextTpl := probeTextTpl |> <| mv_Checksum := probeChecksum |>
              <| mv_CreatedAt := TruncateTime clock |>)) in
      pret (mv_ID v)
  end.

(** [dnsOnlyRun]; [ids] are the IDs [NewID] returns. *)
Definition dnsOnlyRun (ids : nat → string) (snd : Sender) (now : Time) : prog string :=
  let? report := runDNS A (s_ID snd) None in
  let '(status, reason) :=
    match report with
    | Some rep => if bool_decide (rp_Status rep = HealthRed)
                  then (HealthRed, "loopback 미구성 · " +:+ firstRedSummary rep)
                  else (HealthYellow, "loopback 미구성: 프로브 메일박스가 없어 DNS 정적 검사만 수행했습니다")
    | None => (HealthYellow, "loopback 미구성: 프로브 메일박스가 없어 DNS 정적 검사만 수행했습니다")
    end in
  let run := zero <| pr_ID := ids 0%nat |> <| pr_SenderID := s_ID snd |> <| pr_GroupID := ids 1%nat |>
                  <| pr_Status := status |> <| pr_Reason := reason |> <| pr_StartedAt := now |> <| pr_CreatedAt := now |> in
  let? run := call (λ env, CreateRun env (withDNS A report run)) in
  setSenderHealth (s_ID snd) status reason now;?
  pret (pr_ID run).

(** The mailboxes of one [Trigger], from the [i]-th pair of IDs. *)
Fixpoint triggerBoxes (ids : nat → string) (i : nat) (senderID : string) (snd : Sender) (versionID groupID : string) (boxes : list ProbeMailbox)
    (now : Time) (first : string) : prog string :=
  match boxes with
  | [] => if strEq first "" then fail ErrNoMailbox else pret first
  | box :: boxes' =>
      let runID := ids i in
      let deliveryID := ids (S i) in
      match pg_NormalizeEmail A (pm_Address box) with
      | None => triggerBoxes ids (S (S i)) senderID snd versionID groupID boxes' now first
      | Some emailNorm =>
          let d := zero <| d_ID := deliveryID |> <| d_VersionID := versionID |> <| d_SenderID := senderID |>
                        <| d_Lane := LaneProbe |> <| d_Status := DeliveryQueued |> <| d_Email := pm_Address box |>
                        <| d_EmailNorm := emailNorm |>
                        <| d_Vars := {["run_id" := AnyString runID;
                                       "probe_token" := AnyString (Token A (s_TenantID snd) runID);
                                       "mailbox" := AnyString (pm_Name box)]} |>
                        <| d_NextAttemptAt := now |> <| d_CreatedAt := now |> <| d_UpdatedAt := now |> in
          let? _ := call (λ env, InsertBatch env [d]) in
          let? run := call (λ env, CreateRun env
            (zero <| pr_ID := runID |> <| pr_SenderID := senderID |> <| pr_MailboxID := pm_ID box |>
                  <| pr_DeliveryID := deliveryID |> <| pr_GroupID := groupID |> <| pr_Pending := true |>
                  <| pr_Status := HealthUnknown |> <| pr_StartedAt := now |> <| pr_CreatedAt := now |>)) in
          triggerBoxes ids (S (S i)) senderID snd versionID groupID boxes' now (if strEq first "" then runID else first)
      end
  end.

(** [Trigger]; [clock] and [clock'] are its readings of the clock. *)
Definition Trigger (fuel : nat) (ids : nat → string) (clock clock' : Time) (senderID : string) : prog string :=
  let now := TruncateTime clock in
  let? snd := call (λ env, GetSender env senderID) in
  let? boxes := enabledMailboxes fuel in
  if len boxes =? 0 then
    match po_DNS opts with
    | None => fail ErrNoMailbox
    | Some _ => dnsOnlyRun ids snd now
    end
  else
    let? versionID := probeVersion fuel (ids 0%nat) clock' in
    triggerBoxes ids 2 senderID snd versionID (ids 1%nat) boxes now "".

(** [changedAfter] *)
Definition changedAfter (fuel : nat) : prog (gmap string Time) :=
  let? ts := listAll (field transports) fuel in
  let? ds := listAll (field domains) fuel in
  pret (foldl (λ m d, <[sd_ID d := sd_UpdatedAt d]> m) (foldl (λ m t, <[tr_ID t := tr_UpdatedAt t]> m) ∅ ts) ds).

(** [due] *)
Definition senderDue (s : Sender) (changed : gmap string Time) (now : Time) : bool :=
  let changedSince id := match changed !! id with Some at_ => After at_ (s_HealthCheckedAt s) | None => false end in
  IsZero (s_HealthCheckedAt s) || changedSince (s_TransportID s) || changedSince (s_DomainID s) ||
  (po_Interval opts <=? subTime now (s_HealthCheckedAt s)).

(** The senders of one [Tick]; the [i]-th has its own IDs and clock. *)
Fixpoint tickSenders (fuel : nat) (ids : nat → nat → string) (clock : nat → Time * Time) (i : nat) (senders : list Sender)
    (changed : gmap string Time) (inFlight : gset string) (now : Time) (err : option error) : prog unit :=
  match senders with
  | [] => errOf err
  | s :: senders' =>
      if s_Shared s && negb (strEq (s_TenantID s) SystemTenantID)
      then tickSenders fuel ids clock (S i) senders' changed inFlight now err
      else if negb (senderDue s changed now) then tickSenders fuel ids clock (S i) senders' changed inFlight now err
      else if bool_decide (s_ID s ∈ inFlight) then tickSenders fuel ids clock (S i) senders' changed inFlight now err
      else
        handle (Trigger fuel (ids i) (clock i).1 (clock i).2 (s_ID s)) (λ r,
          tickSenders fuel ids clock (S i) senders' changed inFlight now
            (match r with inl e => if errIs e ErrNoMailbox then err else cmpErr err e | inr _ => err end))
  end.

(** [Tick] *)
Definition Tick (fuel : nat) (ids : nat → nat → string) (clock : nat → Time * Time) (now : Time) : prog unit :=
  let? senders := listAll (field senders) fuel in
  if len senders =? 0 then pret tt
  else
    let? changed := changedAfter fuel in
    let? waiting := pendingRuns fuel in
    let inFlight := list_to_set (pr_SenderID <$> filter (λ run, subTime now (pr_StartedAt run) < po_Timeout opts) waiting) in
    tickSenders fuel ids clock 0 senders changed inFlight now None.
End collect.
