(* ===== verification/ProbeProps.v ===== *)
(** * What a probe proves

    The theorems on the loopback probe: the verdict a run is closed with has
    its evidence on the run, in every interleaving; a header the mailbox's own
    server did not write has no influence; silence turns a sender red only as a
    streak; the summary of a sender is the worst of its mailboxes' newest runs;
    a run that waits has a mail that was queued. *)

From S2P Require Import Prelude Enums Model MemTable MemData DeliveryRepo Repos Provider Prog Classify Codec Tokens Email Platform BounceReport NetIP Spf DnsCheck ProbeHeaders MailboxHealth Probe ProbeCollect.

Section probe.
Context (A : probeArgs) (shuffle : list string → list string).
Abbreviation L := (pg_lib A).
Abbreviation opts := (pg_opts A).

(** ** Evidence on the run *)

(** The receiving server refused one of the methods. *)
Definition authFailed (r : ProbeRun) : Prop :=
  ∃ result, result ∈ [pr_DMARC r; pr_DKIM r; pr_SPF r] ∧ normalizeAuthResult L result ∈ ["fail"; "policy"].

(** It accepted the mail into a folder that is not spam, over TLS, with an
    explicit verdict on every method. *)
Definition authPassed (r : ProbeRun) : Prop :=
  pr_TLS r = true ∧ pr_Folder r ≠ FolderSpam ∧ pr_Folder r ≠ FolderOther ∧
  ∀ result, result ∈ [pr_DMARC r; pr_DKIM r; pr_SPF r] →
    normalizeAuthResult L result ∉ ["fail"; "policy"; "softfail"; "none"; ""; "neutral"; "permerror"; "temperror"].

(** No mail by the deadline. *)
Definition overdue (now : Time) (r : ProbeRun) : Prop := po_Timeout opts ≤ subTime now (pr_StartedAt r).

(** The mailbox [box], as it was listed, could not be opened. *)
Definition unreachable (opener : Opener) (box : ProbeMailbox) : Prop :=
  Kind_Normalized (pm_Kind box) ≠ ProbeMailboxWebhook ∧
  (pm_Enabled box || negb (strEq (pm_Host box) "") || negb (strEq (pm_Address box) "")) = true ∧
  ∃ e, opener box = inl e.

(** What the collect took mailbox [id] for: a row the store held at one of the
    states it has [seen], or, if there was none at one of them, the bare ID. *)
Definition takenFor (seen : list tenantData) (id : string) (box : ProbeMailbox) : Prop :=
  pm_ID box = id ∧
  ∃ td, td ∈ seen ∧
    ((∃ key, probeMailboxes td !! key = Some box) ∨
     (box = zero <| pm_ID := id |> ∧ ∀ b, probeMailboxes td !! id = Some b → pm_ID b ≠ id)).

(** What a collect at [now], having [seen] these states of the store, may write
    on a run. *)
Definition closedRight (opener : Opener) (now : Time) (seen : list tenantData) (r : ProbeRun) : Prop :=
  pr_Pending r = false ∧
  match pr_Status r with
  | HealthGreen => pr_Delivered r = true ∧ authPassed r
  | HealthRed =>
      (pr_Delivered r = true ∧ authFailed r) ∨
      (pr_Delivered r = false ∧ overdue now r ∧
       ∃ box, takenFor seen (pr_MailboxID r) box ∧ ¬ unreachable opener box)
  | HealthYellow =>
      pr_Delivered r = true ∨
      (overdue now r ∧ ∃ box, takenFor seen (pr_MailboxID r) box ∧ ¬ unreachable opener box)
  | HealthUnknown =>
      pr_Delivered r = false ∧ overdue now r ∧
      ∃ box, takenFor seen (pr_MailboxID r) box ∧ unreachable opener box
  end.

(** A step leaves the runs alone, except for closing some rightly. *)
Definition closesRight (opener : Opener) (now : Time) (seen : list tenantData) (a b : tenantData) : Prop :=
  ∀ id r, probeRuns b !! id = Some r → probeRuns a !! id ≠ Some r → closedRight opener now seen r.

(** *** The verdict *)

Lemma redOf_Some l reason :
  redOf L l = Some reason → ∃ x, x ∈ l ∧ normalizeAuthResult L x.2 ∈ ["fail"; "policy"].
Proof.
  induction l as [|[name result] l IH]; [done|]. cbn [redOf].
  destruct (strEq _ "fail") eqn:E1; [|destruct (strEq _ "policy") eqn:E2].
  - apply bool_decide_eq_true_1 in E1. exists (name, result). cbn. set_solver.
  - apply bool_decide_eq_true_1 in E2. exists (name, result). cbn. set_solver.
  - intros (x&?&?)%IH. exists x. set_solver.
Qed.

Lemma redOf_None l :
  redOf L l = None → ∀ x, x ∈ l → normalizeAuthResult L x.2 ∉ ["fail"; "policy"].
Proof.
  induction l as [|[name result] l IH]; [set_solver|]. cbn [redOf].
  destruct (strEq _ "fail") eqn:E1; [done|]. destruct (strEq _ "policy") eqn:E2; [done|].
  apply bool_decide_eq_false_1 in E1, E2. intros Hn x [->|Hx]%elem_of_cons; [cbn; set_solver|by apply IH].
Qed.

Lemma yellowOf_None l :
  yellowOf L l = None → ∀ x, x ∈ l →
  normalizeAuthResult L x.2 ∉ ["softfail"; "none"; ""; "neutral"; "permerror"; "temperror"].
Proof.
  induction l as [|[name result] l IH]; [set_solver|]. cbn [yellowOf].
  destruct (strEq _ "softfail") eqn:E1; [done|]. destruct (strEq _ "none" || strEq _ "") eqn:E2; [done|].
  destruct (contains _ _) eqn:E3; [done|]. apply orb_false_iff in E2 as [E2 E2'].
  unfold contains in E3. apply bool_decide_eq_false_1 in E1, E2, E2'. intros Hn x [->|Hx]%elem_of_cons; [|by apply IH].
  cbn. to_prop. set_solver.
Qed.

(** What a verdict says of the observation. *)
Lemma Verdict_evidence o :
  ob_Delivered o = true →
  let l := [ob_DMARC o; ob_DKIM o; ob_SPF o] in
  match (Verdict L o).1 with
  | HealthRed => ∃ result, result ∈ l ∧ normalizeAuthResult L result ∈ ["fail"; "policy"]
  | HealthGreen =>
      ob_TLS o = true ∧ ob_Folder o ≠ FolderSpam ∧ ob_Folder o ≠ FolderOther ∧
      ∀ result, result ∈ l →
        normalizeAuthResult L result ∉ ["fail"; "policy"; "softfail"; "none"; ""; "neutral"; "permerror"; "temperror"]
  | HealthYellow => True
  | HealthUnknown => False
  end.
Proof.
  intros Hd. unfold Verdict. rewrite Hd. cbv zeta. change (negb true) with false. cbv iota.
  destruct (redOf _ _) as [reason|] eqn:Er.
  { apply redOf_Some in Er as ((n&res)&Hx&Hn). exists res. split; [|done]. set_solver. }
  destruct (negb (ob_TrustedAR o)); [done|]. destruct (strEq _ FolderSpam) eqn:Es; [done|].
  destruct (yellowOf _ _) eqn:Ey; [done|]. destruct (strEq (ob_DMARCPolicy o) _); [done|].
  destruct (ob_TLS o) eqn:Et; [|done]. destruct (ob_PTRChecked o && _); [done|].
  destruct (strEq _ FolderOther) eqn:Eo; [done|]. apply bool_decide_eq_false_1 in Es, Eo.
  pose proof (redOf_None _ Er) as Hr. pose proof (yellowOf_None _ Ey) as Hy.
  assert (Hg : true = true ∧ ob_Folder o ≠ FolderSpam ∧ ob_Folder o ≠ FolderOther ∧
            ∀ result, result ∈ [ob_DMARC o; ob_DKIM o; ob_SPF o] →
              normalizeAuthResult L result ∉ ["fail"; "policy"; "softfail"; "none"; ""; "neutral"; "permerror"; "temperror"]).
  { split_and!; [done..|]. intros res Hres.
    assert (∃ n, (n, res) ∈ [("dmarc", ob_DMARC o); ("dkim", ob_DKIM o); ("spf", ob_SPF o)]) as [n Hn] by set_solver.
    specialize (Hr _ Hn). specialize (Hy (n, res) ltac:(set_solver)). cbn in *. set_solver. }
  by destruct (strEq _ FolderInbox).
Qed.

Lemma withDNS_fields report run :
  ∃ b, withDNS A report run = run <| pr_DNS := b |>.
Proof.
  unfold withDNS. destruct report as [rep|]; [destruct (pg_marshalReport A rep); [by eexists|]|]; exists (pr_DNS run); by destruct run.
Qed.

Lemma Observe_delivered ev : ob_Delivered (Observe A ev) = true.
Proof.
  assert (Hf : ∀ l o, ob_Delivered o = true → ob_Delivered (foldl (observeAR A) o l) = true).
  { induction l as [|ar l IH]; intros o Ho; [done|]. cbn [foldl]. apply IH.
    unfold observeAR. by repeat (case_match; try done). }
  unfold Observe. destruct (FirstExternalHop _ _); by apply Hf.
Qed.

(** The run a mail completes: delivered, with what was observed, and with the
    verdict on it, or yellow where the DNS layer found the records broken. *)
Lemma completedRun_fields run ev now report :
  let r := completedRun A run ev now report in
  ∃ o, ob_Delivered o = true ∧ pr_Pending r = false ∧ pr_Delivered r = true ∧
    pr_DMARC r = ob_DMARC o ∧ pr_DKIM r = ob_DKIM o ∧ pr_SPF r = ob_SPF o ∧ pr_TLS r = ob_TLS o ∧ pr_Folder r = ob_Folder o ∧
    (pr_Status r = (Verdict L o).1 ∨ pr_Status r = HealthYellow).
Proof.
  unfold completedRun. set (o := match report with Some _ => _ | None => Observe A ev end).
  assert (Hd : ob_Delivered o = true).
  { unfold o. destruct report as [rep|]; [destruct (rp_PTR rep)|]; apply Observe_delivered. }
  clearbody o. destruct (Verdict L o) as [status reason] eqn:Hv. cbv zeta.
  set (sr := if _ && bool_decide (status = HealthGreen) then _ else _).
  assert (Hs : sr.1 = status ∨ sr.1 = HealthYellow) by (unfold sr; destruct (_ && _); [by right|by left]).
  clearbody sr. destruct sr as [st rs]. cbn [fst] in Hs.
  match goal with |- context [withDNS A report ?r] => destruct (withDNS_fields report r) as [b ->] end.
  exists o. rewrite Hv. by destruct (ob_ObservedIP o).
Qed.

Section seen.
Context (opener : Opener) (now : Time) (seen : list tenantData).
Abbreviation right := (closedRight opener now seen).

Lemma completedRun_right run ev now' report : right (completedRun A run ev now' report).
Proof.
  destruct (completedRun_fields run ev now' report) as (o&Hd&Hp&Hde&H1&H2&H3&H4&H5&Hs).
  pose proof (Verdict_evidence o Hd) as Hv. split; [done|].
  unfold authPassed, authFailed. rewrite H1, H2, H3, H4, H5, Hde.
  destruct Hs as [->| ->]; [|by left]. destruct (Verdict L o).1; [done|by split|by left|by left; split].
Qed.

Lemma undeliveredRun_right run subject streak report box :
  overdue now run → takenFor seen (pr_MailboxID run) box → ¬ unreachable opener box →
  right (undeliveredRun A run subject streak report).
Proof.
  intros Ho Hb Hu. unfold undeliveredRun. destruct (withDNS_fields report run) as [b ->].
  destruct (_ <=? streak); (split; [done|]); right; eauto.
Qed.

(** *** Storing a run *)

Lemma closedRight_stored env cur r :
  right r → right (scrubbed probeRunMeta (truncateRow probeRunMeta (updateRow probeRunMeta env cur r))).
Proof.
  unfold closedRight, authPassed, authFailed, overdue. cbn -[takenFor]. intros [Hp Hs]. split; [done|].
  assert (Ht : po_Timeout opts ≤ subTime now (pr_StartedAt r) → po_Timeout opts ≤ subTime now (TruncateTime (pr_StartedAt r))).
  { unfold subTime. pose proof (TruncateTime_le (pr_StartedAt r)). lia. }
  destruct (pr_Status r); naive_solver.
Qed.

Lemma closes_UpdateRun env r td : right r → closesRight opener now seen td (UpdateRun env r td).2.
Proof.
  intros Hr id x. unfold UpdateRun, zoomWith. destruct (Update probeRunMeta env (r, lget (field probeRuns) td)) as [[e|[]] [v rows]] eqn:E.
  - assert (Hrows : rows = probeRuns td).
    { revert E. unfold Update, checked, throw. repeat (case_match; try done); naive_solver. }
    subst. intros Hx Hne. by destruct Hne.
  - apply Update_inv in E as (cur&_&_&_&_&->&->). pose proof (closedRight_stored env cur r Hr) as Hst. revert Hst.
    generalize (scrubbed probeRunMeta (truncateRow probeRunMeta (updateRow probeRunMeta env cur r))) as y. intros y Hy Hx Hne.
    cbn in Hx, Hne. apply lookup_insert_Some in Hx as [[_ <-]|[_ Hx]]; [done|by destruct Hne].
Qed.
End seen.

(** Seeing more does not make a closing wrong. *)
Lemma takenFor_mono seen seen' id box : seen ⊆ seen' → takenFor seen id box → takenFor seen' id box.
Proof. intros Hs (Hid&td&Htd&Hb). split; [done|]. exists td. split; [by apply Hs|done]. Qed.

Lemma closesRight_mono opener now seen seen' a b :
  seen ⊆ seen' → closesRight opener now seen a b → closesRight opener now seen' a b.
Proof.
  intros Hs Hc id r Hr Hne. destruct (Hc id r Hr Hne) as [Hp Hst]. split; [done|].
  pose proof (λ box, takenFor_mono seen seen' (pr_MailboxID r) box Hs) as Hm. destruct (pr_Status r); naive_solver.
Qed.

(** *** Steps that leave the runs alone *)

(** A guarantee about the runs holds of a step that does not write them. *)
Class AboutRuns (G : tenantData → tenantData → Prop) := aboutRuns : ∀ a b, probeRuns b = probeRuns a → G a b.

Section frames.
Context (R G : tenantData → tenantData → Prop) `{!AboutRuns G}.

(** Every step of [p] keeps [G], whatever the others do within [R]. *)
Definition stepsOk {B} (p : prog B) : Prop := ∀ td, wp R G p (λ _ _, True) td.

Lemma closing_done {B} (r : error + B) : stepsOk (Done r).
Proof. by intros td. Qed.

Lemma closing_handle {B C} (p : prog B) (k : error + B → prog C) :
  stepsOk p → (∀ r, stepsOk (k r)) → stepsOk (handle p k).
Proof. intros Hp Hk td. apply wp_handle. eapply wp_mono; [|apply Hp]. intros r td' _. apply Hk. Qed.

Lemma closing_pbind {B C} (p : prog B) (k : B → prog C) :
  stepsOk p → (∀ a, stepsOk (k a)) → stepsOk (pbind p k).
Proof. intros Hp Hk. apply closing_handle; [done|]. intros [e|a]; [apply closing_done|apply Hk]. Qed.

(** A call that does not write runs. *)
Definition keepsRuns {B} (op : Env → M tenantData B) : Prop := ∀ env td, probeRuns (op env td).2 = probeRuns td.

Lemma closing_call {B} (op : Env → M tenantData B) : keepsRuns op → stepsOk (call op).
Proof.
  intros Hop td. apply wp_call. intros env td0 _. split; [|done]. apply aboutRuns, Hop.
Qed.

Lemma keeps_checked {B} (op : M tenantData B) :
  (∀ td, probeRuns (op td).2 = probeRuns td) → keepsRuns (λ env, checked env op).
Proof. intros Hop env td. unfold checked, throw. destruct (e_closed env); [done|apply Hop]. Qed.

Lemma keepsRuns_zoom {T B} (l : lens tenantData (gmap string T)) (op : Env → M (gmap string T) B) :
  (∀ env rows, (op env rows).2 = rows) → (∀ td, lset l (lget l td) td = td) → keepsRuns (λ env, zoom l (op env)).
Proof.
  intros Hop Hl env td. unfold zoom. specialize (Hop env (lget l td)). destruct (op env (lget l td)) as [r rows]. cbn in *.
  by rewrite Hop, Hl.
Qed.

Lemma Get_rows {T} id env (rows : gmap string T) : (Get env id rows).2 = rows.
Proof. unfold Get, checked, throw. by repeat case_match. Qed.
Lemma listWhere_rows {T} p keep env (rows : gmap string T) : (listWhere env p keep rows).2 = rows.
Proof. unfold listWhere, checked, throw. by case_match. Qed.

Lemma closing_drain {T} (fetch : Page → prog (Result T)) :
  (∀ pg, stepsOk (fetch pg)) → ∀ fuel pg out, stepsOk (drain fetch fuel pg out).
Proof.
  intros Hf. induction fuel as [|fuel IH]; intros pg out; cbn [drain]; [apply closing_done|].
  apply closing_pbind; [done|]. intros res. case_match; [apply closing_done|apply IH].
Qed.

Lemma closing_list {T} (l : lens tenantData (gmap string T)) keep pg :
  (∀ td, lset l (lget l td) td = td) → stepsOk (call (λ env, zoom l (listWhere env pg keep))).
Proof. intros Hl. apply closing_call, keepsRuns_zoom; [|done]. intros env rows. apply listWhere_rows. Qed.

Lemma closing_GetSender id : stepsOk (call (λ env, GetSender env id)).
Proof. apply closing_call, keepsRuns_zoom; [intros env rows; apply Get_rows|by intros []]. Qed.

Lemma keeps_Enqueue evs : keepsRuns (λ env, Enqueue env evs).
Proof.
  intros env td. unfold Enqueue, checked, throw. destruct (e_closed env); [done|]. cbn.
  generalize 0%nat as i. revert td. induction evs as [|e evs IH]; intros td i; cbn [enqueueLoop]; [done|]. by rewrite IH.
Qed.

Lemma closing_runDNS senderID ip : stepsOk (runDNS A senderID ip).
Proof.
  unfold runDNS. destruct (po_DNS opts) as [runAll|]; [|apply closing_done].
  apply closing_pbind; [apply closing_GetSender|]. intros snd. apply closing_pbind; [|intros i; case_match; apply closing_done].
  case_match; [apply closing_done|]. apply closing_handle; [|intros []; [case_match|]; apply closing_done].
  apply closing_call, keepsRuns_zoom; [intros env rows; apply Get_rows|by intros []].
Qed.

Lemma closing_tryDNS senderID ip : stepsOk (tryDNS A senderID ip).
Proof. apply closing_handle; [apply closing_runDNS|intros []; apply closing_done]. Qed.

Lemma closing_setHealth n senderID status reason now : stepsOk (setHealthLoop A n senderID status reason now).
Proof.
  induction n as [|n IH]; cbn [setHealthLoop]; [apply closing_done|].
  apply closing_pbind; [apply closing_GetSender|]. intros snd. apply closing_handle.
  - apply closing_call. intros env td. unfold UpdateSender, zoomWith. by repeat case_match.
  - intros [e|s']; case_match; [apply IH|apply closing_done|apply closing_done|].
    unfold enqueueHealthChanged. case_match; [apply closing_done|]. apply closing_call, keeps_Enqueue.
Qed.

Lemma closing_runsOf fuel id : stepsOk (runsOf fuel id).
Proof. apply closing_drain. intros pg. apply closing_list. by intros []. Qed.

Lemma closing_record box o now : stepsOk (recordHealthOf A box o now).
Proof.
  apply closing_handle; [|intros; apply closing_done]. unfold RecordHealth. apply closing_pbind.
  - change (strEq KindProbe KindProbe) with true. apply closing_call. unfold ProbeMailboxUpdateHealth. apply keeps_checked.
    intros td. by case_match.
  - intros _. case_match; [apply closing_done|]. case_match; [apply closing_done|].
    apply closing_pbind; [apply closing_call; apply keeps_Enqueue|intros; apply closing_done].
Qed.

Lemma closing_refresh fuel senderID now : stepsOk (RefreshSenderHealth A shuffle fuel senderID now).
Proof.
  apply closing_pbind; [apply closing_runsOf|]. intros runs. unfold updateSenderHealth.
  case_match; [apply closing_done|]. apply closing_setHealth.
Qed.
End frames.

(** *** The collect *)

#[local] Instance closesRight_about opener now seen : AboutRuns (closesRight opener now seen).
Proof. intros a b Hab id r Hr Hne. rewrite Hab in Hr. by destruct Hne. Qed.

Section closing.
Context (opener : Opener) (now : Time).

Section known.
Context (seen : list tenantData).

(** Every step of [p], whatever the others do, closes runs rightly. *)
Abbreviation closing_ok := (stepsOk (λ _ _, True) (closesRight opener now seen)).

Lemma closing_updateRun r : closedRight opener now seen r → closing_ok (updateRun r).
Proof.
  intros Hr. apply closing_pbind; [|intros; apply closing_done]. intros td. apply wp_call. intros env td0 _.
  split; [by apply closes_UpdateRun|done].
Qed.

Lemma closing_CompleteRun run ev : closing_ok (CompleteRun A run ev now).
Proof. apply closing_pbind; [rapply closing_tryDNS|]. intros rep. apply closing_updateRun, completedRun_right. Qed.

Lemma closing_undelivered fuel run subject box :
  overdue now run → takenFor seen (pr_MailboxID run) box → ¬ unreachable opener box → closing_ok (finishUndelivered A fuel run subject).
Proof.
  intros Ho Hb Hu. apply closing_pbind; [apply closing_pbind; [rapply closing_runsOf|intros; apply closing_done]|].
  intros streak. apply closing_pbind; [rapply closing_tryDNS|]. intros rep. apply closing_updateRun. by eapply undeliveredRun_right.
Qed.

Lemma closing_unreachable run stage box :
  overdue now run → takenFor seen (pr_MailboxID run) box → unreachable opener box → closing_ok (finishUnreachable run stage).
Proof. intros Ho Hb Hu. apply closing_updateRun. split; [done|]. cbn -[takenFor]. eauto. Qed.

Lemma closing_refreshAll fuel ids err : closing_ok (refreshAll A shuffle fuel ids now err).
Proof.
  revert err. induction ids as [|id ids IH]; intros err; cbn [refreshAll]; [destruct err; apply closing_done|].
  apply closing_handle; [rapply closing_refresh|]. intros r. apply IH.
Qed.

Lemma timedOut_overdue run : timedOut A run now = true → overdue now run.
Proof. unfold timedOut, overdue. lia. Qed.

(** The runs of [box], which the collect took for their mailbox. *)
Definition runsIn (box : ProbeMailbox) : list ProbeRun → Prop := Forall (λ run, takenFor seen (pr_MailboxID run) box).

Lemma closing_webhook fuel box pending acc :
  Kind_Normalized (pm_Kind box) = ProbeMailboxWebhook → runsIn box pending → closing_ok (collectWebhook A fuel box pending now acc).
Proof.
  intros Hk Hin. apply closing_pbind.
  - generalize false as missed. revert acc. induction Hin as [|run pending Hrun Hin IH]; intros acc missed; cbn [webhookRuns];
      [apply closing_done|]. destruct (timedOut A run now) eqn:Ht; [|apply IH]. apply closing_handle.
    + apply (closing_undelivered _ _ _ box); [by apply timedOut_overdue|done|]. by intros [? _].
    + intros [e|u]; apply IH.
  - intros [acc' missed]. apply closing_pbind; [|intros; apply closing_done]. case_match; [rapply closing_record|apply closing_done].
Qed.

Lemma closing_runs fuel box fetcher openErr deleted pending acc :
  runsIn box pending → (match openErr with Some _ => unreachable opener box | None => ¬ unreachable opener box end) →
  closing_ok (mailboxRuns A fuel box fetcher openErr deleted pending now acc).
Proof.
  intros Hin Hu. revert deleted acc. induction Hin as [|run pending Hrun Hin IH]; intros deleted acc; cbn [mailboxRuns];
    [apply closing_done|]. destruct (match fetcher with Some _ => _ | None => _ end) as [acc' [m|]].
  - apply closing_handle; [apply closing_CompleteRun|]. intros [e|u]; apply IH.
  - destruct (timedOut A run now) eqn:Ht; [|apply IH]. apply timedOut_overdue in Ht. apply closing_pbind; [|intros; apply IH].
    apply closing_handle; [|intros; apply closing_done].
    destruct openErr as [e|]; [by eapply closing_unreachable|by eapply closing_undelivered].
Qed.

Lemma closing_mailbox fuel box pending acc :
  runsIn box pending → closing_ok (collectMailbox A fuel opener box pending now acc).
Proof.
  intros Hin. unfold collectMailbox. destruct (strEq _ _) eqn:Ek.
  { apply closing_webhook; [by apply bool_decide_eq_true_1 in Ek|done]. }
  apply bool_decide_eq_false_1 in Ek. cbv zeta. destruct (pm_Enabled box || _ || _) eqn:Ea.
  - destruct (opener box) as [e|f] eqn:Eo; (apply closing_pbind; [rapply closing_record|intros _]); apply closing_runs; try done.
    + split_and!; eauto.
    + intros (_&_&e&He). congruence.
  - apply closing_runs; [done|]. intros (_&Ha&_). congruence.
Qed.

Lemma closing_boxes fuel (byID : gmap string ProbeMailbox) waiting ids acc :
  (∀ id, id ∈ ids → takenFor seen id (match byID !! id with Some b => b | None => zero <| pm_ID := id |> end)) →
  closing_ok (collectBoxes A fuel opener byID waiting ids now acc).
Proof.
  revert acc. induction ids as [|id ids IH]; intros acc Hid; cbn [collectBoxes]; [apply closing_done|].
  apply closing_pbind; [|intros; apply IH; intros id' Hin; apply Hid; by right].
  apply closing_mailbox. apply Forall_forall. intros run [-> _]%list_elem_of_filter. apply Hid. by left.
Qed.
End known.

(** The collect remembers the states it acted on. *)
Definition seeing (seen : list tenantData) (a b : tenantData) (seen' : list tenantData) : Prop :=
  seen' = seen ++ [a] ∧ closesRight opener now seen' a b.

(** Steps that need no more than [seen0]. *)
Lemma closing_seen seen0 seen {B} (p : prog B) td :
  seen0 ⊆ seen → stepsOk (λ _ _, True) (closesRight opener now seen0) p →
  mwp (λ _ _, True) seeing p (λ _ seen' _, seen0 ⊆ seen') seen td.
Proof.
  intros Hs Hp. eapply mwp_mono; [|apply (wp_mwp _ _ (closesRight opener now seen0) (λ seen a, seen ++ [a]) p (λ _ _, True) (λ seen, seen0 ⊆ seen))].
  - by intros r seen' td' [? _].
  - intros seen' a. set_solver.
  - intros seen' a b Hs' Hc. split; [done|]. eapply closesRight_mono; [|exact Hc]. set_solver.
  - done.
  - apply Hp.
Qed.

(** What a listing of the mailboxes teaches: every box it returns was stored at
    a state it saw, and an ID it does not return was missing at one. *)
Definition listed (seen : list tenantData) (boxes : list ProbeMailbox) (done : string → Prop) : Prop :=
  (∀ box, box ∈ boxes → takenFor seen (pm_ID box) box) ∧
  (∀ id, done id → id ∉ pm_ID <$> boxes → takenFor seen id (zero <| pm_ID := id |>)).

Lemma listed_mono seen seen' boxes done : seen ⊆ seen' → listed seen boxes done → listed seen' boxes done.
Proof.
  intros Hs [H1 H2]. split; [intros box Hb; by eapply takenFor_mono, H1|]. intros id Hd Hn. by eapply takenFor_mono, H2.
Qed.

(** One page more. *)
Lemma listed_page seen td boxes c :
  listed seen boxes (λ id, id ≠ "" ∧ String.le id c) →
  let r := paginate (probeMailboxes td) (mkPage MaxPageLimit c) (λ _, true) in
  listed (seen ++ [td]) (boxes ++ res_Items r) (λ id, id ≠ "" ∧ (res_NextCursor r = "" ∨ String.le id (res_NextCursor r))).
Proof.
  intros [H1 H2] r. split.
  - intros box [Hb|Hb]%elem_of_app; [eapply takenFor_mono; [|by apply H1]; set_solver|].
    split; [done|]. exists td. split; [set_solver|]. left. by eapply paginate_items.
  - intros id [Hne Hd] Hn. rewrite fmap_app in Hn. destruct (decide (String.le id c)) as [Hc|Hc].
    { eapply takenFor_mono; [|apply H2; [done|]]; set_solver. }
    split; [done|]. exists td. split; [set_solver|]. right. split; [done|]. intros b Hb Hid.
    destruct (paginate_covers (probeMailboxes td) MaxPageLimit c (λ _, true) id b) as [Hin|[Hne' Hle]]; [done..| |].
    + apply Hn, elem_of_app. right. rewrite <- Hid. by apply list_elem_of_fmap_2.
    + by destruct Hd.
Qed.

Lemma closing_listAll fuel seen td :
  mwp (λ _ _, True) seeing (listAll (field probeMailboxes) fuel)
    (λ r seen' _, match r with inr boxes => listed seen' boxes (λ id, id ≠ "") | inl _ => True end) seen td.
Proof.
  assert (Hgen : ∀ c boxes seen td, listed seen boxes (λ id, id ≠ "" ∧ String.le id c) →
    mwp (λ _ _, True) seeing (drain (λ p, call (λ env, zoom (field probeMailboxes) (List env p))) fuel (mkPage MaxPageLimit c) boxes)
      (λ r seen' _, match r with inr boxes => listed seen' boxes (λ id, id ≠ "") | inl _ => True end) seen td).
  2: { apply Hgen. split; [by intros ? ?%not_elem_of_nil|]. intros id [Hne Hle] _. destruct Hne. by apply (anti_symm String.le _ _ Hle), empty_le. }
  clear seen td. induction fuel as [|fuel IH]; intros c boxes seen td Hl; cbn [drain]; [done|].
  apply mwp_handle. intros env td1 _. unfold zoom, List, listWhere, checked, throw.
  assert (Hquiet : ∀ td2, probeRuns td2 = probeRuns td1 → seeing seen td1 td2 (seen ++ [td1])).
  { intros td2 H2. split; [done|]. by apply closesRight_about. }
  destruct (e_closed env); (eexists; split; [by apply Hquiet|]); [done|]. cbv beta iota. cbn [lget field].
  pose proof (listed_page seen td1 boxes c Hl) as Hp. cbv zeta in Hp. revert Hp.
  match goal with |- _ → mwp _ _ (Done (inr ?x)) _ _ _ => set (res := x) end. intros Hp. cbn [mwp].
  destruct (strEq (res_NextCursor res) "") eqn:Hnext.
  - apply bool_decide_eq_true in Hnext. destruct Hp as [H1 H2]. split; [done|]. intros id Hid Hn. apply H2; auto.
  - apply bool_decide_eq_false in Hnext. apply IH. destruct Hp as [H1 H2]. split; [done|].
    intros id [Hid Hle] Hn. apply H2; auto.
Qed.

Lemma closing_collect fuel td :
  (∀ l, shuffle l ≡ₚ l) →
  mwp (λ _ _, True) seeing (CollectWith A shuffle fuel opener now) (λ _ _ _, True) [] td.
Proof.
  intros Hsh. apply mwp_handle. eapply mwp_mono; [|apply (closing_seen [])]; [|done|apply closing_drain; intros pg; rapply closing_list; by intros []].
  intros [e|waiting] seen td1 _; [done|]. case_match; [done|]. apply mwp_handle. eapply mwp_mono; [|apply closing_listAll].
  intros [e|boxes] seen1 td2 Hl; [done|]. cbv zeta. case_match; [done|].
  eapply mwp_mono; [|apply (closing_seen seen1); [done|]]; [done|].
  apply closing_pbind; [|intros; apply closing_refreshAll]. apply closing_boxes. intros id Hid. rewrite Hsh in Hid.
  apply elem_of_remove_dups, list_elem_of_filter in Hid as [Hne _]. destruct Hl as [H1 H2].
  match goal with |- context [?m !! id] => destruct (m !! id) as [box|] eqn:Hb end.
  - apply elem_of_list_to_map_2 in Hb. rewrite elem_of_reverse, list_elem_of_fmap in Hb. destruct Hb as (b&[= -> ->]&Hb). by apply H1.
  - apply H2; [done|]. apply not_elem_of_list_to_map_2 in Hb. intros Hin. apply Hb.
    rewrite fmap_reverse, elem_of_reverse, <- list_fmap_compose. exact Hin.
Qed.

(** The automaton's history is the states of the steps. *)
Lemma seeing_history seen tr seen' :
  accepts seeing seen tr seen' →
  ∀ tr1 st tr2, tr = tr1 ++ st :: tr2 → closesRight opener now (seen ++ tr1.*1 ++ [st.1]) st.1 st.2.
Proof.
  intros Hacc. induction Hacc as [ph|ph ph1 ph2 st tr [-> Hst] Hacc IH]; intros tr1 st' tr2 Htr; [by destruct tr1|].
  destruct tr1 as [|st1 tr1]; injection Htr as <- ->; [done|]. cbn.
  specialize (IH tr1 st' tr2 eq_refl). by rewrite <- app_assoc in IH.
Qed.
End closing.

(** C31 (probe verdicts): whatever the mailboxes hold and whatever the API, the
    webhook and the senders do to the store meanwhile, every run a collect
    writes is closed with evidence for its verdict: green only for a mail that
    came back over TLS into a folder that is neither spam nor another one with
    no method failed or undecided; red only for a mail that came back with a
    method the receiver failed, or one that is past the timeout in a mailbox
    that could be opened; and a mailbox that cannot be opened leaves nothing but
    the verdict unknown.  The mailbox is the row the store held for the run's
    mailbox when the collect looked, or the bare ID if the store held none then
    (a mailbox deleted while a run was under way). *)
Theorem probe_verdict_evidence opener fuel now td tr r td' :
  (∀ l, shuffle l ≡ₚ l) →
  exec (λ _ _, True) (CollectWith A shuffle fuel opener now) td tr r td' →
  ∀ tr1 st tr2, tr = tr1 ++ st :: tr2 → closesRight opener now (tr1.*1 ++ [st.1]) st.1 st.2.
Proof.
  intros Hsh He. eapply mwp_sound in He as (seen&Hacc&_); [|by apply closing_collect].
  intros tr1 st tr2 ->. by apply (seeing_history opener now [] _ _ Hacc tr1 st tr2).
Qed.

(** ** Headers that are not believed *)

(** A field none of the readings takes anything from. *)
Definition ignored (authServID : string) (f : Field) : Prop :=
  pl_EqualFold L (fd_Name f) "Received" = false ∧ pl_EqualFold L (fd_Name f) "Date" = false ∧
  (pl_EqualFold L (fd_Name f) "Authentication-Results" = true →
   ∀ ar, ParseAuthResults L (fd_Value f) = Some ar → trusted L authServID ar = false).

Lemma Values_ignored h1 f h2 name :
  pl_EqualFold L (fd_Name f) name = false → Values L (h1 ++ f :: h2) name = Values L (h1 ++ h2) name.
Proof.
  intros Hf. unfold Values. by rewrite !filter_app, filter_cons_False by (rewrite Hf; done).
Qed.

Lemma TrustedAuthResults_ignored h1 f h2 authServID :
  ignored authServID f →
  TrustedAuthResults L (h1 ++ f :: h2) authServID = TrustedAuthResults L (h1 ++ h2) authServID.
Proof.
  intros (_&_&Hf). destruct (pl_EqualFold L (fd_Name f) "Authentication-Results") eqn:E.
  - change (f :: h2) with ([f] ++ h2). rewrite !TrustedAuthResults_app. rewrite (TrustedAuthResults_forged L f); [done|by apply Hf].
  - unfold TrustedAuthResults. by rewrite Values_ignored.
Qed.

Definition authServIDOf (box : option ProbeMailbox) : string := match box with Some m => pm_AuthServID m | None => "" end.

(** A header that anybody on the way added, an
    Authentication-Results with another server's name or any other field but
    Received and Date, has no influence on the run a mail completes: wherever
    it stands among the headers, the run is the one of the mail without it. *)
Theorem probe_forged_header_ignored run box h1 f h2 folder at_ raw now report :
  ignored (authServIDOf box) f →
  completedRun A run (mkEvidence box (h1 ++ f :: h2) folder at_ raw) now report =
  completedRun A run (mkEvidence box (h1 ++ h2) folder at_ raw) now report.
Proof.
  intros Hi. pose proof Hi as (Hr&Hd&_).
  assert (Hc : ReceivedChain L (h1 ++ f :: h2) = ReceivedChain L (h1 ++ h2)) by (unfold ReceivedChain; by rewrite Values_ignored).
  assert (Ho : Observe A (mkEvidence box (h1 ++ f :: h2) folder at_ raw) = Observe A (mkEvidence box (h1 ++ h2) folder at_ raw)).
  { unfold Observe, FirstExternalHop, Latency, HGet. cbn [ev_Headers ev_Mailbox ev_Folder ev_ReceivedAt].
    fold (authServIDOf box). by rewrite Hc, (TrustedAuthResults_ignored h1 f h2 _ Hi), Values_ignored. }
  unfold completedRun, probeReceivedAt. cbn [ev_Headers ev_ReceivedAt ev_RawHeaders]. by rewrite Ho, Hc.
Qed.

(** ** Alone on the store *)

(** The rows a listing keeps, in ID order. *)
Definition rowsWhere {T} (keep : T → bool) (rows : gmap string T) : list T :=
  omap (λ id, rows !! id) (selectIDs (λ _, keep) rows).

Lemma elem_of_rowsWhere {T} (keep : T → bool) (rows : gmap string T) v :
  v ∈ rowsWhere keep rows ↔ ∃ id, rows !! id = Some v ∧ keep v = true.
Proof.
  unfold rowsWhere. rewrite list_elem_of_omap. setoid_rewrite elem_of_selectIDs. naive_solver.
Qed.

Lemma drain_walk {T} (l : lens tenantData (gmap string T)) keep env td :
  e_closed env = false → lset l (lget l td) td = td →
  ∀ fuel c out res, walk fuel (lget l td) MaxPageLimit c keep = Some res →
    run env (drain (λ p, call (λ env, zoom l (listWhere env p keep))) fuel (mkPage MaxPageLimit c) out) td = (inr (out ++ res), td).
Proof.
  intros Hc Hl. induction fuel as [|fuel IH]; intros c out res; [done|]. cbn [walk drain]. intros Hw.
  rewrite run_pbind, run_call. unfold zoom at 1, listWhere at 1, checked. rewrite Hc, Hl.
  set (pg := paginate (lget l td) (mkPage MaxPageLimit c) keep) in *. clearbody pg. destruct (strEq (res_NextCursor pg) "").
  - injection Hw as <-. done.
  - apply fmap_Some in Hw as (rest&Hw&->). rewrite app_assoc. by apply IH.
Qed.

(** A listing that is drained alone yields its rows in ID order. *)
Lemma run_drain {T} (l : lens tenantData (gmap string T)) keep env fuel td :
  e_closed env = false → lset l (lget l td) td = td → "" ∉ dom (lget l td) → (size (lget l td) < fuel)%nat →
  run env (drain (λ p, call (λ env, zoom l (listWhere env p keep))) fuel firstPage []) td =
    (inr (rowsWhere keep (lget l td)), td).
Proof.
  intros Hc Hl Hd Hf. apply (drain_walk l keep env td Hc Hl fuel "" [] (rowsWhere keep (lget l td))).
  pose proof (pageIDs_start (lget l td) MaxPageLimit keep Hd) as Hids. rewrite walk_from; rewrite Hids; [done|].
  pose proof (length_selectIDs (λ _ v, keep v) (lget l td)). lia.
Qed.

Lemma run_runsOf env fuel senderID td :
  e_closed env = false → "" ∉ dom (probeRuns td) → (size (probeRuns td) < fuel)%nat →
  run env (runsOf fuel senderID) td = (inr (rowsWhere (λ v, strEq (pr_SenderID v) senderID) (probeRuns td)), td).
Proof.
  intros Hc Hd Hf. assert (Hl : lset (field probeRuns) (lget (field probeRuns) td) td = td) by by destruct td.
  exact (run_drain (field probeRuns) (λ v, strEq (pr_SenderID v) senderID) env fuel td Hc Hl Hd Hf).
Qed.

(** A program that only reads. *)
Definition reads {B} (p : prog B) : Prop := ∀ env td, (run env p td).2 = td.

Lemma reads_handle {B C} (p : prog B) (k : error + B → prog C) : reads p → (∀ r, reads (k r)) → reads (handle p k).
Proof.
  intros Hp Hk env td. rewrite run_handle. specialize (Hp env td). destruct (run env p td) as [r td']. cbn in Hp. subst. apply Hk.
Qed.
Lemma reads_pbind {B C} (p : prog B) (k : B → prog C) : reads p → (∀ a, reads (k a)) → reads (pbind p k).
Proof. intros Hp Hk. apply reads_handle; [done|]. by intros [e|a]. Qed.
Lemma reads_get {T} (l : lens tenantData (gmap string T)) id :
  (∀ td, lset l (lget l td) td = td) → reads (call (λ env, zoom l (Get env id))).
Proof.
  intros Hl env td. rewrite run_call. unfold zoom. pose proof (Get_rows id env (lget l td)) as Hg.
  destruct (Get env id (lget l td)) as [r rows]. cbn in *. by rewrite Hg.
Qed.

Lemma run_tryDNS env senderID ip td : ∃ rep, run env (tryDNS A senderID ip) td = (inr rep, td).
Proof.
  unfold tryDNS. rewrite run_handle.
  assert (Hr : reads (runDNS A senderID ip)).
  { unfold runDNS. destruct (po_DNS opts) as [runAll|]; [|done]. apply reads_pbind; [apply reads_get; by intros []|].
    intros snd. apply reads_pbind; [|by intros i; case_match]. case_match; [done|].
    apply reads_handle; [apply reads_get; by intros []|]. intros [e|dom]; [by case_match|done]. }
  specialize (Hr env td). destruct (run env (runDNS A senderID ip) td) as [[e|rep] td1]; cbn in Hr; subst; by eexists.
Qed.

(** ** Silence *)

(** The runs that say something about the mailbox of [run]: finished, another
    one, and not one whose mailbox could not be opened. *)
Definition counted (run prev : ProbeRun) : bool :=
  negb (strEq (pr_ID prev) (pr_ID run)) && strEq (pr_MailboxID prev) (pr_MailboxID run) && negb (pr_Pending prev) &&
  negb (bool_decide (pr_Status prev = HealthUnknown) && negb (pr_Delivered prev)).

Lemma streakFrom_cons run prev runs n :
  streakFrom run (prev :: runs) n =
    if counted run prev then (if pr_Delivered prev then n else streakFrom run runs (n + 1)) else streakFrom run runs n.
Proof.
  cbn [streakFrom]. unfold counted. destruct (strEq (pr_ID prev) (pr_ID run)); [done|].
  destruct (strEq (pr_MailboxID prev) (pr_MailboxID run)); [|done]. destruct (pr_Pending prev); [done|].
  cbn [negb orb andb]. by destruct (bool_decide (pr_Status prev = HealthUnknown) && negb (pr_Delivered prev)).
Qed.

Lemma streakFrom_split run runs n :
  ∃ missed rest, filter (λ prev, counted run prev = true) runs = missed ++ rest ∧
    Forall (λ prev, pr_Delivered prev = false) missed ∧ (∀ prev, head rest = Some prev → pr_Delivered prev = true) ∧
    streakFrom run runs n = n + len missed.
Proof.
  revert n. induction runs as [|prev runs IH]; intros n; [exists [], []; cbn; split_and!; try done; unfold len; cbn; lia|].
  rewrite streakFrom_cons, filter_cons. destruct (counted run prev) eqn:Ec; [|rewrite decide_False by done; apply IH].
  rewrite decide_True by done. destruct (pr_Delivered prev) eqn:Ed.
  - exists [], (prev :: filter (λ prev, counted run prev = true) runs). split_and!; [done|done|naive_solver|unfold len; cbn; lia].
  - destruct (IH (n + 1)) as (missed&rest&Hs&Hm&Hr&->). exists (prev :: missed), rest.
    split_and!; [by rewrite Hs|by constructor|done|unfold len; cbn; lia].
Qed.

(** When a probe mail is not there at the timeout, the run is
    closed as undelivered, and it is red exactly if, with the runs of the same
    mailbox before it, there were as many misses in a row as the configuration
    asks for: going back from the newest, runs that wait and runs whose mailbox
    could not be opened do not count, and the first one that was delivered ends
    the row. *)
Theorem probe_silence_streak env fuel run subject td cur :
  e_closed env = false → "" ∉ dom (probeRuns td) → (size (probeRuns td) < fuel)%nat → probeRuns td !! pr_ID run = Some cur →
  ∃ missed rest row,
    filter (λ prev, counted run prev = true)
      (reverse (rowsWhere (λ v, strEq (pr_SenderID v) (pr_SenderID run)) (probeRuns td))) = missed ++ rest ∧
    Forall (λ prev, pr_Delivered prev = false) missed ∧ (∀ prev, head rest = Some prev → pr_Delivered prev = true) ∧
    Prog.run env (finishUndelivered A fuel run subject) td = (inr tt, td <| probeRuns := <[pr_ID run := row]> (probeRuns td) |>) ∧
    pr_Pending row = false ∧ pr_Delivered row = false ∧
    pr_Status row = if po_ConsecutiveFailuresForRed opts <=? 1 + len missed then HealthRed else HealthYellow.
Proof.
  intros Hc Hd Hf Hcur. set (hist := rowsWhere _ _).
  destruct (streakFrom_split run (reverse hist) 1) as (missed&rest&Hs&Hm&Hr&Hn). exists missed, rest.
  destruct (run_tryDNS env (pr_SenderID run) None td) as [rep Hrep].
  set (new := undeliveredRun A run subject (1 + len missed) rep).
  assert (Hnew : pr_ID new = pr_ID run ∧ pr_Pending new = false ∧ pr_Delivered new = false ∧
    pr_Status new = if po_ConsecutiveFailuresForRed opts <=? 1 + len missed then HealthRed else HealthYellow).
  { unfold new, undeliveredRun. destruct (withDNS_fields rep run) as [b ->]. by destruct (_ <=? _). }
  exists (scrubbed probeRunMeta (truncateRow probeRunMeta (updateRow probeRunMeta env cur new))).
  split_and!; [exact Hs|done|done| |apply Hnew..]. clear Hs.
  unfold finishUndelivered, undeliveredStreak. rewrite !run_pbind, run_runsOf by done. fold hist. cbn [Prog.run pret].
  rewrite Hn, run_pbind, Hrep. fold new. clearbody new. unfold updateRun. rewrite run_pbind, run_call.
  unfold UpdateRun, zoomWith, Update, checked. rewrite Hc. change (lget (m_id probeRunMeta) new) with (pr_ID new).
  change (lget (field probeRuns) td) with (probeRuns td). destruct Hnew as (Hid&_). rewrite Hid, Hcur. done.
Qed.

(** ** The summary of a sender *)

(** [r] is the newest finished run of the mailbox [m] among [runs]. *)
Definition newestOf (runs : list ProbeRun) (m : string) (r : ProbeRun) : Prop :=
  r ∈ runs ∧ pr_Pending r = false ∧ pr_MailboxID r = m ∧
  ∀ r', r' ∈ runs → pr_Pending r' = false → pr_MailboxID r' = m → String.le (pr_ID r') (pr_ID r).

Lemma strLt_total a b : strLt a b = false → String.le b a.
Proof.
  unfold strLt. intros H%bool_decide_eq_false_1. destruct (total String.le a b) as [Hle|Hle]; [|done].
  destruct (decide (a = b)) as [->|Hne]; [done|]. naive_solver.
Qed.

Lemma latestOf_spec runs m :
  match latestOf runs !! m with
  | Some r => newestOf runs m r
  | None => ∀ r, r ∈ runs → pr_Pending r = false → pr_MailboxID r ≠ m
  end.
Proof.
  unfold latestOf. induction runs as [|run runs IH] using rev_ind; [set_solver|]. rewrite foldl_snoc.
  set (latest := foldl _ ∅ runs) in *. clearbody latest. destruct (pr_Pending run) eqn:Ep.
  { destruct (latest !! m) as [r|];
      [|intros r' [?|?%list_elem_of_singleton]%elem_of_app ?; [by apply IH|congruence]].
    destruct IH as (?&?&?&Hmax). split_and!; [set_solver|done..|].
    intros r' [?|?%list_elem_of_singleton]%elem_of_app ??; [by apply Hmax|congruence]. }
  destruct (decide (pr_MailboxID run = m)) as [<-|Hne].
  - destruct (latest !! pr_MailboxID run) as [cur|] eqn:Hcur.
    + destruct IH as (?&?&?&Hmax). destruct (strLt (pr_ID cur) (pr_ID run)) eqn:El.
      * rewrite lookup_insert_eq. split_and!; [set_solver|done..|].
        unfold strLt in El. apply bool_decide_eq_true_1 in El as [El _].
        intros r' [?|?%list_elem_of_singleton]%elem_of_app ??; [etrans; [by apply Hmax|done]|by subst].
      * rewrite Hcur. split_and!; [set_solver|done..|].
        intros r' [?|?%list_elem_of_singleton]%elem_of_app ??; [by apply Hmax|subst; by apply strLt_total].
    + rewrite lookup_insert_eq. split_and!; [set_solver|done..|].
      intros r' [?|?%list_elem_of_singleton]%elem_of_app ??; [by destruct (IH r')|by subst].
  - assert (Hl : (match latest !! pr_MailboxID run with
        | Some cur => if strLt (pr_ID cur) (pr_ID run) then <[pr_MailboxID run := run]> latest else latest
        | None => <[pr_MailboxID run := run]> latest end) !! m = latest !! m).
    { repeat case_match; rewrite ?lookup_insert_ne by done; done. }
    rewrite Hl. destruct (latest !! m) as [r|].
    + destruct IH as (?&?&?&Hmax). split_and!; [set_solver|done..|].
      intros r' [?|?%list_elem_of_singleton]%elem_of_app ??; [by apply Hmax|congruence].
    + intros r' [?|?%list_elem_of_singleton]%elem_of_app ?; [by apply IH|congruence].
Qed.

Section summary.
(** A map is iterated in some order. *)
Hypothesis Hshuffle : ∀ l, shuffle l ≡ₚ l.

Lemma elem_of_iterate {T} (m : gmap string T) v : v ∈ iterate shuffle m ↔ ∃ k, m !! k = Some v.
Proof using Hshuffle.
  unfold iterate. rewrite Hshuffle, list_elem_of_omap. split; [naive_solver|]. intros [k Hk]. exists k. split; [|done].
  apply list_elem_of_fmap. exists (k, v). split; [done|]. by apply elem_of_map_to_list.
Qed.

Lemma worst_rank a b : healthRank (worst a b) = Z.max (healthRank a) (healthRank b).
Proof. unfold worst. destruct (Z.ltb_spec (healthRank a) (healthRank b)); lia. Qed.

Lemma healthRank_inj a b : healthRank a = healthRank b → a = b.
Proof. by destruct a, b. Qed.

Lemma worstOf_spec l :
  (∀ r, r ∈ l → healthRank (pr_Status r) ≤ healthRank (worstOf l)) ∧
  (worstOf l = HealthUnknown ∨ ∃ r, r ∈ l ∧ pr_Status r = worstOf l).
Proof.
  unfold worstOf. induction l as [|r l [IH1 IH2]] using rev_ind; [split; [set_solver|by left]|].
  rewrite foldl_snoc. set (w := foldl _ HealthUnknown l) in *. clearbody w. split.
  - intros r' [Hr|Hr%list_elem_of_singleton]%elem_of_app; rewrite worst_rank; [specialize (IH1 _ Hr)|subst]; lia.
  - unfold worst. destruct (_ <? _) eqn:E; [right; exists r; set_solver|]. destruct IH2 as [->|(r'&?&?)]; [by left|right; set_solver].
Qed.

(** The health a sender's runs amount to. *)
Lemma worst_of_newest runs :
  (∃ r, r ∈ runs ∧ pr_Pending r = false) →
  let h := worstOf (iterate shuffle (latestOf runs)) in
  latestOf runs ≠ ∅ ∧ (∀ m r, latestOf runs !! m = Some r → healthRank (pr_Status r) ≤ healthRank h) ∧
  (∃ m r, newestOf runs m r ∧ pr_Status r = h).
Proof using Hshuffle.
  intros (r0&Hr0&Hp0) h. pose proof (latestOf_spec runs (pr_MailboxID r0)) as H0.
  destruct (latestOf runs !! pr_MailboxID r0) as [r1|] eqn:H1; [|by destruct (H0 r0)].
  destruct (worstOf_spec (iterate shuffle (latestOf runs))) as [Hle Hat]. fold h in Hle, Hat.
  assert (Hle' : ∀ m r, latestOf runs !! m = Some r → healthRank (pr_Status r) ≤ healthRank h).
  { intros m r Hr. apply Hle, elem_of_iterate. by exists m. }
  split_and!; [intros He; by rewrite He, lookup_empty in H1|done|]. destruct Hat as [Hu|(r&Hr&Hs)].
  - exists (pr_MailboxID r0), r1. split; [done|]. apply healthRank_inj. specialize (Hle' _ _ H1). rewrite Hu in *. cbn in *.
    by destruct (pr_Status r1); cbn in *; try lia.
  - apply elem_of_iterate in Hr as [m Hm]. exists m, r. split; [|done]. pose proof (latestOf_spec runs m) as Hn. by rewrite Hm in Hn.
Qed.

(** The sender [setSenderHealth] writes over [s]. *)
Definition judged (s : Sender) (status : HealthStatus) (reason : string) (now : Time) : Sender :=
  s <| s_Health := status |> <| s_HealthReason := reason |> <| s_HealthCheckedAt := TruncateTime now |>.

Lemma run_UpdateSender env s cur td :
  e_closed env = false → senders td !! s_ID s = Some cur → s_Version cur = s_Version s →
  let s' := updateRow senderMeta env cur s in
  UpdateSender env s td =
    (inr s', td <| senders := <[s_ID s := scrubbed senderMeta (truncateRow senderMeta s')]> (senders td) |>).
Proof.
  intros Hc Hcur Hv. unfold UpdateSender, zoomWith, Update, checked. rewrite Hc.
  change (lget (m_id senderMeta) s) with (s_ID s). change (lget (field senders) td) with (senders td). rewrite Hcur.
  change (m_version senderMeta) with (Some (field s_Version)). cbv iota. cbn [lget field]. rewrite (proj2 (Z.eqb_eq _ _) Hv). done.
Qed.

(** Alone, the verdict is written at the first attempt, and the host is told
    exactly if it is another one. *)
Lemma run_setSenderHealth env senderID status reason now td s payload :
  e_closed env = false → senders td !! senderID = Some s → s_ID s = senderID →
  (∀ p, pg_marshalHealth A p = inr (payload p)) →
  ∃ s' td', run env (setSenderHealth A senderID status reason now) td = (inr tt, td') ∧
    senders td' = <[senderID := s']> (senders td) ∧ probeRuns td' = probeRuns td ∧
    s_Health s' = status ∧ s_HealthReason s' = reason ∧ s_HealthCheckedAt s' = TruncateTime now ∧
    (status = s_Health s → outbox td' = outbox td) ∧
    (status ≠ s_Health s → ∃ id e, outbox td' !! id = Some e ∧ o_Type e = EventSenderHealthChanged ∧
       o_Payload e = payload (mkHealthChangedPayload senderID (s_Name s) (s_Health s) status reason (TruncateTime now) now)).
Proof.
  intros Hc Hs Hid Hm. unfold setSenderHealth. cbn [setHealthLoop]. rewrite run_pbind, run_call.
  unfold GetSender at 1, zoom, Get, checked. rewrite Hc. change (lget (field senders) td) with (senders td). rewrite Hs.
  change (lset (field senders) (senders td) td) with (td <| senders := senders td |>).
  replace (td <| senders := senders td |>) with td by by destruct td.
  fold (judged s status reason now). rewrite run_handle, run_call.
  rewrite (run_UpdateSender env (judged s status reason now) s) by (done || by cbn; rewrite Hid).
  set (v := updateRow senderMeta env s (judged s status reason now)).
  assert (Hv : s_ID v = senderID ∧ s_Name v = s_Name s ∧ s_Health v = status ∧ s_HealthReason v = reason ∧ s_HealthCheckedAt v = TruncateTime now) by done.
  set (row := scrubbed senderMeta (truncateRow senderMeta v)).
  assert (Hrow : s_Health row = status ∧ s_HealthReason row = reason ∧ s_HealthCheckedAt row = TruncateTime (TruncateTime now)) by done.
  change (s_ID (judged s status reason now)) with (s_ID s). rewrite Hid. clearbody row v.
  destruct Hv as (Hvi&Hvn&Hvh&Hvr&Hvc), Hrow as (Hr1&Hr2&Hr3). rewrite TruncateTime_idemp in Hr3.
  exists row. case_bool_decide as Hb.
  - eexists. split; [done|]. by split_and!.
  - unfold enqueueHealthChanged. rewrite Hm, Hvi, Hvn, Hvh, Hvr, Hvc, run_call. unfold Enqueue, checked. rewrite Hc.
    eexists. split; [done|]. match goal with |- context [enqueueLoop env 0 [?e] ?x] => set (ev := e); set (td1 := x) end.
    assert (Hk : ∀ i evs t, senders (enqueueLoop env i evs t) = senders t ∧ probeRuns (enqueueLoop env i evs t) = probeRuns t).
    { intros i evs. revert i. induction evs as [|e evs IH]; intros i t; cbn [enqueueLoop]; [done|]. by rewrite !(proj1 (IH _ _)), !(proj2 (IH _ _)). }
    destruct (Hk 0%nat [ev] td1) as [-> ->]. split_and!; [done..|congruence|]. intros _.
    destruct (enqueue_one env ev td1) as [id He]. exists id. eexists. split; [exact He|]. rewrite stampEvent_keeps_type. split; [done|].
    unfold stampEvent. by repeat case_match.
Qed.

(** Refreshing a sender that has a finished run gives it
    the worst of the verdicts of its mailboxes' newest finished runs, which one
    of them has, and enqueues a health event, naming both verdicts, exactly if
    the sender had another one. *)
Theorem sender_health_summary env fuel senderID now td s payload :
  let runs := rowsWhere (λ v, strEq (pr_SenderID v) senderID) (probeRuns td) in
  e_closed env = false → "" ∉ dom (probeRuns td) → (size (probeRuns td) < fuel)%nat →
  tableOk probeRunMeta (probeRuns td) → senders td !! senderID = Some s → s_ID s = senderID →
  (∀ p, pg_marshalHealth A p = inr (payload p)) → (∃ r, r ∈ runs ∧ pr_Pending r = false) →
  ∃ s' td', run env (RefreshSenderHealth A shuffle fuel senderID now) td = (inr tt, td') ∧
    senders td' = <[senderID := s']> (senders td) ∧ probeRuns td' = probeRuns td ∧ s_HealthCheckedAt s' = TruncateTime now ∧
    (∀ m r, newestOf runs m r → healthRank (pr_Status r) ≤ healthRank (s_Health s')) ∧
    (∃ m r, newestOf runs m r ∧ pr_Status r = s_Health s') ∧
    (s_Health s' = s_Health s → outbox td' = outbox td) ∧
    (s_Health s' ≠ s_Health s → ∃ id e, outbox td' !! id = Some e ∧ o_Type e = EventSenderHealthChanged ∧
       o_Payload e = payload (mkHealthChangedPayload senderID (s_Name s) (s_Health s) (s_Health s') (s_HealthReason s')
                                (TruncateTime now) now)).
Proof using Hshuffle.
  intros runs Hc Hd Hf Hok Hs Hid Hm Hex. destruct (worst_of_newest runs Hex) as (Hne&Hle&Hat).
  set (h := worstOf (iterate shuffle (latestOf runs))) in *.
  unfold RefreshSenderHealth. rewrite run_pbind, run_runsOf by done. fold runs. unfold updateSenderHealth.
  rewrite (bool_decide_eq_false_2 (latestOf runs = ∅)) by done. cbv zeta. fold h.
  destruct (run_setSenderHealth env senderID h (summaryReason (reasonsOf h (iterate shuffle (latestOf runs)))) now td s payload)
    as (s'&td'&Hrun&Hss&Hpr&Hh&Hrs&Hca&Hsame&Hdiff); [done..|]. clearbody h.
  exists s', td'. rewrite Hh, Hrs. split_and!; [done..| |done|done|done]. intros m r Hr.
  pose proof (latestOf_spec runs m) as Hl. destruct Hr as (Hin&Hp&Hmb&Hmax).
  destruct (latestOf runs !! m) as [r'|] eqn:Hr'; [|by destruct (Hl r)]. destruct Hl as (Hin'&Hp'&Hmb'&Hmax').
  assert (Heq : pr_ID r = pr_ID r') by (apply (anti_symm String.le); auto).
  apply elem_of_rowsWhere in Hin as (i&Hi&_), Hin' as (i'&Hi'&_). pose proof (to_id _ _ Hok _ _ Hi) as E1. pose proof (to_id _ _ Hok _ _ Hi') as E2.
  cbn in E1, E2. assert (r = r') as -> by congruence. by eapply Hle.
Qed.
End summary.

(** ** A run that waits has a mail *)

(** The probe mail of the run [r]. *)
Definition probeMailOf (r : ProbeRun) (d : Delivery) : Prop :=
  d_Lane d = LaneProbe ∧ d_SenderID d = pr_SenderID r ∧ d_Vars d !! "run_id" = Some (AnyString (pr_ID r)) ∧
  ∃ tenantID, d_Vars d !! "probe_token" = Some (AnyString (Token A tenantID (pr_ID r))).

(** The others claim, send and retry deliveries, but do not drop one or give it
    another lane, sender or variables. *)
Definition keepsMail (a b : tenantData) : Prop :=
  ∀ id d, deliveries a !! id = Some d → ∃ d', deliveries b !! id = Some d' ∧
    d_Lane d' = d_Lane d ∧ d_SenderID d' = d_SenderID d ∧ d_Vars d' = d_Vars d.

(** A run that a step adds as waiting has its mail in the store. *)
Definition addsMailed (a b : tenantData) : Prop :=
  ∀ id r, probeRuns b !! id = Some r → probeRuns a !! id ≠ Some r → pr_Pending r = true →
    ∃ d, deliveries b !! pr_DeliveryID r = Some d ∧ probeMailOf r d.

#[local] Instance addsMailed_about : AboutRuns addsMailed.
Proof. intros a b Hab id r Hr Hne. rewrite Hab in Hr. by destruct Hne. Qed.

Abbreviation mailing_ok := (stepsOk keepsMail addsMailed).

(** Creating a run that does not wait, or one whose mail is there. *)
Lemma adds_CreateRun env r td :
  pr_ID r ≠ "" → (pr_Pending r = true → ∃ d, deliveries td !! pr_DeliveryID r = Some d ∧ probeMailOf r d) →
  addsMailed td (CreateRun env r td).2.
Proof.
  intros Hid Hr id x. unfold CreateRun, zoomWith.
  destruct (Create probeRunMeta env (r, lget (field probeRuns) td)) as [[e|[]] [v rows]] eqn:E.
  - assert (Hrows : rows = probeRuns td) by (revert E; unfold Create, checked, throw; repeat (case_match; try done); naive_solver).
    subst. intros Hx Hne. by destruct Hne.
  - apply Create_inv in E as (_&_&_&->&->); [|apply _]. unfold createID, withID.
    change (lget (m_id probeRunMeta) r) with (pr_ID r). unfold strEq. rewrite (bool_decide_eq_false_2 (pr_ID r = "")) by done.
    set (y := scrubbed _ _).
    assert (Hy : pr_Pending y = pr_Pending r ∧ pr_DeliveryID y = pr_DeliveryID r ∧ pr_ID y = pr_ID r ∧ pr_SenderID y = pr_SenderID r).
    { subst y. cbn. unfold createRow. cbn. by destruct (IsZero _). }
    clearbody y. destruct Hy as (H1&H2&H3&H4). intros Hx Hne. cbn in Hx, Hne |- *.
    apply lookup_insert_Some in Hx as [[_ <-]|[_ Hx]]; [|by destruct Hne]. unfold probeMailOf. rewrite H1, H2, H3, H4. exact Hr.
Qed.

Lemma mailing_CreateRun r (k : ProbeRun → prog string) :
  pr_ID r ≠ "" → pr_Pending r = false → (∀ x, mailing_ok (k x)) → mailing_ok (let? x := call (λ env, CreateRun env r) in k x).
Proof.
  intros Hid Hp Hk. apply closing_pbind; [|done]. intros td. apply wp_call. intros env td0 _. split; [|done].
  apply adds_CreateRun; [done|congruence].
Qed.

Lemma run_InsertBatch env d td :
  d_ID d ≠ "" → d_CampaignID d = "" →
  match InsertBatch env [d] td with
  | (inr _, td') => probeRuns td' = probeRuns td ∧ ∃ d', deliveries td' !! d_ID d = Some d' ∧
      d_Lane d' = d_Lane d ∧ d_SenderID d' = d_SenderID d ∧ d_Vars d' = d_Vars d
  | (inl _, td') => probeRuns td' = probeRuns td
  end.
Proof.
  intros Hid Hca. unfold InsertBatch, checked, throw. destruct (existsb _ _); [done|]. destruct (e_closed env); [done|].
  cbn [insertLoop insertOne]. unfold insertOne, strEq. rewrite Hca. rewrite (bool_decide_eq_true_2 ("" = "")) by done. cbn [negb andb].
  unfold deliveryID, strEq. rewrite (bool_decide_eq_false_2 (d_ID d = "")) by done.
  rewrite Hca, (bool_decide_eq_true_2 ("" = "")) by done. set (x := stampDelivery env d).
  assert (Hx : d_ID x = d_ID d ∧ d_Lane x = d_Lane d ∧ d_SenderID x = d_SenderID d ∧ d_Vars x = d_Vars d).
  { subst x. unfold stampDelivery. by destruct (IsZero _), (IsZero _). }
  clearbody x. destruct Hx as (Hxi&?&?&?). split; [done|]. exists x. rewrite <- Hxi. split; [apply lookup_insert_eq|done].
Qed.

Lemma mailing_boxes ids i senderID from versionID groupID boxes now first :
  (∀ i, ids i ≠ "") → mailing_ok (triggerBoxes A ids i senderID from versionID groupID boxes now first).
Proof.
  intros Hids. revert i first. induction boxes as [|box boxes IH]; intros i first; cbn [triggerBoxes].
  { case_match; apply closing_done. }
  destruct (pg_NormalizeEmail A (pm_Address box)) as [norm|]; [|apply IH]. intros td. apply wp_pbind, wp_call. intros env td0 _.
  match goal with |- context [InsertBatch env [?x]] => set (d := x) end.
  assert (Hd : d_ID d = ids (S i) ∧ d_CampaignID d = "" ∧ d_Lane d = LaneProbe ∧ d_SenderID d = senderID ∧
    d_Vars d !! "run_id" = Some (AnyString (ids i)) ∧ d_Vars d !! "probe_token" = Some (AnyString (Token A (s_TenantID from) (ids i)))) by done.
  clearbody d. destruct Hd as (Hdi&Hdc&Hdl&Hds&Hd1&Hd2).
  pose proof (run_InsertBatch env d td0) as Hi. rewrite Hdi in Hi. specialize (Hi (Hids _) Hdc).
  destruct (InsertBatch env [d] td0) as [[e|n] td1]; cbn [fst snd]; [split; [by apply aboutRuns|done]|].
  destruct Hi as (Hr&d1&Hl1&Hll&Hls&Hlv). split; [by apply aboutRuns|].
  apply wp_pbind, wp_call. intros env2 td2 HR. destruct (HR _ _ Hl1) as (d2&Hl2&E1&E2&E3). split.
  - apply adds_CreateRun; [apply Hids|]. intros _. exists d2. split; [done|]. unfold probeMailOf. rewrite E1, E2, E3, Hll, Hls, Hlv, Hdl, Hds.
    split_and!; [done..|]. by exists (s_TenantID from).
  - destruct (CreateRun _ _ _).1; [done|]. apply IH.
Qed.

Lemma mailing_findVersion fuel pg : mailing_ok (findVersion fuel pg).
Proof.
  revert pg. induction fuel as [|fuel IH]; intros pg; cbn [findVersion]; [apply closing_done|].
  apply closing_pbind; [rapply closing_list; by intros []|]. intros res. repeat case_match; try apply closing_done. apply IH.
Qed.

Lemma mailing_version fuel id clock : mailing_ok (probeVersion fuel id clock).
Proof.
  apply closing_pbind; [apply mailing_findVersion|]. intros [v|]; [apply closing_done|].
  apply closing_pbind; [|intros; apply closing_done]. rapply closing_call. intros env td. unfold CreateVersion, zoomWith. by repeat case_match.
Qed.

Lemma mailing_dnsOnly ids from now : (∀ i, ids i ≠ "") → mailing_ok (dnsOnlyRun A ids from now).
Proof.
  intros Hids. apply closing_pbind; [rapply closing_runDNS|]. intros rep. destruct (match rep with Some _ => _ | None => _ end) as [st rs]. cbv zeta.
  match goal with |- context [withDNS A rep ?r] => destruct (withDNS_fields rep r) as [b ->] end.
  apply mailing_CreateRun; [apply Hids|done|]. intros x. apply closing_pbind; [rapply closing_setHealth|intros; apply closing_done].
Qed.

(** [Trigger] writes a run that waits for a mail only when
    that mail is queued: in every interleaving, and so wherever it is cut off,
    each run it has added as waiting has in the store the probe-lane delivery,
    for the same sender, that carries the run's ID and its token. *)
Theorem probe_run_has_mail fuel ids clock clock' senderID td tr r td' :
  (∀ i, ids i ≠ "") →
  exec keepsMail (Trigger A fuel ids clock clock' senderID) td tr r td' →
  Forall (λ s, addsMailed s.1 s.2) tr.
Proof.
  intros Hids He. assert (Hok : mailing_ok (Trigger A fuel ids clock clock' senderID)).
  { apply closing_pbind; [rapply closing_GetSender|]. intros from. apply closing_pbind.
    - apply closing_pbind; [|intros; apply closing_done]. apply closing_drain. intros pg. rapply closing_list. by intros [].
    - intros boxes. case_match.
      + destruct (po_DNS opts); [by apply mailing_dnsOnly|apply closing_done].
      + apply closing_pbind; [apply mailing_version|]. intros v. by apply mailing_boxes. }
  by eapply wp_sound in He as [? _]; [|apply Hok].
Qed.
End probe.

(** ** On concrete probes *)

Fixpoint probeLower (s : string) : string :=
  match s with EmptyString => "" | String c s' => String (lowerByte c) (probeLower s') end.

(** Go's functions on the text below: no dates, every address is public. *)
Definition sampleProbeLib : probeLib :=
  mkProbeLib probeLower id (λ a b, strEq (probeLower a) (probeLower b)) Some (λ _, false) (λ _, None).
Definition sampleProbeArgs : probeArgs :=
  mkProbeArgs sampleProbeLib (probeDefaults (mkProbeOptions 0 0 "15m0s" 0 "key" None None)) (λ _ _, "0123456789abcdef0123")
    (λ _, None) (λ _, inr "{}") (λ _, inr "{}") Some.

Definition probeTable {T} (idOf : T → string) (l : list T) : gmap string T := list_to_map ((λ v, (idOf v, v)) <$> l).

Definition googleBox : ProbeMailbox :=
  zero <| pm_ID := "m1" |> <| pm_Name := "google" |> <| pm_Address := "probe@example.com" |> <| pm_Host := "imap.example.com" |>
       <| pm_Enabled := true |> <| pm_AuthServID := "mx.google.com" |>.
Definition probedSender : Sender :=
  zero <| s_ID := "s1" |> <| s_TenantID := "acme" |> <| s_Name := "news" |> <| s_Health := HealthGreen |> <| s_Version := 4 |>.

(** A run that was missed, one whose mailbox could not be opened, and one that
    waits; then a run that was delivered. *)
Definition missedRun : ProbeRun :=
  zero <| pr_ID := "r2" |> <| pr_TenantID := "acme" |> <| pr_SenderID := "s1" |> <| pr_MailboxID := "m1" |>
       <| pr_Status := HealthYellow |> <| pr_Reason := "missed" |>.
Definition waitingRun : ProbeRun :=
  missedRun <| pr_ID := "r4" |> <| pr_Pending := true |> <| pr_Status := HealthUnknown |> <| pr_Reason := "" |>
            <| pr_StartedAt := Hour |>.
Definition probedRuns : list ProbeRun :=
  [missedRun <| pr_ID := "r1" |> <| pr_Status := HealthGreen |> <| pr_Delivered := true |>; missedRun;
   missedRun <| pr_ID := "r3" |> <| pr_Status := HealthUnknown |>; waitingRun].
Definition probedData : tenantData :=
  newTenantData <| probeMailboxes := probeTable pm_ID [googleBox] |> <| senders := probeTable s_ID [probedSender] |>
                <| probeRuns := probeTable pr_ID probedRuns |>.

(** A mailbox with one mail, the probe's, refused by DMARC. *)
Definition refusedMail : string :=
  Join (String (toByte 10) "")
    ["Authentication-Results: mx.google.com; spf=pass smtp.mailfrom=x; dkim=pass header.d=x; dmarc=fail";
     "Subject: [sendplane probe r4]"; "X-Sendplane-Probe: acme/r4/0123456789abcdef"; ""; "text"].
Definition refusingOpener : Opener := λ _, inr (λ _ _ _, inr [mkRawMessage "1" "INBOX" refusedMail 0]).
Definition emptyOpener : Opener := λ _, inr (λ _ _ _, inr []).

(** One that cannot be opened: the run is closed without a verdict. *)
Definition refusingLogin : Opener := λ _, inl (mkOpenError "auth" "login refused").

Lemma probe_verdict_evidence_witness :
  let p opener := CollectWith sampleProbeArgs id 5 opener (2 * Hour) in
  (∀ opener tr1 st tr2, steps tableEnv (p opener) probedData = tr1 ++ st :: tr2 →
     closesRight sampleProbeArgs opener (2 * Hour) (tr1.*1 ++ [st.1]) st.1 st.2) ∧
  pr_Status <$> probeRuns (run tableEnv (p refusingOpener) probedData).2 !! "r4" = Some HealthRed ∧
  s_Health <$> senders (run tableEnv (p refusingOpener) probedData).2 !! "s1" = Some HealthRed ∧
  pr_Status <$> probeRuns (run tableEnv (p refusingLogin) probedData).2 !! "r4" = Some HealthUnknown.
Proof.
  intros p. split; [|split_and!; vm_compute; reflexivity]. intros opener.
  apply (probe_verdict_evidence sampleProbeArgs id opener 5 (2 * Hour) probedData (steps tableEnv (p opener) probedData)
    (run tableEnv (p opener) probedData).1 (run tableEnv (p opener) probedData).2); [done|].
  apply (steps_exec_idle (λ _ _, True)). by apply Forall_true.
Defined.

Lemma probe_forged_header_ignored_witness :
  let f := mkField "Authentication-Results" "evil.example; spf=pass; dkim=pass; dmarc=pass" in
  let h := [mkField "Received" "from a by b"; mkField "Subject" "x"] in
  completedRun sampleProbeArgs waitingRun (mkEvidence (Some googleBox) (f :: h) "INBOX" 0 "") Hour None =
  completedRun sampleProbeArgs waitingRun (mkEvidence (Some googleBox) h "INBOX" 0 "") Hour None.
Proof.
  intros f h. apply (probe_forged_header_ignored sampleProbeArgs waitingRun (Some googleBox) [] f h).
  split_and!; [vm_compute; reflexivity..|]. intros _ ar Har. vm_compute in Har. injection Har as <-. vm_compute. reflexivity.
Defined.

Lemma probe_silence_streak_witness :
  pr_Status <$> probeRuns (run tableEnv (finishUndelivered sampleProbeArgs 5 waitingRun "x") probedData).2 !! "r4" = Some HealthRed.
Proof.
  destruct (probe_silence_streak sampleProbeArgs tableEnv 5 waitingRun "x" probedData waitingRun) as (missed&rest&row&Hs&_&Hr&Hrun&_&_&Hst);
    [reflexivity|by vm_compute|vm_compute; lia|vm_compute; reflexivity|].
  rewrite Hrun. cbn [snd].
  change (pr_Status <$> <["r4" := row]> (probeRuns probedData) !! "r4" = Some HealthRed). rewrite lookup_insert_eq. cbn. f_equal.
  rewrite Hst. apply (f_equal (λ l, pr_Delivered <$> head l)) in Hs. destruct missed as [|x missed].
  - change (Some false = pr_Delivered <$> head rest) in Hs. destruct (head rest) as [prev|]; [|discriminate Hs].
    cbn in Hs. rewrite (Hr prev eq_refl) in Hs. discriminate Hs.
  - change (po_ConsecutiveFailuresForRed (pg_opts sampleProbeArgs)) with 2. unfold len. cbn [length].
    by destruct (Z.leb_spec 2 (1 + Z.of_nat (S (length missed)))); [|lia].
Defined.

Lemma probedRuns_listed : rowsWhere (λ v, strEq (pr_SenderID v) "s1") (probeRuns probedData) = probedRuns.
Proof. vm_compute. reflexivity. Qed.

Lemma probedRuns_newest m r :
  newestOf (rowsWhere (λ v, strEq (pr_SenderID v) "s1") (probeRuns probedData)) m r → pr_Status r = HealthUnknown.
Proof.
  rewrite probedRuns_listed. intros (Hin&Hp&Hm&Hmax). specialize (Hmax _ (list_elem_of_lookup_2 probedRuns 2 _ eq_refl) eq_refl).
  apply list_elem_of_lookup_1 in Hin as [i Hi].
  destruct i as [|[|[|[|i]]]]; cbn in Hi; injection Hi as <- || discriminate Hi; subst m; try done; by specialize (Hmax eq_refl).
Qed.

Lemma sender_health_summary_witness :
  ∃ s' td', run tableEnv (RefreshSenderHealth sampleProbeArgs id 5 "s1" Hour) probedData = (inr tt, td') ∧
    senders td' !! "s1" = Some s' ∧ s_Health s' = HealthUnknown ∧
    (∃ id e, outbox td' !! id = Some e ∧ o_Type e = EventSenderHealthChanged).
Proof.
  destruct (sender_health_summary sampleProbeArgs id (λ l, Permutation_refl l) tableEnv 5 "s1" Hour probedData probedSender (λ _, "{}"))
    as (s'&td'&Hrun&Hs&_&_&_&(m&r&(Hin&Hp&Hm&Hmax)&Hst)&_&Hev);
    [reflexivity|by vm_compute|vm_compute; lia| |vm_compute; reflexivity|reflexivity|reflexivity| |].
  - split; [|intros k ????; done]. intros i v Hv%elem_of_list_to_map_2. apply list_elem_of_fmap in Hv as (x&[= -> ->]&_). done.
  - exists missedRun. rewrite probedRuns_listed. split; [exact (list_elem_of_lookup_2 probedRuns 1 _ eq_refl)|reflexivity].
  - pose proof (probedRuns_newest m r (conj Hin (conj Hp (conj Hm Hmax)))) as Hr.
    assert (Hu : s_Health s' = HealthUnknown) by (rewrite <- Hst; exact Hr).
    exists s', td'. rewrite Hs, lookup_insert_eq. split_and!; [done..|]. destruct Hev as (id&e&?&?&_); [by rewrite Hu|eauto].
Defined.

Lemma probe_run_has_mail_witness :
  let ids := λ i : nat, "n" +:+ pretty i in
  let p := Trigger sampleProbeArgs 5 ids Hour Hour "s1" in
  Forall (λ s, addsMailed sampleProbeArgs s.1 s.2) (steps tableEnv p probedData) ∧
  pr_Pending <$> probeRuns (run tableEnv p probedData).2 !! "n2" = Some true ∧
  d_Lane <$> deliveries (run tableEnv p probedData).2 !! "n3" = Some LaneProbe.
Proof.
  intros ids p. split; [|split; vm_compute; reflexivity].
  apply (probe_run_has_mail sampleProbeArgs 5 ids Hour Hour "s1" probedData _ (run tableEnv p probedData).1 (run tableEnv p probedData).2).
  - done.
  - apply (steps_exec_idle keepsMail). apply Forall_true. intros s id d Hd. eauto.
Defined.

(** ** What the probe does not see *)

(** A mail without a token is the probe's if its subject names the run,
    whatever key signs the tokens. *)
Lemma unsigned_mail_accepted A tenantID runID msg msgs :
  HGet (pg_lib A) (ParseHeaders (rm_Raw msg)) ProbeHeader = "" →
  strContains (HGet (pg_lib A) (ParseHeaders (rm_Raw msg)) "Subject") runID = true →
  findIn A tenantID runID (msg :: msgs) = Some msg.
Proof. intros Ht Hs. cbn [findIn]. by rewrite Ht, Hs. Qed.

(** A mailbox that opens and then refuses the search, past the timeout: the run
    counts as undelivered, the second in a row, and the sender is red. *)
Definition refusedSearch : Opener := λ _, inr (λ _ _ _, inl (errNamed "SEARCH failed")).
Lemma failing_search_turns_red :
  let '(r, td) := run tableEnv (CollectWith sampleProbeArgs id 5 refusedSearch (2 * Hour)) probedData in
  r = inl (errNamed "SEARCH failed") ∧
  pr_Status <$> probeRuns td !! "r4" = Some HealthRed ∧ s_Health <$> senders td !! "s1" = Some HealthRed.
Proof. vm_compute. by split_and!. Qed.

(** Without a key, the token of a tenant with a slash in its ID names another
    tenant and no run of it. *)
Definition unsignedArgs : probeArgs :=
  mkProbeArgs sampleProbeLib (mkProbeOptions 0 0 "" 0 "" None None) (λ _ _, "") (λ _, None) (λ _, inr "") (λ _, inr "") Some.
Lemma unsigned_slash_tenant_misparsed :
  ParseToken (Token unsignedArgs "eu/acme" "r1") = Some ("eu", "acme").
Proof. vm_compute. reflexivity. Qed.
