(* ===== verification/TenantLoops.v ===== *)
(** * Ticking the tenants of a loop ([internal/control/loops.go])

    The leader runs each registered loop on its own goroutine: a round lists
    the tenants that have work, ticks the loop's instance of each, opening it
    on first use, and drops the instances of tenants that went quiet.  The
    instances and the grace counters belong to the goroutine; the listing of
    all tenants is a cache the goroutines share ([Leader.knownTenants]).  The
    loops themselves are [CampaignLoops], [Maintenance] and [OutboxDispatch];
    here a loop is what its interface [TickLoop] says. *)

From S2P Require Import Prelude Enums Model MemTable MemData Repos Provider Prog.

(** ** State *)

(** What the rounds share: the provider and the cached listing. *)
Record leaderWorld := mkLeaderWorld {
  ld_store : Provider;
  ld_known : list string;
  ld_knownAt : Time;
  ld_knownErr : option error;
}.
#[global] Instance leaderWorld_eta : Eta leaderWorld := λ w,
  mkLeaderWorld (ld_store w) (ld_known w) (ld_knownAt w) (ld_knownErr w).

(** [loopSpec], less the names and the interval; [lp_newTenant] builds the
    instance of a tenant and [lp_Tick] is its [Tick], with the error it returns
    and the instance it leaves. *)
Record loopSpec (I : Type) := mkLoopSpec {
  lp_newTenant : string → I;
  lp_Tick : I → Time → progOn leaderWorld (option error * I);
  lp_linger : Z;
  lp_allTenants : bool;
  lp_includeSystem : bool;
}.
Arguments mkLoopSpec {I} _ _ _ _ _.
Arguments lp_newTenant {I} _ _.
Arguments lp_Tick {I} _ _ _.
Arguments lp_linger {I} _.
Arguments lp_allTenants {I} _.
Arguments lp_includeSystem {I} _.

(** [tenantSet] *)
Record tenantSet (I : Type) := mkTenantSet {
  st_loops : gmap string I;
  st_linger : gmap string Z;
}.
Arguments mkTenantSet {I} _ _.
Arguments st_loops {I} _.
Arguments st_linger {I} _.
#[global] Instance tenantSet_eta {I} : Eta (tenantSet I) := λ s, mkTenantSet (st_loops s) (st_linger s).

Definition newTenantSet {I} : tenantSet I := mkTenantSet ∅ ∅.

(** What a round did: the state it leaves, the tenants it ticked in order, the
    tenants it listed as active, and whether it ran to its end. *)
Record roundResult (I : Type) := mkRoundResult {
  rr_set : tenantSet I;
  rr_active : list string;
  rr_ticked : list string;
  rr_complete : bool;
}.
Arguments mkRoundResult {I} _ _ _ _.
Arguments rr_set {I} _.
Arguments rr_active {I} _.
Arguments rr_ticked {I} _.
Arguments rr_complete {I} _.

(** ** Steps *)

Definition leaderCall {A} (op : Env → M Provider A) : progOn leaderWorld A :=
  call (λ env w, let '(r, s) := op env (ld_store w) in (r, w <| ld_store := s |>)).

(** [l.now()] *)
Definition leaderNow : progOn leaderWorld Time := call (λ env w, (inr (TruncateTime (e_clock env)), w)).

(** [Leader.knownTenants], under its mutex: the listing of the last refresh and
    the error of it. *)
Definition knownTenants (refresh : Duration) : progOn leaderWorld (list string * option error) :=
  call (λ env w,
    let now := e_clock env in
    if negb (IsZero (ld_knownAt w)) && (subTime now (ld_knownAt w) <? refresh)
    then (inr (ld_known w, ld_knownErr w), w)
    else
      match Tenants (ld_store w) with
      | (inl e, s) =>
          (inr (ld_known w, Some e), w <| ld_store := s |> <| ld_knownAt := now |> <| ld_knownErr := Some e |>)
      | (inr ids, s) =>
          (inr (ids, None),
           w <| ld_store := s |> <| ld_knownAt := now |> <| ld_knownErr := None |> <| ld_known := ids |>)
      end).

Section round.
Context {I : Type} (spec : loopSpec I) (refresh : Duration).

(** [set.linger[tenantID] = spec.linger] for the active tenants *)
Definition grant (active : list string) (set : tenantSet I) : tenantSet I :=
  if 0 <? lp_linger spec
  then set <| st_linger := foldl (λ m id, <[id := lp_linger spec]> m) (st_linger set) active |> else set.

(** The walk over [ids]; the flag is whether it reached the end.  A tenant
    whose store does not open is left out, and an error of [Tick] is logged. *)
Fixpoint tickEach (now : Time) (ids : list string) (set : tenantSet I) (ticked : list string)
    : progOn leaderWorld (tenantSet I * list string * bool) :=
  match ids with
  | [] => pret (set, ticked, true)
  | id :: ids' =>
      let tickOne (i : I) (set : tenantSet I) :=
        handle (lp_Tick spec i now) (λ r,
          let i := match r with inl _ => i | inr (_, i') => i' end in
          tickEach now ids' (set <| st_loops := <[id := i]> (st_loops set) |>) (ticked ++ [id])) in
      Poll (λ done,
        if done then pret (set, ticked, false)
        else
          match st_loops set !! id with
          | Some i => tickOne i set
          | None =>
              handle (leaderCall (λ _, ForTenant id)) (λ r,
                match r with
                | inl _ => tickEach now ids' set ticked
                | inr _ =>
                    let i := lp_newTenant spec id in
                    tickOne i (set <| st_loops := <[id := i]> (st_loops set) |>)
                end)
          end)
  end.

(** One tenant of the clean-up that ends a round. *)
Definition dropQuiet (live : gset string) (set : tenantSet I) (id : string) : tenantSet I :=
  if bool_decide (id ∈ live) then set
  else
    let left := default 0 (st_linger set !! id) in
    if 1 <? left then set <| st_linger := <[id := left - 1]> (st_linger set) |>
    else set <| st_linger := delete id (st_linger set) |> <| st_loops := delete id (st_loops set) |>.

(** [Leader.tickTenants] *)
Definition tickTenants (set : tenantSet I) : progOn leaderWorld (roundResult I) :=
  handle (leaderCall (λ _, ActiveTenants)) (λ r,
    match r with
    | inl _ => pret (mkRoundResult set [] [] false)
    | inr tenants =>
        let set := grant tenants set in
        let live : gset string := list_to_set tenants ∪ if lp_includeSystem spec then {[SystemTenantID]} else ∅ in
        let? live :=
          if lp_allTenants spec
          then (let? known := knownTenants refresh in
                pret (live ∪ (list_to_set (filter (λ id, id ≠ SystemTenantID) known.1))))
          else pret live in
        let ids := sortStrings (elements (live ∪ dom (st_linger set))) in
        let? now := leaderNow in
        let? res := tickEach now ids set [] in
        let '(set, ticked, complete) := res in
        if (complete : bool)
        then pret (mkRoundResult (foldl (dropQuiet live) set (map_to_list (st_loops set)).*1) tenants ticked true)
        else pret (mkRoundResult set tenants ticked false)
    end).
End round.
