(* ===== verification/TenantLoopsProps.v ===== *)
(** * Which tenants a loop ticks, and for how long

    A round ticks every tenant it lists exactly once, whatever the ticks of the
    others do; a tenant that went quiet is ticked for exactly the grace rounds
    of its loop, and then its state is dropped. *)

From S2P Require Import Prelude Enums Model MemTable MemData Repos Provider Prog TenantLoops.

Section rounds.
Context {I : Type} (spec : loopSpec I) (refresh : Duration).

(** ** One round *)

(** What the walk of a round leaves when it reaches the end. *)
Record walked (ids : list string) (set set' : tenantSet I) (ticked : list string) : Prop := {
  wk_linger : st_linger set' = st_linger set;
  wk_keeps id : is_Some (st_loops set !! id) → is_Some (st_loops set' !! id);
  wk_new id : is_Some (st_loops set' !! id) → is_Some (st_loops set !! id) ∨ id ∈ ids;
  wk_ticked id : id ∈ ticked ↔ id ∈ ids ∧ is_Some (st_loops set' !! id);
  wk_order : ticked `sublist_of` ids;
}.

Lemma walked_tick id i ids set set1 set' ticked :
  st_linger set1 = st_linger set → (∀ x, is_Some (st_loops set1 !! x) ↔ is_Some (st_loops set !! x) ∨ x = id) →
  walked ids (set1 <| st_loops := <[id := i]> (st_loops set1) |>) set' ticked → walked (id :: ids) set set' (id :: ticked).
Proof.
  intros Hl H1 [Wl Wk Wn Wt Wo]. cbn in *.
  assert (Hins : ∀ x, is_Some (<[id := i]> (st_loops set1) !! x) ↔ is_Some (st_loops set !! x) ∨ x = id).
  { intros x. rewrite lookup_insert_is_Some, H1. destruct (decide (id = x)); naive_solver. }
  split; [congruence| | | |by constructor].
  - intros x Hx. apply Wk, Hins. by left.
  - intros x Hx. destruct (Wn x Hx) as [[?| ->]%Hins|?]; [by left|right; by left|right; by right].
  - intros x. rewrite !elem_of_cons, Wt. split; [|naive_solver]. intros [->|?]; [|naive_solver].
    split; [by left|]. apply Wk, Hins. by right.
Qed.

Lemma walked_skip id ids set set' ticked :
  id ∉ ids → st_loops set !! id = None → walked ids set set' ticked → walked (id :: ids) set set' ticked.
Proof.
  intros Hid Hn [Wl Wk Wn Wt Wo]. split; [done..| | |by constructor].
  - intros x Hx. destruct (Wn x Hx); [by left|right; by right].
  - intros x. rewrite elem_of_cons, Wt. split; [naive_solver|]. intros [[->|?] Hx]; [|done].
    destruct (Wn id Hx) as [H|?]; [|done]. rewrite Hn in H. by destruct H.
Qed.

Abbreviation anyhow p Q := (wp (λ _ _, True) (λ _ _, True) p Q).

Lemma wp_any {A} (p : progOn leaderWorld A) (Q : error + A → leaderWorld → Prop) w : (∀ r w', Q r w') → anyhow p Q w.
Proof.
  intros HQ. revert w. induction p as [r|B op k IH|k IH]; intros w; cbn [wp]; [apply HQ| |intros c; apply IH].
  intros env w0 _. destruct (op env w0) as [r w1]. split; [done|apply IH].
Qed.

Definition walkEnd (ids : list string) (set : tenantSet I) (acc : list string)
    (r : error + tenantSet I * list string * bool) : Prop :=
  ∃ set' ticked, r = inr (set', acc ++ ticked, true) ∧ walked ids set set' ticked ∨ r = inr (set', ticked, false).

Lemma tickEach_walked now ids set acc w :
  NoDup ids → anyhow (tickEach spec now ids set acc) (λ r _, walkEnd ids set acc r) w.
Proof.
  revert set acc w. induction ids as [|id ids IH]; intros set acc w Hnd; cbn [tickEach].
  { exists set, []. left. rewrite app_nil_r. split; [done|]. split; try done; [by left|]. set_solver. }
  apply NoDup_cons in Hnd as [Hid Hnd].
  assert (Htick : ∀ i set1 w, st_linger set1 = st_linger set →
    (∀ x, is_Some (st_loops set1 !! x) ↔ is_Some (st_loops set !! x) ∨ x = id) →
    anyhow (handle (lp_Tick spec i now) (λ r,
      let i := match r with inl _ => i | inr (_, i') => i' end in
      tickEach spec now ids (set1 <| st_loops := <[id := i]> (st_loops set1) |>) (acc ++ [id])))
      (λ r _, walkEnd (id :: ids) set acc r) w).
  { intros i set1 w1 Hl1 H1. apply wp_handle, wp_any. intros r w2. eapply wp_mono; [|by apply IH].
    intros r2 w3 (set'&ticked&[[-> HW]| ->]); [|by exists set', ticked; right].
    exists set', (id :: ticked). left. rewrite <-app_assoc. split; [done|]. by eapply walked_tick. }
  intros []; [by exists set, acc; right|]. destruct (st_loops set !! id) as [i|] eqn:Hi.
  - apply Htick; [done|]. intros x. split; [by left|]. intros [?| ->]; [done|by rewrite Hi].
  - apply wp_handle, wp_any. intros [e|u] w2.
    + eapply wp_mono; [|by apply IH]. intros r w3 (set'&ticked&[[-> HW]| ->]); [|by exists set', ticked; right].
      exists set', ticked. left. split; [done|]. by apply walked_skip.
    + apply Htick; [done|]. intros x. cbn. rewrite lookup_insert_is_Some. destruct (decide (id = x)); naive_solver.
Qed.
(** ** Granting and dropping *)

(** The grace left to a tenant once the active ones are granted theirs. *)
Definition graceLeft (active : list string) (set : tenantSet I) (t : string) : option Z :=
  if decide (0 < lp_linger spec ∧ t ∈ active) then Some (lp_linger spec) else st_linger set !! t.

Lemma grant_linger active set t : st_linger (grant spec active set) !! t = graceLeft active set t.
Proof.
  unfold grant, graceLeft. destruct (0 <? lp_linger spec) eqn:E; to_prop; [|by rewrite decide_False by lia]. cbn.
  generalize (st_linger set) as m. induction active as [|a active IH]; intros m; cbn [foldl].
  - rewrite decide_False; [done|]. intros [_ Hin]. by apply not_elem_of_nil in Hin.
  - rewrite IH. destruct (decide (0 < lp_linger spec ∧ t ∈ active)) as [[_ Hin]|Hnin].
    + rewrite decide_True; [done|]. split; [done|by right].
    + destruct (decide (t = a)) as [->|Hne].
      * rewrite lookup_insert_eq, decide_True; [done|]. split; [done|by left].
      * rewrite lookup_insert_ne by done. rewrite decide_False; [done|]. intros [? [?|?]%elem_of_cons]; naive_solver.
Qed.

Lemma grant_loops active set : st_loops (grant spec active set) = st_loops set.
Proof. unfold grant. by destruct (0 <? _). Qed.

(** A tenant's instance and grace after the clean-up visited it. *)
Definition dropped (live : gset string) (t : string) (left : option Z) : option Z :=
  if decide (t ∈ live) then left else if 1 <? default 0 left then Some (default 0 left - 1) else None.
Definition survives (live : gset string) (t : string) (left : option Z) : Prop := t ∈ live ∨ 1 < default 0 left.

Lemma dropQuiet_ne live (set : tenantSet I) id t :
  t ≠ id → st_linger (dropQuiet live set id) !! t = st_linger set !! t ∧ st_loops (dropQuiet live set id) !! t = st_loops set !! t.
Proof.
  intros Hne. unfold dropQuiet. case_bool_decide; [done|]. destruct (1 <? _); cbn.
  - by rewrite lookup_insert_ne.
  - by rewrite !lookup_delete_ne.
Qed.

Lemma dropQuiet_eq live (set : tenantSet I) t :
  st_linger (dropQuiet live set t) !! t = dropped live t (st_linger set !! t) ∧
  (is_Some (st_loops (dropQuiet live set t) !! t) ↔ is_Some (st_loops set !! t) ∧ survives live t (st_linger set !! t)).
Proof.
  unfold dropQuiet, dropped, survives. case_bool_decide.
  - rewrite decide_True by done. naive_solver.
  - rewrite decide_False by done. destruct (1 <? _) eqn:E; to_prop; cbn.
    + rewrite lookup_insert_eq. naive_solver.
    + rewrite !lookup_delete_eq. split; [done|]. split; [by intros []|]. intros [_ [?|?]]; [done|lia].
Qed.

Lemma foldl_dropQuiet live l (set : tenantSet I) t :
  NoDup l →
  let set' := foldl (dropQuiet live) set l in
  (t ∉ l → st_linger set' !! t = st_linger set !! t ∧ st_loops set' !! t = st_loops set !! t) ∧
  (t ∈ l → st_linger set' !! t = dropped live t (st_linger set !! t) ∧
    (is_Some (st_loops set' !! t) ↔ is_Some (st_loops set !! t) ∧ survives live t (st_linger set !! t))).
Proof.
  revert set. induction l as [|id l IH]; intros set Hnd; cbn [foldl].
  { split; [done|]. by intros ?%not_elem_of_nil. }
  apply NoDup_cons in Hnd as [Hid Hnd]. destruct (IH (dropQuiet live set id) Hnd) as [IHn IHi]. split.
  - intros [Hne Hn]%not_elem_of_cons. destruct (IHn Hn) as [-> ->]. by apply dropQuiet_ne.
  - intros [->|Hin]%elem_of_cons.
    + destruct (IHn Hid) as [-> ->]. apply dropQuiet_eq.
    + destruct (dropQuiet_ne live set id t) as [E1 E2]; [set_solver|]. rewrite <-E1, <-E2. by apply IHi.
Qed.

(** ** What a complete round does

    [live] are the tenants it ticks now, [opened] those that have an instance
    when the ticks are over. *)
Record roundOk (set : tenantSet I) (out : roundResult I) (live opened : gset string) : Prop := {
  ro_active t : t ∈ rr_active out → t ∈ live;
  ro_live t : lp_allTenants spec = false → lp_includeSystem spec = false → t ∈ live → t ∈ rr_active out;
  ro_once : NoDup (rr_ticked out);
  ro_kept t : is_Some (st_loops set !! t) → t ∈ opened;
  ro_opened t : t ∈ opened → is_Some (st_loops set !! t) ∨ t ∈ live ∨ is_Some (graceLeft (rr_active out) set t);
  ro_ticked t : t ∈ rr_ticked out ↔ t ∈ opened ∧ (t ∈ live ∨ is_Some (graceLeft (rr_active out) set t));
  ro_grace t : st_linger (rr_set out) !! t =
    if decide (t ∈ opened) then dropped live t (graceLeft (rr_active out) set t) else graceLeft (rr_active out) set t;
  ro_instance t : is_Some (st_loops (rr_set out) !! t) ↔
    t ∈ opened ∧ survives live t (graceLeft (rr_active out) set t);
}.

Lemma walked_round set active live set' ticked :
  (∀ t, t ∈ active → t ∈ live) →
  (∀ t, lp_allTenants spec = false → lp_includeSystem spec = false → t ∈ live → t ∈ active) →
  walked (sortStrings (elements (live ∪ dom (st_linger (grant spec active set))))) (grant spec active set) set' ticked →
  roundOk set (mkRoundResult (foldl (dropQuiet live) set' (map_to_list (st_loops set')).*1) active ticked true)
    live (dom (st_loops set')).
Proof.
  intros Ha Hl [Wl Wk Wn Wt Wo].
  assert (Hids : ∀ t, t ∈ sortStrings (elements (live ∪ dom (st_linger (grant spec active set)))) ↔
    t ∈ live ∨ is_Some (graceLeft active set t)).
  { intros t. rewrite elem_of_sortStrings, elem_of_elements, elem_of_union, elem_of_dom. by rewrite grant_linger. }
  assert (Hdom : ∀ t, t ∈ (map_to_list (st_loops set')).*1 ↔ t ∈ dom (st_loops set')).
  { intros t. rewrite list_elem_of_fmap, elem_of_dom. split.
    - intros ([k v]&->&Hkv%elem_of_map_to_list). by exists v.
    - intros [v Hv]. exists (t, v). split; [done|]. by apply elem_of_map_to_list. }
  rewrite grant_loops in Wk, Wn.
  split; cbn [rr_active rr_ticked rr_set]; [done..| | | | | |].
  - eapply sublist_NoDup; [|exact Wo]. apply NoDup_sortStrings, NoDup_elements.
  - intros t Ht. by apply elem_of_dom, Wk.
  - intros t Ht%elem_of_dom. destruct (Wn t Ht) as [?|?%Hids]; [by left|by right].
  - intros t. rewrite Wt, Hids, elem_of_dom. naive_solver.
  - intros t. destruct (foldl_dropQuiet live (map_to_list (st_loops set')).*1 set' t) as [Hn Hi]; [apply NoDup_fst_map_to_list|].
    rewrite <-grant_linger, <-Wl. case_decide as Hd; [by apply Hi, Hdom|]. apply Hn. by rewrite Hdom.
  - intros t. destruct (foldl_dropQuiet live (map_to_list (st_loops set')).*1 set' t) as [Hn Hi]; [apply NoDup_fst_map_to_list|].
    rewrite <-grant_linger, <-Wl. destruct (decide (t ∈ dom (st_loops set'))) as [Hd|Hd].
    + destruct Hi as [_ ->]; [by apply Hdom|]. by rewrite elem_of_dom.
    + destruct Hn as [_ ->]; [by rewrite Hdom|]. rewrite elem_of_dom in *. naive_solver.
Qed.
Lemma wp_knownTenants w : anyhow (knownTenants refresh) (λ r _, ∃ known, r = inr known) w.
Proof.
  apply wp_call. intros env w0 _. split; [done|]. cbv zeta. destruct (_ && _); [by eexists|].
  destruct (Tenants _) as [[e|ids] s]; by eexists.
Qed.

Lemma tickTenants_round set w :
  anyhow (tickTenants spec refresh set)
    (λ r _, ∃ out, r = inr out ∧ (rr_complete out = true → ∃ live opened, roundOk set out live opened)) w.
Proof.
  apply wp_handle, wp_any. intros [e|active] w1; [by eexists|].
  apply wp_pbind.
  apply (wp_mono _ _ _ (λ r _, ∃ live : gset string, r = inr live ∧ (∀ t, t ∈ active → t ∈ live) ∧
    (∀ t, lp_allTenants spec = false → lp_includeSystem spec = false → t ∈ live → t ∈ active))).
  - intros r w2 (live&->&Ha&Hl). apply wp_pbind, wp_call. intros env w3 _. split; [done|]. cbn [fst].
    apply wp_pbind. eapply wp_mono; [|apply tickEach_walked, NoDup_sortStrings, NoDup_elements].
    intros r w4 (set'&ticked&[[-> HW]| ->]); [|by eexists]. eexists. split; [done|]. intros _.
    eexists _, _. by eapply walked_round.
  - destruct (lp_allTenants spec) eqn:Hall.
    + apply wp_pbind. eapply wp_mono; [|apply wp_knownTenants]. intros r w2 [known ->].
      eexists. split; [done|]. split; [set_solver|done].
    + eexists. split; [done|]. split; [set_solver|]. intros t _ ->. set_solver.
Qed.

(** ** Rounds in sequence *)

(** The results of consecutive rounds, each with any interference. *)
Inductive rounds : tenantSet I → list (roundResult I) → Prop :=
  | rounds_nil set : rounds set []
  | rounds_cons set w tr out w' outs :
      exec (λ _ _, True) (tickTenants spec refresh set) w tr (inr out) w' →
      rounds (rr_set out) outs → rounds set (out :: outs).

Lemma rounds_inv set out outs :
  rounds set (out :: outs) →
  (rr_complete out = true → ∃ live opened, roundOk set out live opened) ∧ rounds (rr_set out) outs.
Proof.
  intros H. inversion H as [|? w tr ? w' ? He Hr]; subst. split; [|done].
  destruct (wp_sound _ _ _ _ _ _ _ _ (tickTenants_round set w) He) as [_ (o&[= <-]&Ho)]. done.
Qed.

(** A tenant with [n] grace rounds left. *)
Definition grace (t : string) (n : Z) (set : tenantSet I) : Prop :=
  (0 < n → is_Some (st_loops set !! t)) ∧ st_linger set !! t = if decide (0 < n) then Some n else None.

(** A quiet round uses one up. *)
Lemma grace_step t n set out live opened :
  lp_allTenants spec = false → lp_includeSystem spec = false →
  roundOk set out live opened → t ∉ rr_active out → 0 ≤ n → grace t n set →
  (t ∈ rr_ticked out ↔ 0 < n) ∧ (is_Some (st_loops (rr_set out) !! t) ↔ 1 < n) ∧
  grace t (Z.max 0 (n - 1)) (rr_set out).
Proof.
  intros Hall Hsys Hok Hq Hn [Hinst Hleft].
  assert (Hlive : t ∉ live) by (intros ?; by eapply Hq, ro_live).
  assert (Hg : graceLeft (rr_active out) set t = if decide (0 < n) then Some n else None).
  { unfold graceLeft. rewrite decide_False by naive_solver. done. }
  assert (Ho : 0 < n → t ∈ opened) by (intros ?; by eapply ro_kept, Hinst).
  assert (Hi : is_Some (st_loops (rr_set out) !! t) ↔ 1 < n).
  { rewrite (ro_instance _ _ _ _ Hok), Hg. unfold survives. destruct (decide (0 < n)); cbn; split.
    - by intros [_ [?|?]].
    - intros ?. split; [by apply Ho|by right].
    - by intros [_ [?|?]].
    - lia. }
  split_and!; [|done|split; [rewrite Hi; lia|]].
  - rewrite (ro_ticked _ _ _ _ Hok), Hg. destruct (decide (0 < n)); [naive_solver|]. split; [|done]. by intros [_ [?|[]]].
  - rewrite (ro_grace _ _ _ _ Hok), Hg. unfold dropped. rewrite (decide_False (P := t ∈ live)) by done.
    destruct (decide (0 < n)); cbn [default].
    + rewrite decide_True by auto. cbn. destruct (1 <? n) eqn:E; to_prop; case_decide; try lia; [|done]. f_equal. lia.
    + rewrite (decide_False (P := 0 < _)) by lia. by case_decide.
Qed.

(** An active round grants the grace in full. *)
Lemma grace_granted t set out live opened :
  roundOk set out live opened → 0 ≤ lp_linger spec → 0 < lp_linger spec ∨ st_linger set !! t = None →
  t ∈ rr_active out → t ∈ rr_ticked out → grace t (lp_linger spec) (rr_set out).
Proof.
  intros Hok HL Hnone Ha Ht. apply (ro_ticked _ _ _ _ Hok) in Ht as [Ho _]. pose proof (ro_active _ _ _ _ Hok t Ha) as Hl.
  split; [intros _; apply (ro_instance _ _ _ _ Hok); split; [done|by left]|].
  rewrite (ro_grace _ _ _ _ Hok), decide_True by done. unfold dropped. rewrite decide_True by done.
  unfold graceLeft. destruct (decide (0 < lp_linger spec)).
  - by rewrite decide_True.
  - rewrite decide_False by naive_solver. by destruct Hnone.
Qed.

Lemma grace_rounds t n set quiet k out :
  lp_allTenants spec = false → lp_includeSystem spec = false → 0 ≤ n → grace t n set →
  rounds set quiet → Forall (λ out, rr_complete out = true ∧ t ∉ rr_active out) quiet → quiet !! k = Some out →
  (t ∈ rr_ticked out ↔ Z.of_nat k < n) ∧ (is_Some (st_loops (rr_set out) !! t) ↔ Z.of_nat k + 1 < n).
Proof.
  intros Hall Hsys. revert n set k. induction quiet as [|o quiet IH]; intros n set k Hn Hg Hr Hq Hk; [done|].
  apply rounds_inv in Hr as [Hok Hr]. apply Forall_cons in Hq as [[Hc Hqa] Hq]. destruct (Hok Hc) as (live&opened&Ho).
  destruct (grace_step t n set o live opened) as (Ht&Hi&Hg'); [done..|]. destruct k as [|k]; simplify_eq/=.
  - rewrite Ht, Hi. lia.
  - destruct (IH (Z.max 0 (n - 1)) (rr_set o) k) as [-> ->]; [lia|done..|]. lia.
Qed.
End rounds.

(** In every sequence of rounds of a leader loop,
    whatever the store's other users and the ticks of the other tenants do: a
    complete round ticks no tenant twice and ticks every active tenant whose
    store could be opened; and a tenant that was ticked as active and is then
    quiet is ticked in exactly the next [linger] rounds (three for the outbox
    dispatcher, none for the loops without grace), its instance being dropped
    by the last of them. *)
Theorem quiet_tenant_rounds {I} (spec : loopSpec I) refresh t set out0 quiet :
  rounds spec refresh set (out0 :: quiet) →
  rr_complete out0 = true →
  (NoDup (rr_ticked out0) ∧
   ∀ u, u ∈ rr_active out0 → u ∈ rr_ticked out0 ∨ st_loops (rr_set out0) !! u = None) ∧
  (lp_allTenants spec = false → lp_includeSystem spec = false → 0 ≤ lp_linger spec →
   0 < lp_linger spec ∨ st_linger set !! t = None →
   t ∈ rr_active out0 → t ∈ rr_ticked out0 →
   Forall (λ out, rr_complete out = true ∧ t ∉ rr_active out) quiet →
   ∀ k out, quiet !! k = Some out →
     (t ∈ rr_ticked out ↔ Z.of_nat k < lp_linger spec) ∧
     (is_Some (st_loops (rr_set out) !! t) ↔ Z.of_nat k + 1 < lp_linger spec)).
Proof.
  intros Hr Hc. apply rounds_inv in Hr as [Hok Hr]. destruct (Hok Hc) as (live&opened&Ho). split.
  - split; [by eapply ro_once|]. intros u Hu. pose proof (ro_active _ _ _ _ _ Ho u Hu) as Hl.
    destruct (st_loops (rr_set out0) !! u) eqn:E; [left|by right]. apply (ro_ticked _ _ _ _ _ Ho). split; [|by left].
    by apply (ro_instance _ _ _ _ _ Ho u).
  - intros Hall Hsys HL Hnone Ha Ht Hq k out Hk. eapply grace_rounds; [done..| |done|done|done]. by eapply grace_granted.
Qed.

(** ** A loop at work *)

(** A loop that counts its ticks and fails each time, with one grace round. *)
Definition countingLoop : loopSpec nat :=
  mkLoopSpec (λ _, 0%nat) (λ n _, pret (Some (errNamed "tick failed"), S n)) 1 false false.

Definition roundEnv : Env := mkEnv false Hour "" (λ _, "x").
Definition busyWorld : leaderWorld :=
  mkLeaderWorld (mkProvider false {["acme" := newTenantData <| campaigns := {["c1" := zero <| c_Status := CampaignRunning |>]} |>]})
    [] zeroTime None.
Definition idleWorld : leaderWorld := mkLeaderWorld (mkProvider false {["acme" := newTenantData]}) [] zeroTime None.

Definition roundOf (w : leaderWorld) (set : tenantSet nat) : roundResult nat :=
  match (run roundEnv (tickTenants countingLoop Minute set) w).1 with
  | inr out => out
  | inl _ => mkRoundResult set [] [] false
  end.

Lemma roundOf_exec w set outs :
  (run roundEnv (tickTenants countingLoop Minute set) w).1 = inr (roundOf w set) →
  rounds countingLoop Minute (rr_set (roundOf w set)) outs → rounds countingLoop Minute set (roundOf w set :: outs).
Proof.
  intros Hr Ho. destruct (run_exec (λ _ _, True) roundEnv (tickTenants countingLoop Minute set) w) as [tr He]; [done|].
  rewrite Hr in He. by eapply rounds_cons.
Qed.

Definition round0 : roundResult nat := Eval vm_compute in roundOf busyWorld newTenantSet.
Definition round1 : roundResult nat := Eval vm_compute in roundOf idleWorld (rr_set round0).
Definition round2 : roundResult nat := Eval vm_compute in roundOf idleWorld (rr_set round1).

Lemma quiet_tenant_rounds_witness :
  rr_ticked round0 = ["acme"] ∧ "acme" ∈ rr_ticked round1 ∧ "acme" ∉ rr_ticked round2 ∧ st_loops (rr_set round1) !! "acme" = None.
Proof.
  assert (Hr : rounds countingLoop Minute newTenantSet [round0; round1; round2]).
  { apply (roundOf_exec busyWorld newTenantSet); [vm_compute; reflexivity|].
    apply (roundOf_exec idleWorld (rr_set round0)); [vm_compute; reflexivity|].
    apply (roundOf_exec idleWorld (rr_set round1)); [vm_compute; reflexivity|]. constructor. }
  destruct (quiet_tenant_rounds countingLoop Minute "acme" newTenantSet round0 [round1; round2] Hr eq_refl) as [_ Hq].
  specialize (Hq eq_refl eq_refl ltac:(done) (or_introl eq_refl) ltac:(by left) ltac:(by left)
    ltac:(repeat constructor; by intros ?%not_elem_of_nil)).
  destruct (Hq 0%nat round1 eq_refl) as [[_ H1] _]. destruct (Hq 1%nat round2 eq_refl) as [[H2 _] _].
  split_and!; [reflexivity|by apply H1| |vm_compute; reflexivity]. intros Hin. by apply H2 in Hin.
Defined.
