(* ===== verification/Leader.v ===== *)
(** * Electing the leader ([internal/control/leader.go])

    Every control replica runs [Leader.Run]: it tries to take the lease of the
    system tenant's lock, runs the loops while it renews the lease, stops them
    when a renewal fails or the process shuts down, and releases the lock.  The
    replicas are a state machine over the shared store and a common clock; each
    call of the store is a step, and so is each reading of the clock, since any
    time may pass between reading it and the call that uses it. *)

From S2P Require Import Prelude Enums Model MemTable MemData Repos Provider.

Definition LeaderLockName : string := "control-leader".

(** Where a replica is in [Run], [attempt] and [hold]. *)
Inductive leaderPhase :=
  (** between two attempts *)
  | Waiting
  (** the store is open and [l.now()] was read for [Acquire] *)
  | Acquiring (at_ : Time)
  (** granted, the loops not yet started *)
  | Starting
  (** the loops run *)
  | Leading
  (** the loops run, [l.now()] was read for [Renew] *)
  | Renewing (at_ : Time)
  (** [stopLoops] called or about to be, the loops not yet done *)
  | Stopping
  (** the loops are done *)
  | Releasing.

(** Whether its loops may be running. *)
Definition running (p : leaderPhase) : bool :=
  match p with Leading | Renewing _ | Stopping => true | _ => false end.

(** The replicas by the owner name of their lock calls.  [el_lease] is what the
    lock granted each until when, less what it released; the code does not
    keep it. *)
Record electState := mkElectState {
  el_store : Provider;
  el_now : Time;
  el_phase : gmap string leaderPhase;
  el_lease : gmap string Time;
}.
#[global] Instance electState_eta : Eta electState := λ s,
  mkElectState (el_store s) (el_now s) (el_phase s) (el_lease s).

Definition phaseOf (s : electState) (o : string) : leaderPhase := default Waiting (el_phase s !! o).
Definition setPhase (o : string) (p : leaderPhase) (s : electState) : electState :=
  s <| el_phase := <[o := p]> (el_phase s) |>.

(** A call of the lock repository of the system tenant. *)
Definition lockCall {A} (s : electState) (op : Env → M tenantData A) : (error + A) * Provider :=
  onStore SystemTenantID (el_now s) (λ _, "") op (el_store s).

(** The lease a grant at clock reading [at_] gives. *)
Definition leaseUntil (ttl : Duration) (at_ : Time) : Time := TruncateTime (addTime (TruncateTime at_) ttl).

Section election.
(** [cfg.leaderTTL] *)
Context (ttl : Duration).

(** [attempt] once the store is open. *)
Definition tryAcquire (o : string) (at_ : Time) (s : electState) : electState :=
  let '(r, st) := lockCall s (λ env, Acquire env LeaderLockName o ttl at_) in
  match r with
  | inr true =>
      setPhase o Starting (s <| el_store := st |> <| el_lease := <[o := leaseUntil ttl at_]> (el_lease s) |>)
  | _ => setPhase o Waiting (s <| el_store := st |>)
  end.

(** A tick of the renewal loop of [hold]. *)
Definition tryRenew (o : string) (at_ : Time) (s : electState) : electState :=
  let '(r, st) := lockCall s (λ env, Renew env LeaderLockName o ttl at_) in
  match r with
  | inr true =>
      setPhase o Leading (s <| el_store := st |> <| el_lease := <[o := leaseUntil ttl at_]> (el_lease s) |>)
  | _ => setPhase o Stopping (s <| el_store := st |>)
  end.

(** The end of [hold]; an error of [Release] is logged. *)
Definition doRelease (o : string) (s : electState) : electState :=
  let '(_, st) := lockCall s (λ env, Release env LeaderLockName o) in
  setPhase o Waiting (s <| el_store := st |> <| el_lease := delete o (el_lease s) |>).

(** The row of the leader lock. *)
Definition leaderLock (p : Provider) : option Lock :=
  td ← pv_tenants p !! SystemTenantID; locks td !! LeaderLockName.

Inductive electStep : electState → electState → Prop :=
  | el_open o s p r :
      phaseOf s o = Waiting → ForTenant SystemTenantID (el_store s) = (r, p) →
      electStep s (setPhase o (match r with inr _ => Acquiring (TruncateTime (el_now s)) | inl _ => Waiting end)
                     (s <| el_store := p |>))
  | el_acquire o t s : phaseOf s o = Acquiring t → electStep s (tryAcquire o t s)
  | el_start o s : phaseOf s o = Starting → electStep s (setPhase o Leading s)
  | el_tick o s : phaseOf s o = Leading → electStep s (setPhase o (Renewing (TruncateTime (el_now s))) s)
  | el_renew o t s : phaseOf s o = Renewing t → electStep s (tryRenew o t s)
  (** [loopCtx.Done()] *)
  | el_shutdown o s : phaseOf s o = Leading → electStep s (setPhase o Stopping s)
  | el_stopped o s : phaseOf s o = Stopping → electStep s (setPhase o Releasing s)
  | el_release o s : phaseOf s o = Releasing → electStep s (doRelease o s)
  | el_time t s : el_now s ≤ t → electStep s (s <| el_now := t |>)
  (** the rest of the store's users, who leave this lock alone *)
  | el_other p s : leaderLock p = leaderLock (el_store s) → electStep s (s <| el_store := p |>).

Definition electNew (p : Provider) (now : Time) : electState := mkElectState p now ∅ ∅.

(** ** The lock calls *)

Lemma leaderLock_onStore {A} (s : electState) (op : Env → M tenantData A) r p :
  lockCall s op = (r, p) →
  (leaderLock p = leaderLock (el_store s) ∧ (∃ e, r = inl e)) ∨
  ∃ env td td', leaderLock (el_store s) = locks td !! LeaderLockName ∧ op env td = (r, td') ∧
    leaderLock p = locks td' !! LeaderLockName.
Proof.
  unfold lockCall, onStore, leaderLock. destruct (pv_tenants (el_store s) !! SystemTenantID) as [td|] eqn:Ht.
  - destruct (op _ td) as [r0 td'] eqn:Hop. intros [= <- <-]. right. exists (mkEnv (pv_closed (el_store s)) (el_now s) SystemTenantID (λ _, "")), td, td'. cbn.
    rewrite lookup_insert_eq. done.
  - intros [= <- <-]. left. rewrite Ht. by split; [|eexists].
Qed.

Lemma ForTenant_lock p r p' : ForTenant SystemTenantID p = (r, p') → leaderLock p' = leaderLock p.
Proof.
  unfold ForTenant, pchecked, leaderLock. destruct (pv_closed _); [by intros [= <- <-]|].
  destruct (pv_tenants p !! SystemTenantID) eqn:Ht; intros [= <- <-]; [by rewrite Ht|]. cbn. by rewrite lookup_insert_eq.
Qed.

(** What a refused or failed call leaves, and what a grant means. *)
Lemma acquire_spec s o t r p :
  lockCall s (λ env, Acquire env LeaderLockName o ttl t) = (r, p) →
  (r = inr true ∧ (∃ l, leaderLock p = Some l ∧ lk_Owner l = o ∧ lk_ExpiresAt l = leaseUntil ttl t) ∧
   ∀ l, leaderLock (el_store s) = Some l → lk_Owner l ≠ o → lk_ExpiresAt l ≤ TruncateTime t) ∨
  r ≠ inr true ∧ leaderLock p = leaderLock (el_store s).
Proof.
  intros [[Hp [e ->]]|(env&td&td'&H1&Hop&H2)]%leaderLock_onStore; [by right|].
  unfold Acquire, checked, throw in Hop. destruct (e_closed env); [right; simplify_eq; by rewrite H1, H2|].
  rewrite H1, H2. cbv zeta in Hop.
  destruct (locks td !! LeaderLockName) as [c|] eqn:Hc.
  - destruct (negb _ && _) eqn:Hg; [right; simplify_eq; by rewrite Hc|]. left. injection Hop as <- <-. split; [done|].
    cbn. rewrite lookup_insert_eq. split; [eexists; split; [done|]; by destruct (strEq _ _)|].
    intros l [= <-] Hne. unfold strEq, After in Hg. rewrite bool_decide_eq_false_2 in Hg by done. cbn in Hg. to_prop; lia.
  - left. injection Hop as <- <-. split; [done|]. cbn. rewrite lookup_insert_eq. split; [by eexists|done].
Qed.
Lemma renew_spec s o t r p :
  lockCall s (λ env, Renew env LeaderLockName o ttl t) = (r, p) →
  (r = inr true ∧ (∃ l, leaderLock p = Some l ∧ lk_Owner l = o ∧ lk_ExpiresAt l = leaseUntil ttl t) ∧
   ∀ l, leaderLock (el_store s) = Some l → lk_Owner l = o) ∨
  r ≠ inr true ∧ leaderLock p = leaderLock (el_store s).
Proof.
  intros [[Hp [e ->]]|(env&td&td'&H1&Hop&H2)]%leaderLock_onStore; [by right|].
  unfold Renew, checked, throw in Hop. destruct (e_closed env); [right; simplify_eq; by rewrite H1, H2|].
  rewrite H1, H2. destruct (locks td !! LeaderLockName) as [c|] eqn:Hc; [|right; simplify_eq; by rewrite Hc].
  destruct (_ || _) eqn:Hg; [right; simplify_eq; by rewrite Hc|]. left. injection Hop as <- <-. split; [done|].
  unfold strEq in Hg. to_prop. cbn. rewrite lookup_insert_eq. split; [by eexists|]. by intros l [= <-].
Qed.

Lemma release_spec s o r p :
  lockCall s (λ env, Release env LeaderLockName o) = (r, p) →
  ∀ l, leaderLock (el_store s) = Some l → lk_Owner l ≠ o → leaderLock p = Some l.
Proof.
  intros [[Hp [e ->]]|(env&td&td'&H1&Hop&H2)]%leaderLock_onStore l Hl Hne; [by rewrite Hp|].
  rewrite H1 in Hl. rewrite H2. unfold Release, checked, throw in Hop. destruct (e_closed env); [by simplify_eq|].
  rewrite Hl in Hop. unfold strEq in Hop. rewrite bool_decide_eq_false_2 in Hop by done. by simplify_eq.
Qed.

(** ** The invariant *)

(** A lease that has not run out is the lock's; a replica between its grant and
    its release has one; a clock reading in use is not ahead of the clock. *)
Record leasesOk (s : electState) : Prop := {
  lo_lock o e : el_lease s !! o = Some e → el_now s < e →
    ∃ l, leaderLock (el_store s) = Some l ∧ lk_Owner l = o ∧ lk_ExpiresAt l = e;
  lo_held o : match phaseOf s o with Waiting | Acquiring _ => True | _ => is_Some (el_lease s !! o) end;
  lo_clock o : match phaseOf s o with Acquiring t | Renewing t => t ≤ el_now s | _ => True end;
}.

Lemma phaseOf_set o p s x : phaseOf (setPhase o p s) x = if decide (x = o) then p else phaseOf s x.
Proof.
  unfold phaseOf, setPhase. cbn. case_decide as E; [subst; by rewrite lookup_insert_eq|by rewrite lookup_insert_ne].
Qed.

(** A step that only moves a replica's phase. *)
Lemma leasesOk_phase o p s :
  leasesOk s →
  match p with Waiting | Acquiring _ => True | _ => is_Some (el_lease s !! o) end →
  match p with Acquiring t | Renewing t => t ≤ el_now s | _ => True end →
  leasesOk (setPhase o p s).
Proof.
  intros [Hl Hh Hc] Hp1 Hp2. split; [done|..]; intros x; rewrite phaseOf_set; case_decide; subst; [done|apply Hh|done|apply Hc].
Qed.

(** A step of the store that keeps the lock. *)
Lemma leasesOk_store p s : leaderLock p = leaderLock (el_store s) → leasesOk s → leasesOk (s <| el_store := p |>).
Proof. intros Hp [Hl Hh Hc]. split; cbn; [|done..]. rewrite Hp. done. Qed.

(** A grant: nobody else's lease is left. *)
Lemma leasesOk_grant o t p l s :
  leasesOk s → leaderLock p = Some l → lk_Owner l = o → lk_ExpiresAt l = leaseUntil ttl t →
  (∀ l, leaderLock (el_store s) = Some l → lk_Owner l ≠ o → lk_ExpiresAt l ≤ el_now s) →
  leasesOk (s <| el_store := p |> <| el_lease := <[o := leaseUntil ttl t]> (el_lease s) |>).
Proof.
  intros [Hl Hh Hc] Hp Ho He Hfree. split; cbn; [| |done].
  - intros x e [[<- <-]|[Hne Hx]]%lookup_insert_Some Hlt; [by exists l|].
    destruct (Hl x e Hx Hlt) as (l0&Hl0&Hlo&Hle). exfalso. specialize (Hfree l0 Hl0). rewrite Hlo, Hle in Hfree.
    specialize (Hfree (not_eq_sym Hne)). lia.
  - intros x. specialize (Hh x). unfold phaseOf in *. cbn. destruct (default _ _); try done; apply lookup_insert_is_Some; destruct (decide (o = x)); auto.
Qed.

Lemma electStep_ok s s' : electStep s s' → leasesOk s → leasesOk s'.
Proof.
  intros Hs Hok. destruct Hs as [o s p r Hp Hopen|o t s Hp|o s Hp|o s Hp|o t s Hp|o s Hp|o s Hp|o s Hp|t s Ht|p s Hlk].
  - apply ForTenant_lock in Hopen.
    apply leasesOk_phase; [by apply leasesOk_store|by destruct r|]. destruct r; [done|]. cbn. apply TruncateTime_le.
  - pose proof (lo_clock _ Hok o) as Ht. rewrite Hp in Ht. unfold tryAcquire.
    destruct (lockCall _ _) as [r p] eqn:Hc. apply acquire_spec in Hc as [(->&(l&Hl&Ho&He)&Hf)|[Hr Hlk]].
    + apply leasesOk_phase; [|cbn; by rewrite lookup_insert_eq|done]. eapply leasesOk_grant; [done..|].
      intros l0 Hl0 Hne. specialize (Hf l0 Hl0 Hne). pose proof (TruncateTime_le t). lia.
    + assert (leasesOk (setPhase o Waiting (s <| el_store := p |>))) by (apply leasesOk_phase; [by apply leasesOk_store|done..]).
      by destruct r as [e|[]].
  - pose proof (lo_held _ Hok o) as Hh. rewrite Hp in Hh. by apply leasesOk_phase.
  - pose proof (lo_held _ Hok o) as Hh. rewrite Hp in Hh. apply leasesOk_phase; [done..|]. apply TruncateTime_le.
  - pose proof (lo_held _ Hok o) as Hh. rewrite Hp in Hh. unfold tryRenew.
    destruct (lockCall _ _) as [r p] eqn:Hc. apply renew_spec in Hc as [(->&(l&Hl&Ho&He)&Hf)|[Hr Hlk]].
    + apply leasesOk_phase; [|cbn; by rewrite lookup_insert_eq|done]. eapply leasesOk_grant; [done..|].
      intros l0 Hl0 Hne. by destruct Hne; apply Hf.
    + assert (leasesOk (setPhase o Stopping (s <| el_store := p |>))) by (apply leasesOk_phase; [by apply leasesOk_store|done..]).
      by destruct r as [e|[]].
  - pose proof (lo_held _ Hok o) as Hh. rewrite Hp in Hh. by apply leasesOk_phase.
  - pose proof (lo_held _ Hok o) as Hh. rewrite Hp in Hh. by apply leasesOk_phase.
  - unfold doRelease. destruct (lockCall _ _) as [r p] eqn:Hc. pose proof (release_spec _ _ _ _ Hc) as Hr.
    destruct Hok as [Hl Hh Hck]. split; cbn.
    + intros x e [Hne Hx]%lookup_delete_Some Hlt. destruct (Hl x e Hx Hlt) as (l&Hl0&Hlo&Hle).
      exists l. split; [|done]. apply Hr; [done|congruence].
    + intros x. rewrite phaseOf_set. case_decide as Hne; [done|]. specialize (Hh x). unfold phaseOf in *. cbn.
      by rewrite lookup_delete_ne.
    + intros x. rewrite phaseOf_set. case_decide; [done|]. apply Hck.
  - destruct Hok as [Hl Hh Hc]. split; cbn; [|done|].
    + intros o e He Hlt. apply Hl; [done|]. lia.
    + intros o. specialize (Hc o). unfold phaseOf in *. cbn. destruct (default _ _); try done; lia.
  - by apply leasesOk_store.
Qed.
End election.

(** C14 (control/leader): in every state of any number of replicas, whatever
    the interleaving of their attempts, renewals and shutdowns, with any delay
    between a reading of the clock and the call that uses it: a replica whose
    loops run was granted a lease it has not released; of the replicas whose
    loops run at most one holds a lease that has not run out, and the lock is
    that one's until then; and a replica whose lock was taken over stops at its
    next renewal. *)
Theorem leader_lease_exclusive ttl p now s :
  rtc (electStep ttl) (electNew p now) s →
  (∀ o, running (phaseOf s o) = true → is_Some (el_lease s !! o)) ∧
  (∀ o e, el_lease s !! o = Some e → el_now s < e →
    ∃ l, leaderLock (el_store s) = Some l ∧ lk_Owner l = o ∧ lk_ExpiresAt l = e) ∧
  (∀ o1 o2 e1 e2, el_lease s !! o1 = Some e1 → el_lease s !! o2 = Some e2 →
    el_now s < e1 → el_now s < e2 → o1 = o2) ∧
  (∀ o t l, leaderLock (el_store s) = Some l → lk_Owner l ≠ o → phaseOf (tryRenew ttl o t s) o = Stopping).
Proof.
  intros Hr. assert (Hok : leasesOk s).
  { cut (leasesOk (electNew p now)); [|by split]. induction Hr as [|s1 s2 s3 Hs _ IH]; [done|]. eauto using electStep_ok. }
  split_and!.
  - intros o Ho. pose proof (lo_held _ Hok o) as Hh. by destruct (phaseOf s o).
  - apply (lo_lock _ Hok).
  - intros o1 o2 e1 e2 H1 H2 Hl1 Hl2. destruct (lo_lock _ Hok o1 e1 H1 Hl1) as (l1&Hr1&<-&_).
    destruct (lo_lock _ Hok o2 e2 H2 Hl2) as (l2&Hr2&<-&_). congruence.
  - intros o t l Hl Hne. unfold tryRenew. destruct (lockCall _ _) as [r q] eqn:Hc.
    apply renew_spec in Hc as [(->&_&Hf)|[Hn _]]; [by destruct Hne; apply Hf|].
    destruct r as [e|[]]; [|done|]; rewrite phaseOf_set; by rewrite decide_True.
Qed.

(** ** Two replicas *)

Definition electEmpty : electState := electNew (mkProvider false ∅) Hour.

(** One full attempt of [o] that is granted, and a refused one. *)
Definition opening (o : string) (s : electState) : electState :=
  setPhase o (Acquiring (TruncateTime (el_now s))) (s <| el_store := (ForTenant SystemTenantID (el_store s)).2 |>).

Lemma opening_step ttl o s :
  phaseOf s o = Waiting → (ForTenant SystemTenantID (el_store s)).1 = inr SystemTenantID → electStep ttl s (opening o s).
Proof.
  intros Hp Ho. unfold opening. destruct (ForTenant SystemTenantID (el_store s)) as [r q] eqn:Hf. cbn in *. subst.
  exact (el_open ttl o s q _ Hp Hf).
Qed.

Definition attemptBy (o : string) (s : electState) : electState :=
  tryAcquire (30 * Second) o (TruncateTime (el_now s)) (opening o s).

Lemma attemptBy_steps o s :
  phaseOf s o = Waiting → (ForTenant SystemTenantID (el_store s)).1 = inr SystemTenantID →
  rtc (electStep (30 * Second)) s (attemptBy o s).
Proof.
  intros Hp Ho. eapply rtc_l; [by apply opening_step|]. apply rtc_once, el_acquire. unfold opening.
  by rewrite phaseOf_set, decide_True.
Qed.

(** [a] leads; [b] tries ten seconds later and is refused. *)
Definition aLeads : electState := setPhase "a" Leading (attemptBy "a" electEmpty).
Definition bRefused : electState := attemptBy "b" (aLeads <| el_now := Hour + 10 * Second |>).

Lemma aLeads_reachable : rtc (electStep (30 * Second)) electEmpty aLeads.
Proof.
  etrans; [apply (attemptBy_steps "a"); vm_compute; reflexivity|]. apply rtc_once, el_start. vm_compute. reflexivity.
Qed.

Lemma leader_lease_exclusive_witness :
  phaseOf bRefused "a" = Leading ∧ phaseOf bRefused "b" = Waiting ∧
  ∃ l, leaderLock (el_store bRefused) = Some l ∧ lk_Owner l = "a" ∧ lk_ExpiresAt l = Hour + 30 * Second.
Proof.
  split_and!; [vm_compute; reflexivity..|].
  destruct (leader_lease_exclusive (30 * Second) (mkProvider false ∅) Hour bRefused) as (_&Hl&_).
  - etrans; [apply aLeads_reachable|]. eapply rtc_l; [by apply (el_time _ (Hour + 10 * Second))|].
    apply (attemptBy_steps "b"); vm_compute; reflexivity.
  - apply (Hl "a"); vm_compute; reflexivity.
Defined.

(** A renewal that is late by more than the lease (a paused process, a store
    call that hangs) leaves the loops running: the second replica is granted
    the lock and starts its own, and both run until the first learns of it. *)
Definition bLeads : electState := setPhase "b" Leading (attemptBy "b" (aLeads <| el_now := Hour + 31 * Second |>)).

Lemma late_renewal_two_leaders :
  rtc (electStep (30 * Second)) electEmpty bLeads ∧
  running (phaseOf bLeads "a") = true ∧ running (phaseOf bLeads "b") = true.
Proof.
  split; [|vm_compute; done]. etrans; [apply aLeads_reachable|].
  eapply rtc_l; [by apply (el_time _ (Hour + 31 * Second))|].
  etrans; [apply (attemptBy_steps "b"); vm_compute; reflexivity|]. apply rtc_once, el_start. vm_compute. reflexivity.
Qed.
