(* ===== verification/TrackingBuffer.v ===== *)
(** * The tracking buffer ([internal/control/tracking.go])

    Opens, clicks and unsubscribes are appended to memory by the HTTP handlers
    ([Record]) and written by a flusher, one [InsertEvents] per tenant, after
    which the first-interaction columns of the deliveries are derived.  A flush
    is a program whose atomic steps are the buffer's critical sections and the
    store's calls; [trackStep] is the buffer with its flusher goroutine, its
    [Close] and any number of handlers recording meanwhile. *)

From S2P Require Import Prelude Enums Model MemTable MemData DeliveryRepo Repos Provider Prog.

(** ** State *)

(** [TrackingStats], less [Buffered], which is the length of the buffer. *)
Record TrackingStats := mkTrackingStats { ks_Flushed : Z; ks_Dropped : Z; ks_Failed : Z }.
#[global] Instance TrackingStats_eta : Eta TrackingStats := λ s,
  mkTrackingStats (ks_Flushed s) (ks_Dropped s) (ks_Failed s).

(** [TrackingBuffer], with the provider it writes to.  [tb_history] are the
    events of every call of [Record] so far; the code does not keep it. *)
Record TrackingBuffer := mkTrackingBuffer {
  tb_buf : list TrackingEvent;
  tb_started : bool;
  tb_closed : bool;
  tb_stats : TrackingStats;
  tb_wake : bool;
  tb_store : Provider;
  tb_history : list TrackingEvent;
}.
#[global] Instance TrackingBuffer_eta : Eta TrackingBuffer := λ b,
  mkTrackingBuffer (tb_buf b) (tb_started b) (tb_closed b) (tb_stats b) (tb_wake b) (tb_store b) (tb_history b).

(** [newTrackingBuffer] *)
Definition newTrackingBuffer (p : Provider) : TrackingBuffer :=
  mkTrackingBuffer [] false false (mkTrackingStats 0 0 0) false p [].

Definition countFlushed (n : Z) (b : TrackingBuffer) : TrackingBuffer :=
  b <| tb_stats := (tb_stats b) <| ks_Flushed := ks_Flushed (tb_stats b) + n |> |>.
Definition countDropped (n : Z) (b : TrackingBuffer) : TrackingBuffer :=
  b <| tb_stats := (tb_stats b) <| ks_Dropped := ks_Dropped (tb_stats b) + n |> |>.
Definition countFailed (n : Z) (b : TrackingBuffer) : TrackingBuffer :=
  b <| tb_stats := (tb_stats b) <| ks_Failed := ks_Failed (tb_stats b) + n |> |>.

(** ** Deriving the first interactions *)

(** The setter of an event's kind; none for [unsubscribe_clicked]. *)
Definition firstSetter (k : TrackingKind) : option (Env → string → Time → M tenantData bool) :=
  match k with
  | TrackingOpen => Some SetFirstOpened
  | TrackingClick => Some SetFirstClicked
  | TrackingUnsubscribed => Some SetUnsubscribed
  | _ => None
  end.

(** [deriveFirsts], with the keys seen in this batch; a setter's error is
    logged and the next event goes on. *)
Fixpoint deriveFirsts (seen : list (TrackingKind * string)) (events : list TrackingEvent) : prog unit :=
  match events with
  | [] => pret tt
  | ev :: events' =>
      if te_SuspectedBot ev || strEq (te_DeliveryID ev) "" then deriveFirsts seen events'
      else
        match firstSetter (te_Kind ev) with
        | None => deriveFirsts seen events'
        | Some set =>
            if bool_decide ((te_Kind ev, te_DeliveryID ev) ∈ seen) then deriveFirsts seen events'
            else
              handle (call (λ env, set env (te_DeliveryID ev) (te_CreatedAt ev)))
                (λ _, deriveFirsts ((te_Kind ev, te_DeliveryID ev) :: seen) events')
        end
  end.

(** ** Flushing *)

(** A program on the store, from the buffer. *)
Fixpoint onProvider {A} (p : progOn Provider A) : progOn TrackingBuffer A :=
  match p with
  | Done r => Done r
  | Call op k =>
      Call (λ env b, let '(r, s) := op env (tb_store b) in (r, b <| tb_store := s |>)) (λ r, onProvider (k r))
  | Poll k => Poll (λ b, onProvider (k b))
  end.

(** A critical section of the buffer. *)
Definition locked {A} (f : TrackingBuffer → A * TrackingBuffer) : progOn TrackingBuffer A :=
  call (λ _ b, let '(a, b') := f b in (inr a, b')).

(** One tenant's share of a flush. *)
Definition flushTenant (tenantID : string) (events : list TrackingEvent) : progOn TrackingBuffer unit :=
  handle (onProvider (call (λ _, ForTenant tenantID))) (λ r,
    match r with
    | inl _ => locked (λ b, (tt, countFailed (len events) b))
    | inr _ =>
        handle (onProvider (tcall tenantID (λ env, InsertEvents env events))) (λ r,
          match r with
          | inl _ => locked (λ b, (tt, countFailed (len events) b))
          | inr _ =>
              let? _ := locked (λ b, (tt, countFlushed (len events) b)) in
              onProvider (inTenant tenantID (deriveFirsts [] events))
          end)
    end).

Fixpoint flushTenants (batch : list TrackingEvent) (ids : list string) : progOn TrackingBuffer unit :=
  match ids with
  | [] => pret tt
  | id :: ids' =>
      handle (flushTenant id (filter (λ ev, te_TenantID ev = id) batch)) (λ _, flushTenants batch ids')
  end.

Section buffer.
(** [trackMaxBuffer] and [trackFlushSize], positive by construction, and the
    iteration order of the map of tenants. *)
Context (maxBuffer flushSize : Z) (shuffle : list string → list string).

(** [flush]: take the buffer, then write it tenant by tenant. *)
Definition flushBuffer : progOn TrackingBuffer unit :=
  let? batch := locked (λ b, (tb_buf b, b <| tb_buf := [] |>)) in
  flushTenants batch (shuffle (remove_dups (te_TenantID <$> batch))).

(** ** Recording *)

(** [Record] *)
Definition RecordEvent (ev : TrackingEvent) (env : Env) (b : TrackingBuffer) : TrackingBuffer :=
  let ev := if strEq (te_ID ev) "" then ev <| te_ID := e_newID env 0 |> else ev in
  let ev := if IsZero (te_CreatedAt ev) then ev <| te_CreatedAt := TruncateTime (e_clock env) |> else ev in
  let b := b <| tb_history := tb_history b ++ [ev] |> in
  if tb_closed b then countDropped 1 b
  else
    let over := len (tb_buf b) - maxBuffer + 1 in
    let b := if 0 <? over then countDropped over (b <| tb_buf := drop (Z.to_nat over) (tb_buf b) |>) else b in
    let b := b <| tb_buf := tb_buf b ++ [ev] |> in
    if flushSize <=? len (tb_buf b) then b <| tb_wake := true |> else b.

(** ** The flusher and [Close] *)

Inductive loopPhase :=
  | LoopNew
  | LoopWaiting
  | LoopFlushing (p : progOn TrackingBuffer unit)
  | LoopFinal (p : progOn TrackingBuffer unit)
  | LoopDone.

Inductive closePhase :=
  | CloseNone
  | CloseFinal (p : progOn TrackingBuffer unit)
  | CloseWaiting
  | CloseDone.

(** The buffer and its goroutines; [tr_canceled] is the context of [Start]. *)
Record trackState := mkTrackState {
  tr_buffer : TrackingBuffer;
  tr_loop : loopPhase;
  tr_close : closePhase;
  tr_canceled : bool;
}.
#[global] Instance trackState_eta : Eta trackState := λ s,
  mkTrackState (tr_buffer s) (tr_loop s) (tr_close s) (tr_canceled s).

(** One step of a running flush. *)
Inductive flushStep : progOn TrackingBuffer unit → TrackingBuffer → progOn TrackingBuffer unit → TrackingBuffer → Prop :=
  | fs_call B (op : Env → M TrackingBuffer B) k env r b b' :
      op env b = (r, b') → flushStep (Call op k) b (k r) b'
  | fs_poll k c b : flushStep (Poll k) b (k c) b.

(** What the buffer's own goroutines and the handlers do. *)
Inductive bufferStep : trackState → trackState → Prop :=
  (** a handler records *)
  | tk_record env ev s :
      bufferStep s (s <| tr_buffer := RecordEvent ev env (tr_buffer s) |>)
  (** [start] *)
  | tk_start s :
      tr_loop s = LoopNew →
      bufferStep s (s <| tr_buffer := (tr_buffer s) <| tb_started := true |> |> <| tr_loop := LoopWaiting |>)
  | tk_cancel s : bufferStep s (s <| tr_canceled := true |>)
  (** [loop]: the ticker and the wake channel *)
  | tk_tick s :
      tr_loop s = LoopWaiting → bufferStep s (s <| tr_loop := LoopFlushing flushBuffer |>)
  | tk_wake s :
      tr_loop s = LoopWaiting → tb_wake (tr_buffer s) = true →
      bufferStep s (s <| tr_buffer := (tr_buffer s) <| tb_wake := false |> |> <| tr_loop := LoopFlushing flushBuffer |>)
  (** [ctx.Done()] or [b.stop], closed by [Close] *)
  | tk_stop s :
      tr_loop s = LoopWaiting → tr_canceled s = true ∨ tr_close s ≠ CloseNone →
      bufferStep s (s <| tr_loop := LoopFinal flushBuffer |>)
  | tk_flushing p p' b' s :
      tr_loop s = LoopFlushing p → flushStep p (tr_buffer s) p' b' →
      bufferStep s (s <| tr_buffer := b' |> <| tr_loop := LoopFlushing p' |>)
  | tk_flushed r s :
      tr_loop s = LoopFlushing (Done r) → bufferStep s (s <| tr_loop := LoopWaiting |>)
  | tk_final p p' b' s :
      tr_loop s = LoopFinal p → flushStep p (tr_buffer s) p' b' →
      bufferStep s (s <| tr_buffer := b' |> <| tr_loop := LoopFinal p' |>)
  | tk_done r s :
      tr_loop s = LoopFinal (Done r) → bufferStep s (s <| tr_loop := LoopDone |>)
  (** [Close] *)
  | tk_close s :
      tr_close s = CloseNone →
      bufferStep s (s <| tr_buffer := (tr_buffer s) <| tb_closed := true |> |>
                     <| tr_close := if tb_started (tr_buffer s) then CloseWaiting else CloseFinal flushBuffer |>)
  | tk_closing p p' b' s :
      tr_close s = CloseFinal p → flushStep p (tr_buffer s) p' b' →
      bufferStep s (s <| tr_buffer := b' |> <| tr_close := CloseFinal p' |>)
  | tk_closed r s :
      tr_close s = CloseFinal (Done r) → bufferStep s (s <| tr_close := CloseDone |>)
  | tk_waited s :
      tr_close s = CloseWaiting → tr_loop s = LoopDone → bufferStep s (s <| tr_close := CloseDone |>).

(** With the store's other users. *)
Inductive trackStep : trackState → trackState → Prop :=
  | tk_own s s' : bufferStep s s' → trackStep s s'
  | tk_other p s : trackStep s (s <| tr_buffer := (tr_buffer s) <| tb_store := p |> |>).

(** A new buffer. *)
Definition trackNew (p : Provider) : trackState :=
  mkTrackState (newTrackingBuffer p) LoopNew CloseNone false.
End buffer.
