(* ===== verification/TrackingProps.v ===== *)
(** * What the tracking buffer promises

    Every event a handler hands over is accounted for exactly once, in every
    interleaving of handlers, flusher and [Close]; and a delivery's first
    interaction is only ever derived from an event of a person. *)

From S2P Require Import Prelude Enums Model MemTable MemData DeliveryRepo Repos Provider Prog TrackingBuffer.

(** ** Accounting *)

(** The events the counters and the buffer account for. *)
Definition total (b : TrackingBuffer) : Z :=
  ks_Flushed (tb_stats b) + ks_Failed (tb_stats b) + ks_Dropped (tb_stats b) + len (tb_buf b).

(** What a flush leaves alone. *)
Record keeps (b b' : TrackingBuffer) : Prop := {
  kp_history : tb_history b' = tb_history b;
  kp_closed : tb_closed b' = tb_closed b;
  kp_started : tb_started b' = tb_started b;
  kp_buf : tb_buf b' = tb_buf b ∨ tb_buf b' = [];
}.

(** [owes p Q n]: with [n] events in hand, [p] counts each of them once, in
    every interleaving, and ends with [Q] of what is left. *)
Fixpoint owes {A} (p : progOn TrackingBuffer A) (Q : error + A → Z → Prop) (n : Z) : Prop :=
  0 ≤ n ∧
  match p with
  | Done r => Q r n
  | Call op k => ∀ env b, let '(r, b') := op env b in keeps b b' ∧ owes (k r) Q (n + (total b - total b'))
  | Poll k => ∀ c, owes (k c) Q n
  end.

Abbreviation flushOwes p n := (owes p (λ _ m, m = 0) n).

Lemma owes_nonneg {A} (p : progOn TrackingBuffer A) Q n : owes p Q n → 0 ≤ n.
Proof. by destruct p; intros []. Qed.

Lemma owes_mono {A} (p : progOn TrackingBuffer A) (Q Q' : error + A → Z → Prop) n :
  (∀ r m, Q r m → Q' r m) → owes p Q n → owes p Q' n.
Proof.
  intros HQ. revert n. induction p as [r|B op k IH|k IH]; intros n [Hn H]; split; [done| |done| |done|].
  - by apply HQ.
  - intros env b. specialize (H env b). destruct (op env b) as [r b']. destruct H as [Hk H]. split; [done|]. by apply IH.
  - intros c. by apply IH.
Qed.

Lemma owes_handle {A B} (p : progOn TrackingBuffer A) (k : error + A → progOn TrackingBuffer B) Q n :
  owes p (λ r m, owes (k r) Q m) n → owes (handle p k) Q n.
Proof.
  revert n. induction p as [r|C op k' IH|k' IH]; intros n [Hn H]; cbn [handle]; [done|split; [done|]..].
  - intros env b. specialize (H env b). destruct (op env b) as [r b']. destruct H as [Hk H]. split; [done|]. by apply IH.
  - intros c. by apply IH.
Qed.

Lemma owes_pbind {A B} (p : progOn TrackingBuffer A) (k : A → progOn TrackingBuffer B) Q n :
  owes p (λ r m, match r with inl e => 0 ≤ m ∧ Q (inl e) m | inr a => owes (k a) Q m end) n → owes (pbind p k) Q n.
Proof. intros H. apply owes_handle. eapply owes_mono; [|exact H]. by intros [e|a] m. Qed.

(** The store's calls count nothing. *)
Lemma owes_onProvider {A} (p : progOn Provider A) n : 0 ≤ n → owes (onProvider p) (λ _ m, m = n) n.
Proof.
  intros Hn. induction p as [r|B op k IH|k IH]; cbn [onProvider]; split; try done.
  intros env b. destruct (op env (tb_store b)) as [r s]. split; [split; [done..|by left]|].
  unfold total. cbn. rewrite Z.sub_diag, Z.add_0_r. apply IH.
Qed.

Lemma owes_locked {A} (f : TrackingBuffer → A * TrackingBuffer) Q n :
  0 ≤ n → (∀ b, let '(a, b') := f b in keeps b b' ∧ 0 ≤ n + (total b - total b') ∧ Q (inr a) (n + (total b - total b'))) →
  owes (locked f) Q n.
Proof.
  intros Hn H. split; [done|]. intros env b. specialize (H b). destruct (f b) as [a b']. destruct H as (?&?&?).
  split; [done|]. by split.
Qed.

Lemma keeps_store b s : keeps b (b <| tb_store := s |>).
Proof. split; [done..|by left]. Qed.

Lemma keeps_stats b s : keeps b (b <| tb_stats := s |>).
Proof. split; [done..|by left]. Qed.

Lemma owes_count (f : TrackingBuffer → TrackingBuffer) m n :
  0 ≤ n → (∀ b, keeps b (f b) ∧ total (f b) = total b + m) → 0 ≤ n - m →
  owes (locked (λ b, (tt, f b))) (λ r k, r = inr tt ∧ k = n - m) n.
Proof.
  intros Hn Hf Hm. apply owes_locked; [done|]. intros b. destruct (Hf b) as [Hk ->]. split; [done|].
  replace (total b - (total b + m)) with (- m) by lia. split; [lia|]. split; [done|lia].
Qed.

Lemma owes_flushTenant id events n :
  0 ≤ n - len events → owes (flushTenant id events) (λ _ m, m = n - len events) n.
Proof.
  intros Hn. assert (0 ≤ len events) by (unfold len; lia). assert (0 ≤ n) by lia.
  assert (Hfail : ∀ m, m = n →
    owes (locked (λ b, (tt, countFailed (len events) b))) (λ _ m, m = n - len events) m).
  { intros m ->. eapply owes_mono; [|apply (owes_count _ (len events)); [done| |done]]; [by intros r m []|].
    intros b. split; [apply keeps_stats|]. unfold total. cbn. lia. }
  apply owes_handle. eapply owes_mono; [|by apply owes_onProvider]. intros [e|u] m ->; [by apply Hfail|].
  apply owes_handle. eapply owes_mono; [|by apply owes_onProvider]. intros [e|[]] m ->; [by apply Hfail|].
  apply owes_pbind. eapply owes_mono; [|apply (owes_count _ (len events)); [done| |done]].
  - intros r m [-> ->]. by apply owes_onProvider.
  - intros b. split; [apply keeps_stats|]. unfold total. cbn. lia.
Qed.

(** The groups of a batch, summed. *)
Definition groupSum (batch : list TrackingEvent) (ids : list string) : Z :=
  foldr (λ id acc, len (filter (λ ev, te_TenantID ev = id) batch) + acc) 0 ids.

Lemma groupSum_nonneg batch ids : 0 ≤ groupSum batch ids.
Proof. induction ids as [|id ids IH]; [done|]. cbn [groupSum foldr]. fold (groupSum batch ids). unfold len. lia. Qed.

Lemma groupSum_cons ev batch ids :
  NoDup ids → groupSum (ev :: batch) ids = groupSum batch ids + if decide (te_TenantID ev ∈ ids) then 1 else 0.
Proof.
  induction 1 as [|id ids Hid Hnd IH]; cbn [groupSum foldr]; [by rewrite decide_False by apply not_elem_of_nil|].
  fold (groupSum (ev :: batch) ids) (groupSum batch ids). rewrite IH, filter_cons. unfold len.
  destruct (decide (te_TenantID ev = id)) as [<-|Hne].
  - rewrite (decide_False (P := te_TenantID ev ∈ ids)) by done. rewrite decide_True by by left. cbn [length]. lia.
  - destruct (decide (te_TenantID ev ∈ ids)).
    + rewrite decide_True by by right. lia.
    + rewrite decide_False; [lia|]. by intros [?|?]%elem_of_cons.
Qed.

Lemma groupSum_all batch ids : NoDup ids → (∀ ev, ev ∈ batch → te_TenantID ev ∈ ids) → groupSum batch ids = len batch.
Proof.
  intros Hnd. induction batch as [|ev batch IH]; intros Hall.
  - clear. induction ids as [|id ids IH]; [done|]. cbn [groupSum foldr]. by fold (groupSum [] ids).
  - rewrite groupSum_cons by done. rewrite decide_True by (apply Hall; by left).
    rewrite IH by (intros e He; apply Hall; by right). unfold len. cbn. lia.
Qed.

Lemma owes_flushTenants batch ids : flushOwes (flushTenants batch ids) (groupSum batch ids).
Proof.
  induction ids as [|id ids IH]; [done|]. cbn [flushTenants groupSum foldr]. fold (groupSum batch ids).
  pose proof (groupSum_nonneg batch ids). apply owes_handle.
  eapply owes_mono; [|apply owes_flushTenant; lia]. intros r m ->.
  by replace (_ + groupSum batch ids - _) with (groupSum batch ids) by lia.
Qed.

Section accounting.
Context (maxBuffer flushSize : Z) (shuffle : list string → list string).
Context (Hmax : 0 < maxBuffer) (Hshuffle : ∀ l, shuffle l ≡ₚ l).
Abbreviation theFlush := (flushBuffer shuffle).
Abbreviation trackStep := (trackStep maxBuffer flushSize shuffle).

(** A flush counts what it takes out of the buffer. *)
Lemma owes_flush : flushOwes theFlush 0.
Proof.
  unfold flushBuffer. apply owes_pbind, owes_locked; [done|]. intros b. split; [split; [done..|by right]|].
  replace (0 + _) with (len (tb_buf b)) by (unfold total, len; cbn; lia). split; [unfold len; lia|].
  rewrite <-(groupSum_all (tb_buf b) (shuffle (remove_dups (te_TenantID <$> tb_buf b)))).
  - apply owes_flushTenants.
  - rewrite Hshuffle. apply NoDup_remove_dups.
  - intros ev Hev. rewrite Hshuffle. apply elem_of_remove_dups. apply list_elem_of_fmap. by exists ev.
Qed.

Lemma flushStep_owes p b p' b' n :
  flushStep p b p' b' → flushOwes p n → ∃ n', flushOwes p' n' ∧ total b' + n' = total b + n ∧ keeps b b'.
Proof.
  intros [B op k env r w w' Hop|k c w] [Hn H].
  - specialize (H env w). rewrite Hop in H. destruct H as [Hk H]. eexists. split_and!; [exact H|lia|done].
  - exists n. split_and!; [apply H|done|]. split; [done..|by left].
Qed.

(** ** Recording *)

Lemma record_spec ev env b :
  len (tb_buf b) ≤ maxBuffer →
  let b' := RecordEvent maxBuffer flushSize ev env b in
  total b' = total b + 1 ∧ len (tb_history b') = len (tb_history b) + 1 ∧ len (tb_buf b') ≤ maxBuffer ∧
  tb_closed b' = tb_closed b ∧ tb_started b' = tb_started b ∧ tb_store b' = tb_store b ∧
  (tb_closed b = true → tb_buf b' = tb_buf b) ∧
  ∃ x, tb_history b' = tb_history b ++ [x] ∧ ∀ y, y ∈ tb_buf b' → y = x ∨ y ∈ tb_buf b.
Proof.
  intros Hlen. unfold RecordEvent. cbv zeta.
  set (x := if IsZero _ then _ else _). clearbody x.
  change (tb_closed (b <| tb_history := tb_history b ++ [x] |>)) with (tb_closed b).
  destruct (tb_closed b) eqn:Hc.
  { unfold countDropped, total, len. cbn. rewrite length_app. cbn. split_and!; try done; try lia. exists x. eauto. }
  change (tb_buf (b <| tb_history := tb_history b ++ [x] |>)) with (tb_buf b).
  set (b1 := if 0 <? _ then _ else _).
  assert (H1 : total b1 = total b ∧ len (tb_history b1) = len (tb_history b) + 1 ∧ len (tb_buf b1) < maxBuffer ∧
    tb_closed b1 = false ∧ tb_started b1 = tb_started b ∧ tb_store b1 = tb_store b ∧
    tb_history b1 = tb_history b ++ [x] ∧ ∀ y, y ∈ tb_buf b1 → y ∈ tb_buf b).
  { unfold b1. destruct (0 <? _) eqn:E; to_prop; unfold countDropped, total, len in *; cbn;
      rewrite ?length_app, ?length_drop; cbn; split_and!; try done; try lia.
    intros y Hy. rewrite <-(take_drop (Z.to_nat (Z.of_nat (length (tb_buf b)) - maxBuffer + 1)) (tb_buf b)).
    apply elem_of_app. by right. }
  clearbody b1. destruct H1 as (Ht&Hl&Hb&Hc1&Hs&Hst&Hh&Hy).
  assert (H2 : ∀ b2, tb_buf b2 = tb_buf b1 ++ [x] → tb_stats b2 = tb_stats b1 → tb_history b2 = tb_history b1 →
    total b2 = total b + 1 ∧ len (tb_history b2) = len (tb_history b) + 1 ∧ len (tb_buf b2) ≤ maxBuffer ∧
    ∃ x, tb_history b2 = tb_history b ++ [x] ∧ ∀ y, y ∈ tb_buf b2 → y = x ∨ y ∈ tb_buf b).
  { intros b2 E1 E2 E3. unfold total, len in *. rewrite E1, E2, E3, length_app. cbn [length]. split_and!; [lia..|].
    exists x. split; [done|]. intros y [?|Hyx%list_elem_of_singleton]%elem_of_app; eauto. }
  destruct (flushSize <=? _); (split_and!; [apply H2; done..|done|done|done|done|apply H2; done]).
Qed.
(** ** The invariant *)

(** What a goroutine has taken out of the buffer and not yet counted. *)
Definition loopOwes (l : loopPhase) (n : Z) : Prop :=
  match l with LoopFlushing p | LoopFinal p => flushOwes p n | _ => n = 0 end.
Definition closeOwes (c : closePhase) (n : Z) : Prop :=
  match c with CloseFinal p => flushOwes p n | _ => n = 0 end.

(** A last flush that has not begun, or has emptied the buffer. *)
Definition emptying (p : progOn TrackingBuffer unit) (b : TrackingBuffer) : Prop :=
  match p with Call op _ => ∀ env b, tb_buf (op env b).2 = [] | _ => False end ∨ tb_buf b = [].

Definition closing (c : closePhase) : bool := match c with CloseNone => false | _ => true end.

Definition loopDrained (l : loopPhase) (canceled : bool) (c : closePhase) (b : TrackingBuffer) : Prop :=
  match l with
  | LoopFinal p => canceled = false → closing c = true ∧ emptying p b
  | LoopDone => canceled = false → closing c = true ∧ tb_buf b = []
  | _ => True
  end.
Definition closeDrained (c : closePhase) (canceled : bool) (b : TrackingBuffer) : Prop :=
  match c with
  | CloseFinal p => emptying p b
  | CloseDone => canceled = false → tb_buf b = []
  | _ => True
  end.

Definition drained (s : trackState) : Prop :=
  tb_closed (tr_buffer s) = closing (tr_close s) ∧
  loopDrained (tr_loop s) (tr_canceled s) (tr_close s) (tr_buffer s) ∧
  closeDrained (tr_close s) (tr_canceled s) (tr_buffer s).

Record accounted (s : trackState) : Prop := {
  ac_owed : ∃ n m, loopOwes (tr_loop s) n ∧ closeOwes (tr_close s) m ∧
    len (tb_history (tr_buffer s)) = total (tr_buffer s) + n + m;
  ac_bound : len (tb_buf (tr_buffer s)) ≤ maxBuffer;
}.

Lemma trackNew_accounted p : accounted (trackNew p).
Proof. split; [by exists 0, 0|]. unfold len. cbn. lia. Qed.

Lemma keeps_bound b b' : keeps b b' → len (tb_buf b) ≤ maxBuffer → len (tb_buf b') ≤ maxBuffer.
Proof. intros [_ _ _ [->| ->]]; [done|]. unfold len. cbn. lia. Qed.

Lemma trackStep_accounted s s' : trackStep s s' → accounted s → accounted s'.
Proof.
  intros Hs [(n&m&Hn&Hm&Hh) Hb]. pose proof owes_flush as Hf.
  destruct Hs as [s s' Hs|q s]; [|split; [|done]; by exists n, m].
  destruct Hs as [env ev s|s HL|s|s HL|s HL Hwk|s HL Hwhy|p p' b' s HL Hp|r s HL|p p' b' s HL Hp|r s HL|s HC|p p' b' s HC Hp|r s HC|s HC HL].
  - destruct (record_spec ev env (tr_buffer s) Hb) as (Ht&Hhl&Hbl&_). split; [|done]. exists n, m. cbn. split_and!; [done..|lia].
  - rewrite HL in Hn. cbn in Hn. subst n. split; [|done]. by exists 0, m.
  - split; [|done]. by exists n, m.
  - rewrite HL in Hn. cbn in Hn. subst n. split; [|done]. by exists 0, m.
  - rewrite HL in Hn. cbn in Hn. subst n. split; [|done]. by exists 0, m.
  - rewrite HL in Hn. cbn in Hn. subst n. split; [|done]. by exists 0, m.
  - rewrite HL in Hn. destruct (flushStep_owes _ _ _ _ _ Hp Hn) as (n'&Hn'&Ht&Hk).
    split; [|by eapply keeps_bound]. exists n', m. cbn. rewrite (kp_history _ _ Hk). split_and!; [done..|lia].
  - rewrite HL in Hn. destruct Hn as [_ ->]. split; [|done]. by exists 0, m.
  - rewrite HL in Hn. destruct (flushStep_owes _ _ _ _ _ Hp Hn) as (n'&Hn'&Ht&Hk).
    split; [|by eapply keeps_bound]. exists n', m. cbn. rewrite (kp_history _ _ Hk). split_and!; [done..|lia].
  - rewrite HL in Hn. destruct Hn as [_ ->]. split; [|done]. by exists 0, m.
  - rewrite HC in Hm. cbn in Hm. subst m. split; [|done]. exists n, 0. cbn. destruct (tb_started _); by split_and!.
  - rewrite HC in Hm. destruct (flushStep_owes _ _ _ _ _ Hp Hm) as (m'&Hm'&Ht&Hk).
    split; [|by eapply keeps_bound]. exists n, m'. cbn. rewrite (kp_history _ _ Hk). split_and!; [done..|lia].
  - rewrite HC in Hm. destruct Hm as [_ ->]. split; [|done]. by exists n, 0.
  - rewrite HC in Hm. cbn in Hm. subst m. split; [|done]. by exists n, 0.
Qed.
(** ** The last flush *)

(** The first step of a flush empties the buffer, and no step fills it. *)
Lemma emptying_flush b : emptying theFlush b.
Proof. by left. Qed.

Lemma flushStep_keeps p b p' b' n : flushStep p b p' b' → flushOwes p n → keeps b b'.
Proof. intros Hs Hn. by destruct (flushStep_owes _ _ _ _ _ Hs Hn) as (?&_&_&?). Qed.

Lemma flushStep_emptying p b p' b' : flushStep p b p' b' → keeps b b' → emptying p b → emptying p' b'.
Proof.
  intros Hs Hk [H|He].
  - destruct Hs as [B op k env r w w' Hop|]; [|done]. right. specialize (H env w). by rewrite Hop in H.
  - right. destruct (kp_buf _ _ Hk) as [->|?]; done.
Qed.

(** A closed buffer is not filled again. *)
Definition still (b b' : TrackingBuffer) : Prop :=
  tb_closed b' = tb_closed b ∧ (tb_closed b = true → tb_buf b = [] → tb_buf b' = []).

Lemma emptying_still p b b' : still b b' → tb_closed b = true → emptying p b → emptying p b'.
Proof. intros [_ Hs] Hc [?|?]; [by left|]. right. by apply Hs. Qed.

Lemma keeps_still b b' : keeps b b' → still b b'.
Proof. intros [_ Hc _ Hb]. split; [done|]. intros _ He. rewrite He in Hb. by destruct Hb. Qed.

Lemma record_still ev env b : len (tb_buf b) ≤ maxBuffer → still b (RecordEvent maxBuffer flushSize ev env b).
Proof.
  intros Hb. destruct (record_spec ev env b Hb) as (_&_&_&Hc&_&_&Hbuf&_). split; [done|]. intros Hcl He.
  by rewrite Hbuf.
Qed.

Lemma loopDrained_still l x c b b' :
  still b b' → tb_closed b = closing c → loopDrained l x c b → loopDrained l x c b'.
Proof.
  intros Hs Hc. destruct l as [| |p|p|]; cbn; try done; intros H Hx; destruct (H Hx) as [Hcl He]; (split; [done|]).
  - eapply emptying_still; [done|by rewrite Hc|done].
  - destruct Hs as [_ Hs]. apply Hs; [by rewrite Hc|done].
Qed.

Lemma loopDrained_close l x c c' b :
  loopDrained l x c b → closing c' = true → loopDrained l x c' b.
Proof. intros H Hc. destruct l; cbn in *; try done; intros Hx; by destruct (H Hx). Qed.

(** Before [Close], only a cancelled context ends the loop. *)
Lemma loopDrained_open l x c b b' : loopDrained l x CloseNone b → loopDrained l x c b'.
Proof. intros H. destruct l; cbn in *; try done; intros Hx; by destruct (H Hx). Qed.

Lemma closeDrained_still c x b b' :
  still b b' → tb_closed b = closing c → closeDrained c x b → closeDrained c x b'.
Proof.
  intros Hs Hc. destruct c as [|p| |]; cbn; try done.
  - by eapply emptying_still.
  - intros H Hx. destruct Hs as [_ Hs]. apply Hs; [done|by apply H].
Qed.

Lemma drained_still s b' : still (tr_buffer s) b' → drained s → drained (s <| tr_buffer := b' |>).
Proof.
  intros Hs (Hc&Hl&Hcl). split_and!; cbn.
  - destruct Hs as [-> _]. done.
  - by eapply loopDrained_still.
  - by eapply closeDrained_still.
Qed.

Lemma trackStep_drained s s' : trackStep s s' → accounted s → drained s → drained s'.
Proof.
  intros Hs [(n&m&Hn&Hm&_) Hb] Hd. pose proof Hd as (Hc&Hl&Hcl).
  destruct Hs as [s s' Hs|q s]; [|by apply (drained_still s ((tr_buffer s) <| tb_store := q |>)); [by split|]].
  destruct Hs as [env ev s|s HL|s|s HL|s HL Hwk|s HL Hwhy|p p' b' s HL Hp|r s HL|p p' b' s HL Hp|r s HL|s HC|p p' b' s HC Hp|r s HC|s HC HL].
  - apply drained_still; [by apply record_still|done].
  - by split_and!.
  - split_and!; cbn; [done|by destruct (tr_loop s)|by destruct (tr_close s)].
  - by split_and!.
  - by split_and!.
  - split_and!; [done| |done]. cbn. intros Hx. split; [|apply emptying_flush].
    destruct Hwhy as [Hwhy|Hwhy]; [by rewrite Hx in Hwhy|by destruct (tr_close s)].
  - rewrite HL in Hn. pose proof (flushStep_keeps _ _ _ _ _ Hp Hn) as Hk.
    destruct (drained_still s b' (keeps_still _ _ Hk) Hd) as (?&_&?). by split_and!.
  - by split_and!.
  - rewrite HL in Hn. pose proof (flushStep_keeps _ _ _ _ _ Hp Hn) as Hk.
    destruct (drained_still s b' (keeps_still _ _ Hk) Hd) as (?&_&?). split_and!; [done| |done]. cbn. intros Hx.
    rewrite HL in Hl. destruct (Hl Hx) as [? He]. split; [done|]. by eapply flushStep_emptying.
  - rewrite HL in Hl. split_and!; [done| |done]. cbn. intros Hx. destruct (Hl Hx) as [? [?|?]]; done.
  - split_and!; [by destruct (tb_started _)| |by destruct (tb_started _); [|apply emptying_flush]].
    rewrite HC in Hl. by eapply loopDrained_open.
  - rewrite HC in Hm. pose proof (flushStep_keeps _ _ _ _ _ Hp Hm) as Hk.
    destruct (drained_still s b' (keeps_still _ _ Hk) Hd) as (H1&H2&_). cbn in H1, H2. rewrite HC in *.
    split_and!; [done|by eapply loopDrained_close|]. cbn. by eapply flushStep_emptying.
  - rewrite HC in *. split_and!; [done|by eapply loopDrained_close|]. cbn. destruct Hcl as [?|?]; done.
  - rewrite HC, HL in *. split_and!; [done|cbn; by rewrite HL|]. cbn. intros Hx. by destruct (Hl Hx).
Qed.

Lemma trackReach s s' : rtc trackStep s s' → accounted s ∧ drained s → accounted s' ∧ drained s'.
Proof.
  induction 1 as [|s1 s2 s3 Hs _ IH]; [done|]. intros [Ha Hd]. apply IH.
  split; [by eapply trackStep_accounted|by eapply trackStep_drained].
Qed.
End accounting.

(** C15 (control/tracking): in every state of the buffer, whatever the
    interleaving of the handlers that record, the flusher, [Close], a
    cancelled context and a failing store: every event recorded so far is
    counted exactly once, as flushed, failed, dropped or buffered, or is in
    the hands of a flush that is running; the buffer never exceeds its bound;
    and once [Close] has returned, unless the context of [Start] ended first,
    nothing is left in the buffer. *)
Theorem tracking_accounted maxBuffer flushSize shuffle p s :
  0 < maxBuffer → (∀ l, shuffle l ≡ₚ l) →
  rtc (trackStep maxBuffer flushSize shuffle) (trackNew p) s →
  let b := tr_buffer s in
  len (tb_buf b) ≤ maxBuffer ∧
  (∃ inHand, 0 ≤ inHand ∧
    len (tb_history b) =
      ks_Flushed (tb_stats b) + ks_Failed (tb_stats b) + ks_Dropped (tb_stats b) + len (tb_buf b) + inHand ∧
    ((∀ p, tr_loop s ≠ LoopFlushing p ∧ tr_loop s ≠ LoopFinal p ∧ tr_close s ≠ CloseFinal p) → inHand = 0)) ∧
  (tr_close s = CloseDone → tr_canceled s = false → tb_buf b = []).
Proof.
  intros Hmax Hsh Hr.
  assert (HI : accounted maxBuffer s ∧ drained s) by
    (eapply trackReach; [done..|by split; [apply trackNew_accounted|]]).
  destruct HI as [[(n&m&Hn&Hm&Hh) Hb] (_&_&Hcl)]. split_and!; [done| |].
  - exists (n + m). split_and!.
    + assert (0 ≤ n) by (destruct (tr_loop s); cbn in Hn; subst; try done; by eapply owes_nonneg).
      assert (0 ≤ m) by (destruct (tr_close s); cbn in Hm; subst; try done; by eapply owes_nonneg). lia.
    + unfold total in Hh. lia.
    + intros Hidle. destruct (tr_loop s) as [| |q|q|], (tr_close s) as [|q'| |]; cbn in Hn, Hm; subst; try done;
        try (by destruct (Hidle q) as (?&?&?)); try (by destruct (Hidle q') as (?&?&?)).
  - intros Hc Hx. rewrite Hc in Hcl. by apply Hcl.
Qed.

(** ** Where a first interaction comes from *)

(** The column of an event's kind. *)
Definition firstColumn (k : TrackingKind) : option (lens Delivery Time) :=
  match k with
  | TrackingOpen => Some (field d_FirstOpenedAt)
  | TrackingClick => Some (field d_FirstClickedAt)
  | TrackingUnsubscribed => Some (field d_UnsubscribedAt)
  | _ => None
  end.

(** [td'] is [td] with the empty first column of one delivery set from [ev]. *)
Record derivedFrom (ev : TrackingEvent) (td td' : tenantData) : Prop := {
  df_human : te_SuspectedBot ev = false;
  df_column : ∃ fld d, firstColumn (te_Kind ev) = Some fld ∧
    deliveries td !! te_DeliveryID ev = Some d ∧ lget fld d = zeroTime ∧
    deliveries td' = <[te_DeliveryID ev :=
      truncateDelivery ((lset fld (te_CreatedAt ev) d) <| d_UpdatedAt := te_CreatedAt ev |>)]> (deliveries td);
}.

(** What one step of the buffer may do to a tenant's deliveries: nothing, or
    derive one column from an event recorded for this tenant. *)
Definition humanStep (b b' : TrackingBuffer) : Prop :=
  ∀ t td', pv_tenants (tb_store b') !! t = Some td' →
    let td := default newTenantData (pv_tenants (tb_store b) !! t) in
    deliveries td' = deliveries td ∨
    ∃ ev, ev ∈ tb_history b ∧ te_TenantID ev = t ∧ derivedFrom ev td td'.

Lemma humanStep_store b b' : tb_store b' = tb_store b → humanStep b b'.
Proof. intros E t td' Ht. rewrite E in Ht. rewrite Ht. by left. Qed.

(** The others only add to the history, and what is buffered was recorded. *)
Definition recorded (b b' : TrackingBuffer) : Prop :=
  tb_history b ⊆ tb_history b' ∧ tb_buf b' ⊆ tb_history b'.

Lemma setter_derives k set ev env td r td' :
  firstSetter k = Some set → te_Kind ev = k → te_SuspectedBot ev = false →
  set env (te_DeliveryID ev) (te_CreatedAt ev) td = (r, td') →
  deliveries td' = deliveries td ∨ derivedFrom ev td td'.
Proof.
  intros Hs Hk Hh Hset.
  assert (∃ fld, firstColumn (te_Kind ev) = Some fld ∧ setFirst env (te_DeliveryID ev) (te_CreatedAt ev) fld td = (r, td'))
    as (fld&Hf&Hset').
  { rewrite Hk. destruct k; simplify_eq/=; eexists; (split; [reflexivity|exact Hset]). }
  clear Hset. unfold setFirst, checked, throw in Hset'. destruct (e_closed env); [simplify_eq; by left|].
  destruct (deliveries td !! te_DeliveryID ev) as [d|] eqn:Hd; [|simplify_eq; by left].
  destruct (IsZero (lget fld d)) eqn:Hz; cbn in Hset'; simplify_eq; [|by left]. right. split; [done|].
  exists fld, d. split_and!; [done..| |done]. unfold IsZero in Hz. by to_prop.
Qed.

Lemma humanStep_onStore {A} b t clock newID (op : Env → M tenantData A) r s' :
  onStore t clock newID op (tb_store b) = (r, s') →
  (∀ env td r td', op env td = (r, td') →
    deliveries td' = deliveries td ∨ ∃ ev, ev ∈ tb_history b ∧ te_TenantID ev = t ∧ derivedFrom ev td td') →
  humanStep b (b <| tb_store := s' |>).
Proof.
  unfold onStore. intros Hon Hop. destruct (pv_tenants (tb_store b) !! t) as [td|] eqn:Ht; [|simplify_eq; by apply humanStep_store].
  destruct (op _ td) as [r0 td'] eqn:Ho. simplify_eq. intros u tdu. cbn.
  intros [[<- <-]|[Hne Hu]]%lookup_insert_Some; [rewrite Ht; by eapply Hop|]. rewrite Hu. by left.
Qed.

Lemma insertEvents_deliveries env i evs td : deliveries (insertEvents env i evs td) = deliveries td.
Proof. revert i td. induction evs as [|e evs IH]; intros i td; cbn [insertEvents]; [done|]. by rewrite IH. Qed.

(** A step of a flush. *)
Definition derives (b b' : TrackingBuffer) : Prop := keeps b b' ∧ humanStep b b'.

Abbreviation human p := (wp recorded derives p (λ _ _, True)).

Lemma human_history {A} (p : progOn TrackingBuffer A) b :
  human p b → wp recorded derives p (λ _ b', tb_history b ⊆ tb_history b') b.
Proof.
  enough (H : ∀ b1, tb_history b ⊆ tb_history b1 → human p b1 → wp recorded derives p (λ _ b', tb_history b ⊆ tb_history b') b1)
    by by apply H.
  induction p as [r|B op k IH|k IH]; cbn [wp]; intros b1 H1; [done| |].
  - intros Hp env b0 Hr. specialize (Hp env b0 Hr). destruct (op env b0) as [r b2]. destruct Hp as [HG Hp].
    split; [done|]. apply IH; [|done]. rewrite (kp_history _ _ (proj1 HG)). etrans; [done|]. apply Hr.
  - intros Hp c. by apply IH.
Qed.

Lemma human_handle {A B} (p : progOn TrackingBuffer A) (k : error + A → progOn TrackingBuffer B) (I : TrackingBuffer → Prop) b :
  wp recorded derives p (λ _ b', I b') b → (∀ r b', I b' → human (k r) b') → human (handle p k) b.
Proof. intros Hp Hk. apply wp_handle. eapply wp_mono; [|exact Hp]. intros r b' HI. by apply Hk. Qed.

(** A group of recorded events of one tenant. *)
Definition group (t : string) (events : list TrackingEvent) (b : TrackingBuffer) : Prop :=
  ∀ ev, ev ∈ events → te_TenantID ev = t ∧ ev ∈ tb_history b.

Lemma group_recorded t events b b' : recorded b b' → group t events b → group t events b'.
Proof. intros [Hh _] Hg ev Hev. destruct (Hg ev Hev). split; [done|]. by apply Hh. Qed.

Lemma human_deriveFirsts t seen events b :
  group t events b → human (onProvider (inTenant t (deriveFirsts seen events))) b.
Proof.
  revert seen b. induction events as [|ev events IH]; intros seen b Hg; cbn [deriveFirsts]; [done|].
  assert (Hg' : group t events b) by (intros e He; apply Hg; by right).
  destruct (te_SuspectedBot ev) eqn:Hbot; cbn [orb]; [by apply IH|]. destruct (strEq _ _); [by apply IH|].
  destruct (firstSetter (te_Kind ev)) as [set|] eqn:Hset; [|by apply IH]. case_bool_decide; [by apply IH|].
  cbn [handle call inTenant onProvider]. intros env b0 Hr.
  destruct (onStore _ _ _ _ _) as [r s'] eqn:Hon. split; [split; [apply keeps_store|]|].
  - eapply humanStep_onStore; [exact Hon|]. intros env' td r' td' Hs. cbn in Hs.
    destruct (setter_derives _ _ _ _ _ _ _ Hset eq_refl Hbot Hs) as [?|?]; [by left|right].
    exists ev. destruct (Hg ev) as [? Hh]; [by left|]. split_and!; [|done..]. destruct Hr as [Hr _]. by apply Hr.
  - apply IH. eapply (group_recorded t events b b0) in Hg'; done.
Qed.

(** One call of the store, which keeps the group's events recorded. *)
Lemma human_call {A} (op : Env → M Provider A) t events b :
  group t events b →
  (∀ env b r s', op env (tb_store b) = (r, s') → humanStep b (b <| tb_store := s' |>)) →
  wp recorded derives (onProvider (call op)) (λ _ b', group t events b') b.
Proof.
  intros Hg Hop env b0 Hr. destruct (op env (tb_store b0)) as [r s'] eqn:Ho. split; [by split; [apply keeps_store|eapply Hop]|].
  exact (group_recorded _ _ _ _ Hr Hg).
Qed.

Lemma human_locked {A} (f : TrackingBuffer → A * TrackingBuffer) t events b :
  group t events b → (∀ b, tb_store (f b).2 = tb_store b ∧ keeps b (f b).2) →
  wp recorded derives (locked f) (λ _ b', group t events b') b.
Proof.
  intros Hg Hf env b0 Hr. destruct (f b0) as [a b1] eqn:E. destruct (Hf b0) as [Hs Hh]. rewrite E in Hs, Hh. cbn in Hs, Hh.
  split; [by split; [|apply humanStep_store]|]. intros ev Hev. rewrite (kp_history _ _ Hh). by apply (group_recorded _ _ _ _ Hr Hg).
Qed.

Lemma ForTenant_human t b r s' : ForTenant t (tb_store b) = (r, s') → humanStep b (b <| tb_store := s' |>).
Proof.
  unfold ForTenant, pchecked. destruct (pv_closed _); [intros [= <- <-]; by apply humanStep_store|].
  destruct (pv_tenants _ !! t) eqn:Ht; intros [= <- <-]; [by apply humanStep_store|]. intros u td'. cbn.
  intros [[<- <-]|[Hne Hu]]%lookup_insert_Some; [rewrite Ht; by left|]. rewrite Hu. by left.
Qed.

Lemma human_flushTenant t events b : group t events b → human (flushTenant t events) b.
Proof.
  intros Hg. unfold flushTenant.
  assert (Hfail : ∀ b, group t events b → human (locked (λ b, (tt, countFailed (len events) b))) b).
  { intros b1 H1. eapply wp_mono; [|apply (human_locked _ t events); [done|]]; [done|]. intros b0. split; [done|apply keeps_stats]. }
  apply (human_handle _ _ (group t events)); [apply human_call; [done|]|intros [e|u] b1 H1; [by apply Hfail|]].
  { intros _ b0 r s'. apply ForTenant_human. }
  apply (human_handle _ _ (group t events)); [apply human_call; [done|]|intros [e|[]] b2 H2; [by apply Hfail|]].
  { intros env b0 r s' Hon. eapply humanStep_onStore; [exact Hon|]. intros env' td r' td'.
    unfold InsertEvents, checked, throw. destruct (e_closed env'); intros [= <- <-]; left; [done|].
    apply insertEvents_deliveries. }
  apply (human_handle _ _ (group t events)); [apply human_locked; [done|]; intros b0; split; [done|apply keeps_stats]|].
  intros [e|[]] b3 H3; [done|]. by apply human_deriveFirsts.
Qed.

Lemma human_flushTenants batch ids b : batch ⊆ tb_history b → human (flushTenants batch ids) b.
Proof.
  revert b. induction ids as [|id ids IH]; intros b Hb; cbn [flushTenants]; [done|].
  apply (human_handle _ _ (λ b', tb_history b ⊆ tb_history b')).
  - apply human_history, human_flushTenant. intros ev [Ht Hev]%list_elem_of_filter. split; [done|]. by apply Hb.
  - intros r b' Hh. apply IH. by etrans.
Qed.

Lemma human_flush shuffle b : human (flushBuffer shuffle) b.
Proof.
  intros env b0 Hr. cbn. split; [split; [split; [done..|by right]|by apply humanStep_store]|].
  apply human_flushTenants. apply Hr.
Qed.

Section sources.
Context (maxBuffer flushSize : Z) (shuffle : list string → list string) (Hmax : 0 < maxBuffer).

(** A running flush, from a state the buffer evolved from. *)
Definition sourced (p : progOn TrackingBuffer unit) (b : TrackingBuffer) : Prop :=
  ∃ b0, recorded b0 b ∧ human p b0.
Definition loopSourced (l : loopPhase) (b : TrackingBuffer) : Prop :=
  match l with LoopFlushing p | LoopFinal p => sourced p b | _ => True end.
Definition closeSourced (c : closePhase) (b : TrackingBuffer) : Prop :=
  match c with CloseFinal p => sourced p b | _ => True end.

Definition allSourced (s : trackState) : Prop :=
  tb_buf (tr_buffer s) ⊆ tb_history (tr_buffer s) ∧
  loopSourced (tr_loop s) (tr_buffer s) ∧ closeSourced (tr_close s) (tr_buffer s).

Lemma sourced_recorded p b b' : recorded b b' → sourced p b → sourced p b'.
Proof. intros [H1 H2] (b0&[H3 _]&Hp). exists b0. split; [|done]. split; [by etrans|done]. Qed.

Lemma allSourced_recorded s b' :
  recorded (tr_buffer s) b' → allSourced s → allSourced (s <| tr_buffer := b' |>).
Proof.
  intros Hr (Hb&Hl&Hc). split_and!; cbn; [apply Hr| |].
  - destruct (tr_loop s); try done; by eapply sourced_recorded.
  - destruct (tr_close s); try done; by eapply sourced_recorded.
Qed.

Lemma sourced_flush b : tb_buf b ⊆ tb_history b → sourced (flushBuffer shuffle) b.
Proof. intros Hb. exists b. split; [done|]. apply human_flush. Qed.

Lemma keeps_recorded b b' : keeps b b' → tb_buf b ⊆ tb_history b → recorded b b'.
Proof. intros [Hh _ _ Hb] H. split; rewrite Hh; [done|]. destruct Hb as [->| ->]; [done|]. apply list_subseteq_nil. Qed.

Lemma flushStep_sourced p b p' b' :
  flushStep p b p' b' → sourced p b → derives b b' ∧ (tb_buf b ⊆ tb_history b → sourced p' b').
Proof.
  intros [B op k env r w w' Hop|k c w] (b0&Hr&Hp).
  - specialize (Hp env w Hr). cbn in Hp. rewrite Hop in Hp. destruct Hp as [HG Hp]. split; [done|].
    intros Hb. exists w'. split; [|done]. split; [done|]. by apply (keeps_recorded _ _ (proj1 HG)).
  - split; [split; [split; [done..|by left]|by apply humanStep_store]|]. intros _. exists b0. split; [done|]. apply Hp.
Qed.

Lemma record_recorded ev env b :
  len (tb_buf b) ≤ maxBuffer → tb_buf b ⊆ tb_history b → recorded b (RecordEvent maxBuffer flushSize ev env b).
Proof.
  intros Hm Hb. destruct (record_spec maxBuffer flushSize Hmax ev env b Hm) as (_&_&_&_&_&_&_&x&Hx&Hy).
  split; rewrite Hx; [by apply list_subseteq_app_l|]. intros y Hyb. apply elem_of_app.
  destruct (Hy y Hyb) as [->|?]; [right; by apply list_elem_of_singleton|left; by apply Hb].
Qed.

Lemma bufferStep_sourced s s' :
  bufferStep maxBuffer flushSize shuffle s s' → len (tb_buf (tr_buffer s)) ≤ maxBuffer → allSourced s →
  humanStep (tr_buffer s) (tr_buffer s') ∧ allSourced s'.
Proof.
  intros Hs Hm Ha. pose proof Ha as (Hb&Hl&Hc). pose proof (sourced_flush (tr_buffer s) Hb) as Hf.
  destruct Hs as [env ev s|s HL|s|s HL|s HL Hwk|s HL Hwhy|p p' b' s HL Hp|r s HL|p p' b' s HL Hp|r s HL|s HC|p p' b' s HC Hp|r s HC|s HC HL].
  - split; [apply humanStep_store; by destruct (record_spec maxBuffer flushSize Hmax ev env (tr_buffer s) Hm) as (_&_&_&_&_&?&_)|].
    apply allSourced_recorded; [by apply record_recorded|done].
  - split; [by apply humanStep_store|]. by split_and!.
  - by split; [apply humanStep_store|].
  - split; [by apply humanStep_store|]. by split_and!.
  - split; [by apply humanStep_store|]. by split_and!.
  - split; [by apply humanStep_store|]. by split_and!.
  - rewrite HL in Hl. destruct (flushStep_sourced _ _ _ _ Hp Hl) as [[Hk Hh] Hs].
    destruct (allSourced_recorded s b') as (?&_&?); [by apply keeps_recorded|done|]. split; [done|]. split_and!; [done| |done]. by apply Hs.
  - split; [by apply humanStep_store|]. by split_and!.
  - rewrite HL in Hl. destruct (flushStep_sourced _ _ _ _ Hp Hl) as [[Hk Hh] Hs].
    destruct (allSourced_recorded s b') as (?&_&?); [by apply keeps_recorded|done|]. split; [done|]. split_and!; [done| |done]. by apply Hs.
  - split; [by apply humanStep_store|]. by split_and!.
  - split; [by apply humanStep_store|]. split_and!; [done..|]. cbn. by destruct (tb_started _).
  - rewrite HC in Hc. destruct (flushStep_sourced _ _ _ _ Hp Hc) as [[Hk Hh] Hs].
    destruct (allSourced_recorded s b') as (?&?&_); [by apply keeps_recorded|done|]. split; [done|]. split_and!; [done..|]. by apply Hs.
  - split; [by apply humanStep_store|]. by split_and!.
  - split; [by apply humanStep_store|]. by split_and!.
Qed.

Lemma trackStep_sourced s s' :
  trackStep maxBuffer flushSize shuffle s s' → len (tb_buf (tr_buffer s)) ≤ maxBuffer → allSourced s → allSourced s'.
Proof.
  intros [s1 s1' Hs|q s1] Hm Ha; [by eapply bufferStep_sourced|]. apply allSourced_recorded; [|done].
  apply keeps_recorded; [apply keeps_store|apply Ha].
Qed.
End sources.

(** Whatever the interleaving, a step of the buffer
    changes a tenant's deliveries in one way only: it sets the empty first
    column (opened, clicked or unsubscribed) of one delivery, to the time of an
    event of that kind that was recorded for that tenant and that delivery and
    is not suspected to be a bot's.  A scanner's click and an unconfirmed
    unsubscribe request never count as a first interaction, and a first
    interaction is never overwritten. *)
Theorem first_interactions_human maxBuffer flushSize shuffle p s s' :
  0 < maxBuffer → (∀ l, shuffle l ≡ₚ l) →
  rtc (trackStep maxBuffer flushSize shuffle) (trackNew p) s →
  bufferStep maxBuffer flushSize shuffle s s' →
  humanStep (tr_buffer s) (tr_buffer s').
Proof.
  intros Hmax Hsh Hr Hs.
  assert (HI : accounted maxBuffer s ∧ allSourced s).
  { cut (accounted maxBuffer (trackNew p) ∧ allSourced (trackNew p)); [|split; [by apply trackNew_accounted|done]].
    clear Hs. induction Hr as [|s1 s2 s3 Hs Hr IH]; [done|]. intros [Ha Hso]. apply IH.
    split; [by eapply trackStep_accounted|]. eapply trackStep_sourced; [done..| |done]. apply Ha. }
  destruct HI as [[_ Hb] Hso]. by destruct (bufferStep_sourced _ _ _ Hmax _ _ Hs Hb Hso).
Qed.

(** ** A buffer at work *)

(** The first [n] steps of a flush. *)
Fixpoint advance (n : nat) (env : Env) (p : progOn TrackingBuffer unit) (b : TrackingBuffer)
    : progOn TrackingBuffer unit * TrackingBuffer :=
  match n, p with
  | S n, Call op k => let '(r, b') := op env b in advance n env (k r) b'
  | S n, Poll k => advance n env (k false) b
  | _, _ => (p, b)
  end.

Lemma advance_closing maxBuffer flushSize shuffle n env p s :
  tr_close s = CloseFinal p →
  rtc (trackStep maxBuffer flushSize shuffle) s
    (s <| tr_buffer := (advance n env p (tr_buffer s)).2 |> <| tr_close := CloseFinal (advance n env p (tr_buffer s)).1 |>).
Proof.
  revert p s. induction n as [|n IH]; intros p s Hc.
  - destruct s. cbn in *. by subst.
  - destruct p as [r|B op k|k]; cbn [advance].
    + destruct s. cbn in *. by subst.
    + destruct (op env (tr_buffer s)) as [r b'] eqn:Hop. eapply rtc_l.
      { apply tk_own. eapply tk_closing; [exact Hc|]. by apply fs_call with (env := env). }
      exact (IH (k r) (s <| tr_buffer := b' |> <| tr_close := CloseFinal (k r) |>) eq_refl).
    + eapply rtc_l.
      { apply tk_own. eapply tk_closing; [exact Hc|]. apply fs_poll with (c := false). }
      exact (IH (k false) (s <| tr_buffer := tr_buffer s |> <| tr_close := CloseFinal (k false) |>) eq_refl).
Qed.

Definition finished (p : progOn TrackingBuffer unit) : bool := match p with Done _ => true | _ => false end.

Lemma advance_step n env p b :
  finished (advance n env p b).1 = false →
  flushStep (advance n env p b).1 (advance n env p b).2 (advance (S n) env p b).1 (advance (S n) env p b).2.
Proof.
  revert p b. induction n as [|n IH]; intros p b; destruct p as [r|B op k|k]; cbn [advance]; try done.
  - intros _. cbn [fst snd]. destruct (op env b) as [r b'] eqn:Hop. by eapply fs_call.
  - intros _. apply fs_poll.
  - destruct (op env b) as [r b']. apply IH.
  - apply IH.
Qed.

Lemma closing_step maxBuffer flushSize shuffle s p b p' b' :
  flushStep p b p' b' →
  bufferStep maxBuffer flushSize shuffle (s <| tr_buffer := b |> <| tr_close := CloseFinal p |>)
    (s <| tr_buffer := b' |> <| tr_close := CloseFinal p' |>).
Proof. intros H. exact (tk_closing _ _ _ p p' b' (s <| tr_buffer := b |> <| tr_close := CloseFinal p |>) eq_refl H). Qed.

Definition sampleTracked : Provider :=
  mkProvider false {["acme" := newTenantData <| deliveries := {["d1" := zero <| d_ID := "d1" |>]} |>]}.
Definition trackEnv : Env := mkEnv false Hour "acme" (λ _, "x").
Definition humanOpen : TrackingEvent :=
  zero <| te_ID := "e1" |> <| te_TenantID := "acme" |> <| te_DeliveryID := "d1" |>
       <| te_Kind := TrackingOpen |> <| te_CreatedAt := Minute |>.
Definition botClick : TrackingEvent :=
  zero <| te_ID := "e2" |> <| te_TenantID := "acme" |> <| te_DeliveryID := "d1" |>
       <| te_Kind := TrackingClick |> <| te_SuspectedBot := true |>.

(** Two events recorded, then [Close] on a buffer that was never started, [n]
    steps into its last flush. *)
Definition trackRecorded : trackState :=
  let s := trackNew sampleTracked in
  let s := s <| tr_buffer := RecordEvent 10 5 botClick trackEnv (tr_buffer s) |> in
  let s := s <| tr_buffer := RecordEvent 10 5 humanOpen trackEnv (tr_buffer s) |> in
  s <| tr_buffer := (tr_buffer s) <| tb_closed := true |> |> <| tr_close := CloseFinal (flushBuffer (λ l, l)) |>.

Definition trackAt (n : nat) : trackState :=
  let a := advance n trackEnv (flushBuffer (λ l, l)) (tr_buffer trackRecorded) in
  trackRecorded <| tr_buffer := a.2 |> <| tr_close := CloseFinal a.1 |>.

Lemma trackAt_reachable n : rtc (trackStep 10 5 (λ l, l)) (trackNew sampleTracked) (trackAt n).
Proof.
  transitivity trackRecorded; [|by apply advance_closing].
  eapply rtc_l; [apply tk_own, (tk_record _ _ _ trackEnv botClick)|].
  eapply rtc_l; [apply tk_own, (tk_record _ _ _ trackEnv humanOpen)|].
  eapply rtc_l; [by apply tk_own, tk_close|]. reflexivity.
Qed.

Definition trackEnd : trackState := (trackAt 9) <| tr_close := CloseDone |>.

Lemma tracking_accounted_witness :
  tb_buf (tr_buffer trackEnd) = [] ∧ ks_Flushed (tb_stats (tr_buffer trackEnd)) = 2 ∧
  len (tb_history (tr_buffer trackEnd)) = 2.
Proof.
  assert (Hr : rtc (trackStep 10 5 (λ l, l)) (trackNew sampleTracked) trackEnd).
  { eapply rtc_r; [apply (trackAt_reachable 9)|]. apply tk_own, (tk_closed _ _ _ (inr tt)). vm_compute. reflexivity. }
  destruct (tracking_accounted 10 5 (λ l, l) sampleTracked trackEnd) as (_&_&Hend); [done|done|exact Hr|].
  split_and!; [by apply Hend|vm_compute; reflexivity..].
Defined.

(** The fifth step sets the first open of [d1]; the bot's click sets nothing. *)
Lemma first_interactions_human_witness :
  humanStep (tr_buffer (trackAt 4)) (tr_buffer (trackAt 5)) ∧
  (λ td, (λ d, (d_FirstOpenedAt d, d_FirstClickedAt d)) <$> deliveries td !! "d1") <$>
    pv_tenants (tb_store (tr_buffer (trackAt 5))) !! "acme" = Some (Some (Minute, zeroTime)).
Proof.
  split; [|vm_compute; reflexivity].
  apply (first_interactions_human 10 5 (λ l, l) sampleTracked (trackAt 4) (trackAt 5)); [done|done|apply trackAt_reachable|].
  apply closing_step, advance_step. vm_compute. reflexivity.
Defined.

(** When the context of [Start] ends first, the flusher makes its last flush
    and is gone; [Close] then waits for it and flushes nothing.  An event
    recorded in between stays in the buffer of a closed [TrackingBuffer],
    neither written nor counted as lost. *)
Lemma close_after_cancel_strands :
  ∃ s, rtc (trackStep 10 5 (λ l, l)) (trackNew sampleTracked) s ∧
    tr_close s = CloseDone ∧ tr_loop s = LoopDone ∧ tb_buf (tr_buffer s) = [humanOpen] ∧
    tb_stats (tr_buffer s) = mkTrackingStats 0 0 0.
Proof.
  eexists. split.
  - eapply rtc_l; [by apply tk_own, tk_start|]. eapply rtc_l; [apply tk_own, tk_cancel|].
    eapply rtc_l; [apply tk_own, tk_stop; [done|by left]|].
    eapply rtc_l; [apply tk_own; eapply tk_final; [done|]; by apply (fs_call _ _ _ trackEnv)|].
    eapply rtc_l; [apply tk_own; by eapply tk_done|].
    eapply rtc_l; [apply tk_own, (tk_record _ _ _ trackEnv humanOpen)|].
    eapply rtc_l; [by apply tk_own, tk_close|]. eapply rtc_l; [by apply tk_own, tk_waited|]. reflexivity.
  - vm_compute. done.
Qed.
