(* ===== verification/SenderLoop.v ===== *)
(** * The claim loop of a sender replica ([internal/sender/sender.go])

    One goroutine walks the tenants round-robin and claims, for every lane,
    what the lane's worker pool and the tenant's share have room for; the
    workers take the claimed deliveries off the lane's channel.  The loop is a
    program whose atomic steps are its loads and adds of the counters, its
    store calls and its channel sends; the workers' steps run in between.  What
    a worker does with a delivery is [Send.process]; here it is a job. *)

From S2P Require Import Prelude Enums Model MemTable MemData DeliveryRepo DeliveryQueue DeliveryProps Repos Provider Prog.

(** ** Configuration *)

Record loopConfig := mkLoopConfig {
  lc_WorkerID : string;
  lc_Lanes : gmap Lane Z;
  lc_ClaimBatch : Z;
  lc_LeaseFor : Duration;
  lc_PollInterval : Duration;
  lc_CampaignRefresh : Duration;
  lc_TenantConcurrency : Z;
  lc_WorkerTTL : Duration;
  (** [cfg.Platform != nil && len(cfg.Platform.Catalog().Senders) > 0] *)
  lc_PlatformSenders : bool;
}.
#[global] Instance loopConfig_eta : Eta loopConfig := λ c,
  mkLoopConfig (lc_WorkerID c) (lc_Lanes c) (lc_ClaimBatch c) (lc_LeaseFor c) (lc_PollInterval c)
    (lc_CampaignRefresh c) (lc_TenantConcurrency c) (lc_WorkerTTL c) (lc_PlatformSenders c).

Definition DefaultClaimBatch : Z := 64.
Definition DefaultLeaseFor : Duration := 2 * Minute.
Definition DefaultPollInterval : Duration := 200 * Millisecond.
Definition DefaultCampaignRefresh : Duration := 3 * Second.
Definition DefaultTenantConcurrency : Z := 64.
Definition DefaultWorkerTTL : Duration := 30 * Second.

(** [if c.X <= 0 { c.X = Default }] *)
Definition positiveOr (x def : Z) : Z := if x <=? 0 then def else x.

(** [Config.withDefaults], the fields the loop reads *)
Definition loopDefaults (c : loopConfig) : loopConfig :=
  c <| lc_Lanes := if Z.of_nat (size (lc_Lanes c)) =? 0
                   then {[LaneTransactional := 8; LaneBulk := 32]} else lc_Lanes c |>
    <| lc_ClaimBatch := positiveOr (lc_ClaimBatch c) DefaultClaimBatch |>
    <| lc_LeaseFor := positiveOr (lc_LeaseFor c) DefaultLeaseFor |>
    <| lc_PollInterval := positiveOr (lc_PollInterval c) DefaultPollInterval |>
    <| lc_CampaignRefresh := positiveOr (lc_CampaignRefresh c) DefaultCampaignRefresh |>
    <| lc_TenantConcurrency := positiveOr (lc_TenantConcurrency c) DefaultTenantConcurrency |>
    <| lc_WorkerTTL := positiveOr (lc_WorkerTTL c) DefaultWorkerTTL |>.

(** ** State *)

Record job := mkJob { jb_tenant : string; jb_delivery : Delivery }.

(** [lane]: its channel [la_jobs] and the counter [la_inflight]; [la_running]
    are the jobs its workers handle, [la_ending] those whose worker has
    decremented the lane's counter and not yet the tenant's. *)
Record lane := mkLane {
  la_kind : Lane;
  la_size : Z;
  la_jobs : list job;
  la_inflight : Z;
  la_running : list job;
  la_ending : list job;
}.
#[global] Instance lane_eta : Eta lane := λ l,
  mkLane (la_kind l) (la_size l) (la_jobs l) (la_inflight l) (la_running l) (la_ending l).

(** [tenantState], what the loop keeps of a tenant *)
Record senderTenant := mkSenderTenant {
  tn_inflight : Z;
  tn_running : list string;
  tn_runningAt : Time;
  tn_workers : Z;
}.
#[global] Instance senderTenant_eta : Eta senderTenant := λ t,
  mkSenderTenant (tn_inflight t) (tn_running t) (tn_runningAt t) (tn_workers t).

(** [Sender], with the provider it works on *)
Record loopWorld := mkLoopWorld {
  lw_lanes : list lane;
  lw_tenants : gmap string senderTenant;
  lw_order : list string;
  lw_cursor : Z;
  lw_workers : Z;
  lw_store : Provider;
}.
#[global] Instance loopWorld_eta : Eta loopWorld := λ w,
  mkLoopWorld (lw_lanes w) (lw_tenants w) (lw_order w) (lw_cursor w) (lw_workers w) (lw_store w).

(** The lanes of [New], served in this order. *)
Definition newLanes (c : loopConfig) : list lane :=
  omap (λ kind,
    match lc_Lanes c !! kind with
    | Some n => if n <=? 0 then None else Some (mkLane kind n [] 0 [] [])
    | None => None
    end) [LaneTransactional; LaneBulk; LaneProbe].

(** [New]: a replica that has not touched the store. *)
Definition newSender (c : loopConfig) (p : Provider) : error + loopWorld :=
  if strEq (lc_WorkerID c) "" then inl (errNamed "sender: WorkerID is required")
  else
    let lanes := newLanes (loopDefaults c) in
    if len lanes =? 0 then inl (errNamed "sender: no lane has a worker pool")
    else inr (mkLoopWorld lanes ∅ [] 0 1 p).

(** ** Atomic steps *)

(** A load of shared state, and a critical section. *)
Definition load {A} (f : loopWorld → A) : progOn loopWorld A := call (λ _ w, (inr (f w), w)).
Definition update (f : loopWorld → loopWorld) : progOn loopWorld unit := call (λ _ w, (inr tt, f w)).

(** [cfg.Clock()] *)
Definition readClock : progOn loopWorld Time := call (λ env w, (inr (e_clock env), w)).

(** A call of the provider and of a tenant's store. *)
Definition provCall {A} (op : Env → M Provider A) : progOn loopWorld A :=
  call (λ env w, let '(r, s) := op env (lw_store w) in (r, w <| lw_store := s |>)).
Definition tenantCall {A} (t : string) (op : Env → M tenantData A) : progOn loopWorld A :=
  provCall (λ env, onStore t (e_clock env) (e_newID env) op).

(** [l.inflight.Add(n)], [t.inflight.Add(n)] *)
Definition addLane (li : nat) (n : Z) (w : loopWorld) : loopWorld :=
  w <| lw_lanes := alter (λ l, l <| la_inflight := la_inflight l + n |>) li (lw_lanes w) |>.
Definition addTenant (t : string) (n : Z) (w : loopWorld) : loopWorld :=
  w <| lw_tenants := alter (λ x, x <| tn_inflight := tn_inflight x + n |>) t (lw_tenants w) |>.

(** A send on a full channel blocks the loop: the program would stay here. *)
Definition errBlocked : error := errNamed "blocked on a full channel".

(** [l.jobs <- job]; the channel's capacity is the lane's size. *)
Definition pushJob (li : nat) (j : job) : progOn loopWorld unit :=
  call (λ _ w,
    match lw_lanes w !! li with
    | Some l =>
        if len (la_jobs l) <? la_size l
        then (inr tt, w <| lw_lanes := <[li := l <| la_jobs := la_jobs l ++ [j] |>]> (lw_lanes w) |>)
        else (inl errBlocked, w)
    | None => (inl errBlocked, w)
    end).

Section loop.
Context (cfg : loopConfig).

(** ** Tenants *)

(** [Sender.tenant]: whether the tenant's state is there, created on first use. *)
Definition tenant (id : string) : progOn loopWorld bool :=
  let? ok := load (λ w, bool_decide (is_Some (lw_tenants w !! id))) in
  if (ok : bool) then pret true
  else
    handle (provCall (λ _, ForTenant id)) (λ r,
      match r with
      | inl _ => pret false
      | inr _ =>
          let? _ := update (λ w,
            match lw_tenants w !! id with
            | Some _ => w
            | None => w <| lw_tenants := <[id := mkSenderTenant 0 [] zeroTime 0]> (lw_tenants w) |>
            end) in
          pret true
      end).

Fixpoint openTenants (ids : list string) : progOn loopWorld unit :=
  match ids with
  | [] => pret tt
  | id :: ids' => let? _ := tenant id in openTenants ids'
  end.

(** [Sender.refreshTenants] *)
Definition refreshTenants : progOn loopWorld unit :=
  let? ids := provCall (λ _, ActiveTenants) in
  let ids := if lc_PlatformSenders cfg then ids ++ [SystemTenantID] else ids in
  let? _ := update (λ w,
    w <| lw_order := ids |>
      <| lw_cursor := if 0 <? len ids then lw_cursor w mod len ids else 0 |>) in
  openTenants ids.

(** ** Claiming *)

(** The page loop of [runningCampaigns]; the source's [for] has no bound,
    [fuel] bounds the pages. *)
Fixpoint runningPages (fuel : nat) (t : string) (page : Page) (ids : list string) : progOn loopWorld (list string) :=
  match fuel with
  | O => fail errFuel
  | S fuel =>
      let? res := tenantCall t (λ env, ListByStatus env [CampaignRunning] page) in
      let ids := ids ++ (c_ID <$> res_Items res) in
      if strEq (res_NextCursor res) "" then pret ids
      else runningPages fuel t (page <| p_Cursor := res_NextCursor res |>) ids
  end.

(** [Sender.runningCampaigns] *)
Definition runningCampaigns (fuel : nat) (t : string) : progOn loopWorld (list string) :=
  let? now := readClock in
  let? cached := load (λ w, default (mkSenderTenant 0 [] zeroTime 0) (lw_tenants w !! t)) in
  if negb (IsZero (tn_runningAt cached)) && (subTime now (tn_runningAt cached) <? lc_CampaignRefresh cfg)
  then pret (tn_running cached)
  else
    let? ids := runningPages fuel t (mkPage MaxPageLimit "") [] in
    let? _ := update (λ w,
      w <| lw_tenants := alter (λ x, x <| tn_running := ids |> <| tn_runningAt := now |>) t (lw_tenants w) |>) in
    pret ids.

(** [l.inflight.Add(-n); t.inflight.Add(-n)] *)
Definition release (li : nat) (t : string) (n : Z) : progOn loopWorld unit :=
  let? _ := update (addLane li (- n)) in update (addTenant t (- n)).

(** The dispatch loop of [claimInto].  [Poll] is the race of the channel send
    with [ctx.Done()]. *)
Fixpoint sendJobs (li : nat) (t : string) (ds : list Delivery) : progOn loopWorld unit :=
  match ds with
  | [] => pret tt
  | d :: ds' =>
      let? _ := Poll (λ done : bool,
        if done then release li t 1
        else pushJob li (mkJob t d)) in
      sendJobs li t ds'
  end.

(** [claimInto] from the answer of the claim on: the part of the reservation
    that is not used goes back, the rest is dispatched. *)
Definition dispatchClaim (t : string) (li : nat) (limit : Z) (r : error + list Delivery) : progOn loopWorld Z :=
  match r with
  | inl _ => let? _ := release li t limit in pret 0
  | inr ds =>
      let unused := limit - len ds in
      let? _ := if 0 <? unused then release li t unused else pret tt in
      let? _ := sendJobs li t ds in
      pret (len ds)
  end.

(** [Sender.claimInto] *)
Definition claimInto (fuel : nat) (t : string) (li : nat) : progOn loopWorld Z :=
  let? laneFree := load (λ w, match lw_lanes w !! li with Some l => la_size l - la_inflight l | None => 0 end) in
  let? tenantFree := load (λ w,
    lc_TenantConcurrency cfg - match lw_tenants w !! t with Some x => tn_inflight x | None => 0 end) in
  let limit := Z.min (Z.min laneFree tenantFree) (lc_ClaimBatch cfg) in
  if limit <=? 0 then pret 0
  else
    handle (runningCampaigns fuel t) (λ r,
      match r with
      | inl _ => pret 0
      | inr campaigns =>
          let? _ := update (addLane li limit) in
          let? _ := update (addTenant t limit) in
          let? now := readClock in
          let? kind := load (λ w, match lw_lanes w !! li with Some l => la_kind l | None => LaneBulk end) in
          handle (tenantCall t (λ env, Claim env
              (mkClaimRequest kind (Some campaigns) limit (lc_LeaseFor cfg) (lc_WorkerID cfg) now)))
            (dispatchClaim t li limit)
      end).

Fixpoint claimLanes (fuel : nat) (t : string) (n : nat) (li : nat) (total : Z) : progOn loopWorld Z :=
  match n with
  | O => pret total
  | S n => let? c := claimInto fuel t li in claimLanes fuel t n (S li) (total + c)
  end.

(** The walk of [pass] over the tenants in their turn. *)
Fixpoint passTenants (fuel : nat) (ids : list string) (lanes : nat) (total : Z) : progOn loopWorld Z :=
  match ids with
  | [] => pret total
  | id :: ids' =>
      let? ok := tenant id in
      let? total := if (ok : bool) then claimLanes fuel id lanes 0 total else pret total in
      passTenants fuel ids' lanes total
  end.

(** [order[(start+i)%len(order)]] for every [i] *)
Definition rotated (order : list string) (start : Z) : list string :=
  (λ i, default "" (order !! Z.to_nat ((start + Z.of_nat i) mod len order))) <$> seq 0 (length order).

(** [Sender.pass] *)
Definition pass (fuel : nat) : progOn loopWorld Z :=
  let? snap := call (λ _ w,
    (inr (lw_order w, lw_cursor w),
     if 0 <? len (lw_order w) then w <| lw_cursor := (lw_cursor w + 1) mod len (lw_order w) |> else w)) in
  let? lanes := load (λ w, length (lw_lanes w)) in
  passTenants fuel (rotated snap.1 snap.2) lanes 0.

(** ** Workers

    [Sender.worker]: a worker of the lane takes the next job off the channel,
    handles it ([Send.process]), then decrements the lane's counter and the
    tenant's, each a step of its own. *)

Definition takeJob (li : nat) (w : loopWorld) : option loopWorld :=
  match lw_lanes w !! li with
  | Some l =>
      match la_jobs l with
      | j :: js =>
          if len (la_running l) + len (la_ending l) <? la_size l
          then Some (w <| lw_lanes := <[li := l <| la_jobs := js |> <| la_running := j :: la_running l |>]> (lw_lanes w) |>)
          else None
      | [] => None
      end
  | None => None
  end.

(** [l.inflight.Add(-1)] after the [i]-th running job *)
Definition endLane (li i : nat) (w : loopWorld) : option loopWorld :=
  match lw_lanes w !! li with
  | Some l =>
      match la_running l !! i with
      | Some j =>
          Some (w <| lw_lanes := <[li := l <| la_running := delete i (la_running l) |>
                                           <| la_ending := j :: la_ending l |>
                                           <| la_inflight := la_inflight l - 1 |>]> (lw_lanes w) |>)
      | None => None
      end
  | None => None
  end.

(** [j.t.inflight.Add(-1)] *)
Definition endTenant (li i : nat) (w : loopWorld) : option loopWorld :=
  match lw_lanes w !! li with
  | Some l =>
      match la_ending l !! i with
      | Some j =>
          Some (addTenant (jb_tenant j) (-1)
            (w <| lw_lanes := <[li := l <| la_ending := delete i (la_ending l) |>]> (lw_lanes w) |>))
      | None => None
      end
  | None => None
  end.

(** ** Heartbeats *)

Definition WorkerRoleSender : string := "sender".

(** [Sender.heartbeat] for one tenant, and the largest count so far. *)
Definition heartbeatOne (now : Time) (lanes : list Lane) (concurrency : Z) (t : string) (maxWorkers : Z)
    : progOn loopWorld Z :=
  handle (tenantCall t (λ env, Heartbeat env
      (mkWorker (lc_WorkerID cfg) "" WorkerRoleSender lanes concurrency zeroTime now))) (λ r,
    match r with
    | inl _ => pret maxWorkers
    | inr _ =>
        handle (tenantCall t (λ env, ListActive env (addTime now (- lc_WorkerTTL cfg)))) (λ r,
          match r with
          | inl _ => pret maxWorkers
          | inr active =>
              let n := Z.max 1 (len (filter (λ w, w_Role w = WorkerRoleSender) active)) in
              let? _ := update (λ w, w <| lw_tenants := alter (λ x, x <| tn_workers := n |>) t (lw_tenants w) |>) in
              pret (Z.max maxWorkers n)
          end)
    end).

Fixpoint heartbeats (now : Time) (lanes : list Lane) (concurrency : Z) (ts : list string) (maxWorkers : Z)
    : progOn loopWorld Z :=
  match ts with
  | [] => pret maxWorkers
  | t :: ts' =>
      let? n := heartbeatOne now lanes concurrency t maxWorkers in
      heartbeats now lanes concurrency ts' n
  end.

(** [Sender.heartbeat] *)
Definition heartbeat : progOn loopWorld unit :=
  let? ts := load (λ w, (map_to_list (lw_tenants w)).*1) in
  let? now := readClock in
  let? lanes := load lw_lanes in
  let? n := heartbeats now (la_kind <$> lanes) (foldr Z.add 0 (la_size <$> lanes)) ts 1 in
  update (λ w, w <| lw_workers := n |>).

(** ** The replica *)

(** What the loop goroutine runs in turn ([Sender.loop]): a refresh whose error
    it logs, a pass, and the tenants [probeTransports] opens. *)
Inductive loopBody (fuel : nat) : progOn loopWorld unit → Prop :=
  | body_refresh : loopBody fuel (handle refreshTenants (λ _, pret tt))
  | body_pass : loopBody fuel (let? _ := pass fuel in pret tt)
  | body_probe id : loopBody fuel (let? _ := tenant id in pret tt).

(** One step of the replica: the loop's next atomic step, a worker's, or
    anything that leaves lanes and tenants' counters alone (the store's other
    users, the heartbeats). *)
Inductive senderStep (fuel : nat) : progOn loopWorld unit * loopWorld → progOn loopWorld unit * loopWorld → Prop :=
  | st_call B (op : Env → M loopWorld B) k env r w w' :
      op env w = (r, w') → senderStep fuel (Call op k, w) (k r, w')
  | st_poll k b w : senderStep fuel (Poll k, w) (k b, w)
  | st_next p w : loopBody fuel p → senderStep fuel (Done (inr tt), w) (p, w)
  | st_take li p w w' : takeJob li w = Some w' → senderStep fuel (p, w) (p, w')
  | st_endLane li i p w w' : endLane li i w = Some w' → senderStep fuel (p, w) (p, w')
  | st_endTenant li i p w w' : endTenant li i w = Some w' → senderStep fuel (p, w) (p, w')
  | st_other p w w' :
      lw_lanes w' = lw_lanes w → tn_inflight <$> lw_tenants w' = tn_inflight <$> lw_tenants w →
      senderStep fuel (p, w) (p, w').
End loop.
