(* ===== verification/SenderLoopProps.v ===== *)
(** * Capacity and fairness of the claim loop

    In every interleaving of the loop with the workers, the counters account
    for the jobs exactly: no lane and no tenant has more jobs than its limit,
    the loop never blocks on a lane's channel, and no capacity leaks. *)

From S2P Require Import Prelude Enums Model MemTable MemData DeliveryRepo DeliveryQueue DeliveryProps Repos Provider Prog SenderLoop.

Create HintDb loop.

(** ** What the counters account for *)

(** The lanes and the tenants' counters, which is all that capacity depends on. *)
Definition counters : Type := list lane * gmap string Z.
Definition view (w : loopWorld) : counters := (lw_lanes w, tn_inflight <$> lw_tenants w).

(** The jobs of tenant [t] in a lane and in all of them. *)
Definition laneCount (t : string) (l : lane) : Z :=
  len (filter (λ j, jb_tenant j = t) (la_jobs l ++ la_running l ++ la_ending l)).
Definition jobCount (ls : list lane) (t : string) : Z := foldr Z.add 0 (laneCount t <$> ls).

Lemma laneCount_nonneg t l : 0 ≤ laneCount t l.
Proof. unfold laneCount, len. lia. Qed.

Lemma jobCount_nonneg ls t : 0 ≤ jobCount ls t.
Proof.
  unfold jobCount. induction ls as [|l ls IH]; cbn; [lia|]. pose proof (laneCount_nonneg t l). lia.
Qed.

Lemma jobCount_idle ls t : (∀ l, l ∈ ls → laneCount t l = 0) → jobCount ls t = 0.
Proof.
  unfold jobCount. induction ls as [|l ls IH]; [done|]. intros H. csimpl. rewrite IH, (H l); [done|by left|].
  intros x Hx. apply H. by right.
Qed.

Lemma jobCount_insert ls li l l' t :
  ls !! li = Some l → jobCount (<[li := l']> ls) t = jobCount ls t - laneCount t l + laneCount t l'.
Proof.
  unfold jobCount. revert li. induction ls as [|x ls IH]; intros [|li]; csimpl; intros H; simplify_eq; [lia|].
  rewrite (IH li H). lia.
Qed.

(** Kind and size of the lanes, which never change. *)
Definition shape (ls : list lane) : list (Lane * Z) := (λ l, (la_kind l, la_size l)) <$> ls.

(** [f li] slots of lane [li] and [g t] slots of tenant [t] are reserved and
    not yet jobs; a tenant the loop does not know has no jobs. *)
Record reserved (cfg : loopConfig) (f : nat → Z) (g : string → Z) (v : counters) : Prop := {
  rs_shape : shape v.1 = shape (newLanes cfg);
  rs_lane li l : v.1 !! li = Some l →
    la_inflight l = len (la_jobs l) + len (la_running l) + f li ∧ la_inflight l ≤ la_size l;
  rs_tenant t n : v.2 !! t = Some n → n = jobCount v.1 t + g t ∧ n ≤ lc_TenantConcurrency cfg;
  rs_unknown t : v.2 !! t = None → jobCount v.1 t = 0;
}.

(** Some non-negative reservation. *)
Definition accounted (cfg : loopConfig) (v : counters) : Prop :=
  ∃ f g, (∀ li, 0 ≤ f li) ∧ (∀ t, 0 ≤ g t) ∧ reserved cfg f g v.

(** Nothing is reserved: every slot in use is a job. *)
Definition settled (cfg : loopConfig) : counters → Prop := reserved cfg (λ _, 0) (λ _, 0).

(** The loop holds [a] slots of lane [li] and [b] slots of tenant [t]. *)
Record owns (cfg : loopConfig) (li : nat) (a : Z) (t : string) (b : Z) (v : counters) : Prop := {
  ow_reserved : reserved cfg (λ i, if decide (i = li) then a else 0) (λ s, if decide (s = t) then b else 0) v;
  ow_lane : is_Some (v.1 !! li);
  ow_tenant : is_Some (v.2 !! t);
}.

Lemma settled_accounted cfg v : settled cfg v → accounted cfg v.
Proof. intros H. by exists (λ _, 0), (λ _, 0). Qed.

Lemma owns_accounted cfg li a t b v : owns cfg li a t b v → 0 ≤ a → 0 ≤ b → accounted cfg v.
Proof. intros [H _ _] ? ?. eexists _, _. split_and!; [| |exact H]; intros; cbn; case_decide; lia. Qed.

Lemma reserved_ext cfg f g f' g' v :
  (∀ li, f li = f' li) → (∀ t, g t = g' t) → reserved cfg f g v → reserved cfg f' g' v.
Proof.
  intros Hf Hg [S L T U]. split; [done| | |done].
  - intros li l. rewrite <-Hf. apply L.
  - intros t n. rewrite <-Hg. apply T.
Qed.

Lemma settled_owns cfg li t v :
  settled cfg v → is_Some (v.1 !! li) → is_Some (v.2 !! t) → owns cfg li 0 t 0 v.
Proof. intros H ? ?. split; [|done..]. eapply reserved_ext; [| |exact H]; intros; cbn; by case_decide. Qed.

Lemma owns_settled cfg li t v : owns cfg li 0 t 0 v → settled cfg v.
Proof. intros [H _ _]. eapply reserved_ext; [| |exact H]; intros; cbn; by case_decide. Qed.

(** ** What the workers do meanwhile *)

(** Workers only free slots, and keep every reservation. *)
Record frees (v v' : counters) : Prop := {
  fr_lanes : Forall2 (λ a b, la_kind b = la_kind a ∧ la_size b = la_size a ∧ la_inflight b ≤ la_inflight a ∧
    la_inflight b - len (la_jobs b) - len (la_running b) = la_inflight a - len (la_jobs a) - len (la_running a)) v.1 v'.1;
  fr_tenants t :
    match v.2 !! t, v'.2 !! t with
    | Some m, Some n => n ≤ m ∧ n - jobCount v'.1 t = m - jobCount v.1 t
    | None, None => jobCount v'.1 t ≤ jobCount v.1 t
    | _, _ => False
    end;
}.

#[export] Instance frees_preorder : PreOrder frees.
Proof.
  split.
  - intros v. split; [apply Forall2_same_length_lookup_2; [done|]; intros i a b ? ?; by simplify_eq|].
    intros t. by destruct (v.2 !! t).
  - intros a b c [L1 T1] [L2 T2]. split.
    + eapply Forall2_trans; [|exact L1|exact L2]. cbn. intros x y z (?&?&?&?) (?&?&?&?). split_and!; congruence || lia.
    + intros t. specialize (T1 t). specialize (T2 t).
      destruct (a.2 !! t), (b.2 !! t), (c.2 !! t); try done; lia.
Qed.

(** What the loop knows is kept by the workers. *)
Definition stable (P : counters → Prop) : Prop := ∀ v v', frees v v' → P v → P v'.

Lemma stable_reserved cfg f g : stable (reserved cfg f g).
Proof.
  intros v v' [HL HT] [RS RL RT RU]. split.
  - rewrite <-RS. symmetry. unfold shape. clear -HL. induction HL as [|a b l k (Hk&Hs&_) _ IH]; csimpl; congruence.
  - intros li b Hb. destruct (Forall2_lookup_r _ _ _ _ _ HL Hb) as (a&Ha&_&Hs&Hle&Hsl).
    destruct (RL li a Ha). rewrite Hs. lia.
  - intros t n Hn. specialize (HT t). rewrite Hn in HT. destruct (v.2 !! t) as [m|] eqn:Hm; [|done].
    destruct (RT t m Hm). lia.
  - intros t Hn. specialize (HT t). rewrite Hn in HT. destruct (v.2 !! t) eqn:Hm; [done|].
    specialize (RU t Hm). pose proof (jobCount_nonneg v'.1 t). lia.
Qed.

Lemma stable_tenant t : stable (λ v, is_Some (v.2 !! t)).
Proof. intros v v' [_ HT] [n Hn]. specialize (HT t). rewrite Hn in HT. by destruct (v'.2 !! t). Qed.

Lemma stable_lane li : stable (λ v, is_Some (v.1 !! li)).
Proof.
  intros v v' [HL _] [l Hl]. destruct (Forall2_lookup_l _ _ _ _ _ HL Hl) as (b&Hb&_). by exists b.
Qed.

Lemma stable_owns cfg li a t b : stable (owns cfg li a t b).
Proof.
  intros v v' Hf [H1 H2 H3].
  split; [by eapply stable_reserved|by eapply (stable_lane li)|by eapply (stable_tenant t)].
Qed.

Lemma stable_and P Q : stable P → stable Q → stable (λ v, P v ∧ Q v).
Proof. intros HP HQ v v' Hf [? ?]. split; [by eapply HP|by eapply HQ]. Qed.

(** Room for [n] more jobs, seen once, stays. *)
Definition laneRoom (li : nat) (n : Z) (v : counters) : Prop :=
  ∃ l, v.1 !! li = Some l ∧ la_inflight l + n ≤ la_size l.
Definition tenantRoom (cfg : loopConfig) (t : string) (n : Z) (v : counters) : Prop :=
  ∃ m, v.2 !! t = Some m ∧ m + n ≤ lc_TenantConcurrency cfg.

Lemma stable_laneRoom li n : stable (laneRoom li n).
Proof.
  intros v v' [HL _] (l&Hl&Hn). destruct (Forall2_lookup_l _ _ _ _ _ HL Hl) as (b&Hb&_&Hs&?&_).
  exists b. split; [done|]. lia.
Qed.

Lemma stable_tenantRoom cfg t n : stable (tenantRoom cfg t n).
Proof.
  intros v v' [_ HT] (m&Hm&Hn). specialize (HT t). rewrite Hm in HT. destruct (v'.2 !! t) as [m'|] eqn:E; [|done].
  exists m'. split; [done|]. lia.
Qed.

#[export] Hint Resolve stable_reserved stable_tenant stable_lane stable_owns stable_and stable_laneRoom
  stable_tenantRoom settled_accounted : loop.

(** ** Programs that keep the books

    [holds P p Q]: started where [P] holds, [p] keeps the counters accounted
    for at each of its steps, whatever the workers do, and ends with [Q].  [P]
    and [Q] speak of the counters. *)
Section holds.
Context (cfg : loopConfig).

Definition rely (w w' : loopWorld) : Prop := frees (view w) (view w').
Definition booked (w w' : loopWorld) : Prop := accounted cfg (view w').

Definition holds {A} (P : counters → Prop) (p : progOn loopWorld A) (Q : error + A → counters → Prop) : Prop :=
  ∀ w, P (view w) → wp rely booked p (λ r w', Q r (view w')) w.

Lemma holds_ret {A} (P : counters → Prop) (r : error + A) (Q : error + A → counters → Prop) :
  (∀ v, P v → Q r v) → holds P (Done r) Q.
Proof. intros H w HP. by apply H. Qed.

Lemma holds_handle {A B} P (p : progOn loopWorld A) (k : error + A → progOn loopWorld B) Q Q' :
  holds P p Q' → (∀ r, holds (Q' r) (k r) Q) → holds P (handle p k) Q.
Proof.
  intros Hp Hk w HP. apply wp_handle. eapply wp_mono; [|by apply Hp]. intros r w' HQ. by apply Hk.
Qed.

Lemma holds_let {A B} P (p : progOn loopWorld A) (k : A → progOn loopWorld B) (P' : A → counters → Prop) Q :
  holds P p (λ r v, match r with inl e => Q (inl e) v | inr a => P' a v end) →
  (∀ a, holds (P' a) (k a) Q) → holds P (pbind p k) Q.
Proof.
  intros Hp Hk. apply (holds_handle P p _ Q _ Hp). intros [e|a]; [|apply Hk]. by apply holds_ret.
Qed.

Lemma holds_call {A} P (op : Env → M loopWorld A) (Q : error + A → counters → Prop) :
  stable P → (∀ v, P v → accounted cfg v) →
  (∀ env w, P (view w) → accounted cfg (view (op env w).2) ∧ Q (op env w).1 (view (op env w).2)) →
  holds P (call op) Q.
Proof.
  intros Hs Ha Hop w HP. apply wp_call. intros env w0 Hr. apply Hop. by eapply Hs.
Qed.

Lemma holds_mono {A} P P' (p : progOn loopWorld A) (Q Q' : error + A → counters → Prop) :
  holds P p Q → (∀ v, P' v → P v) → (∀ r v, Q r v → Q' r v) → holds P' p Q'.
Proof. intros Hp HP HQ w Hw. eapply wp_mono; [|by apply Hp, HP]. intros r w'. apply HQ. Qed.

(** A call that does not touch the counters. *)
Lemma holds_quiet {A} P (op : Env → M loopWorld A) (Q : error + A → counters → Prop) :
  stable P → (∀ v, P v → accounted cfg v) → (∀ env w, view (op env w).2 = view w) →
  (∀ r v, P v → Q r v) → holds P (call op) Q.
Proof.
  intros Hs Ha Hop HQ. apply holds_call; [done..|]. intros env w HP. rewrite Hop. split; [by apply Ha|by apply HQ].
Qed.
End holds.

(** ** The counters under the loop's steps *)

Lemma view_addLane li n w :
  view (addLane li n w) = (alter (λ l, l <| la_inflight := la_inflight l + n |>) li (view w).1, (view w).2).
Proof. reflexivity. Qed.

Lemma view_addTenant t n w : view (addTenant t n w) = ((view w).1, alter (λ m, m + n) t (view w).2).
Proof. unfold view, addTenant. cbn. f_equal. by apply fmap_alter. Qed.

(** The rest of a tenant's state is not in the view. *)
Lemma view_alter f t w :
  (∀ x, tn_inflight (f x) = tn_inflight x) → view (w <| lw_tenants := alter f t (lw_tenants w) |>) = view w.
Proof.
  intros Hf. unfold view. cbn. f_equal. apply map_eq. intros s. rewrite !lookup_fmap.
  destruct (decide (s = t)) as [->|]; [|by rewrite lookup_alter_ne].
  rewrite lookup_alter_eq. destruct (lw_tenants w !! t); cbn; [|done]. by rewrite Hf.
Qed.

Lemma alter_lookup {A} (f : A → A) (li : nat) (ls : list A) x : ls !! li = Some x → alter f li ls = <[li := f x]> ls.
Proof. revert li. induction ls as [|y ls IH]; intros [|li]; csimpl; intros H; simplify_eq; [done|]. f_equal. by apply IH. Qed.

(** A step on one lane. *)
Lemma reserved_lane cfg f g f' g' li l l' v :
  reserved cfg f g v → v.1 !! li = Some l →
  la_kind l' = la_kind l → la_size l' = la_size l →
  la_inflight l' = len (la_jobs l') + len (la_running l') + f' li → la_inflight l' ≤ la_size l' →
  (∀ i, i ≠ li → f' i = f i) →
  (∀ t, laneCount t l' + g' t = laneCount t l + g t) →
  (∀ t, v.2 !! t = None → laneCount t l' = laneCount t l) →
  reserved cfg f' g' (<[li := l']> v.1, v.2).
Proof.
  intros [RS RL RT RU] Hl Hk Hs Hin Hle Hf Hg Hu. split; cbn [fst snd].
  - rewrite <-RS. unfold shape. rewrite list_fmap_insert, Hk, Hs.
    apply list_insert_id. by rewrite list_lookup_fmap, Hl.
  - intros i x [[<- [<- _]]|[Hne Hx]]%list_lookup_insert_Some; [done|].
    rewrite (Hf i) by done. by apply RL.
  - intros t n Hn. rewrite (jobCount_insert _ _ _ _ _ Hl). specialize (Hg t). destruct (RT t n Hn). lia.
  - intros t Hn. rewrite (jobCount_insert _ _ _ _ _ Hl). specialize (Hu t Hn). specialize (RU t Hn). lia.
Qed.

Lemma owns_addLane cfg li a t b n w :
  owns cfg li a t b (view w) → laneRoom li n (view w) → owns cfg li (a + n) t b (view (addLane li n w)).
Proof.
  intros [HR HL HT] (l&Hl&Hn). rewrite view_addLane, (alter_lookup _ _ _ _ Hl).
  destruct (rs_lane _ _ _ _ HR _ _ Hl) as [Hin Hle]. rewrite decide_True in Hin by done. split; [|by apply list_lookup_insert_is_Some|done].
  eapply reserved_lane; [exact HR|exact Hl|done..|cbn|cbn|intros i Hi; cbn|done|done].
  - rewrite decide_True by done. lia.
  - lia.
  - by rewrite !decide_False by done.
Qed.

Lemma owns_addTenant cfg li a t b n w :
  owns cfg li a t b (view w) → tenantRoom cfg t n (view w) → owns cfg li a t (b + n) (view (addTenant t n w)).
Proof.
  intros [[RS RL RT RU] HL HT] (m&Hm&Hn). rewrite view_addTenant. split; [|done|cbn; by rewrite lookup_alter_eq, fmap_is_Some].
  split; cbn [fst snd]; [done..| |].
  - intros s x Hx. destruct (decide (s = t)) as [->|Hne].
    + rewrite lookup_alter_eq, Hm in Hx. injection Hx as <-. destruct (RT t m Hm) as [Hi Hj].
      rewrite decide_True in Hi by done. lia.
    + rewrite lookup_alter_ne in Hx by done. destruct (RT s x Hx) as [Hi Hj]. by rewrite decide_False in Hi.
  - intros s Hx. apply RU. destruct (decide (s = t)) as [->|Hne].
    + rewrite lookup_alter_eq, Hm in Hx. done.
    + by rewrite lookup_alter_ne in Hx.
Qed.

(** Giving back needs no room. *)
Lemma owns_laneRoom cfg li a t b n v : owns cfg li a t b v → n ≤ 0 → laneRoom li n v.
Proof. intros [HR [l Hl] _] Hn. exists l. split; [done|]. destruct (rs_lane _ _ _ _ HR _ _ Hl). lia. Qed.

Lemma owns_tenantRoom cfg li a t b n v : owns cfg li a t b v → n ≤ 0 → tenantRoom cfg t n v.
Proof. intros [HR _ [m Hm]] Hn. exists m. split; [done|]. destruct (rs_tenant _ _ _ _ HR _ _ Hm). lia. Qed.

Lemma laneCount_push s l t d :
  laneCount s (l <| la_jobs := la_jobs l ++ [mkJob t d] |>) = laneCount s l + if decide (s = t) then 1 else 0.
Proof.
  unfold laneCount, len. cbn. rewrite !filter_app, !length_app, filter_cons. cbn.
  destruct (decide (t = s)), (decide (s = t)); cbn; congruence || lia.
Qed.

(** A reserved slot becomes a job. *)
Lemma owns_push cfg li a t b d w l :
  owns cfg li (a + 1) t (b + 1) (view w) → lw_lanes w !! li = Some l →
  owns cfg li a t b (view (w <| lw_lanes := <[li := l <| la_jobs := la_jobs l ++ [mkJob t d] |>]> (lw_lanes w) |>)).
Proof.
  intros [HR HL HT] Hl. destruct (rs_lane _ _ _ _ HR _ _ Hl) as [Hin Hle]. rewrite decide_True in Hin by done.
  split; [|by apply list_lookup_insert_is_Some|done].
  eapply (reserved_lane _ _ _ _ _ li l _ _ HR Hl); [done..|cbn|cbn|intros i Hi; cbn|intros s|intros s Hs].
  - rewrite decide_True by done. unfold len in *. rewrite length_app. cbn. lia.
  - done.
  - by rewrite !decide_False by done.
  - rewrite laneCount_push. case_decide; lia.
  - rewrite laneCount_push, decide_False; [lia|]. intros ->. destruct HT as [? HT]. by rewrite Hs in HT.
Qed.

(** ** The books of every body of the loop *)
Section books.
Context (cfg : loopConfig) (Hlimit : 0 < lc_TenantConcurrency cfg).

Lemma holds_poll {A} P (k : bool → progOn loopWorld A) Q :
  (∀ b, holds cfg P (k b) Q) → holds cfg P (Poll k) Q.
Proof. intros H w HP b. by apply H. Qed.

Lemma holds_load {A} P (f : loopWorld → A) (Q : A → counters → Prop) :
  stable P → (∀ v, P v → accounted cfg v) → (∀ w, P (view w) → Q (f w) (view w)) →
  holds cfg P (load f) (λ r v, ∃ a, r = inr a ∧ Q a v).
Proof. intros Hs Ha HQ. apply holds_call; [done..|]. intros env w HP. cbn. split; [by apply Ha|]. eauto. Qed.

Lemma holds_update P (f : loopWorld → loopWorld) (Q : counters → Prop) :
  stable P → (∀ v, P v → accounted cfg v) → (∀ v, Q v → accounted cfg v) → (∀ w, P (view w) → Q (view (f w))) →
  holds cfg P (update f) (λ r v, r = inr tt ∧ Q v).
Proof. intros Hs Ha Ha' HQ. apply holds_call; [done..|]. intros env w HP. cbn. split; [by apply Ha', HQ|]. eauto. Qed.

Lemma holds_readClock P :
  stable P → (∀ v, P v → accounted cfg v) → holds cfg P readClock (λ r v, ∃ a, r = inr a ∧ P v).
Proof. intros Hs Ha. apply holds_call; [done..|]. intros env w HP. cbn. split; [by apply Ha|]. eauto. Qed.

(** Sequencing after a step that cannot fail. *)
Lemma holds_seq {A B} P (p : progOn loopWorld A) (k : A → progOn loopWorld B) (P' : A → counters → Prop) Q :
  holds cfg P p (λ r v, ∃ a, r = inr a ∧ P' a v) → (∀ a, holds cfg (P' a) (k a) Q) → holds cfg P (pbind p k) Q.
Proof.
  intros Hp Hk. eapply holds_let; [|exact Hk]. eapply holds_mono; [exact Hp|done|]. by intros r v (a&->&?).
Qed.

Lemma holds_seq_tt {B} P (p : progOn loopWorld unit) (k : unit → progOn loopWorld B) (P' : counters → Prop) Q :
  holds cfg P p (λ r v, r = inr tt ∧ P' v) → holds cfg P' (k tt) Q → holds cfg P (pbind p k) Q.
Proof.
  intros Hp Hk. eapply (holds_let cfg P p k (λ _, P')); [|by intros []]. eapply holds_mono; [exact Hp|done|]. by intros r v (->&?).
Qed.

(** [l.inflight.Add(-n)] and [t.inflight.Add(-n)] *)
Lemma holds_release li a t b n :
  0 ≤ n → n ≤ a → n ≤ b →
  holds cfg (owns cfg li a t b)
    (let? _ := update (addLane li (- n)) in update (addTenant t (- n)))
    (λ r v, r = inr tt ∧ owns cfg li (a - n) t (b - n) v).
Proof.
  intros ? ? ?. eapply (holds_seq_tt _ _ _ (owns cfg li (a + - n) t b)).
  - apply holds_update; [auto with loop|intros v Hv; eapply owns_accounted; [exact Hv|lia..]..|].
    intros w Hw. apply owns_addLane; [done|]. eapply owns_laneRoom; [done|lia].
  - apply holds_update; [auto with loop|intros v Hv; eapply owns_accounted; [exact Hv|lia..]..|].
    intros w Hw. apply owns_addTenant; [done|]. eapply owns_tenantRoom; [done|lia].
Qed.

(** The reserved slots become jobs or are given back, and no send blocks. *)
Lemma holds_sendJobs li t ds :
  holds cfg (owns cfg li (len ds) t (len ds)) (sendJobs li t ds) (λ r v, r = inr tt ∧ owns cfg li 0 t 0 v).
Proof.
  induction ds as [|d ds IH]; [by apply holds_ret|]. cbn [sendJobs].
  assert (Hn : len (d :: ds) = len ds + 1) by (unfold len; cbn; lia).
  assert (0 ≤ len ds) by (unfold len; lia). rewrite Hn.
  eapply holds_seq_tt; [|exact IH].
  apply holds_poll. intros [].
  - pose proof (holds_release li (len ds + 1) t (len ds + 1) 1) as Hr. rewrite Z.add_simpl_r in Hr. apply Hr; lia.
  - apply holds_call; [auto with loop|intros v Hv; eapply owns_accounted; [exact Hv|lia..]|].
    intros env w Hw. pose proof Hw as [HR [l Hl] _]. cbn [view fst] in Hl. rewrite Hl.
    destruct (rs_lane _ _ _ _ HR _ _ Hl) as [Hin Hle]. rewrite decide_True in Hin by done.
    assert (Hroom : (len (la_jobs l) <? la_size l) = true) by (to_prop; unfold len in *; lia). rewrite Hroom.
    cbn [fst snd]. pose proof (owns_push _ _ _ _ _ d _ _ Hw Hl) as Ho.
    split; [|done]. eapply owns_accounted; [exact Ho|lia..].
Qed.

(** Nothing the loop asks the store touches the counters. *)
Lemma holds_store {A} P (op : Env → M Provider A) :
  stable P → (∀ v, P v → accounted cfg v) → holds cfg P (provCall op) (λ _, P).
Proof.
  intros Hs Ha. apply holds_quiet; [done..| |done]. intros env w. by destruct (op env (lw_store w)) as [r s].
Qed.

Lemma holds_runningPages P fuel t page ids :
  stable P → (∀ v, P v → accounted cfg v) → holds cfg P (runningPages fuel t page ids) (λ _, P).
Proof.
  intros Hs Ha. revert page ids. induction fuel as [|fuel IH]; intros page ids; [by apply holds_ret|]. cbn [runningPages].
  eapply (holds_let cfg P _ _ (λ _, P)); [|intros res; case_match; [by apply holds_ret|apply IH]].
  eapply holds_mono; [by apply holds_store|done|]. by intros [].
Qed.

Lemma holds_runningCampaigns P fuel t :
  stable P → (∀ v, P v → accounted cfg v) → holds cfg P (runningCampaigns cfg fuel t) (λ _, P).
Proof.
  intros Hs Ha. unfold runningCampaigns.
  eapply (holds_let cfg P _ _ (λ _, P)); [apply holds_quiet; [done..|]; by intros []|intros now].
  eapply (holds_let cfg P _ _ (λ _, P)); [apply holds_quiet; [done..|]; by intros []|intros cached].
  case_match; [by apply holds_ret|].
  eapply (holds_let cfg P _ _ (λ _, P)); [|intros ids].
  { eapply holds_mono; [by apply holds_runningPages|done|]. by intros []. }
  eapply (holds_seq_tt _ _ _ P); [|by apply holds_ret]. apply holds_update; [done..|].
  intros w HP. by rewrite view_alter.
Qed.

(** A claim returns at most what it was asked for. *)
Lemma len_Claim env req td ds td' : Claim env req td = (inr ds, td') → 0 < cr_Limit req → len ds ≤ cr_Limit req.
Proof.
  unfold Claim, checked, throw. destruct (e_closed env); [done|]. intros [= <- <-] Hl.
  unfold claimCandidates. pose proof (length_capTo (cr_Limit req)
    (merge_sort claimLe (filter (λ kv, claimable req (TruncateTime (cr_Now req)) kv.2 = true) (map_to_list (deliveries td)))) Hl).
  unfold len in *. rewrite length_fmap. lia.
Qed.

Lemma holds_Claim P t req (k : Env → ClaimRequest) :
  stable P → (∀ v, P v → accounted cfg v) → (∀ env, cr_Limit (k env) = req) → 0 < req →
  holds cfg P (tenantCall t (λ env, Claim env (k env))) (λ r v, P v ∧ ∀ ds, r = inr ds → len ds ≤ req).
Proof.
  intros Hs Ha Hk Hpos. apply holds_call; [done..|]. intros env w HP. unfold onStore.
  destruct (pv_tenants (lw_store w) !! t) as [td|]; cbn; [|by split; [apply Ha|]].
  destruct (Claim _ _ _) as [r td'] eqn:Hc. cbn. split; [by apply Ha|]. split; [done|]. intros ds ->.
  apply len_Claim in Hc; rewrite Hk in *; done.
Qed.

(** What holds of a tenant between claims. *)
Abbreviation ready t := (λ v, settled cfg v ∧ is_Some (v.2 !! t)).

Lemma ready_accounted t v : ready t v → accounted cfg v.
Proof. intros [? _]. by apply settled_accounted. Qed.

Lemma stable_ready t : stable (ready t).
Proof. apply stable_and; [apply stable_reserved|apply stable_tenant]. Qed.

Lemma holds_dispatchClaim t li limit r :
  0 < limit → (∀ ds, r = inr ds → len ds ≤ limit) →
  holds cfg (owns cfg li limit t limit) (dispatchClaim t li limit r) (λ r v, ∃ n, r = inr n ∧ ready t v).
Proof.
  intros Hpos Hr. assert (Hend : ∀ n : Z, holds cfg (owns cfg li 0 t 0) (pret n) (λ r v, ∃ n, r = inr n ∧ ready t v)).
  { intros n. apply holds_ret. intros v Hv. exists n. split; [done|]. split; [by eapply owns_settled|by destruct Hv]. }
  destruct r as [e|ds]; cbn [dispatchClaim].
  - eapply holds_seq_tt; [|apply Hend]. pose proof (holds_release li limit t limit limit) as H.
    rewrite Z.sub_diag in H. apply H; lia.
  - specialize (Hr ds eq_refl). assert (0 ≤ len ds) by (unfold len; lia).
    eapply holds_seq_tt; [|eapply holds_seq_tt; [apply holds_sendJobs|apply Hend]].
    case_match eqn:E; to_prop.
    + pose proof (holds_release li limit t limit (limit - len ds)) as H0.
      replace (limit - (limit - len ds)) with (len ds) in H0 by lia. apply H0; lia.
    + replace (len ds) with limit by lia. by apply holds_ret.
Qed.

(** What [claimInto] relies on once it has seen room for [limit]. *)
Abbreviation roomy t li limit := (λ v, ready t v ∧ laneRoom li limit v ∧ tenantRoom cfg t limit v).

Lemma stable_roomy t li limit : stable (roomy t li limit).
Proof. apply stable_and; [apply stable_ready|]. apply stable_and; auto with loop. Qed.

Lemma roomy_accounted t li limit v : roomy t li limit v → accounted cfg v.
Proof. intros [? _]. by eapply ready_accounted. Qed.

(** From there on it reserves, claims and dispatches. *)
Lemma holds_reserve t li limit campaigns :
  0 < limit →
  holds cfg (roomy t li limit)
    (let? _ := update (addLane li limit) in
     let? _ := update (addTenant t limit) in
     let? now := readClock in
     let? kind := load (λ w, match lw_lanes w !! li with Some l => la_kind l | None => LaneBulk end) in
     handle (tenantCall t (λ env, Claim env
         (mkClaimRequest kind (Some campaigns) limit (lc_LeaseFor cfg) (lc_WorkerID cfg) now)))
       (dispatchClaim t li limit))
    (λ r v, ∃ n, r = inr n ∧ ready t v).
Proof.
  intros Hpos. pose proof (λ v H, owns_accounted cfg li limit t limit v H (ltac:(lia)) (ltac:(lia))) as Hacc.
  eapply (holds_seq_tt _ _ _ (λ v, owns cfg li limit t 0 v ∧ tenantRoom cfg t limit v)).
  { apply holds_update; [apply stable_roomy|apply roomy_accounted|intros v [Hv _]; by eapply owns_accounted; [exact Hv|lia..]|].
    intros w ([HS HT]&HL&HR). split; [|done]. apply (owns_addLane cfg li 0 t 0 limit); [|done].
    apply settled_owns; [done| |done]. destruct HL as (l&Hl&_). by exists l. }
  eapply (holds_seq_tt _ _ _ (owns cfg li limit t limit)).
  { apply holds_update; [auto with loop|intros v [Hv _]; by eapply owns_accounted; [exact Hv|lia..]|done|].
    intros w [HO HR]. by apply (owns_addTenant cfg li limit t 0 limit). }
  eapply (holds_seq _ _ _ (λ _, owns cfg li limit t limit)); [by apply holds_readClock; [auto with loop|]|intros now].
  eapply (holds_seq _ _ _ (λ _, owns cfg li limit t limit)); [by apply holds_load; [auto with loop|..]|intros kind].
  eapply holds_handle; [by apply (holds_Claim _ t limit); [auto with loop|done..]|].
  intros r w [HO Hlen]. by apply holds_dispatchClaim.
Qed.

Lemma holds_claimInto fuel t li :
  holds cfg (ready t) (claimInto cfg fuel t li) (λ r v, ∃ n, r = inr n ∧ ready t v).
Proof.
  unfold claimInto.
  eapply (holds_seq _ _ _ (λ n v, ready t v ∧ (0 < n → laneRoom li n v))).
  { apply holds_load; [apply stable_ready|apply ready_accounted|]. intros w HP. split; [done|]. intros Hn.
    destruct (lw_lanes w !! li) as [l|] eqn:Hl; [|lia]. exists l. split; [done|lia]. }
  intros laneFree.
  eapply (holds_seq _ _ _ (λ m v, ready t v ∧ (0 < laneFree → laneRoom li laneFree v) ∧ tenantRoom cfg t m v)).
  { apply holds_load.
    - apply stable_and; [apply stable_ready|]. intros v v' Hf HL Hn. eapply stable_laneRoom; eauto.
    - intros v [Hv _]. exact (ready_accounted _ _ Hv).
    - intros w [HP HL]. split; [done|]. split; [done|]. destruct HP as [_ [m Hm]]. exists m. split; [done|].
      unfold view in Hm. cbn in Hm. rewrite lookup_fmap in Hm. destruct (lw_tenants w !! t); simplify_eq/=. lia. }
  intros tenantFree. destruct (_ <=? 0) eqn:E; to_prop; [apply holds_ret; naive_solver|].
  set (limit := Z.min (Z.min laneFree tenantFree) (lc_ClaimBatch cfg)) in *.
  eapply (holds_mono cfg (roomy t li limit) _ _ (λ r v, ∃ n, r = inr n ∧ ready t v)); [|intros v (HP&HL&HT)|done].
  - eapply holds_handle; [by apply holds_runningCampaigns; [apply stable_roomy|apply roomy_accounted]|].
    intros [e|campaigns]; [apply holds_ret; naive_solver|by apply holds_reserve].
  - split; [done|]. split.
    + destruct HL as (l&Hl&Hn); [lia|]. exists l. split; [done|lia].
    + destruct HT as (m&Hm&Hn). exists m. split; [done|lia].
Qed.

Lemma holds_claimLanes fuel t n li total :
  holds cfg (ready t) (claimLanes cfg fuel t n li total) (λ r v, ∃ n, r = inr n ∧ ready t v).
Proof.
  revert li total. induction n as [|n IH]; intros li total; cbn [claimLanes]; [apply holds_ret; eauto|].
  eapply holds_seq; [apply holds_claimInto|intros c; apply IH].
Qed.

(** Opening a tenant adds one with no jobs. *)
Lemma holds_tenant id :
  holds cfg (settled cfg) (tenant id) (λ r v, ∃ ok : bool, r = inr ok ∧ settled cfg v ∧ (ok = true → is_Some (v.2 !! id))).
Proof.
  unfold tenant.
  eapply (holds_seq _ _ _ (λ (ok : bool) v, settled cfg v ∧ (ok = true → is_Some (v.2 !! id)))).
  { apply holds_load; [apply stable_reserved|apply settled_accounted|]. intros w HP. split; [done|].
    intros H%bool_decide_eq_true_1. unfold view. cbn. by rewrite lookup_fmap, fmap_is_Some. }
  intros []; [apply holds_ret; naive_solver|].
  apply (holds_mono cfg (settled cfg) _ _ (λ r v, ∃ ok : bool, r = inr ok ∧ settled cfg v ∧ (ok = true → is_Some (v.2 !! id))));
    [|by intros v []|done].
  eapply holds_handle; [apply holds_store; [apply stable_reserved|apply settled_accounted]|].
  intros [e|u]; [apply holds_ret; naive_solver|].
  eapply (holds_seq_tt _ _ _ (ready id)); [|apply holds_ret; naive_solver].
  apply holds_update; [apply stable_reserved|apply settled_accounted|apply ready_accounted|].
  intros w [RS RL RT RU]. destruct (lw_tenants w !! id) as [x|] eqn:Hx.
  { split; [done|]. unfold view. cbn. by rewrite lookup_fmap, Hx. }
  unfold view. cbn. rewrite fmap_insert. split; [|by rewrite lookup_insert_eq]. 
  assert (H0 : jobCount (lw_lanes w) id = 0) by (apply RU; cbn; by rewrite lookup_fmap, Hx).
  split; cbn [fst snd]; [done..| |].
  - intros s n [[<- <-]|[Hne Hn]]%lookup_insert_Some; [cbn; lia|]. by apply RT.
  - intros s [Hn Hne]%lookup_insert_None. by apply RU.
Qed.

Lemma holds_openTenants ids : holds cfg (settled cfg) (openTenants ids) (λ r v, r = inr tt ∧ settled cfg v).
Proof.
  induction ids as [|id ids IH]; cbn [openTenants]; [by apply holds_ret|].
  eapply holds_seq; [apply holds_tenant|]. intros ok. eapply holds_mono; [apply IH|by intros v []|done].
Qed.

Lemma holds_refreshTenants : holds cfg (settled cfg) (refreshTenants cfg) (λ _ v, settled cfg v).
Proof.
  unfold refreshTenants.
  eapply (holds_let cfg _ _ _ (λ _, settled cfg)); [|intros ids].
  { eapply holds_mono; [apply holds_store; [apply stable_reserved|apply settled_accounted]|done|]. by intros []. }
  eapply (holds_seq_tt _ _ _ (settled cfg)).
  - by apply holds_update; [apply stable_reserved|apply settled_accounted..|].
  - eapply holds_mono; [apply holds_openTenants|done|]. by intros r v [].
Qed.

Lemma holds_passTenants fuel ids lanes total :
  holds cfg (settled cfg) (passTenants cfg fuel ids lanes total) (λ r v, ∃ n, r = inr n ∧ settled cfg v).
Proof.
  revert total. induction ids as [|id ids IH]; intros total; cbn [passTenants]; [apply holds_ret; eauto|].
  eapply holds_seq; [apply holds_tenant|]. intros ok.
  eapply (holds_seq _ _ _ (λ _, settled cfg)); [|intros n; apply IH]. destruct ok.
  - eapply holds_mono; [apply holds_claimLanes| |]; naive_solver.
  - apply holds_ret. naive_solver.
Qed.

Lemma holds_pass fuel : holds cfg (settled cfg) (pass cfg fuel) (λ r v, ∃ n, r = inr n ∧ settled cfg v).
Proof.
  unfold pass. eapply (holds_seq _ _ _ (λ _, settled cfg)).
  - apply holds_call; [apply stable_reserved|apply settled_accounted|]. intros env w HP. cbn.
    destruct (0 <? _); (split; [by apply settled_accounted|eauto]).
  - intros snap. eapply (holds_seq _ _ _ (λ _, settled cfg)); [|intros n; apply holds_passTenants].
    by apply holds_load; [apply stable_reserved|apply settled_accounted|].
Qed.
End books.

(** ** The workers free *)

Lemma view_lanes w ls : view (w <| lw_lanes := ls |>) = (ls, (view w).2).
Proof. reflexivity. Qed.

Lemma Forall2_lane (R : lane → lane → Prop) `{!Reflexive R} ls li l l' :
  ls !! li = Some l → R l l' → Forall2 R ls (<[li := l']> ls).
Proof.
  intros Hl HR. rewrite <-(list_insert_id ls li l Hl) at 1. apply Forall2_insert; [|done].
  apply Forall2_same_length_lookup_2; [done|]. intros i a b ? ?; by simplify_eq.
Qed.

(** A worker's step on one lane that moves no tenant's count. *)
Lemma frees_lane v li l l' :
  v.1 !! li = Some l →
  la_kind l' = la_kind l → la_size l' = la_size l → la_inflight l' ≤ la_inflight l →
  la_inflight l' - len (la_jobs l') - len (la_running l') = la_inflight l - len (la_jobs l) - len (la_running l) →
  (∀ t, laneCount t l' = laneCount t l) →
  frees v (<[li := l']> v.1, v.2).
Proof.
  intros Hl Hk Hs Hle Hin Hc. split; cbn [fst snd].
  - by apply Forall2_lane with l.
  - intros t. rewrite (jobCount_insert _ _ _ _ _ Hl), Hc. destruct (v.2 !! t); lia.
Qed.

(** The order of the jobs does not matter, nor where they are. *)
Lemma laneCount_perm t l l' :
  la_jobs l ++ la_running l ++ la_ending l ≡ₚ la_jobs l' ++ la_running l' ++ la_ending l' → laneCount t l = laneCount t l'.
Proof. intros Hp. unfold laneCount, len. by rewrite Hp. Qed.

Lemma takeJob_frees li w w' : takeJob li w = Some w' → frees (view w) (view w').
Proof.
  unfold takeJob. destruct (lw_lanes w !! li) as [l|] eqn:Hl; [|done].
  destruct (la_jobs l) as [|j js] eqn:Hj; [done|]. destruct (_ <? _); [|done]. intros [= <-]. rewrite view_lanes.
  apply (frees_lane (view w) li l); [done..|cbn; rewrite Hj; unfold len; cbn; lia|]. intros t. apply laneCount_perm. cbn.
  rewrite Hj. cbn. by rewrite <-Permutation_middle.
Qed.

Lemma endLane_frees li i w w' : endLane li i w = Some w' → frees (view w) (view w').
Proof.
  unfold endLane. destruct (lw_lanes w !! li) as [l|] eqn:Hl; [|done].
  destruct (la_running l !! i) as [j|] eqn:Hj; [|done]. intros [= <-]. rewrite view_lanes.
  pose proof (delete_Permutation _ _ _ Hj) as Hp. pose proof (Permutation_length Hp) as Hlen. cbn in Hlen.
  apply (frees_lane (view w) li l); [done..|cbn; lia|cbn; unfold len; lia|]. intros t. apply laneCount_perm. cbn.
  revert Hp. generalize (delete i (la_running l)) as rest. intros rest ->. cbn. by rewrite <-Permutation_middle.
Qed.

Lemma endTenant_frees li i w w' : endTenant li i w = Some w' → frees (view w) (view w').
Proof.
  unfold endTenant. destruct (lw_lanes w !! li) as [l|] eqn:Hl; [|done].
  destruct (la_ending l !! i) as [j|] eqn:Hj; [|done]. intros [= <-]. rewrite view_addTenant, view_lanes.
  set (l' := l <| la_ending := delete i (la_ending l) |>). cbn [fst snd].
  assert (Hc : ∀ t, laneCount t l = laneCount t l' + if decide (jb_tenant j = t) then 1 else 0).
  { intros t. unfold laneCount, len, l'. cbn. rewrite !filter_app, !length_app.
    pose proof (delete_Permutation _ _ _ Hj) as Hp. revert Hp. generalize (delete i (la_ending l)) as rest.
    intros rest ->. rewrite filter_cons. case_decide; cbn; lia. }
  split; cbn [fst snd].
  - by apply Forall2_lane with l.
  - intros t. rewrite (jobCount_insert _ _ _ _ _ Hl), Hc. change (view w).1 with (lw_lanes w). destruct (decide (jb_tenant j = t)) as [->|Hne].
    + rewrite lookup_alter_eq. destruct ((view w).2 !! t); csimpl; lia.
    + rewrite lookup_alter_ne by done. destruct ((view w).2 !! t); lia.
Qed.

(** ** Every reachable state *)

Section reachable.
Context (cfg : loopConfig) (fuel : nat) (Hlimit : 0 < lc_TenantConcurrency cfg).

(** What is left of the loop's body keeps the books from a state the workers
    have freed slots of since. *)
Definition replicaOk (s : progOn loopWorld unit * loopWorld) : Prop :=
  accounted cfg (view s.2) ∧
  ∃ w0, rely w0 s.2 ∧ wp rely (booked cfg) s.1 (λ r w', r = inr tt ∧ settled cfg (view w')) w0.

Lemma loopBody_ok p : loopBody cfg fuel p → holds cfg (settled cfg) p (λ r v, r = inr tt ∧ settled cfg v).
Proof.
  intros [| |id].
  - eapply holds_handle; [by apply holds_refreshTenants|]. intros r. by apply holds_ret.
  - eapply holds_seq; [by apply holds_pass|]. intros n. by apply holds_ret.
  - eapply holds_seq; [by apply holds_tenant|]. intros n. apply holds_ret. naive_solver.
Qed.

Lemma replicaOk_frees p w w' : replicaOk (p, w) → frees (view w) (view w') → replicaOk (p, w').
Proof.
  intros [(f&g&Hf&Hg&HR) (w0&Hr&Hwp)] Hfr. split.
  - exists f, g. split_and!; [done..|]. by eapply stable_reserved.
  - exists w0. split; [|done]. unfold rely in *. by etrans.
Qed.

Lemma senderStep_ok s s' : senderStep cfg fuel s s' → replicaOk s → replicaOk s'.
Proof.
  intros Hs Hok. destruct Hs as [B op k env r w w' Hop|k b w|p w Hp|li p w w' H|li i p w w' H|li i p w w' H|p w w' HL HT].
  - destruct Hok as [_ (w0&Hr&Hwp)]. specialize (Hwp env w Hr). cbn in Hwp. rewrite Hop in Hwp.
    destruct Hwp as [Hb Hwp]. split; [done|]. exists w'. split; [unfold rely; reflexivity|done].
  - destruct Hok as [Ha (w0&Hr&Hwp)]. split; [done|]. exists w0. split; [done|]. apply Hwp.
  - destruct Hok as [Ha (w0&Hr&_&Hset)]. split; [done|]. exists w. split; [unfold rely; reflexivity|].
    apply loopBody_ok; [done|]. by eapply stable_reserved.
  - eapply replicaOk_frees; [done|]. by eapply takeJob_frees.
  - eapply replicaOk_frees; [done|]. by eapply endLane_frees.
  - eapply replicaOk_frees; [done|]. by eapply endTenant_frees.
  - eapply replicaOk_frees; [done|]. unfold view. rewrite HL, HT. reflexivity.
Qed.

Lemma reachable_ok s s' : rtc (senderStep cfg fuel) s s' → replicaOk s → replicaOk s'.
Proof. induction 1; [done|]. eauto using senderStep_ok. Qed.
End reachable.

Lemma newLanes_lookup cfg l : l ∈ newLanes cfg → ∃ k n, lc_Lanes cfg !! k = Some n ∧ 0 < n ∧ l = mkLane k n [] 0 [] [].
Proof.
  intros (k&_&Hk)%list_elem_of_omap. destruct (lc_Lanes cfg !! k) as [n|] eqn:Hn; [|done].
  destruct (n <=? 0) eqn:E; [done|]. injection Hk as <-. to_prop. exists k, n. split_and!; [done|lia|done].
Qed.

Lemma newLanes_settled cfg : settled cfg (newLanes cfg, ∅).
Proof.
  split; [done| |done|].
  - intros li l (k&n&_&Hn&->)%list_elem_of_lookup_2%newLanes_lookup. unfold len. cbn. lia.
  - intros t _. apply jobCount_idle. by intros l (k&n&_&_&->)%newLanes_lookup.
Qed.

Lemma newSender_ok c p w0 : newSender c p = inr w0 → replicaOk (loopDefaults c) (pret tt, w0).
Proof.
  unfold newSender. destruct (strEq _ _); [done|]. destruct (_ =? 0); [done|]. intros [= <-].
  generalize (loopDefaults c) as cfg. intros cfg.
  set (w := mkLoopWorld _ _ _ _ _ _). pose proof (newLanes_settled cfg) as Hs.
  assert (Hv : view w = (newLanes cfg, ∅)) by (unfold view; cbn; by rewrite fmap_empty).
  split; cbn [fst snd]; [rewrite Hv; by apply settled_accounted|].
  exists w. split; [unfold rely; reflexivity|]. split; [done|]. by rewrite Hv.
Qed.

Lemma loopDefaults_limit c : 0 < lc_TenantConcurrency (loopDefaults c).
Proof. cbn. unfold positiveOr, DefaultTenantConcurrency. case_match eqn:E; to_prop; lia. Qed.

Lemma newLanes_size c k n : (k, n) ∈ shape (newLanes c) → lc_Lanes c !! k = Some n.
Proof.
  by intros (l&[= -> ->]&(k0&m&?&?&->)%newLanes_lookup)%list_elem_of_fmap.
Qed.

(** C13 (sender/loop): in every state a replica can reach, whatever the
    interleaving of the claim loop with the workers of every lane, with the
    store's other users and with shutdown: a lane holds no more jobs, queued
    and running, than its counter, and the counter no more than the configured
    size of its pool; no tenant has more jobs in all lanes together than its
    share; the loop is never stuck on a full channel or left by an error; and
    between two bodies of the loop no capacity has leaked: every lane's counter
    is exactly its jobs and every tenant's exactly the jobs it has. *)
Theorem sender_capacity c p w0 fuel body w :
  newSender c p = inr w0 →
  rtc (senderStep (loopDefaults c) fuel) (pret tt, w0) (body, w) →
  (∀ l, l ∈ lw_lanes w →
    lc_Lanes (loopDefaults c) !! la_kind l = Some (la_size l) ∧
    len (la_jobs l) + len (la_running l) ≤ la_inflight l ≤ la_size l) ∧
  (∀ t, jobCount (lw_lanes w) t ≤ lc_TenantConcurrency (loopDefaults c)) ∧
  (∀ e, body ≠ Done (inl e)) ∧
  (∀ r, body = Done r →
    (∀ l, l ∈ lw_lanes w → la_inflight l = len (la_jobs l) + len (la_running l)) ∧
    (∀ t x, lw_tenants w !! t = Some x → tn_inflight x = jobCount (lw_lanes w) t)).
Proof.
  intros Hnew Hr. pose proof (loopDefaults_limit c) as Hlim. set (cfg := loopDefaults c) in *.
  apply reachable_ok in Hr; [|done|by eapply newSender_ok]. destruct Hr as [(f&g&Hf&Hg&HR) (w1&Hrely&Hwp)]. cbn [fst snd] in *.
  split_and!.
  - intros l Hl. pose proof Hl as [li Hi]%list_elem_of_lookup. split.
    + apply newLanes_size. rewrite <-(rs_shape _ _ _ _ HR). apply list_elem_of_fmap. by exists l.
    + destruct (rs_lane _ _ _ _ HR li l Hi). specialize (Hf li). lia.
  - intros t. destruct ((view w).2 !! t) as [n|] eqn:Hn.
    + destruct (rs_tenant _ _ _ _ HR t n Hn) as [-> ?]. specialize (Hg t). unfold view in *. cbn [fst] in *. lia.
    + pose proof (rs_unknown _ _ _ _ HR t Hn) as H0. unfold view in H0. cbn [fst] in H0. lia.
  - intros e ->. by destruct Hwp.
  - intros r ->. destruct Hwp as [_ Hset]. pose proof (stable_reserved _ _ _ _ _ Hrely Hset) as HS. split.
    + intros l [li Hi]%list_elem_of_lookup. destruct (rs_lane _ _ _ _ HS li l Hi). lia.
    + intros t x Hx. destruct (rs_tenant _ _ _ _ HS t (tn_inflight x)) as [-> _]; [|cbn [view fst]; lia].
      unfold view. cbn. by rewrite lookup_fmap, Hx.
Qed.

(** ** The heartbeats are no concern of the loop *)

(** What a step of the heartbeat goroutine may change. *)
Definition beats (w w' : loopWorld) : Prop :=
  view w' = view w ∧ (1 ≤ lw_workers w → 1 ≤ lw_workers w').
Abbreviation beating p Q := (∀ w, wp (λ _ _, True) beats p (λ r _, Q r) w).

Lemma wp_provCall_beats {A} (op : Env → M Provider A) (Q : error + A → loopWorld → Prop) w :
  (∀ r w', Q r w') → wp (λ _ _, True) beats (provCall op) Q w.
Proof. intros HQ. apply wp_call. intros env w0 _. destruct (op env (lw_store w0)). by split. Qed.

Lemma wp_heartbeatOne cfg now lanes n t m :
  1 ≤ m → beating (heartbeatOne cfg now lanes n t m) (λ r, ∃ k, r = inr k ∧ 1 ≤ k).
Proof.
  intros Hm w. apply wp_handle. apply wp_provCall_beats. intros [e|u] w1; [cbn; eauto|].
  apply wp_handle. apply wp_provCall_beats. intros [e|active] w2; [cbn; eauto|].
  apply wp_pbind, wp_call. intros env w3 _. split; [split; [by apply view_alter|done]|]. cbn. eexists. split; [done|]. lia.
Qed.

Lemma wp_heartbeats cfg now lanes n ts m :
  1 ≤ m → beating (heartbeats cfg now lanes n ts m) (λ r, ∃ k, r = inr k ∧ 1 ≤ k).
Proof.
  revert m. induction ts as [|t ts IH]; intros m Hm w; cbn [heartbeats]; [cbn; eauto|].
  apply wp_pbind. eapply wp_mono; [|by apply wp_heartbeatOne]. intros r w1 (k&->&Hk). by apply IH.
Qed.

(** A heartbeat, in every interleaving, leaves the lanes and the counters
    alone, cannot fail, and never lets the replica count the rate limiter
    divides by drop below one. *)
Lemma heartbeat_beats cfg : beating (heartbeat cfg) (λ r, r = inr tt).
Proof.
  intros w. apply wp_pbind, wp_call. intros env w1 _. split; [by split|]. cbn [fst load].
  apply wp_pbind, wp_call. intros env2 w2 _. split; [by split|]. cbn [fst].
  apply wp_pbind, wp_call. intros env3 w3 _. split; [by split|]. cbn [fst].
  apply wp_pbind. eapply wp_mono; [|apply wp_heartbeats; lia]. intros r w4 (k&->&Hk).
  apply wp_call. intros env5 w5 _. by split; [split|].
Qed.

(** ** A replica at work *)

(** The loop's body run by itself. *)
Lemma senderRun cfg fuel env p w :
  rtc (senderStep cfg fuel) (p, w) (Done (run env p w).1, (run env p w).2).
Proof.
  revert w. induction p as [r|B op k IH|k IH]; intros w; cbn [run]; [done| |].
  - destruct (op env w) as [r w'] eqn:Hop. eapply rtc_l; [by apply st_call with (env := env)|apply IH].
  - eapply rtc_l; [apply st_poll with (b := false)|apply IH].
Qed.

Lemma senderBody cfg fuel env p w w' :
  loopBody cfg fuel p → run env p w = (inr tt, w') → rtc (senderStep cfg fuel) (pret tt, w) (pret tt, w').
Proof.
  intros Hp Hr. eapply rtc_l; [by apply st_next|]. pose proof (senderRun cfg fuel env p w) as H. by rewrite Hr in H.
Qed.

(** Two lanes, of two workers and of one; a share of two per tenant. *)
Definition sampleLoopConfig : loopConfig :=
  mkLoopConfig "w1" {[LaneTransactional := 2; LaneBulk := 1]} 0 0 0 0 2 0 false.

Definition queuedRow (id : string) (l : Lane) : Delivery :=
  zero <| d_ID := id |> <| d_Lane := l |> <| d_Status := DeliveryQueued |>.

Definition sampleLoopProvider : Provider :=
  mkProvider false {["acme" := newTenantData <| deliveries :=
    {["d1" := queuedRow "d1" LaneTransactional; "d2" := queuedRow "d2" LaneBulk; "d3" := queuedRow "d3" LaneBulk]} |>]}.

Definition sampleLoopEnv : Env := mkEnv false Hour "acme" (λ _, "x").

Definition loopWorldAt (n : nat) : loopWorld :=
  match newSender sampleLoopConfig sampleLoopProvider with
  | inl _ => mkLoopWorld [] ∅ [] 0 0 sampleLoopProvider
  | inr w =>
      let cfg := loopDefaults sampleLoopConfig in
      let w := (run sampleLoopEnv (handle (refreshTenants cfg) (λ _, pret tt)) w).2 in
      Nat.iter n (λ w, (run sampleLoopEnv (let? _ := pass cfg 3 in pret tt) w).2) w
  end.

(** After one pass one delivery of each lane is in its channel, the tenant's
    share is full and the bulk delivery left over stays queued. *)
Example loop_pass_claims :
  (λ l, (la_kind l, (d_ID ∘ jb_delivery) <$> la_jobs l, la_inflight l)) <$> lw_lanes (loopWorldAt 1) =
    [(LaneTransactional, ["d1"], 1); (LaneBulk, ["d2"], 1)] ∧
  tn_inflight <$> lw_tenants (loopWorldAt 1) !! "acme" = Some 2.
Proof. vm_compute. done. Qed.

Definition loopWorldTaken : loopWorld := default (loopWorldAt 1) (takeJob 0 (loopWorldAt 1)).

Lemma loopWorldTaken_reachable :
  ∃ w0, newSender sampleLoopConfig sampleLoopProvider = inr w0 ∧
    rtc (senderStep (loopDefaults sampleLoopConfig) 3) (pret tt, w0) (pret tt, loopWorldTaken).
Proof.
  eexists. split; [vm_compute; reflexivity|].
  transitivity (pret tt : progOn loopWorld unit, loopWorldAt 0);
    [|transitivity (pret tt : progOn loopWorld unit, loopWorldAt 1)].
  - apply (senderBody _ _ sampleLoopEnv (handle (refreshTenants (loopDefaults sampleLoopConfig)) (λ _, pret tt))).
    + constructor.
    + vm_compute. reflexivity.
  - apply (senderBody _ _ sampleLoopEnv (let? _ := pass (loopDefaults sampleLoopConfig) 3 in pret tt)).
    + constructor.
    + vm_compute. reflexivity.
  - apply rtc_once, (st_take _ _ 0). vm_compute. reflexivity.
Qed.

Lemma sender_capacity_witness :
  (λ l, (len (la_jobs l), len (la_running l), la_inflight l)) <$> lw_lanes loopWorldTaken = [(0, 1, 1); (1, 0, 1)] ∧
  (∀ l, l ∈ lw_lanes loopWorldTaken → la_inflight l = len (la_jobs l) + len (la_running l)) ∧
  jobCount (lw_lanes loopWorldTaken) "acme" ≤ 2.
Proof.
  split; [vm_compute; reflexivity|]. destruct loopWorldTaken_reachable as (w0&Hnew&Hr).
  destruct (sender_capacity _ _ _ _ _ _ Hnew Hr) as (_&Ht&_&Hd). split.
  - by destruct (Hd _ eq_refl).
  - apply (Ht "acme").
Defined.
