(* ===== verification/Ingest.v ===== *)
(** * Appending recipients to a campaign ([internal/ingest/ingest.go])

    [Ingest] streams an NDJSON body into the campaign's deliveries: it reads
    the body line by line ([LineReader]), parses and validates each line, and
    inserts the good ones in batches.  A bad line is counted and skipped.  Its
    store calls interleave with everybody else's ([Prog]); what the JSON, URL,
    mail and IDNA libraries compute is the record [ingestLib], an argument. *)

From S2P Require Import Prelude Enums Model MemTable MemData DeliveryRepo Repos Prog Codec Tokens LineReader Email.

(** ** Limits ([host/limits.go]) *)

Record Limits := mkLimits {
  MaxRecipientsPerCampaign : Z;
  MaxVarsBytes : Z;
  MaxBodyBytes : Z;
  MaxRecipientLineBytes : Z;
}.
#[global] Instance Limits_eta : Eta Limits := λ l,
  mkLimits (MaxRecipientsPerCampaign l) (MaxVarsBytes l) (MaxBodyBytes l) (MaxRecipientLineBytes l).

Definition DefaultLimits : Limits := mkLimits 10000000 (Z.shiftl 8 10) (Z.shiftl 2 20) (Z.shiftl 64 10).

(** [Limits.WithDefaults] *)
Definition WithDefaults (l : Limits) : Limits :=
  let d := DefaultLimits in
  let l := if MaxRecipientsPerCampaign l =? 0
           then l <| MaxRecipientsPerCampaign := MaxRecipientsPerCampaign d |> else l in
  let l := if MaxVarsBytes l =? 0 then l <| MaxVarsBytes := MaxVarsBytes d |> else l in
  let l := if MaxBodyBytes l =? 0 then l <| MaxBodyBytes := MaxBodyBytes d |> else l in
  if MaxRecipientLineBytes l =? 0 then l <| MaxRecipientLineBytes := MaxRecipientLineBytes d |> else l.

(** ** Errors *)

Definition ErrCampaignNotEditable : error := errNamed "ingest: campaign does not accept recipients".
Definition ErrTooManyRecipients : error := errNamed "ingest: campaign recipient limit exceeded".
Definition errLineTooLong : error := errNamed "ingest: line exceeds the line length limit".
Definition ErrBadJSON : error := errNamed "ingest: line is not a JSON object".
Definition ErrBadEmail : error := errNamed "ingest: invalid email".
Definition ErrBadName : error := errNamed "ingest: name contains CR or LF".
Definition ErrBadLocale : error := errNamed "ingest: invalid locale".
Definition ErrVarsTooLarge : error := errNamed "ingest: vars exceed the vars size limit".
Definition ErrBadUnsubscribeURL : error := errNamed "ingest: unsubscribe_url must be an absolute http(s) URL".

Definition ioError (e : ioErr) : error :=
  match e with
  | ErrRead e => e
  | EOF => errNamed "EOF"
  | ErrBufferFull => errNamed "bufio: buffer full"
  | ErrNoProgress => errNamed "multiple Read calls return no data or error"
  end.

(** ** Data *)

Record wireLine := mkWireLine {
  w_Email : string;
  w_Name : string;
  w_Locale : string;
  w_Vars : string;
  w_UnsubscribeURL : string;
}.

(** The reason of a rejected line is its sentinel. *)
Record LineError := mkLineError { le_Line : Z; le_Email : string; le_Reason : error }.

Record Result := mkResult {
  rs_Accepted : Z;
  rs_Duplicates : Z;
  rs_Invalid : Z;
  rs_Total : Z;
  rs_Errors : list LineError;
}.
#[global] Instance Result_eta : Eta Result := λ r,
  mkResult (rs_Accepted r) (rs_Duplicates r) (rs_Invalid r) (rs_Total r) (rs_Errors r).
#[global] Instance Result_zero : Zero Result := mkResult 0 0 0 0 [].

(** [json.Unmarshal] into a [wireLine] and into a vars map, [url.Parse] as
    scheme and host, and what [NormalizeEmail] calls. *)
Record ingestLib := mkIngestLib {
  il_line : string → option wireLine;
  il_vars : string → option (gmap string Any);
  il_url : string → option (string * string);
  il_lower : string → string;
  il_parseAddress : string → option string;
  il_toASCII : string → option string;
}.

Record Ingester := mkIngester {
  in_lib : ingestLib;
  in_limits : Limits;
  in_batchSize : Z;
  in_maxLineErrors : Z;
}.
#[global] Instance Ingester_eta : Eta Ingester := λ i,
  mkIngester (in_lib i) (in_limits i) (in_batchSize i) (in_maxLineErrors i).

Definition DefaultBatchSize : Z := 2000.
Definition DefaultMaxLineErrors : Z := 100.

(** [New], [WithBatchSize] and [WithMaxLineErrors] *)
Definition WithBatchSize (n : Z) (i : Ingester) : Ingester :=
  if 0 <? n then i <| in_batchSize := n |> else i.
Definition WithMaxLineErrors (n : Z) (i : Ingester) : Ingester :=
  if 0 <=? n then i <| in_maxLineErrors := n |> else i.
Definition NewIngester (lib : ingestLib) (limits : Limits) (opts : list (Ingester → Ingester)) : Ingester :=
  foldl (λ i o, o i) (mkIngester lib (WithDefaults limits) DefaultBatchSize DefaultMaxLineErrors) opts.

(** [clip] *)
Definition maxReportedBytes : nat := 200.
Definition clip (s : string) : string :=
  if (maxReportedBytes <? String.length s)%nat then strTake maxReportedBytes s +:+ "..." else s.

(** ** Locales: [^[A-Za-z]{2,3}(-[A-Za-z0-9]{2,8})*$] *)

Definition isLetter (c : Ascii.ascii) : bool :=
  let n := byteVal c in ((65 <=? n) && (n <=? 90)) || ((97 <=? n) && (n <=? 122)).
Definition isAlnum (c : Ascii.ascii) : bool :=
  let n := byteVal c in isLetter c || ((48 <=? n) && (n <=? 57)).

Fixpoint allBytes (P : Ascii.ascii → bool) (s : string) : bool :=
  match s with EmptyString => true | String c s' => P c && allBytes P s' end.

Definition subtag (P : Ascii.ascii → bool) (lo hi : nat) (s : string) : bool :=
  (lo <=? String.length s)%nat && (String.length s <=? hi)%nat && allBytes P s.

Definition localeRe (s : string) : bool :=
  match splitByte (toByte 45) s with
  | [] => false
  | lang :: tags => subtag isLetter 2 3 lang && forallb (subtag isAlnum 2 8) tags
  end.

(** ** One line *)

Definition bytesString (l : bytes) : string := String.string_of_list_ascii l.

Section ingester.
Context (i : Ingester).
(** The campaign read at the start of the call, the call's time, and the ID
    [store.NewID] returns for a line. *)
Context (camp : Campaign) (at_ : Time) (newID : Z → string).

(** [run.fill] *)
Definition fillDelivery (d : Delivery) : Delivery :=
  d <| d_TenantID := c_TenantID camp |>
    <| d_CampaignID := c_ID camp |>
    <| d_VersionID := c_VersionID camp |>
    <| d_SenderID := c_SenderID camp |>
    <| d_Lane := LaneBulk |>
    <| d_Priority := 0 |>
    <| d_Status := DeliveryPending |>
    <| d_NextAttemptAt := at_ |>
    <| d_CreatedAt := at_ |>
    <| d_UpdatedAt := at_ |>.

(** [u, err := url.Parse(...)] and the test of it *)
Definition badURL (s : string) : bool :=
  match il_url (in_lib i) s with
  | None => true
  | Some (scheme, host) => strEq host "" || (negb (strEq scheme "http") && negb (strEq scheme "https"))
  end.

(** [len(w.Vars) > 0] and what follows: the vars of the delivery *)
Definition parseVars (raw : string) : error + gmap string Any :=
  if (String.length raw =? 0)%nat then inr ∅
  else if MaxVarsBytes (in_limits i) <? Z.of_nat (String.length raw) then inl ErrVarsTooLarge
  else match il_vars (in_lib i) raw with None => inl ErrBadJSON | Some m => inr m end.

(** [run.parse]: the delivery so far, and the error. *)
Definition parse (lineNo : Z) (line : string) : Delivery * option error :=
  match il_line (in_lib i) line with
  | None => (zero, Some ErrBadJSON)
  | Some w =>
      let d := (zero : Delivery) <| d_Email := TrimSpace (w_Email w) |> in
      match NormalizeEmail (il_lower (in_lib i)) (il_parseAddress (in_lib i)) (il_toASCII (in_lib i)) (w_Email w) with
      | None => (d, Some ErrBadEmail)
      | Some norm =>
          let d := d <| d_EmailNorm := norm |> in
          let d := if hasByte (toByte 60) (d_Email d) || hasByte (toByte 62) (d_Email d)
                   then d <| d_Email := norm |> else d in
          let d := d <| d_Name := TrimSpace (w_Name w) |> in
          if hasByte CR (d_Name d) || hasByte LF (d_Name d) then (d, Some ErrBadName)
          else
            let d := d <| d_Locale := TrimSpace (w_Locale w) |> in
            if negb (strEq (d_Locale d) "") && negb (localeRe (d_Locale d)) then (d, Some ErrBadLocale)
            else
              match parseVars (w_Vars w) with
              | inl err => (d, Some err)
              | inr vars =>
                  let d := d <| d_Vars := vars |> in
                  let d := d <| d_UnsubscribeURL := TrimSpace (w_UnsubscribeURL w) |> in
                  if negb (strEq (d_UnsubscribeURL d) "") && badURL (d_UnsubscribeURL d)
                  then (d, Some ErrBadUnsubscribeURL)
                  else (fillDelivery (d <| d_ID := newID lineNo |>), None)
              end
      end
  end.

(** ** The state of a call (type [run]) *)

Record ingestRun := mkRun {
  rn_existing : Z;
  rn_batch : list Delivery;
  rn_seen : gset string;
  rn_res : Result;
}.
#[global] Instance ingestRun_eta : Eta ingestRun := λ r,
  mkRun (rn_existing r) (rn_batch r) (rn_seen r) (rn_res r).

(** [run.reject] *)
Definition reject (lineNo : Z) (email : string) (err : error) (r : ingestRun) : ingestRun :=
  let res := (rn_res r) <| rs_Invalid := rs_Invalid (rn_res r) + 1 |> in
  if in_maxLineErrors i <=? len (rs_Errors res) then r <| rn_res := res |>
  else r <| rn_res := res <| rs_Errors := rs_Errors res ++ [mkLineError lineNo (clip email) err] |> |>.

(** [run.flush]: the run after it, and the error. *)
Definition flushBatch (r : ingestRun) : prog (ingestRun * option error) :=
  if len (rn_batch r) =? 0 then pret (r, None)
  else
    handle (call (λ env, InsertBatch env (rn_batch r))) (λ x,
      match x with
      | inl err => pret (r, Some err)
      | inr inserted =>
          let res := rn_res r in
          let res := res <| rs_Accepted := rs_Accepted res + inserted |> in
          let res := res <| rs_Duplicates := rs_Duplicates res + (len (rn_batch r) - inserted) |> in
          pret (mkRun (rn_existing r) [] ∅ res, None)
      end).

Definition maxRecipients : Z := MaxRecipientsPerCampaign (in_limits i).

(** [r.existing+r.res.Accepted] *)
Definition taken (r : ingestRun) : Z := rn_existing r + rs_Accepted (rn_res r).

(** [x, err := p; if err != nil { return r.res, err }; ...] *)
Definition andThen (p : prog (ingestRun * option error)) (k : ingestRun → prog (ingestRun * option error))
    : prog (ingestRun * option error) :=
  pbind p (λ x, match x.2 with Some _ => pret x | None => k x.1 end).

(** The flush before the limit would be passed. *)
Definition makeRoom (r : ingestRun) : prog (ingestRun * option error) :=
  if maxRecipients <=? taken r + len (rn_batch r)
  then andThen (flushBatch r) (λ r,
         if maxRecipients <=? taken r then pret (r, Some ErrTooManyRecipients) else pret (r, None))
  else pret (r, None).

(** The append of a delivery to the batch, and the flush of a full one. *)
Definition addDelivery (d : Delivery) (r : ingestRun) : prog (ingestRun * option error) :=
  let r := r <| rn_seen := {[d_EmailNorm d]} ∪ rn_seen r |> <| rn_batch := rn_batch r ++ [d] |> in
  if in_batchSize i <=? len (rn_batch r) then flushBatch r else pret (r, None).

(** The loop body of [stream] for a line within the budget. *)
Definition onLine (lineNo : Z) (line : bytes) (r : ingestRun) : prog (ingestRun * option error) :=
  let line := TrimSpace (bytesString line) in
  if (String.length line =? 0)%nat then pret (r, None)
  else
    match parse lineNo line with
    | (d, Some err) => pret (reject lineNo (d_Email d) err r, None)
    | (d, None) =>
        if bool_decide (d_EmailNorm d ∈ rn_seen r)
        then pret (r <| rn_res := (rn_res r) <| rs_Duplicates := rs_Duplicates (rn_res r) + 1 |> |>, None)
        else andThen (makeRoom r) (addDelivery d)
    end.

(** [run.stream]'s loop: it ends after one round per record of the stream. *)
Fixpoint streamLoop (fuel : nat) (br : bufReader) (lineNo : Z) (r : ingestRun) : prog (ingestRun * option error) :=
  match fuel with
  | O => pret (r, Some (ioError ErrNoProgress))
  | S fuel =>
      Poll (λ canceled,
        if canceled : bool then pret (r, Some errCanceled)
        else
          match next (MaxRecipientLineBytes (in_limits i)) br with
          | (inl LineEOF, _) => flushBatch r
          | (inl ErrLineTooLong, br) => streamLoop fuel br (lineNo + 1) (reject lineNo "" errLineTooLong r)
          | (inl (LineIO e), _) => pret (r, Some (ioError e))
          | (inr line, br) => andThen (onLine lineNo line r) (streamLoop fuel br (lineNo + 1))
          end)
  end.

(** [run.stream] *)
Definition stream (src : source) (r : ingestRun) : prog (ingestRun * option error) :=
  if maxRecipients <=? rn_existing r then pret (r, Some ErrTooManyRecipients)
  else
    let br := NewReaderSize src readBufferBytes in
    streamLoop (S (length (unread br))) br 1 r.

End ingester.
Arguments mkRun.

(** ** [Ingest] *)

Definition ChunkPending : string := "pending".
Definition ChunkCompleted : string := "completed".

(** [Ingester.count] *)
Definition sumCounts (byStatus : gmap DeliveryStatus Z) : Z := map_fold (λ _ n total, total + n) 0 byStatus.

Definition count (campaignID : string) : prog Z :=
  let? byStatus := call (λ env, CountByStatus env campaignID) in pret (sumCounts byStatus).

Definition chunkOf (campaignID key state : string) (res : Result) : RecipientChunk :=
  (zero : RecipientChunk)
    <| rc_CampaignID := campaignID |> <| rc_Key := key |> <| rc_State := state |>
    <| rc_Accepted := rs_Accepted res |> <| rc_Duplicates := rs_Duplicates res |>
    <| rc_Invalid := rs_Invalid res |>.

(** The chunk's record before the body is read: [Some] is the stored answer of
    a completed chunk. *)
Definition openChunk (campaignID chunkKey : string) (existing : Z) : prog (option Result) :=
  if strEq chunkKey "" then pret None
  else
    handle (call (λ env, ChunkGet env campaignID chunkKey)) (λ prev,
      let begin := let? _ := call (λ env, ChunkPut env (chunkOf campaignID chunkKey ChunkPending zero)) in pret None in
      match prev with
      | inr prev =>
          if strEq (rc_State prev) ChunkCompleted
          then pret (Some (mkResult (rc_Accepted prev) (rc_Duplicates prev) (rc_Invalid prev) existing []))
          else begin
      | inl err => if errIs err ErrNotFound then begin else fail err
      end).

(** The chunk's record after it. *)
Definition closeChunk (campaignID chunkKey : string) (res : Result) : prog (Result * option error) :=
  if strEq chunkKey "" then pret (res, None)
  else
    handle (call (λ env, ChunkPut env (chunkOf campaignID chunkKey ChunkCompleted res))) (λ x,
      match x with inl err => pret (res, Some err) | inr _ => pret (res, None) end).

(** What follows the stream: the total, and the chunk's completion unless
    something failed. *)
Definition finish (campaignID chunkKey : string) (res : Result) (err : option error) : prog (Result * option error) :=
  handle (count campaignID) (λ total,
    let '(res, err) :=
      match total with
      | inr n => (res <| rs_Total := n |>, err)
      | inl cerr => (res, match err with None => Some cerr | _ => err end)
      end in
    match err with
    | Some _ => pret (res, err)
    | None => closeChunk campaignID chunkKey res
    end).

(** [Ingester.Ingest].  A failed program is [return Result{}, err]; the pair is
    the result with the error returned next to it. *)
Definition Ingest (i : Ingester) (clock : Time) (newID : Z → string) (campaignID chunkKey : string)
    (src : source) : prog (Result * option error) :=
  let? c := call (λ env, GetCampaign env campaignID) in
  if negb (bool_decide (c_Status c = CampaignDraft) || bool_decide (c_Status c = CampaignScheduled))
  then fail ErrCampaignNotEditable
  else
    let? existing := count campaignID in
    let? replay := openChunk campaignID chunkKey existing in
    match replay with
    | Some res => pret (res, None)
    | None =>
        let? x := stream i c (TruncateTime clock) newID src (mkRun existing [] ∅ zero) in
        finish campaignID chunkKey (rn_res x.1) x.2
    end.
