(* ===== verification/IngestProps.v ===== *)
(** * What ingesting recipients guarantees ([internal/ingest])

    The recipients of a campaign as a set, what a batch does to it, and the
    theorems about [Ingest]: what a call alone achieves, what it keeps under
    interference, and what repeating it after a crash gives. *)

From S2P Require Import Prelude Enums Model MemTable MemData DeliveryRepo DeliveryQueue DeliveryProps Repos Prog Campaign CampaignLoops CampaignProps Codec Tokens LineReader Email Ingest.

(** ** Recipients *)

Definition rowsOf (cid : string) (td : tenantData) : list Delivery :=
  filter (λ d, d_CampaignID d = cid) (map_to_list (deliveries td)).*2.

(** The canonical addresses of the campaign. *)
Definition recipients (cid : string) (td : tenantData) : gset string :=
  list_to_set (d_EmailNorm <$> rowsOf cid td).

(** The part of the queue's invariant that makes recipients unique. *)
Record ingestOk (td : tenantData) : Prop := {
  io_id id d : deliveries td !! id = Some d → d_ID d = id;
  io_index id d : deliveries td !! id = Some d → d_CampaignID d ≠ "" →
    campaignEmails td !! emailKey (d_CampaignID d) (d_EmailNorm d) = Some id;
  io_sound k id : campaignEmails td !! k = Some id →
    ∃ d, deliveries td !! id = Some d ∧ emailKey (d_CampaignID d) (d_EmailNorm d) = k;
  io_noNul id d : deliveries td !! id = Some d → noNul (d_CampaignID d) = true;
}.

Lemma queueOk_ingestOk tenant td :
  queueOk tenant td → (∀ id d, deliveries td !! id = Some d → noNul (d_CampaignID d) = true) → ingestOk td.
Proof. intros [Hid _ _ _ Hix Hso] Hnn. split; try done. intros k id (d&Hd&_&Hk)%Hso. eauto. Qed.

Lemma elem_of_rowsOf cid td d :
  d ∈ rowsOf cid td ↔ (∃ id, deliveries td !! id = Some d) ∧ d_CampaignID d = cid.
Proof.
  unfold rowsOf. rewrite list_elem_of_filter, list_elem_of_fmap. split.
  - intros [Hc ([id x]&->&Hin)]. split; [|done]. exists id. by apply elem_of_map_to_list.
  - intros [[id Hd] Hc]. split; [done|]. exists (id, d). split; [done|]. by apply elem_of_map_to_list.
Qed.

Lemma elem_of_recipients cid td e :
  e ∈ recipients cid td ↔
    ∃ id d, deliveries td !! id = Some d ∧ d_CampaignID d = cid ∧ d_EmailNorm d = e.
Proof.
  unfold recipients. rewrite elem_of_list_to_set, list_elem_of_fmap. split.
  - intros (d&->&[[id Hd] Hc]%elem_of_rowsOf). by exists id, d.
  - intros (id&d&Hd&Hc&<-). exists d. split; [done|]. apply elem_of_rowsOf. eauto.
Qed.

(** The unique index is the recipients. *)
Lemma recipients_indexed td cid e :
  ingestOk td → cid ≠ "" → noNul cid = true →
  is_Some (campaignEmails td !! emailKey cid e) ↔ e ∈ recipients cid td.
Proof.
  intros Hok Hc Hn. rewrite elem_of_recipients. split.
  - intros [id Hid]. destruct (io_sound _ Hok _ _ Hid) as (d&Hd&Hk). exists id, d. split; [done|].
    apply emailKey_inj; [by eapply io_noNul|done|done].
  - intros (id&d&Hd&<-&<-). exists id. by apply io_index.
Qed.

(** One row per recipient. *)
Lemma rowsOf_size td cid :
  ingestOk td → cid ≠ "" → len (rowsOf cid td) = Z.of_nat (size (recipients cid td)).
Proof.
  intros Hok Hc. unfold recipients. rewrite size_list_to_set; [by unfold len; rewrite length_fmap|].
  assert (Hnd : NoDup (rowsOf cid td)).
  { apply NoDup_filter. eapply (NoDup_fmap_1 d_ID).
    replace (d_ID <$> (map_to_list (deliveries td)).*2) with (map_to_list (deliveries td)).*1;
      [apply NoDup_fst_map_to_list|].
    rewrite <- list_fmap_compose. apply list_fmap_ext. intros k [id d] Hin%list_elem_of_lookup_2. cbn.
    symmetry. apply (io_id _ Hok). by apply elem_of_map_to_list. }
  apply NoDup_fmap_2_strong; [|done]. intros x y [[idx Hx] Hcx]%elem_of_rowsOf [[idy Hy] Hcy]%elem_of_rowsOf He.
  pose proof (io_index _ Hok _ _ Hx ltac:(congruence)) as H1.
  pose proof (io_index _ Hok _ _ Hy ltac:(congruence)) as H2. rewrite Hcx, He, <- Hcy in H1. congruence.
Qed.

(** ** A batch *)

(** The IDs a batch brings are new and distinct. *)
Definition freshBatch (ds : list Delivery) (td : tenantData) : Prop :=
  NoDup (d_ID <$> ds) ∧ Forall (λ d, d_ID d ≠ "" ∧ d_ID d ∉ dom (deliveries td)) ds.

Lemma deliveryID_given env i d : d_ID d ≠ "" → deliveryID env i d = d.
Proof. intros Hd. unfold deliveryID, strEq. by rewrite bool_decide_eq_false_2. Qed.

Lemma freshBatch_from env i ds td : freshBatch ds td → freshFrom env i ds (dom (deliveries td)).
Proof.
  intros [Hnd Hf].
  assert (∀ u, Forall (λ d, d_ID d ≠ "" ∧ d_ID d ∉ u) ds → freshFrom env i ds u) as H; [|by apply H].
  clear Hf. revert i. induction ds as [|d ds IH]; intros i u Hf; [done|].
  apply Forall_cons in Hf as [[Hd Hu] Hf]. cbn in Hnd. apply list.NoDup_cons in Hnd as [Hnd1 Hnd]. cbn.
  rewrite deliveryID_given by done. split; [done|]. apply IH; [done|].
  rewrite Forall_forall in *. intros x Hx. destruct (Hf x Hx). split; [done|].
  apply not_elem_of_union. split; [|done]. intros Heq%elem_of_singleton. apply Hnd1. rewrite <- Heq.
  by apply list_elem_of_fmap_2.
Qed.

(** What a campaign's batch does. *)
Record batchEffect (cid : string) (ds : list Delivery) (n : Z) (td td' : tenantData) : Prop := {
  be_recipients : recipients cid td' = recipients cid td ∪ list_to_set (d_EmailNorm <$> ds);
  be_count : n = Z.of_nat (size (recipients cid td')) - Z.of_nat (size (recipients cid td));
  be_rows : deliveries td ⊆ deliveries td';
  be_size : Z.of_nat (size (deliveries td')) = Z.of_nat (size (deliveries td)) + n;
  be_new id d : deliveries td' !! id = Some d → deliveries td !! id = None →
    ∃ x env i, x ∈ ds ∧ d = insertedRow env i x;
  be_frame : campaigns td' = campaigns td ∧ chunks td' = chunks td;
}.

(** A new recipient's row, indexed. *)
Lemma ingestOk_insert (d r : Delivery) td td' :
  ingestOk td → d_CampaignID d ≠ "" → noNul (d_CampaignID d) = true →
  d_EmailNorm d ∉ recipients (d_CampaignID d) td → deliveries td !! d_ID d = None →
  d_ID r = d_ID d → d_CampaignID r = d_CampaignID d → d_EmailNorm r = d_EmailNorm d →
  deliveries td' = <[d_ID d := r]> (deliveries td) →
  campaignEmails td' = <[emailKey (d_CampaignID d) (d_EmailNorm d) := d_ID d]> (campaignEmails td) →
  ingestOk td'.
Proof.
  intros Hok Hc Hn Hnot Hnone Hid Hrc Hre Hde Hce. split; rewrite ?Hde, ?Hce.
  - intros id x [[<- <-]|[_ Hx]]%lookup_insert_Some; [done|by eapply io_id].
  - intros id x [[<- <-]|[Hne Hx]]%lookup_insert_Some Hxc; [by rewrite Hrc, Hre, lookup_insert_eq|].
    rewrite lookup_insert_ne; [by apply io_index|]. intros Hk. apply Hnot.
    apply (recipients_indexed td _ _ Hok Hc Hn). rewrite Hk. exists id. by apply io_index.
  - intros k id [[<- <-]|[_ Hx]]%lookup_insert_Some; [exists r; by rewrite lookup_insert_eq, Hrc, Hre|].
    destruct (io_sound _ Hok _ _ Hx) as (x&Hxd&Hk). exists x. rewrite lookup_insert_ne; [done|]. congruence.
  - intros id x [[<- <-]|[_ Hx]]%lookup_insert_Some; [by rewrite Hrc|by eapply io_noNul].
Qed.

Lemma insertOne_effect env i d td cid n :
  ingestOk td → cid ≠ "" → noNul cid = true → d_CampaignID d = cid → d_EmailNorm d ≠ "" →
  d_ID d ≠ "" → d_ID d ∉ dom (deliveries td) →
  ∃ k td', insertOne env i d (n, td) = (n + k, td') ∧ ingestOk td' ∧
    batchEffect cid [d] k td td' ∧ dom (deliveries td') ⊆ {[d_ID d]} ∪ dom (deliveries td).
Proof.
  intros Hok Hc Hn Hcd Hem Hid Hfr.
  pose proof (insertOne_dom env i d n td) as Hdom. rewrite deliveryID_given in Hdom by done.
  pose proof (recipients_indexed td cid (d_EmailNorm d) Hok Hc Hn) as Hix.
  destruct (isDuplicate d td) eqn:Hdup.
  - rewrite insertOne_skip in * by done. exists 0, td. rewrite Z.add_0_r.
    unfold isDuplicate, strEq in Hdup. rewrite Hcd in Hdup. to_prop.
    assert (recipients cid td ∪ list_to_set (d_EmailNorm <$> [d]) = recipients cid td) as Hr by set_solver.
    split_and!; [done|done| |done]. split; [done|lia|done|lia|intros; congruence|done].
  - assert (Hnot : d_EmailNorm d ∉ recipients cid td).
    { rewrite <- Hix. unfold isDuplicate, strEq in Hdup. rewrite Hcd in Hdup. to_prop; done. }
    pose proof (insertOne_new env i d n td Hdup) as (td'&Heq&Hde&Hce&_).
    destruct (insertedRow_fields env i d) as (Hrid&_&Hrc&Hre&_). rewrite deliveryID_given in Hrid by done.
    rewrite Heq in Hdom. cbn [snd] in Hdom.
    assert (deliveries td !! d_ID d = None) as Hnone by by apply not_elem_of_dom.
    rewrite Hrid in Hde, Hce. unfold strEq in Hce. rewrite bool_decide_eq_false_2 in Hce by congruence.
    assert (recipients cid td' = recipients cid td ∪ {[d_EmailNorm d]}) as Hrec.
    { apply set_eq. intros e. rewrite elem_of_union, elem_of_singleton, !elem_of_recipients. setoid_rewrite Hde. split.
      - intros (id&x&[[<- <-]|[Hne Hx]]%lookup_insert_Some&Hxc&Hxe); [right; congruence|left; eauto].
      - intros [(id&x&Hx&Hxc&Hxe)| ->].
        + exists id, x. rewrite lookup_insert_ne; [done|]. intros <-. congruence.
        + exists (d_ID d), (insertedRow env i d). by rewrite lookup_insert_eq, Hrc, Hre. }
    exists 1, td'. split_and!; [done| | |done].
    + eapply (ingestOk_insert d (insertedRow env i d) td); rewrite ?Hcd; (done || congruence).
    + split.
      * rewrite Hrec. cbn. by rewrite (right_id_L ∅ (∪)).
      * rewrite Hrec, size_union_alt. replace ({[d_EmailNorm d]} ∖ recipients cid td) with ({[d_EmailNorm d]} : gset string)
          by set_solver. rewrite size_singleton. lia.
      * rewrite Hde. by apply insert_subseteq.
      * rewrite Hde, map_size_insert_None by done. lia.
      * intros id x. rewrite Hde. intros [[<- <-]|[_ Hx]]%lookup_insert_Some; [|congruence].
        intros _. exists d, env, i. split; [by left|done].
      * unfold insertOne in Heq. destruct (negb _ && _); [injection Heq; lia|]. injection Heq as <-.
        by destruct (strEq _ "").
Qed.

Lemma batchEffect_nil cid td : batchEffect cid [] 0 td td.
Proof. split; [set_solver|lia|done|lia|intros; congruence|done]. Qed.

Lemma batchEffect_app cid ds1 ds2 n1 n2 td1 td2 td3 :
  batchEffect cid ds1 n1 td1 td2 → batchEffect cid ds2 n2 td2 td3 →
  batchEffect cid (ds1 ++ ds2) (n1 + n2) td1 td3.
Proof.
  intros [Hr1 Hc1 Hw1 Hz1 Hn1 [Hf1 Hg1]] [Hr2 Hc2 Hw2 Hz2 Hn2 [Hf2 Hg2]]. split.
  - rewrite Hr2, Hr1, fmap_app, list_to_set_app_L. set_solver.
  - lia.
  - by etrans.
  - lia.
  - intros id d Hd Hnone. destruct (deliveries td2 !! id) as [d2|] eqn:Hd2.
    + rewrite (lookup_weaken _ _ _ _ Hd2 Hw2) in Hd. injection Hd as ->.
      destruct (Hn1 _ _ Hd2 Hnone) as (x&env&i&Hx&->). exists x, env, i. split; [set_solver|done].
    + destruct (Hn2 _ _ Hd Hd2) as (x&env&i&Hx&->). exists x, env, i. split; [set_solver|done].
  - split; congruence.
Qed.

Lemma size_list_to_set_le (l : list string) : (size (list_to_set l : gset string) ≤ length l)%nat.
Proof.
  induction l as [|x l IH]; [by rewrite list_to_set_nil, size_empty|].
  rewrite list_to_set_cons, size_union_alt, size_singleton. cbn.
  pose proof (subseteq_size (list_to_set l ∖ {[x]}) (list_to_set l : gset string) ltac:(set_solver)). lia.
Qed.

Lemma batchEffect_bounds cid ds n td td' : batchEffect cid ds n td td' → 0 ≤ n ≤ len ds.
Proof.
  intros [Hrec -> _ _ _ _]. rewrite Hrec, size_union_alt. unfold len.
  pose proof (size_list_to_set_le (d_EmailNorm <$> ds)) as Hsz. rewrite length_fmap in Hsz.
  pose proof (subseteq_size (list_to_set (d_EmailNorm <$> ds) ∖ recipients cid td)
    (list_to_set (d_EmailNorm <$> ds) : gset string) ltac:(set_solver)). lia.
Qed.

(** The batches [Ingest] inserts. *)
Record goodBatch (cid : string) (ds : list Delivery) (td : tenantData) : Prop := {
  gb_campaign : Forall (λ d, d_CampaignID d = cid ∧ d_EmailNorm d ≠ "") ds;
  gb_fresh : freshBatch ds td;
}.

Lemma insertLoop_effect env i ds td cid n :
  ingestOk td → cid ≠ "" → noNul cid = true → goodBatch cid ds td →
  ∃ k td', insertLoop env i ds (n, td) = (n + k, td') ∧ ingestOk td' ∧
    batchEffect cid ds k td td' ∧ dom (deliveries td') ⊆ list_to_set (d_ID <$> ds) ∪ dom (deliveries td).
Proof.
  intros Hok Hc Hn. revert i n td Hok. induction ds as [|d ds IH]; intros i n td Hok [Hcd [Hnd Hfr]].
  { exists 0, td. rewrite Z.add_0_r. split_and!; [done|done|apply batchEffect_nil|set_solver]. }
  apply Forall_cons in Hcd as [[Hdc Hde] Hcd]. apply Forall_cons in Hfr as [[Hid Hdom] Hfr].
  cbn in Hnd. apply list.NoDup_cons in Hnd as [Hnin Hnd]. cbn [insertLoop].
  destruct (insertOne_effect env i d td cid n Hok Hc Hn Hdc Hde Hid Hdom) as (k&td1&->&Hok1&He1&Hd1).
  destruct (IH (S i) (n + k) td1 Hok1) as (k'&td2&->&Hok2&He2&Hd2).
  { split; [done|]. split; [done|]. rewrite Forall_forall in *. intros x Hx. destruct (Hfr x Hx) as [? Hxd].
    split; [done|]. intros Hin%Hd1. apply elem_of_union in Hin as [Hin%elem_of_singleton|Hin]; [|done].
    apply Hnin. rewrite <- Hin. by apply list_elem_of_fmap_2. }
  exists (k + k'), td2. split_and!; [f_equal; lia|done| |].
  - by apply (batchEffect_app cid [d] ds k k' td td1 td2).
  - rewrite fmap_cons, list_to_set_cons. etrans; [exact Hd2|]. clear -Hd1. set_solver.
Qed.

Lemma goodBatch_valid cid ds td : goodBatch cid ds td → existsb (λ d, strEq (d_EmailNorm d) "") ds = false.
Proof.
  intros [Hcd _]. apply not_true_iff_false. intros (d&Hd%list_elem_of_In&He)%existsb_exists.
  rewrite Forall_forall in Hcd. destruct (Hcd d Hd) as [_ Hne]. by to_prop.
Qed.

(** A batch either fails and changes nothing, or adds its recipients. *)
Lemma InsertBatch_effect env ds td cid :
  ingestOk td → cid ≠ "" → noNul cid = true → goodBatch cid ds td →
  InsertBatch env ds td = (inl errClosed, td) ∧ e_closed env = true ∨
  e_closed env = false ∧
  ∃ k td', InsertBatch env ds td = (inr k, td') ∧ ingestOk td' ∧
    batchEffect cid ds k td td' ∧ dom (deliveries td') ⊆ list_to_set (d_ID <$> ds) ∪ dom (deliveries td).
Proof.
  intros Hok Hc Hn Hgb. unfold InsertBatch. rewrite (goodBatch_valid cid ds td Hgb). unfold checked, throw.
  destruct (e_closed env); [by left|]. right. split; [done|].
  destruct (insertLoop_effect env 0 ds td cid 0 Hok Hc Hn Hgb) as (k&td'&->&H). by exists k, td'.
Qed.

(** ** Counting *)

Lemma sumCounts_insert m s v : sumCounts (<[s := v]> m) = sumCounts m - default 0 (m !! s) + v.
Proof.
  assert (∀ (m : gmap DeliveryStatus Z) s v, m !! s = None → sumCounts (<[s := v]> m) = sumCounts m + v) as Hins.
  { intros m' s' v' Hs. unfold sumCounts. rewrite map_fold_insert_L; [done|lia|done]. }
  destruct (m !! s) as [x|] eqn:Hs; cbn.
  - rewrite <- insert_delete_eq, Hins by apply lookup_delete_eq.
    rewrite <- (insert_delete_id m s x Hs) at 2. rewrite Hins by apply lookup_delete_eq. lia.
  - rewrite Hins by done. lia.
Qed.

Lemma countOne_sum cid (l : list Delivery) :
  len l ≤ maxInt64 →
  (∀ s, 0 ≤ default 0 (foldr (countOne cid) ∅ l !! s) ≤ len l) ∧
  sumCounts (foldr (countOne cid) ∅ l) = len (filter (λ d, d_CampaignID d = cid) l).
Proof.
  induction l as [|d l IH]; intros Hl; [split; [intros s; cbn [foldr]; rewrite lookup_empty; unfold len; cbn; lia|];
    cbn [foldr]; unfold sumCounts; by rewrite map_fold_empty|].
  assert (len (d :: l) = len l + 1) as Hlen by (unfold len; cbn; lia).
  destruct IH as [Hb Hs]; [lia|]. cbn [foldr]. set (m := foldr (countOne cid) ∅ l) in *. unfold countOne, strEq.
  rewrite filter_cons. case_bool_decide as Hc; cbn [negb].
  - rewrite decide_True by done. pose proof (Hb (d_Status d)) as Hd. rewrite (int64_small (_ + 1)); [split|].
    + intros s. destruct (decide (s = d_Status d)) as [->|Hne]; [rewrite lookup_insert_eq; cbn; lia|].
      rewrite lookup_insert_ne by done. specialize (Hb s). lia.
    + rewrite sumCounts_insert, Hs. unfold len. cbn. lia.
    + unfold in_int64, minInt64, maxInt64 in *. lia.
  - rewrite decide_False by done. split; [|done]. intros s. specialize (Hb s). lia.
Qed.

(** The store's rows can be counted. *)
Definition countable (td : tenantData) : Prop := Z.of_nat (size (deliveries td)) ≤ maxInt64.

Lemma CountByStatus_total env cid td :
  ingestOk td → cid ≠ "" → countable td → e_closed env = false →
  ∃ m, CountByStatus env cid td = (inr m, td) ∧ sumCounts m = Z.of_nat (size (recipients cid td)).
Proof.
  intros Hok Hc Hcn Hcl. unfold CountByStatus, checked. rewrite Hcl. eexists. split; [done|].
  rewrite <- (rowsOf_size _ _ Hok Hc). apply countOne_sum. unfold len. by rewrite length_fmap, length_map_to_list.
Qed.

(** ** Lines *)

Section lines.
Context (i : Ingester) (camp : Campaign) (at_ : Time) (newID : Z → string).

(** A line that parses is a pending delivery of the campaign. *)
Lemma parse_delivery lineNo line d :
  parse i camp at_ newID lineNo line = (d, None) →
  d_ID d = newID lineNo ∧ d_CampaignID d = c_ID camp ∧ d_EmailNorm d ≠ "" ∧
  d_Status d = DeliveryPending ∧ d_LeaseOwner d = "" ∧ d_AttemptCount d = 0.
Proof.
  unfold parse. destruct (il_line _ line) as [w|]; [|done].
  destruct (NormalizeEmail _ _ _ _) as [norm|] eqn:Hn; [|done]. apply NormalizeEmail_nonempty in Hn.
  destruct (hasByte (toByte 60) _ || _); cbv zeta;
  (destruct (hasByte CR _ || _); [done|]); (destruct (negb _ && _); [done|]);
  (destruct (parseVars _ _) as [e|vars]; [done|]); (destruct (negb _ && _); [done|]); intros [= <-]; done.
Qed.
End lines.

(** What a line means does not depend on the campaign, the time or its
    number. *)
Lemma parse_norm i camp at_ newID lineNo camp' at_' newID' lineNo' line :
  let x := parse i camp at_ newID lineNo line in let y := parse i camp' at_' newID' lineNo' line in
  x.2 = y.2 ∧ (x.2 = None → d_EmailNorm x.1 = d_EmailNorm y.1).
Proof.
  cbv zeta. unfold parse. destruct (il_line _ line) as [w|]; [|done].
  destruct (NormalizeEmail _ _ _ _) as [norm|]; [|done].
  destruct (hasByte (toByte 60) _ || _); cbv zeta;
  (destruct (hasByte CR _ || _); [done|]); (destruct (negb _ && _); [done|]);
  (destruct (parseVars _ _) as [e|vars]; [done|]); (destruct (negb _ && _); done).
Qed.

(** ** Interference *)

Section limit.
Context (i : Ingester) (cid : string) (newID : Z → string).
Hypothesis Hcid : cid ≠ "" ∧ noNul cid = true.
Hypothesis Hids : (∀ k, newID k ≠ "") ∧ ∀ j k, newID j = newID k → j = k.

(** The store as [Ingest] needs it: recipients are unique and can be counted,
    and the campaign is filed under its ID. *)
Record storeOk (td : tenantData) : Prop := {
  so_ok : ingestOk td;
  so_count : countable td;
  so_camp c : campaigns td !! cid = Some c → c_ID c = cid;
}.

(** Others may do anything but add recipients to this campaign, and they do
    not use the IDs this call mints. *)
Definition elsewhere (td td' : tenantData) : Prop :=
  storeOk td' ∧ (size (recipients cid td') ≤ size (recipients cid td))%nat ∧
  ∀ k, newID k ∈ dom (deliveries td') → newID k ∈ dom (deliveries td).

(** A step adds rows only, and not past the limit. *)
Definition withinLimit (td td' : tenantData) : Prop :=
  deliveries td ⊆ deliveries td' ∧
  (Z.of_nat (size (recipients cid td)) ≤ maxRecipients i →
   Z.of_nat (size (recipients cid td')) ≤ maxRecipients i).

(** What the call knows before line [n]. *)
Record runOk (n : Z) (td : tenantData) (r : ingestRun) : Prop := {
  ro_batch : Forall (λ d, d_CampaignID d = cid ∧ d_EmailNorm d ≠ "" ∧
                          ∃ k, k < n ∧ d_ID d = newID k) (rn_batch r);
  ro_nodup : NoDup (d_ID <$> rn_batch r);
  ro_fresh : Forall (λ d, d_ID d ∉ dom (deliveries td)) (rn_batch r);
  ro_later k : n ≤ k → newID k ∉ dom (deliveries td);
}.

Lemma runOk_good n td r : runOk n td r → goodBatch cid (rn_batch r) td.
Proof.
  intros [Hb Hnd Hf _]. destruct Hids as [Hne _]. split; [|split; [done|]]; rewrite Forall_forall in *; intros d Hd.
  - by destruct (Hb d Hd) as (?&?&_).
  - split; [|by apply Hf]. destruct (Hb d Hd) as (_&_&k&_&->). apply Hne.
Qed.

Lemma runOk_other n td td' r :
  (∀ k, newID k ∈ dom (deliveries td') → newID k ∈ dom (deliveries td)) → runOk n td r → runOk n td' r.
Proof.
  intros Hid [Hb Hnd Hf Hl]. split; [done|done| |].
  - rewrite Forall_forall in *. intros d Hd. destruct (Hb d Hd) as (_&_&k&_&Hk). specialize (Hf d Hd).
    rewrite Hk in *. auto.
  - intros k Hk Hin%Hid. by apply (Hl k Hk).
Qed.

Lemma runOk_mono n n' td r : n ≤ n' → runOk n td r → runOk n' td r.
Proof.
  intros Hn [Hb Hnd Hf Hl]. split; [|done|done|]; [|intros k Hk; apply Hl; lia].
  eapply Forall_impl; [exact Hb|]. intros d (?&?&k&?&?). split_and!; [done|done|]. exists k. split; [lia|done].
Qed.

(** The batch is in. *)
Lemma runOk_flushed n td td' r r' :
  runOk n td r → dom (deliveries td') ⊆ list_to_set (d_ID <$> rn_batch r) ∪ dom (deliveries td) →
  rn_batch r' = [] → runOk n td' r'.
Proof.
  intros [Hb Hnd Hf Hl] Hdom Hb'. split; rewrite ?Hb'; [constructor|constructor|constructor|].
  intros k Hk Hin%Hdom. apply elem_of_union in Hin as [Hin|Hin]; [|by apply (Hl k Hk)].
  apply elem_of_list_to_set, list_elem_of_fmap in Hin as (d&Hd&Hin). rewrite Forall_forall in Hb.
  destruct (Hb d Hin) as (_&_&j&Hj&Hdj). destruct Hids as [_ Hinj]. rewrite Hdj in Hd. apply Hinj in Hd. lia.
Qed.

Lemma runOk_add n td r d :
  runOk n td r → d_ID d = newID n → d_CampaignID d = cid → d_EmailNorm d ≠ "" →
  runOk (n + 1) td (r <| rn_seen := {[d_EmailNorm d]} ∪ rn_seen r |> <| rn_batch := rn_batch r ++ [d] |>).
Proof.
  intros Hro Hid Hc He. pose proof (runOk_mono n (n + 1) td r ltac:(lia) Hro) as [Hb Hnd Hf Hl].
  split; cbn [rn_batch upd]; [| | |done].
  - apply Forall_app. split; [done|]. apply Forall_singleton. split_and!; [done|done|]. exists n. split; [lia|done].
  - rewrite fmap_app. apply list.NoDup_app. split_and!; [done| |apply NoDup_singleton].
    intros y (x&->&Hin)%list_elem_of_fmap Hx%list_elem_of_singleton.
    destruct Hro as [Hb0 _ _ _]. rewrite Forall_forall in Hb0. destruct (Hb0 x Hin) as (_&_&k&Hk&Hxk).
    destruct Hids as [_ Hinj]. rewrite Hid, Hxk in Hx.
    apply Hinj in Hx. lia.
  - apply Forall_app. split; [done|]. apply Forall_singleton. rewrite Hid. apply (ro_later _ _ _ Hro). lia.
Qed.

(** ** The limit *)

Definition limitOk (n : Z) (td : tenantData) (r : ingestRun) : Prop :=
  runOk n td r ∧ Z.of_nat (size (recipients cid td)) ≤ taken r ∧ taken r + len (rn_batch r) ≤ maxRecipients i.

(** [p] keeps [limitOk] up to line [n] and ends with [Q] if it does not fail. *)
Definition keepsLimit (n : Z) (p : prog (ingestRun * option error)) (Q : ingestRun → Prop) (td : tenantData) : Prop :=
  wp elsewhere withinLimit p
    (λ x td', ∃ r err, x = inr (r, err) ∧ limitOk n td' r ∧ (err = None → Q r)) td.

Lemma keepsLimit_ret n r err Q td : limitOk n td r → (err = None → Q r) → keepsLimit n (pret (r, err)) Q td.
Proof. intros Hr HQ. by exists r, err. Qed.

Lemma keepsLimit_andThen n n' p k Q Q' td :
  n ≤ n' → keepsLimit n p Q td → (∀ td' r, limitOk n td' r → Q r → keepsLimit n' (k r) Q' td') →
  keepsLimit n' (andThen p k) Q' td.
Proof.
  intros Hn Hp Hk. apply wp_pbind. eapply wp_mono; [|exact Hp]. cbv beta.
  intros x td' (r&err&->&Hr&HQ). cbn [snd fst]. destruct err as [e|]; [|by apply Hk; auto].
  apply keepsLimit_ret; [|done]. destruct Hr as [Hro Hrest]. split; [by eapply runOk_mono|done].
Qed.

Lemma limitOk_elsewhere n td td' r : elsewhere td td' → limitOk n td r → limitOk n td' r.
Proof.
  intros (_&Hsz&Hid) (Hro&Hc&Hl). split_and!; [by eapply runOk_other|lia|done].
Qed.

Lemma flush_limit n r td :
  limitOk n td r → keepsLimit n (flushBatch r) (λ r, rn_batch r = []) td.
Proof.
  intros Hlim. unfold flushBatch. destruct (len (rn_batch r) =? 0) eqn:E; to_prop.
  { apply keepsLimit_ret; [done|]. intros _. by apply len_nil_inv. }
  apply wp_handle, wp_call. intros env td0 Hels. pose proof (limitOk_elsewhere _ _ _ _ Hels Hlim) as (Hro&Hc&Hl).
  destruct Hels as (Hst&_). destruct Hcid as [Hc1 Hc2].
  destruct (InsertBatch_effect env (rn_batch r) td0 cid (so_ok _ Hst) Hc1 Hc2 (runOk_good _ _ _ Hro))
    as [[-> _]|(_&k&td'&->&Hok'&He&Hdom)]; cbn [fst snd].
  - split; [by split|]. by apply keepsLimit_ret.
  - pose proof (batchEffect_bounds _ _ _ _ _ He) as Hk. destruct He as [Hrec Hcnt Hrows _ _ _].
    split; [split; [done|lia]|]. apply keepsLimit_ret; [|done].
    split_and!; [by eapply runOk_flushed|unfold taken in *; cbn; lia|unfold taken, len in *; cbn; lia].
Qed.

Lemma makeRoom_limit n r td :
  limitOk n td r → keepsLimit n (makeRoom i r) (λ r, taken r + len (rn_batch r) < maxRecipients i) td.
Proof.
  intros Hlim. unfold makeRoom. destruct (maxRecipients i <=? _) eqn:E; to_prop; [|by apply keepsLimit_ret].
  eapply keepsLimit_andThen; [done|by apply flush_limit|]. intros td' r' Hr' Hb.
  destruct (maxRecipients i <=? taken r') eqn:E'; to_prop; apply keepsLimit_ret; try done.
  intros _. rewrite Hb. unfold len. cbn. lia.
Qed.

Lemma addDelivery_limit n r d td :
  limitOk n td r → taken r + len (rn_batch r) < maxRecipients i →
  d_ID d = newID n → d_CampaignID d = cid → d_EmailNorm d ≠ "" →
  keepsLimit (n + 1) (addDelivery i d r) (λ _, True) td.
Proof.
  intros (Hro&Hc&Hl) Hroom Hid Hdc Hde. unfold addDelivery.
  set (r' := r <| rn_seen := _ |> <| rn_batch := _ |>).
  assert (limitOk (n + 1) td r') as Hr'.
  { split_and!; [by apply runOk_add|done|]. unfold r'. cbn. rewrite len_app. unfold taken, len in *. cbn. lia. }
  destruct (in_batchSize i <=? _); [|by apply keepsLimit_ret].
  eapply wp_mono; [|by apply flush_limit]. cbv beta. intros x td' (r0&err&->&H0&_). by exists r0, err.
Qed.

Lemma limitOk_next n td r : limitOk n td r → limitOk (n + 1) td r.
Proof. intros [Hro Hrest]. split; [eapply runOk_mono; [|done]; lia|done]. Qed.

Lemma reject_fields n email err r :
  rn_existing (reject i n email err r) = rn_existing r ∧ rn_batch (reject i n email err r) = rn_batch r ∧
  rn_seen (reject i n email err r) = rn_seen r ∧
  rs_Accepted (rn_res (reject i n email err r)) = rs_Accepted (rn_res r) ∧
  rs_Duplicates (rn_res (reject i n email err r)) = rs_Duplicates (rn_res r) ∧
  rs_Invalid (rn_res (reject i n email err r)) = rs_Invalid (rn_res r) + 1.
Proof. unfold reject. by destruct (in_maxLineErrors i <=? _). Qed.

(** A run that differs in what is not counted. *)
Lemma limitOk_same n td r r' :
  rn_existing r' = rn_existing r → rn_batch r' = rn_batch r →
  rs_Accepted (rn_res r') = rs_Accepted (rn_res r) → limitOk n td r → limitOk n td r'.
Proof.
  intros He Hb Ha ([Hro1 Hro2 Hro3 Hro4]&Hc&Hl). unfold limitOk, taken in *. rewrite He, Hb, Ha.
  split; [|done]. by split; rewrite ?Hb.
Qed.

Lemma limitOk_reject n td r email err : limitOk n td r → limitOk (n + 1) td (reject i n email err r).
Proof.
  intros Hr%limitOk_next. destruct (reject_fields n email err r) as (He&Hb&_&Ha&_). by eapply limitOk_same.
Qed.

Context (camp : Campaign) (at_ : Time).
Hypothesis Hcamp : c_ID camp = cid.

Lemma onLine_limit n line r td :
  limitOk n td r → keepsLimit (n + 1) (onLine i camp at_ newID n line r) (λ _, True) td.
Proof.
  intros Hlim. unfold onLine. cbv zeta. destruct (String.length _ =? 0)%nat.
  { by apply keepsLimit_ret; [apply limitOk_next|]. }
  destruct (parse _ _ _ _ _ _) as [d [err|]] eqn:Hp; [by apply keepsLimit_ret; [apply limitOk_reject|]|].
  destruct (bool_decide _).
  { apply keepsLimit_ret; [|done]. eapply limitOk_same; [| | |by apply limitOk_next]; done. }
  apply parse_delivery in Hp as (Hid&Hdc&Hde&_). rewrite Hcamp in Hdc.
  eapply keepsLimit_andThen; [|by apply makeRoom_limit|]; [lia|]. intros td' r' Hr' Hroom. by apply addDelivery_limit.
Qed.

Lemma streamLoop_limit fuel br n r td :
  limitOk n td r →
  wp elsewhere withinLimit (streamLoop i camp at_ newID fuel br n r) (λ _ _, True) td.
Proof.
  revert br n r td. induction fuel as [|fuel IH]; intros br n r td Hlim; [done|]. cbn [streamLoop wp].
  intros [|]; [done|]. destruct (next _ br) as [[[| |e]|line] br']; [|by apply IH, limitOk_reject|done|].
  - eapply wp_mono; [|by apply flush_limit]. done.
  - unfold andThen. apply wp_pbind. eapply wp_mono; [|by apply onLine_limit]. cbv beta.
    intros x td' (r'&err&->&Hr'&_). cbn. destruct err; [done|]. by apply IH.
Qed.
End limit.

(** ** The whole call *)

Lemma recipients_rows cid td td' : deliveries td' = deliveries td → recipients cid td' = recipients cid td.
Proof. intros Hd. unfold recipients, rowsOf. by rewrite Hd. Qed.

Lemma GetCampaign_reads env id td : (GetCampaign env id td).2 = td.
Proof. rewrite GetCampaign_run. by repeat case_match. Qed.

Lemma CountByStatus_reads env id td : (CountByStatus env id td).2 = td.
Proof. unfold CountByStatus, checked, throw. by destruct (e_closed env). Qed.

Lemma ChunkGet_reads env id key td : (ChunkGet env id key td).2 = td.
Proof. unfold ChunkGet, checked, throw. destruct (e_closed env); [done|]. by destruct (chunks td !! _). Qed.

Lemma ChunkPut_deliveries env c td :
  deliveries (ChunkPut env c td).2 = deliveries td ∧ campaigns (ChunkPut env c td).2 = campaigns td.
Proof. unfold ChunkPut, checked, throw. destruct (strEq _ _ || _); [done|]. by destruct (e_closed env). Qed.

Section whole.
Context (i : Ingester) (cid : string) (newID : Z → string).
Hypothesis Hcid : cid ≠ "" ∧ noNul cid = true.
Hypothesis Hids : (∀ k, newID k ≠ "") ∧ ∀ j k, newID j = newID k → j = k.

(** The IDs of the call are unused, and [e] bounds the recipients. *)
Definition bounded (e : Z) (td : tenantData) : Prop :=
  (∀ k, newID k ∉ dom (deliveries td)) ∧ Z.of_nat (size (recipients cid td)) ≤ e.

Lemma bounded_elsewhere e td td' : elsewhere cid newID td td' → bounded e td → bounded e td'.
Proof. intros (_&Hsz&Hid) [Hk He]. split; [|lia]. intros k Hin%Hid. by apply (Hk k). Qed.

Lemma rows_kept td td' :
  deliveries td' = deliveries td → withinLimit i cid td td' ∧ ∀ e, bounded e td → bounded e td'.
Proof.
  intros Hd. unfold withinLimit, bounded. by rewrite (recipients_rows _ _ _ Hd), Hd.
Qed.

(** A call that leaves the rows alone. *)
Lemma call_kept {B} (op : Env → M tenantData B) e td (Q : error + B → Prop) :
  (∀ env td, deliveries (op env td).2 = deliveries td) → bounded e td →
  (∀ env td', storeOk cid td' → bounded e td' → Q (op env td').1) →
  wp (elsewhere cid newID) (withinLimit i cid) (call op) (λ r td', bounded e td' ∧ Q r) td.
Proof.
  intros Hop Hb HQ. apply wp_call. intros env td0 Hels. destruct (rows_kept _ _ (Hop env td0)) as [Hw Hk].
  pose proof (bounded_elsewhere _ _ _ Hels Hb) as Hb0. split; [done|]. split; [by apply Hk|].
  apply HQ; [by destruct Hels|done].
Qed.

Lemma count_limit e td :
  bounded e td →
  wp (elsewhere cid newID) (withinLimit i cid) (count cid)
    (λ r td', ∀ n, r = inr n → bounded n td') td.
Proof.
  intros Hb. unfold count. apply wp_pbind, wp_call. intros env td0 Hels.
  pose proof (bounded_elsewhere _ _ _ Hels Hb) as [Hk _]. destruct Hels as (Hst&_&_).
  pose proof (CountByStatus_reads env cid td0) as Hr. split; [rewrite Hr; by split|].
  destruct (e_closed env) eqn:Hcl.
  - unfold CountByStatus, checked, throw. by rewrite Hcl.
  - destruct (CountByStatus_total env cid td0 (so_ok _ _ Hst) (proj1 Hcid) (so_count _ _ Hst) Hcl) as (m&->&Hm).
    cbn. intros n [= <-]. split; [done|]. by rewrite Hm.
Qed.

Lemma openChunk_limit key existing e td :
  bounded e td →
  wp (elsewhere cid newID) (withinLimit i cid) (openChunk cid key existing) (λ _ td', bounded e td') td.
Proof.
  intros Hb. unfold openChunk. destruct (strEq key ""); [done|].
  assert (Hput : ∀ td, bounded e td → wp (elsewhere cid newID) (withinLimit i cid)
    (let? _ := call (λ env, ChunkPut env (chunkOf cid key ChunkPending zero)) in @pret tenantData (option Result) None)
    (λ _ td', bounded e td') td).
  { intros td' Hb'. apply wp_pbind. eapply wp_mono; [|apply (call_kept _ e td' (λ _, True))]; [|intros; apply ChunkPut_deliveries|done..].
    by intros [?|?] ? [? _]. }
  apply wp_handle. eapply wp_mono; [|apply (call_kept _ e td (λ _, True))]; [|intros; by rewrite ChunkGet_reads|done..].
  intros [err|prev] td' [Hb' _].
  - destruct (errIs err ErrNotFound); [by apply Hput|done].
  - destruct (strEq _ _); [done|by apply Hput].
Qed.

Lemma finish_limit key res err td :
  wp (elsewhere cid newID) (withinLimit i cid) (finish cid key res err) (λ _ _, True) td.
Proof.
  unfold finish, count. apply wp_handle, wp_pbind, wp_call. intros env td1 _. split.
  { apply rows_kept. by rewrite CountByStatus_reads. }
  generalize (CountByStatus env cid td1) as x. intros [r td2]. cbn [fst snd].
  assert (∀ res td', wp (elsewhere cid newID) (withinLimit i cid) (closeChunk cid key res) (λ _ _, True) td') as Hclose.
  { intros res' td'. unfold closeChunk. destruct (strEq key ""); [done|]. apply wp_handle, wp_call.
    intros env' td0 _. split; [apply rows_kept, ChunkPut_deliveries|]. by destruct (ChunkPut _ _ _) as [[|] ?]. }
  destruct r as [e|m], err; cbn; first [done | apply Hclose].
Qed.

Lemma Ingest_limit clock key src td :
  (∀ k, newID k ∉ dom (deliveries td)) →
  wp (elsewhere cid newID) (withinLimit i cid) (Ingest i clock newID cid key src) (λ _ _, True) td.
Proof.
  intros Hk. pose (e := Z.of_nat (size (recipients cid td))). assert (bounded e td) as Hb by by split.
  unfold Ingest. apply wp_pbind.
  eapply wp_mono; [|apply (call_kept _ e td (λ r, ∀ c, r = inr c → c_ID c = cid))];
    [|intros; by rewrite GetCampaign_reads|done|].
  2:{ intros env td' Hst _ c. rewrite GetCampaign_run. destruct (e_closed env); [done|].
      destruct (campaigns td' !! cid) as [c'|] eqn:Hc; [|done]. intros [= <-]. by apply (so_camp _ _ Hst). }
  intros [err|c] td1 [Hb1 Hc]; [done|]. specialize (Hc c eq_refl).
  destruct (negb _); [done|]. apply wp_pbind. eapply wp_mono; [|by eapply count_limit].
  intros [err|existing] td2 Hn; [done|]. specialize (Hn existing eq_refl).
  apply wp_pbind. eapply wp_mono; [|by eapply openChunk_limit]. intros [err|[res|]] td3 Hb3; [done|done|].
  apply wp_pbind. unfold stream. cbn [rn_existing].
  destruct (maxRecipients i <=? existing) eqn:Hmax; to_prop; [by apply finish_limit|].
  eapply wp_mono; [|eapply (streamLoop_limit i cid newID Hcid Hids c (TruncateTime clock) Hc)].
  - intros [err|[r err]] td4 _; [done|]. apply finish_limit.
  - destruct Hb3 as [Hk3 He3]. split_and!; [|unfold taken; cbn; lia|unfold taken, len; cbn; lia].
    split; cbn; [constructor|constructor|constructor|]. intros k _. apply Hk3.
Qed.
End whole.

(** A campaign never gets more recipients than the limit allows,
    and no recipient is lost.  Whatever the body, its cuts and its errors, and
    whenever the caller goes away: as long as nobody else adds recipients to
    this campaign during the call, every step of [Ingest] only adds rows and
    keeps the number of recipients within [MaxRecipientsPerCampaign]. *)
Theorem ingest_limit i clock newID cid key src td tr res td' :
  cid ≠ "" → noNul cid = true → (∀ k, newID k ≠ "" ∧ newID k ∉ dom (deliveries td)) →
  (∀ j k, newID j = newID k → j = k) →
  exec (elsewhere cid newID) (Ingest i clock newID cid key src) td tr res td' →
  Forall (λ s, deliveries s.1 ⊆ deliveries s.2 ∧
    (Z.of_nat (size (recipients cid s.1)) ≤ MaxRecipientsPerCampaign (in_limits i) →
     Z.of_nat (size (recipients cid s.2)) ≤ MaxRecipientsPerCampaign (in_limits i))) tr.
Proof.
  intros Hc Hn Hk Hinj Hex.
  apply (wp_sound _ (withinLimit i cid) _ (λ _ _, True)) in Hex; [exact (proj1 Hex)|].
  apply Ingest_limit; [done|split; [intros k; apply Hk|done]|intros k; apply Hk].
Qed.

(** ** What a body means *)

Definition isBlank (rec : lineErr + bytes) : bool :=
  match rec with
  | inl _ => false
  | inr l => (String.length (TrimSpace (bytesString l)) =? 0)%nat
  end.

(** The canonical address of a record that is accepted. *)
Definition lineEmail (i : Ingester) (rec : lineErr + bytes) : option string :=
  match rec with
  | inl _ => None
  | inr l =>
      if isBlank rec then None
      else match parse i zero 0 (λ _, "") 0 (TrimSpace (bytesString l)) with
           | (d, None) => Some (d_EmailNorm d)
           | _ => None
           end
  end.

(** The addresses of a body, its lines that are not blank, and the bad ones
    among them. *)
Definition validEmails (i : Ingester) (recs : list (lineErr + bytes)) : gset string :=
  list_to_set (omap (lineEmail i) recs).
Definition nonBlank (recs : list (lineErr + bytes)) : list (lineErr + bytes) :=
  filter (λ rec, isBlank rec = false) recs.
Definition badLines (i : Ingester) (recs : list (lineErr + bytes)) : list (lineErr + bytes) :=
  filter (λ rec, isBlank rec = false ∧ lineEmail i rec = None) recs.

(** [stream] over the records of the body. *)
Fixpoint linesLoop (i : Ingester) (camp : Campaign) (at_ : Time) (newID : Z → string)
    (recs : list (lineErr + bytes)) (lineNo : Z) (r : ingestRun) : prog (ingestRun * option error) :=
  Poll (λ canceled,
    if canceled : bool then pret (r, Some errCanceled)
    else
      match recs with
      | [] => flushBatch r
      | inl _ :: recs => linesLoop i camp at_ newID recs (lineNo + 1) (reject i lineNo "" errLineTooLong r)
      | inr line :: recs =>
          andThen (onLine i camp at_ newID lineNo line r) (linesLoop i camp at_ newID recs (lineNo + 1))
      end).

Lemma andThen_progEq p k k' : (∀ r, progEq (k r) (k' r)) → progEq (andThen p k) (andThen p k').
Proof. intros Hk. apply progEq_pbind. intros [r [e|]]; [reflexivity|apply Hk]. Qed.

Lemma streamLoop_lines i camp at_ newID fuel br n r recs :
  readLines fuel (MaxRecipientLineBytes (in_limits i)) br = (recs, LineEOF) →
  progEq (linesLoop i camp at_ newID recs n r) (streamLoop i camp at_ newID fuel br n r).
Proof.
  revert br n r recs. induction fuel as [|fuel IH]; intros br n r recs; [done|]. cbn [readLines streamLoop].
  destruct (next _ br) as [[[| |e]|line] br'].
  - intros [= <-]. constructor. intros [|]; reflexivity.
  - destruct (readLines fuel _ br') as [rs e] eqn:Hr. intros [= <- ->]. constructor. intros [|]; [reflexivity|by apply IH].
  - done.
  - destruct (readLines fuel _ br') as [rs e] eqn:Hr. intros [= <- ->]. constructor. intros [|]; [reflexivity|].
    apply andThen_progEq. intros r'. by apply IH.
Qed.

(** ** A call alone *)

(** The chunk filed under [ck] is completed. *)
Definition completed (ck : string) (td : tenantData) : Prop :=
  ∃ ch, chunks td !! ck = Some ch ∧ rc_State ch = ChunkCompleted.

#[export] Instance completed_dec ck td : Decision (completed ck td).
Proof.
  refine (match chunks td !! ck as o return chunks td !! ck = o → Decision (completed ck td) with
          | Some ch => λ H, cast_if (decide (rc_State ch = ChunkCompleted))
          | None => λ H, right _
          end eq_refl); unfold completed; naive_solver.
Defined.

Section exact.
Context (i : Ingester) (cid key ck : string) (newID : Z → string) (env : Env) (td0 : tenantData) (V : gset string).
Hypothesis Hcid : cid ≠ "" ∧ noNul cid = true.
Hypothesis Hids : (∀ k, newID k ≠ "") ∧ ∀ j k, newID j = newID k → j = k.
Hypothesis Hopen : e_closed env = false.
Hypothesis Hroom : Z.of_nat (size (recipients cid td0 ∪ V)) < maxRecipients i.

(** The store in the middle of a call that started at [td0] with the
    addresses [V] to add. *)
Record midOk (td : tenantData) : Prop := {
  mo_ok : ingestOk td;
  mo_lo : recipients cid td0 ⊆ recipients cid td;
  mo_hi : recipients cid td ⊆ recipients cid td0 ∪ V;
  mo_rows : deliveries td0 ⊆ deliveries td;
  mo_size : Z.of_nat (size (deliveries td)) - Z.of_nat (size (deliveries td0)) =
            Z.of_nat (size (recipients cid td)) - Z.of_nat (size (recipients cid td0));
  mo_new id d : deliveries td !! id = Some d → deliveries td0 !! id = None →
    d_CampaignID d = cid ∧ d_Status d = DeliveryPending ∧ ∃ k, id = newID k;
  mo_camp : campaigns td = campaigns td0;
}.

Definition passing (td : tenantData) : Prop :=
  midOk td ∧ (completed ck td → key ≠ "" ∧ recipients cid td = recipients cid td0 ∪ V).

(** What the call knows after lines with the addresses [E], [l] of them not
    blank and [b] bad. *)
Record accounted (E : gset string) (l b n : Z) (td : tenantData) (r : ingestRun) : Prop := {
  ac_mid : midOk td;
  ac_open : ¬ completed ck td;
  ac_run : runOk cid newID n td r;
  ac_pending : Forall (λ d, d_Status d = DeliveryPending) (rn_batch r);
  ac_seen : rn_seen r = list_to_set (d_EmailNorm <$> rn_batch r);
  ac_emails : recipients cid td ∪ list_to_set (d_EmailNorm <$> rn_batch r) = recipients cid td0 ∪ E;
  ac_sub : E ⊆ V;
  ac_existing : rn_existing r = Z.of_nat (size (recipients cid td0));
  ac_accepted : rs_Accepted (rn_res r) =
    Z.of_nat (size (recipients cid td)) - Z.of_nat (size (recipients cid td0));
  ac_lines : rs_Accepted (rn_res r) + len (rn_batch r) + rs_Duplicates (rn_res r) + rs_Invalid (rn_res r) = l;
  ac_bad : rs_Invalid (rn_res r) = b;
}.

Lemma accounted_passing E l b n td r : accounted E l b n td r → passing td.
Proof. intros [Hm Ho _ _ _ _ _ _ _ _ _]. by split. Qed.

(** A batch of pending rows of the campaign moves the store on. *)
Lemma midOk_batch ds k td td' :
  midOk td → ingestOk td' → batchEffect cid ds k td td' →
  Forall (λ d, d_CampaignID d = cid ∧ d_Status d = DeliveryPending) ds →
  (∀ id, id ∈ dom (deliveries td') → id ∈ dom (deliveries td) ∨ ∃ k, id = newID k) →
  recipients cid td' ⊆ recipients cid td0 ∪ V → midOk td'.
Proof.
  intros [Hok Hlo Hhi Hrows Hsz Hnew Hcp] Hok' [Hrec Hcnt Hw Hz Hn [Hf _]] Hds Hdom Hhi'. split; [done| |done| | | |].
  - rewrite Hrec. set_solver.
  - by etrans.
  - lia.
  - intros id d Hd Hnone. destruct (deliveries td !! id) as [x|] eqn:Hx.
    + rewrite (lookup_weaken _ _ _ _ Hx Hw) in Hd. injection Hd as ->. by apply Hnew.
    + destruct (Hn id d Hd Hx) as (y&e&j&Hy&->). rewrite Forall_forall in Hds. destruct (Hds y Hy) as [Hyc Hys].
      destruct (insertedRow_fields e j y) as (_&_&->&_). rewrite insertedRow_Status. split_and!; [done|done|].
      destruct (Hdom id) as [Hin|Hin]; [by eapply elem_of_dom_2| |done]. apply elem_of_dom in Hin as [? ?]. congruence.
  - by rewrite Hf.
Qed.

Lemma flush_runs E l b n td r :
  accounted E l b n td r →
  runs passing env (flushBatch r)
    (λ x td', ∃ r', x = inr (r', None) ∧ accounted E l b n td' r' ∧ rn_batch r' = []) td.
Proof.
  intros Hac. pose proof (accounted_passing _ _ _ _ _ _ Hac) as Hp. unfold flushBatch.
  destruct (len (rn_batch r) =? 0) eqn:Elen; to_prop.
  { apply runs_done; [done|]. exists r. split_and!; [done|done|]. by apply len_nil_inv. }
  destruct Hac as [Hm Ho Hro Hpd Hsn Hem Hsub Hex Hacc Hl Hb]. destruct Hcid as [Hc1 Hc2].
  pose proof (runOk_good cid newID Hids _ _ _ Hro) as Hgb.
  destruct (InsertBatch_effect env (rn_batch r) td cid (mo_ok _ Hm) Hc1 Hc2 Hgb)
    as [[_ Hcl]|(_&k&td'&Heq&Hok'&He&Hdom)]; [congruence|].
  assert (midOk td') as Hm'.
  { eapply (midOk_batch (rn_batch r) k td); [done..| | |].
    - destruct Hgb as [Hgc _]. rewrite Forall_forall in *. intros d Hd. split; [by apply Hgc|by apply Hpd].
    - intros id Hin%Hdom. apply elem_of_union in Hin as [Hin|Hin]; [|by left]. right.
      apply elem_of_list_to_set, list_elem_of_fmap in Hin as (d&->&Hd). destruct Hro as [Hrb _ _ _].
      rewrite Forall_forall in Hrb. destruct (Hrb d Hd) as (_&_&j&_&Hj). eauto.
    - rewrite (be_recipients _ _ _ _ _ He), Hem. set_solver. }
  assert (¬ completed ck td') as Ho' by (unfold completed in *; by rewrite (proj2 (be_frame _ _ _ _ _ He))).
  apply runs_handle, runs_call; rewrite ?Heq; cbn [fst snd]; [done|by split|].
  apply runs_done; [by split|]. eexists. split_and!; [done| |done].
  pose proof (be_count _ _ _ _ _ He) as Hcnt. pose proof (be_recipients _ _ _ _ _ He) as Hrec.
  split; cbn [rn_batch rn_seen rn_existing rn_res]; try done.
  - by eapply (runOk_flushed cid newID Hids n td td' r).
  - rewrite Hrec, Hem. set_solver.
  - unfold upd. cbn. lia.
  - unfold upd, len in *. cbn. lia.
Qed.

(** Below the limit there is always room. *)
Lemma accounted_taken E l b n td r : accounted E l b n td r → taken r < maxRecipients i.
Proof.
  intros [Hm _ _ _ _ _ _ Hex Hacc _ _]. unfold taken. rewrite Hex, Hacc.
  pose proof (subseteq_size _ _ (mo_hi _ Hm)). lia.
Qed.

Lemma runs_andThen p k Q td :
  runs passing env p (λ x td', ∃ r, x = inr (r, None) ∧ runs passing env (k r) Q td') td →
  runs passing env (andThen p k) Q td.
Proof.
  intros Hp. apply runs_pbind. eapply runs_mono; [|exact Hp]. cbv beta. by intros x td' (r&->&Hr).
Qed.

Lemma makeRoom_runs E l b n td r :
  accounted E l b n td r →
  runs passing env (makeRoom i r) (λ x td', ∃ r', x = inr (r', None) ∧ accounted E l b n td' r') td.
Proof.
  intros Hac. unfold makeRoom. pose proof (accounted_passing _ _ _ _ _ _ Hac).
  destruct (maxRecipients i <=? _); [|apply runs_done; [done|by exists r]].
  apply runs_andThen. eapply runs_mono; [|by apply flush_runs]. cbv beta. intros x td' (r'&->&Hr'&_).
  exists r'. split; [done|]. pose proof (accounted_taken _ _ _ _ _ _ Hr').
  rewrite (proj2 (Z.leb_gt _ _)) by done. apply runs_done; [by eapply accounted_passing|by exists r'].
Qed.

Lemma addDelivery_runs E l b n td r d :
  accounted E l b n td r → d_EmailNorm d ∈ V →
  d_ID d = newID n → d_CampaignID d = cid → d_EmailNorm d ≠ "" → d_Status d = DeliveryPending →
  runs passing env (addDelivery i d r)
    (λ x td', ∃ r', x = inr (r', None) ∧ accounted (E ∪ {[d_EmailNorm d]}) (l + 1) b (n + 1) td' r') td.
Proof.
  intros [Hm Ho Hro Hpd Hsn Hem Hsub Hex Hacc Hl Hb] HV Hid Hdc Hde Hds. unfold addDelivery.
  set (r' := r <| rn_seen := _ |> <| rn_batch := _ |>).
  assert (accounted (E ∪ {[d_EmailNorm d]}) (l + 1) b (n + 1) td r') as Hr'.
  { split; try done.
    - by apply runOk_add.
    - apply Forall_app. by split; [|apply Forall_singleton].
    - unfold r', upd. cbn. rewrite Hsn, fmap_app, list_to_set_app_L. cbn. set_solver.
    - unfold r', upd. cbn. rewrite fmap_app, list_to_set_app_L, (assoc_L (∪)), Hem. cbn. set_solver.
    - set_solver.
    - unfold r', upd. cbn. rewrite len_app. unfold len in *. cbn. lia. }
  destruct (in_batchSize i <=? _).
  - eapply runs_mono; [|by apply flush_runs]. cbv beta. intros x td' (r0&->&H0&_). by exists r0.
  - apply runs_done; [by eapply accounted_passing|by exists r'].
Qed.

(** A line that adds no address. *)
Lemma accounted_skip E l b dl db n td r r' :
  accounted E l b n td r →
  rn_existing r' = rn_existing r → rn_batch r' = rn_batch r → rn_seen r' = rn_seen r →
  rs_Accepted (rn_res r') = rs_Accepted (rn_res r) →
  rs_Duplicates (rn_res r') + rs_Invalid (rn_res r') = rs_Duplicates (rn_res r) + rs_Invalid (rn_res r) + dl →
  rs_Invalid (rn_res r') = rs_Invalid (rn_res r) + db →
  accounted E (l + dl) (b + db) (n + 1) td r'.
Proof.
  intros [Hm Ho Hro Hpd Hsn Hem Hsub Hex Hacc Hl Hb] He Hba Hse Ha Hd Hi.
  split; rewrite ?Hba, ?Hse, ?He, ?Ha; try done; [|lia..].
  destruct (runOk_mono cid newID n (n + 1) td r ltac:(lia) Hro) as [H1 H2 H3 H4]. by split; rewrite ?Hba.
Qed.

(** An address of the batch is counted already. *)
Lemma accounted_seen E l b n td r e :
  accounted E l b n td r → e ∈ rn_seen r → e ∈ V → accounted (E ∪ {[e]}) l b n td r.
Proof.
  intros [Hm Ho Hro Hpd Hsn Hem Hsub Hex Hacc Hl Hb] He HV. split; try done; [|clear -Hsub HV; set_solver].
  assert (e ∈ recipients cid td0 ∪ E) as Hin by (rewrite <- Hem, <- Hsn; clear -He; set_solver).
  rewrite Hem. clear -Hin. set_solver.
Qed.

Context (camp : Campaign) (at_ : Time).
Hypothesis Hcamp : c_ID camp = cid.

(** What one record adds. *)
Definition recEmails (rec : lineErr + bytes) : gset string := list_to_set (omap (lineEmail i) [rec]).

Lemma lineEmail_parse n line :
  isBlank (inr line) = false →
  lineEmail i (inr line) =
    match parse i camp at_ newID n (TrimSpace (bytesString line)) with (d, None) => Some (d_EmailNorm d) | _ => None end.
Proof.
  intros Hb. unfold lineEmail. rewrite Hb.
  pose proof (parse_norm i camp at_ newID n zero 0 (λ _, "") 0 (TrimSpace (bytesString line))) as [H1 H2].
  destruct (parse i camp _ _ _ _) as [d [e|]], (parse i zero _ _ _ _) as [d' [e'|]]; cbn in *; try done.
  by rewrite H2.
Qed.

Lemma onLine_runs E l b n td r line :
  accounted E l b n td r → recEmails (inr line) ⊆ V →
  runs passing env (onLine i camp at_ newID n line r)
    (λ x td', ∃ r', x = inr (r', None) ∧
       accounted (E ∪ recEmails (inr line)) (l + len (nonBlank [inr line])) (b + len (badLines i [inr line]))
         (n + 1) td' r') td.
Proof.
  intros Hac HV. pose proof (accounted_passing _ _ _ _ _ _ Hac) as Hp. unfold onLine. cbv zeta.
  unfold nonBlank, badLines, recEmails in *. rewrite !filter_cons, !filter_nil.
  destruct (String.length (TrimSpace (bytesString line)) =? 0)%nat eqn:Hbl.
  { assert (isBlank (inr line) = true) as Hb by done. assert (lineEmail i (inr line) = None) as Hle by (unfold lineEmail; by rewrite Hb).
    cbn [omap list_omap]. rewrite Hle, !decide_False by (rewrite Hb; naive_solver). cbn. rewrite (right_id_L ∅ (∪)).
    apply runs_done; [done|]. exists r. split; [done|]. by eapply (accounted_skip E l b 0 0); rewrite ?Z.add_0_r. }
  assert (isBlank (inr line) = false) as Hb by done. pose proof (lineEmail_parse n line Hb) as Hle.
  cbn [omap list_omap] in *. rewrite (decide_True _ _ Hb). rewrite Hle in *.
  destruct (parse _ _ _ _ _ _) as [d [err|]] eqn:Hparse.
  { rewrite decide_True by done. cbn. rewrite (right_id_L ∅ (∪)). apply runs_done; [done|]. eexists. split; [done|].
    destruct (reject_fields i n (d_Email d) err r) as (He&Hba&Hse&Ha&Hd&Hi).
    eapply (accounted_skip E l b 1 1); try done; unfold len; cbn; lia. }
  rewrite decide_False by (intros [_ ?]; done). cbn [omap list_omap list_to_set foldr] in *.
  rewrite (right_id_L ∅ (∪)) in *.
  case_bool_decide as Hin.
  { apply runs_done; [done|]. eexists. split; [done|]. apply (accounted_seen _ _ _ _ _ _ (d_EmailNorm d)) in Hac; [|done|set_solver].
    eapply (accounted_skip _ l b 1 0); try done; unfold len, upd; cbn; lia. }
  apply runs_andThen. eapply runs_mono; [|by apply makeRoom_runs]. cbv beta. intros x td' (r'&->&Hr'). exists r'. split; [done|].
  apply parse_delivery in Hparse as (Hid&Hdc&Hde&Hds&_).
  eapply runs_mono; [|apply (addDelivery_runs E l b n td' r' d)]; [|done|set_solver|done|congruence|done|done].
  cbv beta. intros x td2 (r2&->&H2). exists r2. split; [done|]. unfold len. cbn. by rewrite Z.add_0_r.
Qed.

Lemma validEmails_cons rec recs : validEmails i (rec :: recs) = recEmails rec ∪ validEmails i recs.
Proof.
  unfold validEmails, recEmails. cbn [omap list_omap]. destruct (lineEmail i rec) as [e|]; cbn; [|by rewrite (left_id_L ∅ (∪))].
  by rewrite (right_id_L ∅ (∪)).
Qed.

Lemma filter_len_cons {A} (P : A → Prop) `{∀ x, Decision (P x)} x (l : list A) :
  len (filter P (x :: l)) = len (filter P [x]) + len (filter P l).
Proof. rewrite !filter_cons, filter_nil. unfold len. destruct (decide (P x)); cbn; lia. Qed.

Lemma linesLoop_runs recs E l b n td r :
  accounted E l b n td r → validEmails i recs ⊆ V →
  runs passing env (linesLoop i camp at_ newID recs n r)
    (λ x td', ∃ r' n', x = inr (r', None) ∧ rn_batch r' = [] ∧
       accounted (E ∪ validEmails i recs) (l + len (nonBlank recs)) (b + len (badLines i recs)) n' td' r') td.
Proof.
  revert E l b n td r. induction recs as [|rec recs IH]; intros E l b n td r Hac HV; cbn [linesLoop]; apply runs_poll.
  - eapply runs_mono; [|by apply flush_runs]. cbv beta. intros x td' (r'&->&Hr'&Hb'). exists r', n. split_and!; [done|done|].
    unfold validEmails, nonBlank, badLines. cbn. rewrite (right_id_L ∅ (∪)). unfold len. cbn. by rewrite !Z.add_0_r.
  - rewrite validEmails_cons in *. unfold nonBlank at 1, badLines at 1.
    rewrite (filter_len_cons (λ rec, isBlank rec = false) rec), (filter_len_cons (λ rec, isBlank rec = false ∧ lineEmail i rec = None) rec).
    fold (nonBlank recs) (nonBlank [rec]) (badLines i recs) (badLines i [rec]).
    assert (∀ td r, accounted (E ∪ recEmails rec) (l + len (nonBlank [rec])) (b + len (badLines i [rec])) (n + 1) td r →
      runs passing env (linesLoop i camp at_ newID recs (n + 1) r)
        (λ x td', ∃ r' n', x = inr (r', None) ∧ rn_batch r' = [] ∧
           accounted (E ∪ (recEmails rec ∪ validEmails i recs))
             (l + (len (nonBlank [rec]) + len (nonBlank recs))) (b + (len (badLines i [rec]) + len (badLines i recs)))
             n' td' r') td) as Hnext.
    { intros td1 r1 Hr1. rewrite (assoc_L (∪)), !Z.add_assoc. apply IH; [done|]. clear -HV. set_solver. }
    destruct rec as [e|line].
    + apply Hnext. destruct (reject_fields i n "" errLineTooLong r) as (He&Hba&Hse&Ha&Hd&Hi).
      unfold recEmails. cbn. rewrite (right_id_L ∅ (∪)).
      eapply (accounted_skip E l b 1 1); try done; unfold len; cbn; lia.
    + apply runs_andThen. eapply runs_mono; [|apply (onLine_runs E l b n td r line); [done|clear -HV; set_solver]].
      cbv beta. intros x td' (r'&->&Hr'). exists r'. split; [done|]. by apply Hnext.
Qed.

(** ** The whole call, alone *)

Lemma midOk_frame td td' :
  midOk td → deliveries td' = deliveries td → campaignEmails td' = campaignEmails td →
  campaigns td' = campaigns td → midOk td'.
Proof.
  intros [[Hi Hx Hs Hn] Hlo Hhi Hrows Hsz Hnew Hcp] Hd He Hc.
  split; rewrite ?(recipients_rows cid td td'), ?Hd, ?Hc by done; try done. by split; rewrite ?Hd, ?He.
Qed.

Lemma ChunkPut_spec c td :
  rc_CampaignID c ≠ "" → rc_Key c ≠ "" →
  ∃ c' ch, ChunkPut env c td =
      (inr c', td <| chunks := <[chunkKey (rc_CampaignID c) (rc_Key c) := ch]> (chunks td) |>) ∧
    rc_State ch = rc_State c ∧ rc_Accepted ch = rc_Accepted c ∧ rc_Duplicates ch = rc_Duplicates c ∧
    rc_Invalid ch = rc_Invalid c.
Proof.
  intros Hc Hk. unfold ChunkPut, strEq, checked. rewrite !bool_decide_eq_false_2 by done. cbn [orb]. rewrite Hopen.
  eexists _, _. split; [reflexivity|]. cbn. destruct (chunks td !! _); cbn; [done|]. by destruct (IsZero _).
Qed.

Hypothesis Hok0 : ingestOk td0.
Hypothesis Hcount0 : Z.of_nat (size (deliveries td0)) + Z.of_nat (size V) ≤ maxInt64.
Hypothesis Hfresh0 : ∀ k, newID k ∉ dom (deliveries td0).

Lemma midOk_start : midOk td0.
Proof. split; [done|done|set_solver|done|lia|intros; congruence|done]. Qed.

Lemma midOk_countable td : midOk td → countable td.
Proof using Hcount0.
  intros [_ Hlo Hhi _ Hsz _ _]. clear - Hcount0 Hlo Hhi Hsz. unfold countable. pose proof (subseteq_size _ _ Hhi) as H1.
  rewrite size_union_alt in H1.
  pose proof (subseteq_size (V ∖ recipients cid td0) V ltac:(set_solver)). lia.
Qed.

Lemma count_runs td :
  passing td →
  runs passing env (count cid) (λ x td', td' = td ∧ x = inr (Z.of_nat (size (recipients cid td)))) td.
Proof.
  intros Hp. unfold count. pose proof (midOk_countable _ (proj1 Hp)) as Hcn.
  destruct (CountByStatus_total env cid td (mo_ok _ (proj1 Hp)) (proj1 Hcid) Hcn Hopen) as (m&Hm&Hs).
  apply runs_pbind, runs_call; rewrite ?Hm; cbn [fst snd]; [done|done|]. apply runs_done; [done|]. by rewrite Hs.
Qed.
Hypothesis Hck : ck = chunkKey cid key.

Lemma openChunk_runs existing :
  ¬ completed ck td0 →
  runs passing env (openChunk cid key existing) (λ x td', x = inr None ∧ midOk td' ∧ ¬ completed ck td' ∧
    deliveries td' = deliveries td0) td0.
Proof.
  intros Ho. assert (passing td0) as Hp by (split; [apply midOk_start|done]). unfold openChunk.
  destruct (strEq key "") eqn:Hkey; to_prop; [apply runs_done; [done|split_and!; [done|by apply midOk_start|done|done]]|].
  assert (Hput : runs passing env
    (let? _ := call (λ env, ChunkPut env (chunkOf cid key ChunkPending zero)) in @pret tenantData (option Result) None)
    (λ x td', x = inr None ∧ midOk td' ∧ ¬ completed ck td' ∧ deliveries td' = deliveries td0) td0).
  { destruct (ChunkPut_spec (chunkOf cid key ChunkPending zero) td0) as (c'&ch&Heq&Hst&_); [apply Hcid|done|].
    set (td1 := td0 <| chunks := _ |>) in Heq.
    assert (midOk td1) as Hm by (by apply (midOk_frame td0); [apply midOk_start|..]).
    assert (¬ completed ck td1) as Ho1.
    { intros (x&Hx&Hxs). rewrite Hck in Hx. unfold td1, upd in Hx. cbn [chunks] in Hx. cbn in Hx. rewrite lookup_insert_eq in Hx.
      injection Hx as <-. rewrite Hst in Hxs. done. }
    apply runs_pbind, runs_call; rewrite ?Heq; cbn [fst snd]; [done|by split|].
    apply runs_done; [by split|]. by split_and!. }
  apply runs_handle, runs_call; rewrite ?ChunkGet_reads; [done..|].
  unfold ChunkGet, checked. rewrite Hopen. destruct (chunks td0 !! chunkKey cid key) as [prev|] eqn:Hprev; cbn [fst].
  - unfold strEq. rewrite bool_decide_eq_false_2; [done|]. intros Hs. apply Ho. exists prev. by rewrite Hck.
  - done.
Qed.

(** The chunk's record holds the counts. *)
Definition recorded (res : Result) (td : tenantData) : Prop :=
  ∃ ch, chunks td !! ck = Some ch ∧ rc_State ch = ChunkCompleted ∧ rc_Accepted ch = rs_Accepted res ∧
    rc_Duplicates ch = rs_Duplicates res ∧ rc_Invalid ch = rs_Invalid res.

Lemma finish_runs res td :
  midOk td → ¬ completed ck td → recipients cid td = recipients cid td0 ∪ V →
  runs passing env (finish cid key res None)
    (λ x td', x = inr (res <| rs_Total := Z.of_nat (size (recipients cid td)) |>, None) ∧ midOk td' ∧
       deliveries td' = deliveries td ∧ (key ≠ "" → recorded res td')) td.
Proof.
  intros Hm Hno Hr. assert (passing td) as Hp by done. unfold finish. apply runs_handle.
  eapply runs_mono; [|by apply count_runs]. cbv beta. intros x td1 [-> ->]. unfold closeChunk.
  destruct (strEq key "") eqn:Hkey; to_prop; [by apply runs_done|].
  set (res' := res <| rs_Total := _ |>).
  destruct (ChunkPut_spec (chunkOf cid key ChunkCompleted res') td) as (c'&ch&Heq&Hch); [apply Hcid|done|].
  set (td1 := td <| chunks := _ |>) in Heq.
  assert (midOk td1) as Hm1 by by apply (midOk_frame td).
  assert (passing td1) as Hp1 by (split; [done|]; intros _; split; [done|]; by rewrite (recipients_rows cid td)).
  apply runs_handle, runs_call; rewrite ?Heq; cbn [fst snd]; [done|done|].
  apply runs_done; [done|]. split_and!; [done|done|done|]. intros _. exists ch. rewrite Hck. split; [|exact Hch].
  unfold td1, upd. cbn. apply lookup_insert_eq.
Qed.

(** What a complete call leaves and returns. *)
Record ingested (recs : list (lineErr + bytes)) (res : Result) (td : tenantData) : Prop := {
  ig_mid : midOk td;
  ig_recipients : recipients cid td = recipients cid td0 ∪ V;
  ig_accepted : rs_Accepted res = Z.of_nat (size (recipients cid td)) - Z.of_nat (size (recipients cid td0));
  ig_total : rs_Total res = Z.of_nat (size (recipients cid td));
  ig_invalid : rs_Invalid res = len (badLines i recs);
  ig_lines : rs_Accepted res + rs_Duplicates res + rs_Invalid res = len (nonBlank recs);
  ig_recorded : key ≠ "" → recorded res td;
}.

Lemma Ingest_runs clock reads eager :
  let recs := bodyRecords readBufferBytes (MaxRecipientLineBytes (in_limits i)) eager (concat reads) in
  TruncateTime clock = at_ →
  campaigns td0 !! cid = Some camp → c_Status camp = CampaignDraft ∨ c_Status camp = CampaignScheduled →
  ¬ completed ck td0 → V = validEmails i recs →
  0 ≤ MaxRecipientLineBytes (in_limits i) → Forall (λ x, x ≠ []) reads →
  runs passing env (Ingest i clock newID cid key (mkSource reads EOF eager))
    (λ x td', ∃ res, x = inr (res, None) ∧ ingested recs res td') td0.
Proof.
  intros recs Hclock Hcmp Hst Ho HV Hmax Hreads. assert (passing td0) as Hp by (split; [apply midOk_start|done]).
  unfold Ingest. apply runs_pbind, runs_call; rewrite ?GetCampaign_reads; [done..|].
  rewrite GetCampaign_run, Hopen, Hcmp. cbn [fst].
  replace (negb _) with false by (destruct Hst as [->| ->]; reflexivity).
  apply runs_pbind. eapply runs_mono; [|by apply count_runs]. cbv beta. intros x td1 [-> ->].
  apply runs_pbind. eapply runs_mono; [|by apply openChunk_runs]. cbv beta. intros x td1 (->&Hm1&Ho1&Hd1).
  apply runs_pbind. unfold stream. cbn [rn_existing].
  pose proof (recipients_rows cid _ _ Hd1) as Hr1.
  rewrite (proj2 (Z.leb_gt _ _)) by (pose proof (subseteq_size (recipients cid td0) (recipients cid td0 ∪ V) ltac:(set_solver)); lia).
  set (br := NewReaderSize (mkSource reads EOF eager) readBufferBytes).
  assert (readLines (S (length (unread br))) (MaxRecipientLineBytes (in_limits i)) br = (recs, LineEOF)) as Hlines.
  { apply (readLines_spec _ _ br); [done|by apply NewReaderSize_ok|lia]. }
  eapply runs_progEq; [by eapply streamLoop_lines|].
  set (r0 := mkRun _ [] ∅ zero).
  assert (accounted ∅ 0 0 1 td1 r0) as Hac.
  { split; cbn; try done.
    - split; cbn; [constructor|constructor|constructor|]. intros k _. rewrite Hd1. apply Hfresh0.
    - by rewrite Hr1.
    - rewrite Hr1. lia. }
  rewrite Hclock. eapply runs_mono; [|apply (linesLoop_runs recs ∅ 0 0 1 td1 r0 Hac); by rewrite HV].
  cbv beta. intros x td2 (r2&n2&->&Hb2&[Hm2 Ho2 _ _ _ Hem2 _ _ Hacc2 Hl2 Hbad2]). cbn [fst snd].
  rewrite Hb2 in *. cbn in Hem2. rewrite (right_id_L ∅ (∪)), (left_id_L ∅ (∪)), <- HV in Hem2.
  eapply runs_mono; [|by apply finish_runs]. cbv beta. intros x td3 (->&Hm3&Hd3&Hrec3).
  pose proof (recipients_rows cid _ _ Hd3) as Hr3. eexists. split; [done|].
  change (len (@nil Delivery)) with 0 in Hl2. split.
  - exact Hm3.
  - by rewrite Hr3.
  - rewrite Hr3. exact Hacc2.
  - by rewrite Hr3.
  - change (rs_Invalid (rn_res r2) = len (badLines i recs)). lia.
  - change (rs_Accepted (rn_res r2) + rs_Duplicates (rn_res r2) + rs_Invalid (rn_res r2) = len (nonBlank recs)). lia.
  - exact Hrec3.
Qed.
End exact.

(** ** Theorems *)

(** A call can go through: the store is open and in order, the campaign takes
    recipients and has room for the addresses [V], the chunk is not completed,
    and the call's IDs are new. *)
Record ready (i : Ingester) (cid key : string) (newID : Z → string) (env : Env) (V : gset string)
    (td : tenantData) : Prop := {
  rd_cid : cid ≠ "" ∧ noNul cid = true;
  rd_ids : (∀ k, newID k ≠ "") ∧ ∀ j k, newID j = newID k → j = k;
  rd_fresh k : newID k ∉ dom (deliveries td);
  rd_open : e_closed env = false;
  rd_ok : ingestOk td;
  rd_camp : ∃ c, campaigns td !! cid = Some c ∧ c_ID c = cid ∧
              (c_Status c = CampaignDraft ∨ c_Status c = CampaignScheduled);
  rd_chunk : ¬ completed (chunkKey cid key) td;
  rd_room : Z.of_nat (size (recipients cid td ∪ V)) < maxRecipients i;
  rd_count : Z.of_nat (size (deliveries td)) + 2 * Z.of_nat (size V) ≤ maxInt64;
  rd_line : 0 ≤ MaxRecipientLineBytes (in_limits i);
}.

Definition bodyOf (i : Ingester) (reads : list bytes) (eager : bool) : list (lineErr + bytes) :=
  bodyRecords readBufferBytes (MaxRecipientLineBytes (in_limits i)) eager (concat reads).

Lemma ready_runs i cid key newID env V td clock reads eager :
  ready i cid key newID env V td → V = validEmails i (bodyOf i reads eager) → Forall (λ x, x ≠ []) reads →
  runs (passing cid key (chunkKey cid key) newID td V) env (Ingest i clock newID cid key (mkSource reads EOF eager))
    (λ x td', ∃ res, x = inr (res, None) ∧
       ingested i cid key (chunkKey cid key) newID td V (bodyOf i reads eager) res td') td.
Proof.
  intros [Hc Hid Hf Ho Hok (c&Hcm&Hcc&Hst) Hch Hrm Hct Hl] HV Hr.
  eapply (Ingest_runs i cid key (chunkKey cid key) newID env td V Hc Hid Ho Hrm c (TruncateTime clock)); try done. lia.
Qed.

(** C20 (functional): what a call does.  Run alone on a campaign that takes
    recipients and has room, [Ingest] returns without error, however the body
    is cut into reads and whatever its lines are; afterwards the campaign's
    recipients are the former ones and the addresses of the body's valid
    lines, each with one row; rows that were there are untouched and every new
    one is a pending delivery of the campaign.  Accepted counts the new
    recipients, Invalid the lines that are refused, Total the recipients, and
    every line that is not blank is counted once as accepted, duplicate or
    invalid. *)
Theorem ingest_exact i cid key newID env td clock reads eager :
  ready i cid key newID env (validEmails i (bodyOf i reads eager)) td → Forall (λ x, x ≠ []) reads →
  ∃ res td',
    run env (Ingest i clock newID cid key (mkSource reads EOF eager)) td = (inr (res, None), td') ∧
    recipients cid td' = recipients cid td ∪ validEmails i (bodyOf i reads eager) ∧
    len (rowsOf cid td') = Z.of_nat (size (recipients cid td')) ∧
    deliveries td ⊆ deliveries td' ∧
    (∀ id d, deliveries td' !! id = Some d → deliveries td !! id = None →
       d_CampaignID d = cid ∧ d_Status d = DeliveryPending) ∧
    rs_Accepted res = Z.of_nat (size (recipients cid td')) - Z.of_nat (size (recipients cid td)) ∧
    rs_Invalid res = len (badLines i (bodyOf i reads eager)) ∧
    rs_Total res = Z.of_nat (size (recipients cid td')) ∧
    rs_Accepted res + rs_Duplicates res + rs_Invalid res = len (nonBlank (bodyOf i reads eager)).
Proof.
  intros Hrd Hr. destruct (ready_runs _ _ _ _ _ _ _ clock _ _ Hrd eq_refl Hr) as [_ (res&Hx&Hing)].
  destruct (run env _ td) as [x td']. cbn [fst snd] in *. subst x. exists res, td'. split; [done|].
  destruct Hing as [Hm Hrec Hacc Htot Hinv Hlin _].
  split_and!; [done|apply rowsOf_size; [apply Hm|apply Hrd]|apply Hm| |done|done|done|done].
  intros id d Hd Hn. destruct (mo_new _ _ _ _ _ Hm id d Hd Hn) as (?&?&_). done.
Qed.

(** A completed chunk is answered from its record. *)
Lemma Ingest_replay i cid key newID env td clock src c ch :
  e_closed env = false → ingestOk td → cid ≠ "" → key ≠ "" → countable td →
  campaigns td !! cid = Some c → c_Status c = CampaignDraft ∨ c_Status c = CampaignScheduled →
  chunks td !! chunkKey cid key = Some ch → rc_State ch = ChunkCompleted →
  run env (Ingest i clock newID cid key src) td =
    (inr (mkResult (rc_Accepted ch) (rc_Duplicates ch) (rc_Invalid ch) (Z.of_nat (size (recipients cid td))) [], None), td).
Proof.
  intros Ho Hok Hc Hk Hct Hcm Hst Hch Hs. unfold Ingest. rewrite run_pbind, run_call, GetCampaign_run, Ho, Hcm.
  replace (negb _) with false by (destruct Hst as [->| ->]; reflexivity).
  destruct (CountByStatus_total env cid td Hok Hc Hct Ho) as (m&Hm&Hsum).
  rewrite run_pbind. unfold count. rewrite run_pbind, run_call, Hm. cbv beta iota. cbn [run pret].
  rewrite run_pbind. unfold openChunk, strEq. rewrite bool_decide_eq_false_2 by done. rewrite run_handle, run_call.
  unfold ChunkGet, checked. rewrite Ho, Hch. cbv beta iota zeta. rewrite Hs, bool_decide_eq_true_2 by done.
  cbn [run pret]. by rewrite Hsum.
Qed.

(** The store a call was stopped in takes the call again. *)
Lemma midOk_again i cid key newID newID2 env2 V td td1 clock2 reads2 eager :
  ready i cid key newID env2 V td → midOk cid newID td V td1 → ¬ completed (chunkKey cid key) td1 →
  V = validEmails i (bodyOf i reads2 eager) → Forall (λ x, x ≠ []) reads2 →
  (∀ k, newID2 k ≠ "" ∧ newID2 k ∉ dom (deliveries td1)) → (∀ j k, newID2 j = newID2 k → j = k) →
  ∃ res2 td2,
    run env2 (Ingest i clock2 newID2 cid key (mkSource reads2 EOF eager)) td1 = (inr (res2, None), td2) ∧
    midOk cid newID2 td1 V td2 ∧ recipients cid td2 = recipients cid td ∪ V.
Proof.
  intros [Hc Hid Hf Ho Hok (c&Hcm&Hcc&Hst) Hch Hrm Hct Hl] Hm Hno HV Hr2 Hf2 Hinj2.
  assert (recipients cid td1 ∪ V = recipients cid td ∪ V) as Hsame.
  { pose proof (mo_lo _ _ _ _ _ Hm) as H1. pose proof (mo_hi _ _ _ _ _ Hm) as H2. clear -H1 H2. set_solver. }
  assert (Z.of_nat (size (deliveries td1)) + Z.of_nat (size V) ≤ maxInt64) as Hct1.
  { pose proof (mo_size _ _ _ _ _ Hm) as Hs. pose proof (subseteq_size _ _ (mo_hi _ _ _ _ _ Hm)) as H1.
    rewrite size_union_alt in H1. pose proof (subseteq_size (V ∖ recipients cid td) V ltac:(set_solver)). lia. }
  rewrite <- Hsame in Hrm.
  destruct (Ingest_runs i cid key (chunkKey cid key) newID2 env2 td1 V Hc ltac:(split; [apply Hf2|done]) Ho Hrm c
    (TruncateTime clock2) Hcc (mo_ok _ _ _ _ _ Hm) Hct1 ltac:(apply Hf2) eq_refl clock2 reads2 eager eq_refl)
    as [_ (res2&Hx&Hing)]; [by rewrite (mo_camp _ _ _ _ _ Hm)|done..|].
  destruct (run env2 _ td1) as [x td2]. cbn [fst snd] in *. subst x. exists res2, td2. split; [done|].
  split; [apply Hing|]. rewrite (ig_recipients _ _ _ _ _ _ _ _ _ _ Hing). done.
Qed.

Lemma ready_env i cid key newID env env2 V td :
  ready i cid key newID env V td → e_closed env2 = false → ready i cid key newID env2 V td.
Proof. by intros [] ?; split. Qed.

(** C21 (functional): a failed call is repaired by repeating it.  Let a call be
    stopped after any number [n] of its store calls.  Repeating it with the
    same body, cut in any other way, succeeds, and the campaign then has
    exactly the recipients one undisturbed call would have given it, still one
    row each.  If the first call ran to its end under an idempotency key, the
    second writes nothing and returns the first one's counts, whatever body
    comes with it. *)
Theorem ingest_resume i cid key newID newID2 env env2 td clock clock2 reads reads2 eager n :
  let V := validEmails i (bodyOf i reads eager) in
  let first := Ingest i clock newID cid key (mkSource reads EOF eager) in
  let td1 := runFor n env first td in
  ready i cid key newID env V td → Forall (λ x, x ≠ []) reads →
  concat reads2 = concat reads → Forall (λ x, x ≠ []) reads2 →
  e_closed env2 = false → (∀ k, newID2 k ≠ "" ∧ newID2 k ∉ dom (deliveries td1)) →
  (∀ j k, newID2 j = newID2 k → j = k) →
  (∃ res2 td2,
     run env2 (Ingest i clock2 newID2 cid key (mkSource reads2 EOF eager)) td1 = (inr (res2, None), td2) ∧
     recipients cid td2 = recipients cid td ∪ V ∧ deliveries td ⊆ deliveries td2 ∧
     len (rowsOf cid td2) = Z.of_nat (size (recipients cid td2))) ∧
  (key ≠ "" → ∀ src2 res td', run env first td = (inr (res, None), td') →
     run env2 (Ingest i clock2 newID2 cid key src2) td' = (inr (res <| rs_Errors := [] |>, None), td')).
Proof.
  intros V first td1 Hrd Hr Hsame Hr2 Ho2 Hf2 Hinj2.
  destruct (ready_runs _ _ _ _ _ _ _ clock _ _ Hrd eq_refl Hr) as [Hpass (res&Hx&Hing)]. fold first in Hpass, Hx, Hing.
  destruct (Hpass n) as [Hm Hdone]. fold td1 in Hm, Hdone.
  pose proof (rd_camp _ _ _ _ _ _ _ Hrd) as (c&Hcm&Hcc&Hst). pose proof (rd_cid _ _ _ _ _ _ _ Hrd) as [Hc _].
  assert (Z.of_nat (size (deliveries td)) + Z.of_nat (size V) ≤ maxInt64) as Hct
    by (pose proof (rd_count _ _ _ _ _ _ _ Hrd); lia).
  split.
  - destruct (completed_dec (chunkKey cid key) td1) as [Hcp|Hno].
    + destruct (Hdone Hcp) as [Hk Hrec]. destruct Hcp as (ch&Hch&Hs). eexists _, td1. split.
      { eapply Ingest_replay; try done; [apply Hm|by eapply (midOk_countable cid newID td V)|by rewrite (mo_camp _ _ _ _ _ Hm)]. }
      split_and!; [done|apply Hm|]. apply rowsOf_size; [apply Hm|done].
    + destruct (midOk_again i cid key newID newID2 env2 V td td1 clock2 reads2 eager) as (res2&td2&Hrun&Hm2&Hrec);
        [by eapply ready_env|done|done|unfold bodyOf; by rewrite Hsame|done..|].
      exists res2, td2. split_and!; [done|done| |apply rowsOf_size; [apply Hm2|done]].
      etrans; [apply Hm|apply Hm2].
  - intros Hk src2 res' td' Hrun. rewrite Hrun in Hx, Hing. cbn [fst snd] in Hx, Hing. injection Hx as ->.
    destruct Hing as [Hm' _ _ Htot _ _ Hrecd]. destruct (Hrecd Hk) as (ch&Hch&Hs&Ha&Hd&Hi).
    erewrite Ingest_replay; try done;
      [|apply Hm'|by eapply (midOk_countable cid newID td V)|by rewrite (mo_camp _ _ _ _ _ Hm')].
    rewrite Ha, Hd, Hi, <- Htot. done.
Qed.

(** ** Concrete calls *)

(** A body of one address per line. *)
Definition sampleLib : ingestLib := {|
  il_line s := if hasByte (toByte 64) s then Some (mkWireLine s "" "" "" "") else None;
  il_vars _ := None;
  il_url _ := None;
  il_lower s := s;
  il_parseAddress s := Some s;
  il_toASCII s := Some s;
|}.

Definition sampleIngester : Ingester :=
  NewIngester sampleLib (mkLimits 4 0 0 0) [WithBatchSize 2].

Definition sampleBody : list bytes :=
  String.list_ascii_of_string <$>
    ["a@x" +:+ String LF "b@"; "x" +:+ String LF (String LF "oops"); String LF "a@x"].

Definition lineID (k : Z) : string := "r" +:+ pretty k.

Definition draftStore : tenantData :=
  Eval vm_compute in (InsertBatch sampleEnv [deliveryIn DeliveryPending]
    (newTenantData <| campaigns := {["c1" := draftCampaign]} |> <| senders := {["s1" := zero <| s_ID := "s1" |>]} |>)).2.

(** The invariant of a given store, by computation. *)
Definition storeOkb (cid : string) (td : tenantData) : bool :=
  bool_decide (map_Forall (λ id d, d_ID d = id ∧ noNul (d_CampaignID d) = true ∧
    (d_CampaignID d = "" ∨ campaignEmails td !! emailKey (d_CampaignID d) (d_EmailNorm d) = Some id)) (deliveries td)) &&
  bool_decide (map_Forall (λ k id,
    (λ d, emailKey (d_CampaignID d) (d_EmailNorm d)) <$> deliveries td !! id = Some k) (campaignEmails td)) &&
  (Z.of_nat (size (deliveries td)) <=? maxInt64) &&
  match campaigns td !! cid with Some c => strEq (c_ID c) cid | None => true end.

Lemma storeOkb_sound cid td : storeOkb cid td = true → storeOk cid td.
Proof.
  unfold storeOkb. intros [[[Hr Hx]%andb_true_iff Hc]%andb_true_iff Hcm]%andb_true_iff.
  apply bool_decide_eq_true in Hr, Hx. apply Z.leb_le in Hc. split; [|done|].
  - split.
    + intros id d Hd. by destruct (Hr id d Hd) as (?&?&?).
    + intros id d Hd Hne. by destruct (Hr id d Hd) as (?&?&[?|?]).
    + intros k id Hk. specialize (Hx k id Hk). cbn in Hx. apply fmap_Some in Hx as (d&Hd&->). eauto.
    + intros id d Hd. by destruct (Hr id d Hd) as (?&?&?).
  - intros c Hcc. rewrite Hcc in Hcm. by to_prop.
Qed.

Lemma lineID_inj j k : lineID j = lineID k → j = k.
Proof. unfold lineID. intros H. injection H as H. by apply (inj pretty). Qed.

Example sample_call :
  (run sampleEnv (Ingest sampleIngester Second lineID "c1" "k" (mkSource sampleBody EOF false)) draftStore).1 =
    inr (mkResult 2 1 1 3 [mkLineError 4 "" ErrBadJSON], None).
Proof. vm_compute. reflexivity. Qed.

Lemma lineID_fresh k : lineID k ≠ "" ∧ lineID k ∉ dom (deliveries draftStore).
Proof.
  split; [done|]. replace (dom (deliveries draftStore)) with ({["d1"]} : gset string) by by_decide.
  rewrite elem_of_singleton. done.
Qed.

Abbreviation sampleEmails := (validEmails sampleIngester (bodyOf sampleIngester sampleBody false)).

Lemma sample_ready key : ready sampleIngester "c1" key lineID sampleEnv sampleEmails draftStore.
Proof.
  split.
  - done.
  - split; [intros k; apply lineID_fresh|apply lineID_inj].
  - intros k. apply lineID_fresh.
  - done.
  - apply (so_ok "c1"), storeOkb_sound. vm_compute. reflexivity.
  - exists draftCampaign. split; [vm_compute; reflexivity|]. split; [done|by left].
  - intros (ch&Hch&_). change (chunks draftStore) with (∅ : gmap string RecipientChunk) in Hch.
    by rewrite lookup_empty in Hch.
  - vm_compute. reflexivity.
  - vm_compute. discriminate.
  - vm_compute. discriminate.
Qed.

Lemma ingest_exact_witness :
  ∃ res td',
    run sampleEnv (Ingest sampleIngester Second lineID "c1" "k" (mkSource sampleBody EOF false)) draftStore =
      (inr (res, None), td') ∧
    recipients "c1" td' = {["a@example.com"; "a@x"; "b@x"]} ∧ rs_Invalid res = 1 ∧
    rs_Accepted res + rs_Duplicates res + rs_Invalid res = 4.
Proof.
  destruct (ingest_exact sampleIngester "c1" "k" lineID sampleEnv draftStore Second sampleBody false)
    as (res&td'&Hrun&Hrec&_&_&_&_&Hinv&_&Hsum); [apply sample_ready|by repeat constructor|].
  exists res, td'. split; [exact Hrun|]. split_and!.
  - rewrite Hrec. by_decide.
  - rewrite Hinv. vm_compute. reflexivity.
  - rewrite Hsum. vm_compute. reflexivity.
Defined.

Definition lineID2 (k : Z) : string := "s" +:+ pretty k.

(** The same body in two reads. *)
Definition sampleBody2 : list bytes := [take 5 (concat sampleBody); drop 5 (concat sampleBody)].

(** The call stopped after its first batch, and repeated. *)
Lemma ingest_resume_witness :
  let first := Ingest sampleIngester Second lineID "c1" "k" (mkSource sampleBody EOF false) in
  let td1 := runFor 5 sampleEnv first draftStore in
  size (recipients "c1" td1) = 3%nat ∧
  ∃ res2 td2,
    run sampleEnv (Ingest sampleIngester Minute lineID2 "c1" "k" (mkSource sampleBody2 EOF false)) td1 =
      (inr (res2, None), td2) ∧
    recipients "c1" td2 = recipients "c1" draftStore ∪ sampleEmails ∧ len (rowsOf "c1" td2) = 3.
Proof.
  intros first td1. split; [vm_compute; reflexivity|].
  destruct (ingest_resume sampleIngester "c1" "k" lineID lineID2 sampleEnv sampleEnv draftStore Second Minute
    sampleBody sampleBody2 false 5) as [(res2&td2&Hrun&Hrec&_&Hrows) _].
  - apply sample_ready.
  - by repeat constructor.
  - vm_compute. reflexivity.
  - by repeat constructor.
  - reflexivity.
  - intros k. split; [done|].
    replace (dom _) with ({["d1"; "r1"; "r2"]} : gset string) by by_decide.
    rewrite !elem_of_union, !elem_of_singleton. unfold lineID2. by intros [[]|].
  - intros j k H. injection H as H. by apply (inj pretty).
  - exists res2, td2. split; [exact Hrun|]. split; [exact Hrec|]. rewrite Hrows, Hrec. vm_compute. reflexivity.
Defined.

Lemma ingest_limit_witness :
  ∃ tr res td',
    exec (elsewhere "c1" lineID)
      (Ingest sampleIngester Second lineID "c1" "k" (mkSource sampleBody EOF false)) draftStore tr res td' ∧
    length tr = 8%nat ∧
    Forall (λ s, deliveries s.1 ⊆ deliveries s.2 ∧
      (Z.of_nat (size (recipients "c1" s.1)) ≤ MaxRecipientsPerCampaign (in_limits sampleIngester) →
       Z.of_nat (size (recipients "c1" s.2)) ≤ MaxRecipientsPerCampaign (in_limits sampleIngester))) tr.
Proof.
  set (p := Ingest sampleIngester Second lineID "c1" "k" (mkSource sampleBody EOF false)).
  assert (Hok : forallb (λ s, storeOkb "c1" s.1) (steps sampleEnv p draftStore) = true) by (vm_compute; reflexivity).
  assert (Hex : exec (elsewhere "c1" lineID) p draftStore (steps sampleEnv p draftStore)
    (run sampleEnv p draftStore).1 (run sampleEnv p draftStore).2).
  { apply steps_exec_idle, Forall_forall. intros s Hs. rewrite forallb_forall in Hok.
    split; [by apply storeOkb_sound, Hok, list_elem_of_In|]. by split. }
  exists (steps sampleEnv p draftStore), (run sampleEnv p draftStore).1, (run sampleEnv p draftStore).2.
  split; [exact Hex|]. split; [vm_compute; reflexivity|].
  apply (ingest_limit sampleIngester Second lineID "c1" "k" (mkSource sampleBody EOF false) draftStore
    (steps sampleEnv p draftStore) _ _ ltac:(done) eq_refl lineID_fresh lineID_inj Hex).
Defined.

(** ** A campaign that finishes while its recipients still arrive *)

(** The campaign is started, its one delivery is sent, and the finalizer
    completes it. *)
Definition startAndFinish (td : tenantData) : tenantData :=
  let td := (run sampleEnv (StartCampaign sampleMarshal Second "c1" 0) td).2 in
  let td := runOp sampleEnv (QClaim sampleClaim) td in
  let td := runOp sampleEnv (QMarkSent "d1" "w1" "<m@x>" (7 * Second)) td in
  let td := runOp sampleEnv (QComplete [sampleResult DeliverySent]) td in
  (run sampleEnv (tickRunning sampleMarshal 2 defaultConfig (9 * Second) ∅) td).2.

(** [Ingest] looks at the campaign's status once, before it reads
    the body.  If the campaign is started and completed while the body still
    arrives, the call goes on and reports its recipients as accepted; they are
    pending deliveries of a completed campaign, which no claim returns. *)
Theorem late_ingest_strands :
  match runWith sampleEnv [id; id; startAndFinish]
          (Ingest sampleIngester Second lineID "c1" "" (mkSource sampleBody EOF false)) draftStore with
  | (inr (res, err), td) =>
      err = None ∧ rs_Accepted res = 2 ∧
      (c_Status <$> campaigns td !! "c1") = Some CampaignCompleted ∧
      (d_Status <$> deliveries td !! "r1") = Some DeliveryPending ∧
      match run sampleEnv (call (λ env, ListByStatus env [CampaignRunning] (mkPage 200 ""))) td with
      | (inr page, _) =>
          let claim lane := (Claim sampleEnv
            (mkClaimRequest lane (Some (c_ID <$> res_Items page)) 100 Minute "w" Hour) td).1 in
          claim LaneBulk = inr [] ∧ claim LaneTransactional = inr []
      | _ => False
      end
  | _ => False
  end.
Proof. vm_compute. repeat split. Qed.
