(* ===== verification/Overlay.v ===== *)
(** * The platform overlay ([store/overlay.go])

    [WithPlatform] wraps a provider so that the catalog's shared transports,
    domains, senders and mailboxes appear as virtual rows of the stores it
    hands out.  Every operation is a program over the wrapped provider, the
    in-memory reference provider: reads merge the configuration over the
    state kept in a shadow row of the system tenant, writes of configuration
    are refused, writes of state go to the shadow row.

    The operations take values where the code takes pointers; a nil argument,
    which the overlay hands to the wrapped repository, is not represented.
    [Create] and [Update] write into the caller's struct: the programs return
    it. *)

From S2P Require Import Prelude Enums Model MemTable MemData DeliveryRepo DeliveryQueue Repos Provider Prog Settings Classify Codec Tokens Email Platform.

(** ** Stores of the wrapped provider *)

(** [platformStore]: the tenant's store and whose it is. *)
Record platformStore := mkPlatformStore { st_tenantID : string; st_system : bool }.

(** [platformProvider.shadowStore] *)
Definition shadowStore : progOn Provider string := call (λ _, ForTenant SystemTenantID).

(** [platformProvider.ForTenant] *)
Definition overlayForTenant (o : platformProvider) (tenantID : string) : progOn Provider platformStore :=
  match vp_err o with
  | Some err => fail err
  | None =>
      let? t := call (λ _, ForTenant tenantID) in
      pret (mkPlatformStore t (strEq tenantID SystemTenantID))
  end.

(** The provider's other methods: forwarded, [Migrate] after the build error. *)
Definition overlayActiveTenants : progOn Provider (list string) := call (λ _, ActiveTenants).
Definition overlayTenants : progOn Provider (list string) := call (λ _, Tenants).
Definition overlayLookupDeliveryTenant (deliveryID : string) : progOn Provider string :=
  call (λ _, LookupDeliveryTenant deliveryID).
Definition overlayMigrate (o : platformProvider) : progOn Provider unit :=
  match vp_err o with Some err => fail err | None => call (λ _, Migrate) end.
Definition overlayClose : progOn Provider unit := call (λ _, Close).

(** [PlatformView] *)
Definition PlatformView (o : platformProvider) : progOn Provider platformStore := overlayForTenant o SystemTenantID.

(** ** List merging *)

Definition platformCursorPrefix : string := "sys#".
Definition platformCursorDone : string := platformCursorPrefix +:+ "$".

Section overlayList.
Context {T : Type} (virt : list T) (id : T → string) (list_ : Page → progOn Provider (Result T)).

(** The backing page without its shadow rows. *)
Definition backing (pg : Page) : progOn Provider (Result T) :=
  let? res := list_ pg in
  pret (mkResult (filter (λ v, IsPlatformID (id v) = false) (res_Items res)) (res_NextCursor res)).

(** One page from the virtual entry [start] on. *)
Definition virtualPage (limit start : Z) : progOn Provider (Result T) :=
  let out := if len virt <=? start then [] else take (Z.to_nat limit) (drop (Z.to_nat start) virt) in
  if len out =? limit then
    let next := if start + len out <? len virt
                then platformCursorPrefix +:+ Itoa (Z.to_nat (start + len out)) else platformCursorDone in
    pret (mkResult out next)
  else
    let? res := backing (mkPage (limit - len out) "") in
    pret (mkResult (out ++ res_Items res) (res_NextCursor res)).

Definition overlayList (p : Page) : progOn Provider (Result T) :=
  let p := Normalize p in
  if strEq (p_Cursor p) "" then virtualPage (p_Limit p) 0
  else if strEq (p_Cursor p) platformCursorDone then backing (mkPage (p_Limit p) "")
  else if String.prefix platformCursorPrefix (p_Cursor p) then
    match Atoi (TrimPrefix (p_Cursor p) platformCursorPrefix) with
    | None => fail ErrInvalid
    | Some n => if n <? 0 then fail ErrInvalid else virtualPage (p_Limit p) n
    end
  else backing p.
End overlayList.

(** ** What the aggregates share

    [tab] is the aggregate's table and [m] its bookkeeping; [sys] and [t] are
    the stores of the system tenant and of the caller. *)

Section aggregate.
Context {T : Type} (tab : lens tenantData (gmap string T)) (m : meta T).

Definition getRow (t id : string) : progOn Provider T := tcall t (λ env, zoom tab (Get env id)).
Definition createRowIn (t : string) (v : T) : progOn Provider T :=
  tcall t (λ env, zoomWith tab (Create m env) v).
Definition updateRowIn (t : string) (v : T) : progOn Provider T :=
  tcall t (λ env, zoomWith tab (Update m env) v).
Definition deleteRow (t id : string) : progOn Provider unit := tcall t (λ env, zoom tab (Delete env id)).
Definition listRows (t : string) (p : Page) : progOn Provider (Result T) :=
  tcall t (λ env, zoom tab (List env p)).

(** [merged]: the virtual row with the state of its shadow, [over] it. *)
Definition mergedWith (over : T → T → T) (v : T) : progOn Provider T :=
  let? sys := shadowStore in
  handle (getRow sys (lget (m_id m) v)) (λ r,
    match r with
    | inl err => if errIs err ErrNotFound then pret v else fail err
    | inr shadow => pret (over shadow v)
    end).

(** [for _, v := range vs { m, err := f(v); ...; virt = append(virt, m) }] *)
Fixpoint mapRows (f : T → progOn Provider T) (vs : list T) : progOn Provider (list T) :=
  match vs with
  | [] => pret []
  | v :: vs' =>
      let? x := f v in
      let? xs := mapRows f vs' in
      pret (x :: xs)
  end.

(** The refusal of a [Create] and a [Delete] that name a virtual row. *)
Definition guardedCreate (t : string) (v : T) : progOn Provider T :=
  if IsPlatformID (lget (m_id m) v) then fail ErrReadOnly else createRowIn t v.
Definition guardedDelete (t id : string) : progOn Provider unit :=
  if IsPlatformID id then fail ErrReadOnly else deleteRow t id.

(** Write the shadow row [id]: [apply] overwrites a row with the state and no
    configuration, [want] is the version the caller read. *)
Definition putShadow (ver : lens T Z) (blankRow : T) (apply : T → T) (id : string) (want : Z) : progOn Provider unit :=
  let? sys := shadowStore in
  let update := λ cur,
    let? _ := updateRowIn sys (lset ver want (apply cur)) in pret tt in
  handle (getRow sys id) (λ r,
    match r with
    | inl err =>
        if errIs err ErrNotFound then
          handle (createRowIn sys (apply blankRow)) (λ r,
            match r with
            | inl err => if negb (errIs err ErrConflict) then fail err
                         else (let? cur := getRow sys id in update cur)
            | inr _ => pret tt
            end)
        else fail err
    | inr cur => update cur
    end).
End aggregate.

Section overlay.
Context (o : platformProvider) (st : platformStore).

(** ** Transports *)

(** [platformTransports.virtual] *)
Definition platformTransports_virtual (id : string) : option Transport := findID tr_ID id (vp_transports o).

Definition platformTransports_merged : Transport → progOn Provider Transport :=
  mergedWith (field transports) transportMeta (λ shadow v,
    v <| tr_Status := tr_Status shadow |> <| tr_StatusReason := tr_StatusReason shadow |>
      <| tr_StatusChangedAt := tr_StatusChangedAt shadow |> <| tr_StatusUntil := tr_StatusUntil shadow |>
      <| tr_Version := tr_Version shadow |> <| tr_UpdatedAt := tr_UpdatedAt shadow |>).

Definition platformTransports_Create (t : Transport) : progOn Provider Transport :=
  guardedCreate (field transports) transportMeta (st_tenantID st) t.

Definition platformTransports_Get (id : string) : progOn Provider Transport :=
  if negb (IsPlatformID id) then getRow (field transports) (st_tenantID st) id
  else if negb (st_system st) then fail ErrNotFound
  else
    match platformTransports_virtual id with
    | None => fail ErrNotFound
    | Some v => platformTransports_merged v
    end.

(** [transportState] *)
Record transportState := mkTransportState {
  ts_status : TransportStatus;
  ts_reason : string;
  ts_changedAt : Time;
  ts_until : Time;
  ts_version : Z;
}.

(** The row a shadow write stores: the state and nothing of the configuration. *)
Definition transportShadow (id : string) (s : transportState) (row : Transport) : Transport :=
  zero <| tr_ID := id |> <| tr_Shared := true |> <| tr_Version := tr_Version row |>
       <| tr_Status := ts_status s |> <| tr_StatusReason := ts_reason s |>
       <| tr_StatusChangedAt := ts_changedAt s |> <| tr_StatusUntil := ts_until s |>.

(** [platformTransports.writeShadow] *)
Definition platformTransports_writeShadow (s : transportState) (id : string) : progOn Provider unit :=
  putShadow (field transports) transportMeta (field tr_Version) (zero <| tr_ID := id |>)
    (transportShadow id s) id (ts_version s).

(** [maps.Equal] on float64 values: equal as numbers. *)
Definition mapsEqual (a b : gmap string float64) : bool :=
  (size a =? size b)%nat &&
  forallb (λ kv, match b !! kv.1 with Some w => SFeqb kv.2 w | None => false end) (map_to_list a).

Definition sameTransportConfig (v t : Transport) : bool :=
  strEq (tr_Name v) (tr_Name t) && strEq (tr_Host v) (tr_Host t) && (tr_Port v =? tr_Port t) &&
  strEq (tr_TLS v) (tr_TLS t) && strEq (tr_Username v) (tr_Username t) &&
  strEq (tr_Password v) (tr_Password t) &&
  (tr_MaxConns v =? tr_MaxConns t) && SFeqb (tr_RatePerSecond v) (tr_RatePerSecond t) &&
  mapsEqual (tr_DomainRatePerSecond v) (tr_DomainRatePerSecond t) &&
  tr_Shared t.

Definition platformTransports_Update (t : Transport) : progOn Provider Transport :=
  if negb (IsPlatformID (tr_ID t)) then updateRowIn (field transports) transportMeta (st_tenantID st) t
  else
    match platformTransports_virtual (tr_ID t) with
    | None => fail ErrReadOnly
    | Some v =>
        if negb (st_system st) then fail ErrReadOnly
        else if negb (sameTransportConfig v t) then fail ErrReadOnly
        else
          let? _ := platformTransports_writeShadow
            (mkTransportState (tr_Status t) (tr_StatusReason t) (tr_StatusChangedAt t) (tr_StatusUntil t)
               (tr_Version t)) (tr_ID t) in
          pret t
    end.

Definition platformTransports_Delete (id : string) : progOn Provider unit :=
  guardedDelete (field transports) (st_tenantID st) id.

Definition platformTransports_List (p : Page) : progOn Provider (Result Transport) :=
  let? virt := if st_system st then mapRows platformTransports_merged (vp_transports o) else pret [] in
  overlayList virt tr_ID (listRows (field transports) (st_tenantID st)) p.

(** ** Senders *)

(** [platformSenders.virtual] *)
Definition platformSenders_virtual (id : string) : option Sender := findID s_ID id (vp_senders o).

(** What a tenant other than the system's sees of a virtual sender. *)
Definition tenantView (tenantID : string) (v : Sender) : Sender :=
  v <| s_TenantID := tenantID |> <| s_Health := HealthUnknown |> <| s_HealthReason := "" |>
    <| s_HealthCheckedAt := zeroTime |> <| s_Version := 0 |>.

(** [platformSenders.view] *)
Definition platformSenders_view (v : Sender) : progOn Provider Sender :=
  if negb (st_system st) then pret (tenantView (st_tenantID st) v)
  else
    mergedWith (field senders) senderMeta (λ shadow v,
      v <| s_Health := s_Health shadow |> <| s_HealthReason := s_HealthReason shadow |>
        <| s_HealthCheckedAt := s_HealthCheckedAt shadow |>
        <| s_Version := s_Version shadow |> <| s_UpdatedAt := s_UpdatedAt shadow |>) v.

Definition platformSenders_Create (s : Sender) : progOn Provider Sender :=
  guardedCreate (field senders) senderMeta (st_tenantID st) s.

Definition platformSenders_Get (id : string) : progOn Provider Sender :=
  if negb (IsPlatformID id) then getRow (field senders) (st_tenantID st) id
  else
    match platformSenders_virtual id with
    | None => fail ErrNotFound
    | Some v => platformSenders_view v
    end.

Definition sameSenderConfig (v s : Sender) : bool :=
  strEq (s_Name v) (s_Name s) && strEq (s_FromName v) (s_FromName s) &&
  strEq (s_FromEmail v) (s_FromEmail s) && strEq (s_ReplyTo v) (s_ReplyTo s) &&
  strEq (s_TransportID v) (s_TransportID s) && strEq (s_DomainID v) (s_DomainID s) && s_Shared s.

Definition senderShadow (s row : Sender) : Sender :=
  zero <| s_ID := s_ID s |> <| s_Shared := true |> <| s_Version := s_Version row |>
       <| s_Health := s_Health s |> <| s_HealthReason := s_HealthReason s |>
       <| s_HealthCheckedAt := s_HealthCheckedAt s |>.

Definition platformSenders_Update (s : Sender) : progOn Provider Sender :=
  if negb (IsPlatformID (s_ID s)) then updateRowIn (field senders) senderMeta (st_tenantID st) s
  else
    match platformSenders_virtual (s_ID s) with
    | None => fail ErrReadOnly
    | Some v =>
        if negb (st_system st) then fail ErrReadOnly
        else if negb (sameSenderConfig v s) then fail ErrReadOnly
        else
          let? _ := putShadow (field senders) senderMeta (field s_Version) (zero <| s_ID := s_ID s |>)
            (senderShadow s) (s_ID s) (s_Version s) in
          pret s
    end.

Definition platformSenders_Delete (id : string) : progOn Provider unit :=
  guardedDelete (field senders) (st_tenantID st) id.

Definition platformSenders_List (p : Page) : progOn Provider (Result Sender) :=
  let? virt := mapRows platformSenders_view (vp_senders o) in
  overlayList virt s_ID (listRows (field senders) (st_tenantID st)) p.

(** ** Sending domains *)

(** [platformDomains.virtual] *)
Definition platformDomains_virtual (id : string) : option SendingDomain := findID sd_ID id (vp_domains o).

Definition platformDomains_merged : SendingDomain → progOn Provider SendingDomain :=
  mergedWith (field domains) domainMeta (λ shadow v,
    v <| sd_Health := sd_Health shadow |> <| sd_HealthReason := sd_HealthReason shadow |>
      <| sd_HealthCheckedAt := sd_HealthCheckedAt shadow |>
      <| sd_Version := sd_Version shadow |> <| sd_UpdatedAt := sd_UpdatedAt shadow |>).

Definition platformDomains_Create (d : SendingDomain) : progOn Provider SendingDomain :=
  guardedCreate (field domains) domainMeta (st_tenantID st) d.

Definition platformDomains_Get (id : string) : progOn Provider SendingDomain :=
  if negb (IsPlatformID id) then getRow (field domains) (st_tenantID st) id
  else if negb (st_system st) then fail ErrNotFound
  else
    match platformDomains_virtual id with
    | None => fail ErrNotFound
    | Some v => platformDomains_merged v
    end.

(** [slicesEqual] *)
Fixpoint slicesEqual (a b : list string) : bool :=
  match a, b with
  | [], [] => true
  | x :: a', y :: b' => strEq x y && slicesEqual a' b'
  | _, _ => false
  end.

Definition sameDomainConfig (v d : SendingDomain) : bool :=
  strEq (sd_Domain v) (sd_Domain d) && strEq (sd_DKIMSelector v) (sd_DKIMSelector d) &&
  strEq (sd_DKIMPrivateKey v) (sd_DKIMPrivateKey d) &&
  strEq (sd_ReturnPathDomain v) (sd_ReturnPathDomain d) &&
  strEq (sd_ExpectedSPF v) (sd_ExpectedSPF d) &&
  slicesEqual (sd_OutboundIPs v) (sd_OutboundIPs d) && sd_Shared d.

Definition domainShadow (d row : SendingDomain) : SendingDomain :=
  zero <| sd_ID := sd_ID d |> <| sd_Shared := true |> <| sd_Version := sd_Version row |>
       <| sd_Health := sd_Health d |> <| sd_HealthReason := sd_HealthReason d |>
       <| sd_HealthCheckedAt := sd_HealthCheckedAt d |>.

Definition platformDomains_Update (d : SendingDomain) : progOn Provider SendingDomain :=
  if negb (IsPlatformID (sd_ID d)) then updateRowIn (field domains) domainMeta (st_tenantID st) d
  else
    match platformDomains_virtual (sd_ID d) with
    | None => fail ErrReadOnly
    | Some v =>
        if negb (st_system st) || negb (sameDomainConfig v d) then fail ErrReadOnly
        else
          let? _ := putShadow (field domains) domainMeta (field sd_Version) (zero <| sd_ID := sd_ID d |>)
            (domainShadow d) (sd_ID d) (sd_Version d) in
          pret d
    end.

Definition platformDomains_Delete (id : string) : progOn Provider unit :=
  guardedDelete (field domains) (st_tenantID st) id.

Definition platformDomains_List (p : Page) : progOn Provider (Result SendingDomain) :=
  let? virt := if st_system st then mapRows platformDomains_merged (vp_domains o) else pret [] in
  overlayList virt sd_ID (listRows (field domains) (st_tenantID st)) p.

(** ** Mailboxes *)

(** [UpdateHealth] of a virtual mailbox: the health of its shadow row, which is
    created, state only, when there is none yet. *)
Definition putHealth {T} (tab : lens tenantData (gmap string T)) (m : meta T)
    (updateHealth : Env → string → MailboxHealth → M tenantData unit) (shadow : T)
    (id : string) (h : MailboxHealth) : progOn Provider unit :=
  let? sys := shadowStore in
  handle (tcall sys (λ env, updateHealth env id h)) (λ r,
    match r with
    | inr _ => pret tt
    | inl err =>
        if negb (errIs err ErrNotFound) then fail err
        else
          handle (createRowIn tab m sys shadow) (λ r,
            match r with
            | inr _ => pret tt
            | inl err => if errIs err ErrConflict then tcall sys (λ env, updateHealth env id h) else fail err
            end)
    end).

(** [platformProbeMailboxes.virtual] *)
Definition platformProbeMailboxes_virtual (id : string) : option ProbeMailbox := findID pm_ID id (vp_probeBoxes o).

Definition platformProbeMailboxes_merged : ProbeMailbox → progOn Provider ProbeMailbox :=
  mergedWith (field probeMailboxes) probeMailboxMeta (λ shadow v,
    v <| pm_Health := pm_Health shadow |>
      <| pm_Version := pm_Version shadow |> <| pm_UpdatedAt := pm_UpdatedAt shadow |>).

Definition platformProbeMailboxes_Create (x : ProbeMailbox) : progOn Provider ProbeMailbox :=
  guardedCreate (field probeMailboxes) probeMailboxMeta (st_tenantID st) x.

Definition platformProbeMailboxes_Get (id : string) : progOn Provider ProbeMailbox :=
  if negb (IsPlatformID id) then getRow (field probeMailboxes) (st_tenantID st) id
  else if negb (st_system st) then fail ErrNotFound
  else
    match platformProbeMailboxes_virtual id with
    | None => fail ErrNotFound
    | Some v => platformProbeMailboxes_merged v
    end.

Definition platformProbeMailboxes_Update (x : ProbeMailbox) : progOn Provider ProbeMailbox :=
  if IsPlatformID (pm_ID x) then fail ErrReadOnly
  else updateRowIn (field probeMailboxes) probeMailboxMeta (st_tenantID st) x.

Definition platformProbeMailboxes_Delete (id : string) : progOn Provider unit :=
  guardedDelete (field probeMailboxes) (st_tenantID st) id.

Definition platformProbeMailboxes_List (p : Page) : progOn Provider (Result ProbeMailbox) :=
  let? virt := if st_system st then mapRows platformProbeMailboxes_merged (vp_probeBoxes o) else pret [] in
  overlayList virt pm_ID (listRows (field probeMailboxes) (st_tenantID st)) p.

Definition platformProbeMailboxes_UpdateHealth (id : string) (h : MailboxHealth) : progOn Provider unit :=
  if negb (IsPlatformID id) then tcall (st_tenantID st) (λ env, ProbeMailboxUpdateHealth env id h)
  else
    match platformProbeMailboxes_virtual id with
    | None => fail ErrReadOnly
    | Some _ =>
        if negb (st_system st) then fail ErrReadOnly
        else putHealth (field probeMailboxes) probeMailboxMeta ProbeMailboxUpdateHealth
               (zero <| pm_ID := id |> <| pm_Shared := true |> <| pm_Health := h |>) id h
    end.

(** [platformBounceMailboxes.virtual] *)
Definition platformBounceMailboxes_virtual (id : string) : option BounceMailbox := findID bm_ID id (vp_bounceBoxes o).

Definition platformBounceMailboxes_merged : BounceMailbox → progOn Provider BounceMailbox :=
  mergedWith (field bounceMailboxes) bounceMailboxMeta (λ shadow v,
    v <| bm_Health := bm_Health shadow |>
      <| bm_Version := bm_Version shadow |> <| bm_UpdatedAt := bm_UpdatedAt shadow |>).

Definition platformBounceMailboxes_Create (x : BounceMailbox) : progOn Provider BounceMailbox :=
  guardedCreate (field bounceMailboxes) bounceMailboxMeta (st_tenantID st) x.

Definition platformBounceMailboxes_Get (id : string) : progOn Provider BounceMailbox :=
  if negb (IsPlatformID id) then getRow (field bounceMailboxes) (st_tenantID st) id
  else if negb (st_system st) then fail ErrNotFound
  else
    match platformBounceMailboxes_virtual id with
    | None => fail ErrNotFound
    | Some v => platformBounceMailboxes_merged v
    end.

Definition platformBounceMailboxes_Update (x : BounceMailbox) : progOn Provider BounceMailbox :=
  if IsPlatformID (bm_ID x) then fail ErrReadOnly
  else updateRowIn (field bounceMailboxes) bounceMailboxMeta (st_tenantID st) x.

Definition platformBounceMailboxes_Delete (id : string) : progOn Provider unit :=
  guardedDelete (field bounceMailboxes) (st_tenantID st) id.

Definition platformBounceMailboxes_List (p : Page) : progOn Provider (Result BounceMailbox) :=
  let? virt := if st_system st then mapRows platformBounceMailboxes_merged (vp_bounceBoxes o) else pret [] in
  overlayList virt bm_ID (listRows (field bounceMailboxes) (st_tenantID st)) p.

Definition platformBounceMailboxes_ListEnabled : progOn Provider (list BounceMailbox) :=
  let? rows := tcall (st_tenantID st) ListEnabled in
  let? virt :=
    if st_system st
    then mapRows platformBounceMailboxes_merged (filter (λ v, bm_Enabled v = true) (vp_bounceBoxes o))
    else pret [] in
  pret (virt ++ filter (λ v, IsPlatformID (bm_ID v) = false) rows).

Definition platformBounceMailboxes_UpdateHealth (id : string) (h : MailboxHealth) : progOn Provider unit :=
  if negb (IsPlatformID id) then tcall (st_tenantID st) (λ env, BounceMailboxUpdateHealth env id h)
  else
    match platformBounceMailboxes_virtual id with
    | None => fail ErrReadOnly
    | Some _ =>
        if negb (st_system st) then fail ErrReadOnly
        else putHealth (field bounceMailboxes) bounceMailboxMeta BounceMailboxUpdateHealth
               (zero <| bm_ID := id |> <| bm_Shared := true |> <| bm_Health := h |>) id h
    end.

(** ** Tenant settings *)

Definition SettingTrackingDomain : string := "tracking.domain".
Definition SettingUnsubscribeURLTemplate : string := "unsubscribe_url_template".

(** [platformSettings.applyDefaults] *)
Definition applyDefaults (v : TenantSettings) : TenantSettings :=
  let c := vp_cat o in
  let v := v <| ts_PlatformDefaults := [] |> in
  let v := if strEq (tk_Domain (ts_Tracking v)) "" && negb (strEq (pc_TrackingDomain c) "")
           then v <| ts_Tracking := (ts_Tracking v) <| tk_Domain := pc_TrackingDomain c |> |>
                  <| ts_PlatformDefaults := ts_PlatformDefaults v ++ [SettingTrackingDomain] |>
           else v in
  if strEq (ts_UnsubscribeURLTemplate v) "" && negb (strEq (pc_UnsubscribeURLTemplate c) "")
  then v <| ts_UnsubscribeURLTemplate := pc_UnsubscribeURLTemplate c |>
         <| ts_PlatformDefaults := ts_PlatformDefaults v ++ [SettingUnsubscribeURLTemplate] |>
  else v.

(** [platformSettings.strip] *)
Definition strip (v : TenantSettings) : TenantSettings :=
  let c := vp_cat o in
  let v := if FromPlatform (Some v) SettingTrackingDomain && strEq (tk_Domain (ts_Tracking v)) (pc_TrackingDomain c)
           then v <| ts_Tracking := (ts_Tracking v) <| tk_Domain := "" |> |> else v in
  let v := if FromPlatform (Some v) SettingUnsubscribeURLTemplate &&
              strEq (ts_UnsubscribeURLTemplate v) (pc_UnsubscribeURLTemplate c)
           then v <| ts_UnsubscribeURLTemplate := "" |> else v in
  v <| ts_PlatformDefaults := [] |>.

(** [platformStore.TenantSettings]: whether the wrapper is in place. *)
Definition settingsWrapped : bool :=
  negb (strEq (pc_TrackingDomain (vp_cat o)) "" && strEq (pc_UnsubscribeURLTemplate (vp_cat o)) "").

Definition platformSettings_Get : progOn Provider TenantSettings :=
  if negb settingsWrapped then tcall (st_tenantID st) SettingsGet
  else
    let? v := tcall (st_tenantID st) SettingsGet in
    pret (applyDefaults v).

Definition platformSettings_Create (v : TenantSettings) : progOn Provider TenantSettings :=
  if negb settingsWrapped then tcall (st_tenantID st) (λ env, SettingsCreate env v)
  else
    let? v := tcall (st_tenantID st) (λ env, SettingsCreate env (strip v)) in
    pret (applyDefaults v).

Definition platformSettings_Update (v : TenantSettings) : progOn Provider TenantSettings :=
  if negb settingsWrapped then tcall (st_tenantID st) (λ env, SettingsUpdate env v)
  else
    let? v := tcall (st_tenantID st) (λ env, SettingsUpdate env (strip v)) in
    pret (applyDefaults v).
End overlay.

(** ** A concrete platform *)

Definition sampleCatalog : PlatformCatalog :=
  zero <| pc_Transports := [zero <| pt_ID := "relay" |> <| pt_Name := "relay" |> <| pt_Host := "smtp.example.com" |>
                                 <| pt_Port := 587 |> <| pt_Password := "secret" |>] |>
       <| pc_Domains := [zero <| pd_ID := "mail" |> <| pd_Domain := "mail.example.com" |>] |>
       <| pc_Senders := [zero <| ps_ID := "noreply" |> <| ps_Name := "no-reply" |> <| ps_TransportID := "relay" |>
                              <| ps_DomainID := "sys:mail" |> <| ps_FromEmail := "no-reply@mail.example.com" |>] |>
       <| pc_TrackingDomain := "t.example.com" |>.

(** Its virtual rows, the secrets encrypted. *)
Definition sampleOverlay : platformProvider :=
  WithPlatform sampleCatalog (Some (λ s, ("enc:" +:+ s, None))) (5 * Second).

Definition overlayEnv : Env := mkEnv false (7 * Second) "" (λ i, "id-" +:+ pretty i).

(** The sample's relay with its circuit open, as the system tenant writes it. *)
Definition openedRelay : Transport :=
  (default zero (head (vp_transports sampleOverlay))) <| tr_Status := TransportUnhealthy |> <| tr_StatusReason := "auth" |>.
