(* ===== verification/OverlayContent.v ===== *)
(** * Shared templates and layouts ([store/overlay_content.go])

    The system tenant's shared templates and layouts as every other tenant
    reads them through the overlay: a tenant's own row with a shared row's key
    overrides it, a shared row is read-only in the tenant, an unshared one is
    invisible, and versions are readable across the boundary by ID. *)

From S2P Require Import Prelude Enums Model MemTable MemData DeliveryRepo DeliveryQueue Repos Provider Prog Settings Classify Codec Tokens Email Platform Overlay.

(** ** What templates and layouts share *)

(** The [allShared] walk; the source's [for] has no bound, [fuel] bounds the
    pages. *)
Fixpoint allShared {T} (fuel : nat) (list_ : Page → progOn Provider (Result T)) (shared : T → bool)
    (page : Page) (out : list T) : progOn Provider (list T) :=
  match fuel with
  | O => fail errFuel
  | S fuel =>
      let? res := list_ page in
      let out := out ++ filter (λ v, shared v = true) (res_Items res) in
      if strEq (res_NextCursor res) "" then pret out
      else allShared fuel list_ shared (page <| p_Cursor := res_NextCursor res |>) out
  end.

Section content.
Context {T : Type} (tab : lens tenantData (gmap string T)) (m : meta T) (key : T → string) (shared : T → bool).
(** [mark orig v]: the own row [v] marked as overriding the shared [orig];
    [unmark v]: with its computed fields cleared. *)
Context (mark : T → T → T) (unmark : T → T).
(** The tenant's store. *)
Context (t : string).

Definition getByKeyRow (t k : string) : progOn Provider T := tcall t (λ env, zoom tab (getByKey m env k)).

(** [sharedByID] *)
Definition sharedByID (id : string) : progOn Provider T :=
  let? sys := shadowStore in
  let? v := getRow tab sys id in
  if negb (shared v) then fail ErrNotFound else pret v.

(** [annotate] *)
Definition annotate (v : T) : progOn Provider T :=
  let v := unmark v in
  if strEq (key v) "" then pret v
  else
    let? sys := shadowStore in
    handle (getByKeyRow sys (key v)) (λ r,
      match r with
      | inl err => if errIs err ErrNotFound then pret v else fail err
      | inr orig => pret (if shared orig then mark orig v else v)
      end).

Definition shared_Create (v : T) : progOn Provider T :=
  if shared v then fail ErrInvalid else createRowIn tab m t v.

Definition shared_Get (id : string) : progOn Provider T :=
  handle (getRow tab t id) (λ r,
    match r with
    | inr v => annotate v
    | inl err => if negb (errIs err ErrNotFound) then fail err else sharedByID id
    end).

Definition shared_GetByKey (k : string) : progOn Provider T :=
  handle (getByKeyRow t k) (λ r,
    match r with
    | inr v => annotate v
    | inl err =>
        if negb (errIs err ErrNotFound) || strEq k "" then fail err
        else
          let? sys := shadowStore in
          let? v := getByKeyRow sys k in
          if negb (shared v) then fail ErrNotFound else pret v
    end).

(** [if _, serr := sharedByID(id); serr == nil { return sharedReadOnly }; return err] *)
Definition orReadOnly {A} (id : string) (err : error) : progOn Provider A :=
  handle (sharedByID id) (λ r, match r with inr _ => fail ErrReadOnly | inl _ => fail err end).

Definition shared_Update (v : T) : progOn Provider T :=
  let id := lget (m_id m) v in
  if shared v then orReadOnly id ErrInvalid
  else
    handle (updateRowIn tab m t v) (λ r,
      match r with
      | inl err => if errIs err ErrNotFound then orReadOnly id err else fail err
      | inr v => pret v
      end).

Definition shared_Delete (id : string) : progOn Provider unit :=
  handle (deleteRow tab t id) (λ r,
    match r with
    | inl err => if errIs err ErrNotFound then orReadOnly id err else fail err
    | inr _ => pret tt
    end).

(** The loop of [List] over the shared rows: those the tenant has not
    overridden. *)
Fixpoint visibleShared (vs : list T) : progOn Provider (list T) :=
  match vs with
  | [] => pret []
  | v :: vs' =>
      if strEq (key v) "" then (let? l := visibleShared vs' in pret (v :: l))
      else
        handle (getByKeyRow t (key v)) (λ r,
          match r with
          | inr _ => visibleShared vs'
          | inl err => if negb (errIs err ErrNotFound) then fail err
                       else (let? l := visibleShared vs' in pret (v :: l))
          end)
  end.

(** [byKey[k]]: the last shared row with the key. *)
Definition lastByKey (k : string) (vs : list T) : option T :=
  if strEq k "" then None else last (filter (λ v, key v = k) vs).

(** The tenant's own page with its overriding rows marked; [other] is what a
    row that overrides nothing becomes. *)
Definition ownPage (other : T → T) (vs : list T) (pg : Page) : progOn Provider (Result T) :=
  let? res := listRows tab t pg in
  pret (mkResult ((λ v, match lastByKey (key v) vs with Some orig => mark orig v | None => other v end) <$>
                  res_Items res) (res_NextCursor res)).

Definition shared_List (other : T → T) (fuel : nat) (p : Page) : progOn Provider (Result T) :=
  let? sys := shadowStore in
  let? vs := allShared fuel (listRows tab sys) shared (mkPage MaxPageLimit "") [] in
  let? virt := visibleShared vs in
  overlayList virt (lget (m_id m)) (ownPage other vs) p.
End content.

(** ** Templates *)

Definition markTemplate (orig v : Template) : Template :=
  v <| t_Overridden := true |> <| t_SharedPublishedVersionID := t_PublishedVersionID orig |>.
Definition unmarkTemplate (v : Template) : Template :=
  v <| t_Overridden := false |> <| t_SharedPublishedVersionID := "" |>.

Section templates.
Context (st : platformStore).
Let t : string := st_tenantID st.

(** [Templates()] of the system tenant is its own repository. *)
Definition sharedTemplates_Create (v : Template) : progOn Provider Template :=
  if st_system st then createRowIn (field templates) templateMeta t v
  else shared_Create (field templates) templateMeta t_Shared t v.
Definition sharedTemplates_Get (id : string) : progOn Provider Template :=
  if st_system st then getRow (field templates) t id
  else shared_Get (field templates) templateMeta t_Key t_Shared markTemplate unmarkTemplate t id.
Definition sharedTemplates_GetByKey (k : string) : progOn Provider Template :=
  if st_system st then getByKeyRow (field templates) templateMeta t k
  else shared_GetByKey (field templates) templateMeta t_Key t_Shared markTemplate unmarkTemplate t k.
Definition sharedTemplates_Update (v : Template) : progOn Provider Template :=
  if st_system st then updateRowIn (field templates) templateMeta t v
  else shared_Update (field templates) templateMeta t_Shared t v.
Definition sharedTemplates_Delete (id : string) : progOn Provider unit :=
  if st_system st then deleteRow (field templates) t id
  else shared_Delete (field templates) t_Shared t id.
Definition sharedTemplates_List (fuel : nat) (p : Page) : progOn Provider (Result Template) :=
  if st_system st then listRows (field templates) t p
  else shared_List (field templates) templateMeta t_Key t_Shared markTemplate t id fuel p.
End templates.

(** ** Layouts *)

Definition markLayout (orig v : Layout) : Layout := v <| l_Overridden := true |>.
Definition unmarkLayout (v : Layout) : Layout := v <| l_Overridden := false |>.

Section layouts.
Context (st : platformStore).
Let t : string := st_tenantID st.

Definition sharedLayouts_Create (v : Layout) : progOn Provider Layout :=
  if st_system st then createRowIn (field layouts) layoutMeta t v
  else shared_Create (field layouts) layoutMeta l_Shared t v.
Definition sharedLayouts_Get (id : string) : progOn Provider Layout :=
  if st_system st then getRow (field layouts) t id
  else shared_Get (field layouts) layoutMeta l_Key l_Shared markLayout unmarkLayout t id.
Definition sharedLayouts_GetByKey (k : string) : progOn Provider Layout :=
  if st_system st then getByKeyRow (field layouts) layoutMeta t k
  else shared_GetByKey (field layouts) layoutMeta l_Key l_Shared markLayout unmarkLayout t k.
Definition sharedLayouts_Update (v : Layout) : progOn Provider Layout :=
  if st_system st then updateRowIn (field layouts) layoutMeta t v
  else shared_Update (field layouts) layoutMeta l_Shared t v.
Definition sharedLayouts_Delete (id : string) : progOn Provider unit :=
  if st_system st then deleteRow (field layouts) t id
  else shared_Delete (field layouts) l_Shared t id.
Definition sharedLayouts_List (fuel : nat) (p : Page) : progOn Provider (Result Layout) :=
  if st_system st then listRows (field layouts) t p
  else shared_List (field layouts) layoutMeta l_Key l_Shared markLayout t unmarkLayout fuel p.
End layouts.

(** ** Message versions *)

Section versions.
Context (st : platformStore).
Let t : string := st_tenantID st.

(** [sharedVersions.sharedTemplate] *)
Definition sharedTemplate (templateID : string) : progOn Provider bool :=
  if strEq templateID "" then pret false
  else
    let? sys := shadowStore in
    handle (getRow (field templates) sys templateID) (λ r,
      match r with
      | inl err => if errIs err ErrNotFound then pret false else fail err
      | inr v => pret (t_Shared v)
      end).

Definition sharedVersions_Create (v : MessageVersion) : progOn Provider MessageVersion :=
  if st_system st then createRowIn (field versions) versionMeta t v
  else
    let? shared := sharedTemplate (mv_TemplateID v) in
    if (shared : bool) then fail ErrReadOnly else createRowIn (field versions) versionMeta t v.

Definition sharedVersions_Get (id : string) : progOn Provider MessageVersion :=
  if st_system st then getRow (field versions) t id
  else
    handle (getRow (field versions) t id) (λ r,
      match r with
      | inr v => pret v
      | inl err =>
          if negb (errIs err ErrNotFound) then fail err
          else
            let? sys := shadowStore in
            getRow (field versions) sys id
      end).

Definition sharedVersions_ListByTemplate (templateID : string) (p : Page) : progOn Provider (Result MessageVersion) :=
  if st_system st then tcall t (λ env, ListByTemplate env templateID p)
  else
    let? shared := sharedTemplate templateID in
    if negb shared then tcall t (λ env, ListByTemplate env templateID p)
    else
      let? sys := shadowStore in
      tcall sys (λ env, ListByTemplate env templateID p).
End versions.
