(* ===== verification/OverlayProps.v ===== *)
(** * Properties of the platform overlay

    The configuration of a platform resource is in no table; a tenant other
    than the system's sees the shared senders and nothing else of the platform,
    and nothing it does reaches the system tenant; configuration writes are
    refused; state writes are read back; listings are complete. *)

From S2P Require Import Prelude Enums Model MemTable MemData DeliveryRepo DeliveryQueue Repos Provider Prog Settings Classify Codec Tokens Email Platform Overlay.

(** ** Every request of the overlaid aggregates

    A request names the method of the wrapped store and its arguments. *)
Inductive request :=
  | TransportCreate (v : Transport) | TransportGet (id : string) | TransportUpdate (v : Transport)
  | TransportDelete (id : string) | TransportList (p : Page)
  | SenderCreate (v : Sender) | SenderGet (id : string) | SenderUpdate (v : Sender)
  | SenderDelete (id : string) | SenderList (p : Page)
  | DomainCreate (v : SendingDomain) | DomainGet (id : string) | DomainUpdate (v : SendingDomain)
  | DomainDelete (id : string) | DomainList (p : Page)
  | ProbeCreate (v : ProbeMailbox) | ProbeGet (id : string) | ProbeUpdate (v : ProbeMailbox)
  | ProbeDelete (id : string) | ProbeList (p : Page) | ProbeHealth (id : string) (h : MailboxHealth)
  | BounceCreate (v : BounceMailbox) | BounceGet (id : string) | BounceUpdate (v : BounceMailbox)
  | BounceDelete (id : string) | BounceList (p : Page) | BounceListEnabled
  | BounceHealth (id : string) (h : MailboxHealth)
  | SettingsRead | SettingsInsert (v : TenantSettings) | SettingsWrite (v : TenantSettings).

Inductive answer :=
  | AnsTransport (v : Transport) | AnsTransports (r : Result Transport)
  | AnsSender (v : Sender) | AnsSenders (r : Result Sender)
  | AnsDomain (v : SendingDomain) | AnsDomains (r : Result SendingDomain)
  | AnsProbe (v : ProbeMailbox) | AnsProbes (r : Result ProbeMailbox)
  | AnsBounce (v : BounceMailbox) | AnsBounces (r : Result BounceMailbox) | AnsEnabled (l : list BounceMailbox)
  | AnsSettings (v : TenantSettings)
  | AnsOK (u : unit).

Definition andAnswer {A} (p : progOn Provider A) (f : A → answer) : progOn Provider answer :=
  let? a := p in pret (f a).

(** One request on a store of the wrapped provider. *)
Definition answerTo (o : platformProvider) (st : platformStore) (req : request) : progOn Provider answer :=
  match req with
  | TransportCreate v => andAnswer (platformTransports_Create st v) AnsTransport
  | TransportGet id => andAnswer (platformTransports_Get o st id) AnsTransport
  | TransportUpdate v => andAnswer (platformTransports_Update o st v) AnsTransport
  | TransportDelete id => andAnswer (platformTransports_Delete st id) AnsOK
  | TransportList p => andAnswer (platformTransports_List o st p) AnsTransports
  | SenderCreate v => andAnswer (platformSenders_Create st v) AnsSender
  | SenderGet id => andAnswer (platformSenders_Get o st id) AnsSender
  | SenderUpdate v => andAnswer (platformSenders_Update o st v) AnsSender
  | SenderDelete id => andAnswer (platformSenders_Delete st id) AnsOK
  | SenderList p => andAnswer (platformSenders_List o st p) AnsSenders
  | DomainCreate v => andAnswer (platformDomains_Create st v) AnsDomain
  | DomainGet id => andAnswer (platformDomains_Get o st id) AnsDomain
  | DomainUpdate v => andAnswer (platformDomains_Update o st v) AnsDomain
  | DomainDelete id => andAnswer (platformDomains_Delete st id) AnsOK
  | DomainList p => andAnswer (platformDomains_List o st p) AnsDomains
  | ProbeCreate v => andAnswer (platformProbeMailboxes_Create st v) AnsProbe
  | ProbeGet id => andAnswer (platformProbeMailboxes_Get o st id) AnsProbe
  | ProbeUpdate v => andAnswer (platformProbeMailboxes_Update st v) AnsProbe
  | ProbeDelete id => andAnswer (platformProbeMailboxes_Delete st id) AnsOK
  | ProbeList p => andAnswer (platformProbeMailboxes_List o st p) AnsProbes
  | ProbeHealth id h => andAnswer (platformProbeMailboxes_UpdateHealth o st id h) AnsOK
  | BounceCreate v => andAnswer (platformBounceMailboxes_Create st v) AnsBounce
  | BounceGet id => andAnswer (platformBounceMailboxes_Get o st id) AnsBounce
  | BounceUpdate v => andAnswer (platformBounceMailboxes_Update st v) AnsBounce
  | BounceDelete id => andAnswer (platformBounceMailboxes_Delete st id) AnsOK
  | BounceList p => andAnswer (platformBounceMailboxes_List o st p) AnsBounces
  | BounceListEnabled => andAnswer (platformBounceMailboxes_ListEnabled o st) AnsEnabled
  | BounceHealth id h => andAnswer (platformBounceMailboxes_UpdateHealth o st id h) AnsOK
  | SettingsRead => andAnswer (platformSettings_Get o st) AnsSettings
  | SettingsInsert v => andAnswer (platformSettings_Create o st v) AnsSettings
  | SettingsWrite v => andAnswer (platformSettings_Update o st v) AnsSettings
  end.

(** A tenant's request: its store first. *)
Definition serve (o : platformProvider) (tenantID : string) (req : request) : progOn Provider answer :=
  let? st := overlayForTenant o tenantID in
  answerTo o st req.

(** ** No configuration in the tables *)

(** The configuration columns of a row are empty. *)
Definition transportBlank (v : Transport) : Prop :=
  tr_Name v = "" ∧ tr_Host v = "" ∧ tr_Port v = 0 ∧ tr_TLS v = "" ∧ tr_Username v = "" ∧ tr_Password v = "" ∧
  tr_MaxConns v = 0 ∧ tr_RatePerSecond v = S754_zero false ∧ tr_DomainRatePerSecond v = ∅.
Definition senderBlank (v : Sender) : Prop :=
  s_Name v = "" ∧ s_FromName v = "" ∧ s_FromEmail v = "" ∧ s_ReplyTo v = "" ∧ s_TransportID v = "" ∧
  s_DomainID v = "".
Definition domainBlank (v : SendingDomain) : Prop :=
  sd_Domain v = "" ∧ sd_DKIMSelector v = "" ∧ sd_DKIMPrivateKey v = "" ∧ sd_ReturnPathDomain v = "" ∧
  sd_ExpectedSPF v = "" ∧ sd_OutboundIPs v = [].
Definition probeBlank (v : ProbeMailbox) : Prop :=
  pm_Name v = "" ∧ pm_Kind v = "" ∧ pm_Address v = "" ∧ pm_Host v = "" ∧ pm_Port v = 0 ∧ pm_TLS v = "" ∧
  pm_Username v = "" ∧ pm_Password v = "" ∧ pm_InboxFolder v = "" ∧ pm_SpamFolder v = "" ∧
  pm_AuthServID v = "" ∧ pm_Enabled v = false.
Definition bounceBlank (v : BounceMailbox) : Prop :=
  bm_Name v = "" ∧ bm_Address v = "" ∧ bm_Protocol v = "" ∧ bm_Host v = "" ∧ bm_Port v = 0 ∧ bm_TLS v = "" ∧
  bm_Username v = "" ∧ bm_Password v = "" ∧ bm_Folder v = "" ∧ bm_AfterProcess v = "" ∧ bm_Enabled v = false.

(** A row with a virtual ID is in the system tenant's table and blank. *)
Definition tableClean {T} (blankRow : T → Prop) (t : string) (rows : gmap string T) : Prop :=
  ∀ id v, rows !! id = Some v → IsPlatformID id = true → t = SystemTenantID ∧ blankRow v.

Record tenantClean (t : string) (td : tenantData) : Prop := {
  tc_transports : tableClean transportBlank t (transports td);
  tc_senders : tableClean senderBlank t (senders td);
  tc_domains : tableClean domainBlank t (domains td);
  tc_probe : tableClean probeBlank t (probeMailboxes td);
  tc_bounce : tableClean bounceBlank t (bounceMailboxes td);
}.

Definition providerClean (s : Provider) : Prop :=
  ∀ t td, pv_tenants s !! t = Some td → tenantClean t td.

(** [NewID] never mints a virtual ID: a UUIDv7 has no colon. *)
Definition mintsNoPlatformID (env : Env) : Prop := ∀ i, IsPlatformID (e_newID env i) = false.

(** What an aggregate's table promises the invariant. *)
Class Aggregate {T} (tab : lens tenantData (gmap string T)) (m : meta T) (blankRow : T → Prop) : Prop := {
  ag_get t td : tenantClean t td → tableClean blankRow t (lget tab td);
  ag_set t td rows : tenantClean t td → tableClean blankRow t rows → tenantClean t (lset tab rows td);
  ag_blank : unobserved m blankRow;
  ag_blank_version l x v : m_version m = Some l → blankRow (lset l x v) = blankRow v;
}.

Ltac solve_aggregate :=
  split; [by intros ? ? []
         |intros ? ? ? [] ?; by split
         |solve_unobserved
         |intros ? ? ? [= <-]; reflexivity].

#[export] Instance transports_aggregate : Aggregate (field transports) transportMeta transportBlank.
Proof. solve_aggregate. Qed.
#[export] Instance senders_aggregate : Aggregate (field senders) senderMeta senderBlank.
Proof. solve_aggregate. Qed.
#[export] Instance domains_aggregate : Aggregate (field domains) domainMeta domainBlank.
Proof. solve_aggregate. Qed.
#[export] Instance probe_aggregate : Aggregate (field probeMailboxes) probeMailboxMeta probeBlank.
Proof. solve_aggregate. Qed.
#[export] Instance bounce_aggregate : Aggregate (field bounceMailboxes) bounceMailboxMeta bounceBlank.
Proof. solve_aggregate. Qed.

(** *** Programs whose every call keeps the invariant

    Whatever the others did in between, as long as they kept it too. *)
Fixpoint keeps {A} (p : progOn Provider A) (Q : error + A → Prop) : Prop :=
  match p with
  | Done r => Q r
  | Call op k =>
      ∀ env s, mintsNoPlatformID env → providerClean s →
        providerClean (op env s).2 ∧ keeps (k (op env s).1) Q
  | Poll k => ∀ b, keeps (k b) Q
  end.

Lemma keeps_mono {A} (p : progOn Provider A) (Q Q' : error + A → Prop) :
  keeps p Q → (∀ r, Q r → Q' r) → keeps p Q'.
Proof.
  intros Hp HQ. induction p as [r|B op k IH|k IH]; cbn [keeps] in *; [by apply HQ| |].
  - intros env s He Hs. destruct (Hp env s He Hs) as [? ?]. split; [done|by apply IH].
  - intros b. by apply IH.
Qed.

Lemma keeps_handle {A B} (p : progOn Provider A) (k : error + A → progOn Provider B) Q Q' :
  keeps p Q' → (∀ r, Q' r → keeps (k r) Q) → keeps (handle p k) Q.
Proof.
  intros Hp Hk. induction p as [r|C op k' IH|k' IH]; cbn [handle keeps] in *; [by apply Hk| |].
  - intros env s He Hs. destruct (Hp env s He Hs) as [? ?]. split; [done|by apply IH].
  - intros b. by apply IH.
Qed.

(** Nothing is asked of the results. *)
Abbreviation keepsAll p := (keeps p (λ _, True)).

Lemma keeps_try {A B} (p : progOn Provider A) (k : error + A → progOn Provider B) :
  keepsAll p → (∀ r, keepsAll (k r)) → keepsAll (handle p k).
Proof. intros Hp Hk. apply (keeps_handle _ _ _ _ Hp). intros r _. apply Hk. Qed.

Lemma keeps_let {A B} (p : progOn Provider A) (k : A → progOn Provider B) :
  keepsAll p → (∀ a, keepsAll (k a)) → keepsAll (pbind p k).
Proof. intros Hp Hk. apply (keeps_try _ _ Hp). intros [e|a]; [done|apply Hk]. Qed.

Lemma keeps_pret {A} (a : A) : keepsAll (pret a).
Proof. done. Qed.

Lemma keeps_fail {A} e : keepsAll (fail e : progOn Provider A).
Proof. done. Qed.

Lemma providerClean_set s t td' :
  providerClean s → tenantClean t td' → providerClean (s <| pv_tenants := <[t := td']> (pv_tenants s) |>).
Proof.
  intros Hs Ht t0 td0. cbn. intros [[<- <-]|[_ H]]%lookup_insert_Some; [done|by apply Hs].
Qed.

Lemma keeps_tcall {A} t (op : Env → M tenantData A) :
  (∀ env td, mintsNoPlatformID env → tenantClean t td → tenantClean t (op env td).2) → keepsAll (tcall t op).
Proof.
  intros Hop env s He Hs. split; [|done]. unfold onStore.
  destruct (pv_tenants s !! t) as [td|] eqn:Ht; [|done].
  specialize (Hop (mkEnv (pv_closed s) (e_clock env) t (e_newID env)) td He (Hs t td Ht)).
  destruct (op _ td) as [r td']. by apply providerClean_set.
Qed.

Lemma newTenantData_clean t : tenantClean t newTenantData.
Proof. split; intros id v Hv; cbn in Hv; by rewrite lookup_empty in Hv. Qed.

Lemma keeps_forTenant t :
  keeps (call (λ _, ForTenant t)) (λ r, match r with inr t' => t' = t | inl _ => True end).
Proof.
  intros env s _ Hs. unfold ForTenant, pchecked. destruct (pv_closed s); [done|].
  destruct (pv_tenants s !! t) eqn:Ht; cbn; [done|]. split; [|done].
  apply providerClean_set; [done|apply newTenantData_clean].
Qed.

Lemma keeps_shadowStore {A} (k : string → progOn Provider A) :
  keepsAll (k SystemTenantID) → keepsAll (let? sys := shadowStore in k sys).
Proof. intros Hk. apply (keeps_handle _ _ _ _ (keeps_forTenant _)). by intros [e|t] Ht; [|subst]. Qed.

Section aggregate_keeps.
Context {T : Type} (tab : lens tenantData (gmap string T)) (m : meta T) (blankRow : T → Prop).
Context `{!MetaOk m, !Aggregate tab m blankRow}.
Implicit Types (v : T) (t id : string).

Lemma keeps_zoom {A} t (op : Env → M (gmap string T) A) :
  (∀ env rows, tableClean blankRow t rows → tableClean blankRow t (op env rows).2) →
  keepsAll (tcall t (λ env, zoom tab (op env))).
Proof using Type*.
  intros Hop. apply keeps_tcall. intros env td _ Htd. unfold zoom.
  specialize (Hop env (lget tab td) (ag_get _ _ Htd)). destruct (op env (lget tab td)) as [r rows].
  by apply ag_set.
Qed.

Lemma keeps_getRow t id : keepsAll (getRow tab t id).
Proof using Type*.
  apply keeps_zoom. intros env rows Hrows. unfold Get, checked, throw.
  destruct (e_closed env); [done|]. by destruct (rows !! id).
Qed.

Lemma keeps_listRows t p : keepsAll (listRows tab t p).
Proof using Type*.
  apply keeps_zoom. intros env rows Hrows. unfold List, listWhere, checked, throw. by destruct (e_closed env).
Qed.

Lemma keeps_deleteRow t id : keepsAll (deleteRow tab t id).
Proof using Type*.
  apply keeps_zoom. intros env rows Hrows. unfold Delete, checked, throw.
  destruct (e_closed env); [done|]. destruct (rows !! id); [|done]. cbn.
  intros id' v [_ Hv]%lookup_delete_Some. by apply Hrows.
Qed.

(** A write of [v] may name a virtual ID only blank, in the system tenant. *)
Definition mayWrite t v : Prop :=
  IsPlatformID (lget (m_id m) v) = true → t = SystemTenantID ∧ blankRow v.

Lemma tableClean_insert t id v rows :
  tableClean blankRow t rows → (IsPlatformID id = true → t = SystemTenantID ∧ blankRow v) →
  tableClean blankRow t (<[id := v]> rows).
Proof. intros Hr Hv id' v' [[<- <-]|[_ H]]%lookup_insert_Some; [done|by apply Hr]. Qed.

Lemma keeps_zoomWith t (op : Env → M (T * gmap string T) unit) v :
  (∀ env rows, mintsNoPlatformID env → tableClean blankRow t rows →
     tableClean blankRow t (op env (v, rows)).2.2) →
  keepsAll (tcall t (λ env, zoomWith tab (op env) v)).
Proof using Type*.
  intros Hop. apply keeps_tcall. intros env td He Htd. unfold zoomWith.
  specialize (Hop env (lget tab td) He (ag_get _ _ Htd)).
  destruct (op env (v, lget tab td)) as [[e|[]] [v' rows]]; by apply ag_set.
Qed.

Lemma keeps_create t v : mayWrite t v → keepsAll (createRowIn tab m t v).
Proof using Type*.
  intros Hv. apply keeps_zoomWith. intros env rows He Hrows.
  destruct (Create m env (v, rows)) as [[e|[]] [v' rows']] eqn:Hc; cbn.
  { unfold Create, checked, throw in Hc. repeat case_match; by simplify_eq. }
  apply Create_inv in Hc as (_&_&_&->&->); [|done]. apply tableClean_insert; [done|].
  rewrite unobserved_stored by apply ag_blank. rewrite createRow_unobserved by first [done | apply ag_blank | apply ag_blank_version].
  unfold createID, withID. destruct (strEq _ _); [by rewrite He|done].
Qed.

Lemma keeps_update t v : mayWrite t v → keepsAll (updateRowIn tab m t v).
Proof using Type*.
  intros Hv. apply keeps_zoomWith. intros env rows He Hrows.
  destruct (Update m env (v, rows)) as [[e|[]] [v' rows']] eqn:Hc; cbn.
  { unfold Update, checked, throw in Hc. repeat case_match; by simplify_eq. }
  apply Update_inv in Hc as (cur&_&_&_&_&->&->). apply tableClean_insert; [done|].
  rewrite unobserved_stored by apply ag_blank. by rewrite updateRow_unobserved by first [done | apply ag_blank | apply ag_blank_version].
Qed.

Lemma keeps_guardedCreate t v : keepsAll (guardedCreate tab m t v).
Proof using Type*.
  unfold guardedCreate. destruct (IsPlatformID _) eqn:Hid; [done|]. apply keeps_create.
  intros H. by rewrite H in Hid.
Qed.

Lemma keeps_guardedDelete t id : keepsAll (guardedDelete tab t id).
Proof using Type*. unfold guardedDelete. destruct (IsPlatformID _); [done|]. apply keeps_deleteRow. Qed.

Lemma keeps_merged over v : keepsAll (mergedWith tab m over v).
Proof using Type*.
  apply keeps_shadowStore, keeps_try; [apply keeps_getRow|]. intros [e|a]; [by destruct (errIs _ _)|done].
Qed.

Lemma keeps_mapRows (f : T → progOn Provider T) vs : (∀ v, keepsAll (f v)) → keepsAll (mapRows f vs).
Proof.
  intros Hf. induction vs as [|v vs IH]; cbn [mapRows]; [done|].
  apply keeps_let; [apply Hf|]. intros x. by apply keeps_let.
Qed.

Lemma keeps_overlayList virt (idOf : T → string) list_ p :
  (∀ pg, keepsAll (list_ pg)) → keepsAll (overlayList virt idOf list_ p).
Proof.
  intros Hl. assert (Hb : ∀ pg, keepsAll (backing idOf list_ pg)) by (intros pg; by apply keeps_let).
  assert (Hv : ∀ limit n, keepsAll (virtualPage virt idOf list_ limit n)).
  { intros limit n. unfold virtualPage. destruct (_ =? _); [done|]. by apply keeps_let. }
  unfold overlayList. destruct (strEq _ _); [apply Hv|]. destruct (strEq _ _); [apply Hb|].
  destruct (String.prefix _ _); [|apply Hb]. destruct (Atoi _) as [n|]; [|done].
  destruct (n <? 0); [done|apply Hv].
Qed.

Lemma keeps_putShadow ver blank0 (apply_ : T → T) id want :
  m_version m = Some ver → (∀ row, blankRow (apply_ row)) → keepsAll (putShadow tab m ver blank0 apply_ id want).
Proof using Type*.
  intros Hver Hb. apply keeps_shadowStore.
  assert (Hu : ∀ cur, keepsAll (let? _ := updateRowIn tab m SystemTenantID (lset ver want (apply_ cur)) in pret tt)).
  { intros cur. apply keeps_let; [|done]. apply keeps_update. intros _. split; [done|].
    by rewrite (ag_blank_version ver). }
  apply keeps_try; [apply keeps_getRow|]. intros [e|cur]; [|apply Hu]. destruct (errIs _ _); [|done].
  apply keeps_try; [apply keeps_create; intros _; by split|]. intros [e'|]; [|done].
  destruct (negb _); [done|]. apply keeps_let; [apply keeps_getRow|apply Hu].
Qed.

Lemma keeps_putHealth (upd : Env → string → MailboxHealth → M tenantData unit) shadow id h :
  (∀ t, keepsAll (tcall t (λ env, upd env id h))) → blankRow shadow →
  keepsAll (putHealth tab m upd shadow id h).
Proof using Type*.
  intros Hu Hb. apply keeps_shadowStore, keeps_try; [apply Hu|]. intros [e|]; [|done].
  destruct (negb _); [done|]. apply keeps_try; [apply keeps_create; intros _; by split|].
  intros [e'|]; [|done]. destruct (errIs _ _); [apply Hu|done].
Qed.
End aggregate_keeps.

(** *** Every request keeps it *)

Lemma keeps_probeHealth t id h : keepsAll (tcall t (λ env, ProbeMailboxUpdateHealth env id h)).
Proof.
  apply keeps_tcall. intros env td _ Htd. unfold ProbeMailboxUpdateHealth, checked, throw.
  destruct (e_closed env); [done|]. destruct (probeMailboxes td !! id) as [v|] eqn:Hv; [|done]. cbn.
  destruct Htd as [? ? ? Hp ?]. split; [done..| |done]. apply tableClean_insert; [done|]. intros Hid. exact (Hp id v Hv Hid).
Qed.

Lemma keeps_bounceHealth t id h : keepsAll (tcall t (λ env, BounceMailboxUpdateHealth env id h)).
Proof.
  apply keeps_tcall. intros env td _ Htd. unfold BounceMailboxUpdateHealth, checked, throw.
  destruct (e_closed env); [done|]. destruct (bounceMailboxes td !! id) as [v|] eqn:Hv; [|done]. cbn.
  destruct Htd as [? ? ? ? Hb]. split; [done..|]. apply tableClean_insert; [done|]. intros Hid. exact (Hb id v Hv Hid).
Qed.

(** A call that leaves the five tables alone. *)
Definition leavesConfig {A} (op : Env → M tenantData A) : Prop := ∀ env td,
  transports (op env td).2 = transports td ∧ senders (op env td).2 = senders td ∧
  domains (op env td).2 = domains td ∧ probeMailboxes (op env td).2 = probeMailboxes td ∧
  bounceMailboxes (op env td).2 = bounceMailboxes td.

Lemma keeps_leavesConfig {A} t (op : Env → M tenantData A) : leavesConfig op → keepsAll (tcall t op).
Proof.
  intros Hop. apply keeps_tcall. intros env td _ [H1 H2 H3 H4 H5].
  destruct (Hop env td) as (E1&E2&E3&E4&E5). by split; rewrite ?E1, ?E2, ?E3, ?E4, ?E5.
Qed.

Lemma settings_leaveConfig :
  leavesConfig SettingsGet ∧ (∀ v, leavesConfig (λ env, SettingsCreate env v)) ∧
  (∀ v, leavesConfig (λ env, SettingsUpdate env v)).
Proof.
  split_and!; intros *; intros env td; unfold SettingsGet, SettingsCreate, SettingsUpdate, checked, throw;
    repeat case_match; done.
Qed.

Lemma ListEnabled_leavesConfig : leavesConfig ListEnabled.
Proof. intros env td. unfold ListEnabled, checked, throw. by destruct (e_closed env). Qed.

(** The guard of a write that is not to a virtual row. *)
Lemma mayWrite_own {T} (m : meta T) blankRow t v :
  IsPlatformID (lget (m_id m) v) = false → mayWrite m blankRow t v.
Proof. intros H H'. by rewrite H in H'. Qed.

Ltac keeps_step :=
  match goal with
  | |- keeps (pret _) _ => done
  | |- keeps (fail _) _ => done
  | |- keeps (andAnswer _ _) _ => apply keeps_let; [|intros ?; apply keeps_pret]
  | |- keeps (pbind _ _) _ => apply keeps_let; [|intros ?]
  | |- keeps (guardedCreate _ _ _ _) _ => eapply keeps_guardedCreate; apply _
  | |- keeps (guardedDelete _ _ _) _ => eapply keeps_guardedDelete; apply _
  | |- keeps (mergedWith _ _ _ _) _ => eapply keeps_merged; apply _
  | |- keeps (getRow _ _ _) _ => eapply keeps_getRow; apply _
  | |- keeps (listRows _ _ _) _ => eapply keeps_listRows; apply _
  | |- keeps (updateRowIn _ _ _ _) _ => eapply keeps_update; [apply _..|by apply mayWrite_own]
  | |- keeps (putShadow _ _ _ _ _ _ _) _ => eapply keeps_putShadow; [apply _..|done|by intros ?]
  | |- keeps (putHealth _ _ _ _ _ _) _ =>
      eapply keeps_putHealth; [apply _..|intros ?; apply keeps_probeHealth || apply keeps_bounceHealth|done]
  | |- keeps (mapRows _ _) _ => apply keeps_mapRows; intros ?
  | |- keeps (overlayList _ _ _ _) _ => apply keeps_overlayList; intros ?
  | |- keeps (tcall _ (λ _, ProbeMailboxUpdateHealth _ _ _)) _ => apply keeps_probeHealth
  | |- keeps (tcall _ (λ _, BounceMailboxUpdateHealth _ _ _)) _ => apply keeps_bounceHealth
  | |- keeps (tcall _ ListEnabled) _ => apply keeps_leavesConfig, ListEnabled_leavesConfig
  | |- keeps (tcall _ _) _ => apply keeps_leavesConfig, settings_leaveConfig
  | |- keeps (if negb ?b then _ else _) _ => destruct b eqn:?; cbn [negb]
  | |- keeps (if ?b then _ else _) _ => destruct b eqn:?
  | |- keeps (match ?x with _ => _ end) _ => destruct x eqn:?
  end.

Ltac unfold_requests :=
  unfold platformTransports_Create, platformTransports_Get, platformTransports_Update, platformTransports_Delete,
    platformTransports_List, platformTransports_writeShadow, platformTransports_merged,
    platformSenders_Create, platformSenders_Get, platformSenders_Update, platformSenders_Delete,
    platformSenders_List, platformSenders_view,
    platformDomains_Create, platformDomains_Get, platformDomains_Update, platformDomains_Delete,
    platformDomains_List, platformDomains_merged,
    platformProbeMailboxes_Create, platformProbeMailboxes_Get, platformProbeMailboxes_Update,
    platformProbeMailboxes_Delete, platformProbeMailboxes_List, platformProbeMailboxes_UpdateHealth,
    platformProbeMailboxes_merged,
    platformBounceMailboxes_Create, platformBounceMailboxes_Get, platformBounceMailboxes_Update,
    platformBounceMailboxes_Delete, platformBounceMailboxes_List, platformBounceMailboxes_ListEnabled,
    platformBounceMailboxes_UpdateHealth, platformBounceMailboxes_merged,
    platformSettings_Get, platformSettings_Create, platformSettings_Update.

(** Whatever the request and the store, every call keeps the invariant. *)
Lemma answerTo_keeps o st req : keepsAll (answerTo o st req).
Proof.
  destruct req; cbn [answerTo];
    unfold_requests;
    repeat keeps_step.
Qed.

Lemma serve_keeps o t req : keepsAll (serve o t req).
Proof.
  unfold serve, overlayForTenant. destruct (vp_err o); [done|].
  apply keeps_let; [|intros st; apply answerTo_keeps].
  apply keeps_let; [|done]. apply (keeps_mono _ _ _ (keeps_forTenant t)). done.
Qed.

(** *** Concurrent requests

    Any number of requests of any tenants in flight, each at its next call,
    served by processes with any catalogs;
    calls of the other repositories, which the overlay hands through, and the
    end of the process run in between. *)
Inductive overlayStep : list (progOn Provider answer) * Provider →
    list (progOn Provider answer) * Provider → Prop :=
  | ostep_request o t req ps s : overlayStep (ps, s) (ps ++ [serve o t req], s)
  | ostep_call i B (op : Env → M Provider B) k env ps s :
      ps !! i = Some (Call op k) → mintsNoPlatformID env →
      overlayStep (ps, s) (<[i := k (op env s).1]> ps, (op env s).2)
  | ostep_poll i k b ps s : ps !! i = Some (Poll k) → overlayStep (ps, s) (<[i := k b]> ps, s)
  | ostep_other t A (op : Env → M tenantData A) clock newID ps s :
      leavesConfig op → overlayStep (ps, s) (ps, (onStore t clock newID op s).2)
  | ostep_forTenant t ps s : overlayStep (ps, s) (ps, (ForTenant t s).2)
  | ostep_close ps s : overlayStep (ps, s) (ps, (Close s).2).

(** Requests in flight are safe, and the tables hold no configuration. *)
Definition overlayOk (c : list (progOn Provider answer) * Provider) : Prop :=
  (∀ i p, c.1 !! i = Some p → keepsAll p) ∧ providerClean c.2.

Lemma overlayStep_ok c c' : overlayOk c → overlayStep c c' → overlayOk c'.
Proof.
  intros [Hps Hs] Hst. destruct Hst as [o t req ps s|i B op k env ps s Hi He|i k b ps s Hi|t A op clock newID ps s Hop|t ps s|ps s];
    cbn in *; split; cbn; try done.
  - intros i p [Hp|[_ Hp]]%lookup_app_Some; [by eapply Hps|].
    apply list_lookup_singleton_Some in Hp as [_ <-]. apply serve_keeps.
  - intros j p [[<- [<- _]]|[_ Hp]]%list_lookup_insert_Some; [|by eapply Hps].
    by apply (Hps i _ Hi env s He Hs).
  - by apply (Hps i _ Hi env s He Hs).
  - intros j p [[<- [<- _]]|[_ Hp]]%list_lookup_insert_Some; [|by eapply Hps]. apply (Hps i _ Hi).
  - unfold onStore. destruct (pv_tenants s !! t) as [td|] eqn:Ht; [|done].
    set (env := mkEnv _ _ _ _). destruct (Hop env td) as (E1&E2&E3&E4&E5). destruct (op env td) as [r td'].
    apply providerClean_set; [done|]. destruct (Hs t td Ht). cbn in *. by split; rewrite ?E1, ?E2, ?E3, ?E4, ?E5.
  - unfold ForTenant, pchecked. destruct (pv_closed s); [done|]. destruct (pv_tenants s !! t); [done|].
    apply providerClean_set; [done|apply newTenantData_clean].
Qed.

(** C9 (store/overlay): a shared relay's host and password are in no
    database.  In every state reachable from an empty provider by concurrent
    requests of all tenants (every method of the overlaid aggregates, with any
    arguments and under any catalogs, as deploys change it) interleaved call by call with calls of the other repositories,
    a row with a virtual ID exists only in the system tenant's tables and has
    every configuration column empty. *)
Theorem platform_config_never_stored ps s :
  rtc overlayStep ([], newProvider) (ps, s) →
  ∀ t td, pv_tenants s !! t = Some td →
    tableClean transportBlank t (transports td) ∧ tableClean senderBlank t (senders td) ∧
    tableClean domainBlank t (domains td) ∧ tableClean probeBlank t (probeMailboxes td) ∧
    tableClean bounceBlank t (bounceMailboxes td).
Proof.
  intros Hr. assert (Hok : overlayOk (ps, s)).
  { assert (H0 : overlayOk ([], newProvider)) by (by split).
    remember (ps, s) as c eqn:Hc. clear Hc. induction Hr as [c|c1 c2 c3 Hst _ IH]; [done|].
    apply IH. by eapply overlayStep_ok. }
  intros t td Ht. destruct Hok as [_ Hok]. by destruct (Hok t td Ht).
Qed.

(** A request run alone is such a sequence of steps. *)
Lemma run_overlaySteps env (p : progOn Provider answer) s :
  mintsNoPlatformID env → rtc overlayStep ([p], s) ([Done (run env p s).1], (run env p s).2).
Proof.
  intros He. revert s. induction p as [r|B op k IH|k IH]; intros s; cbn [run]; [done| |].
  - specialize (IH (op env s).1 (op env s).2). destruct (op env s) as [r s'] eqn:Hop. cbn in IH.
    eapply rtc_l; [|exact IH].
    pose proof (ostep_call 0 B op k env [Call op k] s eq_refl He) as Hst. by rewrite Hop in Hst.
  - eapply rtc_l; [apply (ostep_poll 0 k false); done|apply IH].
Qed.

(** ** Isolation of the tenants *)

(** The same to a store of [t]. *)
Definition agree (t : string) (s1 s2 : Provider) : Prop :=
  pv_closed s1 = pv_closed s2 ∧ pv_tenants s1 !! t = pv_tenants s2 !! t.

(** [p] sees nothing but the data of [t] and changes nothing else. *)
Definition confined {A} (t : string) (p : progOn Provider A) : Prop := ∀ env s,
  (∀ s', agree t s s' →
     (run env p s').1 = (run env p s).1 ∧ agree t (run env p s).2 (run env p s').2) ∧
  (∀ t', t' ≠ t → pv_tenants (run env p s).2 !! t' = pv_tenants s !! t').

Lemma confined_handle {A B} t (p : progOn Provider A) (k : error + A → progOn Provider B) :
  confined t p → (∀ r, confined t (k r)) → confined t (handle p k).
Proof.
  intros Hp Hk env s. destruct (Hp env s) as [Hp1 Hp2]. split.
  - intros s' Ha. destruct (Hp1 s' Ha) as [Hr Ha']. rewrite !run_handle.
    destruct (run env p s) as [r s1], (run env p s') as [r' s1']. cbn in *. subst r'.
    by apply (Hk r env s1).
  - intros t' Ht'. rewrite run_handle. specialize (Hp2 t' Ht'). destruct (run env p s) as [r s1]. cbn in *.
    rewrite <- Hp2. by apply (Hk r env s1).
Qed.

Lemma confined_done {A} t (r : error + A) : confined t (Done r).
Proof. intros env s. by split. Qed.

Lemma confined_let {A B} t (p : progOn Provider A) (k : A → progOn Provider B) :
  confined t p → (∀ a, confined t (k a)) → confined t (pbind p k).
Proof. intros Hp Hk. apply confined_handle; [done|]. intros [e|a]; [apply confined_done|apply Hk]. Qed.

Lemma confined_tcall {A} t (op : Env → M tenantData A) : confined t (tcall t op).
Proof.
  intros env s. unfold tcall. cbn [inTenant call run]. unfold onStore. split.
  - intros s' [Hc Ht]. rewrite <- Ht, <- Hc. destruct (pv_tenants s !! t) as [td|] eqn:E; cbn.
    + destruct (op _ td) as [r td']. cbn. split; [done|]. split; cbn; [done|]. by rewrite !lookup_insert_eq.
    + split; [done|]. split; [done|]. by rewrite E.
  - intros t' Hne. destruct (pv_tenants s !! t) as [td|]; cbn; [|done].
    destruct (op _ td) as [r td']. cbn. by rewrite lookup_insert_ne by done.
Qed.

Lemma confined_forTenant t : confined t (call (λ _, ForTenant t)).
Proof.
  intros env s. rewrite run_call. unfold ForTenant, pchecked. split.
  - intros s' Hst. rewrite run_call. pose proof Hst as [Hc Ht]. rewrite <- Ht, <- Hc.
    destruct (pv_closed s); cbn; [done|]. destruct (pv_tenants s !! t) eqn:E; cbn; [done|].
    split; [done|]. split; [exact (proj1 Hst)|]. cbn. by rewrite !lookup_insert_eq.
  - intros t' Hne. destruct (pv_closed s); [done|]. destruct (pv_tenants s !! t); cbn; [done|].
    by rewrite lookup_insert_ne by done.
Qed.

Lemma confined_mapRows {T} t (f : T → progOn Provider T) vs :
  (∀ v, confined t (f v)) → confined t (mapRows f vs).
Proof.
  intros Hf. induction vs as [|v vs IH]; cbn [mapRows]; [apply confined_done|].
  apply confined_let; [apply Hf|]. intros x. apply confined_let; [done|]. intros xs. apply confined_done.
Qed.

Lemma confined_overlayList {T} t virt (idOf : T → string) list_ p :
  (∀ pg, confined t (list_ pg)) → confined t (overlayList virt idOf list_ p).
Proof.
  intros Hl. assert (Hb : ∀ pg, confined t (backing idOf list_ pg)).
  { intros pg. apply confined_let; [done|]. intros r. apply confined_done. }
  assert (Hv : ∀ limit n, confined t (virtualPage virt idOf list_ limit n)).
  { intros limit n. unfold virtualPage. destruct (_ =? _); [apply confined_done|].
    apply confined_let; [done|]. intros r. apply confined_done. }
  unfold overlayList. destruct (strEq _ _); [apply Hv|]. destruct (strEq _ _); [apply Hb|].
  destruct (String.prefix _ _); [|apply Hb]. destruct (Atoi _) as [n|]; [|apply confined_done].
  destruct (n <? 0); [apply confined_done|apply Hv].
Qed.

Ltac confined_step :=
  match goal with
  | |- confined _ (pret _) => apply confined_done
  | |- confined _ (fail _) => apply confined_done
  | |- confined _ (andAnswer _ _) => apply confined_let; [|intros ?; apply confined_done]
  | |- confined _ (pbind _ _) => apply confined_let; [|intros ?]
  | |- confined _ (tcall _ _) => apply confined_tcall
  | |- confined _ (getRow _ _ _) => apply confined_tcall
  | |- confined _ (listRows _ _ _) => apply confined_tcall
  | |- confined _ (updateRowIn _ _ _ _) => apply confined_tcall
  | |- confined _ (createRowIn _ _ _ _) => apply confined_tcall
  | |- confined _ (deleteRow _ _ _) => apply confined_tcall
  | |- confined _ (guardedCreate _ _ _ _) => unfold guardedCreate
  | |- confined _ (guardedDelete _ _ _) => unfold guardedDelete
  | |- confined _ (mapRows _ _) => apply confined_mapRows; intros ?
  | |- confined _ (overlayList _ _ _ _) => apply confined_overlayList; intros ?
  | |- confined _ (if ?b then _ else _) => destruct b
  | |- confined _ (match ?x with _ => _ end) => destruct x
  end.

(** A store of a tenant other than the system's makes calls on that tenant's
    data only. *)
Lemma answerTo_confined o t req : confined t (answerTo o (mkPlatformStore t false) req).
Proof.
  destruct req; cbn [answerTo];
    unfold_requests;
    cbn [st_system st_tenantID negb orb]; repeat confined_step.
Qed.

Lemma serve_confined o t req : t ≠ SystemTenantID → confined t (serve o t req).
Proof.
  intros Ht. unfold serve, overlayForTenant. destruct (vp_err o); [apply confined_done|].
  intros env s. pose proof (confined_forTenant t env s) as [Hf1 Hf2].
  assert (Hrun : ∀ s, run env (let? st := let? t0 := call (λ _, ForTenant t) in
                    pret (mkPlatformStore t0 (strEq t SystemTenantID)) in answerTo o st req) s =
      run env (let? _ := call (λ _, ForTenant t) in answerTo o (mkPlatformStore t false) req) s).
  { intros s0. rewrite !run_pbind, !run_call. unfold ForTenant, pchecked. destruct (pv_closed s0); [done|].
    unfold strEq. rewrite bool_decide_eq_false_2 by done. by destruct (pv_tenants s0 !! t). }
  rewrite Hrun. split; [intros s'; rewrite Hrun|]; apply confined_let;
    (apply confined_forTenant || (intros _; apply answerTo_confined)).
Qed.

Lemma run_serve_ok o t req env s :
  pv_closed s = false → vp_err o = None →
  ∃ s1, run env (serve o t req) s = run env (answerTo o (mkPlatformStore t (strEq t SystemTenantID)) req) s1.
Proof.
  intros Hc He. unfold serve, overlayForTenant. rewrite He, !run_pbind, run_call.
  unfold ForTenant, pchecked. rewrite Hc. destruct (pv_tenants s !! t); cbv beta iota; by eexists.
Qed.


(** ** Configuration writes are refused *)

(** The requests that would change configuration. *)
Definition configWrite (o : platformProvider) (st : platformStore) (req : request) : bool :=
  match req with
  | TransportCreate v => IsPlatformID (tr_ID v)
  | TransportUpdate v =>
      IsPlatformID (tr_ID v) &&
      negb (st_system st && match platformTransports_virtual o (tr_ID v) with
                            | Some w => sameTransportConfig w v | None => false end)
  | TransportDelete id => IsPlatformID id
  | SenderCreate v => IsPlatformID (s_ID v)
  | SenderUpdate v =>
      IsPlatformID (s_ID v) &&
      negb (st_system st && match platformSenders_virtual o (s_ID v) with
                            | Some w => sameSenderConfig w v | None => false end)
  | SenderDelete id => IsPlatformID id
  | DomainCreate v => IsPlatformID (sd_ID v)
  | DomainUpdate v =>
      IsPlatformID (sd_ID v) &&
      negb (st_system st && match platformDomains_virtual o (sd_ID v) with
                            | Some w => sameDomainConfig w v | None => false end)
  | DomainDelete id => IsPlatformID id
  | ProbeCreate v => IsPlatformID (pm_ID v)
  | ProbeUpdate v => IsPlatformID (pm_ID v)
  | ProbeDelete id => IsPlatformID id
  | ProbeHealth id _ =>
      IsPlatformID id &&
      negb (st_system st && match platformProbeMailboxes_virtual o id with Some _ => true | None => false end)
  | BounceCreate v => IsPlatformID (bm_ID v)
  | BounceUpdate v => IsPlatformID (bm_ID v)
  | BounceDelete id => IsPlatformID id
  | BounceHealth id _ =>
      IsPlatformID id &&
      negb (st_system st && match platformBounceMailboxes_virtual o id with Some _ => true | None => false end)
  | _ => false
  end.

(** [p] never answers [ErrReadOnly]. *)
Definition never {A} (p : progOn Provider A) : Prop := ∀ env s, (run env p s).1 ≠ inl ErrReadOnly.

Lemma never_handle {A B} (p : progOn Provider A) (k : error + A → progOn Provider B) :
  never p → (∀ r, r ≠ inl ErrReadOnly → never (k r)) → never (handle p k).
Proof.
  intros Hp Hk env s. rewrite run_handle. specialize (Hp env s). destruct (run env p s) as [r s']. by apply Hk.
Qed.

Lemma never_let {A B} (p : progOn Provider A) (k : A → progOn Provider B) :
  never p → (∀ a, never (k a)) → never (pbind p k).
Proof. intros Hp Hk. apply never_handle; [done|]. intros [e|a] Hr; [|apply Hk]. intros env s. cbn. congruence. Qed.

Lemma never_pret {A} (a : A) : never (pret a).
Proof. done. Qed.

Lemma never_fail {A} e : e ≠ ErrReadOnly → never (fail e : progOn Provider A).
Proof. intros He env s. cbn. congruence. Qed.

Lemma never_tcall {A} t (op : Env → M tenantData A) :
  (∀ env td, (op env td).1 ≠ inl ErrReadOnly) → never (tcall t op).
Proof.
  intros Hop env s. unfold tcall. cbn [inTenant call run]. unfold onStore.
  destruct (pv_tenants s !! t) as [td|]; [|done].
  set (e := mkEnv _ _ _ _). specialize (Hop e td). by destruct (op e td).
Qed.

Lemma never_forTenant t : never (call (λ _, ForTenant t)).
Proof.
  intros env s. rewrite run_call. unfold ForTenant, pchecked. destruct (pv_closed s); [done|].
  by destruct (pv_tenants s !! t).
Qed.

(** The calls of the reference store never refuse as read-only. *)
Ltac never_op := intros env td; unfold zoom, zoomWith, Get, Create, Update, Delete, List, listWhere,
  ProbeMailboxUpdateHealth, BounceMailboxUpdateHealth, ListEnabled, SettingsGet, SettingsCreate, SettingsUpdate,
  checked, throw; repeat case_match; simplify_eq/=; done.

Section never_rows.
Context {T : Type} (tab : lens tenantData (gmap string T)) (m : meta T).

Lemma never_getRow t id : never (getRow tab t id).
Proof. apply never_tcall. never_op. Qed.
Lemma never_createRow t v : never (createRowIn tab m t v).
Proof. apply never_tcall. never_op. Qed.
Lemma never_updateRow t v : never (updateRowIn tab m t v).
Proof. apply never_tcall. never_op. Qed.
Lemma never_deleteRow t id : never (deleteRow tab t id).
Proof. apply never_tcall. never_op. Qed.
Lemma never_listRows t p : never (listRows tab t p).
Proof. apply never_tcall. never_op. Qed.

Lemma never_merged over v : never (mergedWith tab m over v).
Proof.
  apply never_let; [apply never_forTenant|]. intros sys. apply never_handle; [apply never_getRow|].
  intros [e|x] Hr; [|apply never_pret]. destruct (errIs _ _); [apply never_pret|]. apply never_fail. congruence.
Qed.

Lemma never_mapRows (f : T → progOn Provider T) vs : (∀ v, never (f v)) → never (mapRows f vs).
Proof.
  intros Hf. induction vs as [|v vs IH]; cbn [mapRows]; [apply never_pret|].
  apply never_let; [apply Hf|]. intros x. apply never_let; [done|]. intros xs. apply never_pret.
Qed.

Lemma never_overlayList virt (idOf : T → string) list_ p :
  (∀ pg, never (list_ pg)) → never (overlayList virt idOf list_ p).
Proof.
  intros Hl. assert (Hb : ∀ pg, never (backing idOf list_ pg)).
  { intros pg. apply never_let; [done|]. intros r. apply never_pret. }
  assert (Hv : ∀ limit n, never (virtualPage virt idOf list_ limit n)).
  { intros limit n. unfold virtualPage. destruct (_ =? _); [apply never_pret|].
    apply never_let; [done|]. intros r. apply never_pret. }
  unfold overlayList. destruct (strEq _ _); [apply Hv|]. destruct (strEq _ _); [apply Hb|].
  destruct (String.prefix _ _); [|apply Hb]. destruct (Atoi _) as [n|]; [|by apply never_fail].
  destruct (n <? 0); [by apply never_fail|apply Hv].
Qed.

Lemma never_putShadow ver blank0 (apply_ : T → T) id want : never (putShadow tab m ver blank0 apply_ id want).
Proof.
  apply never_let; [apply never_forTenant|]. intros sys.
  assert (Hu : ∀ cur, never (let? _ := updateRowIn tab m sys (lset ver want (apply_ cur)) in pret tt)).
  { intros cur. apply never_let; [apply never_updateRow|]. intros ?. apply never_pret. }
  apply never_handle; [apply never_getRow|]. intros [e|cur] Hr; [|apply Hu].
  destruct (errIs _ _); [|apply never_fail; congruence].
  apply never_handle; [apply never_createRow|]. intros [e'|] Hr'; [|apply never_pret].
  destruct (negb _); [apply never_fail; congruence|]. apply never_let; [apply never_getRow|apply Hu].
Qed.

Lemma never_putHealth (upd : Env → string → MailboxHealth → M tenantData unit) shadow id h :
  (∀ t, never (tcall t (λ env, upd env id h))) → never (putHealth tab m upd shadow id h).
Proof.
  intros Hu. apply never_let; [apply never_forTenant|]. intros sys. apply never_handle; [apply Hu|].
  intros [e|] Hr; [|apply never_pret]. destruct (negb _); [apply never_fail; congruence|].
  apply never_handle; [apply never_createRow|]. intros [e'|] Hr'; [|apply never_pret].
  destruct (errIs _ _); [apply Hu|apply never_fail; congruence].
Qed.
End never_rows.

Ltac never_step :=
  match goal with
  | |- never (pret _) => apply never_pret
  | |- never (fail _) => by apply never_fail
  | |- never (pbind _ _) => apply never_let; [|intros ?]
  | |- never (mergedWith _ _ _ _) => apply never_merged
  | |- never (getRow _ _ _) => apply never_getRow
  | |- never (listRows _ _ _) => apply never_listRows
  | |- never (updateRowIn _ _ _ _) => apply never_updateRow
  | |- never (createRowIn _ _ _ _) => apply never_createRow
  | |- never (deleteRow _ _ _) => apply never_deleteRow
  | |- never (putShadow _ _ _ _ _ _ _) => apply never_putShadow
  | |- never (putHealth _ _ _ _ _ _) => apply never_putHealth; intros ?
  | |- never (mapRows _ _) => apply never_mapRows; intros ?
  | |- never (overlayList _ _ _ _) => apply never_overlayList; intros ?
  | |- never (tcall _ _) => apply never_tcall; never_op
  | |- never (if ?b then _ else _) => destruct b
  | |- never (match ?x with _ => _ end) => destruct x
  end.

Lemma configWrite_refused o st req env s :
  configWrite o st req = true → run env (answerTo o st req) s = (inl ErrReadOnly, s).
Proof.
  destruct req; cbn [configWrite answerTo]; try done; unfold_requests; unfold guardedCreate, guardedDelete, andAnswer;
    cbn [lget m_id field transportMeta senderMeta domainMeta probeMailboxMeta bounceMailboxMeta]; intros H;
    try (rewrite H; reflexivity).
  all: apply andb_true_iff in H as [-> H]; cbn [negb].
  all: repeat match type of H with
       | context [match ?x with Some _ => _ | None => _ end] => destruct x
       | context [st_system ?st] => destruct (st_system st)
       end; cbn [negb andb orb] in *; try done; apply negb_true_iff in H; by rewrite H.
Qed.

Lemma other_never o st req : configWrite o st req = false → never (answerTo o st req).
Proof.
  intros H. destruct req; cbn [configWrite answerTo] in *; unfold_requests;
    (apply never_let; [|intros ?; apply never_pret]); unfold guardedCreate, guardedDelete;
    cbn [lget m_id field transportMeta senderMeta domainMeta probeMailboxMeta bounceMailboxMeta] in *;
    try (rewrite H); try (by repeat never_step).
  all: destruct (IsPlatformID _); cbn [negb andb] in *; [|by repeat never_step].
  all: repeat match type of H with
       | context [match ?x with Some _ => _ | None => _ end] => destruct x
       | context [st_system ?st] => destruct (st_system st)
       end; cbn [negb andb orb] in *; try done; try (apply negb_false_iff in H; rewrite H); cbn [negb];
       by repeat never_step.
Qed.

(** C11 (store/overlay): exactly the configuration writes are refused.  A
    request is answered with ErrReadOnly if and only if it would create,
    change or delete the configuration of a platform resource (a [Create] or
    [Delete] naming a virtual ID, an [Update] of one that is not, in the system
    tenant, the catalog's configuration with new state, a mailbox health from
    a normal tenant or of a mailbox that is not in the catalog); and a refused
    request changes nothing. *)
Theorem platform_writes_refused o st req env s :
  ((run env (answerTo o st req) s).1 = inl ErrReadOnly ↔ configWrite o st req = true) ∧
  (configWrite o st req = true → run env (answerTo o st req) s = (inl ErrReadOnly, s)).
Proof.
  split; [|apply configWrite_refused]. split; [|intros H; by rewrite configWrite_refused].
  intros Hr. destruct (configWrite o st req) eqn:Hcw; [done|]. by destruct (other_never o st req Hcw env s).
Qed.

(** ** Concrete runs *)

Lemma overlayEnv_mints : mintsNoPlatformID overlayEnv.
Proof. done. Qed.

(** After the system tenant opened the circuit of the shared relay, its shadow
    row is stored, and stored blank. *)
Lemma platform_config_never_stored_witness :
  ∃ v, transports (default newTenantData (pv_tenants (run overlayEnv
         (serve sampleOverlay SystemTenantID (TransportUpdate openedRelay)) newProvider).2 !! SystemTenantID))
         !! "sys:relay" = Some v ∧ tr_StatusReason v = "auth" ∧ tr_Host v = "" ∧ tr_Password v = "".
Proof.
  set (p := serve sampleOverlay SystemTenantID (TransportUpdate openedRelay)).
  destruct (pv_tenants (run overlayEnv p newProvider).2 !! SystemTenantID) as [td|] eqn:Htd;
    [|vm_compute in Htd; done].
  destruct (platform_config_never_stored [Done (run overlayEnv p newProvider).1] (run overlayEnv p newProvider).2)
    with (t := SystemTenantID) (td := td) as (Hc&_).
  { eapply rtc_l; [apply (ostep_request sampleOverlay SystemTenantID (TransportUpdate openedRelay))|].
    apply run_overlaySteps, overlayEnv_mints. }
  { exact Htd. }
  cbn [default]. destruct (transports td !! "sys:relay") as [v|] eqn:Hv.
  - exists v. destruct (Hc "sys:relay" v Hv eq_refl) as (_&_&Hh&_&_&_&Hpw&_).
    split; [exact Hv|]. split; [|split; [exact Hh|exact Hpw]]. vm_compute in Htd.
    injection Htd as <-. vm_compute in Hv. injection Hv as <-. reflexivity.
  - exfalso. vm_compute in Htd. injection Htd as <-. vm_compute in Hv. done.
Defined.


Lemma platform_writes_refused_witness :
  run overlayEnv (answerTo sampleOverlay (mkPlatformStore "acme" false) (SenderDelete "sys:noreply")) newProvider =
    (inl ErrReadOnly, newProvider).
Proof.
  destruct (platform_writes_refused sampleOverlay (mkPlatformStore "acme" false) (SenderDelete "sys:noreply")
    overlayEnv newProvider) as [_ H]. apply H. reflexivity.
Defined.
