(* ===== verification/OverlayState.v ===== *)
(** * State, listings and settings through the overlay

    What the overlay's programs return on an open provider: the state written
    to a platform resource is read back over its configuration, following the
    cursors of a listing yields every row once, the tenant settings keep only
    what the tenant set, and what a validated catalog refers to resolves. *)

From Stdlib Require Import DecimalString DecimalN DecimalPos.
From S2P Require Import Prelude Enums Model MemTable MemData DeliveryRepo DeliveryQueue Repos Provider Prog Settings Classify Codec Tokens Email Platform Overlay.

(** ** Runs on an open provider *)

(** The provider after its first [ForTenant t]. *)
Definition opened (t : string) (s : Provider) : Provider :=
  match pv_tenants s !! t with
  | Some _ => s
  | None => s <| pv_tenants := <[t := newTenantData]> (pv_tenants s) |>
  end.

Definition dataOf (t : string) (s : Provider) : tenantData := default newTenantData (pv_tenants s !! t).

Lemma opened_closed t s : pv_closed (opened t s) = pv_closed s.
Proof. unfold opened. by destruct (pv_tenants s !! t). Qed.

Lemma opened_data t s : pv_tenants (opened t s) !! t = Some (dataOf t s).
Proof.
  unfold opened, dataOf. destruct (pv_tenants s !! t) eqn:E; cbn; [done|]. by rewrite lookup_insert_eq.
Qed.

Lemma opened_other t t' s : t' ≠ t → pv_tenants (opened t s) !! t' = pv_tenants s !! t'.
Proof. intros Hne. unfold opened. destruct (pv_tenants s !! t); [done|]. cbn. by rewrite lookup_insert_ne by done. Qed.

Lemma run_forTenant_open env t s : pv_closed s = false → run env (call (λ _, ForTenant t)) s = (inr t, opened t s).
Proof.
  intros Hc. rewrite run_call. unfold ForTenant, pchecked, opened. rewrite Hc. by destruct (pv_tenants s !! t).
Qed.

Lemma run_let_forTenant {A} env t (k : string → progOn Provider A) s :
  pv_closed s = false →
  run env (let? t' := call (λ _, ForTenant t) in k t') s = run env (k t) (opened t s).
Proof. intros Hc. rewrite run_pbind, run_forTenant_open by done. done. Qed.

(** The environment a call of a store of [t] runs in. *)
Definition storeEnv (env : Env) (t : string) : Env := mkEnv false (e_clock env) t (e_newID env).

Definition setData (t : string) (td : tenantData) (s : Provider) : Provider :=
  s <| pv_tenants := <[t := td]> (pv_tenants s) |>.

Lemma setData_id t td s : pv_tenants s !! t = Some td → setData t td s = s.
Proof. intros H. unfold setData. destruct s as [c ts].
  change (mkProvider c (<[t := td]> ts) = mkProvider c ts). f_equal. by apply insert_id.
Qed.

Lemma run_tcall_open {A} env t (op : Env → M tenantData A) s td :
  pv_closed s = false → pv_tenants s !! t = Some td →
  run env (tcall t op) s = let '(r, td') := op (storeEnv env t) td in (r, setData t td' s).
Proof.
  intros Hc Ht. unfold tcall. cbn [inTenant call run]. unfold onStore. rewrite Ht, Hc. unfold storeEnv.
  by destruct (op _ td).
Qed.

Class LensOk {R F} (l : lens R F) : Prop := {
  lens_get_set x r : lget l (lset l x r) = x;
  lens_set_get r : lset l (lget l r) r = r;
}.

Ltac solve_lens := split; [done|by intros []].
#[export] Instance transports_lens : LensOk (field transports).
Proof. solve_lens. Qed.
#[export] Instance senders_lens : LensOk (field senders).
Proof. solve_lens. Qed.
#[export] Instance domains_lens : LensOk (field domains).
Proof. solve_lens. Qed.
#[export] Instance templates_lens : LensOk (field templates).
Proof. solve_lens. Qed.
#[export] Instance layouts_lens : LensOk (field layouts).
Proof. solve_lens. Qed.

Section rows.
Context {T : Type} (tab : lens tenantData (gmap string T)) (m : meta T) `{!LensOk tab, !MetaOk m}.
Context (env : Env) (t : string) (s : Provider) (td : tenantData).
Context (Hopen : pv_closed s = false) (Htd : pv_tenants s !! t = Some td).
Implicit Types (v : T) (id : string).

Lemma run_getRow id :
  run env (getRow tab t id) s = (match lget tab td !! id with Some v => inr v | None => inl ErrNotFound end, s).
Proof using Type*.
  unfold getRow. rewrite (run_tcall_open _ _ _ _ td) by done. unfold zoom, Get, checked. cbn [e_closed storeEnv].
  destruct (lget tab td !! id); rewrite lens_set_get, setData_id by done; done.
Qed.

Lemma run_listRows p :
  run env (listRows tab t p) s = (inr (paginate (lget tab td) p (λ _, true)), s).
Proof using Type*.
  unfold listRows. rewrite (run_tcall_open _ _ _ _ td) by done. unfold zoom, List, listWhere, checked. cbn [e_closed storeEnv].
  by rewrite lens_set_get, setData_id by done.
Qed.

(** A row [Create] files under a fresh ID, in a table without a unique key. *)
Lemma run_createRow v :
  m_key m = None → lget (m_id m) v ≠ "" → lget tab td !! lget (m_id m) v = None →
  run env (createRowIn tab m t v) s =
    let v' := createRow m (storeEnv env t) v in
    (inr v', setData t (lset tab (<[lget (m_id m) v := scrubbed m (truncateRow m v')]> (lget tab td)) td) s).
Proof using Type*.
  intros Hk Hne Hnone. unfold createRowIn. rewrite (run_tcall_open _ _ _ _ td) by done.
  unfold zoomWith, Create, checked, strEq. cbn [e_closed storeEnv].
  rewrite !(bool_decide_eq_false_2 (lget (m_id m) v = "")) by done. rewrite Hnone.
  rewrite bool_decide_eq_false_2 by (by intros []). unfold keyTaken. by rewrite Hk.
Qed.

Lemma run_updateRow ver cur v :
  m_key m = None → m_version m = Some ver → lget tab td !! lget (m_id m) v = Some cur →
  run env (updateRowIn tab m t v) s =
    if lget ver cur =? lget ver v then
      let v' := updateRow m (storeEnv env t) cur v in
      (inr v', setData t (lset tab (<[lget (m_id m) v := scrubbed m (truncateRow m v')]> (lget tab td)) td) s)
    else (inl ErrConflict, s).
Proof using Type*.
  intros Hk Hver Hcur. unfold updateRowIn. rewrite (run_tcall_open _ _ _ _ td) by done.
  unfold zoomWith, Update, checked. cbn [e_closed storeEnv]. rewrite Hcur, Hver.
  destruct (lget ver cur =? lget ver v); cbn [negb].
  - unfold keyTaken. rewrite Hk. unfold updateRow. rewrite Hver. done.
  - by rewrite lens_set_get, setData_id by done.
Qed.
End rows.

(** ** Shadow rows *)

Section shadow.
Context {T : Type} (tab : lens tenantData (gmap string T)) (m : meta T) `{!LensOk tab, !MetaOk m}.
Context (env : Env) (s : Provider) (Hopen : pv_closed s = false).
Let td : tenantData := dataOf SystemTenantID s.
Let senv : Env := storeEnv env SystemTenantID.

(** The provider with row [v] stored under [id] in the system tenant's table. *)
Definition storeShadow (id : string) (v : T) : Provider :=
  setData SystemTenantID (lset tab (<[id := scrubbed m (truncateRow m v)]> (lget tab td)) td)
    (opened SystemTenantID s).

Lemma storeShadow_row id v : lget tab (dataOf SystemTenantID (storeShadow id v)) !! id = Some (scrubbed m (truncateRow m v)).
Proof using Type*.
  unfold storeShadow, setData, dataOf. cbn. rewrite lookup_insert_eq. cbn. by rewrite lens_get_set, lookup_insert_eq.
Qed.

Lemma storeShadow_closed id v : pv_closed (storeShadow id v) = false.
Proof using Type*. unfold storeShadow, setData. cbn. by rewrite opened_closed. Qed.

Lemma storeShadow_other id v t' : t' ≠ SystemTenantID → pv_tenants (storeShadow id v) !! t' = pv_tenants s !! t'.
Proof using Type*. intros Hne. unfold storeShadow, setData. cbn. by rewrite lookup_insert_ne, opened_other by done. Qed.

Lemma run_mergedWith over v :
  run env (mergedWith tab m over v) s =
    (inr (match lget tab td !! lget (m_id m) v with Some shadow => over shadow v | None => v end),
     opened SystemTenantID s).
Proof using Type*.
  unfold mergedWith, shadowStore. rewrite run_let_forTenant by done. rewrite run_handle.
  rewrite (run_getRow tab m _ _ _ td) by (by rewrite ?opened_closed, ?opened_data).
  destruct (lget tab td !! _); [done|]. unfold errIs. by rewrite bool_decide_eq_true_2.
Qed.

Lemma run_putShadow ver blank0 apply_ id want :
  m_key m = None → m_version m = Some ver → id ≠ "" → (∀ row, lget (m_id m) (apply_ row) = id) →
  run env (putShadow tab m ver blank0 apply_ id want) s =
    match lget tab td !! id with
    | None => (inr tt, storeShadow id (createRow m senv (apply_ blank0)))
    | Some cur =>
        if lget ver cur =? want
        then (inr tt, storeShadow id (updateRow m senv cur (lset ver want (apply_ cur))))
        else (inl ErrConflict, opened SystemTenantID s)
    end.
Proof using Type*.
  intros Hk Hver Hne Hid. unfold putShadow, shadowStore. rewrite run_let_forTenant by done. cbv zeta.
  rewrite run_handle, (run_getRow tab m _ _ _ td) by (by rewrite ?opened_closed, ?opened_data).
  destruct (lget tab td !! id) as [cur|] eqn:Hcur.
  - rewrite run_pbind.
    rewrite (run_updateRow tab m env SystemTenantID _ td) with (ver := ver) (cur := cur)
      by (rewrite ?opened_closed, ?opened_data, ?(mo_id_version ver), ?Hid; done).
    rewrite (mo_ver_set ver) by done. destruct (_ =? _); [|done].
    rewrite (mo_id_version ver), Hid by done. done.
  - unfold errIs. rewrite bool_decide_eq_true_2 by done. rewrite run_handle.
    rewrite (run_createRow tab m env SystemTenantID _ td)
      by (rewrite ?opened_closed, ?opened_data, ?Hid; done).
    by rewrite Hid.
Qed.
End shadow.

(** The system tenant's store. *)
Definition systemStore : platformStore := mkPlatformStore SystemTenantID true.

(** Reading a shared transport over a stored shadow row. *)
Lemma transports_Get_stored o env s id v row :
  pv_closed s = false → IsPlatformID id = true → platformTransports_virtual o id = Some v →
  let shadow := scrubbed transportMeta (truncateRow transportMeta row) in
  (run env (platformTransports_Get o systemStore id) (storeShadow (field transports) transportMeta s id row)).1 =
    inr (v <| tr_Status := tr_Status shadow |> <| tr_StatusReason := tr_StatusReason shadow |>
           <| tr_StatusChangedAt := tr_StatusChangedAt shadow |> <| tr_StatusUntil := tr_StatusUntil shadow |>
           <| tr_Version := tr_Version shadow |> <| tr_UpdatedAt := tr_UpdatedAt shadow |>).
Proof.
  intros Hc Hid Hv. cbv zeta. unfold platformTransports_Get. rewrite Hid, Hv. cbn [negb st_system systemStore].
  apply findID_Some in Hv as [Hvid _]. unfold platformTransports_merged.
  rewrite (run_mergedWith (field transports) transportMeta) by (by apply (storeShadow_closed (field transports) transportMeta)).
  cbn [lget m_id field transportMeta fst]. rewrite Hvid.
  by rewrite (storeShadow_row (field transports) transportMeta).
Qed.

(** The circuit of a shared transport is written and read
    back.  An [Update] by the system tenant that carries the catalog's
    configuration stores the state, and a read returns the configuration with
    exactly that state (times to the millisecond) and the next version;
    no other tenant's data changes.  A writer that read an older version gets
    ErrConflict and nothing changes, so no state is lost. *)
Theorem shadow_state_roundtrip o env s v t :
  pv_closed s = false → IsPlatformID (tr_ID t) = true →
  platformTransports_virtual o (tr_ID t) = Some v → sameTransportConfig v t = true →
  match transports (dataOf SystemTenantID s) !! tr_ID t with
  | Some cur => tr_Version cur ≠ tr_Version t →
      run env (platformTransports_Update o systemStore t) s = (inl ErrConflict, s)
  | None => True
  end ∧
  (match transports (dataOf SystemTenantID s) !! tr_ID t with
   | Some cur => tr_Version cur = tr_Version t | None => True end →
   ∃ s', run env (platformTransports_Update o systemStore t) s = (inr t, s') ∧
     (∀ t', t' ≠ SystemTenantID → pv_tenants s' !! t' = pv_tenants s !! t') ∧
     (∀ env', (run env' (platformTransports_Get o systemStore (tr_ID t)) s').1 =
        inr (v <| tr_Status := tr_Status t |> <| tr_StatusReason := tr_StatusReason t |>
               <| tr_StatusChangedAt := TruncateTime (tr_StatusChangedAt t) |>
               <| tr_StatusUntil := tr_StatusUntil t |>
               <| tr_Version := match transports (dataOf SystemTenantID s) !! tr_ID t with
                                | Some cur => int64 (tr_Version cur + 1) | None => 1 end |>
               <| tr_UpdatedAt := TruncateTime (e_clock env) |>))).
Proof.
  intros Hc Hid Hv Hsame.
  assert (Hne : tr_ID t ≠ "") by (by intros He; rewrite He in Hid).
  assert (Hupd : ∀ r s', run env (platformTransports_writeShadow (mkTransportState (tr_Status t) (tr_StatusReason t)
      (tr_StatusChangedAt t) (tr_StatusUntil t) (tr_Version t)) (tr_ID t)) s = (r, s') →
    run env (platformTransports_Update o systemStore t) s = (match r with inl e => inl e | inr _ => inr t end, s')).
  { intros r s' Hr. unfold platformTransports_Update. rewrite Hid, Hv, Hsame. cbn [negb st_system systemStore].
    rewrite run_pbind, Hr. by destruct r. }
  unfold platformTransports_writeShadow in Hupd.
  rewrite (run_putShadow (field transports) transportMeta) in Hupd by done. cbn [lget field ts_version] in Hupd.
  destruct (transports (dataOf SystemTenantID s) !! tr_ID t) as [cur|] eqn:Hcur.
  - split.
    + intros Hver. rewrite (proj2 (Z.eqb_neq _ _) Hver) in Hupd. rewrite (Hupd _ _ eq_refl).
      unfold opened. unfold dataOf in Hcur. by destruct (pv_tenants s !! SystemTenantID).
    + intros Hver. rewrite (proj2 (Z.eqb_eq _ _) Hver) in Hupd. eexists. split; [exact (Hupd _ _ eq_refl)|].
      split; [intros t'; by apply storeShadow_other; [apply _..|]|]. intros env'.
      rewrite (transports_Get_stored o _ _ _ v) by done. by rewrite <- (TruncateTime_idemp (e_clock env)).
  - split; [done|]. intros _. eexists. split; [exact (Hupd _ _ eq_refl)|].
    split; [intros t'; by apply storeShadow_other; [apply _..|]|]. intros env'.
    rewrite (transports_Get_stored o _ _ _ v) by done. by rewrite <- (TruncateTime_idemp (e_clock env)).
Qed.

(** ** Following the cursors of a listing *)

(** A number does not start like another cursor. *)
Lemma Itoa_not_done n : platformCursorPrefix +:+ Itoa n ≠ platformCursorDone.
Proof.
  unfold platformCursorDone, platformCursorPrefix, Itoa, decimal. destruct (N.to_uint (N.of_nat n)); by intros [=].
Qed.

(** A cursor of the backing list. *)
Definition backingCursor (c : string) : Prop := c ≠ "" ∧ String.prefix platformCursorPrefix c = false.

Section cursors.
Context {T : Type} (virt : list T) (idOf : T → string) (list_ : Page → progOn Provider (Result T)).

Lemma overlayList_start limit :
  overlayList virt idOf list_ (mkPage limit "") =
    virtualPage virt idOf list_ (p_Limit (Normalize (mkPage limit ""))) 0.
Proof. unfold overlayList. rewrite Normalize_cursor. done. Qed.

Lemma overlayList_done limit :
  overlayList virt idOf list_ (mkPage limit platformCursorDone) =
    backing idOf list_ (mkPage (p_Limit (Normalize (mkPage limit platformCursorDone))) "").
Proof. unfold overlayList. rewrite Normalize_cursor. done. Qed.

Lemma overlayList_virtual limit n :
  Z.of_nat n < 2 ^ 63 →
  overlayList virt idOf list_ (mkPage limit (platformCursorPrefix +:+ Itoa n)) =
    virtualPage virt idOf list_ (p_Limit (Normalize (mkPage limit (platformCursorPrefix +:+ Itoa n)))) (Z.of_nat n).
Proof.
  intros Hn. unfold overlayList. rewrite Normalize_cursor. cbn [p_Cursor]. unfold strEq.
  rewrite bool_decide_eq_false_2 by done. rewrite bool_decide_eq_false_2 by apply Itoa_not_done.
  rewrite prefix_app. unfold TrimPrefix. rewrite prefix_app, strDrop_app, Itoa_Atoi by done.
  by rewrite (proj2 (Z.ltb_ge _ _)) by lia.
Qed.

Lemma overlayList_backing limit c :
  backingCursor c →
  overlayList virt idOf list_ (mkPage limit c) = backing idOf list_ (Normalize (mkPage limit c)).
Proof.
  intros [Hne Hp]. unfold overlayList. rewrite Normalize_cursor. cbn [p_Cursor]. unfold strEq.
  rewrite bool_decide_eq_false_2 by done. rewrite bool_decide_eq_false_2, Hp; [done|]. intros ->. done.
Qed.
End cursors.

(** The caller's loop: pages of [limit] until [NextCursor] is empty. *)
Fixpoint listAll {T} (fuel : nat) (list_ : Page → progOn Provider (Result T)) (limit : Z) (cursor : string)
    : progOn Provider (list T) :=
  match fuel with
  | O => fail errFuel
  | S fuel =>
      let? r := list_ (mkPage limit cursor) in
      if strEq (res_NextCursor r) "" then pret (res_Items r)
      else (let? l := listAll fuel list_ limit (res_NextCursor r) in pret (res_Items r ++ l))
  end.

Section walk.
Context {T : Type} (tab : lens tenantData (gmap string T)) (m : meta T) `{!LensOk tab, !MetaOk m}.
Context (env : Env) (t : string) (s : Provider) (td : tenantData) (virt : list T) (limit : Z).
Context (Hopen : pv_closed s = false) (Htd : pv_tenants s !! t = Some td).
Let idOf : T → string := lget (m_id m).
Let rows : gmap string T := lget tab td.
Context (Hkeys : ∀ id, id ∈ dom rows → id ≠ "" ∧ String.prefix platformCursorPrefix id = false).
Context (Hvirt : len virt < 2 ^ 63).

Let ids (c : string) : list string := pageIDs rows (mkPage limit c) (λ _, true).
(** The entities of the backing list after cursor [c]. *)
Let own (c : string) : list T := filter (λ v, IsPlatformID (idOf v) = false) (omap (λ id, rows !! id) (ids c)).
Let listing : Page → progOn Provider (Result T) := overlayList virt idOf (listRows tab t).

Lemma page_split lim c :
  let r := paginate rows (mkPage lim c) (λ _, true) in
  let items := filter (λ v, IsPlatformID (idOf v) = false) (res_Items r) in
  (res_NextCursor r = "" ∧ items = own c) ∨
  (backingCursor (res_NextCursor r) ∧ own c = items ++ own (res_NextCursor r) ∧
   (length (ids (res_NextCursor r)) < length (ids c))%nat).
Proof using Hkeys.
  clear -Hkeys. cbv zeta. destruct (paginate_Normalize rows (mkPage lim c) (λ _, true)) as (l&Hl&_&->). cbv zeta.
  change (pageIDs rows (mkPage lim c) (λ _, true)) with (ids c).
  destruct (Nat.ltb_spec l (length (ids c))) as [Hlt|Hge]; [right|left; done]. cbn [res_NextCursor res_Items].
  destruct (lookup_lt_is_Some_2 (ids c) (l - 1)%nat) as [c' Hc']; [lia|]. rewrite Hc'. change (default "" (Some c')) with c'.
  pose proof (pageIDs_next rows limit c (λ _, true) _ _ Hc') as Hnext. change (ids c' = drop (S (l - 1)) (ids c)) in Hnext.
  replace (S (l - 1)) with l in Hnext by lia. split_and!.
  - apply Hkeys. apply list_elem_of_lookup_2, elem_of_pageIDs in Hc' as (v&Hv&_). by apply elem_of_dom.
  - unfold own. rewrite Hnext, <- filter_app, <- omap_app, take_drop. done.
  - rewrite Hnext, length_drop. lia.
Qed.

Lemma run_backing pg :
  run env (backing idOf (listRows tab t) pg) s =
    let r := paginate rows pg (λ _, true) in
    (inr (mkResult (filter (λ v, IsPlatformID (idOf v) = false) (res_Items r)) (res_NextCursor r)), s).
Proof using MetaOk0 LensOk0 Hopen Htd.
  unfold backing. rewrite run_pbind, (run_listRows tab m _ _ _ td) by done. done.
Qed.

(** Once a backing page came back, the rest of the walk. *)
Lemma walk_after fuel lim c pre :
  (∀ c', backingCursor c' → (length (ids c') < fuel)%nat → run env (listAll fuel listing limit c') s = (inr (own c'), s)) →
  (length (ids c) ≤ fuel)%nat →
  let r := paginate rows (mkPage lim c) (λ _, true) in
  let items := pre ++ filter (λ v, IsPlatformID (idOf v) = false) (res_Items r) in
  run env (if strEq (res_NextCursor r) "" then pret items
           else (let? l := listAll fuel listing limit (res_NextCursor r) in pret (items ++ l))) s =
    (inr (pre ++ own c), s).
Proof using Hkeys.
  clear -Hkeys. intros IH Hfuel. cbv zeta. destruct (page_split lim c) as [[-> ->]|(Hc&Hown&Hlt)]; [done|].
  unfold strEq. rewrite bool_decide_eq_false_2 by apply Hc. rewrite run_pbind, IH by (done || lia).
  cbn. by rewrite Hown, app_assoc.
Qed.

Lemma walk_backing fuel c :
  backingCursor c → (length (ids c) < fuel)%nat → run env (listAll fuel listing limit c) s = (inr (own c), s).
Proof using MetaOk0 LensOk0 Hopen Htd Hkeys.
  revert c. induction fuel as [|fuel IH]; intros c Hc Hf; [lia|]. cbn [listAll].
  unfold listing at 1. rewrite run_pbind, (overlayList_backing virt) by done. rewrite run_backing. cbv zeta.
  assert (Hn : Normalize (mkPage limit c) = mkPage (p_Limit (Normalize (mkPage limit c))) c).
  { pose proof (Normalize_cursor (mkPage limit c)) as Hnc. destruct (Normalize (mkPage limit c)). cbn in *. by subst. }
  rewrite Hn. apply (walk_after fuel _ c []); [exact IH|lia].
Qed.

Lemma walk_done fuel :
  (length (ids "") < fuel)%nat → run env (listAll fuel listing limit platformCursorDone) s = (inr (own ""), s).
Proof using MetaOk0 LensOk0 Hopen Htd Hkeys.
  intros Hf. destruct fuel as [|fuel]; [lia|]. cbn [listAll].
  unfold listing at 1. rewrite run_pbind, overlayList_done, run_backing. cbv zeta.
  apply (walk_after fuel _ "" []); [apply walk_backing|lia].
Qed.

(** The cursor of the [n]-th virtual entry. *)
Let vcursor (n : nat) : string := if (n =? 0)%nat then "" else platformCursorPrefix +:+ Itoa n.

Lemma listing_virtual n :
  (n ≤ length virt)%nat →
  ∃ lim : nat, (1 ≤ lim)%nat ∧
    listing (mkPage limit (vcursor n)) = virtualPage virt idOf (listRows tab t) (Z.of_nat lim) (Z.of_nat n).
Proof using Hvirt.
  intros Hn. unfold listing, vcursor. unfold len in Hvirt.
  pose proof (Normalize_limit (mkPage limit (vcursor n))) as Hl. unfold vcursor in Hl.
  exists (Z.to_nat (p_Limit (Normalize (mkPage limit (vcursor n))))). unfold vcursor. split; [lia|].
  rewrite Z2Nat.id by lia. destruct (Nat.eqb_spec n 0) as [->|]; [apply overlayList_start|].
  apply overlayList_virtual. lia.
Qed.

Lemma walk_virtual fuel n :
  (n ≤ length virt)%nat → (length virt - n + length (ids "") + 1 < fuel)%nat →
  run env (listAll fuel listing limit (vcursor n)) s = (inr (drop n virt ++ own ""), s).
Proof using MetaOk0 LensOk0 Hopen Htd Hkeys Hvirt.
  revert n. induction fuel as [|fuel IH]; intros n Hn Hf; [lia|]. cbn [listAll].
  destruct (listing_virtual n Hn) as (lim&Hlim&Hl). rewrite run_pbind, Hl. unfold virtualPage, len.
  rewrite Nat2Z.id, Nat2Z.id.
  assert (Hout : (if Z.of_nat (length virt) <=? Z.of_nat n then [] else take lim (drop n virt)) = take lim (drop n virt)).
  { destruct (Z.leb_spec (Z.of_nat (length virt)) (Z.of_nat n)); [|done]. by rewrite drop_ge, take_nil by lia. }
  rewrite Hout. clear Hout. rewrite length_take, length_drop.
  destruct (Z.eqb_spec (Z.of_nat (lim `min` (length virt - n))) (Z.of_nat lim)) as [He|He].
  - cbn [run pret]. cbn [res_NextCursor res_Items].
    assert (Hle : (lim ≤ length virt - n)%nat) by lia. rewrite (Nat.min_l _ _ Hle).
    destruct (Z.ltb_spec (Z.of_nat n + Z.of_nat lim) (Z.of_nat (length virt))) as [Hlt|Hge].
    + assert (Hnext : platformCursorPrefix +:+ Itoa (Z.to_nat (Z.of_nat n + Z.of_nat lim)) = vcursor (n + lim)).
      { unfold vcursor. destruct (Nat.eqb_spec (n + lim) 0); [lia|]. do 2 f_equal. lia. }
      rewrite Hnext. unfold strEq. rewrite bool_decide_eq_false_2 by (rewrite <- Hnext; done).
      rewrite run_pbind, IH by lia. cbn. by rewrite app_assoc, <- drop_drop, take_drop.
    + unfold strEq. rewrite bool_decide_eq_false_2 by done. rewrite run_pbind, walk_done by lia. cbn.
      rewrite take_ge by (rewrite length_drop; lia). done.
  - rewrite run_pbind, run_backing. cbv zeta. cbn [run pret res_NextCursor res_Items].
    rewrite take_ge by (rewrite length_drop; lia). apply walk_after; [apply walk_backing|lia].
Qed.
End walk.

Lemma run_mapRows {T} env (f : T → progOn Provider T) (g : T → T) vs s :
  (∀ v, run env (f v) s = (inr (g v), s)) → run env (mapRows f vs) s = (inr (g <$> vs), s).
Proof.
  intros Hf. induction vs as [|v vs IH]; cbn [mapRows]; [done|].
  rewrite run_pbind, Hf. cbv beta iota. rewrite run_pbind, IH. done.
Qed.

Lemma listAll_ext {T} env fuel (l1 l2 : Page → progOn Provider (Result T)) limit c s :
  (∀ pg, run env (l1 pg) s = run env (l2 pg) s) → (∀ pg, (run env (l2 pg) s).2 = s) →
  run env (listAll fuel l1 limit c) s = run env (listAll fuel l2 limit c) s.
Proof.
  intros He Hs. revert c. induction fuel as [|fuel IH]; intros c; cbn [listAll]; [done|].
  rewrite !run_pbind, He. specialize (Hs (mkPage limit c)). destruct (run env (l2 _) s) as [[e|r] s']; [done|].
  cbn in Hs. subst s'. destruct (strEq _ _); [done|]. by rewrite !run_pbind, IH.
Qed.

(** What a store of [st] lists of a virtual sender; [rows] is its table. *)
Definition senderSeen (st : platformStore) (rows : gmap string Sender) (v : Sender) : Sender :=
  if st_system st then
    match rows !! s_ID v with
    | Some shadow =>
        v <| s_Health := s_Health shadow |> <| s_HealthReason := s_HealthReason shadow |>
          <| s_HealthCheckedAt := s_HealthCheckedAt shadow |>
          <| s_Version := s_Version shadow |> <| s_UpdatedAt := s_UpdatedAt shadow |>
    | None => v
    end
  else tenantView (st_tenantID st) v.

Lemma overlayList_reads {T} (tab : lens tenantData (gmap string T)) (m : meta T) `{!LensOk tab, !MetaOk m}
    env t s td virt idOf pg :
  pv_closed s = false → pv_tenants s !! t = Some td →
  (run env (overlayList virt idOf (listRows tab t) pg) s).2 = s.
Proof.
  intros Hc Ht.
  assert (Hb : ∀ pg, (run env (backing idOf (listRows tab t) pg) s).2 = s).
  { intros q. unfold backing. by rewrite run_pbind, (run_listRows tab m _ _ _ td). }
  assert (Hv : ∀ limit n, (run env (virtualPage virt idOf (listRows tab t) limit n) s).2 = s).
  { intros limit n. unfold virtualPage. destruct (_ =? _); [done|]. rewrite run_pbind.
    match goal with |- context [backing _ _ ?q] => specialize (Hb q); destruct (run env (backing idOf _ q) s) as [[e|r] s'] end;
      done. }
  unfold overlayList. destruct (strEq _ _); [apply Hv|]. destruct (strEq _ _); [apply Hb|].
  destruct (String.prefix _ _); [|apply Hb]. destruct (Atoi _) as [n|]; [|done]. destruct (n <? 0); [done|apply Hv].
Qed.

(** C30 (store/overlay): listing the senders page by page is complete.
    Following [NextCursor] from the first page, for every page size, ends
    within one page per sender and two more, and yields every shared sender of
    the catalog as the tenant may see it, then every sender of the tenant's own
    in ID order, each exactly once, and no shadow row. *)
Theorem overlay_walk_complete o env st s td limit :
  pv_closed s = false → pv_tenants s !! st_tenantID st = Some td →
  (st_system st = true → st_tenantID st = SystemTenantID) →
  (∀ id, id ∈ dom (senders td) → id ≠ "" ∧ String.prefix platformCursorPrefix id = false) →
  len (vp_senders o) < 2 ^ 63 →
  run env (listAll (length (vp_senders o) + size (senders td) + 2) (platformSenders_List o st) limit "") s =
    (inr ((senderSeen st (senders td) <$> vp_senders o) ++
          filter (λ v, IsPlatformID (s_ID v) = false)
            (omap (λ id, senders td !! id) (selectIDs (λ _ _, true) (senders td)))), s).
Proof.
  intros Hc Ht Hsys Hkeys Hlen.
  assert (Hview : ∀ v, run env (platformSenders_view st v) s = (inr (senderSeen st (senders td) v), s)).
  { intros v. unfold platformSenders_view, senderSeen. destruct (st_system st); [|done]. cbn [negb].
    rewrite Hsys in Ht by done. rewrite (run_mergedWith (field senders) senderMeta) by done.
    unfold opened, dataOf. rewrite Ht. done. }
  set (virt := senderSeen st (senders td) <$> vp_senders o).
  rewrite (listAll_ext env _ _ (overlayList virt s_ID (listRows (field senders) (st_tenantID st)))).
  - assert (He : "" ∉ dom (senders td)) by (intros H; by destruct (Hkeys "" H)).
    assert (Hlv : length virt = length (vp_senders o)) by apply length_fmap.
    pose proof (walk_virtual (field senders) senderMeta env (st_tenantID st) s td virt limit Hc Ht Hkeys) as Hw.
    pose proof (length_selectIDs (λ _ _, true) (senders td)) as Hsz.
    specialize (Hw ltac:(unfold len in *; by rewrite Hlv) (length (vp_senders o) + size (senders td) + 2)%nat 0%nat).
    cbn [lget field Nat.eqb] in Hw. rewrite (pageIDs_start _ _ _ He) in Hw.
    rewrite drop_0 in Hw. apply Hw; [lia|]. rewrite Hlv. lia.
  - intros pg. unfold platformSenders_List. by rewrite run_pbind, (run_mapRows _ _ _ _ _ Hview).
  - intros pg. by apply (overlayList_reads (field senders) senderMeta _ _ _ td).
Qed.

(** ** Tenant settings *)

(** What a read returns of a stored settings row. *)
Definition effectiveSettings (o : platformProvider) (row : TenantSettings) : TenantSettings :=
  if settingsWrapped o then applyDefaults o row else row.

(** What a write stores of the caller's settings. *)
Definition ownSettings (o : platformProvider) (v : TenantSettings) : TenantSettings :=
  if settingsWrapped o then strip o v else v.

Lemma applyDefaults_fields o row :
  let d := tk_Domain (ts_Tracking row) in let u := ts_UnsubscribeURLTemplate row in
  let cd := pc_TrackingDomain (vp_cat o) in let cu := pc_UnsubscribeURLTemplate (vp_cat o) in
  tk_Domain (ts_Tracking (applyDefaults o row)) = (if strEq d "" then cd else d) ∧
  ts_UnsubscribeURLTemplate (applyDefaults o row) = (if strEq u "" then cu else u) ∧
  ts_PlatformDefaults (applyDefaults o row) =
    (if strEq d "" && negb (strEq cd "") then [SettingTrackingDomain] else []) ++
    (if strEq u "" && negb (strEq cu "") then [SettingUnsubscribeURLTemplate] else []).
Proof.
  cbv zeta. unfold applyDefaults.
  change (tk_Domain (ts_Tracking (row <| ts_PlatformDefaults := [] |>))) with (tk_Domain (ts_Tracking row)).
  destruct (strEq (tk_Domain (ts_Tracking row)) "") eqn:Hd, (strEq (pc_TrackingDomain (vp_cat o)) "") eqn:Hcd;
    cbn [andb negb];
    match goal with |- context [strEq (ts_UnsubscribeURLTemplate ?x) ""] =>
      change (ts_UnsubscribeURLTemplate x) with (ts_UnsubscribeURLTemplate row) end;
    destruct (strEq (ts_UnsubscribeURLTemplate row) "") eqn:Hu,
      (strEq (pc_UnsubscribeURLTemplate (vp_cat o)) "") eqn:Hcu; cbn [andb negb];
    to_prop; split_and!; try reflexivity;
    (transitivity (tk_Domain (ts_Tracking row)); [reflexivity|congruence]) ||
    (transitivity (ts_UnsubscribeURLTemplate row); [reflexivity|congruence]).
Qed.

Lemma strip_fields o v :
  let d := tk_Domain (ts_Tracking v) in let u := ts_UnsubscribeURLTemplate v in
  tk_Domain (ts_Tracking (strip o v)) =
    (if contains (ts_PlatformDefaults v) SettingTrackingDomain && strEq d (pc_TrackingDomain (vp_cat o)) then "" else d) ∧
  ts_UnsubscribeURLTemplate (strip o v) =
    (if contains (ts_PlatformDefaults v) SettingUnsubscribeURLTemplate && strEq u (pc_UnsubscribeURLTemplate (vp_cat o))
     then "" else u) ∧
  ts_PlatformDefaults (strip o v) = [].
Proof.
  cbv zeta. unfold strip, FromPlatform.
  destruct (contains (ts_PlatformDefaults v) SettingTrackingDomain &&
    strEq (tk_Domain (ts_Tracking v)) (pc_TrackingDomain (vp_cat o)));
  match goal with |- context [contains (ts_PlatformDefaults ?x) SettingUnsubscribeURLTemplate && strEq (ts_UnsubscribeURLTemplate ?x) _] =>
    change (ts_PlatformDefaults x) with (ts_PlatformDefaults v);
    change (ts_UnsubscribeURLTemplate x) with (ts_UnsubscribeURLTemplate v) end;
  destruct (contains (ts_PlatformDefaults v) SettingUnsubscribeURLTemplate && _); by repeat split.
Qed.

(** A default filled in on a read is taken out on the write. *)
Lemma default_back (k d cd : string) (l : list string) :
  (k ∈ l ↔ d = "" ∧ cd ≠ "") →
  (if contains l k && strEq (if strEq d "" then cd else d) cd then "" else (if strEq d "" then cd else d)) = d.
Proof. intros Hk. unfold contains, strEq.
  destruct (bool_decide_reflect (d = "")), (bool_decide_reflect (k ∈ l)), (decide (cd = "")); cbn;
    repeat case_bool_decide; intuition congruence. Qed.

(** Writing back what was read restores the stored columns, whatever else the
    caller edited. *)
Lemma own_of_effective o row w :
  ts_PlatformDefaults row = [] →
  ts_PlatformDefaults w = ts_PlatformDefaults (effectiveSettings o row) →
  tk_Domain (ts_Tracking w) = tk_Domain (ts_Tracking (effectiveSettings o row)) →
  ts_UnsubscribeURLTemplate w = ts_UnsubscribeURLTemplate (effectiveSettings o row) →
  tk_Domain (ts_Tracking (ownSettings o w)) = tk_Domain (ts_Tracking row) ∧
  ts_UnsubscribeURLTemplate (ownSettings o w) = ts_UnsubscribeURLTemplate row ∧
  ts_PlatformDefaults (ownSettings o w) = [].
Proof.
  intros Hrow. unfold ownSettings, effectiveSettings. destruct (settingsWrapped o); [|by rewrite Hrow].
  destruct (applyDefaults_fields o row) as (->&->&->), (strip_fields o w) as (->&->&->). intros Hp Hd Hu.
  rewrite Hp, Hd, Hu. clear. unfold strEq.
  split_and!; [apply default_back|apply default_back|done]; repeat (case_bool_decide; cbn); set_solver.
Qed.

Lemma run_settingsGet o env t s td row :
  pv_closed s = false → pv_tenants s !! t = Some td → settings td = Some row →
  run env (platformSettings_Get o (mkPlatformStore t (strEq t SystemTenantID))) s = (inr (effectiveSettings o row), s).
Proof.
  intros Hc Ht Hrow. unfold platformSettings_Get, effectiveSettings. cbn [st_tenantID].
  assert (Hr : run env (tcall t SettingsGet) s = (inr row, s)).
  { rewrite (run_tcall_open _ _ _ _ td) by done. unfold SettingsGet, checked. cbn [e_closed storeEnv].
    by rewrite Hrow, setData_id. }
  destruct (settingsWrapped o); cbn [negb]; [|done]. by rewrite run_pbind, Hr.
Qed.

(** A tenant never adopts the operator's defaults.  A
    client that reads the effective settings, changes anything but the
    tracking domain and the unsubscribe template, and writes them back stores
    in these two columns exactly what they held before, so the next read, under
    a catalog with other defaults, shows those. *)
Theorem settings_default_not_adopted o env t s td row w :
  pv_closed s = false → pv_tenants s !! t = Some td → settings td = Some row → ts_PlatformDefaults row = [] →
  let st := mkPlatformStore t (strEq t SystemTenantID) in
  let v := effectiveSettings o row in
  ts_PlatformDefaults w = ts_PlatformDefaults v → tk_Domain (ts_Tracking w) = tk_Domain (ts_Tracking v) →
  ts_UnsubscribeURLTemplate w = ts_UnsubscribeURLTemplate v → ts_Version w = ts_Version v →
  run env (platformSettings_Get o st) s = (inr v, s) ∧
  ∃ s' r row', run env (platformSettings_Update o st w) s = (inr r, s') ∧
    settings (dataOf t s') = Some row' ∧
    tk_Domain (ts_Tracking row') = tk_Domain (ts_Tracking row) ∧
    ts_UnsubscribeURLTemplate row' = ts_UnsubscribeURLTemplate row ∧ ts_PlatformDefaults row' = [] ∧
    ∀ o' env', run env' (platformSettings_Get o' st) s' = (inr (effectiveSettings o' row'), s').
Proof.
  intros Hc Ht Hrow Hpd st v Hwp Hwd Hwu Hwv. split; [by eapply run_settingsGet|].
  destruct (own_of_effective o row w Hpd Hwp Hwd Hwu) as (Hd&Hu&Hp).
  assert (Hver : ts_Version (ownSettings o w) = ts_Version row).
  { transitivity (ts_Version w).
    - unfold ownSettings, strip. destruct (settingsWrapped o); [|done]. by destruct (_ && _), (_ && _).
    - rewrite Hwv. unfold v, effectiveSettings, applyDefaults. destruct (settingsWrapped o); [|done].
      by destruct (_ && _), (_ && _). }
  set (row' := truncateSettings ((ownSettings o w) <| ts_TenantID := t |> <| ts_CreatedAt := ts_CreatedAt row |>
    <| ts_UpdatedAt := now (storeEnv env t) |> <| ts_Version := int64 (ts_Version row + 1) |>)).
  set (s' := setData t (td <| settings := Some row' |>) s).
  assert (Hput : ∃ r, run env (platformSettings_Update o st w) s = (inr r, s')).
  { assert (Hr : ∃ r, run env (tcall t (λ env, SettingsUpdate env (ownSettings o w))) s = (inr r, s')).
    { rewrite (run_tcall_open _ _ _ _ td) by done. unfold SettingsUpdate, checked. cbn [e_closed storeEnv].
      rewrite Hrow, Hver, Z.eqb_refl. cbn [negb]. by eexists. }
    destruct Hr as [r Hr]. unfold platformSettings_Update, st. cbn [st_tenantID]. unfold ownSettings in Hr.
    destruct (settingsWrapped o); cbn [negb]; [|by exists r]. rewrite run_pbind, Hr. by eexists. }
  assert (Htd' : pv_tenants s' !! t = Some (td <| settings := Some row' |>)).
  { unfold s', setData. cbn. by rewrite lookup_insert_eq. }
  destruct Hput as [r Hput]. exists s', r, row'. split_and!; [done| |done..|].
  - unfold dataOf. by rewrite Htd'.
  - intros o' env'. by eapply run_settingsGet.
Qed.

(** ** What a validated catalog refers to *)

Lemma overlayForTenant_run {A} o env t (k : platformStore → progOn Provider A) s :
  vp_err o = None → pv_closed s = false →
  run env (let? st := overlayForTenant o t in k st) s =
    run env (k (mkPlatformStore t (strEq t SystemTenantID))) (opened t s).
Proof.
  intros He Hc. unfold overlayForTenant. rewrite He, run_pbind, run_let_forTenant by done. done.
Qed.

Section resolve.
Context (cipher : option Encrypt) (at_ : Time) (c : PlatformCatalog) (Hok : catalogOk c).
Let o : platformProvider := build cipher at_ c.

Lemma built_sender ps :
  ps ∈ pc_Senders c → platformSenders_virtual o (ps_ID ps) = Some (buildSender at_ ps).
Proof using Hok.
  intros Hps. pose proof (findID_NoDup ps_ID (pc_Senders c) ps (co_senders _ Hok) Hps) as Hf.
  unfold platformSenders_virtual. destruct (build_fields cipher at_ c) as (_&_&_&Hbs&_). fold o in Hbs. rewrite Hbs.
  destruct (findID_Forall2 (λ v w, w = buildSender at_ v) ps_ID s_ID (ps_ID ps)
    (pc_Senders c) (buildSender at_ <$> pc_Senders c) ps) as (w&->&->); try done.
  - clear. induction (pc_Senders c); by constructor.
  - by intros v w ->.
Qed.

Lemma built_transport id pt :
  catTransport c id = Some pt →
  ∃ v, platformTransports_virtual o id = Some v ∧ tr_ID v = id ∧ tr_Host v = pt_Host pt ∧ tr_Port v = pt_Port pt.
Proof.
  intros Hpt. destruct (build_fields cipher at_ c) as (_&Hbt&_). fold o in Hbt.
  destruct (findID_Forall2 _ pt_ID tr_ID id _ _ pt Hbt) as (v&Hv&e&Hve); [|done|].
  { intros x y [e ->]. unfold buildTransport. by destruct (enc _ _ _). }
  exists v. split; [done|]. apply findID_Some in Hv as [? _]. split; [done|].
  rewrite Hve. unfold buildTransport. by destruct (enc _ _ _).
Qed.

Lemma built_domain id pd : catDomain c id = Some pd → ∃ v, platformDomains_virtual o id = Some v ∧ sd_ID v = id.
Proof.
  intros Hpd. destruct (build_fields cipher at_ c) as (_&_&Hbd&_). fold o in Hbd.
  destruct (findID_Forall2 _ pd_ID sd_ID id _ _ pd Hbd) as (v&Hv&_); [|done|].
  { intros x y [e ->]. unfold buildDomain. by destruct (enc _ _ _). }
  exists v. split; [done|]. by apply findID_Some in Hv as [? _].
Qed.

Lemma catalog_platformID id :
  id ∈ (pt_ID <$> pc_Transports c) ++ (pd_ID <$> pc_Domains c) ++ (ps_ID <$> pc_Senders c) → IsPlatformID id = true.
Proof using Hok. intros Hid. apply (co_valid _ Hok). rewrite !elem_of_app in *. tauto. Qed.

(** Runs on an open provider whose catalog was built without error. *)
Context (env : Env) (s : Provider) (Herr : vp_err o = None) (Hc : pv_closed s = false).

Lemma sender_resolves t ps :
  ps ∈ pc_Senders c →
  ∃ v s1, run env (let? st := overlayForTenant o t in platformSenders_Get o st (ps_ID ps)) s = (inr v, s1) ∧
     s_ID v = ps_ID ps ∧ s_TransportID v = ps_TransportID ps ∧ s_FromEmail v = ps_FromEmail ps.
Proof using Hok Herr Hc.
  intros Hps. rewrite overlayForTenant_run by done. unfold platformSenders_Get.
  rewrite catalog_platformID by (rewrite !elem_of_app; right; right; by apply list_elem_of_fmap_2).
  cbn [negb]. rewrite (built_sender ps Hps). unfold platformSenders_view.
  destruct (strEq t SystemTenantID); cbn [st_system negb]; [|by do 2 eexists].
  rewrite (run_mergedWith (field senders) senderMeta) by by rewrite opened_closed.
  do 2 eexists. split; [reflexivity|]. by destruct (lget _ _ !! _).
Qed.

Lemma transport_resolves id pt :
  catTransport c id = Some pt →
  ∃ tr s2, run env (let? st := PlatformView o in platformTransports_Get o st id) s = (inr tr, s2) ∧
     tr_ID tr = id ∧ tr_Host tr = pt_Host pt ∧ tr_Port tr = pt_Port pt.
Proof using Hok Herr Hc.
  intros Hpt. destruct (built_transport id pt Hpt) as (v&Hv&Hid&Hh&Hp). apply findID_Some in Hpt as [Hpid Hin].
  unfold PlatformView. rewrite overlayForTenant_run by done. unfold platformTransports_Get.
  rewrite catalog_platformID by (rewrite !elem_of_app; left; rewrite <- Hpid; by apply list_elem_of_fmap_2).
  change (strEq SystemTenantID SystemTenantID) with true. cbn [negb st_system]. rewrite Hv. unfold platformTransports_merged.
  rewrite (run_mergedWith (field transports) transportMeta) by by rewrite opened_closed.
  do 2 eexists. split; [reflexivity|]. by destruct (lget _ _ !! _).
Qed.

Lemma domain_resolves id pd :
  catDomain c id = Some pd →
  ∃ d s3, run env (let? st := PlatformView o in platformDomains_Get o st id) s = (inr d, s3) ∧ sd_ID d = id.
Proof using Hok Herr Hc.
  intros Hpd. destruct (built_domain id pd Hpd) as (v&Hv&Hid). apply findID_Some in Hpd as [Hpid Hin].
  unfold PlatformView. rewrite overlayForTenant_run by done. unfold platformDomains_Get.
  rewrite catalog_platformID by (rewrite !elem_of_app; right; left; rewrite <- Hpid; by apply list_elem_of_fmap_2).
  change (strEq SystemTenantID SystemTenantID) with true. cbn [negb st_system]. rewrite Hv. unfold platformDomains_merged.
  rewrite (run_mergedWith (field domains) domainMeta) by by rewrite opened_closed.
  do 2 eexists. split; [reflexivity|]. by destruct (lget _ _ !! _).
Qed.
End resolve.

(** C12 (store/platform): a validated catalog resolves.  If [Validate] finds no
    problem in the configuration, then in the wrapped provider (whose secrets
    encrypted without error) every shared sender is found by its virtual ID in
    every tenant, under an ID no other sender has, and its transport, and its
    domain if it names one, load in the system tenant's view with the host and
    port of the configuration in range; so a sender a tenant can choose always
    has something to send through. *)
Theorem platform_senders_resolve lower cfg cipher now_ env s ps t :
  Validate lower cfg = [] → vp_err (WithPlatform cfg cipher now_) = None →
  pv_closed s = false →
  ps ∈ pc_Senders (PlatformCatalog_Normalize cfg) →
  let o := WithPlatform cfg cipher now_ in
  NoDup (s_ID <$> vp_senders o) ∧
  (∃ v s1, run env (let? st := overlayForTenant o t in platformSenders_Get o st (ps_ID ps)) s = (inr v, s1) ∧
     s_ID v = ps_ID ps ∧ s_TransportID v = ps_TransportID ps ∧ s_FromEmail v = ps_FromEmail ps) ∧
  (∃ tr s2 pt, run env (let? st := PlatformView o in platformTransports_Get o st (ps_TransportID ps)) s = (inr tr, s2) ∧
     catTransport (vp_cat o) (ps_TransportID ps) = Some pt ∧
     tr_ID tr = ps_TransportID ps ∧ tr_Host tr = pt_Host pt ∧ tr_Host tr ≠ "" ∧ tr_Port tr = pt_Port pt ∧
     1 ≤ tr_Port tr ≤ 65535) ∧
  (ps_DomainID ps = "" ∨
   ∃ d s3, run env (let? st := PlatformView o in platformDomains_Get o st (ps_DomainID ps)) s = (inr d, s3) ∧
     sd_ID d = ps_DomainID ps).
Proof.
  intros Hval Herr Hc Hps o. pose proof (Validate_ok _ _ Hval) as Hok. unfold o, WithPlatform in *.
  set (c := PlatformCatalog_Normalize cfg) in *. clearbody c. clear Hval. split_and!.
  - destruct (build_ids cipher (TruncateTime now_) c) as (_&_&->&_). apply (co_senders _ Hok).
  - by apply sender_resolves.
  - destruct (co_transport _ Hok ps Hps) as [pt Hpt].
    destruct (transport_resolves cipher (TruncateTime now_) c Hok env s Herr Hc _ _ Hpt) as (tr&s2&Hr&Hid&Hh&Hp).
    pose proof (co_ports _ Hok) as Hports. rewrite Forall_forall in Hports.
    destruct (Hports pt) as [Hport Hhost]; [by apply findID_Some in Hpt as [_ ?]|].
    exists tr, s2, pt. destruct (build_fields cipher (TruncateTime now_) c) as (->&_).
    rewrite Hh, Hp. done.
  - destruct (co_domain _ Hok ps Hps) as [Hd|[pd Hpd]]; [by left|right]. by eapply domain_resolves.
Qed.

(** ** Concrete runs *)

Lemma shadow_state_roundtrip_witness :
  ∃ s', run overlayEnv (platformTransports_Update sampleOverlay systemStore openedRelay) newProvider =
    (inr openedRelay, s') ∧
    (run overlayEnv (platformTransports_Get sampleOverlay systemStore (tr_ID openedRelay)) s').1 =
      inr (openedRelay <| tr_Version := 1 |> <| tr_UpdatedAt := 7 * Second |>).
Proof.
  destruct (shadow_state_roundtrip sampleOverlay overlayEnv newProvider
    (default zero (head (vp_transports sampleOverlay))) openedRelay) as [_ H]; [vm_compute; reflexivity..|].
  destruct H as (s'&Hr&_&Hg); [vm_compute; exact I|]. exists s'. split; [exact Hr|].
  rewrite (Hg overlayEnv). vm_compute. reflexivity.
Defined.

(** A tenant with one sender of its own and no settings beyond the defaults. *)
Definition sampleTenant : tenantData :=
  newTenantData <| senders := <["s-1" := zero <| s_ID := "s-1" |> <| s_Name := "own" |>]> ∅ |>
                <| settings := Some (zero <| ts_Version := 1 |>) |>.
Definition overlayProviderSample : Provider := mkProvider false (<["acme" := sampleTenant]> ∅).
Definition acmeStore : platformStore := mkPlatformStore "acme" false.

Lemma overlay_walk_complete_witness :
  ∃ l, run overlayEnv (listAll 4 (platformSenders_List sampleOverlay acmeStore) 1 "") overlayProviderSample =
    (inr l, overlayProviderSample) ∧ s_ID <$> l = ["sys:noreply"; "s-1"].
Proof.
  eexists. split.
  - apply (overlay_walk_complete sampleOverlay overlayEnv acmeStore overlayProviderSample sampleTenant 1).
    + reflexivity.
    + reflexivity.
    + done.
    + intros id. unfold sampleTenant. cbn. rewrite dom_insert_L, dom_empty_L, elem_of_union, elem_of_singleton.
      intros [->|H]; [split; [done|reflexivity]|by apply elem_of_empty in H].
    + reflexivity.
  - vm_compute. reflexivity.
Defined.

(** The tenant saves its retention; the operator then moves the tracking domain. *)
Lemma settings_default_not_adopted_witness :
  ∃ s' r, run overlayEnv (platformSettings_Update sampleOverlay (mkPlatformStore "acme" (strEq "acme" SystemTenantID))
      ((effectiveSettings sampleOverlay (zero <| ts_Version := 1 |>)) <| ts_RetentionDays := 30 |>))
      overlayProviderSample = (inr r, s') ∧
    tk_Domain (ts_Tracking r) = "t.example.com" ∧
    ∃ v, run overlayEnv (platformSettings_Get
      (WithPlatform (zero <| pc_TrackingDomain := "new.example.com" |>) None 0)
      (mkPlatformStore "acme" (strEq "acme" SystemTenantID))) s' = (inr v, s') ∧
      tk_Domain (ts_Tracking v) = "new.example.com".
Proof.
  destruct (settings_default_not_adopted sampleOverlay overlayEnv "acme" overlayProviderSample sampleTenant
    (zero <| ts_Version := 1 |>)
    ((effectiveSettings sampleOverlay (zero <| ts_Version := 1 |>)) <| ts_RetentionDays := 30 |>)
    ) as (_&s'&r&row'&Hr&Hs&Hd&Hu&Hp&Hg); [vm_compute; reflexivity..|].
  exists s', r. split; [exact Hr|]. split.
  - vm_compute in Hr. injection Hr as <- _. reflexivity.
  - eexists. split; [apply Hg|]. unfold effectiveSettings. cbn [settingsWrapped].
    pose proof (applyDefaults_fields (WithPlatform (zero <| pc_TrackingDomain := "new.example.com" |>) None 0) row') as (Hx&_).
    cbv zeta in Hx. rewrite Hd in Hx. exact Hx.
Defined.

Lemma platform_senders_resolve_witness :
  ∃ tr s2, run overlayEnv (let? st := PlatformView sampleOverlay in
    platformTransports_Get sampleOverlay st "sys:relay") newProvider = (inr tr, s2) ∧
    tr_Host tr = "smtp.example.com" ∧ tr_Password tr = "enc:secret".
Proof.
  destruct (platform_senders_resolve (λ s, s) sampleCatalog (Some (λ s, ("enc:" +:+ s, None))) (5 * Second) overlayEnv
    newProvider (default zero (head (pc_Senders (PlatformCatalog_Normalize sampleCatalog)))) "acme")
    as (_&_&(tr&s2&pt&Hr&Hpt&_&Hh&_)&_).
  - vm_compute. reflexivity.
  - vm_compute. reflexivity.
  - reflexivity.
  - apply list_elem_of_lookup. exists 0%nat. reflexivity.
  - exists tr, s2. split; [exact Hr|]. vm_compute in Hr. injection Hr as <- _. split; reflexivity.
Defined.
