(* ===== verification/OverlayShared.v ===== *)
(** * Properties of shared templates

    Which template a tenant gets by key and by ID, and that it cannot write a
    shared one; how a listing's positional cursor behaves when a shared
    template is overridden between two pages. *)

From S2P Require Import Prelude Enums Model MemTable MemData DeliveryRepo DeliveryQueue Repos Provider Prog Settings Classify Codec Tokens Email Platform Overlay OverlayContent OverlayState.

(** ** What a tenant sees *)

Section seen.
Context {T : Type} (key : T → string) (shared : T → bool) (mark : T → T → T) (unmark : T → T).
Implicit Types (own sys : gmap string T).

(** [v] is under key [k] in [rows]. *)
Definition keyed (rows : gmap string T) (k : string) (v : T) : Prop := ∃ id, rows !! id = Some v ∧ key v = k.

(** An own row as it is shown: marked when the system tenant shares one under
    its key. *)
Definition shownOwn sys (v r : T) : Prop :=
  (key v ≠ "" ∧ ∃ w, keyed sys (key v) w ∧ shared w = true ∧ r = mark w (unmark v)) ∨
  ((key v = "" ∨ ∀ w, keyed sys (key v) w → shared w = false) ∧ r = unmark v).

(** Own first, then shared, and nothing else. *)
Definition seenByKey own sys (k : string) (r : error + T) : Prop :=
  (∃ v x, keyed own k v ∧ shownOwn sys v x ∧ r = inr x) ∨
  ((∀ v, ¬ keyed own k v) ∧
   ((∃ w, keyed sys k w ∧ shared w = true ∧ r = inr w) ∨
    ((∀ w, keyed sys k w → shared w = false) ∧ r = inl ErrNotFound))).

Definition seenByID own sys (id : string) (r : error + T) : Prop :=
  match own !! id with
  | Some v => ∃ x, shownOwn sys v x ∧ r = inr x
  | None =>
      r = match sys !! id with Some w => if shared w then inr w else inl ErrNotFound | None => inl ErrNotFound end
  end.
End seen.

Section content_run.
Context {T : Type} (tab : lens tenantData (gmap string T)) (m : meta T) `{!LensOk tab, !MetaOk m}.
Context (key : T → string) (shared : T → bool) (mark : T → T → T) (unmark : T → T).
Context (Hkey : m_key m = Some key) (Hunmark : ∀ v, key (unmark v) = key v).
Context (env : Env) (t : string) (s : Provider) (td : tenantData).
Context (Ht : t ≠ SystemTenantID) (Hopen : pv_closed s = false) (Htd : pv_tenants s !! t = Some td).
Let own : gmap string T := lget tab td.
Let sys : gmap string T := lget tab (dataOf SystemTenantID s).
Context (Hown : tableOk m own) (Hsys : tableOk m sys).
Implicit Types (v : T) (id k : string).

(** The provider once the system tenant's store was opened. *)
Let s1 : Provider := opened SystemTenantID s.

Lemma s1_open : pv_closed s1 = false.
Proof using Hopen. unfold s1. by rewrite opened_closed. Qed.

Lemma s1_sys : pv_tenants s1 !! SystemTenantID = Some (dataOf SystemTenantID s).
Proof. apply opened_data. Qed.

Lemma run_getByKey t' s' td' k :
  pv_closed s' = false → pv_tenants s' !! t' = Some td' →
  run env (getByKeyRow tab m t' k) s' =
    (match getByKey m (storeEnv env t') k (lget tab td') with (r, _) => r end, s').
Proof using LensOk0.
  intros Hc Ht'. unfold getByKeyRow. rewrite (run_tcall_open _ _ _ _ td') by done. unfold zoom, getByKey, checked.
  cbn [e_closed storeEnv].
  by destruct (match m_key m with Some _ => _ | None => _ end) as [[i kv]|]; rewrite lens_set_get, setData_id by done.
Qed.

(** The lookup finds the row under the key, or there is none. *)
Lemma getByKey_cases e rows k :
  tableOk m rows → e_closed e = false → k ≠ "" →
  (∃ v, keyed key rows k v ∧ getByKey m e k rows = (inr v, rows)) ∨
  ((∀ v, ¬ keyed key rows k v) ∧ getByKey m e k rows = (inl ErrNotFound, rows)).
Proof using MetaOk0 Hkey.
  intros Hok He Hk. destruct (getByKey m e k rows) as [[err|v] rows'] eqn:Hg.
  - right. assert (err = ErrNotFound ∧ rows' = rows) as [-> ->].
    { unfold getByKey, checked in Hg. rewrite He in Hg. repeat case_match; by simplify_eq. }
    split; [|done]. intros v Hv. apply (getByKey_unique m e k rows key v) in Hv; [|done..]. congruence.
  - left. exists v. assert (rows' = rows) as ->.
    { unfold getByKey, checked in Hg. rewrite He in Hg. repeat case_match; by simplify_eq. }
    split; [|done]. by apply (getByKey_unique m e k rows key v) in Hg.
Qed.

Lemma keyed_unique rows k v w : tableOk m rows → k ≠ "" → keyed key rows k v → keyed key rows k w → v = w.
Proof using Hkey.
  intros Hok Hk (i&Hi&Hv) (j&Hj&Hw). assert (i = j) as <-; [|congruence].
  eapply (to_key _ _ Hok key); [done..| |]; congruence.
Qed.

Lemma run_annotate v :
  ∃ x s2, run env (annotate tab m key shared mark unmark v) s = (inr x, s2) ∧ shownOwn key shared mark unmark sys v x.
Proof using LensOk0 MetaOk0 Hkey Hunmark Hopen Hsys.
  unfold annotate. cbv zeta. rewrite Hunmark. unfold strEq. case_bool_decide as Hk.
  { do 2 eexists. split; [reflexivity|]. right. split; [by left|done]. }
  unfold shadowStore. rewrite run_let_forTenant by done. rewrite run_handle.
  rewrite (run_getByKey _ _ (dataOf SystemTenantID s)) by (rewrite ?opened_closed, ?opened_data; done).
  fold sys.
  destruct (getByKey_cases (storeEnv env SystemTenantID) sys (key v) Hsys eq_refl Hk) as [(w&Hw&->)|[Hno ->]].
  - do 2 eexists. split; [reflexivity|]. destruct (shared w) eqn:Hsh; [left; eauto|right].
    split; [right|done]. intros w' Hw'. by rewrite <- (keyed_unique sys _ w w' Hsys Hk Hw Hw').
  - unfold errIs. rewrite bool_decide_eq_true_2 by done. do 2 eexists. split; [reflexivity|]. right.
    split; [right|done]. intros w Hw. by destruct (Hno w).
Qed.
Lemma run_sharedByID id :
  run env (sharedByID tab shared id) s =
    (match sys !! id with Some w => if shared w then inr w else inl ErrNotFound | None => inl ErrNotFound end, s1).
Proof using LensOk0 MetaOk0 Hopen.
  unfold sharedByID, shadowStore. rewrite run_let_forTenant, run_pbind by done.
  rewrite (run_getRow tab m _ _ _ (dataOf SystemTenantID s)) by (apply s1_open || apply s1_sys). fold sys.
  destruct (sys !! id) as [w|]; [|done]. by destruct (shared w).
Qed.

Lemma shared_Get_seen id :
  seenByID key shared mark unmark own sys id (run env (shared_Get tab m key shared mark unmark t id) s).1.
Proof using Type*.
  unfold shared_Get, seenByID. rewrite run_handle, (run_getRow tab m _ _ _ td) by done. fold own.
  destruct (own !! id) as [v|].
  - destruct (run_annotate v) as (x&s2&->&Hx). by exists x.
  - change (errIs ErrNotFound ErrNotFound) with true. cbn [negb]. by rewrite run_sharedByID.
Qed.

Lemma shared_GetByKey_seen k :
  k ≠ "" →
  seenByKey key shared mark unmark own sys k (run env (shared_GetByKey tab m key shared mark unmark t k) s).1.
Proof using Type*.
  intros Hk. unfold shared_GetByKey, seenByKey. rewrite run_handle, (run_getByKey t s td) by done. fold own.
  destruct (getByKey_cases (storeEnv env t) own k Hown eq_refl Hk) as [(v&Hv&->)|[Hno ->]].
  { left. destruct (run_annotate v) as (x&s2&->&Hx). by exists v, x. }
  right. split; [done|]. change (errIs ErrNotFound ErrNotFound) with true. unfold strEq.
  rewrite bool_decide_eq_false_2 by done. cbn [negb orb]. unfold shadowStore. rewrite run_let_forTenant, run_pbind by done.
  rewrite (run_getByKey _ _ (dataOf SystemTenantID s)) by (apply s1_open || apply s1_sys). fold sys.
  destruct (getByKey_cases (storeEnv env SystemTenantID) sys k Hsys eq_refl Hk) as [(w&Hw&->)|[Hns ->]].
  - destruct (shared w) eqn:Hsh; cbn [negb]; [left; by exists w|right]. split; [|done].
    intros w' Hw'. by rewrite <- (keyed_unique sys _ w w' Hsys Hk Hw Hw').
  - right. split; [|done]. intros w Hw. by destruct (Hns w).
Qed.

(** A write of a row the tenant does not have. *)
Lemma shared_Update_foreign v :
  own !! lget (m_id m) v = None →
  run env (shared_Update tab m shared t v) s =
    (inl (match sys !! lget (m_id m) v with
          | Some w => if shared w then ErrReadOnly else if shared v then ErrInvalid else ErrNotFound
          | None => if shared v then ErrInvalid else ErrNotFound end), s1).
Proof using LensOk0 MetaOk0 Hopen Htd.
  intros Hno. unfold shared_Update. cbv zeta.
  assert (Hor : ∀ err, run env (orReadOnly tab shared (lget (m_id m) v) err : progOn Provider T) s =
    (inl (match sys !! lget (m_id m) v with Some w => if shared w then ErrReadOnly else err | None => err end), s1)).
  { intros err. unfold orReadOnly. rewrite run_handle, run_sharedByID.
    destruct (sys !! _) as [w|]; [|done]. by destruct (shared w). }
  destruct (shared v); [apply Hor|]. rewrite run_handle.
  assert (Hu : run env (updateRowIn tab m t v) s = (inl ErrNotFound, s)).
  { unfold updateRowIn. rewrite (run_tcall_open _ _ _ _ td) by done. unfold zoomWith, Update, checked.
    cbn [e_closed storeEnv]. fold own. rewrite Hno. unfold own. by rewrite lens_set_get, setData_id. }
  rewrite Hu. change (errIs ErrNotFound ErrNotFound) with true. apply Hor.
Qed.

Lemma shared_Delete_foreign id :
  own !! id = None →
  run env (shared_Delete tab shared t id) s =
    (inl (match sys !! id with Some w => if shared w then ErrReadOnly else ErrNotFound | None => ErrNotFound end), s1).
Proof using LensOk0 MetaOk0 Hopen Htd.
  intros Hno. unfold shared_Delete. rewrite run_handle.
  assert (Hu : run env (deleteRow tab t id) s = (inl ErrNotFound, s)).
  { unfold deleteRow. rewrite (run_tcall_open _ _ _ _ td) by done. unfold zoom, Delete, checked.
    cbn [e_closed storeEnv]. fold own. rewrite Hno. unfold own. by rewrite lens_set_get, setData_id. }
  rewrite Hu. change (errIs ErrNotFound ErrNotFound) with true. unfold orReadOnly. rewrite run_handle, run_sharedByID.
  destruct (sys !! _) as [w|]; [|done]. by destruct (shared w).
Qed.
End content_run.

(** ** The contract *)

(** Own first, then shared, and nothing else of the
    system tenant.  By key a tenant gets its own template, marked as
    overriding with the shared original's published version when the system
    tenant shares one under that key, or else the system tenant's template if
    that is shared; by ID likewise.  An unshared template of the system tenant
    is not found.  Updating or deleting a shared template is ErrReadOnly and
    changes no tenant's data. *)
Theorem shared_template_resolution env t s td :
  t ≠ SystemTenantID → pv_closed s = false → pv_tenants s !! t = Some td →
  tableOk templateMeta (templates td) → tableOk templateMeta (templates (dataOf SystemTenantID s)) →
  let st := mkPlatformStore t false in
  let own := templates td in
  let sys := templates (dataOf SystemTenantID s) in
  (∀ k, k ≠ "" → seenByKey t_Key t_Shared markTemplate unmarkTemplate own sys k
                   (run env (sharedTemplates_GetByKey st k) s).1) ∧
  (∀ id, seenByID t_Key t_Shared markTemplate unmarkTemplate own sys id (run env (sharedTemplates_Get st id) s).1) ∧
  (∀ v w, own !! t_ID v = None → sys !! t_ID v = Some w → t_Shared w = true →
     (run env (sharedTemplates_Update st v) s).1 = inl ErrReadOnly ∧
     (run env (sharedTemplates_Delete st (t_ID v)) s).1 = inl ErrReadOnly ∧
     ∀ t', dataOf t' (run env (sharedTemplates_Update st v) s).2 = dataOf t' s ∧
           dataOf t' (run env (sharedTemplates_Delete st (t_ID v)) s).2 = dataOf t' s).
Proof.
  intros Hne Hc Ht Hown Hsys st own sys.
  assert (Hopened : ∀ t', dataOf t' (opened SystemTenantID s) = dataOf t' s).
  { intros t'. destruct (decide (t' = SystemTenantID)) as [->|Hn]; unfold dataOf.
    - by rewrite opened_data.
    - by rewrite opened_other. }
  split_and!.
  - intros k Hk. by apply (shared_GetByKey_seen (field templates) templateMeta).
  - intros id. by apply (shared_Get_seen (field templates) templateMeta).
  - intros v w Hno Hw Hsh. unfold sharedTemplates_Update, sharedTemplates_Delete. cbn [st_system st_tenantID st].
    rewrite (shared_Update_foreign (field templates) templateMeta _ _ _ _ td) by done.
    rewrite (shared_Delete_foreign (field templates) templateMeta _ _ _ _ td) by done.
    cbn [lget field m_id templateMeta]. change (templates (dataOf SystemTenantID s)) with sys. rewrite Hw, Hsh. done.
Qed.

(** *** A listing whose shared templates change between two pages *)

Definition sharedTpl (id k : string) : Template :=
  zero <| t_ID := id |> <| t_Key := k |> <| t_Shared := true |> <| t_PublishedVersionID := "v-" +:+ id |>.

(** The system tenant shares two templates; the tenant has none. *)
Definition sharingProvider : Provider :=
  mkProvider false (<[SystemTenantID := newTenantData <| templates :=
    <["a" := sharedTpl "a" "welcome"]> (<["b" := sharedTpl "b" "receipt"]> ∅) |>]> (<["acme" := newTenantData]> ∅)).

(** The tenant lists one page of one, overrides the template it got, and
    lists the next page. *)
Definition listOverrideList : progOn Provider (Result Template * Result Template) :=
  let? p1 := sharedTemplates_List (mkPlatformStore "acme" false) 5 (mkPage 1 "") in
  let? _ := sharedTemplates_Create (mkPlatformStore "acme" false) (zero <| t_ID := "own" |> <| t_Key := "welcome" |>) in
  let? p2 := sharedTemplates_List (mkPlatformStore "acme" false) 5 (mkPage 1 (res_NextCursor p1)) in
  pret (p1, p2).

(** The cursor of a listing with shared templates is
    not stable.  A tenant that reads a first page and then creates an override
    of the template on it gets a second page without the other shared
    template, which it can still read by key: inserting one row made the
    listing skip another. *)
Theorem shared_list_skips :
  ∃ p1 p2 s',
    run overlayEnv listOverrideList sharingProvider = (inr (p1, p2), s') ∧
    t_ID <$> res_Items p1 = ["a"] ∧ t_ID <$> res_Items p2 = ["own"] ∧ res_NextCursor p2 = "" ∧
    ∃ v s2, run overlayEnv (sharedTemplates_GetByKey (mkPlatformStore "acme" false) "receipt") s' = (inr v, s2) ∧
      t_ID v = "b".
Proof.
  destruct (run overlayEnv listOverrideList sharingProvider) as [[e|[p1 p2]] s'] eqn:Hr; vm_compute in Hr; [done|].
  injection Hr as <- <- <-. do 3 eexists. split_and!; [reflexivity..|]. do 2 eexists.
  split; vm_compute; reflexivity.
Qed.

(** ** Concrete runs *)

Lemma sharing_tables :
  tableOk templateMeta (templates newTenantData) ∧
  tableOk templateMeta (templates (dataOf SystemTenantID sharingProvider)).
Proof.
  split; (split; [intros id v|intros k id1 id2 v1 v2 [= <-]]).
  - cbn. by rewrite lookup_empty.
  - cbn. by rewrite lookup_empty.
  - change (templates (dataOf SystemTenantID sharingProvider)) with
      (<["a" := sharedTpl "a" "welcome"]> (<["b" := sharedTpl "b" "receipt"]> (∅ : gmap string Template))).
    by intros [[<- <-]|[_ [[<- <-]|[_ H]]%lookup_insert_Some]]%lookup_insert_Some; [..|rewrite lookup_empty in H].
  - change (templates (dataOf SystemTenantID sharingProvider)) with
      (<["a" := sharedTpl "a" "welcome"]> (<["b" := sharedTpl "b" "receipt"]> (∅ : gmap string Template))).
    intros [[<- <-]|[_ [[<- <-]|[_ H]]%lookup_insert_Some]]%lookup_insert_Some; [| |by rewrite lookup_empty in H];
      (intros [[<- <-]|[_ [[<- <-]|[_ H2]]%lookup_insert_Some]]%lookup_insert_Some; [| |by rewrite lookup_empty in H2]); done.
Qed.

Lemma shared_template_resolution_witness :
  seenByKey t_Key t_Shared markTemplate unmarkTemplate ∅ (templates (dataOf SystemTenantID sharingProvider)) "welcome"
    (run overlayEnv (sharedTemplates_GetByKey (mkPlatformStore "acme" false) "welcome") sharingProvider).1 ∧
  (run overlayEnv (sharedTemplates_Delete (mkPlatformStore "acme" false) "b") sharingProvider).1 = inl ErrReadOnly.
Proof.
  destruct (shared_template_resolution overlayEnv "acme" sharingProvider newTenantData) as (Hk&_&Hw).
  - by apply (bool_decide_unpack _); vm_compute.
  - reflexivity.
  - reflexivity.
  - apply sharing_tables.
  - apply sharing_tables.
  - split; [by apply Hk|].
    by destruct (Hw (sharedTpl "b" "receipt") (sharedTpl "b" "receipt") eq_refl eq_refl eq_refl) as (_&Hd&_).
Defined.
