(* ===== verification/ProbeInbound.v ===== *)
(** * The inbound probe webhook ([internal/probe/inbound], [sendplanehook],
      [internal/api/probeinbound.go], [probe.go])

    The second way a probe mail comes back: a forwarder posts its headers.  The
    formats and their registry, the routes a configuration gives, and the
    handler: it checks the request's signature, reads the messages, finds the
    tenant in the signed token of each, and completes the run.  A request is a
    program over the stores and the memo of handled deliveries that all requests
    share.  [ProbeInboundProps] holds the theorems. *)

From S2P Require Import Prelude Enums Model MemTable MemData DeliveryRepo Repos Provider Prog Settings Classify Codec Tokens Email Text SigV1 Platform BounceReport NetIP Spf DnsCheck ProbeHeaders MailboxHealth Probe ProbeCollect.

(** ** Messages and formats ([inbound.go]) *)

Definition MaxBodyBytes : Z := 2 ^ 20.
Definition ErrBadPayload : error := errNamed "inbound: malformed payload".
Definition ErrTooLarge : error := errNamed "inbound: payload too large".

(** [inbound.Message] *)
Record InboundMessage := mkInboundMessage {
  ibm_ProviderID : string;
  ibm_From : string;
  ibm_To : list string;
  ibm_Headers : gmap string (list string);
  ibm_Text : string;
}.

(** [textproto.CanonicalMIMEHeaderKey] on any text: a name with a byte that
    cannot be in a field name is returned as it is. *)
Definition validHeaderFieldByte (c : Ascii.ascii) : bool :=
  let n := byteVal c in
  ((48 <=? n) && (n <=? 57)) || ((65 <=? n) && (n <=? 90)) || ((97 <=? n) && (n <=? 122)) ||
  contains [33; 35; 36; 37; 38; 39; 42; 43; 45; 46; 94; 95; 96; 124; 126] n.
Fixpoint allFieldBytes (s : string) : bool := match s with EmptyString => true | String c s' => validHeaderFieldByte c && allFieldBytes s' end.
Definition canonicalKey (name : string) : string := if allFieldBytes name then CanonicalMIMEHeaderKey name else name.

(** [Message.Header] and [Message.Subject] *)
Definition msgHeader (m : InboundMessage) (name : string) : string :=
  match ibm_Headers m !! canonicalKey name with Some (v :: _) => v | _ => "" end.
Definition msgSubject (m : InboundMessage) : string := msgHeader m "Subject".

(** [Outcome] and its text *)
Inductive InboundOutcome := OutcomeAccepted | OutcomeIgnored | OutcomeDeferred.
#[global] Instance InboundOutcome_eq_dec : EqDecision InboundOutcome.
Proof. solve_decision. Defined.
Definition outcomeString (o : InboundOutcome) : string :=
  match o with OutcomeAccepted => "accepted" | OutcomeIgnored => "ignored" | OutcomeDeferred => "deferred" end.

(** [Provider]: its methods, whether it is a [ToleranceSetter] too, and the
    tolerance it was given.  [Verify] gets the tolerance, the request's headers,
    the body, the secrets and the clock. *)
Record InboundProvider := mkInboundProvider {
  ip_Name : string;
  ip_Timestamped : bool;
  ip_Tolerance : Duration;
  ip_Verify : Duration → (string → string) → string → list string → Time → error + unit;
  ip_Parse : string → error + list InboundMessage;
}.
#[global] Instance InboundProvider_eta : Eta InboundProvider := λ p,
  mkInboundProvider (ip_Name p) (ip_Timestamped p) (ip_Tolerance p) (ip_Verify p) (ip_Parse p).

(** [WithTolerance] of a [ToleranceSetter] *)
Definition WithTolerance (p : InboundProvider) (d : Duration) : InboundProvider := p <| ip_Tolerance := d |>.

(** The registry.  [Register]'s panics are [None]. *)
Definition inboundRegistry : Type := gmap string InboundProvider.
Definition Register (reg : inboundRegistry) (p : InboundProvider) : option inboundRegistry :=
  if strEq (ip_Name p) "" then None
  else match reg !! ip_Name p with Some _ => None | None => Some (<[ip_Name p := p]> reg) end.
Definition LookupProvider (reg : inboundRegistry) (name : string) : option InboundProvider := reg !! name.
Definition Names (reg : inboundRegistry) : list string := sortStrings (elements (dom reg)).
Definition DefaultPath (name : string) : string := "/probe/inbound/" +:+ name.

(** ** The format sendplane ships ([sendplanehook.go]) *)

Definition HeaderSignature : string := "X-Sendplane-Signature".

Record hookPayload := mkHookPayload {
  hk_From : string; hk_To : list string; hk_Headers : gmap string (list string); hk_Text : string;
}.

Section hook.
(** HMAC-SHA256 and SHA-256 with their raw bytes, [json.Unmarshal] of a payload,
    and the order in which a map is ranged over, given its keys. *)
Context (hmac : string → string → string) (sha256 : string → string)
        (unmarshal : string → option hookPayload) (shuffle : list string → list string).

(** [BodyID] *)
Definition BodyID (body : string) : string := EncodeToString (sha256 body).

(** [canonical] *)
Definition canonicalAdd (headers : gmap string (list string)) (out : gmap string (list string)) (name : string) : gmap string (list string) :=
  let values := default [] (headers !! name) in
  let name := TrimSpace name in
  if strEq name "" || existsb (λ c, hasByte (toByte c) name) [32; 58; 13; 10; 9] then out
  else let key := canonicalKey name in <[key := default [] (out !! key) ++ values]> out.
Definition canonicalHeaders (headers : gmap string (list string)) : gmap string (list string) :=
  foldl (canonicalAdd headers) ∅ (shuffle (elements (dom headers))).

(** [Parse] *)
Definition hookParse (body : string) : error + list InboundMessage :=
  if MaxBodyBytes <? strLen body then inl ErrTooLarge
  else
    match unmarshal body with
    | None => inl ErrBadPayload
    | Some p =>
        if strEq (TrimSpace (hk_From p)) "" then inl ErrBadPayload
        else inr [mkInboundMessage (BodyID body) (TrimSpace (hk_From p)) (hk_To p) (canonicalHeaders (hk_Headers p)) (hk_Text p)]
    end.

(** [Verify] with the format's tolerance *)
Definition hookVerify (tolerance : Duration) (header : string → string) (body : string) (secrets : list string) (now : Time) : error + unit :=
  sigVerify hmac (header HeaderSignature) body secrets now tolerance.

(** [sendplanehook.Provider{}] *)
Definition hookProvider : InboundProvider := mkInboundProvider "sendplane" true 0 hookVerify hookParse.

(** What [init] registers. *)
Definition hookRegistry : inboundRegistry := {["sendplane" := hookProvider]}.
End hook.

(** ** The configured routes ([probeInboundRoutes]) *)

(** [host.ProbeWebhook] *)
Record ProbeWebhook := mkProbeWebhook {
  wb_Provider : string; wb_Secrets : list string; wb_Path : string; wb_Tolerance : Duration;
}.

(** [ProbeInboundRoute] *)
Record ProbeInboundRoute := mkProbeInboundRoute {
  rt_Path : string; rt_Provider : InboundProvider; rt_Secrets : list string;
}.

Definition errUnknownProvider : error := errNamed "sendplane: probe webhook provider is unknown".
Definition errNeedsSecret : error := errNamed "sendplane: probe webhook needs a secret".
Definition errNoTimestamp : error := errNamed "sendplane: a tolerance means nothing to the probe webhook".
Definition errNegativeTolerance : error := errNamed "sendplane: probe webhook has a negative tolerance".
Definition errPathTwice : error := errNamed "sendplane: probe webhook path is configured twice".

Section routes.
Context (reg : inboundRegistry).

(** One webhook, given the paths taken. *)
Definition routeOf (seen : gset string) (w : ProbeWebhook) : error + ProbeInboundRoute :=
  match LookupProvider reg (wb_Provider w) with
  | None => inl errUnknownProvider
  | Some p =>
      let secrets := filter (λ s, s ≠ "") (wb_Secrets w) in
      if bool_decide (secrets = []) then inl errNeedsSecret
      else if negb (wb_Tolerance w =? 0) && negb (ip_Timestamped p) then inl errNoTimestamp
      else if negb (wb_Tolerance w =? 0) && (wb_Tolerance w <? 0) then inl errNegativeTolerance
      else
        let p := if wb_Tolerance w =? 0 then p else WithTolerance p (wb_Tolerance w) in
        let path := if strEq (wb_Path w) "" then DefaultPath (ip_Name p) else wb_Path w in
        if bool_decide (path ∈ seen) then inl errPathTwice
        else inr (mkProbeInboundRoute path p secrets)
  end.

Fixpoint routesFrom (webhooks : list ProbeWebhook) (seen : gset string) (out : list ProbeInboundRoute) : error + list ProbeInboundRoute :=
  match webhooks with
  | [] => inr out
  | w :: webhooks' =>
      match routeOf seen w with
      | inl e => inl e
      | inr r => routesFrom webhooks' ({[rt_Path r]} ∪ seen) (out ++ [r])
      end
  end.

(** [probeInboundRoutes]; [enabled]: there is a runner. *)
Definition probeInboundRoutes (enabled : bool) (webhooks : list ProbeWebhook) : error + list ProbeInboundRoute :=
  if bool_decide (webhooks = []) || negb enabled then inr [] else routesFrom webhooks ∅ [].
End routes.

(** ** The memo ([deliveryMemo]) *)

Definition seenProviderIDs : Z := 512.

Record deliveryMemo := mkDeliveryMemo { dm_seen : gset string; dm_order : list string }.
#[global] Instance deliveryMemo_eta : Eta deliveryMemo := λ m, mkDeliveryMemo (dm_seen m) (dm_order m).

Definition newDeliveryMemo : deliveryMemo := mkDeliveryMemo ∅ [].

(** [has] *)
Definition memoHas (id : string) (m : deliveryMemo) : bool := if strEq id "" then false else bool_decide (id ∈ dm_seen m).

(** [add] *)
Definition memoAdd (id : string) (m : deliveryMemo) : deliveryMemo :=
  if strEq id "" then m
  else if bool_decide (id ∈ dm_seen m) then m
  else
    let m := mkDeliveryMemo ({[id]} ∪ dm_seen m) (dm_order m ++ [id]) in
    if seenProviderIDs <? len (dm_order m)
    then match dm_order m with
         | oldest :: order => mkDeliveryMemo (dm_seen m ∖ {[oldest]}) order
         | [] => m
         end
    else m.

(** ** The handler ([probeinbound.go]) *)

(** The stores and the server's memo. *)
Record webWorld := mkWebWorld { ww_store : Provider; ww_memo : deliveryMemo }.
#[global] Instance webWorld_eta : Eta webWorld := λ w, mkWebWorld (ww_store w) (ww_memo w).

(** A program on the stores; the operations of the memo run under its mutex. *)
Fixpoint webStores {B} (p : progOn Provider B) : progOn webWorld B :=
  match p with
  | Done r => Done r
  | Call op k => Call (λ env w, let '(r, s) := op env (ww_store w) in (r, w <| ww_store := s |>)) (λ r, webStores (k r))
  | Poll k => Poll (λ b, webStores (k b))
  end.
Definition webHas (id : string) : progOn webWorld bool := call (λ _ w, (inr (memoHas id (ww_memo w)), w)).
Definition webAdd (id : string) : progOn webWorld unit := call (λ _ w, (inr tt, w <| ww_memo := memoAdd id (ww_memo w) |>)).
Definition webClock : progOn webWorld Time := call (λ env w, (inr (e_clock env), w)).

(** The text after the first occurrence of [sep]. *)
Fixpoint afterText (sep s : string) : option string :=
  if String.prefix sep s then Some (strDrop (String.length sep) s)
  else match s with EmptyString => None | String _ s' => afterText sep s' end.

(** [probeRunIDFromSubject]; what it finds is logged. *)
Definition probeRunIDFromSubject (subject : string) : option string :=
  match afterText "[sendplane probe " subject with
  | None => None
  | Some rest =>
      match cutByte (toByte 93) rest with
      | Some (id, _) => if strEq id "" then None else Some id
      | None => None
      end
  end.

(** The answer to a request: an error with its code, or the outcome's text; both
    with the [Retry-After] header, empty if there is none. *)
Inductive inboundReply :=
  | errorReply (status : Z) (code retryAfter : string)
  | textReply (status : Z) (retryAfter text : string).

(** [replyInbound] *)
Definition replyInbound (o : InboundOutcome) : inboundReply :=
  if bool_decide (o = OutcomeDeferred) then textReply 503 "60" (outcomeString o) else textReply 200 "" (outcomeString o).

Section handler.
(** [fuel] bounds the pages of a listing of a sender's runs. *)
Context (A : probeArgs) (shuffle : list string → list string) (fuel : nat).

(** An error of the stores: what is not there stays away, an outage passes. *)
Definition outcomeOf (e : error) : InboundOutcome := if errIs e ErrNotFound then OutcomeIgnored else OutcomeDeferred.

Definition inboundEvidence (box : option ProbeMailbox) (msg : InboundMessage) : Evidence :=
  let headers := HeadersFromMap (ibm_Headers msg) in
  mkEvidence box headers "" zeroTime (HeadersString headers).

(** From the verdict on. *)
Definition completeInbound (st : string) (run : ProbeRun) (box : option ProbeMailbox) (msg : InboundMessage) : progOn webWorld InboundOutcome :=
  let? now := webClock in
  handle (webStores (inTenant st (CompleteRun A run (inboundEvidence box msg) now))) (λ r,
    match r with
    | inl _ => pret OutcomeDeferred
    | inr _ =>
        handle (webStores (inTenant st (RefreshSenderHealth A shuffle fuel (pr_SenderID run) now))) (λ _,
        handle (match box with
                | Some b => webStores (inTenant st (recordHealthOf A b OK now))
                | None => pret tt
                end) (λ _,
        webAdd (ibm_ProviderID msg);?
        pret OutcomeAccepted))
    end).

(** [handleInboundMessage] *)
Definition handleInboundMessage (msg : InboundMessage) : progOn webWorld InboundOutcome :=
  let token := TrimSpace (msgHeader msg ProbeHeader) in
  if strEq token "" then pret OutcomeIgnored
  else
    let? dup := webHas (ibm_ProviderID msg) in
    if dup then pret OutcomeAccepted
    else
      match ParseToken token with
      | None => pret OutcomeIgnored
      | Some (tenantID, runID) =>
          handle (webStores (call (λ _, ForTenant tenantID))) (λ r,
            match r with
            | inl e => pret (outcomeOf e)
            | inr st =>
                handle (webStores (tcall st (λ env, zoom (field probeRuns) (Get env runID)))) (λ r,
                  match r with
                  | inl e => pret (outcomeOf e)
                  | inr run =>
                      if negb (VerifyToken A tenantID runID token) then pret OutcomeIgnored
                      else if negb (pr_Pending run) then webAdd (ibm_ProviderID msg);? pret OutcomeAccepted
                      else
                        handle (webStores (tcall st (λ env, zoom (field probeMailboxes) (Get env (pr_MailboxID run))))) (λ r,
                          match r with
                          | inl e => if errIs e ErrNotFound then completeInbound st run None msg else pret OutcomeDeferred
                          | inr box => completeInbound st run (Some box) msg
                          end)
                  end)
            end)
      end.

(** The loop over the messages of a request. *)
Fixpoint handleMessages (msgs : list InboundMessage) (outcome : InboundOutcome) : progOn webWorld InboundOutcome :=
  match msgs with
  | [] => pret outcome
  | msg :: msgs' =>
      let? o := handleInboundMessage msg in
      match o with
      | OutcomeDeferred => pret OutcomeDeferred
      | OutcomeAccepted => handleMessages msgs' OutcomeAccepted
      | OutcomeIgnored => handleMessages msgs' outcome
      end
  end.

(** What [io.ReadAll] gets of a body of which [sent] arrives, and then the end
    or a broken connection. *)
Inductive bodyRead := bodyTooLarge | bodyFailed | bodyBytes (body : string).
Definition readBody (sent : string) (broken : bool) : bodyRead :=
  if MaxBodyBytes <? strLen sent then bodyTooLarge else if broken then bodyFailed else bodyBytes sent.

(** [probeInboundHandler]; [allowed] is the rate limiter's answer. *)
Definition probeInboundHandler (route : ProbeInboundRoute) (allowed : bool) (header : string → string) (sent : string) (broken : bool)
    : progOn webWorld inboundReply :=
  if negb allowed then pret (errorReply 429 "rate_limited" "1")
  else
    match readBody sent broken with
    | bodyTooLarge => pret (errorReply 413 "limit_exceeded" "")
    | bodyFailed => pret (errorReply 400 "invalid_request" "")
    | bodyBytes body =>
        let p := rt_Provider route in
        let? now := webClock in
        match ip_Verify p (ip_Tolerance p) header body (rt_Secrets route) now with
        | inl _ => pret (errorReply 401 "unauthenticated" "")
        | inr _ =>
            match ip_Parse p body with
            | inl _ => pret (errorReply 400 "invalid_request" "")
            | inr msgs =>
                let? outcome := handleMessages msgs OutcomeIgnored in
                pret (replyInbound outcome)
            end
        end
    end.
End handler.
