(* ===== verification/ProbeInboundProps.v ===== *)
(** * Properties of the inbound probe webhook

    Which stores a request can change and what it can write there, in every
    interleaving; what each outcome means for the run and for a redelivery; the
    memo; the routes a configuration gives; and the headers of a payload. *)

From S2P Require Import Prelude Enums Model MemTable MemData DeliveryRepo DeliveryQueue Repos Provider Prog Settings Classify Codec Tokens Email Text SigV1 Platform BounceReport NetIP Spf DnsCheck ProbeHeaders MailboxHealth Probe ProbeCollect ProbeProps Overlay OverlayState ProbeInbound.

(** ** What a request writes *)

Section writes.
Context (A : probeArgs) (shuffle : list string → list string) (fuel : nat).

(** A run closed by a mail that came back, with the evidence of its verdict. *)
Definition judged (r : ProbeRun) : Prop :=
  pr_Pending r = false ∧ pr_Delivered r = true ∧
  match pr_Status r with
  | HealthGreen => authPassed A r
  | HealthRed => authFailed A r
  | HealthYellow => True
  | HealthUnknown => False
  end.

(** A step closes runs in that way and does nothing else to them. *)
Definition judges (a b : tenantData) : Prop :=
  dom (probeRuns b) = dom (probeRuns a) ∧
  ∀ id r, probeRuns b !! id = Some r → probeRuns a !! id ≠ Some r → judged r.

#[local] Instance judges_about : AboutRuns judges.
Proof. intros a b Hab. unfold judges. rewrite Hab. split; [done|]. by intros id r Hr []. Qed.

Lemma completedRun_judged run ev now report : judged (completedRun A run ev now report).
Proof.
  destruct (completedRun_fields A run ev now report) as (o&Hd&Hp&Hde&H1&H2&H3&H4&H5&Hs).
  pose proof (Verdict_evidence A o Hd) as Hv. split_and!; [done..|].
  unfold authPassed, authFailed. rewrite H1, H2, H3, H4, H5. destruct Hs as [->| ->]; [|done]. by destruct (Verdict _ o).1.
Qed.

Lemma judged_stored env cur r : judged r → judged (scrubbed probeRunMeta (truncateRow probeRunMeta (updateRow probeRunMeta env cur r))).
Proof. unfold judged, authPassed, authFailed. cbn. done. Qed.

(** Saving a run: an error changes nothing. *)
Lemma UpdateRun_cases env r td :
  (∃ e, UpdateRun env r td = (inl e, td)) ∨
  (∃ cur row, probeRuns td !! pr_ID r = Some cur ∧ row = scrubbed probeRunMeta (truncateRow probeRunMeta (updateRow probeRunMeta env cur r)) ∧
     (UpdateRun env r td).2 = td <| probeRuns := <[pr_ID r := row]> (probeRuns td) |> ∧ ∃ v, (UpdateRun env r td).1 = inr v).
Proof.
  unfold UpdateRun, zoomWith. destruct (Update probeRunMeta env (r, lget (field probeRuns) td)) as [[e|[]] [v rows]] eqn:E.
  - left. exists e. assert (Hrows : rows = probeRuns td).
    { revert E. unfold Update, checked, throw. repeat (case_match; try done); naive_solver. }
    subst. by destruct td.
  - right. apply Update_inv in E as (cur&_&Hc&_&_&->&->). exists cur. eexists. split_and!; [exact Hc|done|done|by eexists].
Qed.

Abbreviation judging := (stepsOk (λ _ _, True) judges).

Lemma judging_CompleteRun run ev now : judging (CompleteRun A run ev now).
Proof.
  apply closing_pbind; [rapply closing_tryDNS|]. intros rep. apply closing_pbind; [|intros; apply closing_done].
  intros td. apply wp_call. intros env td0 _. split; [|done]. pose proof (completedRun_judged run ev now rep) as Hj. revert Hj.
  generalize (completedRun A run ev now rep) as r. intros r Hj.
  destruct (UpdateRun_cases env r td0) as [[e ->]|(cur&row&Hc&->&->&_)]; [by apply judges_about|]. split; cbn.
  - rewrite dom_insert_L. apply elem_of_dom_2 in Hc. set_solver.
  - intros id x [[_ <-]|[_ Hx]]%lookup_insert_Some Hne; [by apply judged_stored|done].
Qed.

(** *** Steps over all stores *)

(** A provider never forgets a tenant. *)
Definition keepsTenants (a b : webWorld) : Prop :=
  ∀ t, is_Some (pv_tenants (ww_store a) !! t) → is_Some (pv_tenants (ww_store b) !! t).

(** The tenants in [may] have runs judged, and no other tenant's data changes;
    a tenant that is opened is empty. *)
Definition webStep (may : string → Prop) (a b : webWorld) : Prop :=
  pv_closed (ww_store b) = pv_closed (ww_store a) ∧ keepsTenants a b ∧
  ∀ t, dataOf t (ww_store b) = dataOf t (ww_store a) ∨ (may t ∧ judges (dataOf t (ww_store a)) (dataOf t (ww_store b))).

Lemma webStep_refl may a b : ww_store a = ww_store b → webStep may a b.
Proof. intros He. unfold webStep, keepsTenants. rewrite He. split_and!; [done..|]. intros t. by left. Qed.

Section steps.
(** [P]: a tenant that has been opened, if any. *)
Context (may : string → Prop) (tenant : option string).

Definition present (w : webWorld) : Prop := ∀ t, tenant = Some t → is_Some (pv_tenants (ww_store w) !! t).

Lemma present_kept a b : present a → keepsTenants a b → present b.
Proof. intros Ha Hab t Ht. by apply Hab, Ha. Qed.

(** Every step of [p] is such a step, whatever the others do. *)
Definition webOk {B} (p : progOn webWorld B) : Prop :=
  ∀ w, present w → wp keepsTenants (webStep may) p (λ _ w', present w') w.

Lemma webOk_done {B} (r : error + B) : webOk (Done r).
Proof. by intros w. Qed.

Lemma webOk_handle {B C} (p : progOn webWorld B) (k : error + B → progOn webWorld C) : webOk p → (∀ r, webOk (k r)) → webOk (handle p k).
Proof. intros Hp Hk w Hw. apply wp_handle. eapply wp_mono; [|by apply Hp]. intros r w' Hw'. by apply Hk. Qed.

Lemma webOk_pbind {B C} (p : progOn webWorld B) (k : B → progOn webWorld C) : webOk p → (∀ a, webOk (k a)) → webOk (pbind p k).
Proof. intros Hp Hk. apply webOk_handle; [done|]. intros [e|a]; [apply webOk_done|apply Hk]. Qed.

Lemma webOk_call {B} (op : Env → M webWorld B) : (∀ env w, webStep may w (op env w).2) → webOk (call op).
Proof.
  intros Hop w Hw. apply wp_call. intros env w0 HR. split; [apply Hop|].
  eapply present_kept; [|apply Hop]. by eapply present_kept.
Qed.

Lemma webOk_has id : webOk (webHas id).
Proof. apply webOk_call. intros env w. by apply webStep_refl. Qed.
Lemma webOk_add id : webOk (webAdd id).
Proof. apply webOk_call. intros env w. by apply webStep_refl. Qed.
Lemma webOk_clock : webOk webClock.
Proof. apply webOk_call. intros env w. by apply webStep_refl. Qed.

(** With arbitrary others a program is as safe from one state as from another. *)
Lemma wp_anywhere {S B} (G : S → S → Prop) (p : progOn S B) s s' :
  wp (λ _ _, True) G p (λ _ _, True) s → wp (λ _ _, True) G p (λ _ _, True) s'.
Proof. revert s s'. induction p as [r|C op k IH|k IH]; intros s s'; cbn [wp]; [done|done|]. intros Hk b. by eapply IH. Qed.

(** A step of a tenant's data is a step of all. *)
Lemma webStep_tenant t td td' w :
  pv_tenants (ww_store w) !! t = Some td → td' = td ∨ (may t ∧ judges td td') →
  webStep may w (w <| ww_store := (ww_store w) <| pv_tenants := <[t := td']> (pv_tenants (ww_store w)) |> |>).
Proof.
  intros Ht Htd. split_and!; [done| |].
  - intros t' Ht'. cbn. destruct (decide (t' = t)) as [->|Hne]; [by rewrite lookup_insert_eq|by rewrite lookup_insert_ne].
  - intros t'. unfold dataOf. cbn. destruct (decide (t' = t)) as [->|Hne]; [|left; by rewrite lookup_insert_ne].
    rewrite lookup_insert_eq, Ht. cbn. naive_solver.
Qed.

(** A program of the tenant that is open. *)
Lemma webOk_inTenant {B} t (p : prog B) (G : tenantData → tenantData → Prop) :
  tenant = Some t → (∀ a b, G a b → b = a ∨ (may t ∧ judges a b)) → stepsOk (λ _ _, True) G p → webOk (webStores (inTenant t p)).
Proof.
  intros Ho HG Hp. induction p as [r|C op k IH|k IH]; cbn [inTenant webStores].
  - apply webOk_done.
  - intros w Hw env w0 HR. cbn. unfold onStore. pose proof (present_kept _ _ Hw HR) as Hw0. destruct (Hw0 t Ho) as [td Ht]. rewrite Ht.
    specialize (Hp td) as Hc. cbn in Hc. specialize (Hc (mkEnv (pv_closed (ww_store w0)) (e_clock env) t (e_newID env)) td I).
    destruct (op _ td) as [r td'] eqn:Hop. destruct Hc as [Hg Hk].
    assert (Hst : webStep may w0 (w0 <| ww_store := (ww_store w0) <| pv_tenants := <[t := td']> (pv_tenants (ww_store w0)) |> |>))
      by (eapply webStep_tenant; [done|by apply HG]).
    split; [done|]. apply IH; [|by eapply present_kept; [|apply Hst]]. intros td0. by eapply wp_anywhere.
  - intros w Hw b. apply IH; [|done]. intros td0. apply (Hp td0).
Qed.

Lemma webOk_read {B} t (op : Env → M tenantData B) :
  tenant = Some t → (∀ env td, (op env td).2 = td) → webOk (webStores (tcall t op)).
Proof.
  intros Ho Hop. apply (webOk_inTenant t _ (λ a b, b = a)); [done|by left|]. intros td. apply wp_call. intros env td0 _. by split.
Qed.

Lemma webOk_judging {B} t (p : prog B) : tenant = Some t → may t → judging p → webOk (webStores (inTenant t p)).
Proof. intros Ho Hm. apply webOk_inTenant; [done|]. intros a b Hab. by right. Qed.
End steps.

(** Opening a store. *)
Lemma ForTenant_data t s t' : pv_closed (ForTenant t s).2 = pv_closed s ∧ dataOf t' (ForTenant t s).2 = dataOf t' s.
Proof.
  unfold ForTenant, pchecked, dataOf. destruct (pv_closed s) eqn:Hc; [by cbn|]. destruct (pv_tenants s !! t) eqn:Ht; cbn; [done|].
  split; [done|]. destruct (decide (t' = t)) as [->|Hne]; [by rewrite lookup_insert_eq, Ht|by rewrite lookup_insert_ne].
Qed.

Lemma ForTenant_present t s :
  (∀ t', is_Some (pv_tenants s !! t') → is_Some (pv_tenants (ForTenant t s).2 !! t')) ∧
  ∀ st, (ForTenant t s).1 = inr st → st = t ∧ is_Some (pv_tenants (ForTenant t s).2 !! t).
Proof.
  unfold ForTenant, pchecked. destruct (pv_closed s); [done|]. destruct (pv_tenants s !! t) eqn:Ht; cbn.
  - split; [done|]. intros st [= <-]. by rewrite Ht.
  - split; [|intros st [= <-]; by rewrite lookup_insert_eq]. intros t' Ht'.
    destruct (decide (t' = t)) as [->|Hne]; [by rewrite lookup_insert_eq|by rewrite lookup_insert_ne].
Qed.

Lemma webOk_open {B} may t (k : error + string → progOn webWorld B) :
  (∀ e, webOk may None (k (inl e))) → webOk may (Some t) (k (inr t)) → webOk may None (handle (webStores (call (λ _, ForTenant t))) k).
Proof.
  intros He Hk w _. apply wp_handle. intros env w0 HR. cbn.
  destruct (ForTenant_present t (ww_store w0)) as [Hkeep Hst]. pose proof (λ t', ForTenant_data t (ww_store w0) t') as Hd.
  destruct (ForTenant t (ww_store w0)) as [r s]. cbn in *. split.
  - split_and!; [apply (Hd "")|done|]. intros t'. left. apply Hd.
  - destruct r as [e|st]; [by apply He|]. destruct (Hst st eq_refl) as [-> Hs].
    eapply wp_mono; [|apply Hk]; [done|]. by intros t' [= <-].
Qed.

(** *** The messages *)

Definition tokenOf (msg : InboundMessage) : string := TrimSpace (msgHeader msg ProbeHeader).

(** A message carries a token of tenant [t] that verifies. *)
Definition grants (msg : InboundMessage) (t : string) : Prop :=
  ∃ runID, ParseToken (tokenOf msg) = Some (t, runID) ∧ VerifyToken A t runID (tokenOf msg) = true.

Lemma webOk_complete may t run box msg : may t → webOk may (Some t) (completeInbound A shuffle fuel t run box msg).
Proof.
  intros Hm. apply webOk_pbind; [apply webOk_clock|]. intros now. apply webOk_handle; [by apply webOk_judging, judging_CompleteRun|].
  intros [e|[]]; [apply webOk_done|]. apply webOk_handle; [apply webOk_judging; [done|done|rapply closing_refresh]|]. intros _.
  apply webOk_handle; [destruct box; [apply webOk_judging; [done|done|rapply closing_record]|apply webOk_done]|]. intros _.
  apply webOk_pbind; [apply webOk_add|]. intros _. apply webOk_done.
Qed.

Lemma zoom_read {T B} (l : lens tenantData (gmap string T)) (op : M (gmap string T) B) td :
  (∀ rows, (op rows).2 = rows) → (∀ td, lset l (lget l td) td = td) → (zoom l op td).2 = td.
Proof. intros Hop Hl. unfold zoom. specialize (Hop (lget l td)). destruct (op (lget l td)) as [r rows]. cbn in *. by rewrite Hop, Hl. Qed.

Lemma webOk_message (may : string → Prop) msg : (∀ t, grants msg t → may t) → webOk may None (handleInboundMessage A shuffle fuel msg).
Proof.
  intros Hm. unfold handleInboundMessage. fold (tokenOf msg). case_match; [apply webOk_done|]. apply webOk_pbind; [apply webOk_has|].
  intros []; [apply webOk_done|]. destruct (ParseToken (tokenOf msg)) as [[t runID]|] eqn:Hp; [|apply webOk_done].
  apply webOk_open; [intros e; apply webOk_done|]. apply webOk_handle.
  { apply webOk_read; [done|]. intros env td. apply zoom_read; [intros rows; apply Get_rows|by intros []]. }
  intros [e|run]; [apply webOk_done|]. destruct (VerifyToken A t runID (tokenOf msg)) eqn:Hv; [|apply webOk_done].
  assert (Ht : may t) by (apply Hm; by exists runID). cbn [negb].
  destruct (negb (pr_Pending run)); [apply webOk_pbind; [apply webOk_add|intros; apply webOk_done]|]. apply webOk_handle.
  { apply webOk_read; [done|]. intros env td. apply zoom_read; [intros rows; apply Get_rows|by intros []]. }
  intros [e|box]; [case_match; [|apply webOk_done]|]; by apply webOk_complete.
Qed.

Lemma webOk_messages (may : string → Prop) msgs o :
  (∀ msg t, msg ∈ msgs → grants msg t → may t) → webOk may None (handleMessages A shuffle fuel msgs o).
Proof.
  revert o. induction msgs as [|msg msgs IH]; intros o Hm; cbn [handleMessages]; [apply webOk_done|].
  apply webOk_pbind; [apply webOk_message; intros t; apply Hm; by left|].
  assert (Hr : ∀ msg' t, msg' ∈ msgs → grants msg' t → may t) by (intros msg' t Hin; apply Hm; by right).
  intros []; [by apply IH|by apply IH|apply webOk_done].
Qed.

(** The tenants a request may write: it passed the limits and the signature
    check, and one of its messages carries a token of theirs that verifies. *)
Definition grantedBy (route : ProbeInboundRoute) (allowed : bool) (header : string → string) (sent : string) (broken : bool) (t : string) : Prop :=
  allowed = true ∧ strLen sent ≤ MaxBodyBytes ∧ broken = false ∧
  (∃ now, ip_Verify (rt_Provider route) (ip_Tolerance (rt_Provider route)) header sent (rt_Secrets route) now = inr tt) ∧
  ∃ msgs msg, ip_Parse (rt_Provider route) sent = inr msgs ∧ msg ∈ msgs ∧ grants msg t.

(** C39 (safety): In every interleaving with other requests, collectors and
    whatever else uses the stores, an inbound webhook request changes only the
    data of tenants for which one of its messages carries a probe token that
    verifies, in a body within the size limit whose signature the route's
    secrets verify; what it writes to their runs is closed runs of delivered
    mail with the evidence of the verdict on them, and no run appears or
    disappears.  All other tenants keep their data. *)
Theorem inbound_writes_verified route allowed header sent broken w tr r w' :
  exec keepsTenants (probeInboundHandler A shuffle fuel route allowed header sent broken) w tr r w' →
  Forall (λ s, webStep (grantedBy route allowed header sent broken) s.1 s.2) tr.
Proof.
  intros He. eapply wp_sound in He as [Htr _]; [exact Htr|].
  assert (Hok : webOk (grantedBy route allowed header sent broken) None (probeInboundHandler A shuffle fuel route allowed header sent broken)).
  2: { by apply Hok. }
  unfold probeInboundHandler. destruct allowed; [|apply webOk_done]. unfold readBody. cbn [negb].
  destruct (Z.ltb_spec MaxBodyBytes (strLen sent)); [apply webOk_done|]. destruct broken; [apply webOk_done|].
  apply webOk_pbind; [apply webOk_clock|]. intros now. destruct (ip_Verify _ _ _ _ _ now) as [e|[]] eqn:Hv; [apply webOk_done|].
  destruct (ip_Parse _ _) as [e|msgs] eqn:Hp; [apply webOk_done|]. apply webOk_pbind; [|intros; apply webOk_done].
  apply webOk_messages. intros msg t Hin Hg. unfold grantedBy. split_and!; [done..|by exists now|by exists msgs, msg].
Qed.
End writes.

(** ** Runs alone *)

Lemma run_webStores {B} env (p : progOn Provider B) w :
  run env (webStores p) w = let '(r, s) := run env p (ww_store w) in (r, w <| ww_store := s |>).
Proof.
  revert w. induction p as [r|C op k IH|k IH]; intros w; cbn [webStores run]; [by destruct w| |by apply IH].
  destruct (op env (ww_store w)) as [r s]. rewrite IH. cbn. by destruct (run env (k r) s).
Qed.

Lemma run_inTenant {B} env t (p : prog B) s td :
  pv_closed s = false → pv_tenants s !! t = Some td →
  run env (inTenant t p) s = let '(r, td') := run (storeEnv env t) p td in (r, setData t td' s).
Proof.
  revert s td. induction p as [r|C op k IH|k IH]; intros s td Hc Ht; cbn [inTenant run]; [by rewrite setData_id| |by apply IH].
  unfold onStore. rewrite Ht, Hc. fold (storeEnv env t). destruct (op (storeEnv env t) td) as [r td'].
  fold (setData t td' s). rewrite (IH r _ td'); [|done|unfold setData; cbn; by rewrite lookup_insert_eq].
  destruct (run (storeEnv env t) (k r) td') as [r' td'']. unfold setData. destruct s. cbn. by rewrite insert_insert_eq.
Qed.

(** A program whose steps keep a preorder keeps it. *)
Lemma steps_run {S B} (G : S → S → Prop) `{!PreOrder G} env (p : progOn S B) s :
  (∀ s, wp (λ _ _, True) G p (λ _ _, True) s) → G s (run env p s).2.
Proof.
  revert s. induction p as [r|C op k IH|k IH]; intros s Hp; cbn [run]; [done| |].
  - pose proof (Hp s env s I) as Hc. destruct (op env s) as [r s']. destruct Hc as [Hg Hk].
    etrans; [exact Hg|]. apply IH. intros s0. by eapply wp_anywhere.
  - apply IH. intros s0. apply (Hp s0).
Qed.

Definition sameRuns (a b : tenantData) : Prop := probeRuns b = probeRuns a.
#[local] Instance sameRuns_preorder : PreOrder sameRuns.
Proof. split; [done|]. unfold sameRuns. intros a b c -> ->. done. Qed.
#[local] Instance sameRuns_about : AboutRuns sameRuns.
Proof. by intros a b. Qed.

Section outcome.
Context (A : probeArgs) (shuffle : list string → list string) (fuel : nat).

Lemma completedRun_ID run_ ev now rep : pr_ID (completedRun A run_ ev now rep) = pr_ID run_.
Proof.
  unfold completedRun. set (o := match rep with Some _ => _ | None => Observe A ev end). clearbody o.
  destruct (Verdict _ o) as [status reason]. cbv zeta. set (sr := if _ && bool_decide (status = HealthGreen) then _ else _). clearbody sr.
  destruct sr as [st rs]. match goal with |- context [withDNS A rep ?r] => destruct (withDNS_fields A rep r) as [b ->] end.
  by destruct (ob_ObservedIP o).
Qed.

(** Completing a run alone: an error leaves the tenant as it was, and without
    one the run is judged. *)
Lemma run_CompleteRun env run_ ev now td :
  (∃ e, run env (CompleteRun A run_ ev now) td = (inl e, td) ∧ (e_closed env = true ∨ probeRuns td !! pr_ID run_ = None)) ∨
  (∃ td' row, run env (CompleteRun A run_ ev now) td = (inr tt, td') ∧ probeRuns td' = <[pr_ID run_ := row]> (probeRuns td) ∧ judged A row).
Proof.
  unfold CompleteRun. rewrite run_pbind. destruct (run_tryDNS A env (pr_SenderID run_) (ob_ObservedIP (Observe A ev)) td) as [rep ->].
  unfold updateRun. rewrite run_pbind, run_call. pose proof (completedRun_ID run_ ev now rep) as Hid.
  pose proof (completedRun_judged A run_ ev now rep) as Hj. revert Hid Hj. generalize (completedRun A run_ ev now rep) as r. intros r Hid Hj.
  destruct (UpdateRun_cases env r td) as [[e He]|(cur&row&Hc&->&Htd&v&Hv)].
  - left. exists e. rewrite He. split; [done|]. revert He. unfold UpdateRun, zoomWith, Update, checked, throw. rewrite <- Hid.
    destruct (e_closed env); [by left|]. cbn. destruct (probeRuns td !! pr_ID r); [done|by right].
  - right. destruct (UpdateRun env r td) as [r1 td1]. cbn in Htd, Hv. subst. eexists _, _. split; [done|]. rewrite <- Hid.
    split; [done|by apply judged_stored].
Qed.

Definition sameData (a b : Provider) : Prop := pv_closed b = pv_closed a ∧ ∀ t, dataOf t b = dataOf t a.

(** Every run is filed under its ID. *)
Definition runsFiled (s : Provider) : Prop := ∀ t id row, probeRuns (dataOf t s) !! id = Some row → pr_ID row = id.

Lemma run_tenantGet {T} env t (l : lens tenantData (gmap string T)) id s td :
  pv_closed s = false → pv_tenants s !! t = Some td → (∀ td, lset l (lget l td) td = td) →
  run env (tcall t (λ env, zoom l (Get env id))) s =
    (match lget l td !! id with Some x => inr x | None => inl ErrNotFound end, s).
Proof.
  intros Hc Ht Hl. rewrite (run_tcall_open env t _ s td) by done. unfold zoom, Get, checked. cbn [e_closed storeEnv].
  destruct (lget l td !! id); by rewrite Hl, setData_id.
Qed.

Lemma dataOf_setData t td s t' : dataOf t' (setData t td s) = if decide (t' = t) then td else dataOf t' s.
Proof.
  unfold dataOf, setData. cbn. destruct (decide (t' = t)) as [->|Hne]; [by rewrite lookup_insert_eq|by rewrite lookup_insert_ne].
Qed.

Lemma present_setData t td s : pv_tenants (setData t td s) !! t = Some td.
Proof. unfold setData. cbn. by rewrite lookup_insert_eq. Qed.

(** The programs after the verdict: they return and leave the runs alone. *)
Lemma run_after {B} env t (p : prog B) w td :
  stepsOk (λ _ _, True) sameRuns p → pv_closed (ww_store w) = false → pv_tenants (ww_store w) !! t = Some td →
  ∃ r td', run env (webStores (inTenant t p)) w = (r, w <| ww_store := setData t td' (ww_store w) |>) ∧ probeRuns td' = probeRuns td.
Proof.
  intros Hp Hc Ht. rewrite run_webStores, (run_inTenant env t p _ td) by done.
  pose proof (steps_run sameRuns (storeEnv env t) p td Hp) as Hs. destruct (run (storeEnv env t) p td) as [r td'].
  by exists r, td'.
Qed.

Lemma run_completeInbound env t run_ box msg w td cur :
  pv_closed (ww_store w) = false → pv_tenants (ww_store w) !! t = Some td → probeRuns td !! pr_ID run_ = Some cur →
  ∃ td' row,
    run env (completeInbound A shuffle fuel t run_ box msg) w =
      (inr OutcomeAccepted, mkWebWorld (setData t td' (ww_store w)) (memoAdd (ibm_ProviderID msg) (ww_memo w))) ∧
    probeRuns td' = <[pr_ID run_ := row]> (probeRuns td) ∧ judged A row.
Proof.
  intros Hc Ht Hrow. unfold completeInbound. rewrite run_pbind. unfold webClock. rewrite run_call. cbv beta iota.
  rewrite run_handle, run_webStores, (run_inTenant env t _ _ td) by done.
  destruct (run_CompleteRun (storeEnv env t) run_ (inboundEvidence box msg) (e_clock env) td) as [(e&_&[?|?])|(td1&row&->&Hruns&Hj)];
    [done|congruence|]. cbv beta iota. rewrite run_handle.
  set (w1 := w <| ww_store := setData t td1 (ww_store w) |>).
  destruct (run_after env t (RefreshSenderHealth A shuffle fuel (pr_SenderID run_) (e_clock env)) w1 td1) as (r2&td2&->&H2);
    [rapply closing_refresh|done|apply present_setData|]. rewrite run_handle.
  set (w2 := w1 <| ww_store := setData t td2 (ww_store w1) |>).
  assert (Hbox : ∃ r3 td3, run env (match box with Some b => webStores (inTenant t (recordHealthOf A b OK (e_clock env))) | None => pret tt end) w2 =
    (r3, w2 <| ww_store := setData t td3 (ww_store w2) |>) ∧ probeRuns td3 = probeRuns td2).
  { destruct box as [b|].
    - apply (run_after env t (recordHealthOf A b OK (e_clock env)) w2 td2); [rapply closing_record|done|apply present_setData].
    - exists (inr tt), td2. cbn [run pret]. rewrite setData_id by apply present_setData. by destruct w2. }
  destruct Hbox as (r3&td3&->&H3). rewrite run_pbind. unfold webAdd. rewrite run_call. exists td3, row. split; [|by rewrite H3, H2].
  unfold w2, w1, setData. destruct w as [s m], s as [c ts]. cbn. by rewrite !insert_insert_eq.
Qed.

(** A delivery whose run is closed already. *)
Lemma run_redelivered env msg w t runID row td :
  pv_closed (ww_store w) = false → pv_tenants (ww_store w) !! t = Some td → probeRuns td !! runID = Some row → pr_Pending row = false →
  tokenOf msg ≠ "" → ParseToken (tokenOf msg) = Some (t, runID) → VerifyToken A t runID (tokenOf msg) = true →
  ∃ m, run env (handleInboundMessage A shuffle fuel msg) w = (inr OutcomeAccepted, w <| ww_memo := m |>).
Proof.
  intros Hc Ht Hrow Hp Hne Hparse Hv. unfold handleInboundMessage. fold (tokenOf msg). unfold strEq. rewrite bool_decide_eq_false_2 by done.
  rewrite run_pbind. unfold webHas. rewrite run_call. destruct (memoHas _ _); [exists (ww_memo w); by destruct w|].
  rewrite Hparse, run_handle, run_webStores, run_forTenant_open by done. cbv beta iota. unfold opened. rewrite Ht.
  rewrite run_handle, run_webStores, (run_tenantGet env t (field probeRuns) runID _ td) by (done || by intros []).
  change (lget (field probeRuns) td) with (probeRuns td). rewrite Hrow, Hv, Hp. cbn [negb]. rewrite run_pbind. unfold webAdd.
  rewrite run_call. eexists. by destruct w.
Qed.

Lemma opened_same t s : sameData s (opened t s).
Proof.
  split; [apply opened_closed|]. intros t'. unfold dataOf. destruct (decide (t' = t)) as [->|Hne].
  - rewrite opened_data. done.
  - by rewrite opened_other.
Qed.

(** The outcome of a delivery. *)
Definition inboundSpec (msg : InboundMessage) (w : webWorld) : InboundOutcome :=
  if strEq (tokenOf msg) "" then OutcomeIgnored
  else if memoHas (ibm_ProviderID msg) (ww_memo w) then OutcomeAccepted
  else
    match ParseToken (tokenOf msg) with
    | None => OutcomeIgnored
    | Some (t, runID) =>
        if pv_closed (ww_store w) then OutcomeDeferred
        else
          match probeRuns (dataOf t (ww_store w)) !! runID with
          | None => OutcomeIgnored
          | Some _ => if VerifyToken A t runID (tokenOf msg) then OutcomeAccepted else OutcomeIgnored
          end
    end.

(** What a delivery that is accepted and was not remembered has done. *)
Definition inboundDone (msg : InboundMessage) (w w' : webWorld) : Prop :=
  ∃ t runID row row', ParseToken (tokenOf msg) = Some (t, runID) ∧ VerifyToken A t runID (tokenOf msg) = true ∧
    probeRuns (dataOf t (ww_store w)) !! runID = Some row ∧
    probeRuns (dataOf t (ww_store w')) = <[runID := row']> (probeRuns (dataOf t (ww_store w))) ∧
    (if pr_Pending row then judged A row' else sameData (ww_store w) (ww_store w') ∧ row' = row) ∧
    (∀ t', t' ≠ t → dataOf t' (ww_store w') = dataOf t' (ww_store w)) ∧
    ww_memo w' = memoAdd (ibm_ProviderID msg) (ww_memo w) ∧
    ∀ env memo, ∃ memo', run env (handleInboundMessage A shuffle fuel msg) (w' <| ww_memo := memo |>) =
      (inr OutcomeAccepted, w' <| ww_memo := memo' |>).

Definition inboundResult (msg : InboundMessage) (w : webWorld) (res : (error + InboundOutcome) * webWorld) : Prop :=
  let '(r, w') := res in
  r = inr (inboundSpec msg w) ∧
  if bool_decide (inboundSpec msg w = OutcomeAccepted) && negb (memoHas (ibm_ProviderID msg) (ww_memo w))
  then inboundDone msg w w'
  else sameData (ww_store w) (ww_store w') ∧ ww_memo w' = ww_memo w.

(** With the store of its tenant open. *)
Lemma inbound_open env msg w t runID :
  runsFiled (ww_store w) → pv_closed (ww_store w) = false → tokenOf msg ≠ "" → memoHas (ibm_ProviderID msg) (ww_memo w) = false →
  ParseToken (tokenOf msg) = Some (t, runID) →
  inboundResult msg w (run env (handleInboundMessage A shuffle fuel msg) w).
Proof.
  intros Hfile Hc Hne Hmemo Hparse. unfold inboundResult, inboundSpec.
  assert (Hneq : strEq (tokenOf msg) "" = false) by (unfold strEq; by rewrite bool_decide_eq_false_2).
  rewrite Hneq, Hmemo, Hparse, Hc. unfold handleInboundMessage. fold (tokenOf msg). rewrite Hneq, run_pbind. unfold webHas. rewrite run_call, Hmemo, Hparse.
  rewrite run_handle, run_webStores, run_forTenant_open by done. cbv beta iota. set (s1 := opened t (ww_store w)).
  assert (Hc1 : pv_closed s1 = false) by (unfold s1; by rewrite opened_closed). assert (Ht1 := opened_data t (ww_store w)). fold s1 in Ht1.
  assert (Hsame := opened_same t (ww_store w)). fold s1 in Hsame. set (td := dataOf t (ww_store w)) in *.
  rewrite run_handle, run_webStores, (run_tenantGet env t (field probeRuns) runID _ td) by (done || by intros []).
  change (lget (field probeRuns) td) with (probeRuns td). destruct (probeRuns td !! runID) as [row|] eqn:Hrow; [|by cbn].
  destruct (VerifyToken A t runID (tokenOf msg)) eqn:Hv; [|by cbn]. rewrite bool_decide_eq_true_2 by done. cbn [negb andb].
  destruct (pr_Pending row) eqn:Hp; cbn [negb].
  - assert (Hid : pr_ID row = runID) by by apply (Hfile t).
    assert (Hcomp : ∀ box w1, ww_store w1 = s1 → ww_memo w1 = ww_memo w →
      let '(r, w') := run env (completeInbound A shuffle fuel t row box msg) w1 in r = inr OutcomeAccepted ∧ inboundDone msg w w').
    { intros box w1 Hs1 Hm1.
      destruct (run_completeInbound env t row box msg w1 td row) as (td'&row'&->&Hruns&Hj); [by rewrite Hs1..|by rewrite Hid|].
      split; [done|]. rewrite Hs1, Hm1, Hid in *. exists t, runID, row, row'. cbn [ww_store ww_memo].
      assert (Hd : dataOf t (setData t td' s1) = td') by (rewrite dataOf_setData; by rewrite decide_True).
      rewrite Hd, Hp. split_and!; [done..| | |].
      - intros t' Hne'. rewrite dataOf_setData, decide_False by done. apply Hsame.
      - done.
      - intros env' memo. match goal with |- ∃ _, run _ _ ?W = _ => destruct (run_redelivered env' msg W t runID row' td') as [m ->] end;
          [done|apply present_setData|by rewrite Hruns, lookup_insert_eq|apply Hj|done..|by exists m]. }
    rewrite run_handle, run_webStores, (run_tenantGet env t (field probeMailboxes) (pr_MailboxID row) _ td) by (done || by intros []).
    destruct (lget (field probeMailboxes) td !! pr_MailboxID row) as [box|]; [by apply Hcomp|].
    change (errIs ErrNotFound ErrNotFound) with true. cbv iota. by apply Hcomp.
  - rewrite run_pbind. unfold webAdd. rewrite run_call. cbn [run pret]. split; [done|]. exists t, runID, row, row. cbn [ww_store].
    assert (Hd : dataOf t s1 = td) by apply Hsame. cbn. rewrite Hd, Hp. fold td.
    split_and!; [done|done|done|by rewrite insert_id|done|done|intros t' _; apply Hsame|done|].
    intros env' memo. match goal with |- ∃ _, run _ _ ?W = _ => destruct (run_redelivered env' msg W t runID row td) as [m ->] end;
      [done..|by exists m].
Qed.

(** C40 (functional): Handling a delivery alone always answers, and with
    exactly the outcome of the state it finds: accepted if it is remembered or
    its token verifies for a run that is there, deferred if the stores are
    closed, ignored otherwise.  A delivery that is ignored, deferred or
    remembered changes no tenant's data and is not remembered for it, so a retry
    after an outage is not lost.  One that is accepted closes exactly the run its
    token names, with the evidence of the verdict, or finds it closed and
    changes nothing; other tenants keep their data, it is remembered, and a
    redelivery, at any time and whatever the server remembers, is accepted and
    changes no store. *)
Theorem inbound_outcome_exact env msg w :
  runsFiled (ww_store w) → inboundResult msg w (run env (handleInboundMessage A shuffle fuel msg) w).
Proof.
  intros Hfile. destruct (decide (tokenOf msg = "")) as [He|Hne].
  { unfold inboundResult, inboundSpec, handleInboundMessage. fold (tokenOf msg). by rewrite He. }
  assert (Hneq : strEq (tokenOf msg) "" = false) by (unfold strEq; by rewrite bool_decide_eq_false_2).
  destruct (memoHas (ibm_ProviderID msg) (ww_memo w)) eqn:Hm.
  { unfold inboundResult, inboundSpec, handleInboundMessage. fold (tokenOf msg). rewrite Hneq, run_pbind. unfold webHas. by rewrite run_call, Hm. }
  destruct (ParseToken (tokenOf msg)) as [[t runID]|] eqn:Hp.
  2: { unfold inboundResult, inboundSpec, handleInboundMessage. fold (tokenOf msg). rewrite Hneq, run_pbind. unfold webHas. by rewrite run_call, Hm, Hp. }
  destruct (pv_closed (ww_store w)) eqn:Hc; [|by eapply inbound_open].
  unfold inboundResult, inboundSpec, handleInboundMessage. fold (tokenOf msg). rewrite Hneq, run_pbind. unfold webHas. rewrite run_call, Hm, Hp, Hc.
  rewrite run_handle, run_webStores, run_call. unfold ForTenant, pchecked. by rewrite Hc.
Qed.
End outcome.

(** ** The memo *)

(** What the memo is at all times: the last deliveries in order, each once. *)
Definition memoInv (m : deliveryMemo) : Prop :=
  NoDup (dm_order m) ∧ (∀ id, id ∈ dm_seen m ↔ id ∈ dm_order m) ∧ "" ∉ dm_order m ∧ len (dm_order m) ≤ seenProviderIDs.

(** The memo is bounded and consistent from the start and after every
    delivery; the newest one is remembered, and only the oldest is forgotten. *)
Theorem memo_bounded m id :
  memoInv newDeliveryMemo ∧
  (memoInv m → memoInv (memoAdd id m) ∧ (id ≠ "" → memoHas id (memoAdd id m) = true) ∧
    ∀ id', memoHas id' m = true → memoHas id' (memoAdd id m) = false →
      head (dm_order m) = Some id' ∧ len (dm_order m) = seenProviderIDs).
Proof.
  split. { split_and!; [constructor|by intros id'; cbn; set_solver|by apply not_elem_of_nil|done]. }
  intros (Hnd&Hiff&Hne&Hlen). unfold memoAdd, memoHas, strEq. case_bool_decide as He; [split_and!; [done|done|intros; congruence]|].
  case_bool_decide as Hin; [split_and!; [done|by rewrite bool_decide_eq_true_2|intros; congruence]|]. cbn [dm_order dm_seen].
  assert (Hnew : id ∉ dm_order m) by by rewrite <- Hiff.
  destruct (Z.ltb_spec seenProviderIDs (len (dm_order m ++ [id]))) as [Hlt|Hge].
  - destruct (dm_order m) as [|oldest order] eqn:Ho; [by unfold len, seenProviderIDs in Hlt; cbn in Hlt|]. cbn [app].
    apply NoDup_cons in Hnd as [Hold Hnd]. assert (Hoi : id ≠ oldest) by set_solver.
    unfold len in *. rewrite length_app in Hlt. cbn in Hlt, Hlen |- *. split_and!.
    + split_and!; cbn; [|set_solver|set_solver|unfold len; rewrite length_app; cbn; lia].
      apply NoDup_app. split_and!; [done|set_solver|apply NoDup_singleton].
    + intros _. rewrite bool_decide_eq_true_2 by set_solver. done.
    + intros id' Hhas Hno. case_bool_decide; [done|]. apply bool_decide_eq_true in Hhas. apply bool_decide_eq_false in Hno.
      split; [|lia]. destruct (decide (id' = oldest)) as [->|Hx]; [done|set_solver].
  - split_and!.
    + split_and!; cbn; [|set_solver|set_solver|done]. apply NoDup_app. split_and!; [done|set_solver|apply NoDup_singleton].
    + intros _. cbn. rewrite bool_decide_eq_true_2 by set_solver. done.
    + intros id' Hhas Hno. cbn in Hno. case_bool_decide; [done|]. apply bool_decide_eq_true in Hhas. apply bool_decide_eq_false in Hno. set_solver.
Qed.

(** ** The routes *)

Lemma routeOf_spec reg seen w r :
  routeOf reg seen w = inr r →
  (∃ p, reg !! wb_Provider w = Some p ∧ ip_Verify (rt_Provider r) = ip_Verify p) ∧ rt_Path r ∉ seen ∧
  rt_Secrets r ≠ [] ∧ "" ∉ rt_Secrets r ∧ (∀ s, s ∈ rt_Secrets r → s ∈ wb_Secrets w).
Proof.
  unfold routeOf, LookupProvider. destruct (reg !! wb_Provider w) as [p|]; [|done]. case_bool_decide as Hs; [done|].
  destruct (_ && _); [done|]. destruct (_ && (wb_Tolerance w <? 0)); [done|]. case_bool_decide as Hp; [done|]. intros [= <-]. cbn.
  split_and!; [exists p; split; [done|by destruct (wb_Tolerance w =? 0)]|done|done|..].
  - intros [Hx _]%list_elem_of_filter. done.
  - by intros s [_ Hin]%list_elem_of_filter.
Qed.

(** Every route of a configuration that is accepted has a path of its own, a
    registered provider and a secret, none of them empty; there is one for
    every webhook. *)
Theorem routes_exact reg webhooks out :
  probeInboundRoutes reg true webhooks = inr out →
  NoDup (rt_Path <$> out) ∧
  Forall2 (λ w r, (∃ p, reg !! wb_Provider w = Some p ∧ ip_Verify (rt_Provider r) = ip_Verify p) ∧
    rt_Secrets r ≠ [] ∧ "" ∉ rt_Secrets r ∧ ∀ s, s ∈ rt_Secrets r → s ∈ wb_Secrets w) webhooks out.
Proof.
  assert (Hgen : ∀ ws seen acc, routesFrom reg ws seen acc = inr out → NoDup (rt_Path <$> acc) →
    (∀ p, p ∈ rt_Path <$> acc → p ∈ seen) → ∃ rest, out = acc ++ rest ∧ NoDup (rt_Path <$> out) ∧
      Forall2 (λ w r, (∃ p, reg !! wb_Provider w = Some p ∧ ip_Verify (rt_Provider r) = ip_Verify p) ∧
        rt_Secrets r ≠ [] ∧ "" ∉ rt_Secrets r ∧ ∀ s, s ∈ rt_Secrets r → s ∈ wb_Secrets w) ws rest).
  { intros ws. induction ws as [|w ws IH]; intros seen acc; cbn [routesFrom].
    - intros [= <-] Hnd _. exists []. by rewrite app_nil_r.
    - destruct (routeOf reg seen w) as [e|r] eqn:Hr; [done|]. apply routeOf_spec in Hr as (Hp&Hpath&Hs&He&Hsub). intros Hrec Hnd Hseen.
      destruct (IH _ _ Hrec) as (rest&->&Hnd'&Hall).
      + rewrite fmap_app. apply NoDup_app. split_and!; [done| |apply NoDup_singleton]. intros p Hp1 Hp2%list_elem_of_singleton. subst. by apply Hpath, Hseen.
      + intros p. rewrite fmap_app, elem_of_app, elem_of_union, elem_of_singleton. intros [Hp1|Hp1%list_elem_of_singleton]; [right; by apply Hseen|by left].
      + exists (r :: rest). rewrite <- app_assoc in *. split_and!; [done|done|]. by constructor. }
  unfold probeInboundRoutes. case_bool_decide as He; cbn.
  - intros [= <-]. subst. split; constructor.
  - intros Hr. destruct (Hgen webhooks ∅ [] Hr) as (rest&->&Hnd&Hall); [constructor|by intros p Hp%elem_of_nil|done].
Qed.

(** ** The subject *)

Lemma afterText_app sep s : afterText sep (sep +:+ s) = Some s.
Proof.
  assert (Hp : String.prefix sep (sep +:+ s) = true) by apply prefix_app.
  assert (Hd : strDrop (String.length sep) (sep +:+ s) = s) by by rewrite strDrop_app.
  destruct (sep +:+ s) as [|c r] eqn:E; cbn [afterText]; by rewrite Hp, Hd.
Qed.

(** The run is read back from the subject its mail was sent with. *)
Theorem subject_roundtrip runID :
  runID ≠ "" → hasByte (toByte 93) runID = false → probeRunIDFromSubject (Subject runID) = Some runID.
Proof.
  intros Hne Hb. unfold probeRunIDFromSubject, Subject. rewrite afterText_app.
  change "]" with (String (toByte 93) ""). rewrite cutByte_app by done. unfold strEq. by rewrite bool_decide_eq_false_2.
Qed.

(** ** What the channel does not promise *)

(** A collector that has listed a run as waiting and finds it overdue saves it
    as undelivered whatever became of it since: the verdict of a mail that was
    posted in between is overwritten, and the run counts as a miss. *)
Theorem stale_timeout_overwrites A env fuel run_ subject td row :
  e_closed env = false → "" ∉ dom (probeRuns td) → (size (probeRuns td) < fuel)%nat →
  probeRuns td !! pr_ID run_ = Some row → judged A row →
  ∃ td' row', run env (finishUndelivered A fuel run_ subject) td = (inr tt, td') ∧ probeRuns td' !! pr_ID run_ = Some row' ∧
    pr_Delivered row = true ∧ pr_Delivered row' = false ∧ pr_Status row' ≠ HealthGreen.
Proof.
  intros Hc Hd Hf Hrow (_&Hdel&_). destruct (probe_silence_streak A env fuel run_ subject td row Hc Hd Hf Hrow) as (missed&rest&row'&_&_&_&Hrun&_&Hdel'&Hst).
  eexists _, row'. split_and!; [exact Hrun|cbn; by rewrite lookup_insert_eq|done|done|]. rewrite Hst. by destruct (_ <=? _).
Qed.

(** The results of a receiver that come under two spellings of one name. *)
Definition twoSpellings : gmap string (list string) :=
  {["Authentication-Results" := ["mx; dmarc=pass"]; "authentication-results" := ["mx; dmarc=fail"]]}.

(** Their order is the order in which the map happens to be ranged over. *)
Lemma spellings_unordered :
  canonicalHeaders id twoSpellings !! "Authentication-Results" ≠ canonicalHeaders reverse twoSpellings !! "Authentication-Results" ∧
  canonicalHeaders id twoSpellings !! "Authentication-Results" ≠ None.
Proof. by vm_compute. Qed.

(** A name that is no header token and holds none of five bytes stays. *)
Lemma invalid_name_kept : canonicalHeaders id {["a(b)" := ["x"]]} !! "a(b)" = Some ["x"].
Proof. by vm_compute. Qed.

(** ** Instances *)

(** A probe mail that DMARC refused, forwarded and signed. *)
Definition postedMail : InboundMessage :=
  mkInboundMessage "d1" "news@example.com" []
    {["Authentication-Results" := ["mx.google.com; spf=pass smtp.mailfrom=x; dkim=pass header.d=x; dmarc=fail"];
      "X-Sendplane-Probe" := ["acme/r4/0123456789abcdef"]]} "".

Definition postedWorld : webWorld := mkWebWorld (mkProvider false {["acme" := probedData]}) newDeliveryMemo.

Definition postedBody : string := "{...}".
Definition postedProvider : InboundProvider :=
  hookProvider padMAC (λ _, "sha") (λ _, Some (mkHookPayload (ibm_From postedMail) [] (ibm_Headers postedMail) "")) id.
Definition postedRoute : ProbeInboundRoute := mkProbeInboundRoute "/probe/inbound/sendplane" postedProvider ["secret"].
Definition postedEnv : Env := mkEnv false sampleAt "" (λ _, "id").
Definition postedHeader (secret name : string) : string :=
  if strEq name HeaderSignature then sigSign padMAC secret sampleAt postedBody else "".

(** A request with the right signature, and one without. *)
Definition postedRequest (secret : string) : progOn webWorld inboundReply :=
  probeInboundHandler sampleProbeArgs id 5 postedRoute true (postedHeader secret) postedBody false.

Lemma inbound_writes_verified_witness :
  let w' := (run postedEnv (postedRequest "secret") postedWorld).2 in
  Forall (λ s, webStep sampleProbeArgs (grantedBy sampleProbeArgs postedRoute true (postedHeader "secret") postedBody false) s.1 s.2)
    (steps postedEnv (postedRequest "secret") postedWorld) ∧
  (run postedEnv (postedRequest "secret") postedWorld).1 = inr (textReply 200 "" "accepted") ∧
  pr_Status <$> probeRuns (dataOf "acme" (ww_store w')) !! "r4" = Some HealthRed ∧
  run postedEnv (postedRequest "other") postedWorld = (inr (errorReply 401 "unauthenticated" ""), postedWorld).
Proof.
  intros w'. split; [|split; [|split]; vm_compute; reflexivity].
  apply (inbound_writes_verified sampleProbeArgs id 5 postedRoute true (postedHeader "secret") postedBody false postedWorld _
    (run postedEnv (postedRequest "secret") postedWorld).1 (run postedEnv (postedRequest "secret") postedWorld).2).
  apply (steps_exec_idle keepsTenants). apply Forall_true. by intros s t.
Defined.

Lemma postedWorld_filed : runsFiled (ww_store postedWorld).
Proof.
  intros t id row. unfold dataOf, postedWorld. cbn [ww_store pv_tenants]. destruct (decide (t = "acme")) as [->|Hne].
  - rewrite lookup_singleton_eq. intros Hr%elem_of_list_to_map_2. by apply list_elem_of_fmap in Hr as (x&[= -> ->]&_).
  - rewrite lookup_singleton_ne by done. done.
Qed.

Lemma inbound_outcome_exact_witness :
  inboundDone sampleProbeArgs id 5 postedMail postedWorld
    (run postedEnv (handleInboundMessage sampleProbeArgs id 5 postedMail) postedWorld).2.
Proof.
  pose proof (inbound_outcome_exact sampleProbeArgs id 5 postedEnv postedMail postedWorld postedWorld_filed) as H.
  unfold inboundResult in H. destruct (run postedEnv _ postedWorld) as [r w']. destruct H as [_ H].
  assert (Hs : inboundSpec sampleProbeArgs postedMail postedWorld = OutcomeAccepted) by (vm_compute; reflexivity).
  rewrite Hs in H. exact H.
Defined.
